(* ===== verification/_CoqProject ===== *)
-Q . S2P
Prelude.v
Errors.v
Hashing.v
MerkleTree.v
MerkleProof.v
Consistency.v
Json.v
Wql.v
PoolTypes.v
Encryption.v
Crypto.v
QueryEncryption.v
WqlToSql.v
Storage.v
SqliteStorage.v
SqliteFacts.v
Wallet.v
Stream.v
ExportImport.v
WalletService.v
WalletServiceFacts.v
IndyWallet.v
ToyTexts.v
CryptoCommands.v
CryptoFacts.v
RequestSigning.v
SigningFacts.v
Anoncreds.v
AnoncredsFacts.v
VerifierFacts.v
ProverCommands.v
ProverFacts.v
BlobStorage.v
Tails.v
TailsFacts.v
Revocation.v
IssuerCommands.v
ToyIssuer.v
IssuerFacts.v
RegistryFacts.v
World.v
MerkleFactory.v
Catchup.v
Response.v
Trie.v
StateProof.v
RequestHandler.v
RequestFacts.v
CatchupReply.v
FullRequest.v
Networker.v
NetworkerFacts.v
Liveness.v
PoolSM.v
PoolFacts.v
LedgerTypes.v
LedgerService.v
LedgerCommands.v
LedgerFacts.v
DidCommands.v
DidFacts.v
PoolService.v
PoolCommands.v
PoolSystem.v
PoolServiceFacts.v
