(* ===== verification/Prelude.v ===== *)
(** * libindy: a verification library

    The library models four parts of libindy.  One talks to a pool of ledger nodes: the
    ledger that a client keeps of the pool's own transactions, the state machines that
    send requests to the nodes and judge their answers, the proofs that let one node
    answer for all, and the networker that carries the messages.  The second keeps
    secrets: encrypted wallets, their query language, the storage of them in SQL tables,
    and their backups.  The third issues credentials, and makes and verifies proofs about
    the credentials in a wallet.  The fourth keeps keys, and packs messages and
    signs requests with them.  All paths below are under [libindy/src/].

    ** The program

    A client opens a pool.  One thread per pool runs [services/pool/pool.rs]: it reads
    the ledger of the pool from disk, asks the nodes for the state of theirs, catches up
    if they agree on a longer one, and is then active: every request of the user becomes
    a request handler, a state machine of its own, that is given the replies of the nodes
    and the timeouts, and tells the command executor the outcome.  The thread, the
    handlers, the file system and the executor meet in [World.v].  What a handler sends
    goes to the networker ([services/pool/networker.rs]), which owns the sockets and the
    timers and gives the replies and timeouts back ([Liveness.v] closes that loop).

    A wallet is a storage and keys.  [services/wallet/mod.rs] creates, opens, exports and
    imports wallets and passes the operations on records to [Wallet], which encrypts
    types, names, values and tags and searches by encrypted tags; a storage sees nothing
    else.  The default storage is an SQLite database; a query is parsed, encrypted and
    translated to SQL.

    An issuer keeps schemas' definitions and their keys in a wallet, and for revocation a
    registry: a counter, a set of indices, and a file of tails in blob storage.  A
    credential is a record of the prover's wallet.  A verifier asks for attributes and predicates;
    the prover chooses credentials for them, and [services/anoncreds/] makes a proof of
    them, or checks one, by calls of a cryptographic library.

    ** The files, in order

    Shared:

    - [Prelude.v]: outcomes of Rust computations (value, error, unwinding), the monad of
      computations with a state, [usize] and [isize], bytes and strings, decimal numbers,
      iterators of hash maps, automation.
    - [Errors.v]: [errors/mod.rs] and the codes of [api/mod.rs].
    - [Hashing.v]: [utils/crypto/hash/openssl.rs].
    - [Json.v]: serde_json's values.

    The pool:

    - [MerkleTree.v], [MerkleProof.v], [Consistency.v]: [services/ledger/merkletree/]:
      the trees ([tree.rs], [merkletree.rs]), inclusion proofs ([proof.rs]), appending,
      looking up a hash and consistency proofs ([mod.rs]).
    - [PoolTypes.v]: [services/pool/types.rs], [services/pool/events.rs] and
      [utils/crypto/verkey_builder.rs]: messages, node transactions, events.
    - [World.v]: what the pool thread sees of its surroundings, and the monad of its
      computations, with the predicates on computations that the theorems use.
    - [MerkleFactory.v]: [services/pool/merkle_tree_factory.rs]: the genesis file, the
      cache file, the nodes of a ledger.
    - [Catchup.v]: [services/pool/catchup.rs]: the votes of the nodes on the ledger.
    - [Response.v]: [domain/ledger/response.rs] and the metadata of replies of
      [services/pool/mod.rs].
    - [Trie.v], [StateProof.v]: [services/pool/state_proof/node.rs] and [mod.rs].
    - [RequestHandler.v]: [services/pool/request_handler.rs]; its theorems are in
      [RequestFacts.v], [CatchupReply.v] (catching up) and [FullRequest.v] (requests that
      all nodes answer).
    - [Networker.v]: [services/pool/networker.rs]; its theorems are in
      [NetworkerFacts.v], those on a handler and a networker together in [Liveness.v].
    - [PoolSM.v]: [services/pool/pool.rs]; its theorems are in [PoolFacts.v].

    The wallet:

    - [Wql.v]: [services/wallet/language.rs]: queries, and which tags satisfy them.
    - [Encryption.v]: [services/wallet/encryption.rs], the keys of
      [services/wallet/wallet.rs] and the wrappers of [utils/crypto/].
    - [QueryEncryption.v]: [services/wallet/query_encryption.rs].
    - [WqlToSql.v]: [services/wallet/storage/default/query.rs]: the SQL text of a query,
      and a grammar of SQL expressions in which it is read back.
    - [Storage.v]: [services/wallet/storage/mod.rs]: the traits of storages and their
      iterators, with their contract [WalletStorageLaws]: a map of encrypted entries.
    - [SqliteStorage.v]: [services/wallet/storage/default/mod.rs] on tables that are
      lists of rows, and [transaction.rs]; [SqliteFacts.v] discharges the contract.
    - [Wallet.v]: [services/wallet/wallet.rs] and [iterator.rs] over any storage.
    - [Stream.v]: [Writer] and [Reader] of
      [utils/crypto/chacha20poly1305_ietf/sodium.rs]: encryption in chunks.
    - [ExportImport.v]: [services/wallet/export_import.rs]: the export file.
    - [WalletService.v]: [services/wallet/mod.rs]; its theorems are in
      [WalletServiceFacts.v], with the default storage as a storage type.

    Credentials:

    - [Anoncreds.v]: [services/anoncreds/helpers.rs], [prover.rs], [verifier.rs], the types
      of [domain/anoncreds/] and the command of [commands/anoncreds/verifier.rs]; its
      theorems are in [AnoncredsFacts.v] (proofs that are made are accepted) and
      [VerifierFacts.v] (what an accepted proof says, and what it does not).
    - [ProverCommands.v]: [commands/anoncreds/prover.rs] over the wallet service; its
      theorems are in [ProverFacts.v].
    - [BlobStorage.v]: [services/blob_storage/], large files by their hash, and [Tails.v]:
      [commands/anoncreds/tails.rs], the tails file of a revocation registry; their
      theorems are in [TailsFacts.v].  [Revocation.v]: the accessor of tails that
      indy-crypto calls back, and the revocation states of [commands/anoncreds/prover.rs].
    - [IndyWallet.v]: the operations of the wallet service that commands use, as an
      interface, with the service and the map of its records as instances.
    - [IssuerCommands.v]: [commands/anoncreds/issuer.rs] and
      [services/anoncreds/issuer.rs] over that interface; its theorems are in
      [IssuerFacts.v] (the service and the map) and [RegistryFacts.v] (registries and
      identifiers), with the instances of [ToyIssuer.v].

    Keys and messages:

    - [Crypto.v]: [services/crypto/], [domain/crypto/] and the wrappers of libsodium:
      keys, signatures, boxes.
    - [CryptoCommands.v]: [commands/crypto.rs] over [IndyWallet]: signing, boxes, packed
      messages; its theorems are in [CryptoFacts.v].  [ToyTexts.v] has texts to run
      commands on.
    - [RequestSigning.v]: [utils/crypto/signature_serializer.rs] and the commands of
      [commands/ledger.rs] that sign requests; its theorems are in [SigningFacts.v].

    Requests to the ledger:

    - [LedgerTypes.v]: [domain/ledger/]: operations, as the fields that serde prints, and
      results; [LedgerService.v]: [services/ledger/mod.rs]; [LedgerCommands.v]: the
      methods of [commands/ledger.rs] that build requests and read replies.  Their
      theorems are in [LedgerFacts.v].
    - [DidCommands.v]: [commands/did.rs]: DIDs in a wallet, and the commands that wait
      for the ledger; its theorems are in [DidFacts.v].

    Pools and the command thread:

    - [PoolService.v]: [PoolService] of [services/pool/mod.rs] with its files and sockets,
      and [services/pool/commander.rs]; [PoolCommands.v]: [commands/pool.rs] and the
      commands of [commands/ledger.rs] that send requests; [PoolSystem.v]: the command
      thread and the threads of [PoolSM.v] in any interleaving.  Their theorems are in
      [PoolServiceFacts.v].

    A definition has the name of the Rust item that it translates.  A [match] on a pair
    of state and event, which the source writes in one function, is a definition per
    state ([handle_active] for the arm of [PoolState::Active]) and a dispatcher; a loop
    is a [Fixpoint] with a name of its own.  A method that changes [self] returns the
    changed value; one that returns [Result] is in the monad [outcome], and one that
    reads or writes files or sends messages is in the monad [M] of [World.v]; those of
    the wallet are in [StateM], over the database, the stream or the service.

    ** Interfaces

    What is not part of the repository is a class.  Its instances at the end of a file
    ([ToySha], [ToyRlp] and so on) are concrete functions, and the witnesses of the
    theorems run on them.

    - [Sha256] (OpenSSL), [Rlp] and SHA-3 ([Trie.v]), [ProofLibs] (BLS verification,
      base64 and the parser that a plugin registers), [Bls], [Base58], [Sodium].
    - [JsonText], [PoolCodecs], [ResponseCodec], [SpParsers]: the text formats and the
      parsers and printers that serde derives.
    - [Base64] ([Wql.v]), and what the networker is given: [Rng], the clock, ZeroMQ.
    - [ChaCha20Poly1305], [HmacSha256], [Argon2i] (libsodium): a seal is opened with the
      key and nonce it was made with, and the length of a seal.  That keys differ, or that
      nothing else opens, is assumed by name in the theorems that need it.
    - [KeysCodec], [OptionCodecs], [ExportCodecs], [MetadataCodec], [IndyObject]: serde.
      [Sqlite]: the order of a scan and whether foreign keys are on; [LikePattern]: LIKE.
      [SqlitePaths], [Disk]: paths and disks.  Random keys, salts and nonces are
      arguments.
    - [CL] ([Anoncreds.v]): the signatures of indy-crypto, with the contract [CLLaws]
      ([AnoncredsFacts.v]): a request is a set, and a proof made of parts that can be
      proved is accepted for them.  That nothing else is accepted is not assumed: the
      theorems on accepted proofs say what was checked.  [Unicode]: lower case.
    - [IndyWallet]: what a command needs of wallets.  A command that is written against it
      does to the wallet service what it does to a map ([issuer_refines_map]); theorems on
      registries are about the map.  [ObjectLaws]: serde reads what it printed.
    - [Ed25519] with [Ed25519Laws], [CryptoTexts], [PackCodecs] ([Crypto.v],
      [CryptoCommands.v]): libsodium, base64, hex, msgpack and JSON, and what they document:
      a key pair verifies what it signed and opens what was boxed for it, parsers read what
      was printed.  That nobody else can is not assumed.
    - [LedgerCodecs] ([LedgerTypes.v]): what serde reads of replies and constraints, and how
      values of indy-crypto are printed in a request; [DidCodecs] ([DidCommands.v]): replies
      to [GET_NYM] and [GET_ATTR].  [DidTypes] ([DidFacts.v]): the types of records differ.
    - [Paths] ([PoolService.v]): [std::path] and the home of the pools; [PoolConfigCodec]:
      serde.  How calls on files and sockets go is a plan in the state.
    - [CLRevocation], [CLIssuer]: deltas, witnesses and signing of indy-crypto, without a
      contract: the theorems say what the commands do with whatever it returns.
    - [TailsLib] ([Tails.v]): the tails of indy-crypto and their bytes.  [BlobPaths]: paths
      and the configurations of blob storage.  How the calls of the file system go is a
      plan in the state of [BlobStorage.v].
    - [HashOrder]: the order in which a Rust hash map is iterated.  It is an argument,
      so that every theorem holds for every order.
    - [Machine]: the width of [usize].
    - [RequestHandler] ([PoolSM.v]) is the trait of the source, and [RequestHandlerLaws]
      ([PoolFacts.v]) states what the pool relies on: which commands a handler holds,
      that it answers each once, that it is finished when it says so.  The theorems on
      the pool are proved against that class, and [RequestHandlerImplLaws] discharges it
      from the lemmas of [RequestFacts.v].
    - [WalletStorage] with [WalletStorageLaws] ([Storage.v]), [MetadataLaws] and
      [StorageTypeLaws] ([WalletServiceFacts.v]): what wallets rely on in a storage and
      a storage type.  The wallet and the service are proved against them;
      [SQLiteStorageLaws], [SQLiteMetadata] and [SQLiteTypeLaws] discharge them for the
      default storage, when foreign keys are enforced.
    - [Write] with [WriteLaws] ([Stream.v]): files, [BufWriter] and [Writer] accept what
      they are given.

    ** What the theorems show

    - The trees are those of RFC 6962 ([from_vec_rfc6962], [append_rfc6962]); inclusion
      and consistency proofs are complete, and sound unless the messages hashed contain a
      collision ([gen_proof_validates], [validate_sound], [consistency_proof_sound] and
      its neighbours).  Collision freedom is asked only of the finite list of messages
      that the trees and the proof at hand give.
    - The ledger on disk: what is dumped is read back, a cut anywhere in an appended
      cache loses whole records at its end only, and what the genesis file and its cache
      disagree on ([cache_roundtrip], [cache_crash_safe], [genesis_cache_blank_lines],
      [interrupted_first_dump]).
    - Catching up: the target was voted for by the nodes, the request asks for the range
      that is missing, and a reply extends the ledger by transactions that the nodes
      agreed on ([catchup_target_voted], [catchup_req_for_target],
      [catchup_reply_sound], [catchup_reply_accepted]).
    - State proofs: an accepted proof was signed by enough nodes and fixes the value of
      its key ([state_proof_sound], [state_proof_unforgeable]); every lookup ends
      ([trie_lookup_total]).
    - Requests: a handler answers each of its commands once ([request_answered_once]); an
      answer by consensus has more than [f] nodes behind it ([consensus_agreement]); an
      answer of one node has a consensus or a fresh state proof behind it
      ([single_answer_justified]); counting the nodes does not go below zero
      ([consensus_request_total]); a full request collects what the nodes said
      ([full_request_collects]).
    - The pool: a command is answered at most once in any run
      ([commands_answered_at_most_once]), a close answers everything pending and ends the
      thread ([close_answers_pending], [loop_ends_iff_close]), the transitions are the
      documented ones ([pool_transitions]), and the connected nodes are the usable
      validators of the ledger ([connected_nodes]).
    - The networker is a map from requests to the nodes they wait for
      ([networker_refines]), resends in turn ([resend_round_robin]), and together with a
      request handler always has a timeout left that moves an unfinished request on
      ([consensus_never_hangs], [full_request_never_hangs]).
    - Queries: what is parsed means what the JSON means ([parse_denotes]), and encrypting
      it and translating it to SQL do not change which records it selects
      ([search_faithful], [wql_to_sql_correct]); so a search finds what it should
      ([wallet_search_correct]).
    - Records: the tables implement the map of encrypted entries ([sqlite_refines_map]),
      a wallet over such a storage a map of plain records ([wallet_refines_map]), and the
      service gives each handle its own ([service_refines_map], [upsert_then_get]).
    - Wallets: a created wallet is opened by its passphrase, a new passphrase replaces the
      old one ([created_wallet_opens], [rekeyed_wallet_opens]).  A stream of chunks is
      read back ([stream_roundtrip]), a wallet is restored from its backup
      ([export_import_roundtrip], [backup_restores]), a cut file is refused
      ([truncated_export_refused]), and a failed import is undone
      ([import_all_or_nothing]).
    - Credentials: a proof that was made for a request is accepted
      ([created_proof_verifies]); an accepted proof is one that the cryptography accepted
      for exactly the requested names and predicates that point to each credential
      ([accepted_was_checked]), and nothing more was looked at
      ([values_and_restrictions_unchecked], [out_of_range_accepted]).  A request is offered
      the credentials of the wallet that it can use and no others ([credentials_offered]),
      among them every one that was stored ([stored_credential_offered]), in pages
      ([credentials_in_pages]); and the proof made of them is accepted
      ([wallet_proof_verifies]).
    - Issuing: a registry is a counter and a set of active credentials, and the commands
      change it as their names say or not at all ([registry_commands]); indices are given
      once and in turn ([indices_given_once]), a full registry refuses
      ([full_registry_refuses]), a new one is empty and its tails can be read
      ([registry_created]); identifiers are taken apart again ([ids_read_back]).
    - Tails: what the threads make is stored in order and read back by index, whatever
      the order in which they end ([tails_read_back]); a tail that cannot be made unwinds
      the command ([failed_tail_unwinds]), a short write is not noticed
      ([short_write_unnoticed]).
    - Messages: what is signed, boxed or packed for keys that the service made is verified,
      opened or unpacked by them ([boxes_and_signatures], [packed_message_unpacks]); an
      unpacked text was sealed with its recipients, under a key that came from the reported
      sender's ([unpacked_was_sealed]); commands on keys do to the service what they do to
      the map ([crypto_refines_map]).
    - Signed requests: a signature is over the request as it is sent, whatever signatures
      it has ([signed_request_verifies]), and many can sign one ([signers_all_verify]);
      the signed text does not tell all requests apart ([signed_text_ambiguous]).
    - Requests: what a command builds has its submitter and its type ([built_request]), only
      restarts and validator information pass for actions ([built_actions]), identifiers
      are requested as what they were made of ([ids_requested]), numbers grow with the clock
      unless it steps between two readings ([request_numbers]); a reply is taken apart when
      it has the type that was asked for ([replies_judged]).
    - DIDs: every callback is called once or waits for the ledger
      ([callbacks_called_once]); the key of a DID that only the ledger knows is fetched
      ([their_key_fetched]); keys are replaced in two steps ([keys_replaced]); what is left
      when creating a DID fails ([my_did_created]); an abbreviated verkey is written out
      again ([abbreviated_verkey_full]); on a service the commands do what they do on a map
      ([dids_follow]).
    - Pools together with the command thread: what is written to a socket is what the
      thread reads ([command_fetched]); every message, every command of a thread and
      every answer belongs to one callback that waits ([answers_expected]); a close comes
      back ([closed_pool_told]); what creating a pool leaves on disk ([pool_created]).
    - Where the code does not do what it means to, a theorem says what it does instead
      ([one_node_blocks_catchup], [refresh_drops_pending], [refresh_failure_not_told],
      [malformed_proof_unwinds], [in_of_one_fails], [orphaned_tags], [chunk_size_unwinds],
      [export_to_full_disk], [opened_twice], [import_leaves_storage],
      [fetch_returns_all_that_is_left], [revoked_index_issued], [missing_iv_unwinds],
      [invalid_verkey_accepted], [exit_request_lost], [same_name_opened_twice],
      [half_created_pool] and others).

    ** Fuel

    Recursions that are not structural have fuel, and the fuel that the definitions pass
    is enough: for the levels of a tree the number of nodes of the level, for the loops
    on a node index of a consistency proof its number of bits, for decoding a trie node
    the size of its encoding, for looking up a key a bound on the number and the depths
    of the nodes, for reading a cache the length of the file, for taking the transactions
    of a reply their number; for reading SQL the length of the text; for writing and
    reading a stream the bytes that are there, since every round takes one, and the
    interruptions that its plan lists; for an import the length of the file.  An export
    and the commands that read a whole search take their fuel as an argument, and the
    theorems ask for more than the records of the wallet.  The theorems whose names end in [_total], and
    [decode_behaviour], show that [OutOfFuel] is not an outcome.

    ** What is not modelled

    Sockets themselves, threads and their scheduling (a run is the list of the events that
    the thread took from its queue), the C interface, log messages and the texts of
    errors.  [list_my_dids_with_meta] of [commands/did.rs], which reads all DIDs.  The SQL engine is a model of the statements that the code runs: tables with
    their keys, cascades and transactions, not files and locks.  Storages that an
    application plugs in ([services/wallet/storage/plugged/], C callbacks) are instances
    of the interface that are not given here.  A thread that is joined is not waited
    for: whether it has unwound is looked up.  The rest of the command executor
    ([commands/]), libvcx and the command line client are outside the library. *)

From Stdlib Require Import Strings.Ascii Strings.Byte.
From stdpp Require Export base tactics list gmap strings fin_maps pretty.

(** ** Outcomes of Rust computations

    [outcome E A] is what a Rust function of type [Result<A, E>] can do: return
    [Ok a], return [Err e], or unwind ([Panic]: a failed [assert!], an [unwrap] of
    [None] or [Err], an index out of bounds, an arithmetic overflow in a build with
    overflow checks).  [OutOfFuel] is the model's own: a loop written with fuel ran
    out of it; the termination theorems show that it never appears. *)
Inductive outcome (E A : Type) : Type :=
| Ok (a : A)
| Err (e : E)
| Panic
| OutOfFuel.
Arguments Ok {E A} a.
Arguments Err {E A} e.
Arguments Panic {E A}.
Arguments OutOfFuel {E A}.

#[export] Instance outcome_ret {E} : MRet (outcome E) := fun A a => Ok a.

#[export] Instance outcome_bind {E} : MBind (outcome E) := fun A B f m =>
  match m with
  | Ok a => f a
  | Err e => Err e
  | Panic => Panic
  | OutOfFuel => OutOfFuel
  end.

#[export] Instance outcome_fmap {E} : FMap (outcome E) := fun A B f m =>
  match m with
  | Ok a => Ok (f a)
  | Err e => Err e
  | Panic => Panic
  | OutOfFuel => OutOfFuel
  end.

(** [opt.ok_or(e)?] *)
Definition ok_or {E A} (o : option A) (e : E) : outcome E A :=
  match o with Some a => Ok a | None => Err e end.

(** [opt.unwrap()] *)
Definition unwrap {E A} (o : option A) : outcome E A :=
  match o with Some a => Ok a | None => Panic end.

(** [assert!(b)] *)
Definition assert_that {E} (b : bool) : outcome E unit :=
  if b then Ok tt else Panic.

(** [res.is_ok()] *)
Definition is_ok {E A} (m : outcome E A) : bool :=
  match m with Ok _ => true | _ => false end.

(** [for x in l { acc = f(acc, x)?; }] *)
Fixpoint foldM {E A B} (f : A -> B -> outcome E A) (l : list B) (acc : A) : outcome E A :=
  match l with
  | [] => Ok acc
  | x :: l' => acc' ← f acc x; foldM f l' acc'
  end.

(** [l.into_iter().map(f).collect::<Result<Vec<_>, _>>()], or the loop that pushes
    [f(x)?] on a fresh vector. *)
Fixpoint mapM {E A B} (f : A -> outcome E B) (l : list A) : outcome E (list B) :=
  match l with
  | [] => Ok []
  | x :: l' => y ← f x; ys ← mapM f l'; Ok (y :: ys)
  end.

Section outcome_lemmas.
Context {E : Type}.

Lemma bind_Ok {A B} (m : outcome E A) (f : A -> outcome E B) b :
  m ≫= f = Ok b <-> exists a, m = Ok a /\ f a = Ok b.
Proof. destruct m; cbn; split; naive_solver. Qed.

Lemma bind_Err {A B} (m : outcome E A) (f : A -> outcome E B) e :
  m ≫= f = Err e <-> m = Err e \/ exists a, m = Ok a /\ f a = Err e.
Proof. destruct m; cbn; split; naive_solver. Qed.

Lemma ok_or_Ok {A} (o : option A) (e : E) a : ok_or o e = Ok a <-> o = Some a.
Proof. destruct o; cbn; split; congruence. Qed.

Lemma unwrap_Ok {A} (o : option A) a : unwrap (E:=E) o = Ok a <-> o = Some a.
Proof. destruct o; cbn; split; congruence. Qed.

Lemma mapM_Ok {A B} (f : A -> outcome E B) l ys :
  mapM f l = Ok ys <-> Forall2 (fun x y => f x = Ok y) l ys.
Proof.
  revert ys. induction l as [|x l IH]; intros ys; cbn.
  - split; [intros [= <-]; constructor | intros H; inversion H; done].
  - split.
    + intros (y & Hy & (ys' & Hys & [= <-])%bind_Ok)%bind_Ok.
      constructor; [done|]. by apply IH.
    + intros H. inversion H as [|? y ? ys' Hy Hys]; subst.
      rewrite Hy. cbn. apply IH in Hys. by rewrite Hys.
Qed.

Lemma mapM_pure {A B} (f : A -> outcome E B) (g : A -> B) l :
  (forall x, x ∈ l -> f x = Ok (g x)) -> mapM f l = Ok (g <$> l).
Proof.
  intros H. apply mapM_Ok, Forall2_fmap_r, Forall_Forall2_diag.
  by apply Forall_forall.
Qed.

Lemma mapM_length {A B} (f : A -> outcome E B) l ys :
  mapM f l = Ok ys -> length ys = length l.
Proof. intros H%mapM_Ok. symmetry. by eapply Forall2_length. Qed.

(** A computation that returns a value with [Q], or fails with an error of [F]. *)
Definition yields (F : E -> Prop) {A} (Q : A -> Prop) (m : outcome E A) : Prop :=
  match m with Ok a => Q a | Err e => F e | Panic | OutOfFuel => False end.

Lemma yields_Ok F {A} (Q : A -> Prop) (m : outcome E A) a : yields F Q m -> m = Ok a -> Q a.
Proof. by intros H ->. Qed.

Lemma yields_bind F {A B} (Q : A -> Prop) (R : B -> Prop) m (f : A -> outcome E B) :
  yields F Q m -> (forall a, Q a -> yields F R (f a)) -> yields F R (m ≫= f).
Proof. destruct m; cbn; auto. Qed.

Lemma yields_impl F {A} (Q R : A -> Prop) (m : outcome E A) :
  yields F Q m -> (forall a, Q a -> R a) -> yields F R m.
Proof. destruct m; cbn; auto. Qed.

Lemma yields_mapM F {A B} (P : A -> B -> Prop) (f : A -> outcome E B) l :
  Forall (fun x => yields F (P x) (f x)) l -> yields F (Forall2 P l) (mapM f l).
Proof.
  induction 1 as [|x l Hx _ IH]; [by constructor|]. cbn [mapM].
  eapply yields_bind; [exact Hx|]. intros y Hy. eapply yields_bind; [exact IH|].
  intros ys Hys. by constructor.
Qed.
End outcome_lemmas.

(** ** Stateful computations

    A computation that reads and changes a state of type [S] and can fail or unwind. *)
Definition StateM (E S A : Type) : Type := S -> outcome E A * S.

#[export] Instance StateM_ret {E S} : MRet (StateM E S) := fun A a s => (Ok a, s).

#[export] Instance StateM_bind {E S} : MBind (StateM E S) := fun A B f m s =>
  match m s with
  | (Ok a, s') => f a s'
  | (Err e, s') => (Err e, s')
  | (Panic, s') => (Panic, s')
  | (OutOfFuel, s') => (OutOfFuel, s')
  end.

Section stateful.
Context {E S : Type}.

(** A computation without effects. *)
Definition lift {A} (m : outcome E A) : StateM E S A := fun s => (m, s).

(** The [Result] of a call as a value, to match on. *)
Definition attempt {A} (m : StateM E S A) : StateM E S (E + A) := fun s =>
  match m s with
  | (Ok a, s') => (Ok (inr a), s')
  | (Err e, s') => (Ok (inl e), s')
  | (Panic, s') => (Panic, s')
  | (OutOfFuel, s') => (OutOfFuel, s')
  end.

Definition fail {A} (e : E) : StateM E S A := lift (Err e).
Definition gets {A} (f : S -> A) : StateM E S A := fun s => (Ok (f s), s).
Definition modify (f : S -> S) : StateM E S unit := fun s => (Ok tt, f s).

Fixpoint forM {A} (f : A -> StateM E S unit) (l : list A) : StateM E S unit :=
  match l with
  | [] => mret tt
  | x :: l => _ ← f x; forM f l
  end.

Fixpoint foldlM {A B} (f : A -> B -> StateM E S A) (l : list B) (acc : A) : StateM E S A :=
  match l with
  | [] => mret acc
  | x :: l => acc ← f acc x; foldlM f l acc
  end.

Lemma bind_run {A B} (m : StateM E S A) (f : A -> StateM E S B) s :
  (m ≫= f) s =
    match m s with
    | (Ok a, s') => f a s'
    | (Err e, s') => (Err e, s')
    | (Panic, s') => (Panic, s')
    | (OutOfFuel, s') => (OutOfFuel, s')
    end.
Proof. done. Qed.

Lemma M_bind_Ok {A B} (m : StateM E S A) (f : A -> StateM E S B) s b s' :
  (m ≫= f) s = (Ok b, s') <-> exists a s1, m s = (Ok a, s1) /\ f a s1 = (Ok b, s').
Proof. rewrite bind_run. destruct (m s) as [[a|e| |] s1]; split; naive_solver. Qed.

(** The steps of a run: a computation that returns a value, or fails. *)
Lemma run_returns {A B} (m : StateM E S A) (f : A -> StateM E S B) s a s' : m s = (Ok a, s') -> (m ≫= f) s = f a s'.
Proof. rewrite bind_run. by intros ->. Qed.

Lemma run_fails {A B} (m : StateM E S A) (f : A -> StateM E S B) s e s' : m s = (Err e, s') -> (m ≫= f) s = (Err e, s').
Proof. rewrite bind_run. by intros ->. Qed.

Lemma run_lift {A B} (m : outcome E A) (f : A -> StateM E S B) s a : m = Ok a -> (lift m ≫= f) s = f a s.
Proof. by intros ->. Qed.

Lemma attempt_Ok {A} (m : StateM E S A) s r s' :
  attempt m s = (Ok r, s') <->
  match r with inl e => m s = (Err e, s') | inr a => m s = (Ok a, s') end.
Proof. unfold attempt. destruct (m s) as [[a|e| |] s1], r; split; naive_solver. Qed.
End stateful.

(** ** Automation *)

(** Splits every hypothesis that says a monadic computation returned. *)
Ltac inv_ok :=
  repeat match goal with
  | H : Ok _ = Ok _ |- _ => injection H as H; try subst
  | H : mret _ = Ok _ |- _ => cbv [mret outcome_ret] in H
  | H : Err _ = Ok _ |- _ => discriminate H
  | H : Panic = Ok _ |- _ => discriminate H
  | H : OutOfFuel = Ok _ |- _ => discriminate H
  | H : Ok _ = Err _ |- _ => discriminate H
  | H : _ ≫= _ = Ok _ |- _ => apply bind_Ok in H; destruct H as (? & ? & H)
  | H : ok_or _ _ = Ok _ |- _ => apply ok_or_Ok in H
  | H : unwrap _ = Ok _ |- _ => apply unwrap_Ok in H
  end.

(** Splits every hypothesis that says a stateful computation returned. *)
Ltac inv_run :=
  repeat match goal with
  | H : (Ok _, _) = (Ok _, _) |- _ => injection H as H; try subst
  | H : mret _ _ = (Ok _, _) |- _ => cbv [mret StateM_ret] in H
  | H : lift _ _ = (Ok _, _) |- _ => unfold lift in H; injection H as H; try subst
  | H : gets _ _ = (Ok _, _) |- _ => cbv [gets] in H
  | H : modify _ _ = (Ok _, _) |- _ => cbv [modify] in H
  | H : fail _ _ = (Ok _, _) |- _ => discriminate H
  | H : (_ ≫= _) _ = (Ok _, _) |- _ => apply M_bind_Ok in H; destruct H as (? & ? & ? & H)
  end.

(** Case analysis on every [match] of the goal or of a hypothesis. *)
Ltac case_all :=
  repeat (case_match; simplify_eq/=).

Create HintDb indy discriminated.

(** ** Machine integers

    The library is built for 32- and 64-bit targets and in both Cargo profiles: the
    debug profile unwinds on an overflow of [+], [-] and [*], the release profile
    wraps. *)
Class Machine := {
  usize_bits : N;
  overflow_checks : bool;
  usize_bits_cases : usize_bits = 32%N \/ usize_bits = 64%N;
}.

Definition usize_modulus `{Machine} : N := (2 ^ usize_bits)%N.

(** [a - b] on [usize] *)
Definition usize_sub `{Machine} {E} (a b : N) : outcome E N :=
  if (b <=? a)%N then Ok (a - b)%N
  else if overflow_checks then Panic
  else Ok (a + usize_modulus - b)%N.

(** [a + b] on [usize] *)
Definition usize_add `{Machine} {E} (a b : N) : outcome E N :=
  if (a + b <? usize_modulus)%N then Ok (a + b)%N
  else if overflow_checks then Panic
  else Ok ((a + b) mod usize_modulus)%N.

(** The debug profile for 64 bits, to run the development with. *)
Definition debug_machine : Machine :=
  {| usize_bits := 64; overflow_checks := true; usize_bits_cases := or_intror eq_refl |}.
Definition release_machine : Machine :=
  {| usize_bits := 64; overflow_checks := false; usize_bits_cases := or_intror eq_refl |}.

Lemma usize_sub_ok `{Machine} {E} (a b : N) :
  (b <= a)%N -> usize_sub (E:=E) a b = Ok (a - b)%N.
Proof. unfold usize_sub. intros ?%N.leb_le. by case_match. Qed.

Lemma usize_add_ok `{Machine} {E} (a b : N) :
  (a + b < usize_modulus)%N -> usize_add (E:=E) a b = Ok (a + b)%N.
Proof. unfold usize_add. intros ?%N.ltb_lt. by case_match. Qed.

(** [n as i32] *)
Definition as_i32 (n : N) : Z :=
  let m := Z.of_N (n mod 2 ^ 32) in if (m <? 2 ^ 31)%Z then m else (m - 2 ^ 32)%Z.

Lemma as_i32_small n : (n < 2 ^ 31)%N -> as_i32 n = Z.of_N n.
Proof.
  intros Hn. unfold as_i32. rewrite N.mod_small by lia. destruct (Z.ltb_spec (Z.of_N n) (2 ^ 31)); lia.
Qed.

(** Counters are [N]; the specifications index lists with [nat]. *)
Lemma of_nat_eqb_0 n : (N.of_nat n =? 0)%N = (n =? 0)%nat.
Proof. by destruct n. Qed.

Lemma of_nat_ltb n m : (N.of_nat n <? N.of_nat m)%N = (n <? m)%nat.
Proof. apply eq_true_iff_eq. rewrite N.ltb_lt, Nat.ltb_lt. lia. Qed.

Lemma of_nat_half n : (N.of_nat n / 2)%N = N.of_nat (n / 2).
Proof. by rewrite Nat2N.inj_div. Qed.

Lemma of_nat_parity n : (N.of_nat n mod 2 =? 0)%N = (n mod 2 =? 0)%nat.
Proof. change 2%N with (N.of_nat 2). by rewrite <-Nat2N.inj_mod, of_nat_eqb_0. Qed.

#[export] Hint Rewrite of_nat_eqb_0 of_nat_ltb of_nat_half of_nat_parity : of_nat.

(** Halving a number takes one bit off. *)
Lemma size_nat_half n : n <> 0%N -> N.size_nat n = S (N.size_nat (n / 2)).
Proof. rewrite <-N.div2_div. by destruct n as [|[p|p|]]. Qed.

Lemma half_parity n : n = 2 * (n / 2) + n mod 2.
Proof. apply Nat.div_mod_eq. Qed.

Lemma Forall2_impl_l {A B} (P Q : A -> B -> Prop) l k :
  Forall2 P l k -> (forall x y, x ∈ l -> P x y -> Q x y) -> Forall2 Q l k.
Proof.
  induction 1 as [|x y l k Hxy _ IH]; intros Hpq; constructor.
  - apply Hpq; [by left|done].
  - apply IH. intros x' y' Hin. apply Hpq. by right.
Qed.

Lemma submseteq_NoDup {A} (l k : list A) : l ⊆+ k -> NoDup k -> NoDup l.
Proof. intros [l' ->]%submseteq_Permutation Hk. by apply NoDup_app in Hk as [? _]. Qed.

(** ** Bytes *)

Abbreviation bytes := (list Byte.byte).

#[export] Instance byte_eq_dec : EqDecision Byte.byte := Byte.byte_eq_dec.

#[export] Program Instance byte_countable : Countable Byte.byte :=
  inj_countable Byte.to_N Byte.of_N _.
Next Obligation. intros x. apply Byte.of_to_N. Qed.

Definition byte_of_N (n : N) : Byte.byte :=
  default Byte.x00 (Byte.of_N (n mod 256)).

Lemma byte_of_to_N b : byte_of_N (Byte.to_N b) = b.
Proof. by destruct b. Qed.

Lemma byte_to_of_N n : Byte.to_N (byte_of_N n) = (n mod 256)%N.
Proof.
  unfold byte_of_N. destruct (Byte.of_N (n mod 256)) as [b|] eqn:Hb; cbn.
  - by apply Byte.to_of_N.
  - apply Byte.of_N_None_iff in Hb. pose proof (N.mod_lt n 256 ltac:(done)). lia.
Qed.

Lemma byte_to_N_lt b : (Byte.to_N b < 256)%N.
Proof. pose proof (Byte.to_N_bounded b). lia. Qed.

(** [s.as_bytes()] and the bytes of a [String] read back: a Rust [String] is the
    string of its UTF-8 bytes. *)
Definition as_bytes (s : string) : bytes := String.list_byte_of_string s.
Definition string_of_bytes (b : bytes) : string := String.string_of_list_byte b.

Lemma string_of_as_bytes s : string_of_bytes (as_bytes s) = s.
Proof. apply String.string_of_list_byte_of_string. Qed.

Lemma as_bytes_of_bytes b : as_bytes (string_of_bytes b) = b.
Proof. apply String.list_byte_of_string_of_list_byte. Qed.

#[export] Instance as_bytes_inj : Inj (=) (=) as_bytes.
Proof. intros s t H. by rewrite <-(string_of_as_bytes s), H, string_of_as_bytes. Qed.

Lemma str_app_assoc (r s t : string) : ((r +:+ s) +:+ t = r +:+ s +:+ t)%string.
Proof. induction r as [|c r IH]; [done|]. exact (f_equal (String c) IH). Qed.

Lemma str_app_nil_r (s : string) : (s +:+ "" = s)%string.
Proof. induction s as [|c s IH]; [done|]. exact (f_equal (String c) IH). Qed.

(** [s.starts_with('~')] *)
Definition starts_with_tilde (s : string) : bool :=
  match s with String "~"%char _ => true | _ => false end.

Lemma starts_with_tilde_spec s : starts_with_tilde s = true <-> exists t, s = String "~"%char t.
Proof.
  split; [|by intros [t ->]]. destruct s as [|c s]; [done|]. intros Hs. exists s. f_equal.
  by destruct c as [[] [] [] [] [] [] [] []].
Qed.

(** ** Hash maps

    The iteration order of [HashMap] and [HashSet] is unspecified: it is a parameter,
    of which only what the documentation says is assumed. *)
Class HashOrder := {
  hash_iter : forall {K V} `{Countable K}, gmap K V -> list (K * V);
  hash_iter_perm : forall {K V} `{Countable K} (m : gmap K V), hash_iter m ≡ₚ map_to_list m;
}.

Lemma elem_of_hash_iter `{HashOrder} {K V} `{Countable K} (m : gmap K V) k v :
  (k, v) ∈ hash_iter m <-> m !! k = Some v.
Proof. by rewrite hash_iter_perm, elem_of_map_to_list. Qed.

Lemma hash_iter_keys `{HashOrder} {K V} `{Countable K} (m : gmap K V) : NoDup (hash_iter m).*1.
Proof. rewrite hash_iter_perm. apply NoDup_fst_map_to_list. Qed.

(** The order to run the development with. *)
Definition key_order : HashOrder := {|
  hash_iter := fun K V _ _ m => map_to_list m;
  hash_iter_perm := fun K V _ _ m => Permutation_refl _;
|}.

Lemma foldl_insert {K V} `{Countable K} (l : list (K * V)) (m : gmap K V) : NoDup l.*1 ->
  foldl (fun m r => <[r.1 := r.2]> m) m l = list_to_map l ∪ m.
Proof.
  revert m. induction l as [|[k v] l IH]; intros m; cbn; [by rewrite (left_id_L ∅ (∪))|].
  intros [Hk Hl]%NoDup_cons. rewrite IH by done. rewrite <-insert_union_l, insert_union_r; [done|].
  by apply not_elem_of_list_to_map_1.
Qed.

(** [iter.max_by_key(f)]: the last of the greatest elements. *)
Definition max_by_key {A} (f : A -> N) (l : list A) : option A :=
  foldl (fun best x =>
    match best with
    | Some b => if (f x <? f b)%N then Some b else Some x
    | None => Some x
    end) None l.

Lemma max_by_key_spec {A} (f : A -> N) l :
  match max_by_key f l with
  | Some b => b ∈ l /\ forall x, x ∈ l -> (f x <= f b)%N
  | None => l = []
  end.
Proof.
  unfold max_by_key. induction l as [|x l IH] using rev_ind; [done|].
  rewrite foldl_app. cbn. destruct (foldl _ _ l) as [b|].
  - destruct IH as [Hb Hmax].
    destruct (N.ltb_spec (f x) (f b)); setoid_rewrite elem_of_app; setoid_rewrite list_elem_of_singleton.
    + split; [by left|]. intros y [Hy| ->]; [by apply Hmax|lia].
    + split; [by right|]. intros y [Hy| ->]; [|lia]. specialize (Hmax y Hy). lia.
  - subst. split; [set_solver|]. intros y Hy%list_elem_of_singleton. by subst.
Qed.

(** ** Decimal numbers *)

Definition digit_of (c : Ascii.ascii) : option N :=
  let n := Ascii.N_of_ascii c in
  if ((48 <=? n) && (n <=? 57))%N then Some (n - 48)%N else None.

Fixpoint parse_digits (bound acc : N) (s : string) : option N :=
  match s with
  | EmptyString => Some acc
  | String c s =>
      d ← digit_of c;
      let acc := (acc * 10 + d)%N in
      if (acc <? bound)%N then parse_digits bound acc s else None
  end.

(** [s.parse::<u64>()] and the like: an optional [+], then at least one digit. *)
Definition parse_uint (bound : N) (s : string) : option N :=
  match s with
  | EmptyString => None
  | String "+"%char EmptyString => None
  | String "+"%char s => parse_digits bound 0 s
  | _ => parse_digits bound 0 s
  end.

Definition parse_u64 : string -> option N := parse_uint (2 ^ 64).
Definition parse_usize `{Machine} : string -> option N := parse_uint usize_modulus.

Lemma digit_of_pretty d : (d < 10)%N -> digit_of (pretty.pretty_N_char d) = Some d.
Proof.
  intros Hd. assert (d ∈ (N.of_nat <$> seq 0 10)) as Hin.
  { apply list_elem_of_fmap. exists (N.to_nat d).
    rewrite N2Nat.id, elem_of_seq. split; [done|]. lia. }
  cbn in Hin. by repeat (apply elem_of_cons in Hin as [->|Hin]; [done|]); apply not_elem_of_nil in Hin.
Qed.

Lemma parse_digits_pretty bound x s : (x < bound)%N ->
  parse_digits bound 0 (pretty.pretty_N_go x s) = parse_digits bound x s.
Proof.
  revert s. induction x as [x IH] using (well_founded_induction N.lt_wf_0). intros s Hx.
  destruct (decide (x = 0%N)) as [->|]; [by rewrite pretty.pretty_N_go_0|].
  pose proof (N.div_mod x 10 ltac:(done)). pose proof (N.mod_lt x 10 ltac:(done)).
  pose proof (N.div_lt x 10 ltac:(lia) ltac:(done)) as Hlt.
  rewrite pretty.pretty_N_go_step by lia. rewrite IH by (done || by etrans). cbn.
  rewrite digit_of_pretty by done. cbn.
  replace (x / 10 * 10 + x mod 10)%N with x by lia. by apply N.ltb_lt in Hx as ->.
Qed.

(** The decimal notation of a number is read back. *)
Lemma parse_uint_pretty bound (n : N) : (n < bound)%N -> parse_uint bound (pretty n) = Some n.
Proof.
  intros Hn. assert (parse_digits bound 0 (pretty n) = Some n) as Hd.
  { unfold pretty, pretty.pretty_N. case_decide; subst; [|by rewrite parse_digits_pretty].
    change (parse_digits bound 0 "0") with (if (0 <? bound)%N then Some 0%N else None).
    by apply N.ltb_lt in Hn as ->. }
  assert (forall c s, pretty n = String c s -> c <> "+"%char) as Hp.
  { intros c s He ->. by rewrite He in Hd. }
  destruct (pretty n) as [|c s] eqn:He.
  { cbn in Hd. by simplify_eq. }
  specialize (Hp c s eq_refl). by destruct c as [[] [] [] [] [] [] [] []].
Qed.

Lemma parse_digits_lt bound s : forall acc n,
  (acc < bound)%N -> parse_digits bound acc s = Some n -> (n < bound)%N.
Proof.
  induction s as [|c s IH]; intros acc n Hacc; cbn; [by intros [= <-]|].
  destruct (digit_of c) as [d|]; [cbn|done]. destruct (N.ltb_spec (acc * 10 + d) bound); [by apply IH|done].
Qed.

Lemma parse_uint_lt bound s n : (0 < bound)%N -> parse_uint bound s = Some n -> (n < bound)%N.
Proof.
  intros Hb. destruct s as [|c [|c' s]]; [done|..]; cbn [parse_uint];
    repeat case_match; try done; by apply parse_digits_lt.
Qed.

(** ** Little-endian numbers: [byteorder::LittleEndian] *)

Fixpoint le_bytes (k : nat) (n : N) : bytes :=
  match k with
  | O => []
  | S k => byte_of_N n :: le_bytes k (n / 256)
  end.

Fixpoint le_value (b : bytes) : N :=
  match b with
  | [] => 0
  | x :: b => Byte.to_N x + 256 * le_value b
  end%N.

Lemma le_bytes_length k n : length (le_bytes k n) = k.
Proof. revert n. induction k as [|k IH]; intros n; cbn; [done|]. by rewrite IH. Qed.

Lemma le_value_bytes k n : (n < 256 ^ N.of_nat k)%N -> le_value (le_bytes k n) = n.
Proof.
  revert n. induction k as [|k IH]; intros n Hn; cbn [le_bytes le_value].
  - cbn in Hn. lia.
  - rewrite byte_to_of_N, IH.
    + pose proof (N.div_mod n 256 ltac:(done)). lia.
    + rewrite Nat2N.inj_succ, N.pow_succ_r' in Hn. by apply N.Div0.div_lt_upper_bound.
Qed.

Lemma le_bytes_value k b : length b = k -> le_bytes k (le_value b) = b.
Proof.
  revert b. induction k as [|k IH]; intros [|x b] Hl; cbn in *; try done.
  pose proof (byte_to_N_lt x) as Hx.
  assert ((Byte.to_N x + 256 * le_value b) / 256 = le_value b)%N as ->.
  { rewrite N.mul_comm, N.div_add by done. by rewrite N.div_small. }
  rewrite IH by lia. f_equal.
  rewrite <-(byte_of_to_N x) at 2. unfold byte_of_N.
  rewrite N.mul_comm, N.Div0.mod_add. done.
Qed.

(** ** UTF-8: [String::from_utf8] *)

Definition in_range (lo hi : N) (b : Byte.byte) : bool :=
  ((lo <=? Byte.to_N b) && (Byte.to_N b <=? hi))%N.
Definition continuation (b : Byte.byte) : bool := in_range 128 191 b.

Fixpoint utf8_valid (b : bytes) : bool :=
  match b with
  | [] => true
  | b0 :: r =>
      if in_range 0 127 b0 then utf8_valid r
      else if in_range 194 223 b0 then
        match r with b1 :: r => continuation b1 && utf8_valid r | _ => false end
      else if in_range 224 239 b0 then
        match r with
        | b1 :: b2 :: r =>
            (if in_range 224 224 b0 then in_range 160 191 b1
             else if in_range 237 237 b0 then in_range 128 159 b1
             else continuation b1) && continuation b2 && utf8_valid r
        | _ => false
        end
      else if in_range 240 244 b0 then
        match r with
        | b1 :: b2 :: b3 :: r =>
            (if in_range 240 240 b0 then in_range 144 191 b1
             else if in_range 244 244 b0 then in_range 128 143 b1
             else continuation b1) && continuation b2 && continuation b3 && utf8_valid r
        | _ => false
        end
      else false
  end.

(** [String::from_utf8] *)
Definition from_utf8 (b : bytes) : option string :=
  if utf8_valid b then Some (string_of_bytes b) else None.

(** A text that is a Rust [String]. *)
Definition is_utf8 (s : string) : Prop := utf8_valid (as_bytes s) = true.

Lemma from_utf8_as_bytes s : is_utf8 s -> from_utf8 (as_bytes s) = Some s.
Proof. unfold from_utf8, is_utf8. intros ->. by rewrite string_of_as_bytes. Qed.
