(* ===== verification/Errors.v ===== *)
(** * Errors: the error kinds and the C error codes

    Models [libindy/src/errors/mod.rs] and the enumeration of [libindy/src/api/mod.rs].
    An [IndyError] is its [IndyErrorKind]: the message and the chain of causes are
    text for the log and take no part in control flow ([err.kind()] is all the code
    ever inspects). *)

From S2P Require Import Prelude.

(** The library declares no kind with the same constructor name as a code except
    where the source itself does ([WalletAccessFailed] and the like), so the codes
    live in a module. *)
Inductive IndyErrorKind : Type :=
| InvalidState
| InvalidStructure
| InvalidParam (num : N)
| IOError
| MasterSecretDuplicateName
| ProofRejected
| RevocationRegistryFull
| InvalidUserRevocId
| CredentialRevoked
| CredDefAlreadyExists
| NoConsensus
| InvalidTransaction
| LedgerItemNotFound
| PoolNotCreated
| InvalidPoolHandle
| PoolTerminated
| PoolTimeout
| PoolConfigAlreadyExists
| PoolIncompatibleProtocolVersion
| UnknownCrypto
| InvalidWalletHandle
| UnknownWalletStorageType
| WalletStorageTypeAlreadyRegistered
| WalletAlreadyExists
| WalletNotFound
| WalletAlreadyOpened
| WalletAccessFailed
| WalletEncodingError
| WalletStorageError
| WalletEncryptionError
| WalletItemNotFound
| WalletItemAlreadyExists
| WalletQueryError
| DIDAlreadyExists
| UnknownPaymentMethodType
| IncompatiblePaymentMethods
| PaymentInsufficientFunds
| PaymentSourceDoesNotExist
| PaymentOperationNotSupported
| PaymentExtraFunds.

#[export] Instance IndyErrorKind_eq_dec : EqDecision IndyErrorKind.
Proof. solve_decision. Defined.

(** [IndyResult<T>] *)
Abbreviation IndyResult := (outcome IndyErrorKind).

Module ErrorCode.
Inductive t : Type :=
| Success
| CommonInvalidParam1
| CommonInvalidParam2
| CommonInvalidParam3
| CommonInvalidParam4
| CommonInvalidParam5
| CommonInvalidParam6
| CommonInvalidParam7
| CommonInvalidParam8
| CommonInvalidParam9
| CommonInvalidParam10
| CommonInvalidParam11
| CommonInvalidParam12
| CommonInvalidState
| CommonInvalidStructure
| CommonIOError
| CommonInvalidParam13
| CommonInvalidParam14
| CommonInvalidParam15
| CommonInvalidParam16
| CommonInvalidParam17
| CommonInvalidParam18
| CommonInvalidParam19
| CommonInvalidParam20
| CommonInvalidParam21
| CommonInvalidParam22
| CommonInvalidParam23
| CommonInvalidParam24
| CommonInvalidParam25
| CommonInvalidParam26
| CommonInvalidParam27
| WalletInvalidHandle
| WalletUnknownTypeError
| WalletTypeAlreadyRegisteredError
| WalletAlreadyExistsError
| WalletNotFoundError
| WalletIncompatiblePoolError
| WalletAlreadyOpenedError
| WalletAccessFailed
| WalletInputError
| WalletDecodingError
| WalletStorageError
| WalletEncryptionError
| WalletItemNotFound
| WalletItemAlreadyExists
| WalletQueryError
| PoolLedgerNotCreatedError
| PoolLedgerInvalidPoolHandle
| PoolLedgerTerminated
| LedgerNoConsensusError
| LedgerInvalidTransaction
| LedgerSecurityError
| PoolLedgerConfigAlreadyExistsError
| PoolLedgerTimeout
| PoolIncompatibleProtocolVersion
| LedgerNotFound
| AnoncredsRevocationRegistryFullError
| AnoncredsInvalidUserRevocId
| AnoncredsMasterSecretDuplicateNameError
| AnoncredsProofRejected
| AnoncredsCredentialRevoked
| AnoncredsCredDefAlreadyExistsError
| UnknownCryptoTypeError
| DidAlreadyExistsError
| PaymentUnknownMethodError
| PaymentIncompatibleMethodsError
| PaymentInsufficientFundsError
| PaymentSourceDoesNotExistError
| PaymentOperationNotSupportedError
| PaymentExtraFundsError.

#[export] Instance t_eq_dec : EqDecision t.
Proof. solve_decision. Defined.

(** The discriminants, which are the [indy_error_t] values of the C API. *)
Definition value (c : t) : N :=
  match c with
  | Success => 0
  | CommonInvalidParam1 => 100
  | CommonInvalidParam2 => 101
  | CommonInvalidParam3 => 102
  | CommonInvalidParam4 => 103
  | CommonInvalidParam5 => 104
  | CommonInvalidParam6 => 105
  | CommonInvalidParam7 => 106
  | CommonInvalidParam8 => 107
  | CommonInvalidParam9 => 108
  | CommonInvalidParam10 => 109
  | CommonInvalidParam11 => 110
  | CommonInvalidParam12 => 111
  | CommonInvalidState => 112
  | CommonInvalidStructure => 113
  | CommonIOError => 114
  | CommonInvalidParam13 => 115
  | CommonInvalidParam14 => 116
  | CommonInvalidParam15 => 117
  | CommonInvalidParam16 => 118
  | CommonInvalidParam17 => 119
  | CommonInvalidParam18 => 120
  | CommonInvalidParam19 => 121
  | CommonInvalidParam20 => 122
  | CommonInvalidParam21 => 123
  | CommonInvalidParam22 => 124
  | CommonInvalidParam23 => 125
  | CommonInvalidParam24 => 126
  | CommonInvalidParam25 => 127
  | CommonInvalidParam26 => 128
  | CommonInvalidParam27 => 129
  | WalletInvalidHandle => 200
  | WalletUnknownTypeError => 201
  | WalletTypeAlreadyRegisteredError => 202
  | WalletAlreadyExistsError => 203
  | WalletNotFoundError => 204
  | WalletIncompatiblePoolError => 205
  | WalletAlreadyOpenedError => 206
  | WalletAccessFailed => 207
  | WalletInputError => 208
  | WalletDecodingError => 209
  | WalletStorageError => 210
  | WalletEncryptionError => 211
  | WalletItemNotFound => 212
  | WalletItemAlreadyExists => 213
  | WalletQueryError => 214
  | PoolLedgerNotCreatedError => 300
  | PoolLedgerInvalidPoolHandle => 301
  | PoolLedgerTerminated => 302
  | LedgerNoConsensusError => 303
  | LedgerInvalidTransaction => 304
  | LedgerSecurityError => 305
  | PoolLedgerConfigAlreadyExistsError => 306
  | PoolLedgerTimeout => 307
  | PoolIncompatibleProtocolVersion => 308
  | LedgerNotFound => 309
  | AnoncredsRevocationRegistryFullError => 400
  | AnoncredsInvalidUserRevocId => 401
  | AnoncredsMasterSecretDuplicateNameError => 404
  | AnoncredsProofRejected => 405
  | AnoncredsCredentialRevoked => 406
  | AnoncredsCredDefAlreadyExistsError => 407
  | UnknownCryptoTypeError => 500
  | DidAlreadyExistsError => 600
  | PaymentUnknownMethodError => 700
  | PaymentIncompatibleMethodsError => 701
  | PaymentInsufficientFundsError => 702
  | PaymentSourceDoesNotExistError => 703
  | PaymentOperationNotSupportedError => 704
  | PaymentExtraFundsError => 705
  end.

(** [impl From<IndyErrorKind> for ErrorCode] *)
Definition of_kind (code : IndyErrorKind) : t :=
  match code with
  | Errors.InvalidState => CommonInvalidState
  | Errors.InvalidStructure => CommonInvalidStructure
  | Errors.InvalidParam num =>
      match num with
      | 1 => CommonInvalidParam1
      | 2 => CommonInvalidParam2
      | 3 => CommonInvalidParam3
      | 4 => CommonInvalidParam4
      | 5 => CommonInvalidParam5
      | 6 => CommonInvalidParam6
      | 7 => CommonInvalidParam7
      | 8 => CommonInvalidParam8
      | 9 => CommonInvalidParam9
      | 10 => CommonInvalidParam10
      | 11 => CommonInvalidParam11
      | 12 => CommonInvalidParam12
      | 13 => CommonInvalidParam13
      | 14 => CommonInvalidParam14
      | 15 => CommonInvalidParam15
      | 16 => CommonInvalidParam16
      | 17 => CommonInvalidParam17
      | 18 => CommonInvalidParam18
      | 19 => CommonInvalidParam19
      | 20 => CommonInvalidParam20
      | 21 => CommonInvalidParam21
      | 22 => CommonInvalidParam22
      | 23 => CommonInvalidParam23
      | 24 => CommonInvalidParam24
      | 25 => CommonInvalidParam25
      | 26 => CommonInvalidParam26
      | 27 => CommonInvalidParam27
      | _ => CommonInvalidState
      end%N
  | Errors.IOError => CommonIOError
  | Errors.MasterSecretDuplicateName => AnoncredsMasterSecretDuplicateNameError
  | Errors.ProofRejected => AnoncredsProofRejected
  | Errors.RevocationRegistryFull => AnoncredsRevocationRegistryFullError
  | Errors.InvalidUserRevocId => AnoncredsInvalidUserRevocId
  | Errors.CredentialRevoked => AnoncredsCredentialRevoked
  | Errors.CredDefAlreadyExists => AnoncredsCredDefAlreadyExistsError
  | Errors.NoConsensus => LedgerNoConsensusError
  | Errors.InvalidTransaction => LedgerInvalidTransaction
  | Errors.LedgerItemNotFound => LedgerNotFound
  | Errors.PoolNotCreated => PoolLedgerNotCreatedError
  | Errors.InvalidPoolHandle => PoolLedgerInvalidPoolHandle
  | Errors.PoolTerminated => PoolLedgerTerminated
  | Errors.PoolTimeout => PoolLedgerTimeout
  | Errors.PoolConfigAlreadyExists => PoolLedgerConfigAlreadyExistsError
  | Errors.PoolIncompatibleProtocolVersion => PoolIncompatibleProtocolVersion
  | Errors.UnknownCrypto => UnknownCryptoTypeError
  | Errors.InvalidWalletHandle => WalletInvalidHandle
  | Errors.UnknownWalletStorageType => WalletUnknownTypeError
  | Errors.WalletStorageTypeAlreadyRegistered => WalletTypeAlreadyRegisteredError
  | Errors.WalletAlreadyExists => WalletAlreadyExistsError
  | Errors.WalletNotFound => WalletNotFoundError
  | Errors.WalletAlreadyOpened => WalletAlreadyOpenedError
  | Errors.WalletAccessFailed => WalletAccessFailed
  | Errors.WalletEncodingError => WalletDecodingError
  | Errors.WalletStorageError => WalletStorageError
  | Errors.WalletEncryptionError => WalletEncryptionError
  | Errors.WalletItemNotFound => WalletItemNotFound
  | Errors.WalletItemAlreadyExists => WalletItemAlreadyExists
  | Errors.WalletQueryError => WalletQueryError
  | Errors.DIDAlreadyExists => DidAlreadyExistsError
  | Errors.UnknownPaymentMethodType => PaymentUnknownMethodError
  | Errors.IncompatiblePaymentMethods => PaymentIncompatibleMethodsError
  | Errors.PaymentInsufficientFunds => PaymentInsufficientFundsError
  | Errors.PaymentSourceDoesNotExist => PaymentSourceDoesNotExistError
  | Errors.PaymentOperationNotSupported => PaymentOperationNotSupportedError
  | Errors.PaymentExtraFunds => PaymentExtraFundsError
  end.

(** [impl From<ErrorCode> for IndyErrorKind] *)
Definition to_kind (err : t) : IndyErrorKind :=
  match err with
  | CommonInvalidState => Errors.InvalidState
  | CommonInvalidStructure => Errors.InvalidStructure
  | CommonInvalidParam1 => Errors.InvalidParam 1
  | CommonInvalidParam2 => Errors.InvalidParam 2
  | CommonInvalidParam3 => Errors.InvalidParam 3
  | CommonInvalidParam4 => Errors.InvalidParam 4
  | CommonInvalidParam5 => Errors.InvalidParam 5
  | CommonInvalidParam6 => Errors.InvalidParam 6
  | CommonInvalidParam7 => Errors.InvalidParam 7
  | CommonInvalidParam8 => Errors.InvalidParam 8
  | CommonInvalidParam9 => Errors.InvalidParam 9
  | CommonInvalidParam10 => Errors.InvalidParam 10
  | CommonInvalidParam11 => Errors.InvalidParam 11
  | CommonInvalidParam12 => Errors.InvalidParam 12
  | CommonInvalidParam13 => Errors.InvalidParam 13
  | CommonInvalidParam14 => Errors.InvalidParam 14
  | CommonInvalidParam15 => Errors.InvalidParam 15
  | CommonInvalidParam16 => Errors.InvalidParam 16
  | CommonInvalidParam17 => Errors.InvalidParam 17
  | CommonInvalidParam18 => Errors.InvalidParam 18
  | CommonInvalidParam19 => Errors.InvalidParam 19
  | CommonInvalidParam20 => Errors.InvalidParam 20
  | CommonInvalidParam21 => Errors.InvalidParam 21
  | CommonInvalidParam22 => Errors.InvalidParam 22
  | CommonInvalidParam23 => Errors.InvalidParam 23
  | CommonInvalidParam24 => Errors.InvalidParam 24
  | CommonInvalidParam25 => Errors.InvalidParam 25
  | CommonInvalidParam26 => Errors.InvalidParam 26
  | CommonInvalidParam27 => Errors.InvalidParam 27
  | CommonIOError => Errors.IOError
  | AnoncredsMasterSecretDuplicateNameError => Errors.MasterSecretDuplicateName
  | AnoncredsProofRejected => Errors.ProofRejected
  | AnoncredsRevocationRegistryFullError => Errors.RevocationRegistryFull
  | AnoncredsInvalidUserRevocId => Errors.InvalidUserRevocId
  | AnoncredsCredentialRevoked => Errors.CredentialRevoked
  | AnoncredsCredDefAlreadyExistsError => Errors.CredDefAlreadyExists
  | LedgerNoConsensusError => Errors.NoConsensus
  | LedgerInvalidTransaction => Errors.InvalidTransaction
  | LedgerNotFound => Errors.LedgerItemNotFound
  | PoolLedgerNotCreatedError => Errors.PoolNotCreated
  | PoolLedgerInvalidPoolHandle => Errors.InvalidPoolHandle
  | PoolLedgerTerminated => Errors.PoolTerminated
  | PoolLedgerTimeout => Errors.PoolTimeout
  | PoolLedgerConfigAlreadyExistsError => Errors.PoolConfigAlreadyExists
  | PoolIncompatibleProtocolVersion => Errors.PoolIncompatibleProtocolVersion
  | UnknownCryptoTypeError => Errors.UnknownCrypto
  | WalletInvalidHandle => Errors.InvalidWalletHandle
  | WalletUnknownTypeError => Errors.UnknownWalletStorageType
  | WalletTypeAlreadyRegisteredError => Errors.WalletStorageTypeAlreadyRegistered
  | WalletAlreadyExistsError => Errors.WalletAlreadyExists
  | WalletNotFoundError => Errors.WalletNotFound
  | WalletAlreadyOpenedError => Errors.WalletAlreadyOpened
  | WalletAccessFailed => Errors.WalletAccessFailed
  | WalletDecodingError => Errors.WalletEncodingError
  | WalletStorageError => Errors.WalletStorageError
  | WalletEncryptionError => Errors.WalletEncryptionError
  | WalletItemNotFound => Errors.WalletItemNotFound
  | WalletItemAlreadyExists => Errors.WalletItemAlreadyExists
  | WalletQueryError => Errors.WalletQueryError
  | DidAlreadyExistsError => Errors.DIDAlreadyExists
  | PaymentUnknownMethodError => Errors.UnknownPaymentMethodType
  | PaymentIncompatibleMethodsError => Errors.IncompatiblePaymentMethods
  | PaymentInsufficientFundsError => Errors.PaymentInsufficientFunds
  | PaymentSourceDoesNotExistError => Errors.PaymentSourceDoesNotExist
  | PaymentOperationNotSupportedError => Errors.PaymentOperationNotSupported
  | PaymentExtraFundsError => Errors.PaymentExtraFunds
  | _ => Errors.InvalidState
  end.

(** [impl<T> From<IndyResult<T>> for ErrorCode]: an unwinding call returns no code. *)
Definition of_result {A} (r : IndyResult A) : option t :=
  match r with
  | Ok _ => Some Success
  | Err err => Some (of_kind err)
  | Panic | OutOfFuel => None
  end.

(** [impl From<ErrorCode> for IndyResult<()>] *)
Definition to_result (err : t) : IndyResult unit :=
  if decide (err = Success) then Ok tt else Err (to_kind err).
End ErrorCode.

(** The parameter numbers the library passes: the C functions have at most 27. *)
Definition param_in_range (k : IndyErrorKind) : bool :=
  match k with
  | InvalidParam n => (1 <=? n)%N && (n <=? 27)%N
  | _ => true
  end.

(** Every code, with its value. *)
Definition code_table : list (N * ErrorCode.t) := [
  (0%N, ErrorCode.Success);
  (100%N, ErrorCode.CommonInvalidParam1);
  (101%N, ErrorCode.CommonInvalidParam2);
  (102%N, ErrorCode.CommonInvalidParam3);
  (103%N, ErrorCode.CommonInvalidParam4);
  (104%N, ErrorCode.CommonInvalidParam5);
  (105%N, ErrorCode.CommonInvalidParam6);
  (106%N, ErrorCode.CommonInvalidParam7);
  (107%N, ErrorCode.CommonInvalidParam8);
  (108%N, ErrorCode.CommonInvalidParam9);
  (109%N, ErrorCode.CommonInvalidParam10);
  (110%N, ErrorCode.CommonInvalidParam11);
  (111%N, ErrorCode.CommonInvalidParam12);
  (112%N, ErrorCode.CommonInvalidState);
  (113%N, ErrorCode.CommonInvalidStructure);
  (114%N, ErrorCode.CommonIOError);
  (115%N, ErrorCode.CommonInvalidParam13);
  (116%N, ErrorCode.CommonInvalidParam14);
  (117%N, ErrorCode.CommonInvalidParam15);
  (118%N, ErrorCode.CommonInvalidParam16);
  (119%N, ErrorCode.CommonInvalidParam17);
  (120%N, ErrorCode.CommonInvalidParam18);
  (121%N, ErrorCode.CommonInvalidParam19);
  (122%N, ErrorCode.CommonInvalidParam20);
  (123%N, ErrorCode.CommonInvalidParam21);
  (124%N, ErrorCode.CommonInvalidParam22);
  (125%N, ErrorCode.CommonInvalidParam23);
  (126%N, ErrorCode.CommonInvalidParam24);
  (127%N, ErrorCode.CommonInvalidParam25);
  (128%N, ErrorCode.CommonInvalidParam26);
  (129%N, ErrorCode.CommonInvalidParam27);
  (200%N, ErrorCode.WalletInvalidHandle);
  (201%N, ErrorCode.WalletUnknownTypeError);
  (202%N, ErrorCode.WalletTypeAlreadyRegisteredError);
  (203%N, ErrorCode.WalletAlreadyExistsError);
  (204%N, ErrorCode.WalletNotFoundError);
  (205%N, ErrorCode.WalletIncompatiblePoolError);
  (206%N, ErrorCode.WalletAlreadyOpenedError);
  (207%N, ErrorCode.WalletAccessFailed);
  (208%N, ErrorCode.WalletInputError);
  (209%N, ErrorCode.WalletDecodingError);
  (210%N, ErrorCode.WalletStorageError);
  (211%N, ErrorCode.WalletEncryptionError);
  (212%N, ErrorCode.WalletItemNotFound);
  (213%N, ErrorCode.WalletItemAlreadyExists);
  (214%N, ErrorCode.WalletQueryError);
  (300%N, ErrorCode.PoolLedgerNotCreatedError);
  (301%N, ErrorCode.PoolLedgerInvalidPoolHandle);
  (302%N, ErrorCode.PoolLedgerTerminated);
  (303%N, ErrorCode.LedgerNoConsensusError);
  (304%N, ErrorCode.LedgerInvalidTransaction);
  (305%N, ErrorCode.LedgerSecurityError);
  (306%N, ErrorCode.PoolLedgerConfigAlreadyExistsError);
  (307%N, ErrorCode.PoolLedgerTimeout);
  (308%N, ErrorCode.PoolIncompatibleProtocolVersion);
  (309%N, ErrorCode.LedgerNotFound);
  (400%N, ErrorCode.AnoncredsRevocationRegistryFullError);
  (401%N, ErrorCode.AnoncredsInvalidUserRevocId);
  (404%N, ErrorCode.AnoncredsMasterSecretDuplicateNameError);
  (405%N, ErrorCode.AnoncredsProofRejected);
  (406%N, ErrorCode.AnoncredsCredentialRevoked);
  (407%N, ErrorCode.AnoncredsCredDefAlreadyExistsError);
  (500%N, ErrorCode.UnknownCryptoTypeError);
  (600%N, ErrorCode.DidAlreadyExistsError);
  (700%N, ErrorCode.PaymentUnknownMethodError);
  (701%N, ErrorCode.PaymentIncompatibleMethodsError);
  (702%N, ErrorCode.PaymentInsufficientFundsError);
  (703%N, ErrorCode.PaymentSourceDoesNotExistError);
  (704%N, ErrorCode.PaymentOperationNotSupportedError);
  (705%N, ErrorCode.PaymentExtraFundsError)].

(** ** Theorems *)

Lemma param_cases (n : N) : ((1 <=? n) && (n <=? 27))%N = true ->
  n ∈ N.of_nat <$> seq 1 27.
Proof.
  intros [H1%N.leb_le H2%N.leb_le]%andb_prop.
  apply list_elem_of_fmap. exists (N.to_nat n). rewrite N2Nat.id. split; [done|].
  apply elem_of_seq. lia.
Qed.

(** The error kind survives the C boundary: a kind turned into its code and read
    back (which is what a plugged storage or payment method does) is the same kind,
    for every kind whose parameter number is one of the 27 the enumeration has. *)
Theorem kind_code_roundtrip (k : IndyErrorKind) :
  param_in_range k = true -> ErrorCode.to_kind (ErrorCode.of_kind k) = k.
Proof.
  destruct k; try done. intros Hn%param_cases. cbn in Hn.
  by repeat (apply elem_of_cons in Hn as [->|Hn]; [done|]); apply not_elem_of_nil in Hn.
Qed.

Lemma kind_code_roundtrip_witness :
  param_in_range (InvalidParam 27) = true /\
  ErrorCode.to_kind (ErrorCode.of_kind (InvalidParam 27)) = InvalidParam 27.
Proof. split; [reflexivity|]. apply kind_code_roundtrip. reflexivity. Defined.

(** No error is reported as success, and the codes of the C API are pairwise distinct. *)
Theorem error_codes_faithful :
  (forall k, ErrorCode.of_kind k <> ErrorCode.Success) /\
  (forall c d, ErrorCode.value c = ErrorCode.value d -> c = d).
Proof.
  split.
  - intros k. destruct k; try done. cbn. by repeat case_match.
  - assert (forall c, List.find (fun d => N.eqb (ErrorCode.value d) (ErrorCode.value c))
      (List.map snd code_table) = Some c) as H by (intros []; reflexivity).
    intros c d Hcd. pose proof (H c) as Hc. rewrite Hcd, (H d) in Hc. congruence.
Qed.
