(* ===== verification/Hashing.v ===== *)
(** * Hashing: the SHA-256 interface of the ledger code

    Models [libindy/src/utils/crypto/hash/openssl.rs].  OpenSSL is not part of the
    repository: the class [Sha256] is its interface, a digest function and the set of
    inputs on which the library call succeeds. *)

From S2P Require Import Prelude Errors.

Class Sha256 := {
  (** the digest OpenSSL computes for a message *)
  sha256_digest : bytes -> bytes;
  (** whether the calls that compute it succeed *)
  openssl_ok : bytes -> bool;
}.

(** What the documentation of SHA-256 promises about its digests. *)
Class Sha256Length `{Sha256} := {
  sha256_digest_length : forall m, length (sha256_digest m) = 32
}.

(** OpenSSL never fails. *)
Definition openssl_total `{Sha256} : Prop := forall m, openssl_ok m = true.

(** A finite set of messages without a collision: what a proof about hashes needs,
    for the messages that it hashes, in place of an (impossible) injective digest. *)
Definition collision_free `{Sha256} (ms : list bytes) : Prop :=
  forall m1 m2, m1 ∈ ms -> m2 ∈ ms -> sha256_digest m1 = sha256_digest m2 -> m1 = m2.

Lemma collision_free_Forall `{Sha256} (ms : list bytes) :
  Forall (fun m1 => Forall (fun m2 => sha256_digest m1 = sha256_digest m2 -> m1 = m2) ms) ms <->
  collision_free ms.
Proof.
  rewrite Forall_forall. unfold collision_free.
  split; intros Hcf m1; [intros m2 H1|intros H1].
  - specialize (Hcf m1 H1). rewrite Forall_forall in Hcf. auto.
  - rewrite Forall_forall. auto.
Qed.

(** A decidable statement decides an equivalent one. *)
Definition decide_rel_iff (P Q : Prop) (HPQ : P <-> Q) `{Decision P} : Decision Q :=
  match decide P with
  | left p => left (proj1 HPQ p)
  | right np => right (fun q => np (proj2 HPQ q))
  end.

#[export] Instance collision_free_dec `{Sha256} (ms : list bytes) : Decision (collision_free ms).
Proof. exact (decide_rel_iff _ _ (collision_free_Forall ms)). Defined.

Definition HASHBYTES : nat := 32.

Module Hash.
Section Hash.
Context `{Sha256}.

(** One run of [new_context], [update]... and [finish]; [From<ErrorStack> for
    IndyError] maps every failure to [InvalidState]. *)
Definition run (msg : bytes) : IndyResult bytes :=
  if openssl_ok msg then Ok (sha256_digest msg) else Err InvalidState.

Definition hash (input : bytes) : IndyResult bytes := run input.

Definition hash_empty : IndyResult bytes := run [].

(** What [hash_leaf] and [hash_nodes] feed to the context. *)
Definition leaf_message (leaf : bytes) : bytes := Byte.x00 :: leaf.
Definition nodes_message (left right : bytes) : bytes := Byte.x01 :: left ++ right.

Definition hash_leaf (leaf : bytes) : IndyResult bytes := run (leaf_message leaf).

Definition hash_nodes (left right : bytes) : IndyResult bytes :=
  run (nodes_message left right).

(** The digests themselves, for the specifications. *)
Definition leaf_digest (leaf : bytes) : bytes := sha256_digest (leaf_message leaf).
Definition nodes_digest (left right : bytes) : bytes := sha256_digest (nodes_message left right).

Lemma run_Ok m h : run m = Ok h -> h = sha256_digest m.
Proof. unfold run. case_match; congruence. Qed.

Lemma run_total m : openssl_total -> run m = Ok (sha256_digest m).
Proof. intros Ht. unfold run. by rewrite Ht. Qed.

Lemma run_cases m : run m = Ok (sha256_digest m) \/ run m = Err InvalidState.
Proof. unfold run. case_match; auto. Qed.

Lemma hash_leaf_Ok v h : hash_leaf v = Ok h -> h = leaf_digest v.
Proof. apply run_Ok. Qed.

Lemma hash_nodes_Ok l r h : hash_nodes l r = Ok h -> h = nodes_digest l r.
Proof. apply run_Ok. Qed.

Lemma hash_leaf_total v : openssl_total -> hash_leaf v = Ok (leaf_digest v).
Proof. apply run_total. Qed.

Lemma hash_nodes_total l r : openssl_total -> hash_nodes l r = Ok (nodes_digest l r).
Proof. apply run_total. Qed.

(** Two node messages whose left parts have one length have the same parts. *)
Lemma nodes_message_inj l r l' r' :
  length l = length l' -> nodes_message l r = nodes_message l' r' -> l = l' /\ r = r'.
Proof. intros Hl [= He]. by apply app_inj_1. Qed.

Lemma leaf_nodes_message_ne v l r : leaf_message v <> nodes_message l r.
Proof. done. Qed.

(** [hashes m P]: the computation [m] returns a value with [P]; OpenSSL failing is
    the only reason for an error, and the only error is [InvalidState]; it neither
    unwinds nor runs out of fuel. *)
Definition hashes {A} (m : IndyResult A) (P : A -> Prop) : Prop :=
  match m with
  | Ok a => P a
  | Err e => e = InvalidState /\ exists msg, openssl_ok msg = false
  | Panic | OutOfFuel => False
  end.

Lemma hashes_ret {A} (a : A) (P : A -> Prop) : P a -> hashes (Ok a) P.
Proof. done. Qed.

Lemma hashes_bind {A B} (m : IndyResult A) (f : A -> IndyResult B) P Q :
  hashes m P -> (forall a, P a -> hashes (f a) Q) -> hashes (m ≫= f) Q.
Proof. destruct m; cbn; auto. Qed.

Lemma hashes_mono {A} (m : IndyResult A) (P Q : A -> Prop) :
  hashes m P -> (forall a, P a -> Q a) -> hashes m Q.
Proof. destruct m; cbn; auto. Qed.

Lemma hashes_run m : hashes (run m) (fun h => h = sha256_digest m).
Proof. unfold run. case_match eqn:Hm; cbn; eauto. Qed.

Lemma hashes_leaf v : hashes (hash_leaf v) (fun h => h = leaf_digest v).
Proof. apply hashes_run. Qed.

Lemma hashes_nodes l r : hashes (hash_nodes l r) (fun h => h = nodes_digest l r).
Proof. apply hashes_run. Qed.

Lemma hashes_mapM {A B} (f : A -> IndyResult B) (g : A -> B) l :
  (forall x, x ∈ l -> hashes (f x) (fun y => y = g x)) ->
  hashes (mapM f l) (fun ys => ys = g <$> l).
Proof.
  induction l as [|x l IH]; intros Hf; cbn; [done|].
  apply (hashes_bind _ _ _ _ (Hf x ltac:(left))). intros ? ->.
  eapply hashes_bind; [apply IH; intros; apply Hf; by right|]. by intros ? ->.
Qed.

Lemma hashes_Ok {A} (m : IndyResult A) P a : hashes m P -> m = Ok a -> P a.
Proof. by intros Hm ->. Qed.

(** Without OpenSSL failures there is a value. *)
Lemma hashes_total {A} (m : IndyResult A) P :
  openssl_total -> hashes m P -> exists a, m = Ok a /\ P a.
Proof.
  intros Ht. destruct m as [a|e| |]; cbn; [eauto| |done..].
  intros [_ [msg Hm]]. by rewrite Ht in Hm.
Qed.

Lemma nodes_digest_length `{!Sha256Length} l r : length (nodes_digest l r) = HASHBYTES.
Proof. apply sha256_digest_length. Qed.

Lemma leaf_digest_length `{!Sha256Length} v : length (leaf_digest v) = HASHBYTES.
Proof. apply sha256_digest_length. Qed.
End Hash.
End Hash.

#[export] Hint Resolve Hash.hash_leaf_Ok Hash.hash_nodes_Ok : indy.
#[export] Hint Resolve Hash.nodes_digest_length Hash.leaf_digest_length : indy.

(** One step of a proof of [hashes]: the specification of the first call, then the
    rest of the computation. *)
Ltac hashes_step lem := eapply Hash.hashes_bind; [apply lem|cbn beta; intros ? ->].

(** A toy digest to run the development on: the message's length and a checksum of
    its bytes, in 32 bytes.  It has collisions; [collision_free] says on which sets
    it has none. *)
Module ToySha.
Definition checksum (m : bytes) : N :=
  foldr (fun b acc => (Byte.to_N b + 131 * acc + 7) mod 65521)%N 1%N m.

Definition digest (m : bytes) : bytes :=
  byte_of_N (checksum m / 256) :: byte_of_N (checksum m) ::
  byte_of_N (N.of_nat (length m)) :: replicate 29 Byte.x00.

#[export] Instance sha : Sha256 := {| sha256_digest := digest; openssl_ok := fun _ => true |}.

#[export] Instance sha_length : Sha256Length.
Proof. by constructor. Qed.

Lemma sha_total : openssl_total.
Proof. done. Qed.
End ToySha.
