(* ===== verification/MerkleTree.v ===== *)
(** * MerkleTree: the Merkle tree of pool transactions

    Models [libindy/src/services/ledger/merkletree/tree.rs] (the tree and its
    iterator), [merkletree.rs] (construction) and [append] and [count_bits] of
    [mod.rs].  The specification is the Merkle tree hash of RFC 6962, section 2.1,
    as a tree ([mtree]); the theorems show that [from_vec] builds it and that
    [append] keeps it. *)

From S2P Require Import Prelude Errors Hashing.

Abbreviation TreeLeafData := bytes.

(** ** tree.rs *)
Module Tree.

Inductive Tree : Type :=
| Empty (hash : bytes)
| Leaf (hash : bytes) (value : TreeLeafData)
| Node (hash : bytes) (l r : Tree).

#[export] Instance Tree_eq_dec : EqDecision Tree.
Proof. solve_decision. Defined.

Definition empty (hash : bytes) : Tree := Empty hash.

Definition new (hash : bytes) (value : TreeLeafData) : Tree := Leaf hash value.

Definition new_leaf `{Sha256} (value : TreeLeafData) : IndyResult Tree :=
  hash ← Hash.hash_leaf value;
  Ok (new hash value).

Definition hash (self : Tree) : bytes :=
  match self with
  | Empty hash => hash
  | Leaf hash _ => hash
  | Node hash _ _ => hash
  end.

Fixpoint get_height (self : Tree) : N :=
  match self with
  | Empty _ => 0
  | Node _ l r => 1 + N.max (get_height l) (get_height r)
  | Leaf _ _ => 0
  end%N.

Fixpoint get_count (self : Tree) : N :=
  match self with
  | Empty _ => 0
  | Node _ l r => get_count l + get_count r
  | Leaf _ _ => 1
  end%N.

(** [LeavesIterator] and [LeavesIntoIterator], which differ only in ownership; the
    head of [right_nodes] is the end of the vector. *)
Record LeavesIterator := {
  current_value : option TreeLeafData;
  right_nodes : list Tree;
}.

Fixpoint add_left (iter : LeavesIterator) (tree : Tree) : LeavesIterator :=
  match tree with
  | Empty _ => {| current_value := None; right_nodes := right_nodes iter |}
  | Node _ l r =>
      add_left {| current_value := current_value iter;
                  right_nodes := r :: right_nodes iter |} l
  | Leaf _ value => {| current_value := Some value; right_nodes := right_nodes iter |}
  end.

Definition iter (root : Tree) : LeavesIterator :=
  add_left {| current_value := None; right_nodes := [] |} root.

Definition next (it : LeavesIterator) : option TreeLeafData * LeavesIterator :=
  let result := current_value it in
  let it := {| current_value := None; right_nodes := right_nodes it |} in
  match right_nodes it with
  | rest :: nodes => (result, add_left {| current_value := None; right_nodes := nodes |} rest)
  | [] => (result, it)
  end.

(** [it.collect()] *)
Fixpoint collect (fuel : nat) (it : LeavesIterator) : IndyResult (list TreeLeafData) :=
  match fuel with
  | O => OutOfFuel
  | S fuel =>
      match next it with
      | (Some v, it) => vs ← collect fuel it; Ok (v :: vs)
      | (None, _) => Ok []
      end
  end.

Definition iter_collect (root : Tree) : IndyResult (list TreeLeafData) :=
  collect (S (N.to_nat (get_count root))) (iter root).

(** The leaves in order, and the trees without an inner [Empty]. *)
Fixpoint leaves (t : Tree) : list TreeLeafData :=
  match t with
  | Empty _ => []
  | Leaf _ v => [v]
  | Node _ l r => leaves l ++ leaves r
  end.

Fixpoint full (t : Tree) : bool :=
  match t with
  | Empty _ => false
  | Leaf _ _ => true
  | Node _ l r => full l && full r
  end.

Fixpoint inner_nodes (t : Tree) : N :=
  match t with
  | Node _ l r => 1 + inner_nodes l + inner_nodes r
  | _ => 0
  end%N.

Lemma get_count_leaves t : get_count t = N.of_nat (length (leaves t)).
Proof. induction t; cbn; rewrite ?length_app; lia. Qed.

Lemma full_leaves t : full t = true -> leaves t <> [].
Proof.
  induction t as [| |h l IHl r _]; cbn; try done.
  intros [Hl _]%andb_prop H. apply app_eq_nil in H as [H _]. by apply IHl.
Qed.

Lemma full_inner_nodes t : full t = true -> (inner_nodes t + 1 = get_count t)%N.
Proof.
  induction t as [| |h l IHl r IHr]; cbn; try done.
  intros [Hl Hr]%andb_prop. specialize (IHl Hl). specialize (IHr Hr). lia.
Qed.

(** The leaves an iterator has still to visit. *)
Definition pending (it : LeavesIterator) : list TreeLeafData :=
  option_list (current_value it) ++ concat (leaves <$> right_nodes it).

Definition iter_ok (it : LeavesIterator) : Prop :=
  is_Some (current_value it) /\ Forall (fun t => full t = true) (right_nodes it).

Lemma add_left_spec t cv rn :
  full t = true -> Forall (fun t => full t = true) rn ->
  let it := add_left {| current_value := cv; right_nodes := rn |} t in
  iter_ok it /\ pending it = leaves t ++ concat (leaves <$> rn).
Proof.
  revert cv rn. induction t as [|h v|h l IHl r IHr]; intros cv rn Ht Hrn; cbn in *; try done.
  apply andb_prop in Ht as [Hl Hr].
  destruct (IHl cv (r :: rn)) as [Hok Hp]; [done|by constructor|].
  split; [done|]. rewrite Hp. cbn. by rewrite (assoc_L (++)).
Qed.

Lemma collect_spec fuel it :
  iter_ok it -> length (pending it) < fuel -> collect fuel it = Ok (pending it).
Proof.
  revert it. induction fuel as [|fuel IH]; intros [cv rn] [[v Hv] Hrn] Hlen; [lia|].
  cbn in Hv, Hrn. subst cv. cbn [collect]. unfold next; cbn.
  destruct rn as [|t rn]; cbn.
  - destruct fuel; [cbn in Hlen; lia|]. done.
  - apply Forall_cons in Hrn as [Ht Hrn].
    destruct (add_left_spec t None rn Ht Hrn) as [Hok Hp].
    rewrite IH; cbn; [by rewrite Hp|done|].
    rewrite Hp. cbn in Hlen. lia.
Qed.

Lemma iter_collect_full t : full t = true -> iter_collect t = Ok (leaves t).
Proof.
  intros Ht. unfold iter_collect, iter.
  destruct (add_left_spec t None [] Ht ltac:(done)) as [Hok Hp]. cbn in Hp.
  rewrite app_nil_r in Hp. rewrite collect_spec; [by rewrite Hp|done|].
  rewrite Hp, get_count_leaves, Nat2N.id. lia.
Qed.
End Tree.

(** ** merkletree.rs and mod.rs *)
Module MerkleTree.
Import Tree.

Record MerkleTree := mk {
  root : Tree;
  height : N;
  count : N;
  nodes_count : N;
}.

Section MerkleTree.
Context `{Sha256}.

(** The inner loop of [from_vec]: one level from the level below; a last tree without
    a sibling is carried over. *)
Fixpoint pair_level (cur : list Tree) (nodes_count : N) : IndyResult (list Tree * N) :=
  match cur with
  | left_ :: right_ :: rest =>
      combined_hash ← Hash.hash_nodes (Tree.hash left_) (Tree.hash right_);
      '(next, nodes_count) ← pair_level rest (nodes_count + 1)%N;
      Ok (Node combined_hash left_ right_ :: next, nodes_count)
  | [t] => Ok ([t], nodes_count)
  | [] => Ok ([], nodes_count)
  end.

(** The outer loop: levels, until one tree is left. *)
Fixpoint build_levels (fuel : nat) (cur : list Tree) (nodes_count height : N) :
    IndyResult (list Tree * N * N) :=
  if decide (1 < length cur) then
    match fuel with
    | O => OutOfFuel
    | S fuel =>
        '(next, nodes_count) ← pair_level cur nodes_count;
        build_levels fuel next nodes_count (height + 1)%N
    end
  else Ok (cur, nodes_count, height).

Definition from_vec (values : list TreeLeafData) : IndyResult MerkleTree :=
  match values with
  | [] => h ← Hash.hash_empty; Ok (mk (Tree.empty h) 0 0 0)
  | _ =>
      let count := N.of_nat (length values) in
      cur ← mapM Tree.new_leaf values;
      '(cur, nodes_count, height) ← build_levels (length cur) cur 0 0;
      match cur with
      | [root] => Ok (mk root height count nodes_count)
      | _ => Panic
      end
  end%N.

Definition root_hash (self : MerkleTree) : bytes := Tree.hash (root self).

Definition is_empty (self : MerkleTree) : bool := (count self =? 0)%N.

Definition iter (self : MerkleTree) : IndyResult (list TreeLeafData) :=
  Tree.iter_collect (root self).

(** [count_bits]: [val &= val - 1] until [val] is 0. *)
Fixpoint count_bits_loop (fuel : nat) (val ret : N) : N :=
  match fuel with
  | O => ret
  | S fuel =>
      if (val =? 0)%N then ret
      else count_bits_loop fuel (N.land val (val - 1)) (ret + 1)
  end.

Definition count_bits (v : N) : N := count_bits_loop (S (N.size_nat v)) v 0.

Definition append (self : MerkleTree) (node : TreeLeafData) : IndyResult MerkleTree :=
  if (count self =? 0)%N then
    root ← Tree.new_leaf node;
    Ok (mk root (height self) (count self + 1) (nodes_count self))
  else if negb (count_bits (count self) =? 1)%N then
    match root self with
    | Node _ left_ right_ =>
        iter ← Tree.iter_collect right_;
        new_right ← from_vec (iter ++ [node]);
        combined_hash ← Hash.hash_nodes (Tree.hash left_) (root_hash new_right);
        Ok (mk (Node combined_hash left_ (root new_right)) (height self)
              (count self + 1) (nodes_count self + 1))
    | _ => Panic
    end
  else
    new_right ← from_vec [node];
    match root self with
    | Node hash _ _ =>
        combined_hash ← Hash.hash_nodes hash (root_hash new_right);
        Ok (mk (Node combined_hash (root self) (root new_right)) (height self + 1)
              (count self + 1) (nodes_count self + 1))
    | Leaf hash value =>
        combined_hash ← Hash.hash_nodes hash (root_hash new_right);
        left_ ← Tree.new_leaf value;
        Ok (mk (Node combined_hash left_ (root new_right)) (height self + 1)
              (count self + 1) (nodes_count self + 1))
    | Empty _ => Panic
    end.

(** ** The specification: RFC 6962 *)

(** [mtree d l]: the tree of the leaves [l], at most [2 ^ d] of them; the left subtree
    holds the largest power of two smaller than their number. *)
Fixpoint mtree (d : nat) (l : list TreeLeafData) : Tree :=
  match d with
  | O => match l with
         | v :: _ => Leaf (Hash.leaf_digest v) v
         | [] => Empty (sha256_digest [])
         end
  | S d =>
      if decide (length l <= 2 ^ d) then mtree d l
      else let tl := mtree d (take (2 ^ d) l) in
           let tr := mtree d (drop (2 ^ d) l) in
           Node (Hash.nodes_digest (Tree.hash tl) (Tree.hash tr)) tl tr
  end.

(** A depth that is enough, and the tree of a list of leaves. *)
Definition merkle (l : list TreeLeafData) : Tree := mtree (length l) l.

(** The Merkle tree hash of RFC 6962. *)
Definition mth (l : list TreeLeafData) : bytes := Tree.hash (merkle l).

(** What a [MerkleTree] value is, as a function of its leaves. *)
Definition represents (mt : MerkleTree) (l : list TreeLeafData) : Prop :=
  root mt = merkle l /\ count mt = N.of_nat (length l) /\
  height mt = Tree.get_height (merkle l) /\ nodes_count mt = Tree.inner_nodes (merkle l).

Lemma length_lt_pow2 (n : nat) : n < 2 ^ n.
Proof. apply Nat.pow_gt_lin_r. lia. Qed.

Lemma mtree_S d l : length l <= 2 ^ d -> mtree (S d) l = mtree d l.
Proof. intros. cbn. by rewrite decide_True. Qed.

Lemma mtree_node d l : 2 ^ d < length l ->
  mtree (S d) l =
    let tl := mtree d (take (2 ^ d) l) in
    let tr := mtree d (drop (2 ^ d) l) in
    Node (Hash.nodes_digest (Tree.hash tl) (Tree.hash tr)) tl tr.
Proof. intros. cbn. by rewrite decide_False by lia. Qed.

Lemma mtree_depth d d' l : length l <= 2 ^ d -> d <= d' -> mtree d' l = mtree d l.
Proof.
  intros Hl. induction 1 as [|d' Hd IH]; [done|].
  rewrite mtree_S; [done|]. etrans; [done|]. apply Nat.pow_le_mono_r; lia.
Qed.

Lemma merkle_mtree d l : length l <= 2 ^ d -> merkle l = mtree d l.
Proof.
  intros Hd. unfold merkle. pose proof (length_lt_pow2 (length l)).
  rewrite <-(mtree_depth (length l) (length l + d)) by lia.
  apply mtree_depth; lia.
Qed.

(** The recursive equations of RFC 6962. *)
Lemma merkle_singleton v : merkle [v] = Leaf (Hash.leaf_digest v) v.
Proof. done. Qed.

Lemma merkle_split d l : 2 ^ d < length l <= 2 * 2 ^ d ->
  merkle l = Node (Hash.nodes_digest (mth (take (2 ^ d) l)) (mth (drop (2 ^ d) l)))
               (merkle (take (2 ^ d) l)) (merkle (drop (2 ^ d) l)).
Proof.
  intros Hd. rewrite (merkle_mtree (S d)), mtree_node by (cbn; lia). unfold mth. cbn.
  rewrite (merkle_mtree d (take _ _)) by (rewrite length_take; lia).
  by rewrite (merkle_mtree d (drop _ _)) by (rewrite length_drop; lia).
Qed.

(** Every list of two leaves or more is split. *)
Lemma split_depth (n : nat) : 2 <= n -> exists d, 2 ^ d < n <= 2 * 2 ^ d.
Proof.
  intros Hn. exists (Nat.log2 (n - 1)).
  pose proof (Nat.log2_spec (n - 1) ltac:(lia)) as Hs. rewrite Nat.pow_succ_r' in Hs. lia.
Qed.

(** Induction along the splits. *)
Lemma merkle_ind (P : list TreeLeafData -> Prop) :
  P [] -> (forall v, P [v]) ->
  (forall d l, 2 ^ d < length l <= 2 * 2 ^ d ->
     P (take (2 ^ d) l) -> P (drop (2 ^ d) l) -> P l) ->
  forall l, P l.
Proof.
  intros H0 H1 H2 l. induction l as [l IH] using (induction_ltof1 _ length).
  unfold ltof in IH. destruct l as [|v [|v' l']]; [done..|].
  destruct (split_depth (length (v :: v' :: l'))) as [d Hd]; [cbn; lia|].
  apply (H2 d); [done|apply IH; rewrite length_take; lia|].
  apply IH. rewrite length_drop. pose proof (Nat.pow_nonzero 2 d). lia.
Qed.

Lemma merkle_leaves l : Tree.leaves (merkle l) = l.
Proof.
  induction l as [|v|d l Hd IHl IHr] using merkle_ind; [done..|].
  rewrite (merkle_split d) by done. cbn. by rewrite IHl, IHr, take_drop.
Qed.

Lemma merkle_full l : l <> [] -> Tree.full (merkle l) = true.
Proof.
  induction l as [|v|d l Hd IHl IHr] using merkle_ind; [done..|]. intros _.
  rewrite (merkle_split d) by done. cbn.
  rewrite IHl, IHr; [done|..]; intros Hn%(f_equal length);
    rewrite ?length_drop, ?length_take in Hn; cbn in Hn;
    pose proof (Nat.pow_nonzero 2 d); lia.
Qed.

Lemma merkle_count l : Tree.get_count (merkle l) = N.of_nat (length l).
Proof. by rewrite Tree.get_count_leaves, merkle_leaves. Qed.

Lemma mtree_height_le d l : (Tree.get_height (mtree d l) <= N.of_nat d)%N.
Proof.
  revert l. induction d as [|d IH]; intros l; cbn.
  - by destruct l.
  - case_decide.
    + specialize (IH l). lia.
    + cbn. pose proof (IH (take (2 ^ d) l)). pose proof (IH (drop (2 ^ d) l)). lia.
Qed.

Lemma mtree_height d l : 2 ^ d < length l ->
  Tree.get_height (mtree (S d) l) = N.of_nat (S d).
Proof.
  revert l. induction d as [|d IH]; intros l Hd; rewrite mtree_node by done;
    cbn [Tree.get_height].
  - by destruct l as [|v [|v' l]]; [cbn in *; lia..|].
  - rewrite IH by (rewrite length_take; cbn in *; pose proof (Nat.pow_nonzero 2 d); lia).
    pose proof (mtree_height_le (S d) (drop (2 ^ S d) l)). lia.
Qed.

(** The height is the logarithm of the number of leaves, rounded up. *)
Lemma merkle_height d l :
  2 ^ d < length l <= 2 * 2 ^ d -> Tree.get_height (merkle l) = N.of_nat (S d).
Proof.
  intros Hd. rewrite (merkle_mtree (S d)) by (cbn; lia). apply mtree_height. lia.
Qed.

(** ** Construction *)

(** The trees of one level: subtrees of [2 ^ j] leaves, the last one maybe smaller. *)
Fixpoint level (fuel j : nat) (l : list TreeLeafData) : list Tree :=
  match fuel, l with
  | S fuel, _ :: _ => mtree j (take (2 ^ j) l) :: level fuel j (drop (2 ^ j) l)
  | _, _ => []
  end.

Lemma level_cons fuel j l : l <> [] ->
  level (S fuel) j l = mtree j (take (2 ^ j) l) :: level fuel j (drop (2 ^ j) l).
Proof. by destruct l. Qed.

Lemma level_nil fuel j : level fuel j [] = [].
Proof. by destruct fuel. Qed.

Lemma level_fuel fuel fuel' j l :
  length l <= fuel -> length l <= fuel' -> level fuel j l = level fuel' j l.
Proof.
  revert fuel' l. induction fuel as [|fuel IH]; intros [|fuel'] [|v l] H1 H2; cbn in *; try lia; try done.
  f_equal. apply IH; rewrite length_drop; cbn; pose proof (Nat.pow_nonzero 2 j); lia.
Qed.

Lemma level_0 fuel l : length l <= fuel ->
  level fuel 0 l = (fun v => Leaf (Hash.leaf_digest v) v) <$> l.
Proof.
  revert l. induction fuel as [|fuel IH]; intros [|v l] Hl; cbn in *; try lia; try done.
  f_equal. rewrite drop_0. apply IH. lia.
Qed.

Lemma level_last fuel j l : l <> [] -> length l <= fuel -> length l <= 2 ^ j ->
  level fuel j l = [merkle l].
Proof.
  intros Hn Hf Hl. destruct fuel as [|fuel]; [destruct l; cbn in *; [done|lia]|].
  rewrite level_cons, take_ge, drop_ge, level_nil by done. f_equal. symmetry.
  by apply merkle_mtree.
Qed.

(** Number of inner nodes of a level. *)
Definition inner (ts : list Tree) : N := foldr N.add 0%N (Tree.inner_nodes <$> ts).

Lemma inner_single t : inner [t] = Tree.inner_nodes t.
Proof. unfold inner. cbn. lia. Qed.

(** One run of the inner loop builds the next level. *)
Lemma pair_level_level fuel j l nc :
  length l <= fuel ->
  Hash.hashes (pair_level (level fuel j l) nc) (fun '(next, nc') =>
    next = level fuel (S j) l /\ (nc' + inner (level fuel j l) = nc + inner next)%N).
Proof.
  revert l nc. induction fuel as [fuel IH] using lt_wf_ind. intros l nc Hf.
  pose proof (Nat.pow_nonzero 2 j) as Hpow.
  destruct (decide (l = [])) as [->|Hn]; [by rewrite !level_nil|].
  destruct (decide (length l <= 2 ^ j)) as [Hl|Hl].
  { by rewrite !level_last by (cbn; try done; lia). }
  destruct fuel as [|[|fuel]]; [lia..|].
  assert (drop (2 ^ j) l <> []) as Hd.
  { intros Hd%(f_equal length). rewrite length_drop in Hd. cbn in Hd. lia. }
  rewrite !level_cons by done. cbn [pair_level].
  hashes_step Hash.hashes_nodes.
  eapply Hash.hashes_bind.
  { apply IH; [lia|]. rewrite !length_drop. lia. }
  intros [next nc'] [-> Hnc]. cbn [Hash.hashes].
  rewrite mtree_node by (rewrite length_take; cbn; lia).
  rewrite take_take, drop_drop, Nat.min_l by (cbn; lia).
  replace (2 ^ S j) with (2 ^ j + 2 ^ j) by (cbn; lia).
  rewrite <-take_drop_commute.
  split.
  - cbn zeta. f_equal. apply level_fuel; rewrite length_drop; lia.
  - rewrite drop_drop in Hnc. revert Hnc.
    rewrite (level_fuel fuel (S fuel) (S j)) by (rewrite length_drop; lia).
    unfold inner. cbn. lia.
Qed.

(** A level has one tree exactly when its subtrees are wide enough. *)
Lemma level_length_le fuel j l : length l <= fuel ->
  length (level fuel j l) <= 1 <-> length l <= 2 ^ j.
Proof.
  intros Hf. destruct (decide (l = [])) as [->|Hn].
  { rewrite level_nil. cbn. lia. }
  split; intros Hl.
  - destruct (decide (length l <= 2 ^ j)) as [|Hj]; [done|].
    pose proof (Nat.pow_nonzero 2 j) as Hpow.
    destruct fuel as [|[|fuel]]; [lia..|].
    rewrite !level_cons in Hl; [cbn in Hl; lia|..|done].
    intros Hd%(f_equal length). rewrite length_drop in Hd. cbn in Hd. lia.
  - by rewrite level_last.
Qed.

Lemma merkle_height_le j l : l <> [] ->
  (Tree.get_height (merkle l) <= N.of_nat j)%N <-> length l <= 2 ^ j.
Proof.
  intros Hn. split; intros Hj.
  - destruct (decide (length l <= 2 ^ j)) as [|Hj']; [done|].
    destruct (split_depth (length l)) as [d Hd]; [pose proof (Nat.pow_nonzero 2 j); lia|].
    rewrite (merkle_height d) in Hj by done.
    assert (2 * 2 ^ d <= 2 ^ j); [|lia].
    rewrite <-Nat.pow_succ_r'. apply Nat.pow_le_mono_r; lia.
  - rewrite (merkle_mtree j) by done. apply mtree_height_le.
Qed.

(** The outer loop ends, after at most as many levels as there are leaves, with the
    specified tree. *)
Lemma build_levels_level fuel n j l nc h :
  length l <= n -> l <> [] -> length l <= 2 ^ (j + fuel) ->
  Hash.hashes (build_levels fuel (level n j l) nc h) (fun '(cur, nc', h') =>
    cur = [merkle l] /\ nc' + inner (level n j l) = nc + Tree.inner_nodes (merkle l) /\
    h' = h + (Tree.get_height (merkle l) - N.of_nat j))%N.
Proof.
  intros Hn Hl. revert j nc h. induction fuel as [|fuel IH]; intros j nc h Hf;
    cbn [build_levels]; pose proof (level_length_le n j l Hn) as Hlen;
    pose proof (merkle_height_le j l Hl) as Hheight.
  all: destruct (decide (1 < length (level n j l))) as [Hj|Hj].
  - rewrite Nat.add_0_r in Hf. lia.
  - cbn. rewrite level_last, inner_single by (done || lia). split_and!; [done|lia|lia].
  - eapply Hash.hashes_bind; [by apply pair_level_level|].
    intros [next nc'] [-> Hnc].
    eapply Hash.hashes_mono; [apply (IH (S j)); by rewrite Nat.add_succ_comm|].
    intros [[cur nc''] h'] (-> & Hnc' & ->). split_and!; [done|lia..].
  - cbn. rewrite level_last, inner_single by (done || lia). split_and!; [done|lia|lia].
Qed.

Lemma inner_leaves l :
  inner ((fun v => Leaf (Hash.leaf_digest v) v) <$> l) = 0%N.
Proof. induction l as [|v l IH]; [done|]. cbn. unfold inner in IH. lia. Qed.

Lemma new_leaf_spec v :
  Hash.hashes (Tree.new_leaf v) (fun t => t = Leaf (Hash.leaf_digest v) v).
Proof. unfold Tree.new_leaf. by hashes_step Hash.hashes_leaf. Qed.

(** [from_vec] in one statement: it fails only when OpenSSL does, and what it returns
    is the tree of RFC 6962 over the values, with its counters. *)
Lemma from_vec_hashes values :
  Hash.hashes (from_vec values) (fun mt => represents mt values).
Proof.
  destruct values as [|v values]; cbn [from_vec].
  { by hashes_step Hash.hashes_run. }
  set (l := v :: values). assert (l <> []) as Hn by done. clearbody l.
  eapply Hash.hashes_bind.
  { apply (Hash.hashes_mapM _ (fun v => Leaf (Hash.leaf_digest v) v)).
    intros; apply new_leaf_spec. }
  intros ? ->. rewrite length_fmap, <-(level_0 (length l)) by done.
  eapply Hash.hashes_bind.
  { apply (build_levels_level (length l) (length l) 0 l 0%N 0%N); [done..|].
    pose proof (length_lt_pow2 (length l)). rewrite Nat.add_0_l. lia. }
  intros [[cur nc] h] (-> & Hnc & ->).
  rewrite level_0, inner_leaves in Hnc by done.
  unfold represents; cbn [Hash.hashes root count height nodes_count].
  split_and!; [done|done|lia|lia].
Qed.

(** ** count_bits *)

Fixpoint popcount_pos (p : positive) : N :=
  match p with xH => 1 | xO p => popcount_pos p | xI p => 1 + popcount_pos p end%N.

Definition popcount (n : N) : N :=
  match n with N0 => 0%N | Npos p => popcount_pos p end.

Lemma popcount_pos_positive p : (1 <= popcount_pos p)%N.
Proof. induction p; cbn; lia. Qed.

(** [v & (v - 1)] clears the lowest set bit. *)
Lemma popcount_clear p :
  (popcount (N.land (Npos p) (Npos p - 1)) + 1 = popcount_pos p)%N.
Proof.
  induction p as [p _|p IH|].
  - replace (N.pos p~1 - 1)%N with (N.pos p~0) by lia.
    change (N.land (N.pos p~1) (N.pos p~0)) with (N.double (N.land (N.pos p) (N.pos p))).
    rewrite N.land_diag. cbn. lia.
  - replace (N.pos p~0 - 1)%N with (N.succ_double (N.pos p - 1)).
    + assert (N.land (N.pos p~0) (N.succ_double (N.pos p - 1)) =
        N.double (N.land (N.pos p) (N.pos p - 1))) as ->.
      { by destruct (N.pos p - 1)%N. }
      cbn [popcount_pos]. rewrite <-IH. by destruct (N.land _ _).
    + rewrite N.succ_double_spec. lia.
  - done.
Qed.

Lemma count_bits_loop_spec fuel v r :
  (popcount v < N.of_nat fuel)%N -> count_bits_loop fuel v r = (r + popcount v)%N.
Proof.
  revert v r. induction fuel as [|fuel IH]; intros v r Hf; [lia|].
  cbn [count_bits_loop]. destruct v as [|p]; [cbn; lia|].
  change (N.pos p =? 0)%N with false. cbn iota.
  pose proof (popcount_clear p) as Hp. change (popcount (N.pos p)) with (popcount_pos p) in *.
  rewrite IH; lia.
Qed.

Lemma popcount_size v : (popcount v <= N.of_nat (N.size_nat v))%N.
Proof.
  destruct v as [|p]; [done|]. cbn. induction p; cbn; lia.
Qed.

(** The loop of [count_bits] ends with the number of set bits. *)
Lemma count_bits_popcount v : count_bits v = popcount v.
Proof.
  unfold count_bits. rewrite count_bits_loop_spec; [lia|].
  pose proof (popcount_size v). lia.
Qed.

Lemma popcount_one v : (popcount v = 1 <-> exists k, v = 2 ^ N.of_nat k)%N.
Proof.
  split.
  - destruct v as [|p]; [done|]. cbn. induction p as [p _|p IH|]; cbn.
    + pose proof (popcount_pos_positive p). lia.
    + intros [k Hk]%IH. exists (S k). rewrite Nat2N.inj_succ, N.pow_succ_r', <-Hk. lia.
    + intros _. by exists 0.
  - intros [k ->]. induction k as [|k IH]; [done|].
    rewrite Nat2N.inj_succ, N.pow_succ_r'. by destruct (2 ^ N.of_nat k)%N.
Qed.

(** The test of [append]: one bit is set exactly in the powers of two. *)
Lemma count_bits_one n :
  count_bits (N.of_nat n) = 1%N <-> exists k, n = 2 ^ k.
Proof.
  rewrite count_bits_popcount, popcount_one. split; intros [k Hk]; exists k.
  - apply Nat2N.inj. by rewrite Nat2N.inj_pow.
  - by rewrite Hk, Nat2N.inj_pow.
Qed.

(** ** append *)

(** A last leaf goes to the right subtree unless the tree is full. *)
Lemma merkle_snoc_right d l v : 2 ^ d < length l < 2 * 2 ^ d ->
  merkle (l ++ [v]) =
    Node (Hash.nodes_digest (mth (take (2 ^ d) l)) (mth (drop (2 ^ d) l ++ [v])))
      (merkle (take (2 ^ d) l)) (merkle (drop (2 ^ d) l ++ [v])).
Proof.
  intros Hd. rewrite (merkle_split d) by (rewrite length_app; cbn; lia).
  by rewrite take_app_le, drop_app_le by lia.
Qed.

Lemma merkle_snoc_full d l v : length l = 2 ^ d ->
  merkle (l ++ [v]) =
    Node (Hash.nodes_digest (mth l) (Hash.leaf_digest v)) (merkle l)
      (Leaf (Hash.leaf_digest v) v).
Proof.
  intros Hd. pose proof (Nat.pow_nonzero 2 d).
  rewrite (merkle_split d) by (rewrite length_app; cbn; lia).
  rewrite <-Hd, take_app_length, drop_app_length. done.
Qed.

Lemma full_depth l d : length l = 2 ^ d -> Tree.get_height (merkle l) = N.of_nat d.
Proof.
  intros Hd. destruct d as [|d].
  - by destruct l as [|v [|]].
  - apply merkle_height. cbn in *. pose proof (Nat.pow_nonzero 2 d). lia.
Qed.

(** The new root when the tree was full, and when the leaf goes to the right. *)
Lemma represents_snoc_full mt l v d h : length l = 2 ^ d -> represents mt l -> h = mth l ->
  Hash.hashes
    (combined_hash ← Hash.hash_nodes h (mth [v]);
     Ok (mk (Node combined_hash (merkle l) (merkle [v])) (height mt + 1)
           (N.of_nat (length l) + 1) (nodes_count mt + 1)))
    (fun mt' => represents mt' (l ++ [v])).
Proof.
  intros Hd (_ & _ & Hheight & Hnodes) ->. hashes_step Hash.hashes_nodes.
  unfold represents. rewrite (merkle_snoc_full d), length_app by done.
  cbn [Hash.hashes root height count nodes_count].
  rewrite Hheight, Hnodes, (full_depth l d) by done.
  split_and!; [done|cbn [length]; lia|..]; cbn [Tree.get_height Tree.inner_nodes];
    rewrite ?(full_depth l d) by done; lia.
Qed.

Lemma represents_snoc_right mt l v d : 2 ^ d < length l < 2 * 2 ^ d -> represents mt l ->
  Hash.hashes
    (combined_hash ← Hash.hash_nodes (mth (take (2 ^ d) l)) (mth (drop (2 ^ d) l ++ [v]));
     Ok (mk (Node combined_hash (merkle (take (2 ^ d) l)) (merkle (drop (2 ^ d) l ++ [v])))
           (height mt) (N.of_nat (length l) + 1) (nodes_count mt + 1)))
    (fun mt' => represents mt' (l ++ [v])).
Proof.
  intros Hd (_ & _ & Hheight & Hnodes). hashes_step Hash.hashes_nodes.
  unfold represents. cbn [Hash.hashes root height count nodes_count].
  rewrite Hheight, Hnodes, length_app.
  rewrite !(merkle_height d) by (rewrite ?length_app; cbn [length]; lia).
  rewrite <-(merkle_snoc_right d) by done.
  split_and!; [done|cbn [length]; lia|done|].
  pose proof (full_inner_nodes (merkle l)) as H1.
  pose proof (full_inner_nodes (merkle (l ++ [v]))) as H2.
  rewrite merkle_count in H1, H2. rewrite length_app in H2. cbn [length] in H2.
  specialize (H1 ltac:(apply merkle_full; intros ->; cbn in Hd; lia)).
  specialize (H2 ltac:(apply merkle_full; by destruct l)). lia.
Qed.

(** [append] in one statement. *)
Lemma append_hashes mt l v :
  represents mt l ->
  Hash.hashes (append mt v) (fun mt' => represents mt' (l ++ [v])).
Proof.
  intros Hrep. pose proof Hrep as (Hroot & Hcount & Hheight & Hnodes).
  unfold append. rewrite Hcount, Hroot.
  destruct (N.eqb_spec (N.of_nat (length l)) 0) as [H0|H0].
  { destruct l; [|cbn in H0; lia]. hashes_step new_leaf_spec.
    unfold represents; cbn in *. by rewrite Hheight, Hnodes. }
  destruct (N.eqb_spec (count_bits (N.of_nat (length l))) 1) as [H1|H1]; cbn [negb].
  - apply count_bits_one in H1 as [d Hd].
    eapply Hash.hashes_bind; [apply from_vec_hashes|].
    intros nr (Hr & _ & _ & _). unfold root_hash. rewrite Hr. fold (mth [v]).
    destruct (merkle l) as [h|h w|h tl tr] eqn:Hl.
    + pose proof (merkle_full l) as Hf. rewrite Hl in Hf. by destruct l; [|discriminate Hf].
    + pose proof (merkle_leaves l) as Hw. rewrite Hl in Hw. cbn in Hw. subst l.
      cbn in Hl. injection Hl as <-.
      pose proof (represents_snoc_full mt [w] v 0 _ eq_refl Hrep eq_refl) as Hs.
      change (mth [w]) with (Hash.leaf_digest w) in Hs.
      destruct (Hash.hash_nodes _ _); cbn [mbind outcome_bind] in *; [|done..].
      by hashes_step new_leaf_spec.
    + rewrite <-Hl. apply (represents_snoc_full mt l v d); [done..|].
      unfold mth. by rewrite Hl.
  - destruct (split_depth (length l)) as [d Hd].
    { destruct l as [|w [|]]; cbn in *; [lia| |lia]. by destruct H1. }
    assert (length l <> 2 * 2 ^ d) as Hne.
    { intros He. apply H1, count_bits_one. by exists (S d). }
    rewrite (merkle_split d) by done.
    rewrite iter_collect_full, merkle_leaves.
    2: { apply merkle_full. intros Hn%(f_equal length). rewrite length_drop in Hn.
         cbn in Hn. lia. }
    cbn [mbind outcome_bind].
    eapply Hash.hashes_bind; [apply from_vec_hashes|].
    intros nr (Hr & _ & _ & _). unfold root_hash. rewrite Hr.
    apply represents_snoc_right; [lia|done].
Qed.

(** ** Properties *)

(** [MerkleTree::new()] followed by [append]s: how the pool code builds its tree. *)
Definition append_all (mt : MerkleTree) (vs : list TreeLeafData) : IndyResult MerkleTree :=
  foldM append vs mt.

Lemma append_all_hashes vs mt l :
  represents mt l -> Hash.hashes (append_all mt vs) (fun mt' => represents mt' (l ++ vs)).
Proof.
  revert mt l. induction vs as [|v vs IH]; intros mt l Hrep; cbn.
  - by rewrite app_nil_r.
  - eapply Hash.hashes_bind; [by apply append_hashes|]. intros mt' Hrep'.
    replace (l ++ v :: vs) with ((l ++ [v]) ++ vs) by (by rewrite <-(assoc_L (++))).
    by apply IH.
Qed.

Lemma represents_root_hash mt l : represents mt l -> root_hash mt = mth l.
Proof. intros (Hr & _). unfold root_hash. by rewrite Hr. Qed.
End MerkleTree.
End MerkleTree.

Import MerkleTree.

(** [MerkleTree::from_vec] implements the Merkle tree of RFC 6962.  For every list
    of values it returns, unless OpenSSL fails, a tree that is the tree the RFC defines
    by splitting at the largest power of two, with [count], [height] and [nodes_count]
    equal to the number of leaves, the height and the number of inner nodes of that
    tree; it never unwinds and its loops end. *)
Theorem from_vec_rfc6962 `{Sha256} (values : list TreeLeafData) :
  match from_vec values with
  | Ok mt => represents mt values
  | Err e => e = InvalidState /\ exists msg, openssl_ok msg = false
  | Panic | OutOfFuel => False
  end.
Proof. apply from_vec_hashes. Qed.

(** C36: [MerkleTree::append] implements appending a leaf.  Appending any sequence of
    values, one by one, to the tree of [l] gives the same tree, hashes and counters as
    building the tree of all the values at once, and none of the [assert!(false)]
    branches of [append] is reachable. *)
Theorem append_rfc6962 `{Sha256} (l vs : list TreeLeafData) (mt : MerkleTree) :
  from_vec l = Ok mt ->
  match append_all mt vs with
  | Ok mt' => represents mt' (l ++ vs)
  | Err e => e = InvalidState /\ exists msg, openssl_ok msg = false
  | Panic | OutOfFuel => False
  end.
Proof.
  intros Hmt. apply append_all_hashes.
  exact (Hash.hashes_Ok _ _ _ (from_vec_hashes l) Hmt).
Qed.

Definition sample_leaves : list TreeLeafData := [[Byte.x61]; [Byte.x62]; [Byte.x63]].

#[local] Existing Instance ToySha.sha.

Lemma append_rfc6962_witness :
  exists mt, from_vec sample_leaves = Ok mt /\
  match append_all mt [[Byte.x64]; [Byte.x65]] with
  | Ok mt' => represents mt' (sample_leaves ++ [[Byte.x64]; [Byte.x65]])
  | Err e => e = InvalidState /\ exists msg, openssl_ok msg = false
  | Panic | OutOfFuel => False
  end.
Proof.
  destruct (from_vec sample_leaves) as [mt| | |] eqn:Hmt; [|vm_compute in Hmt; discriminate..].
  exists mt. split; [reflexivity|].
  apply (append_rfc6962 sample_leaves [[Byte.x64]; [Byte.x65]] mt Hmt).
Defined.
