(* ===== verification/MerkleProof.v ===== *)
(** * MerkleProof: inclusion proofs and hash lookup

    Models [libindy/src/services/ledger/merkletree/proof.rs], [gen_proof] of
    [merkletree.rs] and [find_hash] of [mod.rs].  The theorems: a generated proof
    validates (completeness); a lemma that validates against the root of a tree is a
    path of that tree (soundness, on messages without collisions); and what the
    validation does not check, the [value] of the proof. *)

From S2P Require Import Prelude Errors Hashing MerkleTree.
Import MerkleTree.Tree MerkleTree.MerkleTree.

Inductive Positioned (A : Type) : Type :=
| Left (x : A)
| Right (x : A).
Arguments Left {A} x.
Arguments Right {A} x.

(** The source's struct [Lemma]. *)
Inductive ProofLemma : Type := mk_lemma {
  node_hash : bytes;
  sibling_hash : option (Positioned bytes);
  sub_lemma : option ProofLemma;
}.

Record Proof_ := mk_proof {
  proof_root_hash : bytes;
  lemma : ProofLemma;
  value : TreeLeafData;
}.

Section proofs.
Context `{Sha256}.

Definition new_leaf_proof (hash needle : bytes) : option ProofLemma :=
  if decide (hash = needle) then Some (mk_lemma hash None None) else None.

(** [Lemma::new] and [Lemma::new_tree_proof], which call each other: the left subtree
    first, then the right one. *)
Fixpoint lemma_new (tree : Tree) (needle : bytes) : option ProofLemma :=
  match tree with
  | Empty _ => None
  | Leaf hash _ => new_leaf_proof hash needle
  | Node hash l r =>
      let found :=
        match lemma_new l needle with
        | Some lemma => Some (lemma, Right (Tree.hash r))
        | None =>
            match lemma_new r needle with
            | Some lemma => Some (lemma, Left (Tree.hash l))
            | None => None
            end
        end in
      match found with
      | Some (sub_lemma, sibling_hash) => Some (mk_lemma hash (Some sibling_hash) (Some sub_lemma))
      | None => None
      end
  end.

Definition gen_proof (self : MerkleTree) (value : TreeLeafData) : IndyResult (option Proof_) :=
  leaf_hash ← Hash.hash_leaf value;
  Ok ((fun lemma => mk_proof (root_hash self) lemma value) <$> lemma_new (root self) leaf_hash).

Fixpoint validate_lemma (lemma : ProofLemma) : IndyResult bool :=
  match sub_lemma lemma with
  | None => Ok (bool_decide (sibling_hash lemma = None))
  | Some sub =>
      match sibling_hash lemma with
      | None => Ok false
      | Some (Left hash) =>
          combined ← Hash.hash_nodes hash (node_hash sub);
          if decide (combined = node_hash lemma) then validate_lemma sub else Ok false
      | Some (Right hash) =>
          combined ← Hash.hash_nodes (node_hash sub) hash;
          if decide (combined = node_hash lemma) then validate_lemma sub else Ok false
      end
  end.

Definition validate (self : Proof_) (root_hash : bytes) : IndyResult bool :=
  if decide (proof_root_hash self <> root_hash \/ node_hash (lemma self) <> root_hash)
  then Ok false
  else validate_lemma (lemma self).

(** [MerkleTree::find_hash]: the right subtree first; an [Empty] tree unwinds. *)
Fixpoint find_hash (from : Tree) (required_hash : bytes) : IndyResult (option Tree) :=
  match from with
  | Empty _ => Panic
  | Node hash l r =>
      if decide (hash = required_hash) then Ok (Some from)
      else
        right_ ← find_hash r required_hash;
        match right_ with
        | Some r => Ok (Some r)
        | None =>
            left_ ← find_hash l required_hash;
            match left_ with
            | Some r => Ok (Some r)
            | None => Ok None
            end
        end
  | Leaf hash _ => if decide (hash = required_hash) then Ok (Some from) else Ok None
  end.

(** ** Specifications *)

(** The subtrees of a tree, the tree itself included. *)
Fixpoint subtrees (t : Tree) : list Tree :=
  t :: match t with Node _ l r => subtrees l ++ subtrees r | _ => [] end.

(** The hashes stored in a tree are the hashes of RFC 6962. *)
Fixpoint hashed (t : Tree) : Prop :=
  match t with
  | Empty h => h = sha256_digest []
  | Leaf h v => h = Hash.leaf_digest v
  | Node h l r => h = Hash.nodes_digest (Tree.hash l) (Tree.hash r) /\ hashed l /\ hashed r
  end.

(** A lemma is a path of a tree: every hash it holds is the one the tree holds there,
    and its last hash is that of the subtree the path leads to. *)
Fixpoint path_in (lemma : ProofLemma) (t : Tree) : Prop :=
  node_hash lemma = Tree.hash t /\
  match sub_lemma lemma, sibling_hash lemma, t with
  | None, None, _ => True
  | Some sub, Some (Left h), Node _ l r => h = Tree.hash l /\ path_in sub r
  | Some sub, Some (Right h), Node _ l r => h = Tree.hash r /\ path_in sub l
  | _, _, _ => False
  end.

(** The last hash of a lemma. *)
Fixpoint bottom (lemma : ProofLemma) : bytes :=
  match sub_lemma lemma with
  | None => node_hash lemma
  | Some sub => bottom sub
  end.

(** The messages hashed to build a tree, and to validate a lemma. *)
Fixpoint tree_messages (t : Tree) : list bytes :=
  match t with
  | Empty _ => [[]]
  | Leaf _ v => [Hash.leaf_message v]
  | Node _ l r => Hash.nodes_message (Tree.hash l) (Tree.hash r) :: tree_messages l ++ tree_messages r
  end.

Fixpoint lemma_messages (lemma : ProofLemma) : list bytes :=
  match sub_lemma lemma with
  | None => []
  | Some sub =>
      match sibling_hash lemma with
      | None => []
      | Some (Left h) => [Hash.nodes_message h (node_hash sub)]
      | Some (Right h) => [Hash.nodes_message (node_hash sub) h]
      end ++ lemma_messages sub
  end.

(** Every hash a lemma holds has the length of a digest. *)
Fixpoint lemma_sized (lemma : ProofLemma) : Prop :=
  length (node_hash lemma) = HASHBYTES /\
  match sibling_hash lemma with
  | Some (Left h) | Some (Right h) => length h = HASHBYTES
  | None => True
  end /\
  match sub_lemma lemma with Some sub => lemma_sized sub | None => True end.
End proofs.

(** Induction on lemmas that reaches the sub-lemma. *)
Section lemma_ind.
  Variable P : ProofLemma -> Prop.
  Hypothesis Hbottom : forall h s, P (mk_lemma h s None).
  Hypothesis Hstep : forall h s sub, P sub -> P (mk_lemma h s (Some sub)).

Fixpoint ProofLemma_deep_ind (p : ProofLemma) : P p :=
  match p with
  | mk_lemma h s None => Hbottom h s
  | mk_lemma h s (Some sub) => Hstep h s sub (ProofLemma_deep_ind sub)
  end.
End lemma_ind.

Section theorems.
Context `{Sha256}.

Lemma mtree_hashed d l : hashed (mtree d l).
Proof.
  revert l. induction d as [|d IH]; intros l; cbn.
  - by destruct l.
  - case_decide; [done|]. cbn. eauto.
Qed.

Lemma hashed_length `{!Sha256Length} t : hashed t -> length (Tree.hash t) = HASHBYTES.
Proof. destruct t; cbn; [intros ->|intros ->|intros [-> _]]; apply sha256_digest_length. Qed.

Lemma lemma_new_node_hash t needle p : lemma_new t needle = Some p -> node_hash p = Tree.hash t.
Proof.
  destruct t; cbn; [done|..].
  - unfold new_leaf_proof. intros. by case_all.
  - intros. by case_all.
Qed.

(** [lemma_new] returns a path of the tree that ends in the needle. *)
Lemma lemma_new_path t needle p :
  lemma_new t needle = Some p -> path_in p t /\ bottom p = needle.
Proof.
  revert p. induction t as [| |h l IHl r IHr]; intros p; cbn; [done|..].
  - unfold new_leaf_proof. intros. by case_all.
  - destruct (lemma_new l needle) as [pl|] eqn:Hl; intros; simplify_eq/=; [naive_solver|].
    destruct (lemma_new r needle) as [pr|] eqn:Hr; intros; simplify_eq/=; naive_solver.
Qed.

(** A path of a hashed tree validates. *)
Lemma path_in_validates p t :
  path_in p t -> hashed t -> Hash.hashes (validate_lemma p) (fun b => b = true).
Proof.
  revert t. induction p as [h s|h s sub IH] using ProofLemma_deep_ind; intros t; cbn.
  - destruct s as [[]|]; naive_solver.
  - intros [-> Hp]. destruct s as [[x|x]|], t as [| |h' l r]; cbn in *; try done.
    + destruct Hp as [-> Hp]. intros (-> & Hl & Hr).
      assert (node_hash sub = Tree.hash r) as -> by (destruct sub; by apply Hp).
      hashes_step Hash.hashes_nodes. rewrite decide_True by done. by eapply IH.
    + destruct Hp as [-> Hp]. intros (-> & Hl & Hr).
      assert (node_hash sub = Tree.hash l) as -> by (destruct sub; by apply Hp).
      hashes_step Hash.hashes_nodes. rewrite decide_True by done. by eapply IH.
Qed.

Lemma lemma_new_complete t v : hashed t -> v ∈ Tree.leaves t ->
  is_Some (lemma_new t (Hash.leaf_digest v)).
Proof.
  induction t as [| |h l IHl r IHr]; cbn.
  - intros _ Hv. by apply not_elem_of_nil in Hv.
  - intros -> ->%list_elem_of_singleton. unfold new_leaf_proof. by rewrite decide_True.
  - intros (_ & Hl & Hr) [Hv|Hv]%elem_of_app.
    + by destruct (IHl Hl Hv) as [p ->].
    + destruct (lemma_new l _); [done|]. by destruct (IHr Hr Hv) as [p ->].
Qed.

(** One step of the soundness proof: equal digests of node messages of the set. *)
Lemma nodes_collision_free ms l r l' r' :
  collision_free ms -> Hash.nodes_message l r ∈ ms -> Hash.nodes_message l' r' ∈ ms ->
  length l = length l' -> Hash.nodes_digest l r = Hash.nodes_digest l' r' ->
  l = l' /\ r = r'.
Proof. intros Hcf Hm Hm' Hl Hd. apply Hash.nodes_message_inj; [done|]. by apply Hcf. Qed.

Lemma collision_free_sub ms ms' : ms' ⊆ ms -> collision_free ms -> collision_free ms'.
Proof. intros Hs Hcf m1 m2 H1 H2. apply Hcf; by apply Hs. Qed.

(** What a validated step says: the siblings combine to the node's hash. *)
Lemma validate_step h x sub :
  validate_lemma (mk_lemma h (Some x) (Some sub)) = Ok true ->
  validate_lemma sub = Ok true /\
  h = match x with
      | Left s => Hash.nodes_digest s (node_hash sub)
      | Right s => Hash.nodes_digest (node_hash sub) s
      end.
Proof.
  destruct x; cbn; intros (c & Hc%Hash.hash_nodes_Ok & Hv)%bind_Ok;
    case_decide; [|discriminate Hv| |discriminate Hv]; by subst.
Qed.

(** The message of a step, and where it is among the messages of the lemma. *)
Definition step_message (x : Positioned bytes) (sub : ProofLemma) : bytes :=
  match x with
  | Left s => Hash.nodes_message s (node_hash sub)
  | Right s => Hash.nodes_message (node_hash sub) s
  end.

Lemma lemma_messages_step h x sub :
  lemma_messages (mk_lemma h (Some x) (Some sub)) = step_message x sub :: lemma_messages sub.
Proof. by destruct x. Qed.

Lemma validates_path_in `{!Sha256Length} p t :
  hashed t -> lemma_sized p ->
  collision_free (tree_messages t ++ lemma_messages p) ->
  node_hash p = Tree.hash t -> validate_lemma p = Ok true -> path_in p t.
Proof.
  revert t. induction p as [h s|h s sub IH] using ProofLemma_deep_ind;
    intros t Ht Hsz Hcf Hroot Hv.
  { cbn in *. split; [done|]. injection Hv as Hs%bool_decide_eq_true. by subst. }
  destruct s as [x|]; [|discriminate Hv].
  apply validate_step in Hv as [Hv Hh]. cbn [node_hash] in Hroot.
  cbn [lemma_sized node_hash sibling_hash sub_lemma] in Hsz. destruct Hsz as (_ & Hx & Hsub).
  assert (length (node_hash sub) = HASHBYTES) as Hn by (by destruct sub; destruct Hsub).
  rewrite lemma_messages_step in Hcf.
  assert (sha256_digest (step_message x sub) = Tree.hash t) as Hd
    by (rewrite <-Hroot, Hh; by destruct x).
  assert (forall m, m ∈ tree_messages t -> sha256_digest m = Tree.hash t ->
    step_message x sub = m) as Hm.
  { intros m Hm Hd'. apply Hcf; [set_solver..|by rewrite Hd]. }
  destruct t as [h'|h' v|h' l r]; cbn in Ht, Hd, Hm.
  - specialize (Hm [] ltac:(set_solver) ltac:(done)). by destruct x.
  - specialize (Hm (Hash.leaf_message v) ltac:(set_solver) (eq_sym Ht)). by destruct x.
  - destruct Ht as (-> & Hl & Hr).
    specialize (Hm (Hash.nodes_message (Tree.hash l) (Tree.hash r)) ltac:(set_solver) eq_refl).
    pose proof (hashed_length l Hl) as Hll. pose proof (hashed_length r Hr) as Hlr.
    destruct x as [s|s]; apply Hash.nodes_message_inj in Hm as [H1 H2]; try congruence.
    + cbn. split_and!; [congruence|done|]. apply IH; try done.
      eapply collision_free_sub; [|exact Hcf]. cbn. set_solver.
    + cbn. split_and!; [congruence|done|]. apply IH; try done.
      eapply collision_free_sub; [|exact Hcf]. cbn. set_solver.
Qed.

(** The last hash of a path is the hash of a subtree. *)
Lemma path_in_bottom p t : path_in p t -> exists s, s ∈ subtrees t /\ Tree.hash s = bottom p.
Proof.
  revert t. induction p as [h s|h s sub IH] using ProofLemma_deep_ind; intros t; cbn.
  - intros [-> _]. exists t. split; [destruct t; left|done].
  - intros [_ Hp]. destruct s as [[x|x]|], t as [| |h' l r]; try done;
      destruct Hp as [_ (s & Hs & Hb)%IH]; exists s; (split; [|done]); cbn; set_solver.
Qed.

Lemma subtrees_hashed t s : hashed t -> s ∈ subtrees t -> hashed s.
Proof.
  induction t as [| |h l IHl r IHr]; intros Ht Hs; cbn in Hs;
    apply elem_of_cons in Hs as [->|Hs]; try done; try by apply not_elem_of_nil in Hs.
  destruct Ht as (_ & Hl & Hr). apply elem_of_app in Hs as [Hs|Hs]; auto.
Qed.

Lemma subtrees_leaves t h v : Leaf h v ∈ subtrees t -> v ∈ Tree.leaves t.
Proof.
  induction t as [| |h' l IHl r IHr]; cbn; intros Hs; apply elem_of_cons in Hs as [Hs|Hs];
    simplify_eq; try by apply not_elem_of_nil in Hs.
  - by left.
  - apply elem_of_app in Hs as [Hs|Hs]; set_solver.
Qed.

Lemma subtrees_refl t : t ∈ subtrees t.
Proof. destruct t; left. Qed.

Lemma subtrees_trans t s u : s ∈ subtrees t -> u ∈ subtrees s -> u ∈ subtrees t.
Proof.
  induction t as [| |h l IHl r IHr]; cbn; intros Hs Hu; apply elem_of_cons in Hs as [->|Hs];
    try done; try by apply not_elem_of_nil in Hs.
  apply elem_of_app in Hs as [Hs|Hs]; set_solver.
Qed.

Lemma subtrees_messages t s : s ∈ subtrees t -> tree_messages s ⊆ tree_messages t.
Proof.
  induction t as [| |h l IHl r IHr]; cbn; intros Hs; apply elem_of_cons in Hs as [->|Hs];
    try reflexivity; try by apply not_elem_of_nil in Hs.
  apply elem_of_app in Hs as [Hs|Hs]; set_solver.
Qed.

(** A leaf digest at a subtree is that of one of the leaves. *)
Lemma leaf_digest_subtree t s v :
  hashed t -> collision_free (Hash.leaf_message v :: tree_messages t) ->
  s ∈ subtrees t -> Tree.hash s = Hash.leaf_digest v -> v ∈ Tree.leaves t.
Proof.
  intros Ht Hcf Hs Hv. pose proof (subtrees_hashed t s Ht Hs) as Hh.
  pose proof (subtrees_messages t s Hs) as Hm.
  assert (forall m, m ∈ tree_messages s -> sha256_digest m = Tree.hash s ->
    Hash.leaf_message v = m) as Heq.
  { intros m Hin Hd. apply Hcf; [left|right; by apply Hm|]. by rewrite Hd, Hv. }
  destruct s as [h|h w|h l r]; cbn in Hh, Heq.
  - specialize (Heq [] ltac:(set_solver) ltac:(done)). done.
  - specialize (Heq (Hash.leaf_message w) ltac:(set_solver) (eq_sym Hh)). injection Heq as <-.
    by eapply subtrees_leaves.
  - destruct Hh as (-> & _). by specialize (Heq (Hash.nodes_message (Tree.hash l) (Tree.hash r)) ltac:(set_solver) eq_refl).
Qed.

(** [find_hash] on a tree without inner [Empty]s. *)
Lemma find_hash_spec t h : Tree.full t = true ->
  match find_hash t h with
  | Ok (Some s) => s ∈ subtrees t /\ Tree.hash s = h
  | Ok None => forall s, s ∈ subtrees t -> Tree.hash s <> h
  | _ => False
  end.
Proof.
  induction t as [|h' v|h' l IHl r IHr]; cbn; [done|..].
  - intros _. case_decide; [set_solver|]. intros s Hs. set_solver.
  - intros [Hl Hr]%andb_prop. case_decide; [set_solver|].
    specialize (IHl Hl). specialize (IHr Hr).
    destruct (find_hash r h) as [[s|]| | |]; cbn; [set_solver| |done..].
    destruct (find_hash l h) as [[s|]| | |]; cbn; [set_solver| |done..].
    intros s. rewrite elem_of_cons, elem_of_app. naive_solver.
Qed.
End theorems.

(** ** Properties *)

(** completeness of inclusion proofs.  On the tree of [l], when OpenSSL does not
    fail, [gen_proof] finds a proof for every value of [l]; the proof carries the
    value and the root hash of the tree, its lemma ends in the leaf hash of the value,
    and [validate] accepts it against the root hash. *)
Theorem gen_proof_validates `{Sha256} (l : list TreeLeafData) (mt : MerkleTree) (v : TreeLeafData) :
  openssl_total -> represents mt l -> v ∈ l ->
  exists p, gen_proof mt v = Ok (Some p) /\ value p = v /\
    proof_root_hash p = root_hash mt /\ bottom (lemma p) = Hash.leaf_digest v /\
    validate p (root_hash mt) = Ok true.
Proof.
  intros Htot Hrep Hv. pose proof Hrep as (Hroot & _).
  assert (hashed (root mt)) as Hh by (rewrite Hroot; apply mtree_hashed).
  rewrite <-(merkle_leaves l), <-Hroot in Hv.
  destruct (lemma_new_complete _ _ Hh Hv) as [p Hp].
  destruct (lemma_new_path _ _ _ Hp) as [Hpath Hb].
  exists (mk_proof (root_hash mt) p v). unfold gen_proof.
  rewrite Hash.hash_leaf_total by done. cbn [mbind outcome_bind]. rewrite Hp.
  split_and!; try done.
  unfold validate. cbn [proof_root_hash lemma].
  rewrite decide_False by (rewrite (lemma_new_node_hash _ _ _ Hp); naive_solver).
  destruct (Hash.hashes_total _ _ Htot (path_in_validates _ _ Hpath Hh)) as (b & -> & ->).
  done.
Qed.

(** soundness of inclusion proofs.  When [validate] accepts a proof against the root
    hash of a tree, and the messages hashed have no collision and the hashes of the
    proof have the length of digests, the lemma is a path of that tree; if moreover it
    ends in the leaf hash of a value, then the value is one of the leaves. *)
Theorem validate_sound `{Sha256} `{!Sha256Length}
    (l : list TreeLeafData) (mt : MerkleTree) (p : Proof_) (v : TreeLeafData) :
  represents mt l -> lemma_sized (lemma p) ->
  collision_free (Hash.leaf_message v :: tree_messages (root mt) ++ lemma_messages (lemma p)) ->
  validate p (root_hash mt) = Ok true ->
  path_in (lemma p) (root mt) /\ (bottom (lemma p) = Hash.leaf_digest v -> v ∈ l).
Proof.
  intros (Hroot & _) Hsz Hcf Hval. unfold validate in Hval. case_decide as Hd; [done|].
  assert (node_hash (lemma p) = root_hash mt) as Hnode by (apply dec_stable; tauto).
  assert (hashed (root mt)) as Hh by (rewrite Hroot; apply mtree_hashed).
  assert (path_in (lemma p) (root mt)) as Hpath.
  { apply validates_path_in; try done. eapply collision_free_sub; [|exact Hcf]. set_solver. }
  split; [done|]. intros Hb.
  destruct (path_in_bottom _ _ Hpath) as (s & Hs & Hsb). rewrite Hb in Hsb.
  rewrite <-(merkle_leaves l), <-Hroot. eapply leaf_digest_subtree; try done.
  eapply collision_free_sub; [|exact Hcf]. set_solver.
Qed.

(** what [validate] leaves out.  The value of a proof is never looked at, and a
    lemma may end at any node: the root hash alone, without siblings, validates as a
    "proof" of every value whatsoever. *)
Theorem validate_accepts_any_value `{Sha256} (mt : MerkleTree) (v : TreeLeafData) (p : Proof_) :
  validate (mk_proof (root_hash mt) (mk_lemma (root_hash mt) None None) v) (root_hash mt) = Ok true /\
  validate (mk_proof (proof_root_hash p) (lemma p) v) (root_hash mt) = validate p (root_hash mt).
Proof.
  split; [|done]. unfold validate. cbn. by rewrite decide_False by naive_solver.
Qed.

(** [find_hash] searches a tree completely: on a tree that [from_vec] or [append]
    built from at least one value it returns a subtree with the required hash if there
    is one and [None] if there is none, and its [assert!(false)] is not reached. *)
Theorem find_hash_correct `{Sha256} (l : list TreeLeafData) (mt : MerkleTree) (h : bytes) :
  represents mt l -> l <> [] ->
  match find_hash (root mt) h with
  | Ok (Some s) => s ∈ subtrees (root mt) /\ Tree.hash s = h
  | Ok None => forall s, s ∈ subtrees (root mt) -> Tree.hash s <> h
  | _ => False
  end.
Proof. intros (-> & _) Hl. by apply find_hash_spec, merkle_full. Qed.

(** ** Witnesses *)

#[local] Existing Instances ToySha.sha ToySha.sha_length.

Definition sample_tree : MerkleTree :=
  mk (merkle sample_leaves) 2 3 2.

Lemma sample_tree_represents : represents sample_tree sample_leaves.
Proof. unfold represents. split_and!; vm_compute; reflexivity. Defined.

Lemma gen_proof_validates_witness :
  openssl_total /\ represents sample_tree sample_leaves /\
  exists p, gen_proof sample_tree [Byte.x63] = Ok (Some p) /\ value p = [Byte.x63] /\
    proof_root_hash p = root_hash sample_tree /\ bottom (lemma p) = Hash.leaf_digest [Byte.x63] /\
    validate p (root_hash sample_tree) = Ok true.
Proof.
  split; [exact ToySha.sha_total|]. split; [exact sample_tree_represents|].
  apply (gen_proof_validates sample_leaves);
    [exact ToySha.sha_total|exact sample_tree_represents|].
  do 2 right. left.
Defined.

Definition sample_proof : Proof_ :=
  mk_proof (root_hash sample_tree)
    (mk_lemma (root_hash sample_tree) (Some (Left (mth (take 2 sample_leaves))))
       (Some (mk_lemma (Hash.leaf_digest [Byte.x63]) None None))) [Byte.x63].

Definition sample_messages : list bytes :=
  Hash.leaf_message [Byte.x63] :: tree_messages (root sample_tree) ++ lemma_messages (lemma sample_proof).

Lemma validate_sound_witness :
  represents sample_tree sample_leaves /\ lemma_sized (lemma sample_proof) /\
  collision_free sample_messages /\ validate sample_proof (root_hash sample_tree) = Ok true /\
  path_in (lemma sample_proof) (root sample_tree) /\
  (bottom (lemma sample_proof) = Hash.leaf_digest [Byte.x63] -> [Byte.x63] ∈ sample_leaves).
Proof.
  split; [exact sample_tree_represents|].
  split; [vm_compute; auto|].
  split; [apply (bool_decide_unpack _); vm_compute; exact I|].
  split; [vm_compute; reflexivity|].
  apply (validate_sound sample_leaves sample_tree sample_proof [Byte.x63]).
  - exact sample_tree_represents.
  - vm_compute; auto.
  - apply (bool_decide_unpack _). vm_compute. exact I.
  - vm_compute; reflexivity.
Defined.

Lemma find_hash_correct_witness :
  represents sample_tree sample_leaves /\ sample_leaves <> [] /\
  match find_hash (root sample_tree) (Hash.leaf_digest [Byte.x62]) with
  | Ok (Some s) => s ∈ subtrees (root sample_tree) /\ Tree.hash s = Hash.leaf_digest [Byte.x62]
  | Ok None => forall s, s ∈ subtrees (root sample_tree) -> Tree.hash s <> Hash.leaf_digest [Byte.x62]
  | _ => False
  end.
Proof.
  split; [exact sample_tree_represents|]. split; [discriminate|].
  apply (find_hash_correct sample_leaves sample_tree); [exact sample_tree_represents|discriminate].
Defined.
