(* ===== verification/Consistency.v ===== *)
(** * Consistency: consistency proofs between two versions of the ledger

    Models [MerkleTree::consistency_proof] of
    [libindy/src/services/ledger/merkletree/mod.rs].  The loops are functions with
    fuel; the fuel given is the number of bits of the node index they halve.  An
    iterator that runs out of hashes makes the function return [Ok(false)]; the loops
    say so with [None].

    The theorems: an accepted proof shows that the old tree's leaves are a prefix of
    the new tree's (soundness), the proof of RFC 6962 is accepted (completeness), and
    the cases in which the function unwinds. *)

From S2P Require Import Prelude Errors Hashing MerkleTree MerkleProof.
Import MerkleTree.Tree MerkleTree.MerkleTree.

Section consistency.
Context `{Sha256}.

(** [while old_node % 2 != 0] *)
Fixpoint strip (fuel : nat) (old_node new_node : N) : IndyResult (N * N) :=
  if negb (old_node mod 2 =? 0)%N then
    match fuel with
    | O => OutOfFuel
    | S fuel => strip fuel (old_node / 2) (new_node / 2)
    end
  else Ok (old_node, new_node).

(** [while old_node != 0] *)
Fixpoint walk (fuel : nat) (old_node new_node : N) (proofs : list bytes)
    (old_hash new_hash : bytes) : IndyResult (option (N * list bytes * bytes * bytes)) :=
  if negb (old_node =? 0)%N then
    match fuel with
    | O => OutOfFuel
    | S fuel =>
        if negb (old_node mod 2 =? 0)%N then
          match proofs with
          | [] => Ok None
          | next_proof :: proofs =>
              old_hash ← Hash.hash_nodes next_proof old_hash;
              new_hash ← Hash.hash_nodes next_proof new_hash;
              walk fuel (old_node / 2) (new_node / 2) proofs old_hash new_hash
          end
        else if (old_node <? new_node)%N then
          match proofs with
          | [] => Ok None
          | next_proof :: proofs =>
              new_hash ← Hash.hash_nodes new_hash next_proof;
              walk fuel (old_node / 2) (new_node / 2) proofs old_hash new_hash
          end
        else walk fuel (old_node / 2) (new_node / 2) proofs old_hash new_hash
    end
  else Ok (Some (new_node, proofs, old_hash, new_hash)).

(** [while new_node != 0] *)
Fixpoint climb (fuel : nat) (new_node : N) (proofs : list bytes) (new_hash : bytes) :
    IndyResult (option bytes) :=
  if negb (new_node =? 0)%N then
    match fuel with
    | O => OutOfFuel
    | S fuel =>
        match proofs with
        | [] => Ok None
        | n :: proofs =>
            new_hash ← Hash.hash_nodes new_hash n;
            climb fuel (new_node / 2) proofs new_hash
        end
    end
  else Ok (Some new_hash).

(** The part of [consistency_proof] after the first hash is known. *)
Definition check_from (self : MerkleTree) (new_root_hash : bytes)
    (old_node new_node : N) (proofs : list bytes) (hash : bytes) : IndyResult bool :=
  walked ← walk (N.size_nat old_node) old_node new_node proofs hash hash;
  match walked with
  | None => Ok false
  | Some (new_node, proofs, old_hash, new_hash) =>
      climbed ← climb (N.size_nat new_node) new_node proofs new_hash;
      match climbed with
      | None => Ok false
      | Some new_hash =>
          if decide (new_hash <> new_root_hash) then Ok false
          else if decide (old_hash <> root_hash self) then Ok false
          else Ok true
      end
  end.

Definition consistency_proof (self : MerkleTree) (new_root_hash : bytes) (new_size : N)
    (proof : list bytes) : IndyResult bool :=
  if (count self =? 0)%N then Ok true
  else if (count self =? new_size)%N && bool_decide (root_hash self = new_root_hash) then Ok true
  else if (new_size <? count self)%N then Panic
  else
    '(old_node, new_node) ← strip (N.size_nat (count self - 1)) (count self - 1) (new_size - 1);
    if negb (old_node =? 0)%N then
      match proof with
      | [] => Ok false
      | new_hash :: proofs => check_from self new_root_hash old_node new_node proofs new_hash
      end
    else check_from self new_root_hash old_node new_node proof (root_hash self).

(** ** Specification *)

(** The leaves under the node of index [i] at level [j], where level 0 is the leaves;
    the last node of a level may have fewer than [2 ^ j]. *)
Definition sub (l : list TreeLeafData) (j i : nat) : list TreeLeafData :=
  take (2 ^ j) (drop (i * 2 ^ j) l).

(** The hash of that node. *)
Definition node (l : list TreeLeafData) (j i : nat) : bytes := mth (sub l j i).

(** The consistency proof of RFC 6962 for the new leaves [l], from level [j] up. *)
Fixpoint prove_climb (fuel : nat) (l : list TreeLeafData) (j w : nat) : list bytes :=
  match fuel with
  | O => []
  | S fuel => if decide (w = 0) then [] else node l j 1 :: prove_climb fuel l (S j) (w / 2)
  end.

Fixpoint prove_walk (fuel : nat) (l : list TreeLeafData) (j o w : nat) : list bytes :=
  match fuel with
  | O => []
  | S fuel =>
      if decide (o = 0) then prove_climb (S w) l j w
      else if decide (o mod 2 <> 0) then node l j (o - 1) :: prove_walk fuel l (S j) (o / 2) (w / 2)
      else if decide (o < w) then node l j (o + 1) :: prove_walk fuel l (S j) (o / 2) (w / 2)
      else prove_walk fuel l (S j) (o / 2) (w / 2)
  end.

Fixpoint prove_strip (fuel : nat) (l : list TreeLeafData) (j o w : nat) : list bytes :=
  match fuel with
  | O => []
  | S fuel =>
      if decide (o mod 2 <> 0) then prove_strip fuel l (S j) (o / 2) (w / 2)
      else (if decide (o = 0) then [] else [node l j o]) ++ prove_walk (S o) l j o w
  end.

(** The proof that the tree of the first [m] leaves of [l] is a prefix of that of [l]. *)
Definition consistency_path (m : nat) (l : list TreeLeafData) : list bytes :=
  prove_strip m l 0 (m - 1) (length l - 1).

(** The messages that the verifier hashes. *)
Fixpoint climb_messages (fuel : nat) (new_node : N) (proofs : list bytes) (new_hash : bytes) :
    list bytes :=
  match fuel, proofs with
  | S fuel, n :: proofs =>
      if (new_node =? 0)%N then []
      else Hash.nodes_message new_hash n ::
           climb_messages fuel (new_node / 2) proofs (Hash.nodes_digest new_hash n)
  | _, _ => []
  end.

Fixpoint walk_messages (fuel : nat) (old_node new_node : N) (proofs : list bytes)
    (old_hash new_hash : bytes) : list bytes :=
  if (old_node =? 0)%N then climb_messages (N.size_nat new_node) new_node proofs new_hash
  else
    match fuel with
    | O => []
    | S fuel =>
        if negb (old_node mod 2 =? 0)%N then
          match proofs with
          | [] => []
          | p :: proofs =>
              Hash.nodes_message p old_hash :: Hash.nodes_message p new_hash ::
              walk_messages fuel (old_node / 2) (new_node / 2) proofs
                (Hash.nodes_digest p old_hash) (Hash.nodes_digest p new_hash)
          end
        else if (old_node <? new_node)%N then
          match proofs with
          | [] => []
          | p :: proofs =>
              Hash.nodes_message new_hash p ::
              walk_messages fuel (old_node / 2) (new_node / 2) proofs old_hash
                (Hash.nodes_digest new_hash p)
          end
        else walk_messages fuel (old_node / 2) (new_node / 2) proofs old_hash new_hash
    end.

Definition verifier_messages (self : MerkleTree) (new_size : N) (proof : list bytes) : list bytes :=
  match strip (N.size_nat (count self - 1)) (count self - 1) (new_size - 1) with
  | Ok (old_node, new_node) =>
      if (old_node =? 0)%N then
        walk_messages (N.size_nat old_node) old_node new_node proof (root_hash self) (root_hash self)
      else match proof with
           | [] => []
           | p :: proofs => walk_messages (N.size_nat old_node) old_node new_node proofs p p
           end
  | _ => []
  end.
End consistency.

Lemma cons_subseteq {A} (x : A) l k : x :: l ⊆ k -> x ∈ k /\ l ⊆ k.
Proof. intros Hs. split; [apply Hs; left|]. intros y Hy. apply Hs. by right. Qed.

(** ** Nodes of a tree *)
Section nodes.
Context `{Sha256}.

(** [o] is the index of the last node of level [j]. *)
Definition last_node (l : list TreeLeafData) (j o : nat) : Prop :=
  o * 2 ^ j < length l <= (o + 1) * 2 ^ j.

Lemma last_node_0 l : l <> [] -> last_node l 0 (length l - 1).
Proof. destruct l; [done|]. unfold last_node. cbn. lia. Qed.

Lemma last_node_next l j o : last_node l j o -> last_node l (S j) (o / 2).
Proof.
  unfold last_node. rewrite Nat.pow_succ_r'. pose proof (half_parity o).
  pose proof (Nat.mod_upper_bound o 2 ltac:(done)). nia.
Qed.

Lemma sub_next l j i : sub l (S j) i = sub l j (2 * i) ++ sub l j (2 * i + 1).
Proof.
  unfold sub. rewrite Nat.pow_succ_r'.
  replace (i * (2 * 2 ^ j)) with (2 * i * 2 ^ j) by lia.
  replace ((2 * i + 1) * 2 ^ j) with (2 * i * 2 ^ j + 2 ^ j) by lia.
  rewrite <-drop_drop. set (k := drop (2 * i * 2 ^ j) l).
  replace (2 * 2 ^ j) with (2 ^ j + 2 ^ j) by lia.
  by rewrite take_take_drop.
Qed.

Lemma sub_length l j i : length (sub l j i) = Nat.min (2 ^ j) (length l - i * 2 ^ j).
Proof. unfold sub. by rewrite length_take, length_drop. Qed.

Lemma sub_full l j i : (i + 1) * 2 ^ j <= length l -> length (sub l j i) = 2 ^ j.
Proof. rewrite sub_length. nia. Qed.

Lemma sub_empty l j i : length l <= i * 2 ^ j -> sub l j i = [].
Proof. intros. apply nil_length_inv. rewrite sub_length. lia. Qed.

Lemma sub_whole l j : length l <= 2 ^ j -> sub l j 0 = l.
Proof. intros. unfold sub. rewrite Nat.mul_0_l, drop_0. by apply take_ge. Qed.

Lemma take_sub l j i : take ((i + 1) * 2 ^ j) l = take (i * 2 ^ j) l ++ sub l j i.
Proof. unfold sub. rewrite take_take_drop. f_equal. lia. Qed.

(** A node without a right child is its left child. *)
Lemma node_even l j i : length l <= (2 * i + 1) * 2 ^ j -> node l (S j) i = node l j (2 * i).
Proof. intros. unfold node. by rewrite sub_next, (sub_empty l j (2 * i + 1)), app_nil_r. Qed.

(** A node with two children hashes theirs. *)
Lemma sub_split l j i : (2 * i + 1) * 2 ^ j < length l ->
  merkle (sub l (S j) i) =
    Node (Hash.nodes_digest (node l j (2 * i)) (node l j (2 * i + 1)))
      (merkle (sub l j (2 * i))) (merkle (sub l j (2 * i + 1))).
Proof.
  intros Hi. assert (length (sub l j (2 * i)) = 2 ^ j) as Hf by (apply sub_full; lia).
  rewrite sub_next, (merkle_split j).
  - unfold node. by rewrite take_app_length', drop_app_length' by done.
  - rewrite length_app, Hf, sub_length. pose proof (Nat.pow_nonzero 2 j ltac:(done)). lia.
Qed.

Lemma node_split l j i : (2 * i + 1) * 2 ^ j < length l ->
  node l (S j) i = Hash.nodes_digest (node l j (2 * i)) (node l j (2 * i + 1)).
Proof. intros. unfold node at 1, mth. by rewrite sub_split. Qed.

Lemma node_whole l j : last_node l j 0 -> node l j 0 = mth l.
Proof. intros [_ Hl]. unfold node. rewrite sub_whole; [done|]. lia. Qed.

Lemma mth_length `{!Sha256Length} l : length (mth l) = HASHBYTES.
Proof. apply hashed_length, mtree_hashed. Qed.

Lemma node_length `{!Sha256Length} l j i : length (node l j i) = HASHBYTES.
Proof. apply mth_length. Qed.

(** Every node is a subtree of the tree. *)
Lemma sub_subtree l j i : i * 2 ^ j < length l -> merkle (sub l j i) ∈ subtrees (merkle l).
Proof.
  remember (length l - j) as k eqn:Hk. revert j i Hk. induction k as [|k IH]; intros j i Hk Hi.
  - assert (length l <= 2 ^ j) as Hj.
    { pose proof (Nat.pow_gt_lin_r 2 j ltac:(lia)). lia. }
    assert (i = 0) as -> by nia. rewrite sub_whole by done. destruct (merkle l); left.
  - pose proof (half_parity i). pose proof (Nat.mod_upper_bound i 2 ltac:(done)).
    assert (2 * (i / 2) * 2 ^ j < length l) as Hl by (clear IH; nia).
    specialize (IH (S j) (i / 2) ltac:(lia)). rewrite Nat.pow_succ_r' in IH.
    specialize (IH ltac:(lia)).
    remember (i / 2) as q eqn:Hq. clear Hq.
    destruct (decide ((2 * q + 1) * 2 ^ j < length l)) as [Hs|Hs].
    + rewrite sub_split in IH by done. eapply subtrees_trans; [exact IH|]. cbn.
      rewrite elem_of_cons, elem_of_app. right. destruct (decide (i mod 2 = 0)) as [Hm|Hm].
      * left. replace i with (2 * q) by lia. apply subtrees_refl.
      * right. replace i with (2 * q + 1) by lia. apply subtrees_refl.
    + assert (i = 2 * q) as -> by (clear IH; nia).
      rewrite sub_next, (sub_empty l j (2 * q + 1)), app_nil_r in IH by lia. done.
Qed.

Lemma sub_messages l j i : i * 2 ^ j < length l ->
  tree_messages (merkle (sub l j i)) ⊆ tree_messages (merkle l).
Proof. intros. by apply subtrees_messages, sub_subtree. Qed.

(** Trees of one size with one root hash have the same leaves. *)
Lemma mth_inj `{!Sha256Length} ms a b :
  collision_free ms -> tree_messages (merkle a) ⊆ ms -> tree_messages (merkle b) ⊆ ms ->
  length a = length b -> mth a = mth b -> a = b.
Proof.
  intros Hcf. revert b. induction a as [|v|d a Hd IHl IHr] using merkle_ind; intros b Ha Hb Hlen He.
  - by destruct b.
  - destruct b as [|w [|]]; [done| |done].
    assert (Hash.leaf_message v = Hash.leaf_message w) as [=->]; [|done].
    apply Hcf; [apply Ha; left|apply Hb; left|exact He].
  - unfold mth in He.
    rewrite (merkle_split d a), (merkle_split d b) in * by lia. cbn in He, Ha, Hb.
    assert (Hash.nodes_message (mth (take (2 ^ d) a)) (mth (drop (2 ^ d) a)) =
      Hash.nodes_message (mth (take (2 ^ d) b)) (mth (drop (2 ^ d) b))) as Hm.
    { apply Hcf; [apply Ha; left|apply Hb; left|exact He]. }
    apply Hash.nodes_message_inj in Hm as [Hl Hr].
    2: { by rewrite !mth_length. }
    rewrite <-(take_drop (2 ^ d) a), <-(take_drop (2 ^ d) b). f_equal.
    + apply IHl; [set_solver..|rewrite !length_take; lia|done].
    + apply IHr; [set_solver..|rewrite !length_drop; lia|done].
Qed.
End nodes.

(** ** Soundness *)
Section soundness.
Context `{Sha256} `{!Sha256Length}.
Context (l l' : list TreeLeafData) (ms : list bytes).
Hypothesis Hlen : length l <= length l'.
Hypothesis Hcf : collision_free ms.
Hypothesis Hms : tree_messages (merkle l) ⊆ ms.
Hypothesis Hms' : tree_messages (merkle l') ⊆ ms.

(** The message of an inner node is among the messages of its tree. *)
Lemma node_message k j i : tree_messages (merkle k) ⊆ ms -> (2 * i + 1) * 2 ^ j < length k ->
  Hash.nodes_message (node k j (2 * i)) (node k j (2 * i + 1)) ∈ ms.
Proof.
  intros Hk Hi. apply Hk. eapply sub_messages; [|by rewrite sub_split; [left|]].
  rewrite Nat.pow_succ_r'. nia.
Qed.

(** A digest that is that of an inner node was computed from its children. *)
Lemma node_children k j i a b :
  tree_messages (merkle k) ⊆ ms -> (2 * i + 1) * 2 ^ j < length k ->
  Hash.nodes_message a b ∈ ms -> length a = HASHBYTES ->
  Hash.nodes_digest a b = node k (S j) i ->
  a = node k j (2 * i) /\ b = node k j (2 * i + 1).
Proof.
  intros Hk Hi Hm Ha Hd. rewrite node_split in Hd by done.
  eapply nodes_collision_free; [exact Hcf|done|by apply node_message|by rewrite node_length|done].
Qed.

Lemma sub_inj j i : i * 2 ^ j < length l -> length (sub l j i) = length (sub l' j i) ->
  node l j i = node l' j i -> sub l j i = sub l' j i.
Proof.
  intros Hi Hl Hn. eapply (mth_inj ms); try done.
  - etrans; [by apply sub_messages|done].
  - etrans; [apply sub_messages; lia|done].
Qed.

(** The third loop: it ends in the root hash of the new tree only from the hash of
    the leftmost node of its level. *)
Lemma climb_sound fuel w j proofs hash res :
  Forall (fun p => length p = HASHBYTES) proofs -> length hash = HASHBYTES ->
  last_node l' j w -> fuel = N.size_nat (N.of_nat w) ->
  climb_messages fuel (N.of_nat w) proofs hash ⊆ ms ->
  climb fuel (N.of_nat w) proofs hash = Ok (Some res) -> res = mth l' ->
  hash = node l' j 0.
Proof.
  revert w j proofs hash. induction fuel as [|fuel IH];
    intros w j proofs hash Hps Hh Hw Hfuel Hm Hc Hres; cbn [climb] in Hc;
    rewrite of_nat_eqb_0 in Hc; destruct (Nat.eqb_spec w 0) as [->|Hw0]; cbn [negb] in Hc.
  - injection Hc as ->. by rewrite node_whole.
  - done.
  - done.
  - destruct proofs as [|p proofs]; [done|]. apply Forall_cons in Hps as [Hp Hps].
    apply bind_Ok in Hc as (h1 & ->%Hash.hash_nodes_Ok & Hc).
    rewrite of_nat_half in Hc. cbn [climb_messages] in Hm.
    rewrite of_nat_eqb_0, of_nat_half in Hm. destruct (Nat.eqb_spec w 0); [done|].
    apply cons_subseteq in Hm as [Hm1 Hm].
    assert (Hash.nodes_digest hash p = node l' (S j) 0) as Hd.
    { eapply IH; [done|apply Hash.nodes_digest_length|by apply last_node_next| |done..].
      rewrite size_nat_half in Hfuel by lia. rewrite of_nat_half in Hfuel. by apply Nat.succ_inj in Hfuel. }
    change 0 with (2 * 0). eapply node_children; [done| |done|done|exact Hd].
    destruct Hw. cbn. nia.
Qed.

(** One level of the second loop, seen from its result. *)
Lemma walk_sound_odd j q p old_hash new_hash :
  last_node l j (2 * q + 1) -> length p = HASHBYTES ->
  Hash.nodes_message p old_hash ∈ ms -> Hash.nodes_message p new_hash ∈ ms ->
  Hash.nodes_digest p old_hash = node l (S j) q ->
  Hash.nodes_digest p new_hash = node l' (S j) q ->
  take (q * 2 ^ S j) l = take (q * 2 ^ S j) l' ->
  old_hash = node l j (2 * q + 1) /\ new_hash = node l' j (2 * q + 1) /\
  take ((2 * q + 1) * 2 ^ j) l = take ((2 * q + 1) * 2 ^ j) l'.
Proof.
  intros [Ho _] Hp Hm1 Hm2 Hd1 Hd2 Ht. rewrite Nat.pow_succ_r' in Ht.
  apply node_children in Hd1 as [Hp1 ->]; [|done..].
  apply node_children in Hd2 as [Hp2 ->]; [|done|lia|done..].
  split_and!; [done..|]. rewrite !take_sub. replace (2 * q * 2 ^ j) with (q * (2 * 2 ^ j)) by lia.
  rewrite Ht. f_equal. apply sub_inj; [lia| |congruence]. rewrite !sub_full by lia. done.
Qed.

Lemma walk_sound fuel o w j proofs old_hash new_hash w' proofs' new_hash' :
  Forall (fun p => length p = HASHBYTES) proofs ->
  length old_hash = HASHBYTES -> length new_hash = HASHBYTES ->
  last_node l j o -> last_node l' j w -> fuel = N.size_nat (N.of_nat o) ->
  walk_messages fuel (N.of_nat o) (N.of_nat w) proofs old_hash new_hash ⊆ ms ->
  walk fuel (N.of_nat o) (N.of_nat w) proofs old_hash new_hash =
    Ok (Some (w', proofs', mth l, new_hash')) ->
  climb (N.size_nat w') w' proofs' new_hash' = Ok (Some (mth l')) ->
  old_hash = node l j o /\ new_hash = node l' j o /\ take (o * 2 ^ j) l = take (o * 2 ^ j) l'.
Proof.
  revert o w j proofs old_hash new_hash. induction fuel as [|fuel IH];
    intros o w j proofs old_hash new_hash Hps Ho Hn Hlo Hlw Hfuel Hm Hw Hc;
    cbn [walk] in Hw; cbn [walk_messages] in Hm; rewrite of_nat_eqb_0 in Hw, Hm;
    destruct (Nat.eqb_spec o 0) as [->|Ho0]; cbn [negb] in Hw.
  - injection Hw as <- <- -> <-. split_and!; [by rewrite node_whole| |done].
    by eapply climb_sound.
  - done.
  - injection Hw as <- <- -> <-. split_and!; [by rewrite node_whole| |done].
    by eapply climb_sound.
  - rewrite size_nat_half, of_nat_half in Hfuel by lia. apply Nat.succ_inj in Hfuel.
    rewrite of_nat_parity, !of_nat_half, of_nat_ltb in Hw, Hm.
    pose proof (last_node_next _ _ _ Hlo) as Hlo'. pose proof (last_node_next _ _ _ Hlw) as Hlw'.
    pose proof (half_parity o) as Ho2. pose proof (Nat.mod_upper_bound o 2 ltac:(done)).
    remember (o / 2) as q eqn:Hq. clear Hq.
    destruct (Nat.eqb_spec (o mod 2) 0) as [Hpar|Hpar]; cbn [negb] in Hw, Hm.
    + assert (o = 2 * q) as -> by lia.
      replace (2 * q * 2 ^ j) with (q * 2 ^ S j) by (rewrite Nat.pow_succ_r'; lia).
      destruct Hlo as [Hlo1 Hlo2], Hlw as [Hlw1 Hlw2].
      destruct (Nat.ltb_spec (2 * q) w) as [Hlt|Hge].
      * destruct proofs as [|p proofs]; [done|]. apply Forall_cons in Hps as [Hp Hps].
        apply cons_subseteq in Hm as [Hm1 Hm].
        apply bind_Ok in Hw as (h1 & ->%Hash.hash_nodes_Ok & Hw).
        destruct (IH _ _ _ _ _ _ Hps Ho (Hash.nodes_digest_length _ _) Hlo' Hlw' Hfuel Hm Hw Hc)
          as (-> & Hn' & Ht).
        apply node_children in Hn' as [-> _]; [|done|nia|done..].
        by rewrite node_even.
      * destruct (IH _ _ _ _ _ _ Hps Ho Hn Hlo' Hlw' Hfuel Hm Hw Hc) as (-> & -> & Ht).
        rewrite !node_even by nia. done.
    + assert (o = 2 * q + 1) as -> by lia.
      destruct proofs as [|p proofs]; [done|]. apply Forall_cons in Hps as [Hp Hps].
      apply cons_subseteq in Hm as [Hm1 [Hm2 Hm]%cons_subseteq].
      apply bind_Ok in Hw as (h1 & ->%Hash.hash_nodes_Ok & Hw).
      apply bind_Ok in Hw as (h2 & ->%Hash.hash_nodes_Ok & Hw).
      destruct (IH _ _ _ _ _ _ Hps (Hash.nodes_digest_length _ _) (Hash.nodes_digest_length _ _)
        Hlo' Hlw' Hfuel Hm Hw Hc) as (Hd1 & Hd2 & Ht).
      eapply walk_sound_odd; [exact Hlo|exact Hp|done..].
Qed.

(** The first loop. *)
Lemma strip_spec fuel o w j :
  fuel = N.size_nat (N.of_nat o) -> (o + 1) * 2 ^ j = length l -> last_node l' j w ->
  exists o' w' j', strip fuel (N.of_nat o) (N.of_nat w) = Ok (N.of_nat o', N.of_nat w') /\
    (o' + 1) * 2 ^ j' = length l /\ last_node l' j' w' /\
    forall n, o < n -> prove_strip n l' j o w =
      (if decide (o' = 0) then [] else [node l' j' o']) ++ prove_walk (S o') l' j' o' w'.
Proof.
  revert o w j. induction fuel as [|fuel IH]; intros o w j Hfuel Ho Hw; cbn [strip];
    rewrite of_nat_parity; destruct (Nat.eqb_spec (o mod 2) 0) as [Hpar|Hpar]; cbn [negb];
    try (exists o, w, j; split_and!; [done..|]; intros [|n] ?; [lia|]; cbn [prove_strip];
         by rewrite decide_False by lia).
  - destruct (decide (o = 0)) as [->|]; [done|]. by rewrite size_nat_half in Hfuel by lia.
  - destruct (decide (o = 0)) as [->|]; [done|].
    rewrite size_nat_half, of_nat_half in Hfuel by lia. apply Nat.succ_inj in Hfuel.
    pose proof (half_parity o). pose proof (Nat.mod_upper_bound o 2 ltac:(done)).
    rewrite !of_nat_half.
    destruct (IH (o / 2) (w / 2) (S j)) as (o' & w' & j' & Hs & Ho' & Hw' & Hp);
      [done|rewrite Nat.pow_succ_r'; nia|by apply last_node_next|].
    exists o', w', j'. split_and!; [done..|]. intros [|k] ?; [lia|]. cbn [prove_strip].
    rewrite decide_True by done. apply Hp. lia.
Qed.

(** What acceptance shows, from the level the first loop ends at. *)
Lemma check_from_sound mt o w j proofs hash :
  represents mt l -> Forall (fun p => length p = HASHBYTES) proofs -> length hash = HASHBYTES ->
  (o + 1) * 2 ^ j = length l -> last_node l' j w -> (o = 0 -> hash = root_hash mt) ->
  walk_messages (N.size_nat (N.of_nat o)) (N.of_nat o) (N.of_nat w) proofs hash hash ⊆ ms ->
  check_from mt (mth l') (N.of_nat o) (N.of_nat w) proofs hash = Ok true ->
  l = take (length l) l'.
Proof.
  intros Hmt Hps Hh Ho Hw Hz Hm Hc. unfold check_from in Hc.
  apply bind_Ok in Hc as ([[[[w' proofs'] old'] new']|] & Hwalk & Hc); [|done].
  apply bind_Ok in Hc as ([res|] & Hclimb & Hc); [|done].
  destruct (decide (res <> mth l')) as [|Hres]; [done|]. apply dec_stable in Hres as ->.
  destruct (decide (old' <> root_hash mt)) as [|Hold]; [done|]. apply dec_stable in Hold as ->.
  rewrite (represents_root_hash mt l) in Hwalk by done.
  assert (last_node l j o) as Hlo by (unfold last_node; pose proof (Nat.pow_nonzero 2 j ltac:(done)); nia).
  destruct (walk_sound _ _ _ _ _ _ _ _ _ _ Hps Hh Hh Hlo Hw eq_refl Hm Hwalk Hclimb) as (-> & Hn & Ht).
  rewrite <-Ho, take_sub, <-Ht, <-(firstn_all l) at 1. rewrite <-Ho, take_sub. f_equal.
  destruct Hlo. apply sub_inj; [done| |done]. by rewrite !sub_full by lia.
Qed.
End soundness.

(** ** Completeness *)
Section completeness.
Context `{Sha256}.
Context (l' : list TreeLeafData) (m : nat).
Hypothesis Ht : openssl_total.
Hypothesis Hm : 0 < m <= length l'.
Let l := take m l'.

Lemma old_length : length l = m.
Proof. unfold l. rewrite length_take. lia. Qed.

(** The nodes that were full in the old tree are nodes of the new one. *)
Lemma sub_old j i : (i + 1) * 2 ^ j <= m -> sub l j i = sub l' j i.
Proof.
  intros. unfold sub, l. rewrite skipn_firstn_comm, take_take. f_equal. lia.
Qed.

Lemma node_old j i : (i + 1) * 2 ^ j <= m -> node l j i = node l' j i.
Proof. intros. unfold node. by rewrite sub_old. Qed.

Lemma climb_complete fuel n w j : fuel = N.size_nat (N.of_nat w) -> w < n -> last_node l' j w ->
  climb fuel (N.of_nat w) (prove_climb n l' j w) (node l' j 0) = Ok (Some (mth l')).
Proof.
  revert n w j. induction fuel as [|fuel IH]; intros [|n] w j Hfuel Hn Hw; try lia;
    cbn [climb prove_climb]; rewrite of_nat_eqb_0;
    destruct (Nat.eqb_spec w 0) as [->|Hw0]; cbn [negb]; try (by rewrite node_whole).
  - by rewrite size_nat_half in Hfuel by lia.
  - rewrite size_nat_half, of_nat_half in Hfuel by lia. apply Nat.succ_inj in Hfuel.
    pose proof (half_parity w). rewrite decide_False by done.
    rewrite Hash.hash_nodes_total by done. cbn [mbind outcome_bind]. rewrite of_nat_half.
    rewrite <-(node_split l' j 0) by (destruct Hw; cbn; nia).
    apply IH; [done|lia|by apply last_node_next].
Qed.

Lemma walk_complete fuel n o w j :
  fuel = N.size_nat (N.of_nat o) -> o < n -> last_node l j o -> last_node l' j w ->
  exists w' proofs' new_hash',
    walk fuel (N.of_nat o) (N.of_nat w) (prove_walk n l' j o w) (node l j o) (node l' j o) =
      Ok (Some (w', proofs', mth l, new_hash')) /\
    climb (N.size_nat w') w' proofs' new_hash' = Ok (Some (mth l')).
Proof.
  revert n o w j. induction fuel as [|fuel IH]; intros [|n] o w j Hfuel Hn Ho Hw; try lia;
    cbn [walk prove_walk]; rewrite of_nat_eqb_0;
    destruct (Nat.eqb_spec o 0) as [->|Ho0]; cbn [negb];
    try (rewrite decide_True by done; exists (N.of_nat w), (prove_climb (S w) l' j w), (node l' j 0);
         split; [by rewrite (node_whole l)|apply climb_complete; [done|lia|done]]).
  - by rewrite size_nat_half in Hfuel by lia.
  - rewrite size_nat_half, of_nat_half in Hfuel by lia. apply Nat.succ_inj in Hfuel.
    rewrite decide_False, of_nat_parity, !of_nat_half, of_nat_ltb by done.
    pose proof (last_node_next _ _ _ Ho) as Ho'. pose proof (last_node_next _ _ _ Hw) as Hw'.
    pose proof (half_parity o) as Ho2. pose proof (Nat.mod_upper_bound o 2 ltac:(done)).
    specialize (IH n (o / 2) (w / 2) (S j) Hfuel ltac:(lia) Ho' Hw').
    clear Hfuel Hn. remember (o / 2) as q eqn:Hq. clear Hq. pose proof old_length as Hl.
    destruct Ho as [Ho1 Ho3], Hw as [Hw1 Hw3].
    destruct (Nat.eqb_spec (o mod 2) 0) as [Hpar|Hpar]; cbn [negb].
    + rewrite decide_False by lia. assert (o = 2 * q) as -> by lia.
      rewrite (node_even l) in IH by lia. destruct (Nat.ltb_spec (2 * q) w).
      * rewrite decide_True by done. rewrite Hash.hash_nodes_total by done. cbn [mbind outcome_bind].
        rewrite <-node_split by nia. done.
      * rewrite decide_False by lia. by rewrite node_even in IH by nia.
    + rewrite decide_True by lia. assert (o = 2 * q + 1) as -> by lia.
      rewrite !Hash.hash_nodes_total by done. cbn [mbind outcome_bind].
      replace (2 * q + 1 - 1) with (2 * q) by lia.
      rewrite <-node_split, <-(node_old j (2 * q)), <-node_split by nia. done.
Qed.

Lemma check_from_complete mt o w j :
  represents mt l -> (o + 1) * 2 ^ j = m -> last_node l' j w ->
  check_from mt (mth l') (N.of_nat o) (N.of_nat w) (prove_walk (S o) l' j o w) (node l' j o) = Ok true.
Proof.
  intros Hmt Ho Hw. unfold check_from.
  destruct (walk_complete _ (S o) o w j eq_refl) as (w' & ps & h & Hwalk & Hclimb); [lia| |done|].
  { unfold last_node. rewrite old_length. pose proof (Nat.pow_nonzero 2 j ltac:(done)). nia. }
  rewrite node_old in Hwalk by lia. rewrite Hwalk. cbn. rewrite Hclimb. cbn.
  rewrite decide_False by naive_solver. rewrite (represents_root_hash mt l Hmt).
  by rewrite decide_False by naive_solver.
Qed.
End completeness.

(** ** Totality *)
Section totality.
Context `{Sha256}.

Lemma strip_total fuel o w : fuel = N.size_nat o -> exists r, strip fuel o w = Ok r.
Proof.
  revert o w. induction fuel as [|fuel IH]; intros o w Hfuel; cbn [strip];
    destruct (N.eqb_spec (o mod 2) 0) as [Ho|Ho]; cbn [negb]; eauto.
  - destruct (decide (o = 0%N)) as [->|]; [done|by rewrite size_nat_half in Hfuel].
  - apply IH. rewrite size_nat_half in Hfuel by (by intros ->). by apply Nat.succ_inj in Hfuel.
Qed.

Lemma climb_hashes fuel w proofs h : fuel = N.size_nat w ->
  Hash.hashes (climb fuel w proofs h) (fun _ => True).
Proof.
  revert w proofs h. induction fuel as [|fuel IH]; intros w proofs h Hfuel; cbn [climb];
    destruct (N.eqb_spec w 0) as [Hw|Hw]; cbn [negb]; try done.
  - by rewrite size_nat_half in Hfuel.
  - destruct proofs as [|p proofs]; [done|]. hashes_step (Hash.hashes_nodes h p).
    apply IH. rewrite size_nat_half in Hfuel by done. by apply Nat.succ_inj in Hfuel.
Qed.

Lemma walk_hashes fuel o w proofs h h' : fuel = N.size_nat o ->
  Hash.hashes (walk fuel o w proofs h h') (fun _ => True).
Proof.
  revert o w proofs h h'. induction fuel as [|fuel IH]; intros o w proofs h h' Hfuel; cbn [walk];
    destruct (N.eqb_spec o 0) as [Ho|Ho]; cbn [negb]; try done.
  - by rewrite size_nat_half in Hfuel.
  - rewrite size_nat_half in Hfuel by done. apply Nat.succ_inj in Hfuel.
    repeat case_match; try done; repeat hashes_step Hash.hashes_nodes; by apply IH.
Qed.

Lemma check_from_hashes mt r o w proofs h : Hash.hashes (check_from mt r o w proofs h) (fun _ => True).
Proof.
  eapply Hash.hashes_bind; [by apply walk_hashes|]. intros [[[[w' ps] ?] h']|] _; [|done].
  eapply Hash.hashes_bind; [by apply climb_hashes|]. intros [?|] _; [|done].
  by repeat case_match.
Qed.

Lemma consistency_proof_hashes mt r n proof : (count mt <= n)%N ->
  Hash.hashes (consistency_proof mt r n proof) (fun _ => True).
Proof.
  intros Hn. unfold consistency_proof. case_match; [done|]. case_match; [done|].
  destruct (N.ltb_spec n (count mt)); [lia|].
  destruct (strip_total _ (count mt - 1) (n - 1) eq_refl) as [[o w] ->]. cbn.
  repeat case_match; try done; apply check_from_hashes.
Qed.
End totality.

(** ** Soundness and completeness *)

Lemma consistency_sound `{Sha256} `{!Sha256Length}
    (l l' : list TreeLeafData) (mt : MerkleTree) (proof : list bytes) :
  represents mt l -> Forall (fun p => length p = HASHBYTES) proof ->
  collision_free (tree_messages (merkle l) ++ tree_messages (merkle l') ++
    verifier_messages mt (N.of_nat (length l')) proof) ->
  consistency_proof mt (mth l') (N.of_nat (length l')) proof = Ok true ->
  l = take (length l) l'.
Proof.
  intros Hmt Hps Hcf Hc. pose proof (represents_root_hash mt l Hmt) as Hroot.
  assert (count mt = N.of_nat (length l)) as Hcount by apply Hmt.
  set (ms := _ ++ _ ++ _) in Hcf.
  assert (tree_messages (merkle l) ⊆ ms) as Hm1 by set_solver.
  assert (tree_messages (merkle l') ⊆ ms) as Hm2 by set_solver.
  assert (verifier_messages mt (N.of_nat (length l')) proof ⊆ ms) as Hm3 by set_solver.
  clearbody ms. unfold consistency_proof in Hc. rewrite Hcount, of_nat_eqb_0 in Hc.
  destruct (Nat.eqb_spec (length l) 0) as [Hz|Hz].
  { by apply nil_length_inv in Hz as ->. }
  destruct ((_ =? _)%N && _) eqn:Heq.
  { apply andb_true_iff in Heq as [He%N.eqb_eq Hr%bool_decide_eq_true].
    rewrite (take_ge l') by lia. eapply (mth_inj ms); try done; [lia|congruence]. }
  clear Heq. rewrite of_nat_ltb in Hc. destruct (Nat.ltb_spec (length l') (length l)); [done|].
  unfold verifier_messages in Hm3. rewrite Hcount in Hm3.
  replace (N.of_nat (length l) - 1)%N with (N.of_nat (length l - 1)) in Hc, Hm3 by lia.
  replace (N.of_nat (length l') - 1)%N with (N.of_nat (length l' - 1)) in Hc, Hm3 by lia.
  destruct (strip_spec l l' ltac:(done) _ (length l - 1) (length l' - 1) 0 eq_refl ltac:(cbn; lia))
    as (o & w & j & Hs & Ho & Hw & _).
  { apply last_node_0. by destruct l'; cbn in *; [lia|]. }
  rewrite Hs in Hc, Hm3. cbn in Hc. rewrite of_nat_eqb_0 in Hc, Hm3.
  destruct (Nat.eqb_spec o 0) as [->|Ho0]; cbn [negb] in Hc.
  - eapply (check_from_sound l l' ms) with (hash := root_hash mt); try done.
    by rewrite Hroot, mth_length.
  - destruct proof as [|p proof]; [done|]. apply Forall_cons in Hps as [Hp Hps].
    by eapply (check_from_sound l l' ms).
Qed.

Lemma consistency_complete `{Sha256} (l : list TreeLeafData) (m : nat) (mt : MerkleTree) :
  openssl_total -> 0 < m <= length l -> represents mt (take m l) ->
  consistency_proof mt (mth l) (N.of_nat (length l)) (consistency_path m l) = Ok true.
Proof.
  intros Ht Hm Hmt. pose proof (old_length l m Hm) as Hl.
  pose proof (represents_root_hash mt _ Hmt) as Hroot.
  assert (count mt = N.of_nat m) as Hcount by (rewrite <-Hl; apply Hmt).
  unfold consistency_proof. rewrite Hcount, of_nat_eqb_0, of_nat_ltb.
  destruct (Nat.eqb_spec m 0); [lia|]. case_match; [done|].
  destruct (Nat.ltb_spec (length l) m); [lia|].
  replace (N.of_nat m - 1)%N with (N.of_nat (m - 1)) by lia.
  replace (N.of_nat (length l) - 1)%N with (N.of_nat (length l - 1)) by lia.
  destruct (strip_spec (take m l) l ltac:(lia) _ (m - 1) (length l - 1) 0 eq_refl ltac:(cbn; lia))
    as (o & w & j & Hs & Ho & Hw & Hp).
  { apply last_node_0. by destruct l; cbn in *; [lia|]. }
  rewrite Hl in Ho. unfold consistency_path. rewrite Hp, Hs by lia. cbn. rewrite of_nat_eqb_0.
  destruct (Nat.eqb_spec o 0) as [->|Ho0]; cbn [negb].
  - rewrite decide_True by done. cbn [app].
    replace (root_hash mt) with (node l j 0); [by eapply check_from_complete|].
    rewrite <-(node_old l m), Hroot by lia. apply node_whole. unfold last_node. rewrite Hl. lia.
  - rewrite decide_False by done. by eapply check_from_complete.
Qed.

(** ** Properties *)

(** C30: soundness of consistency proofs.  When [consistency_proof] accepts a proof of
    32-byte hashes against the root hash of the tree of the leaves [l'], and the hash
    function has no collision among the messages of the two trees and the ones the
    verifier itself hashed, the leaves of the old tree are the first leaves of the new
    one: a ledger that moved from the old root to the new one has only grown. *)
Theorem consistency_proof_sound `{Sha256} `{!Sha256Length}
    (l l' : list TreeLeafData) (mt : MerkleTree) (proof : list bytes) :
  represents mt l -> Forall (fun p => length p = HASHBYTES) proof ->
  collision_free (tree_messages (merkle l) ++ tree_messages (merkle l') ++
    verifier_messages mt (N.of_nat (length l')) proof) ->
  consistency_proof mt (mth l') (N.of_nat (length l')) proof = Ok true ->
  l = take (length l) l'.
Proof. apply consistency_sound. Qed.

(** completeness of consistency proofs.  The proof that RFC 6962 prescribes for the
    first [m] leaves of [l] is accepted by the tree of these [m] leaves, for every [m]
    from 1 to the number of leaves. *)
Theorem consistency_proof_complete `{Sha256} (l : list TreeLeafData) (m : nat) (mt : MerkleTree) :
  openssl_total -> 0 < m <= length l -> represents mt (take m l) ->
  consistency_proof mt (mth l) (N.of_nat (length l)) (consistency_path m l) = Ok true.
Proof. apply consistency_complete. Qed.

(** the loops of [consistency_proof] end, and its [assert!(new_size >= self.count)]
    is the only way in which it unwinds: it does exactly when the claimed new size is
    below the tree's.  With a working hash function it answers in every other case. *)
Theorem consistency_proof_total `{Sha256} (mt : MerkleTree) (r : bytes) (n : N) (proof : list bytes) :
  consistency_proof mt r n proof <> OutOfFuel /\
  (consistency_proof mt r n proof = Panic <-> (n < count mt)%N) /\
  (openssl_total -> (count mt <= n)%N -> exists b, consistency_proof mt r n proof = Ok b).
Proof.
  destruct (N.lt_ge_cases n (count mt)) as [Hn|Hn].
  - assert (consistency_proof mt r n proof = Panic) as ->; [|split_and!; [done..|lia]].
    unfold consistency_proof. destruct (N.eqb_spec (count mt) 0); [lia|].
    destruct (N.eqb_spec (count mt) n); [lia|]. by destruct (N.ltb_spec n (count mt)); [|lia].
  - pose proof (consistency_proof_hashes mt r n proof Hn) as Hh.
    split_and!; [by intros Hc; rewrite Hc in Hh| |].
    + split; [by intros Hc; rewrite Hc in Hh|lia].
    + intros Ht _. apply Hash.hashes_total in Hh as (b & Hb & _); eauto.
Qed.

(** ** Witnesses *)

#[local] Existing Instances ToySha.sha ToySha.sha_length.

Definition sample_old_tree : MerkleTree := mk (merkle (take 2 sample_leaves)) 1 2 1.

Lemma sample_old_tree_represents : represents sample_old_tree (take 2 sample_leaves).
Proof. unfold represents. split_and!; vm_compute; reflexivity. Defined.

Lemma consistency_proof_sound_witness :
  consistency_proof sample_old_tree (mth sample_leaves) 3 (consistency_path 2 sample_leaves) = Ok true /\
  take 2 sample_leaves = take (length (take 2 sample_leaves)) sample_leaves.
Proof.
  split; [vm_compute; reflexivity|].
  apply (consistency_proof_sound (take 2 sample_leaves) sample_leaves sample_old_tree
    (consistency_path 2 sample_leaves)).
  - exact sample_old_tree_represents.
  - apply (bool_decide_unpack _). vm_compute. exact I.
  - apply (bool_decide_unpack _). vm_compute. exact I.
  - vm_compute. reflexivity.
Defined.

Lemma consistency_proof_complete_witness :
  0 < 2 <= length sample_leaves /\
  consistency_proof sample_old_tree (mth sample_leaves) (N.of_nat (length sample_leaves))
    (consistency_path 2 sample_leaves) = Ok true.
Proof.
  split; [vm_compute; lia|].
  apply (consistency_proof_complete sample_leaves 2 sample_old_tree).
  - exact ToySha.sha_total.
  - vm_compute; lia.
  - exact sample_old_tree_represents.
Defined.

Lemma consistency_proof_total_witness :
  consistency_proof sample_tree (mth []) 2 [] = Panic /\
  consistency_proof sample_tree (mth []) 2 [] <> OutOfFuel.
Proof.
  destruct (consistency_proof_total sample_tree (mth []) 2 []) as (Hf & Hp & _).
  split; [apply Hp; vm_compute; reflexivity|exact Hf].
Defined.
