(* ===== verification/Json.v ===== *)
(** * Json: serde_json's [Value] and the operations that the code uses on it

    [serde_json] is a library; its [Value] type and these methods are documented and
    are written out here.  Its parser and its printer are not: they are the class
    [JsonText].  Objects are [BTreeMap]s: association lists sorted by key. *)

From Stdlib Require Import Sorting.Sorted.
From S2P Require Import Prelude.

Inductive SJsonNumber :=
| PosInt (n : N)
| NegInt (z : Z)
| Float (bits : Z).

Inductive SJsonValue :=
| Null
| Bool (b : bool)
| Number (n : SJsonNumber)
| String_ (s : string)
| Array (l : list SJsonValue)
| Object (l : list (string * SJsonValue)).

Abbreviation SJsonMap := (list (string * SJsonValue)).

(** [serde_json::from_str::<Value>] and [Value::to_string]. *)
Class JsonText := {
  from_str : string -> option SJsonValue;
  to_string : SJsonValue -> string;
}.

(** ** Objects *)

(** The order of [String] is that of its bytes. *)
Definition key_lt (a b : string) : bool :=
  match String.compare a b with Lt => true | _ => false end.

Fixpoint obj_get (k : string) (m : SJsonMap) : option SJsonValue :=
  match m with
  | [] => None
  | (k', v) :: m => if decide (k = k') then Some v else obj_get k m
  end.

(** [Map::insert] *)
Fixpoint obj_insert (k : string) (v : SJsonValue) (m : SJsonMap) : SJsonMap :=
  match m with
  | [] => [(k, v)]
  | (k', v') :: m' =>
      if decide (k = k') then (k, v) :: m'
      else if key_lt k k' then (k, v) :: m
      else (k', v') :: obj_insert k v m'
  end.

(** [Map::remove] *)
Definition obj_remove (k : string) (m : SJsonMap) : SJsonMap :=
  filter (fun p => p.1 <> k) m.

(** ** Values *)

(** [value["k"]]: [Null] when the value is no object or has no such key. *)
Definition index (v : SJsonValue) (k : string) : SJsonValue :=
  match v with
  | Object m => default Null (obj_get k m)
  | _ => Null
  end.

Definition as_str (v : SJsonValue) : option string :=
  match v with String_ s => Some s | _ => None end.

Definition as_u64 (v : SJsonValue) : option N :=
  match v with Number (PosInt n) => Some n | _ => None end.

Definition as_array (v : SJsonValue) : option (list SJsonValue) :=
  match v with Array l => Some l | _ => None end.

Definition as_object (v : SJsonValue) : option SJsonMap :=
  match v with Object m => Some m | _ => None end.

Definition is_object (v : SJsonValue) : bool :=
  match v with Object _ => true | _ => false end.

Definition is_null (v : SJsonValue) : bool :=
  match v with Null => true | _ => false end.

(** [v.as_object_mut().map(|obj| obj.remove(k))] *)
Definition remove_key (v : SJsonValue) (k : string) : SJsonValue :=
  match v with Object m => Object (obj_remove k m) | _ => v end.

(** [value["k"] = x] on an object. *)
Definition set_key (v : SJsonValue) (k : string) (x : SJsonValue) : SJsonValue :=
  match v with Object m => Object (obj_insert k x m) | _ => v end.

Declare Scope json_scope.
Delimit Scope json_scope with json.
Notation "v .[ k ]" := (index v k) (at level 1, left associativity, format "v .[ k ]") : json_scope.

(** ** Induction, equality, countability *)

Section ind.
  Variable P : SJsonValue -> Prop.
  Hypothesis HNull : P Null.
  Hypothesis HBool : forall b, P (Bool b).
  Hypothesis HNumber : forall n, P (Number n).
  Hypothesis HString : forall s, P (String_ s).
  Hypothesis HArray : forall l, Forall P l -> P (Array l).
  Hypothesis HObject : forall l, Forall (fun p => P p.2) l -> P (Object l).

Fixpoint json_ind (v : SJsonValue) : P v :=
  match v with
  | Null => HNull
  | Bool b => HBool b
  | Number n => HNumber n
  | String_ s => HString s
  | Array l => HArray l
      ((fix go l := match l return Forall P l with
        | [] => Forall_nil_2 _
        | x :: l => Forall_cons_2 _ _ _ (json_ind x) (go l)
        end) l)
  | Object l => HObject l
      ((fix go l := match l return Forall (fun p => P p.2) l with
        | [] => Forall_nil_2 _
        | p :: l => Forall_cons_2 (fun p => P p.2) p l (json_ind p.2) (go l)
        end) l)
  end.
End ind.

(** Values as trees, to inherit equality and countability. *)
Abbreviation json_atom := (unit + bool + (N + Z + Z) + string)%type.

Fixpoint to_tree (v : SJsonValue) : gen_tree json_atom :=
  match v with
  | Null => GenLeaf (inl (inl (inl ())))
  | Bool b => GenLeaf (inl (inl (inr b)))
  | Number (PosInt n) => GenLeaf (inl (inr (inl (inl n))))
  | Number (NegInt z) => GenLeaf (inl (inr (inl (inr z))))
  | Number (Float z) => GenLeaf (inl (inr (inr z)))
  | String_ s => GenLeaf (inr s)
  | Array l => GenNode 0 (to_tree <$> l)
  | Object l => GenNode 1 ((fun p => GenNode 2 [GenLeaf (inr p.1); to_tree p.2]) <$> l)
  end.

Definition member_of_tree (of_tree : gen_tree json_atom -> SJsonValue) (t : gen_tree json_atom) :
    string * SJsonValue :=
  match t with
  | GenNode _ [GenLeaf (inr k); v] => (k, of_tree v)
  | _ => (""%string, Null)
  end.

Fixpoint of_tree (t : gen_tree json_atom) : SJsonValue :=
  match t with
  | GenLeaf (inl (inl (inl _))) => Null
  | GenLeaf (inl (inl (inr b))) => Bool b
  | GenLeaf (inl (inr (inl (inl n)))) => Number (PosInt n)
  | GenLeaf (inl (inr (inl (inr z)))) => Number (NegInt z)
  | GenLeaf (inl (inr (inr z))) => Number (Float z)
  | GenLeaf (inr s) => String_ s
  | GenNode 0 l => Array (of_tree <$> l)
  | GenNode _ l =>
      Object ((fun t => match t with
        | GenNode _ [GenLeaf (inr k); v] => (k, of_tree v)
        | _ => (""%string, Null)
        end) <$> l)
  end.

Lemma of_to_tree v : of_tree (to_tree v) = v.
Proof.
  induction v as [| |[]| |l IH|l IH] using json_ind; try done; cbn; f_equal;
    (induction IH as [|x l Hx _ IHl]; cbn; [done|]); rewrite IHl; [by rewrite Hx|].
  by destruct x; cbn in *; rewrite Hx.
Qed.

#[export] Instance json_eq_dec : EqDecision SJsonValue.
Proof.
  intros v w. refine (cast_if (decide (to_tree v = to_tree w))); abstract
    (first [rewrite <-(of_to_tree v), <-(of_to_tree w); congruence|congruence]).
Defined.

#[export] Instance json_countable : Countable SJsonValue := inj_countable' to_tree of_tree of_to_tree.

(** ** Lemmas *)

Lemma obj_get_insert k k' v m :
  obj_get k (obj_insert k' v m) = if decide (k = k') then Some v else obj_get k m.
Proof.
  induction m as [|[k1 v1] m IH]; cbn; [by repeat case_decide|].
  repeat case_match; cbn; repeat case_decide; subst; try done; by rewrite IH, ?decide_True, ?decide_False.
Qed.

Lemma obj_get_remove k k' m :
  obj_get k (obj_remove k' m) = if decide (k = k') then None else obj_get k m.
Proof.
  unfold obj_remove. induction m as [|[k1 v1] m IH]; [by case_decide|].
  rewrite filter_cons. cbn. repeat case_decide; cbn; subst; repeat case_decide; subst; try done;
    by rewrite IH, ?decide_True, ?decide_False.
Qed.

(** *** The order of the keys *)

Lemma ascii_compare_lt a b : Ascii.compare a b = Lt <-> (Ascii.N_of_ascii a < Ascii.N_of_ascii b)%N.
Proof. apply N.compare_lt_iff. Qed.

Lemma key_lt_trans a b c : key_lt a b -> key_lt b c -> key_lt a c.
Proof.
  unfold key_lt. revert b c.
  induction a as [|x a IH]; intros [|y b] [|z c]; cbn; try done.
  destruct (Ascii.compare x y) eqn:Hxy; [|intros _|done].
  - apply Ascii.compare_eq_iff in Hxy as ->. destruct (Ascii.compare y z); try done. apply IH.
  - destruct (Ascii.compare y z) eqn:Hyz; [|intros _|done].
    + apply Ascii.compare_eq_iff in Hyz as ->. by rewrite Hxy.
    + assert (Ascii.compare x z = Lt) as ->; [|done]. rewrite ascii_compare_lt in *. lia.
Qed.

Lemma key_lt_irrefl a : ~ key_lt a a.
Proof.
  unfold key_lt. induction a as [|x a IH]; cbn; [by intros []|].
  destruct (Ascii.compare x x) eqn:Hx; [exact IH| |by intros []]. intros _. rewrite ascii_compare_lt in Hx. lia.
Qed.

Lemma key_lt_total a b : a <> b -> key_lt a b = false -> key_lt b a.
Proof.
  unfold key_lt. rewrite (String.compare_antisym b a). intros Hne.
  destruct (String.compare a b) eqn:Hc; [by apply String.compare_eq_iff in Hc|done..].
Qed.

(** An object as [BTreeMap] keeps it. *)
Definition obj_sorted (m : SJsonMap) : Prop := StronglySorted (fun p q => key_lt p.1 q.1) m.

Lemma obj_get_lt k m : Forall (fun p => key_lt k p.1) m -> obj_get k m = None.
Proof.
  induction 1 as [|[k1 v1] m Hk _ IH]; cbn in *; [done|].
  case_decide; [subst; by apply key_lt_irrefl in Hk|done].
Qed.

Lemma obj_get_sorted_lt k k1 v1 m : obj_sorted ((k1, v1) :: m) -> key_lt k k1 ->
  obj_get k ((k1, v1) :: m) = None.
Proof.
  intros Hs Hk. apply obj_get_lt. apply StronglySorted_inv in Hs as [_ Hs].
  constructor; [done|]. eapply Forall_impl; [exact Hs|]. cbn. intros ??. by eapply key_lt_trans.
Qed.

(** The number of keys after an insertion. *)
Lemma obj_insert_length k v m : obj_sorted m ->
  length (obj_insert k v m) = match obj_get k m with Some _ => length m | None => S (length m) end.
Proof.
  induction m as [|[k1 v1] m IH]; intros Hs; [done|].
  destruct (key_lt k k1) eqn:Hk.
  { rewrite obj_get_sorted_lt by (done || by rewrite Hk). cbn.
    case_decide as Hd; [subst; exfalso; eapply key_lt_irrefl; by rewrite Hk|by rewrite Hk]. }
  cbn. rewrite Hk. case_decide; [done|]. cbn. apply StronglySorted_inv in Hs as [Hs _].
  rewrite IH by done. by case_match.
Qed.

Lemma obj_insert_Forall (P : string -> Prop) k v m :
  P k -> Forall (fun p => P p.1) m -> Forall (fun p => P p.1) (obj_insert k v m).
Proof.
  intros Hk. induction 1 as [|[k1 v1] m H1 Hm IH]; cbn; [by repeat constructor|].
  repeat case_match; by repeat constructor.
Qed.

Lemma obj_insert_sorted k v m : obj_sorted m -> obj_sorted (obj_insert k v m).
Proof.
  induction m as [|[k1 v1] m IH]; intros Hs; cbn; [by repeat constructor|].
  apply StronglySorted_inv in Hs as Hi. destruct Hi as [Hs' Hf].
  case_decide as Hd; [by subst; constructor|]. destruct (key_lt k k1) eqn:Hk.
  - assert (key_lt k k1) as Hk' by (by rewrite Hk). constructor; [done|]. constructor; [done|].
    eapply Forall_impl; [exact Hf|]. cbn. intros ??. by eapply key_lt_trans.
  - constructor; [by apply IH|]. apply (obj_insert_Forall (key_lt k1)); [|done].
    by apply key_lt_total.
Qed.

Lemma obj_remove_sorted k m : obj_sorted m -> obj_sorted (obj_remove k m).
Proof.
  unfold obj_remove. induction 1 as [|p m Hs IH Hf]; [constructor|]. rewrite filter_cons.
  case_decide; [|done]. constructor; [done|]. rewrite Forall_forall in *.
  intros q [_ Hq]%list_elem_of_filter. by apply Hf.
Qed.

#[export] Hint Resolve obj_insert_sorted obj_remove_sorted : indy.
