(* ===== verification/Wql.v ===== *)
(** * Wql: the wallet query language

    Models [libindy/src/services/wallet/language.rs]: the operators, their parser, their
    printer, and what a query means.  The texts of the errors are dropped; JSON is that
    of [Json.v], and base64 is a class. *)

From Stdlib Require Import Strings.Ascii.
From S2P Require Import Prelude Errors Json.

Inductive TagName :=
| EncryptedTagName (v : bytes)
| PlainTagName (v : bytes).

Inductive TargetValue :=
| Unencrypted (s : string)
| Encrypted (v : bytes).

#[export] Instance TagName_eq_dec : EqDecision TagName.
Proof. solve_decision. Defined.

#[export] Instance TargetValue_eq_dec : EqDecision TargetValue.
Proof. solve_decision. Defined.

(** [TagName::from] *)
Definition TagName_from (s : string) : IndyResult TagName :=
  if bool_decide (s = ""%string) || (starts_with_tilde s && (String.length s =? 1))
  then Err WalletQueryError
  else if starts_with_tilde s then Ok (PlainTagName (drop 1 (as_bytes s)))
  else Ok (EncryptedTagName (as_bytes s)).

(** [TargetValue::from] *)
Definition TargetValue_from (s : string) : TargetValue := Unencrypted s.

Module Operator.
Inductive t :=
| And (l : list t)
| Or (l : list t)
| Not (op : t)
| Eq (n : TagName) (v : TargetValue)
| Neq (n : TagName) (v : TargetValue)
| Gt (n : TagName) (v : TargetValue)
| Gte (n : TagName) (v : TargetValue)
| Lt (n : TagName) (v : TargetValue)
| Lte (n : TagName) (v : TargetValue)
| Like (n : TagName) (v : TargetValue)
| In (n : TagName) (vs : list TargetValue).

(** The operators that compare a tag with values. *)
Definition is_leaf (op : t) : bool :=
  match op with And _ | Or _ | Not _ => false | _ => true end.

Section ind.
  Variable P : t -> Prop.
  Hypothesis HAnd : forall l, Forall P l -> P (And l).
  Hypothesis HOr : forall l, Forall P l -> P (Or l).
  Hypothesis HNot : forall op, P op -> P (Not op).
  Hypothesis HLeaf : forall op, is_leaf op = true -> P op.

Fixpoint operator_ind (op : t) : P op :=
  let all := fix all l : Forall P l :=
    match l return Forall P l with
    | [] => Forall_nil_2 _
    | x :: l => Forall_cons_2 _ _ _ (operator_ind x) (all l)
    end in
  match op with
  | And l => HAnd l (all l)
  | Or l => HOr l (all l)
  | Not op => HNot op (operator_ind op)
  | op => HLeaf op eq_refl
  end.
End ind.

(** [self.transform(f)] *)
Fixpoint transform (f : t -> IndyResult t) (self : t) : IndyResult t :=
  match self with
  | And l => l ← mapM (transform f) l; Ok (And l)
  | Or l => l ← mapM (transform f) l; Ok (Or l)
  | Not op => op ← transform f op; Ok (Not op)
  | _ => f self
  end.

Definition optimise (self : t) : t :=
  match self with
  | Not (Not nested) => nested
  | And [op] => op
  | Or [op] => op
  | In key [target] => Eq key target
  | _ => self
  end.
End Operator.

(** ** The parser *)

Section parser.
Context `{JsonText}.

Definition is_plain (n : TagName) : bool :=
  match n with PlainTagName _ => true | EncryptedTagName _ => false end.

(** The operators that are only for plain tags. *)
Definition plain_only (op : TagName -> TargetValue -> Operator.t) (key s : string) :
    IndyResult Operator.t :=
  target_name ← TagName_from key;
  if is_plain target_name then Ok (op target_name (TargetValue_from s)) else Err WalletQueryError.

Definition in_target (v : SJsonValue) : IndyResult TargetValue :=
  match v with String_ s => Ok (TargetValue_from s) | _ => Err WalletQueryError end.

Definition parse_single_operator (operator_name key : string) (value : SJsonValue) :
    IndyResult Operator.t :=
  match value with
  | String_ s =>
      if decide (operator_name = "$neq"%string) then
        n ← TagName_from key; Ok (Operator.Neq n (TargetValue_from s))
      else if decide (operator_name = "$gt"%string) then plain_only Operator.Gt key s
      else if decide (operator_name = "$gte"%string) then plain_only Operator.Gte key s
      else if decide (operator_name = "$lt"%string) then plain_only Operator.Lt key s
      else if decide (operator_name = "$lte"%string) then plain_only Operator.Lte key s
      else if decide (operator_name = "$like"%string) then plain_only Operator.Like key s
      else Err WalletQueryError
  | Array values =>
      if decide (operator_name = "$in"%string) then
        target_values ← mapM in_target values;
        n ← TagName_from key;
        Ok (Operator.In n target_values)
      else Err WalletQueryError
  | _ => Err WalletQueryError
  end.

(** [parse], with [parse_operator] for the members. *)
Definition parse_with (parse_operator : string -> SJsonValue -> IndyResult Operator.t)
    (map : SJsonMap) : IndyResult Operator.t :=
  operators ← mapM (fun kv => parse_operator kv.1 kv.2) map;
  Ok (Operator.optimise (Operator.And operators)).

(** An element of the arrays of [$and] and [$or]. *)
Definition parse_element (parse : SJsonMap -> IndyResult Operator.t) (value : SJsonValue) :
    IndyResult Operator.t :=
  match value with Object map => parse map | _ => Err WalletQueryError end.

Fixpoint parse_operator (key : string) (value : SJsonValue) {struct value} : IndyResult Operator.t :=
  if decide (key = "$and"%string) then
    match value with
    | Array values =>
        operators ← mapM (fun v => parse_element (parse_with parse_operator) v) values;
        Ok (Operator.And operators)
    | _ => Err WalletQueryError
    end
  else if decide (key = "$or"%string) then
    match value with
    | Array values =>
        operators ← mapM (fun v => parse_element (parse_with parse_operator) v) values;
        Ok (Operator.Or operators)
    | _ => Err WalletQueryError
    end
  else if decide (key = "$not"%string) then
    match value with
    | Object map => operator ← parse_with parse_operator map; Ok (Operator.Not operator)
    | _ => Err WalletQueryError
    end
  else
    match value with
    | String_ s => n ← TagName_from key; Ok (Operator.Eq n (TargetValue_from s))
    | Object [(operator_name, v)] => parse_single_operator operator_name key v
    | _ => Err WalletQueryError
    end.

Definition parse : SJsonMap -> IndyResult Operator.t := parse_with parse_operator.

Definition parse_from_json (json : string) : IndyResult Operator.t :=
  query ← ok_or (from_str json) WalletQueryError;
  match query with
  | Object map => parse map
  | _ => Err WalletQueryError
  end.
End parser.

(** ** The printer *)

(** [utils/crypto/base64/rust_base64.rs], with what is relied on of its texts: no
    quote, backslash, tilde or dollar is among them. *)
Definition base64_char (c : Ascii.ascii) : bool :=
  let n := Ascii.N_of_ascii c in
  ((48 <=? n) && (n <=? 57) || (65 <=? n) && (n <=? 90) || (97 <=? n) && (n <=? 122) ||
   (n =? 43) || (n =? 47) || (n =? 61))%N.

Fixpoint all_chars (p : Ascii.ascii -> bool) (s : string) : bool :=
  match s with EmptyString => true | String c s => p c && all_chars p s end.

Class Base64 := {
  base64_encode : bytes -> string;
  base64_encode_chars : forall b, all_chars base64_char (base64_encode b) = true;
  base64_encode_nonempty : forall b, b <> [] -> base64_encode b <> ""%string;
}.

(** [format!("\"{}\"", s)] *)
Definition quote : string := String (Ascii.ascii_of_N 34) EmptyString.
Definition quoted (s : string) : string := (quote +:+ s +:+ quote)%string.

(** [l.join(sep)] *)
Fixpoint join (sep : string) (l : list string) : string :=
  match l with
  | [] => ""
  | [s] => s
  | s :: l => s +:+ sep +:+ join sep l
  end%string.

Section printer.
Context `{Base64}.

(** The name of a tag between the quotes, and a value likewise. *)
Definition name_text (n : TagName) : string :=
  match n with
  | EncryptedTagName v => base64_encode v
  | PlainTagName v => ("~" +:+ base64_encode v)%string
  end.

Definition value_text (v : TargetValue) : string :=
  match v with
  | Unencrypted s => s
  | Encrypted v => base64_encode v
  end.

(** [TagName::to_string] and [TargetValue::to_string] *)
Definition TagName_to_string (n : TagName) : string := quoted (name_text n).
Definition TargetValue_to_string (v : TargetValue) : string := quoted (value_text v).

(** [format!("{{{}:{}}}", k, v)] *)
Definition member_text (k v : string) : string := ("{" +:+ k +:+ ":" +:+ v +:+ "}")%string.
(** [format!("[{}]", l.join(","))] *)
Definition array_text (l : list string) : string := ("[" +:+ join "," l +:+ "]")%string.

Definition compare_text (operator : string) (n : TagName) (v : TargetValue) : string :=
  member_text (TagName_to_string n) (member_text (quoted operator) (TargetValue_to_string v)).

Fixpoint operator_to_string (self : Operator.t) : string :=
  match self with
  | Operator.Eq n v => member_text (TagName_to_string n) (TargetValue_to_string v)
  | Operator.Neq n v => compare_text "$neq" n v
  | Operator.Gt n v => compare_text "$gt" n v
  | Operator.Gte n v => compare_text "$gte" n v
  | Operator.Lt n v => compare_text "$lt" n v
  | Operator.Lte n v => compare_text "$lte" n v
  | Operator.Like n v => compare_text "$like" n v
  | Operator.In n vs =>
      member_text (TagName_to_string n)
        (member_text (quoted "$in") (array_text (TargetValue_to_string <$> vs)))
  | Operator.And l =>
      if 0 <? length l then member_text (quoted "$and") (array_text (operator_to_string <$> l)) else "{}"
  | Operator.Or l =>
      if 0 <? length l then member_text (quoted "$or") (array_text (operator_to_string <$> l)) else "{}"
  | Operator.Not stmt => member_text (quoted "$not") (operator_to_string stmt)
  end.
End printer.

(** ** What a query means

    A record is seen as the rows of its tags.  [LIKE] is the storage's. *)
Class LikePattern := { like : string -> string -> bool }.

Abbreviation TagRow := (TagName * TargetValue)%type.

Section meaning.
Context `{LikePattern}.

(** Some row of the tag passes the test. *)
Definition tag_holds (rows : list TagRow) (n : TagName) (p : TargetValue -> bool) : bool :=
  existsb (fun r => bool_decide (r.1 = n) && p r.2) rows.

(** A comparison of texts, the row's value on the left. *)
Definition text_cmp (p : string -> string -> bool) (v w : TargetValue) : bool :=
  match w, v with Unencrypted s, Unencrypted t => p s t | _, _ => false end.

Definition text_gt (s t : string) : bool := key_lt t s.
Definition text_gte (s t : string) : bool := negb (key_lt s t).
Definition text_lte (s t : string) : bool := negb (key_lt t s).

Fixpoint sat (rows : list TagRow) (op : Operator.t) : bool :=
  match op with
  | Operator.And l => forallb (sat rows) l
  | Operator.Or l => existsb (sat rows) l
  | Operator.Not op => negb (sat rows op)
  | Operator.Eq n v => tag_holds rows n (fun w => bool_decide (w = v))
  | Operator.Neq n v => tag_holds rows n (fun w => bool_decide (w <> v))
  | Operator.Gt n v => tag_holds rows n (text_cmp text_gt v)
  | Operator.Gte n v => tag_holds rows n (text_cmp text_gte v)
  | Operator.Lt n v => tag_holds rows n (text_cmp key_lt v)
  | Operator.Lte n v => tag_holds rows n (text_cmp text_lte v)
  | Operator.Like n v => tag_holds rows n (text_cmp like v)
  | Operator.In n vs => tag_holds rows n (fun w => bool_decide (w ∈ vs))
  end.

(** The tags of a record of the wallet, as rows. *)
Definition name_of (s : string) : TagName :=
  if starts_with_tilde s then PlainTagName (drop 1 (as_bytes s)) else EncryptedTagName (as_bytes s).

Definition tag_row (kv : string * string) : TagRow := (name_of kv.1, Unencrypted kv.2).

Definition tag_rows (tags : gmap string string) : list TagRow := tag_row <$> map_to_list tags.

(** The documentation's reading of a query, a JSON object, on the tags of a record. *)
Definition tag_test (tags : gmap string string) (key : string) (p : string -> bool) : bool :=
  match tags !! key with Some v => p v | None => false end.

Definition comparison (name : string) (v s : string) : bool :=
  if decide (name = "$neq"%string) then bool_decide (s <> v)
  else if decide (name = "$gt"%string) then text_gt s v
  else if decide (name = "$gte"%string) then text_gte s v
  else if decide (name = "$lt"%string) then key_lt s v
  else if decide (name = "$lte"%string) then text_lte s v
  else like s v.

Definition json_test (value : SJsonValue) (s : string) : bool :=
  match value with
  | String_ v => bool_decide (s = v)
  | Object [(name, String_ v)] => comparison name v s
  | Object [(_, Array vs)] => bool_decide (String_ s ∈ vs)
  | _ => false
  end.

Definition json_all (member : string -> SJsonValue -> bool) (v : SJsonValue) : bool :=
  match v with Object map => forallb (fun kv => member kv.1 kv.2) map | _ => false end.

Fixpoint json_sat (tags : gmap string string) (key : string) (value : SJsonValue) {struct value} : bool :=
  if decide (key = "$and"%string) then
    match value with Array vs => forallb (json_all (json_sat tags)) vs | _ => false end
  else if decide (key = "$or"%string) then
    match value with Array vs => existsb (json_all (json_sat tags)) vs | _ => false end
  else if decide (key = "$not"%string) then negb (json_all (json_sat tags) value)
  else tag_test tags key (json_test value).

Definition query_sat (tags : gmap string string) : SJsonValue -> bool := json_all (json_sat tags).
End meaning.

(** What the parser makes: values are texts, and the comparisons are of plain tags. *)
Definition is_unencrypted (v : TargetValue) : bool :=
  match v with Unencrypted _ => true | Encrypted _ => false end.

Definition nonempty (n : TagName) : bool :=
  match n with EncryptedTagName v | PlainTagName v => negb (bool_decide (v = [])) end.

Fixpoint well_typed (op : Operator.t) : bool :=
  match op with
  | Operator.And l | Operator.Or l => forallb well_typed l
  | Operator.Not op => well_typed op
  | Operator.Eq n v | Operator.Neq n v => nonempty n && is_unencrypted v
  | Operator.Gt n v | Operator.Gte n v | Operator.Lt n v | Operator.Lte n v | Operator.Like n v =>
      nonempty n && is_plain n && is_unencrypted v
  | Operator.In n vs => nonempty n && forallb is_unencrypted vs
  end.

(** ** Lemmas *)

#[export] Instance name_of_inj : Inj (=) (=) name_of.
Proof.
  intros s t. unfold name_of.
  destruct (starts_with_tilde s) eqn:Hs, (starts_with_tilde t) eqn:Ht; intros [= He];
    [|by apply (inj as_bytes)].
  apply starts_with_tilde_spec in Hs as [s' ->], Ht as [t' ->]. cbn in He.
  rewrite !drop_0 in He. f_equal. by apply (inj as_bytes).
Qed.

Lemma TagName_from_spec s :
  yields (fun e => e = WalletQueryError) (fun n => n = name_of s /\ nonempty n = true) (TagName_from s).
Proof.
  unfold TagName_from, name_of. destruct (starts_with_tilde s) eqn:Ht.
  - apply starts_with_tilde_spec in Ht as [t ->]. destruct t; by cbn.
  - rewrite andb_false_l, orb_false_r. destruct s as [|c s]; by cbn.
Qed.

Section meaning_lemmas.
Context `{LikePattern}.

Lemma tag_holds_ext rows n p q : (forall v, p v = q v) -> tag_holds rows n p = tag_holds rows n q.
Proof. intros Hpq. unfold tag_holds. induction rows as [|r rows IH]; cbn; [done|]. by rewrite IH, Hpq. Qed.

Lemma tag_holds_perm rows rows' n p : rows ≡ₚ rows' -> tag_holds rows n p = tag_holds rows' n p.
Proof.
  intros Hp. apply eq_true_iff_eq. unfold tag_holds. rewrite !existsb_exists.
  by setoid_rewrite <-list_elem_of_In; setoid_rewrite Hp.
Qed.

(** The order of the rows does not matter. *)
Lemma sat_perm rows rows' op : rows ≡ₚ rows' -> sat rows op = sat rows' op.
Proof.
  intros Hp. induction op as [l IH|l IH|op IH|op Hop] using Operator.operator_ind; cbn.
  - induction IH as [|x l Hx _ IH]; cbn; congruence.
  - induction IH as [|x l Hx _ IH]; cbn; congruence.
  - by rewrite IH.
  - destruct op; try done; cbn; by apply tag_holds_perm.
Qed.

Lemma optimise_sat rows op : sat rows (Operator.optimise op) = sat rows op.
Proof.
  destruct op as [[|op []]|[|op []]|[]| | | | | | | |n [|v []]]; cbn; try done.
  - by rewrite andb_true_r.
  - by rewrite orb_false_r.
  - by rewrite negb_involutive.
  - apply tag_holds_ext. intros w. apply bool_decide_ext. by rewrite list_elem_of_singleton.
Qed.

Lemma optimise_well_typed op : well_typed op = true -> well_typed (Operator.optimise op) = true.
Proof.
  destruct op as [[|op []]|[|op []]|[]| | | | | | | |n [|v []]]; cbn; try done; by rewrite andb_true_r.
Qed.

(** A test of the tag of a record. *)
Lemma tag_holds_rows tags key p :
  tag_holds (tag_rows tags) (name_of key) p = tag_test tags key (fun s => p (Unencrypted s)).
Proof.
  apply eq_true_iff_eq. unfold tag_holds, tag_test, tag_rows. rewrite existsb_exists. split.
  - intros (r & Hr & [Hn%bool_decide_eq_true Hp]%andb_true_iff).
    apply list_elem_of_In, list_elem_of_fmap in Hr as ([k v] & -> & Hkv%elem_of_map_to_list).
    apply (inj name_of) in Hn. cbn in *. subst. by rewrite Hkv.
  - destruct (tags !! key) as [v|] eqn:Hkv; [|done]. intros Hp. exists (tag_row (key, v)). split.
    + apply list_elem_of_In, list_elem_of_fmap. exists (key, v). by rewrite elem_of_map_to_list.
    + cbn. by rewrite bool_decide_true.
Qed.

Lemma forallb_Forall2 {A B} (f : A -> bool) (g : B -> bool) l k :
  Forall2 (fun x y => g y = f x) l k -> forallb g k = forallb f l.
Proof. induction 1; cbn; congruence. Qed.

Lemma existsb_Forall2 {A B} (f : A -> bool) (g : B -> bool) l k :
  Forall2 (fun x y => g y = f x) l k -> existsb g k = existsb f l.
Proof. induction 1; cbn; congruence. Qed.

(** What the parser makes of a part of a query whose meaning is [m]. *)
Definition parses_to (m : gmap string string -> bool) : Operator.t -> Prop :=
  fun op => well_typed op = true /\ forall tags, sat (tag_rows tags) op = m tags.

Abbreviation query_error := (fun e : IndyErrorKind => e = WalletQueryError).

Lemma parsed_all {A} (f : A -> gmap string string -> bool) l ops :
  Forall2 (fun x => parses_to (f x)) l ops ->
  parses_to (fun tags => forallb (fun x => f x tags) l) (Operator.And ops) /\
  parses_to (fun tags => existsb (fun x => f x tags) l) (Operator.Or ops).
Proof.
  intros Hl. assert (forallb well_typed ops = true) as Hw.
  { induction Hl as [|x op l ops [Hx _] _ IH]; cbn; [done|]. by rewrite Hx, IH. }
  split; split; try done; intros tags; cbn.
  - apply forallb_Forall2. eapply Forall2_impl; [exact Hl|]. by intros ?? [_ ?].
  - apply existsb_Forall2. eapply Forall2_impl; [exact Hl|]. by intros ?? [_ ?].
Qed.

Lemma parses_to_optimise m op : parses_to m op -> parses_to m (Operator.optimise op).
Proof.
  intros [Hw Hs]. split; [by apply optimise_well_typed|]. intros tags. by rewrite optimise_sat.
Qed.

Lemma parses_to_tag key n op p q :
  n = name_of key -> well_typed op = true ->
  (forall rows, sat rows op = tag_holds rows n p) -> (forall s, p (Unencrypted s) = q s) ->
  parses_to (fun tags => tag_test tags key q) op.
Proof.
  intros -> Hw Hs Hq. split; [done|]. intros tags. rewrite Hs, tag_holds_rows.
  unfold tag_test. case_match; [apply Hq|done].
Qed.

Lemma plain_only_spec op key s (q : string -> string -> bool) :
  (forall n v, well_typed (op n v) = nonempty n && is_plain n && is_unencrypted v) ->
  (forall rows n v, sat rows (op n v) = tag_holds rows n (text_cmp q v)) ->
  yields query_error (parses_to (fun tags => tag_test tags key (fun s' => q s' s))) (plain_only op key s).
Proof.
  intros Hw Hs. unfold plain_only. eapply yields_bind; [apply TagName_from_spec|]. intros n [-> Hn].
  destruct (is_plain (name_of key)) eqn:Hp; [|done].
  eapply parses_to_tag; [done|by rewrite Hw, Hn, Hp|by intros; apply Hs|done].
Qed.

Lemma in_target_spec values :
  yields query_error (Forall2 (fun v w => exists s, v = String_ s /\ w = Unencrypted s) values)
    (mapM in_target values).
Proof. apply yields_mapM, Forall_forall. intros [] _; cbn; eauto. Qed.

Lemma parse_single_operator_spec name key value :
  yields query_error (parses_to (fun tags => tag_test tags key (json_test (Object [(name, value)]))))
    (parse_single_operator name key value).
Proof.
  destruct value as [| | |v|values|]; cbn [parse_single_operator]; try done.
  - repeat (case_decide; [subst name|]); try by apply plain_only_spec.
    + eapply yields_bind; [apply TagName_from_spec|]. intros n [-> Hn].
      eapply parses_to_tag; [done|by cbn; rewrite Hn|done|].
      intros s. by apply bool_decide_ext; split; intros Hs [= ->].
    + done.
  - case_decide as Hd; [subst name|done]. eapply yields_bind; [apply in_target_spec|]. intros ws Hws.
    eapply yields_bind; [apply TagName_from_spec|]. intros n [-> Hn].
    eapply parses_to_tag; [done| |done|].
    + cbn. rewrite Hn. cbn. induction Hws as [|v w values ws (s & -> & ->) _ IH]; [done|exact IH].
    + intros s. apply bool_decide_ext.
      induction Hws as [|v w values ws (s' & -> & ->) _ IH]; [set_solver|].
      rewrite !elem_of_cons, IH. naive_solver.
Qed.

(** What parsing makes of a member and, where the value is an object, of its members. *)
Definition parsed (value : SJsonValue) : Prop :=
  (forall key, yields query_error (parses_to (fun tags => json_sat tags key value)) (parse_operator key value)) /\
  yields query_error (parses_to (fun tags => json_all (json_sat tags) value))
    (parse_element (parse_with parse_operator) value).

Lemma parse_with_spec map : Forall (fun kv => parsed kv.2) map ->
  yields query_error (parses_to (fun tags => json_all (json_sat tags) (Object map))) (parse_with parse_operator map).
Proof.
  intros Hm. eapply yields_bind.
  - apply (yields_mapM _ (fun kv => parses_to (fun tags => json_sat tags kv.1 kv.2))).
    eapply Forall_impl; [exact Hm|]. intros kv [Hkv _]. apply Hkv.
  - intros ops Hops. apply parses_to_optimise.
    by apply (parsed_all (fun kv tags => json_sat tags kv.1 kv.2)).
Qed.

Lemma parse_array_spec values : Forall parsed values ->
  yields query_error (Forall2 (fun v => parses_to (fun tags => json_all (json_sat tags) v)) values)
    (mapM (fun v => parse_element (parse_with parse_operator) v) values).
Proof. intros Hv. apply yields_mapM. eapply Forall_impl; [exact Hv|]. by intros v [_ ?]. Qed.

Lemma parse_operator_parsed value : parsed value.
Proof.
  induction value as [|b|n|s|l IH|m IH] using json_ind.
  1-3: split; [intros key; cbn; repeat case_decide|]; done.
  - split; [intros key; cbn; repeat case_decide; try done|done].
    eapply yields_bind; [apply TagName_from_spec|]. intros n [-> Hn].
    eapply parses_to_tag; [done|by cbn; rewrite Hn|done|].
    intros s'. cbv [TargetValue_from]. by apply bool_decide_ext; split; intros Hs; simplify_eq.
  - split; [|done]. intros key. apply parse_array_spec in IH. cbn. repeat case_decide; try done.
    + eapply yields_bind; [exact IH|]. intros ops Hops.
      by apply (parsed_all (fun v tags => json_all (json_sat tags) v)).
    + eapply yields_bind; [exact IH|]. intros ops Hops.
      by apply (parsed_all (fun v tags => json_all (json_sat tags) v)).
  - apply parse_with_spec in IH. split; [|exact IH]. intros key. cbn. repeat case_decide; try done.
    + eapply yields_bind; [exact IH|]. intros op [Hw Hs]. split; [done|]. intros tags. cbn. by rewrite Hs.
    + destruct m as [|[name v] []]; [done| |done]. apply parse_single_operator_spec.
Qed.

Lemma parse_from_json_spec `{JsonText} json :
  yields query_error (fun op => exists query, from_str json = Some query /\
    parses_to (fun tags => query_sat tags query) op) (parse_from_json json).
Proof.
  unfold parse_from_json. destruct (from_str json) as [query|]; [cbn|done].
  destruct query as [| | | | |map]; try done.
  eapply yields_impl; [apply parse_with_spec, Forall_true; intros; apply parse_operator_parsed|]. eauto.
Qed.
End meaning_lemmas.

(** ** The printed query read back

    [compact] is the JSON text that serde prints for a value made of texts, arrays and
    objects; [to_json] is the value whose text a query is printed as. *)
Definition escape_char (c : Ascii.ascii) : string :=
  let n := Ascii.N_of_ascii c in
  let hex d := Ascii.ascii_of_N (if d <? 10 then 48 + d else 87 + d)%N in
  let special l := String (Ascii.ascii_of_N 92) (String (Ascii.ascii_of_N l) EmptyString) in
  if (n =? 34)%N || (n =? 92)%N then special n
  else if (n =? 8)%N then special 98%N
  else if (n =? 9)%N then special 116%N
  else if (n =? 10)%N then special 110%N
  else if (n =? 12)%N then special 102%N
  else if (n =? 13)%N then special 114%N
  else if (n <? 32)%N then
    (special 117%N +:+ "00" +:+ String (hex (n / 16)%N) (String (hex (n mod 16)%N) EmptyString))%string
  else String c EmptyString.

Fixpoint escape (s : string) : string :=
  match s with EmptyString => "" | String c s => (escape_char c +:+ escape s)%string end.

Fixpoint compact (v : SJsonValue) : string :=
  match v with
  | Null => "null"
  | Bool b => if b then "true" else "false"
  | Number _ => ""
  | String_ s => quoted (escape s)
  | Array l => array_text (compact <$> l)
  | Object m =>
      ("{" +:+ join "," ((fun kv => quoted (escape kv.1) +:+ ":" +:+ compact kv.2) <$> m) +:+ "}")%string
  end.

(** A text that is printed as it is. *)
Definition unescaped (c : Ascii.ascii) : bool :=
  let n := Ascii.N_of_ascii c in ((32 <=? n) && negb (n =? 34) && negb (n =? 92))%N.
Definition plain_text (s : string) : bool := all_chars unescaped s.

Section read_back.
Context `{Base64}.

Definition single (k : string) (v : SJsonValue) : SJsonValue := Object [(k, v)].

Definition compare_json (operator : string) (n : TagName) (v : TargetValue) : SJsonValue :=
  single (name_text n) (single operator (String_ (value_text v))).

Fixpoint to_json (op : Operator.t) : SJsonValue :=
  match op with
  | Operator.Eq n v => single (name_text n) (String_ (value_text v))
  | Operator.Neq n v => compare_json "$neq" n v
  | Operator.Gt n v => compare_json "$gt" n v
  | Operator.Gte n v => compare_json "$gte" n v
  | Operator.Lt n v => compare_json "$lt" n v
  | Operator.Lte n v => compare_json "$lte" n v
  | Operator.Like n v => compare_json "$like" n v
  | Operator.In n vs => single (name_text n) (single "$in" (Array ((fun v => String_ (value_text v)) <$> vs)))
  | Operator.And [] | Operator.Or [] => Object []
  | Operator.And l => single "$and" (Array (to_json <$> l))
  | Operator.Or l => single "$or" (Array (to_json <$> l))
  | Operator.Not op => single "$not" (to_json op)
  end.

(** A query with names and comparisons as the parser makes them, and values that JSON
    does not escape. *)
Fixpoint printable (op : Operator.t) : bool :=
  match op with
  | Operator.And l | Operator.Or l => forallb printable l
  | Operator.Not op => printable op
  | Operator.Eq n v | Operator.Neq n v => nonempty n && plain_text (value_text v)
  | Operator.Gt n v | Operator.Gte n v | Operator.Lt n v | Operator.Lte n v | Operator.Like n v =>
      nonempty n && is_plain n && plain_text (value_text v)
  | Operator.In n vs => nonempty n && forallb (fun v => plain_text (value_text v)) vs
  end.

(** The same query over names and values in base64. *)
Definition name_read (n : TagName) : TagName :=
  match n with
  | EncryptedTagName v => EncryptedTagName (as_bytes (base64_encode v))
  | PlainTagName v => PlainTagName (as_bytes (base64_encode v))
  end.

Definition value_read (v : TargetValue) : TargetValue := Unencrypted (value_text v).

Fixpoint as_read (op : Operator.t) : Operator.t :=
  match op with
  | Operator.And l => Operator.And (as_read <$> l)
  | Operator.Or [] => Operator.And []
  | Operator.Or l => Operator.Or (as_read <$> l)
  | Operator.Not op => Operator.Not (as_read op)
  | Operator.Eq n v => Operator.Eq (name_read n) (value_read v)
  | Operator.Neq n v => Operator.Neq (name_read n) (value_read v)
  | Operator.Gt n v => Operator.Gt (name_read n) (value_read v)
  | Operator.Gte n v => Operator.Gte (name_read n) (value_read v)
  | Operator.Lt n v => Operator.Lt (name_read n) (value_read v)
  | Operator.Lte n v => Operator.Lte (name_read n) (value_read v)
  | Operator.Like n v => Operator.Like (name_read n) (value_read v)
  | Operator.In n vs => Operator.In (name_read n) (value_read <$> vs)
  end.

Lemma escape_plain s : plain_text s = true -> escape s = s.
Proof.
  unfold plain_text. induction s as [|c s IH]; cbn [all_chars escape]; [done|].
  intros [Hc Hs]%andb_true_iff. rewrite IH by done.
  unfold unescaped in Hc. unfold escape_char. rewrite !andb_true_iff, !negb_true_iff in Hc.
  destruct Hc as [[Hge H34] H92]. rewrite H34, H92. cbn [orb].
  apply N.leb_le in Hge.
  rewrite !(proj2 (N.eqb_neq _ _)), (proj2 (N.ltb_ge _ 32)) by lia. done.
Qed.

Lemma all_chars_impl (p q : Ascii.ascii -> bool) s :
  (forall c, p c = true -> q c = true) -> all_chars p s = true -> all_chars q s = true.
Proof. intros Hpq. induction s as [|c s IH]; cbn; [done|]. intros [Hc Hs]%andb_true_iff. by rewrite Hpq, IH. Qed.

Lemma base64_unescaped c : base64_char c = true -> unescaped c = true.
Proof.
  unfold base64_char, unescaped. rewrite !orb_true_iff, !andb_true_iff, !negb_true_iff, ?N.leb_le, ?N.eqb_eq, ?N.eqb_neq.
  lia.
Qed.

Lemma name_text_plain n : plain_text (name_text n) = true.
Proof.
  assert (forall b, plain_text (base64_encode b) = true) as Hb.
  { intros b. eapply all_chars_impl; [exact base64_unescaped|apply base64_encode_chars]. }
  destruct n; [apply Hb|]. exact (Hb v).
Qed.

Lemma quoted_escape s : plain_text s = true -> quoted (escape s) = quoted s.
Proof. by intros ->%escape_plain. Qed.

Lemma compact_single k v : plain_text k = true -> compact (single k v) = member_text (quoted k) (compact v).
Proof. intros Hk. unfold single, member_text. cbn [compact fmap list_fmap join fst snd].
  by rewrite escape_plain, !str_app_assoc. Qed.

Lemma compact_compare operator n v : plain_text operator = true -> plain_text (value_text v) = true ->
  compact (compare_json operator n v) = compare_text operator n v.
Proof.
  intros Ho Hv. unfold compare_json, compare_text. rewrite !compact_single by (done || apply name_text_plain).
  cbn [compact]. by rewrite escape_plain.
Qed.

(** A query is printed as the JSON value that it stands for. *)
Lemma to_string_compact op : printable op = true -> operator_to_string op = compact (to_json op).
Proof.
  assert (forall l, Forall (fun op => printable op = true -> operator_to_string op = compact (to_json op)) l ->
    forallb printable l = true -> operator_to_string <$> l = compact <$> (to_json <$> l)) as Hl.
  { induction 1 as [|x l Hx _ IH]; cbn; [done|]. intros [? ?]%andb_true_iff. by rewrite Hx, IH. }
  induction op as [l IH|l IH|op IH|op Hop] using Operator.operator_ind; cbn [printable]; intros Hp.
  1-2: destruct l as [|x l]; [done|]; specialize (Hl _ IH Hp);
    cbn [to_json]; rewrite compact_single by done;
    refine (f_equal (fun t => member_text _ (array_text t)) Hl).
  - cbn [to_json operator_to_string]. rewrite compact_single by done. by rewrite IH.
  - destruct op; try done; cbn in Hp; rewrite ?andb_true_iff in Hp; destruct_and?;
      cbn -[single compare_json compare_text]; try by rewrite compact_compare.
    + rewrite compact_single by apply name_text_plain. cbn [compact]. by rewrite quoted_escape.
    + rewrite !compact_single by (done || apply name_text_plain). cbn [compact].
      do 3 f_equal. rewrite <-list_fmap_compose. apply list_fmap_ext. intros i v Hv%list_elem_of_lookup_2.
      symmetry. apply quoted_escape. rewrite forallb_forall in *. eauto using list_elem_of_In.
      apply H1. by apply list_elem_of_In.
Qed.

Lemma name_text_chars n :
  all_chars (fun c => base64_char c || bool_decide (c = "~"%char)) (name_text n) = true.
Proof.
  assert (forall v, all_chars (fun c => base64_char c || bool_decide (c = "~"%char)) (base64_encode v) = true) as Hb.
  { intros v. eapply all_chars_impl; [|apply base64_encode_chars]. by intros c ->. }
  destruct n as [v|v]; exact (Hb v).
Qed.

Lemma TagName_from_text n : nonempty n = true -> TagName_from (name_text n) = Ok (name_read n).
Proof.
  unfold TagName_from. destruct n as [v|v]; cbn [nonempty name_text]; intros Hv%negb_true_iff%bool_decide_eq_false.
  - pose proof (base64_encode_nonempty v Hv). pose proof (base64_encode_chars v) as Hc.
    rewrite bool_decide_false by done. destruct (starts_with_tilde _) eqn:Ht; [|done].
    apply starts_with_tilde_spec in Ht as [s Hs]. rewrite Hs in Hc. done.
  - pose proof (base64_encode_nonempty v Hv). cbn. by destruct (base64_encode v).
Qed.

Lemma name_text_tag n key : all_chars (fun c => base64_char c || bool_decide (c = "~"%char)) key = false ->
  name_text n <> key.
Proof. intros Hk <-. by rewrite name_text_chars in Hk. Qed.

Lemma parse_tag_member n value : nonempty n = true ->
  parse_element (parse_with parse_operator) (single (name_text n) value) =
    (op ← match value with
          | String_ s => Ok (Operator.Eq (name_read n) (Unencrypted s))
          | Object [(operator_name, v)] => parse_single_operator operator_name (name_text n) v
          | _ => Err WalletQueryError
          end; Ok (Operator.optimise (Operator.And [op]))).
Proof.
  intros Hn. unfold single, parse_element, parse_with. cbn [mapM fst snd].
  destruct value; cbn [parse_operator]; rewrite !decide_False by (by apply name_text_tag);
    rewrite ?TagName_from_text by done; try done.
  destruct l as [|[o v] []]; try done. by destruct (parse_single_operator _ _ _).
Qed.

Lemma plain_only_text op n s : nonempty n = true -> is_plain n = true ->
  plain_only op (name_text n) s = Ok (op (name_read n) (Unencrypted s)).
Proof. intros Hn Hp. unfold plain_only. rewrite TagName_from_text by done. by destruct n. Qed.

Lemma in_target_values vs :
  mapM in_target ((fun v => String_ (value_text v)) <$> vs) = Ok (value_read <$> vs).
Proof. induction vs as [|v vs IH]; [done|]. cbn. by rewrite IH. Qed.

Lemma parse_group l : Forall (fun op => printable op = true ->
    parse_element (parse_with parse_operator) (to_json op) = Ok (as_read op)) l ->
  forallb printable l = true ->
  mapM (fun v => parse_element (parse_with parse_operator) v) (to_json <$> l) = Ok (as_read <$> l).
Proof.
  induction 1 as [|x l Hx _ IH]; cbn; [done|]. intros [? ?]%andb_true_iff. by rewrite Hx, IH.
Qed.

Lemma parse_to_json op : printable op = true ->
  parse_element (parse_with parse_operator) (to_json op) = Ok (as_read op).
Proof.
  induction op as [l IH|l IH|op IH|op Hop] using Operator.operator_ind; cbn [printable]; intros Hp.
  - destruct l as [|x l]; [done|]. pose proof (parse_group _ IH Hp) as Hl.
    cbn [to_json single parse_element]. unfold parse_with at 1. cbn [mapM fst snd parse_operator].
    rewrite decide_True by done. by rewrite Hl.
  - destruct l as [|x l]; [done|]. pose proof (parse_group _ IH Hp) as Hl.
    cbn [to_json single parse_element]. unfold parse_with at 1. cbn [mapM fst snd parse_operator].
    rewrite decide_False, decide_True by done. by rewrite Hl.
  - specialize (IH Hp). cbn [to_json single parse_element]. unfold parse_with at 1.
    destruct (to_json op); try done. cbn [parse_element] in IH.
    cbn [mapM fst snd parse_operator]. rewrite !decide_False, decide_True by done. by rewrite IH.
  - destruct op; try done; cbn [printable] in Hp; rewrite ?andb_true_iff in Hp; destruct_and?;
      cbn [to_json]; unfold compare_json; rewrite parse_tag_member by done; try done;
      cbn -[TagName_from plain_only]; rewrite ?plain_only_text by done; try done.
    + by rewrite TagName_from_text.
    + by rewrite in_target_values, TagName_from_text.
Qed.
End read_back.

(** ** Theorems *)

(** C32: a query that [parse_from_json] accepts means, on the tags of any record, what the
    documentation of the language says of its JSON: members are joined by "and", a tag is
    compared with the texts given, and a comparison with a tag that the record does not
    have is false, also [$neq]. *)
Theorem parse_denotes `{JsonText} `{LikePattern} json query op :
  from_str json = Some query -> parse_from_json json = Ok op ->
  forall tags, sat (tag_rows tags) op = query_sat tags query.
Proof.
  intros Hq Hop. pose proof (parse_from_json_spec json) as Hs. rewrite Hop in Hs.
  destruct Hs as (query' & Hq' & _ & Hs). rewrite Hq in Hq'. by injection Hq' as <-.
Qed.

(** C39: parsing never unwinds; what it returns is well typed (names are not empty,
    values are texts, only plain tags are ordered or matched with a pattern), and the only
    error is [WalletQueryError]. *)
Theorem parse_well_typed `{JsonText} json :
  match parse_from_json json with
  | Ok op => well_typed op = true
  | Err e => e = WalletQueryError
  | _ => False
  end.
Proof.
  pose proof (parse_from_json_spec (H:={| like := fun _ _ => true |}) json) as Hs.
  destruct (parse_from_json json); try done. by destruct Hs as (? & _ & ? & _).
Qed.

(** [optimise] does not change what a query means, for rows of either kind. *)
Theorem optimise_equivalent `{LikePattern} rows op : sat rows (Operator.optimise op) = sat rows op.
Proof. apply optimise_sat. Qed.

(** a printed query is parsed as the same query over names and values in base64,
    when no value needs an escape in JSON and the JSON library reads the text. *)
Theorem query_text_roundtrip `{JsonText} `{Base64} op :
  printable op = true -> from_str (compact (to_json op)) = Some (to_json op) ->
  parse_from_json (operator_to_string op) = Ok (as_read op).
Proof.
  intros Hp Hj. unfold parse_from_json. rewrite to_string_compact, Hj by done.
  pose proof (parse_to_json op Hp) as Hop. by destruct (to_json op).
Qed.

(** values are printed without escapes, so that a quote in a value is taken for the
    end of it: two different queries are printed alike. *)
Theorem printed_values_ambiguous `{Base64} n v w :
  operator_to_string (Operator.In n [Unencrypted (v +:+ quote +:+ "," +:+ quote +:+ w)]) =
  operator_to_string (Operator.In n [Unencrypted v; Unencrypted w]).
Proof.
  cbn [operator_to_string fmap list_fmap]. do 2 f_equal. unfold array_text, TargetValue_to_string, quoted, join.
  cbn [value_text]. by rewrite !str_app_assoc.
Qed.

(** ** Witnesses *)

(** Base64 in its place: two letters for a byte. *)
Definition letter (n : N) : Ascii.ascii := Ascii.ascii_of_N (97 + n mod 16).

Fixpoint toy_encode (b : bytes) : string :=
  match b with
  | [] => ""
  | x :: b => String (letter (Byte.to_N x / 16)) (String (letter (Byte.to_N x)) (toy_encode b))
  end.

Lemma letter_char n : base64_char (letter n) = true.
Proof.
  unfold base64_char, letter. pose proof (N.mod_lt n 16 ltac:(done)) as Hm.
  revert Hm. generalize (n mod 16)%N as m. intros m Hm.
  rewrite Ascii.N_ascii_embedding by lia.
  assert (97 <=? 97 + m = true /\ 97 + m <=? 122 = true)%N as [-> ->] by (rewrite !N.leb_le; lia).
  by rewrite !orb_true_r.
Qed.

#[local] Program Instance ToyBase64 : Base64 := {| base64_encode := toy_encode |}.
Next Obligation. intros b. induction b as [|x b IH]; [done|]. cbn -[letter]. by rewrite !letter_char, IH. Qed.
Next Obligation. by intros [|x b]. Qed.

#[local] Instance ToyLike : LikePattern := {| like := fun s p => bool_decide (s = p) |}.

(** [{"~age":{"$lt":"5"},"$or":[{"city":"Rome"},{"$not":{"city":{"$in":["Oslo","Bern"]}}}]}] *)
Definition sample_query : SJsonValue :=
  Object [("$or", Array [Object [("city", String_ "Rome")];
                         Object [("$not", Object [("city", Object [("$in", Array [String_ "Oslo"; String_ "Bern"])])])]]);
          ("~age", Object [("$lt", String_ "5")])]%string.

Definition sample_operator : Operator.t :=
  let city := EncryptedTagName (as_bytes "city") in
  Operator.And
    [Operator.Or [Operator.Eq city (Unencrypted "Rome");
                  Operator.Not (Operator.In city [Unencrypted "Oslo"; Unencrypted "Bern"])];
     Operator.Lt (PlainTagName (as_bytes "age")) (Unencrypted "5")].

Definition sample_json : JsonText := {|
  from_str := fun s =>
    if decide (s = "query"%string) then Some sample_query
    else if decide (s = compact (to_json sample_operator)) then Some (to_json sample_operator) else None;
  Json.to_string := fun _ => ""%string;
|}.

Lemma parse_denotes_witness :
  sat (tag_rows {["~age" := "4"; "city" := "Rome"]}) sample_operator = true /\
  forall tags, sat (tag_rows tags) sample_operator = query_sat tags sample_query.
Proof.
  split; [by vm_compute|].
  refine (parse_denotes (H:=sample_json) "query" sample_query sample_operator _ _); by vm_compute.
Defined.

Lemma query_text_roundtrip_witness :
  parse_from_json (H:=sample_json) (operator_to_string sample_operator) = Ok (as_read sample_operator).
Proof. refine (query_text_roundtrip (H:=sample_json) sample_operator _ _); by vm_compute. Defined.
