(* ===== verification/PoolTypes.v ===== *)
(** * PoolTypes: the messages of the pool protocol and the events of the pool thread

    Models [libindy/src/services/pool/types.rs], [libindy/src/services/pool/events.rs]
    and [libindy/src/utils/crypto/verkey_builder.rs].  The serde-generated parsers and
    printers, base58 and BLS are libraries: the classes [PoolCodecs] and [Bls]. *)

From Stdlib Require Import Strings.Ascii.
From S2P Require Import Prelude Errors Json Hashing MerkleTree.
Import MerkleTree.MerkleTree.

(** ** Libraries *)

(** The types of [indy_crypto::bls]. *)
Class Bls := {
  VerKey : Type;
  Generator : Type;
  (** the constant that [RequestSM::new] decodes when it is given no generator *)
  default_generator : Generator;
  (** [VerKey::from_bytes] *)
  verkey_from_bytes : bytes -> option VerKey;
}.

(** [rust_base58] *)
Class Base58 := {
  to_base58 : bytes -> string;
  from_base58 : string -> option bytes;
}.

(** ** Node transactions *)

Record NodeData := mk_node_data {
  alias : string;
  client_ip : option string;
  client_port : option N;
  node_ip : option string;
  node_port : option N;
  services : option (list string);
  blskey : option string;
  blskey_pop : option string;
}.

(** The deserializer of [client_port] and [node_port], on the value it is given; [None]
    is the error "Invalid Node transaction". *)
Definition string_or_number (v : SJsonValue) : option (option N) :=
  match v with
  | String_ s => match parse_u64 s with Some num => Some (Some num) | None => None end
  | Number n => match as_u64 (Number n) with Some num => Some (Some num) | None => None end
  | Null => Some None
  | _ => None
  end.

Record NodeTransactionV0 := mk_v0 {
  v0_data : NodeData;
  v0_dest : string;
  v0_identifier : string;
  v0_txn_id : option string;
  v0_verkey : option string;
  v0_txn_type : string;
}.

Record TxnData := mk_txn_data { data : NodeData; dest : string; verkey : option string }.
Record TxnMetadata := mk_txn_metadata { tm_req_id : option Z; from : string }.
Record Txn := mk_txn {
  txn_type : string;
  txn_protocol_version : option Z;
  txn_data : TxnData;
  metadata : TxnMetadata;
}.
Record Metadata := mk_metadata {
  creation_time : option N;
  seq_no : option Z;
  txn_id : option string;
}.
Record ReqSignatureValue := mk_rsv { rsv_from : option string; rsv_value : option string }.
Record ReqSignature := mk_rs { type_ : option string; values : option (list ReqSignatureValue) }.
Record NodeTransactionV1 := mk_v1 {
  txn : Txn;
  txn_metadata : Metadata;
  req_signature : ReqSignature;
  ver : string;
}.

Inductive NodeTransaction :=
| Txn_V0 (t : NodeTransactionV0)
| Txn_V1 (t : NodeTransactionV1).

(** [impl From<NodeTransactionV0> for NodeTransactionV1] *)
Definition v1_from (node_txn : NodeTransactionV0) : NodeTransactionV1 :=
  mk_v1
    (mk_txn (v0_txn_type node_txn) None
       (mk_txn_data (v0_data node_txn) (v0_dest node_txn) (v0_verkey node_txn))
       (mk_txn_metadata None (v0_identifier node_txn)))
    (mk_metadata None None (v0_txn_id node_txn))
    (mk_rs None None) "1".

(** [x.split(c)]: the parts between the occurrences of [c]. *)
Fixpoint split_on (c : ascii) (s : string) : list string :=
  match s with
  | EmptyString => [EmptyString]
  | String c' s =>
      if decide (c = c') then EmptyString :: split_on c s
      else match split_on c s with
           | part :: parts => String c' part :: parts
           | [] => [String c' EmptyString]
           end
  end.

(** [s.contains(c)] *)
Fixpoint contains_char (c : ascii) (s : string) : bool :=
  match s with
  | EmptyString => false
  | String c' s => bool_decide (c = c') || contains_char c s
  end.

Section verkey_builder.
Context `{Base58}.

(** [utils::crypto::base58::decode] *)
Definition base58_decode (doc : string) : IndyResult bytes :=
  ok_or (from_base58 doc) InvalidStructure.

Definition build_full_verkey (dest : string) (verkey : option string) : IndyResult string :=
  match verkey with
  | Some verkey =>
      '(verkey, crypto_type) ← (if contains_char ":"%char verkey then
         let splits := split_on ":"%char verkey in
         s0 ← unwrap (splits !! 0); s1 ← unwrap (splits !! 1); Ok (s0, Some s1)
       else Ok (verkey, None));
      verkey ← match verkey with
        | String "~"%char tail =>
            result ← base58_decode dest;
            end_ ← base58_decode tail;
            Ok (to_base58 (result ++ end_))
        | _ => Ok verkey
        end;
      Ok match crypto_type with
         | Some crypto_type => (verkey +:+ ":" +:+ crypto_type)%string
         | None => verkey
         end
  | None => Ok dest
  end.

(** The new value of a field that a transaction may leave out. *)
Definition override {A} (old new : option A) : option A :=
  match new with Some a => Some a | None => old end.

Definition update_data (self other : NodeData) : NodeData :=
  mk_node_data (alias self)
    (override (client_ip self) (client_ip other))
    (override (client_port self) (client_port other))
    (override (node_ip self) (node_ip other))
    (override (node_port self) (node_port other))
    (override (services self) (services other))
    (override (blskey self) (blskey other))
    (override (blskey_pop self) (blskey_pop other)).

(** [NodeTransactionV1::update] *)
Definition update (self other : NodeTransactionV1) : IndyResult NodeTransactionV1 :=
  let sd := txn_data (txn self) in
  let od := txn_data (txn other) in
  _ ← assert_that (bool_decide (dest sd = dest od));
  _ ← assert_that (bool_decide (alias (data sd) = alias (data od)));
  let data' := update_data (data sd) (data od) in
  verkey' ← match verkey od with
    | Some vk => full ← build_full_verkey (dest sd) (Some vk); Ok (Some full)
    | None => Ok (verkey sd)
    end;
  Ok (mk_v1
    (mk_txn (txn_type (txn self)) (txn_protocol_version (txn self))
       (mk_txn_data data' (dest sd) verkey') (metadata (txn self)))
    (txn_metadata self) (req_signature self) (ver self)).
End verkey_builder.

(** ** Protocol messages *)

Record LedgerStatus := mk_ledger_status {
  txnSeqNo : N;
  merkleRoot : string;
  ls_ledgerId : N;
  ppSeqNo : option N;
  viewNo : option N;
  protocolVersion : option N;
}.

Record ConsistencyProof := mk_consistency_proof {
  seqNoEnd : N;
  seqNoStart : N;
  cp_ledgerId : N;
  hashes : list string;
  oldMerkleRoot : string;
  newMerkleRoot : string;
}.

Record CatchupReq := mk_catchup_req {
  cr_ledgerId : N;
  cr_seqNoStart : N;
  cr_seqNoEnd : N;
  catchupTill : N;
}.

Record CatchupRep := mk_catchup_rep {
  rep_ledgerId : N;
  consProof : list string;
  txns : gmap string SJsonValue;
}.

Section min_tx.
Context `{Machine} `{HashOrder}.

Definition min_step (min : option N) (kv : string * SJsonValue) : IndyResult (option N) :=
  val ← ok_or (parse_usize kv.1) InvalidStructure;
  Ok match min with
     | None => Some val
     | Some m => if (val <? m)%N then Some val else min
     end.

(** [CatchupRep::min_tx] *)
Definition min_tx (self : CatchupRep) : IndyResult N :=
  min ← foldM min_step (hash_iter (txns self)) None;
  ok_or min InvalidStructure.
End min_tx.

Record ResponseMetadata := mk_response_metadata { md_req_id : N }.

Inductive Reply :=
| ReplyV0 (result : ResponseMetadata)
| ReplyV1 (result_txn_metadata : ResponseMetadata).

Definition reply_req_id (self : Reply) : N :=
  match self with ReplyV0 r => md_req_id r | ReplyV1 r => md_req_id r end.

Inductive Response :=
| ResponseV0 (req_id : N)
| ResponseV1 (metadata : ResponseMetadata).

Definition response_req_id (self : Response) : N :=
  match self with ResponseV0 r => r | ResponseV1 m => md_req_id m end.

Inductive PoolLedgerTxn :=
| PoolLedgerTxnV0 (txn : Response)
| PoolLedgerTxnV1 (txn_txn : Response).

Inductive Message :=
| MConsistencyProof (cp : ConsistencyProof)
| MLedgerStatus (ls : LedgerStatus)
| MCatchupReq (cr : CatchupReq)
| MCatchupRep (rep : CatchupRep)
| MReqACK (r : Response)
| MReqNACK (r : Response)
| MReply (r : Reply)
| MReject (r : Response)
| MPoolLedgerTxns (t : PoolLedgerTxn)
| MPing
| MPong.

(** What serde derives, and rmp-serde: [serde_json::from_str::<Message>],
    [serde_json::to_string] of a [Message], [serde_json::from_str::<Vec<String>>],
    [rmp_serde::to_vec_named] of a [Value] and [rmp_serde::from_slice] of a
    [NodeTransaction]. *)
Class PoolCodecs := {
  message_from_json : string -> option Message;
  message_to_json : Message -> option string;
  strings_from_json : string -> option (list string);
  rmp_to_vec_named : SJsonValue -> option bytes;
  rmp_node_transaction : bytes -> option NodeTransaction;
}.

(** [Message::from_raw_str] *)
Definition from_raw_str `{PoolCodecs} (str : string) : IndyResult Message :=
  if decide (str = "po"%string) then Ok MPong
  else if decide (str = "pi"%string) then Ok MPing
  else ok_or (message_from_json str) InvalidStructure.

Record RemoteNode := mk_remote_node {
  name : string;
  public_key : bytes;
  zaddr : string;
  is_blacklisted : bool;
}.

(** ** Events *)

Inductive NetworkerEvent :=
| SendOneRequest (msg req_id : string) (timeout : Z)
| SendAllRequest (msg req_id : string) (timeout : Z) (nodes : option (list string))
| Resend (req_id : string) (timeout : Z)
| NodesStateUpdated (nodes : list RemoteNode)
| ExtendTimeout (req_id node_alias : string) (timeout : Z)
| CleanTimeout (req_id : string) (node_alias : option string)
| NetTimeout.

Inductive PoolEvent :=
| CheckCache (cmd_id : Z)
| NodeReply (reply node_alias : string)
| Close (cmd_id : Z)
| Refresh (cmd_id : Z)
| CatchupTargetFound (target_mt_root : bytes) (target_mt_size : N) (mt : MerkleTree)
| CatchupRestart (mt : MerkleTree)
| CatchupTargetNotFound (err : IndyErrorKind)
| PoolOutdated
| Synced (mt : MerkleTree)
| NodesBlacklisted
| SendRequest (cmd_id : Z) (request : string) (timeout : option Z) (nodes : option string)
| PoolTimeoutEvent (req_id node_alias : string).

Inductive RequestEvent :=
| RELedgerStatus (ls : LedgerStatus) (node_alias : option string) (mt : option MerkleTree)
| RECatchupReq (mt : MerkleTree) (target_mt_size : N) (target_mt_root : bytes)
| RETimeout (req_id node_alias : string)
| RECatchupRep (rep : CatchupRep) (node_alias : string)
| CustomSingleRequest (msg req_id : string)
| CustomConsensusRequest (msg req_id : string)
| CustomFullRequest (msg req_id : string) (timeout : option Z) (nodes : option string)
| REConsistencyProof (cp : ConsistencyProof) (node_alias : string)
| REReply (r : Reply) (raw_msg node_alias req_id : string)
| REReqACK (r : Response) (raw_msg node_alias req_id : string)
| REReqNACK (r : Response) (raw_msg node_alias req_id : string)
| REReject (r : Response) (raw_msg node_alias req_id : string)
| REPoolLedgerTxns
| REPing
| REPong
| Terminate.

Definition get_req_id (self : RequestEvent) : string :=
  match self with
  | CustomSingleRequest _ id => id
  | CustomConsensusRequest _ id => id
  | CustomFullRequest _ id _ _ => id
  | REReply _ _ _ id => id
  | REReqACK _ _ _ id => id
  | REReqNACK _ _ _ id => id
  | REReject _ _ _ id => id
  | _ => ""%string
  end.

(** ** The kinds of requests *)

Definition REQUESTS_FOR_STATE_PROOFS : list string :=
  ["105"; "107"; "108"; "104"; "116"; "115"; "117"; "121"]%string.
Definition REQUEST_FOR_FULL : list string := ["118"; "119"]%string.

Section into.
Context `{Sha256} `{JsonText} `{PoolCodecs}.

Definition _parse_msg (msg : string) : option Message :=
  match from_raw_str msg with Ok m => Some m | _ => None end.

Definition _get_req_json (msg : string) : IndyResult SJsonValue :=
  ok_or (from_str msg) InvalidStructure.

Definition _parse_req_id_and_op (msg : string) : IndyResult (string * string) :=
  req_json ← _get_req_json msg;
  req_id ← ok_or (as_u64 (index req_json "reqId")) InvalidStructure;
  op ← ok_or (as_str (index (index req_json "operation") "type")) InvalidStructure;
  Ok (pretty req_id, op).

(** [PoolService::get_sp_parser(op).is_some()]: the transaction types for which a plugin
    registered a parser of state proofs. *)
Context (sp_parsers : gset string).

(** [impl Into<Option<RequestEvent>> for PoolEvent]; the outcome is for the [unwrap] of
    [MerkleTree::from_vec]. *)
Definition into_request_event (self : PoolEvent) : IndyResult (option RequestEvent) :=
  match self with
  | NodeReply msg node_alias =>
      match _parse_msg msg with
      | None => Ok None
      | Some (MCatchupReq _) =>
          match from_vec [] with
          | Ok mt => Ok (Some (RECatchupReq mt 0 []))
          | Err _ => Panic
          | Panic => Panic
          | OutOfFuel => OutOfFuel
          end
      | Some (MCatchupRep rep) => Ok (Some (RECatchupRep rep node_alias))
      | Some (MLedgerStatus ls) => Ok (Some (RELedgerStatus ls (Some node_alias) None))
      | Some (MConsistencyProof cp) => Ok (Some (REConsistencyProof cp node_alias))
      | Some (MReply rep) => Ok (Some (REReply rep msg node_alias (pretty (reply_req_id rep))))
      | Some (MReqACK rep) => Ok (Some (REReqACK rep msg node_alias (pretty (response_req_id rep))))
      | Some (MReqNACK rep) => Ok (Some (REReqNACK rep msg node_alias (pretty (response_req_id rep))))
      | Some (MReject rep) => Ok (Some (REReject rep msg node_alias (pretty (response_req_id rep))))
      | Some (MPoolLedgerTxns _) => Ok (Some REPoolLedgerTxns)
      | Some MPing => Ok (Some REPing)
      | Some MPong => Ok (Some REPong)
      end
  | SendRequest _ msg timeout nodes =>
      Ok match _parse_req_id_and_op msg with
         | Ok (req_id, op) =>
             if decide (op ∈ REQUEST_FOR_FULL) then Some (CustomFullRequest msg req_id timeout nodes)
             else if bool_decide (is_Some timeout) || bool_decide (is_Some nodes) then None
             else if decide (op ∈ REQUESTS_FOR_STATE_PROOFS \/ op ∈ sp_parsers) then
               Some (CustomSingleRequest msg req_id)
             else Some (CustomConsensusRequest msg req_id)
         | _ => None
         end
  | PoolTimeoutEvent req_id node_alias => Ok (Some (RETimeout req_id node_alias))
  | _ => Ok None
  end.
End into.

(** ** Toy libraries to run the development on *)
Module ToyPool.
#[export] Instance machine : Machine := debug_machine.
#[export] Instance order : HashOrder := key_order.

(** Base58 that does nothing. *)
#[export] Instance base58 : Base58 :=
  {| to_base58 := string_of_bytes; from_base58 := fun s => Some (as_bytes s) |}.

(** Every text is an object with itself as the result; as a request it has its length as
    the number. *)
#[export] Instance json_text : JsonText :=
  {| from_str := fun s => Some (Object
       [("operation"%string, Object [("type"%string, String_ "1")]);
        ("reqId"%string, Number (PosInt (N.of_nat (String.length s))));
        ("result"%string, String_ s)]);
     to_string := fun v => match as_str (index v "result") with Some s => s | None => ""%string end |}.

#[export] Instance codecs : PoolCodecs := {|
  message_from_json := fun s => Some (MReply (ReplyV0 (mk_response_metadata 1)));
  message_to_json := fun _ => Some "{}"%string;
  strings_from_json := fun s => Some [s];
  rmp_to_vec_named := fun v => match index v "result" with String_ s => Some (as_bytes s) | _ => None end;
  rmp_node_transaction := fun b =>
    match b with
    | [] => None
    | _ => Some (Txn_V1 (mk_v1
        (mk_txn "0" None
           (mk_txn_data (mk_node_data (string_of_bytes b) (Some "ip"%string) (Some 9701%N) None None
              (Some ["VALIDATOR"%string]) None None) (string_of_bytes b) None)
           (mk_txn_metadata None "")) (mk_metadata None None None) (mk_rs None None) "1"))
    end |}.

#[export] Instance bls : Bls :=
  {| VerKey := bytes; Generator := unit; default_generator := (); verkey_from_bytes := Some |}.
End ToyPool.
