(* ===== verification/Encryption.v ===== *)
(** * Encryption: the encryption of wallet records

    Models [libindy/src/services/wallet/encryption.rs], the keys and the encrypted values
    of [services/wallet/wallet.rs], the data of [services/wallet/storage/mod.rs], and the
    types of [utils/crypto/sodium_type.rs].  The ciphers are libsodium's: classes, with
    what is relied on of them (opening what was sealed, the lengths).  Random keys and
    nonces are arguments.  Overwriting secrets in memory is dropped. *)

From Stdlib Require Import Strings.Ascii.
From S2P Require Import Prelude Errors PoolTypes.

(** ** Byte arrays of a fixed length: [sodium_type!] *)

Record array_u8 (n : nat) := Arr {
  arr_bytes : bytes;
  arr_len : (length arr_bytes =? n) = true;
}.
Arguments Arr {n} arr_bytes arr_len.
Arguments arr_bytes {n} a.

Lemma arr_length {n} (a : array_u8 n) : length (arr_bytes a) = n.
Proof. apply Nat.eqb_eq, arr_len. Qed.

Lemma arr_eq {n} (a b : array_u8 n) : arr_bytes a = arr_bytes b -> a = b.
Proof.
  destruct a as [x Hx], b as [y Hy]. cbn. intros <-. f_equal. apply Eqdep_dec.UIP_dec, bool_eq_dec.
Qed.

#[export] Instance array_u8_eq_dec {n} : EqDecision (array_u8 n).
Proof.
  intros a b. refine (cast_if (decide (arr_bytes a = arr_bytes b))); abstract (first [by apply arr_eq|congruence]).
Defined.

(** [from_slice] *)
Definition from_slice {n} (bs : bytes) : option (array_u8 n) :=
  match bool_dec (length bs =? n) true with
  | left H => Some (Arr bs H)
  | right _ => None
  end.

Lemma from_slice_Some {n} bs (a : array_u8 n) : from_slice bs = Some a <-> arr_bytes a = bs.
Proof.
  unfold from_slice. destruct (bool_dec _ _) as [H|H]; split; try done.
  - by intros [= <-].
  - intros <-. f_equal. by apply arr_eq.
  - intros <-. by rewrite arr_len in H.
Qed.

Lemma from_slice_arr {n} (a : array_u8 n) : from_slice (arr_bytes a) = Some a.
Proof. by apply from_slice_Some. Qed.

Definition KEYBYTES : nat := 32.
Definition NONCEBYTES : nat := 12.
Definition TAGBYTES : nat := 16.
Definition SALTBYTES : nat := 32.

Abbreviation Key := (array_u8 KEYBYTES).
Abbreviation Nonce := (array_u8 NONCEBYTES).
Abbreviation Salt := (array_u8 SALTBYTES).
(** Keys and tags of [hmacsha256] *)
Abbreviation HmacKey := (array_u8 KEYBYTES).
Abbreviation HmacTag := (array_u8 KEYBYTES).

(** ** libsodium *)

Class ChaCha20Poly1305 := {
  seal : bytes -> Nonce -> Key -> bytes;
  open : bytes -> Nonce -> Key -> option bytes;
  open_seal : forall data nonce key, open (seal data nonce key) nonce key = Some data;
  seal_length : forall data nonce key, length (seal data nonce key) = length data + TAGBYTES;
}.

Class HmacSha256 := { authenticate : bytes -> HmacKey -> HmacTag }.

(** [KeyDerivationMethod] of [domain/wallet/mod.rs] *)
Inductive KeyDerivationMethod := RAW | ARGON2I_MOD | ARGON2I_INT.

(** [crypto_pwhash] with the limits of the two methods. *)
Class Argon2i := { pwhash_moderate : bytes -> Salt -> option Key; pwhash_interactive : bytes -> Salt -> option Key }.

(** ** [utils/crypto/chacha20poly1305_ietf/sodium.rs], [pwhash_argon2i13/sodium.rs] *)

Section ciphers.
Context `{ChaCha20Poly1305}.

Definition encrypt (data : bytes) (key : Key) (nonce : Nonce) : bytes := seal data nonce key.

Definition decrypt (data : bytes) (key : Key) (nonce : Nonce) : IndyResult bytes :=
  ok_or (open data nonce key) InvalidStructure.

(** [gen_nonce_and_encrypt], the nonce given *)
Definition gen_nonce_and_encrypt (nonce : Nonce) (data : bytes) (key : Key) : bytes * Nonce :=
  (seal data nonce key, nonce).
End ciphers.

Definition pwhash `{Argon2i} (passwd : bytes) (salt : Salt) (m : KeyDerivationMethod) : IndyResult Key :=
  match m with
  | ARGON2I_MOD => ok_or (pwhash_moderate passwd salt) InvalidState
  | ARGON2I_INT => ok_or (pwhash_interactive passwd salt) InvalidState
  | RAW => Err InvalidStructure
  end.

(** [chacha20poly1305_ietf::derive_key] *)
Definition derive_key `{Argon2i} (passphrase : string) (salt : Salt) (m : KeyDerivationMethod) :
    IndyResult Key := pwhash (as_bytes passphrase) salt m.

(** ** The data of [storage/mod.rs] and [wallet.rs] *)

Module Tag.
Inductive t :=
| Encrypted (name value : bytes)
| PlainText (name : bytes) (value : string).

#[export] Instance eq_dec : EqDecision t.
Proof. solve_decision. Defined.
End Tag.

(** [storage::TagName] *)
Inductive StorageTagName :=
| OfEncrypted (name : bytes)
| OfPlain (name : bytes).

Record EncryptedValue := mk_encrypted_value { ev_data : bytes; ev_key : bytes }.

#[export] Instance EncryptedValue_eq_dec : EqDecision EncryptedValue.
Proof. solve_decision. Defined.

Record StorageRecord := mk_storage_record {
  sr_id : bytes;
  sr_value : option EncryptedValue;
  sr_type : option bytes;
  sr_tags : option (list Tag.t);
}.

(** [WalletRecord] of [services/wallet/mod.rs] *)
Record WalletRecord := mk_wallet_record {
  wr_type : option string;
  wr_id : string;
  wr_value : option string;
  wr_tags : option (gmap string string);
}.

Record Keys := mk_keys {
  type_key : Key;
  name_key : Key;
  value_key : Key;
  item_hmac_key : HmacKey;
  tag_name_key : Key;
  tag_value_key : Key;
  tags_hmac_key : HmacKey;
}.

(** [Metadata] of [domain/wallet/mod.rs] *)
Inductive Metadata :=
| MetadataArgon (keys master_key_salt : bytes)
| MetadataRaw (keys : bytes).

Definition get_keys (m : Metadata) : bytes :=
  match m with MetadataArgon keys _ => keys | MetadataRaw keys => keys end.

(** ** Deriving the master key *)

Inductive KeyDerivationData :=
| Raw (passphrase : string)
| Argon2iMod (passphrase : string) (salt : Salt)
| Argon2iInt (passphrase : string) (salt : Salt).

Definition master_key_salt_from_slice (slice : bytes) : IndyResult Salt :=
  ok_or (from_slice slice) WalletAccessFailed.

(** [from_passphrase_with_new_salt], the salt given *)
Definition from_passphrase_with_new_salt (salt : Salt) (passphrase : string) (m : KeyDerivationMethod) :
    KeyDerivationData :=
  match m with
  | ARGON2I_INT => Argon2iInt passphrase salt
  | ARGON2I_MOD => Argon2iMod passphrase salt
  | RAW => Raw passphrase
  end.

Definition from_passphrase_and_metadata (passphrase : string) (metadata : Metadata) (m : KeyDerivationMethod) :
    IndyResult KeyDerivationData :=
  match m, metadata with
  | RAW, MetadataRaw _ => Ok (Raw passphrase)
  | ARGON2I_INT, MetadataArgon _ salt =>
      master_key_salt ← master_key_salt_from_slice salt; Ok (Argon2iInt passphrase master_key_salt)
  | ARGON2I_MOD, MetadataArgon _ salt =>
      master_key_salt ← master_key_salt_from_slice salt; Ok (Argon2iMod passphrase master_key_salt)
  | _, _ => Err WalletAccessFailed
  end.

Definition _raw_master_key `{Base58} (passphrase : string) : IndyResult Key :=
  bytes ← ok_or (from_base58 passphrase) InvalidStructure;
  ok_or (from_slice bytes) InvalidStructure.

Definition calc_master_key `{Base58} `{Argon2i} (data : KeyDerivationData) : IndyResult Key :=
  match data with
  | Raw passphrase => _raw_master_key passphrase
  | Argon2iInt passphrase salt => derive_key passphrase salt ARGON2I_INT
  | Argon2iMod passphrase salt => derive_key passphrase salt ARGON2I_MOD
  end.

(** ** Encrypting and decrypting *)

(** [Nonce::from_slice(&tag[..NONCEBYTES]).unwrap()]: the tag is longer than a nonce. *)
Program Definition nonce_of_tag (tag : HmacTag) : Nonce := Arr (take NONCEBYTES (arr_bytes tag)) _.
Next Obligation. intros tag. by rewrite length_take, arr_length. Qed.

Section encryption.
Context `{ChaCha20Poly1305} `{HmacSha256}.

Definition encrypt_as_searchable (data : bytes) (key : Key) (hmac_key : HmacKey) : bytes :=
  let nonce := nonce_of_tag (authenticate data hmac_key) in
  arr_bytes nonce ++ encrypt data key nonce.

(** The nonce is fresh in the code; here it is an argument. *)
Definition encrypt_as_not_searchable (nonce : Nonce) (data : bytes) (key : Key) : bytes :=
  let '(ct, nonce) := gen_nonce_and_encrypt nonce data key in
  arr_bytes nonce ++ ct.

(** [&joined_data[..NONCEBYTES]] unwinds when the data is shorter than a nonce. *)
Definition decrypt_merged (joined_data : bytes) (key : Key) : IndyResult bytes :=
  _ ← assert_that (NONCEBYTES <=? length joined_data);
  nonce ← unwrap (from_slice (take NONCEBYTES joined_data));
  decrypt (drop NONCEBYTES joined_data) key nonce.

Definition encrypt_tag_name (tag_name : string) (tag_name_key : Key) (tags_hmac_key : HmacKey) : StorageTagName :=
  if starts_with_tilde tag_name
  then OfPlain (encrypt_as_searchable (drop 1 (as_bytes tag_name)) tag_name_key tags_hmac_key)
  else OfEncrypted (encrypt_as_searchable (as_bytes tag_name) tag_name_key tags_hmac_key).

Definition encrypt_tag_names (tag_names : list string) (tag_name_key : Key) (tags_hmac_key : HmacKey) :
    list StorageTagName :=
  (fun tag_name => encrypt_tag_name tag_name tag_name_key tags_hmac_key) <$> tag_names.

(** One pass of the closure of [encrypt_tags]. *)
Definition encrypt_tag (tag_name_key tag_value_key : Key) (tags_hmac_key : HmacKey) (kv : string * string) : Tag.t :=
  if starts_with_tilde kv.1 then
    Tag.PlainText (encrypt_as_searchable (drop 1 (as_bytes kv.1)) tag_name_key tags_hmac_key) kv.2
  else
    Tag.Encrypted (encrypt_as_searchable (as_bytes kv.1) tag_name_key tags_hmac_key)
      (encrypt_as_searchable (as_bytes kv.2) tag_value_key tags_hmac_key).

Definition encrypt_tags `{HashOrder} (tags : gmap string string)
    (tag_name_key tag_value_key : Key) (tags_hmac_key : HmacKey) : list Tag.t :=
  encrypt_tag tag_name_key tag_value_key tags_hmac_key <$> hash_iter tags.

(** [res.to_indy(kind, ...)?]: an error becomes one of [kind]. *)
Definition to_indy {A} (m : IndyResult A) (kind : IndyErrorKind) : IndyResult A :=
  match m with Err _ => Err kind | m => m end.

Definition decrypt_text (data : bytes) (key : Key) : IndyResult string :=
  bytes ← to_indy (decrypt_merged data key) WalletEncryptionError;
  ok_or (from_utf8 bytes) WalletEncryptionError.

(** The name and the value of one tag. *)
Definition decrypt_tag (tag_name_key tag_value_key : Key) (etag : Tag.t) : IndyResult (string * string) :=
  match etag with
  | Tag.PlainText ename value =>
      name ← decrypt_text ename tag_name_key;
      Ok (("~" +:+ name)%string, value)
  | Tag.Encrypted ename evalue =>
      name ← decrypt_text ename tag_name_key;
      value ← decrypt_text evalue tag_value_key;
      Ok (name, value)
  end.

Definition decrypt_tags (etags : option (list Tag.t)) (tag_name_key tag_value_key : Key) :
    IndyResult (option (gmap string string)) :=
  match etags with
  | None => Ok None
  | Some etags =>
      tags ← foldM (fun tags etag =>
        '(name, value) ← decrypt_tag tag_name_key tag_value_key etag;
        Ok (<[name := value]> tags)) etags (∅ : gmap string string);
      Ok (Some tags)
  end.

(** *** [EncryptedValue] *)

(** [EncryptedValue::encrypt]: a fresh key for the value and two fresh nonces. *)
Definition EncryptedValue_encrypt (value_key : Key) (nonce nonce' : Nonce) (data : string) (key : Key) :
    EncryptedValue :=
  mk_encrypted_value
    (encrypt_as_not_searchable nonce (as_bytes data) value_key)
    (encrypt_as_not_searchable nonce' (arr_bytes value_key) key).

Definition EncryptedValue_decrypt (self : EncryptedValue) (key : Key) : IndyResult string :=
  value_key_bytes ← decrypt_merged (ev_key self) key;
  value_key ← ok_or (from_slice value_key_bytes) InvalidStructure;
  res ← decrypt_merged (ev_data self) value_key;
  ok_or (from_utf8 res) InvalidStructure.

Definition ENCRYPTED_KEY_LEN : nat := TAGBYTES + NONCEBYTES + KEYBYTES.

Definition to_bytes (self : EncryptedValue) : bytes := ev_key self ++ ev_data self.

Definition from_bytes (joined_data : bytes) : IndyResult EncryptedValue :=
  if length joined_data <? ENCRYPTED_KEY_LEN then Err InvalidStructure
  else Ok (mk_encrypted_value (drop ENCRYPTED_KEY_LEN joined_data) (take ENCRYPTED_KEY_LEN joined_data)).

(** *** Records *)

Definition option_mapM {A B} (f : A -> IndyResult B) (o : option A) : IndyResult (option B) :=
  match o with Some a => b ← f a; Ok (Some b) | None => Ok None end.

Definition decrypt_storage_record (record : StorageRecord) (keys : Keys) : IndyResult WalletRecord :=
  decrypted_name ← decrypt_merged (sr_id record) (name_key keys);
  decrypted_name ← ok_or (from_utf8 decrypted_name) WalletEncryptionError;
  decrypted_value ← option_mapM (fun value => EncryptedValue_decrypt value (value_key keys)) (sr_value record);
  decrypted_type ← option_mapM (fun type_ =>
    decrypted_type ← decrypt_merged type_ (type_key keys);
    ok_or (from_utf8 decrypted_type) WalletEncryptionError) (sr_type record);
  decrypted_tags ← decrypt_tags (sr_tags record) (tag_name_key keys) (tag_value_key keys);
  Ok (mk_wallet_record decrypted_type decrypted_name decrypted_value decrypted_tags).
End encryption.

(** ** The keys of a wallet: [rmp_serde] *)
Class KeysCodec := {
  keys_to_vec : Keys -> option bytes;
  keys_from_slice : bytes -> option Keys;
}.

Section keys.
Context `{ChaCha20Poly1305} `{KeysCodec}.

Definition serialize_encrypted (nonce : Nonce) (self : Keys) (master_key : Key) : IndyResult bytes :=
  serialized ← ok_or (keys_to_vec self) InvalidState;
  Ok (encrypt_as_not_searchable nonce serialized master_key).

Definition deserialize_encrypted (bytes : bytes) (master_key : Key) : IndyResult Keys :=
  decrypted ← decrypt_merged bytes master_key;
  ok_or (keys_from_slice decrypted) InvalidStructure.
End keys.

(** ** Lemmas *)

Section lemmas.
Context `{ChaCha20Poly1305} `{HmacSha256}.

Lemma decrypt_merged_app (nonce : Nonce) ct key :
  decrypt_merged (arr_bytes nonce ++ ct) key = decrypt ct key nonce.
Proof.
  unfold decrypt_merged. rewrite length_app, arr_length.
  rewrite (proj2 (Nat.leb_le _ _)) by lia. cbn [assert_that]. unfold mbind, outcome_bind.
  rewrite take_app_length' by (by rewrite arr_length). rewrite from_slice_arr. cbn.
  by rewrite drop_app_length' by (by rewrite arr_length).
Qed.

Lemma decrypt_encrypt data key nonce : decrypt (encrypt data key nonce) key nonce = Ok data.
Proof. unfold decrypt, encrypt. by rewrite open_seal. Qed.

Lemma decrypt_searchable data key hmac_key :
  decrypt_merged (encrypt_as_searchable data key hmac_key) key = Ok data.
Proof. unfold encrypt_as_searchable. by rewrite decrypt_merged_app, decrypt_encrypt. Qed.

Lemma decrypt_not_searchable nonce data key :
  decrypt_merged (encrypt_as_not_searchable nonce data key) key = Ok data.
Proof.
  unfold encrypt_as_not_searchable, gen_nonce_and_encrypt. rewrite decrypt_merged_app.
  exact (decrypt_encrypt data key nonce).
Qed.

(** Equal data and only equal data are encrypted alike: that is what makes it searchable. *)
#[export] Instance encrypt_as_searchable_inj key hmac_key :
  Inj (=) (=) (fun data => encrypt_as_searchable data key hmac_key).
Proof.
  intros d d' He. cbv beta in He. pose proof (decrypt_searchable d key hmac_key) as Hd.
  rewrite He, decrypt_searchable in Hd. by injection Hd.
Qed.

Lemma searchable_inj data data' key hmac_key :
  encrypt_as_searchable data key hmac_key = encrypt_as_searchable data' key hmac_key -> data = data'.
Proof. apply encrypt_as_searchable_inj. Qed.

Lemma decrypt_text_searchable s key hmac_key : is_utf8 s ->
  decrypt_text (encrypt_as_searchable (as_bytes s) key hmac_key) key = Ok s.
Proof. intros Hs. unfold decrypt_text. rewrite decrypt_searchable. cbn. by rewrite from_utf8_as_bytes. Qed.

Lemma is_utf8_tilde s : is_utf8 (String "~"%char s) -> is_utf8 s.
Proof. done. Qed.

Lemma decrypt_encrypt_tag nk vk hk kv : is_utf8 kv.1 -> is_utf8 kv.2 ->
  decrypt_tag nk vk (encrypt_tag nk vk hk kv) = Ok kv.
Proof.
  destruct kv as [k v]. cbn [fst snd]. intros Hk Hv. unfold encrypt_tag. cbn [fst snd].
  destruct (starts_with_tilde k) eqn:Ht; cbn [decrypt_tag].
  - apply starts_with_tilde_spec in Ht as [t ->].
    change (drop 1 (as_bytes (String "~" t))) with (as_bytes t).
    by rewrite decrypt_text_searchable.
  - rewrite decrypt_text_searchable by done. cbn [mbind outcome_bind]. by rewrite decrypt_text_searchable.
Qed.

Lemma foldM_pure {E A B} (f : A -> B -> outcome E A) (g : A -> B -> A) l acc :
  (forall acc x, x ∈ l -> f acc x = Ok (g acc x)) -> foldM f l acc = Ok (foldl g acc l).
Proof.
  revert acc. induction l as [|x l IH]; intros acc Hf; [done|]. cbn.
  rewrite Hf by apply list_elem_of_here. cbn. apply IH. intros acc' y Hy. apply Hf. by right.
Qed.

Lemma encrypted_value_key_length vk n n' s key : length (ev_key (EncryptedValue_encrypt vk n n' s key)) = ENCRYPTED_KEY_LEN.
Proof.
  cbn. unfold encrypt_as_not_searchable, gen_nonce_and_encrypt. rewrite length_app, seal_length, !arr_length. done.
Qed.

Lemma decrypt_encrypted_value vk n n' s key : is_utf8 s ->
  EncryptedValue_decrypt (EncryptedValue_encrypt vk n n' s key) key = Ok s.
Proof.
  intros Hs. unfold EncryptedValue_decrypt, EncryptedValue_encrypt. cbn [ev_key ev_data].
  rewrite decrypt_not_searchable. cbn [mbind outcome_bind]. rewrite from_slice_arr. cbn [mbind outcome_bind ok_or].
  rewrite decrypt_not_searchable. cbn [mbind outcome_bind]. by rewrite from_utf8_as_bytes.
Qed.

(** The tags of a record are texts. *)
Definition tags_utf8 (tags : gmap string string) : Prop := map_Forall (fun k v => is_utf8 k /\ is_utf8 v) tags.

#[export] Instance tags_utf8_dec tags : Decision (tags_utf8 tags).
Proof. unfold tags_utf8, is_utf8. apply _. Defined.

Lemma decrypt_tags_perm nk vk hk tags etags : tags_utf8 tags ->
  etags ≡ₚ encrypt_tag nk vk hk <$> map_to_list tags ->
  decrypt_tags (Some etags) nk vk = Ok (Some tags).
Proof.
  intros Hu Hp. apply Permutation_map_inv in Hp as (l & -> & Hl). unfold decrypt_tags.
  assert (NoDup l.*1) as Hd by (rewrite <-Hl; apply NoDup_fst_map_to_list).
  assert (foldM (fun tags etag => '(name, value) ← decrypt_tag nk vk etag; Ok (<[name := value]> tags))
    (map (encrypt_tag nk vk hk) l) (∅ : gmap string string) = Ok tags) as ->; [|done].
  assert (tags = foldl (fun m kv => <[kv.1 := kv.2]> m) ∅ l) as Ht.
  { rewrite foldl_insert by done. rewrite (right_id_L ∅ (∪)).
    rewrite <-(list_to_map_proper (map_to_list tags) l); [by rewrite list_to_map_to_list|apply NoDup_fst_map_to_list|done]. }
  rewrite Ht. clear Ht Hd. assert (Forall (fun kv => is_utf8 kv.1 /\ is_utf8 kv.2) l) as Hf.
  { rewrite <-Hl. apply Forall_forall. intros [k v] Hkv%elem_of_map_to_list. exact (Hu _ _ Hkv). }
  clear Hl. generalize (∅ : gmap string string). induction Hf as [|[k v] l [Hk Hv] _ IH]; intros m; [done|].
  cbn -[encrypt_tag]. rewrite decrypt_encrypt_tag by done. cbn. apply IH.
Qed.
End lemmas.

(** ** Theorems *)

Section theorems.
Context `{ChaCha20Poly1305} `{HmacSha256}.

(** the tags that [encrypt_tags] makes are decrypted to the tags of the record, in
    whatever order the storage returns them; names may begin with a tilde, and may be
    nothing but one. *)
Theorem tags_roundtrip `{HashOrder} nk vk hk tags etags : tags_utf8 tags ->
  etags ≡ₚ encrypt_tags tags nk vk hk ->
  decrypt_tags (Some etags) nk vk = Ok (Some tags).
Proof.
  intros Hu Hp. apply (decrypt_tags_perm nk vk hk); [done|]. rewrite Hp. unfold encrypt_tags.
  by rewrite hash_iter_perm.
Qed.

(** an encrypted value is read back from its bytes, and decrypted to the value, for
    every value key and all nonces. *)
Theorem encrypted_value_roundtrip vk n n' s key : is_utf8 s ->
  let e := EncryptedValue_encrypt vk n n' s key in
  from_bytes (to_bytes e) = Ok e /\ EncryptedValue_decrypt e key = Ok s.
Proof.
  intros Hs e. split; [|by apply decrypt_encrypted_value].
  unfold from_bytes, to_bytes. pose proof (encrypted_value_key_length vk n n' s key) as Hl. fold e in Hl.
  rewrite length_app, (proj2 (Nat.ltb_ge _ _)) by lia.
  rewrite take_app_length', drop_app_length' by done. by destruct e.
Qed.

(** what decrypting joined data does: fewer bytes than a nonce make it unwind, and
    otherwise it returns or fails with [InvalidStructure]. *)
Theorem decrypt_merged_behaviour data key :
  if length data <? NONCEBYTES then decrypt_merged data key = Panic
  else exists nonce : Nonce, arr_bytes nonce = take NONCEBYTES data /\
    decrypt_merged data key =
      match open (drop NONCEBYTES data) nonce key with Some plain => Ok plain | None => Err InvalidStructure end.
Proof.
  destruct (Nat.ltb_spec (length data) NONCEBYTES) as [Hl|Hl].
  - unfold decrypt_merged. by rewrite (proj2 (Nat.leb_gt _ _)).
  - assert ((length (take NONCEBYTES data) =? NONCEBYTES) = true) as Hn
      by (apply Nat.eqb_eq; rewrite length_take; lia).
    exists (Arr _ Hn). split; [done|]. rewrite <-(take_drop NONCEBYTES data) at 1.
    change (take NONCEBYTES data) with (arr_bytes (Arr _ Hn)) at 1.
    rewrite decrypt_merged_app. unfold decrypt. by destruct (open _ _ _).
Qed.
End theorems.

(** ** Witnesses *)

(** A cipher that writes the nonce and the first bytes of the key before the data. *)
Definition toy_tag (nonce : Nonce) (key : Key) : bytes := arr_bytes nonce ++ take 4 (arr_bytes key).

#[local] Program Instance ToyCipher : ChaCha20Poly1305 := {|
  seal := fun data nonce key => toy_tag nonce key ++ data;
  open := fun data nonce key =>
    if decide (take TAGBYTES data = toy_tag nonce key) then Some (drop TAGBYTES data) else None;
|}.
Next Obligation.
  intros data nonce key. assert (length (toy_tag nonce key) = TAGBYTES) as Hl
    by (unfold toy_tag; by rewrite length_app, length_take, !arr_length).
  cbv beta. by rewrite take_app_length', drop_app_length', decide_True by done.
Qed.
Next Obligation.
  intros data nonce key. unfold toy_tag. rewrite !length_app, length_take, !arr_length.
  unfold NONCEBYTES, KEYBYTES, TAGBYTES. lia.
Qed.

Program Definition pad (n : nat) (b : bytes) : array_u8 n := Arr (take n (b ++ repeat Byte.x00 n)) _.
Next Obligation. intros n b. apply Nat.eqb_eq. rewrite length_take, length_app, repeat_length. lia. Qed.

#[local] Instance ToyHmac : HmacSha256 := {| authenticate := fun data key => pad _ data |}.

Definition toy_key (b : Byte.byte) : array_u8 KEYBYTES := pad _ [b].
Definition toy_nonce (b : Byte.byte) : Nonce := pad _ [b].

Lemma tags_roundtrip_witness :
  decrypt_tags (Some (encrypt_tags (H1:=key_order) {["city" := "Rome"; "~age" := "5"; "~" := ""]}
    (toy_key Byte.x01) (toy_key Byte.x02) (toy_key Byte.x03))) (toy_key Byte.x01) (toy_key Byte.x02)
  = Ok (Some {["city" := "Rome"; "~age" := "5"; "~" := ""]}).
Proof. refine (tags_roundtrip (H1:=key_order) _ _ _ _ _ _ _); [|done]. apply (bool_decide_unpack _). vm_compute. exact I. Defined.

Lemma encrypted_value_roundtrip_witness :
  let e := EncryptedValue_encrypt (toy_key Byte.x07) (toy_nonce Byte.x01) (toy_nonce Byte.x02) "value" (toy_key Byte.x04) in
  from_bytes (to_bytes e) = Ok e /\ EncryptedValue_decrypt e (toy_key Byte.x04) = Ok "value"%string.
Proof. refine (encrypted_value_roundtrip _ _ _ _ _ _). by vm_compute. Defined.

Definition toy_keys : Keys :=
  mk_keys (toy_key Byte.x01) (toy_key Byte.x02) (toy_key Byte.x03) (toy_key Byte.x04)
    (toy_key Byte.x05) (toy_key Byte.x06) (toy_key Byte.x07).
