(* ===== verification/Crypto.v ===== *)
(** * Crypto: keys, signatures and boxes

    Models [libindy/src/services/crypto/mod.rs] and [ed25519.rs], the types of
    [domain/crypto/] and the wrappers of libsodium and base64 in [utils/crypto/].  The
    ciphers themselves are classes; [Ed25519Laws] is what the theorems rely on.  What the
    code draws at random is given: seeds, nonces, the ephemeral keys of sealed boxes.
    Secrets are not overwritten in memory. *)

From Stdlib Require Import Strings.Ascii.
From stdpp Require Import gmap.
From S2P Require Import Prelude Errors PoolTypes Encryption.

(** ** [domain/crypto/] *)

(** [Key] of [domain/crypto/key.rs] *)
Record KeyPair := mk_key { key_verkey : string; key_signkey : string }.
Record KeyInfo := mk_key_info { ki_seed : option string; ki_crypto_type : option string }.
Record KeyMetadata := mk_key_metadata { km_value : string }.

Record MyDidInfo := mk_my_did_info {
  md_did : option string;
  md_seed : option string;
  md_crypto_type : option string;
  md_cid : option bool;
}.
Record TheirDidInfo := mk_their_did_info { ti_did : string; ti_verkey : option string }.
Record Did := mk_did { did_did : string; did_verkey : string }.
Record TheirDid := mk_their_did { td_did : string; td_verkey : string }.

Record ComboBox := mk_combo_box { cb_msg : string; cb_sender : string; cb_nonce : string }.

(** ** libsodium *)

Definition BOX_NONCEBYTES : nat := 24.
Definition SECRETKEYBYTES : nat := 64.
Definition SIGNATUREBYTES : nat := 64.

(** The types of [ed25519_sign] and [ed25519_box] *)
Abbreviation Seed := (array_u8 KEYBYTES).
Abbreviation PublicKey := (array_u8 KEYBYTES).
Abbreviation SecretKey := (array_u8 SECRETKEYBYTES).
Abbreviation Signature := (array_u8 SIGNATUREBYTES).
Abbreviation BoxNonce := (array_u8 BOX_NONCEBYTES).
Abbreviation BoxPublicKey := (array_u8 KEYBYTES).
Abbreviation BoxSecretKey := (array_u8 KEYBYTES).
Abbreviation AeadTag := (array_u8 TAGBYTES).

Class Ed25519 := {
  (** [crypto_sign_seed_keypair], [crypto_sign_detached], [crypto_sign_verify_detached] *)
  keypair_from_seed : Seed -> PublicKey * SecretKey;
  sign_detached : bytes -> SecretKey -> Signature;
  verify_detached : Signature -> bytes -> PublicKey -> bool;
  (** [crypto_sign_ed25519_pk_to_curve25519]: [None] is a return code other than 0, which
      leaves the output as it was *)
  ed25519_pk_to_curve25519 : PublicKey -> option BoxPublicKey;
  ed25519_sk_to_curve25519 : SecretKey -> BoxSecretKey;
  (** [crypto_box] *)
  box_seal : bytes -> BoxNonce -> BoxPublicKey -> BoxSecretKey -> bytes;
  box_open : bytes -> BoxNonce -> BoxPublicKey -> BoxSecretKey -> option bytes;
  (** [crypto_box_seal], with the seed of the ephemeral keys *)
  sealedbox_seal : Seed -> bytes -> BoxPublicKey -> bytes;
  sealedbox_open : bytes -> BoxPublicKey -> BoxSecretKey -> option bytes;
  (** [crypto_aead_chacha20poly1305_ietf] in detached mode: data, associated data *)
  seal_detached : bytes -> bytes -> Nonce -> Key -> bytes * AeadTag;
  open_detached : bytes -> bytes -> AeadTag -> Nonce -> Key -> option bytes;
}.

(** What libsodium documents: a signature of a key pair is verified by it, and boxes are
    opened by the key pairs that they were made for. *)
Class Ed25519Laws `{Ed25519} := {
  keypair_on_curve : forall seed, is_Some (ed25519_pk_to_curve25519 (keypair_from_seed seed).1);
  verify_signed : forall seed msg,
    verify_detached (sign_detached msg (keypair_from_seed seed).2) msg (keypair_from_seed seed).1 = true;
  box_opens : forall seed seed' msg nonce pk pk',
    ed25519_pk_to_curve25519 (keypair_from_seed seed).1 = Some pk ->
    ed25519_pk_to_curve25519 (keypair_from_seed seed').1 = Some pk' ->
    box_open (box_seal msg nonce pk' (ed25519_sk_to_curve25519 (keypair_from_seed seed).2)) nonce pk
      (ed25519_sk_to_curve25519 (keypair_from_seed seed').2) = Some msg;
  sealedbox_opens : forall ephemeral seed msg pk,
    ed25519_pk_to_curve25519 (keypair_from_seed seed).1 = Some pk ->
    sealedbox_open (sealedbox_seal ephemeral msg pk) pk (ed25519_sk_to_curve25519 (keypair_from_seed seed).2) = Some msg;
  (** opening recomputes the tag and is the inverse of sealing *)
  open_detached_iff : forall ciphertext ad tag nonce key msg,
    open_detached ciphertext ad tag nonce key = Some msg <-> seal_detached msg ad nonce key = (ciphertext, tag);
}.

(** ** The libraries of texts: [base64], [hex], [rmp_serde] *)

Class CryptoTexts := {
  encode64 : bytes -> string;
  decode64 : string -> option bytes;
  encode64_urlsafe : bytes -> string;
  decode64_urlsafe : string -> option bytes;
  from_hex : string -> option bytes;
  combo_to_msg_pack : ComboBox -> option bytes;
  combo_from_msg_pack : bytes -> option ComboBox;
}.

Class CryptoTextsLaws `{Base58} `{CryptoTexts} := {
  from_to_base58 : forall b, from_base58 (to_base58 b) = Some b;
  to_base58_plain : forall b, contains_char ":"%char (to_base58 b) = false /\ starts_with_tilde (to_base58 b) = false;
  to_base58_utf8 : forall b, is_utf8 (to_base58 b);
  decode_encode64 : forall b, decode64 (encode64 b) = Some b;
  decode_encode64_urlsafe : forall b, decode64_urlsafe (encode64_urlsafe b) = Some b;
  encode64_urlsafe_utf8 : forall b, is_utf8 (encode64_urlsafe b);
  combo_roundtrip : forall c, exists b, combo_to_msg_pack c = Some b /\ combo_from_msg_pack b = Some c;
}.

Section crypto.
Context `{Ed25519} `{Base58} `{CryptoTexts}.

(** [base64::decode], [base64::decode_urlsafe], [from_slice] *)
Definition base64_decode (doc : string) : IndyResult bytes := ok_or (decode64 doc) InvalidStructure.
Definition decode_urlsafe (doc : string) : IndyResult bytes := ok_or (decode64_urlsafe doc) InvalidStructure.
Definition array_from_slice {n} (bs : bytes) : IndyResult (array_u8 n) := ok_or (from_slice bs) InvalidStructure.

(** ** [utils/crypto/ed25519_sign/sodium.rs] *)

Definition create_key_pair_for_signature (randombytes : Seed) (seed : option Seed) : IndyResult (PublicKey * SecretKey) :=
  Ok (keypair_from_seed (default randombytes seed)).

Program Definition zeroes {n} : array_u8 n := Arr (repeat Byte.x00 n) _.
Next Obligation. intros n. apply Nat.eqb_eq, repeat_length. Qed.

(** The return code is not looked at: the output stays zero. *)
Definition vk_to_curve25519 (pk : PublicKey) : BoxPublicKey := default zeroes (ed25519_pk_to_curve25519 pk).
Definition sk_to_curve25519 (sk : SecretKey) : BoxSecretKey := ed25519_sk_to_curve25519 sk.

(** ** [services/crypto/ed25519.rs] *)

(** The trait [CryptoType] *)
Record CryptoType := mk_crypto_type {
  ct_crypto_box : SecretKey -> PublicKey -> bytes -> BoxNonce -> IndyResult bytes;
  ct_crypto_box_open : SecretKey -> PublicKey -> bytes -> BoxNonce -> IndyResult bytes;
  ct_create_key : Seed -> option Seed -> IndyResult (PublicKey * SecretKey);
  ct_validate_key : PublicKey -> IndyResult unit;
  ct_sign : SecretKey -> bytes -> IndyResult Signature;
  ct_verify : PublicKey -> bytes -> Signature -> IndyResult bool;
  ct_crypto_box_seal : Seed -> PublicKey -> bytes -> IndyResult bytes;
  ct_crypto_box_seal_open : PublicKey -> SecretKey -> bytes -> IndyResult bytes;
}.

Definition ED25519CryptoType : CryptoType := {|
  ct_crypto_box := fun sk vk doc nonce => Ok (box_seal doc nonce (vk_to_curve25519 vk) (sk_to_curve25519 sk));
  ct_crypto_box_open := fun sk vk doc nonce =>
    ok_or (box_open doc nonce (vk_to_curve25519 vk) (sk_to_curve25519 sk)) InvalidStructure;
  ct_create_key := create_key_pair_for_signature;
  ct_validate_key := fun _ => Ok tt;
  ct_sign := fun sk doc => Ok (sign_detached doc sk);
  ct_verify := fun vk doc signature => Ok (verify_detached signature doc vk);
  ct_crypto_box_seal := fun ephemeral vk doc => Ok (sealedbox_seal ephemeral doc (vk_to_curve25519 vk));
  ct_crypto_box_seal_open := fun vk sk doc =>
    ok_or (sealedbox_open doc (vk_to_curve25519 vk) (sk_to_curve25519 sk)) InvalidStructure;
|}.

(** ** [services/crypto/mod.rs] *)

Definition DEFAULT_CRYPTO_TYPE : string := "ed25519".

Record CryptoService := mk_crypto_service { crypto_types : gmap string CryptoType }.

Definition CryptoService_new : CryptoService := mk_crypto_service {[DEFAULT_CRYPTO_TYPE := ED25519CryptoType]}.

(** The crypto types of the service, or [UnknownCrypto] *)
Definition crypto_type_of (self : CryptoService) (crypto_type_name : string) : IndyResult CryptoType :=
  ok_or (crypto_types self !! crypto_type_name) UnknownCrypto.

(** A verkey with a suffix [:type] is taken apart, one without has the default type. *)
Definition split_verkey (vk : string) : IndyResult (string * string) :=
  if contains_char ":"%char vk then
    let splits := split_on ":"%char vk in
    s0 ← unwrap (splits !! 0); s1 ← unwrap (splits !! 1); Ok (s0, s1)
  else Ok (vk, DEFAULT_CRYPTO_TYPE).

(** [seed.ends_with('=')] *)
Definition ends_with_equals (s : string) : bool := bool_decide (last (as_bytes s) = Some Byte.x3d).

Definition convert_seed (seed : option string) : IndyResult (option Seed) :=
  match seed with
  | None => Ok None
  | Some seed =>
      bytes ← (if decide (length (as_bytes seed) = KEYBYTES) then Ok (as_bytes seed)
        else if ends_with_equals seed then base64_decode seed
        else if decide (length (as_bytes seed) = KEYBYTES * 2) then ok_or (from_hex seed) InvalidStructure
        else Err InvalidStructure);
      res ← array_from_slice bytes;
      Ok (Some res)
  end.

(** The verkey's text: the type is stored in a suffix when it is not the default. *)
Definition verkey_text (vk : PublicKey) (crypto_type_name : string) : string :=
  let vk := to_base58 (arr_bytes vk) in
  if decide (crypto_type_name = DEFAULT_CRYPTO_TYPE) then vk else (vk +:+ ":" +:+ crypto_type_name)%string.

Definition create_key (self : CryptoService) (randombytes : Seed) (key_info : KeyInfo) : IndyResult KeyPair :=
  let crypto_type_name := default DEFAULT_CRYPTO_TYPE (ki_crypto_type key_info) in
  crypto_type ← crypto_type_of self crypto_type_name;
  seed ← convert_seed (ki_seed key_info);
  '(vk, sk) ← ct_create_key crypto_type randombytes seed;
  Ok (mk_key (verkey_text vk crypto_type_name) (to_base58 (arr_bytes sk))).

Definition validate_did (did : string) : IndyResult unit :=
  did ← base58_decode did;
  if decide (length did <> 16 /\ length did <> 32) then Err InvalidStructure else Ok tt.

Definition create_my_did (self : CryptoService) (randombytes : Seed) (my_did_info : MyDidInfo) : IndyResult (Did * KeyPair) :=
  let crypto_type_name := default DEFAULT_CRYPTO_TYPE (md_crypto_type my_did_info) in
  crypto_type ← crypto_type_of self crypto_type_name;
  seed ← convert_seed (md_seed my_did_info);
  '(vk, sk) ← ct_create_key crypto_type randombytes seed;
  did ← match md_did my_did_info with
    | Some did => _ ← validate_did did; base58_decode did
    | None => if decide (md_cid my_did_info = Some true) then Ok (arr_bytes vk) else Ok (take 16 (arr_bytes vk))
    end;
  let did := to_base58 did in
  let sk := to_base58 (arr_bytes sk) in
  let vk := verkey_text vk crypto_type_name in
  Ok (mk_did did vk, mk_key vk sk).

Definition validate_key (self : CryptoService) (vk : string) : IndyResult unit :=
  '(vk, crypto_type_name) ← split_verkey vk;
  crypto_type ← crypto_type_of self crypto_type_name;
  match vk with
  | String "~"%char tail => _ ← base58_decode tail; Ok tt
  | _ =>
      vk ← base58_decode vk;
      vk ← array_from_slice vk;
      ct_validate_key crypto_type vk
  end.

Definition create_their_did (self : CryptoService) (their_did_info : TheirDidInfo) : IndyResult TheirDid :=
  _ ← base58_decode (ti_did their_did_info);
  verkey ← build_full_verkey (ti_did their_did_info) (ti_verkey their_did_info);
  _ ← validate_key self verkey;
  Ok (mk_their_did (ti_did their_did_info) verkey).

Definition sign (self : CryptoService) (my_key : KeyPair) (doc : bytes) : IndyResult bytes :=
  '(_, crypto_type_name) ← split_verkey (key_verkey my_key);
  crypto_type ← crypto_type_of self crypto_type_name;
  my_sk ← base58_decode (key_signkey my_key);
  my_sk ← array_from_slice my_sk;
  signature ← ct_sign crypto_type my_sk doc;
  Ok (arr_bytes signature).

Definition verify (self : CryptoService) (their_vk : string) (msg signature : bytes) : IndyResult bool :=
  '(their_vk, crypto_type_name) ← split_verkey their_vk;
  crypto_type ← crypto_type_of self crypto_type_name;
  their_vk ← base58_decode their_vk;
  their_vk ← array_from_slice their_vk;
  signature ← array_from_slice signature;
  ct_verify crypto_type their_vk msg signature.

(** The crypto type of both keys of a box, with their key *)
Definition box_crypto_type (self : CryptoService) (my_key : KeyPair) (their_vk : string) : IndyResult (CryptoType * string) :=
  '(_, crypto_type_name) ← split_verkey (key_verkey my_key);
  '(their_vk, their_crypto_type_name) ← split_verkey their_vk;
  crypto_type ← crypto_type_of self crypto_type_name;
  if decide (crypto_type_name = their_crypto_type_name) then Ok (crypto_type, their_vk) else Err UnknownCrypto.

Definition crypto_box (self : CryptoService) (gen_nonce : BoxNonce) (my_key : KeyPair) (their_vk : string) (doc : bytes) :
    IndyResult (bytes * bytes) :=
  '(crypto_type, their_vk) ← box_crypto_type self my_key their_vk;
  my_sk ← base58_decode (key_signkey my_key);
  my_sk ← array_from_slice my_sk;
  their_vk ← base58_decode their_vk;
  their_vk ← array_from_slice their_vk;
  encrypted_doc ← ct_crypto_box crypto_type my_sk their_vk doc gen_nonce;
  Ok (encrypted_doc, arr_bytes gen_nonce).

Definition crypto_box_open (self : CryptoService) (my_key : KeyPair) (their_vk : string) (doc nonce : bytes) : IndyResult bytes :=
  '(crypto_type, their_vk) ← box_crypto_type self my_key their_vk;
  my_sk ← base58_decode (key_signkey my_key);
  my_sk ← array_from_slice my_sk;
  their_vk ← base58_decode their_vk;
  their_vk ← array_from_slice their_vk;
  nonce ← array_from_slice nonce;
  ct_crypto_box_open crypto_type my_sk their_vk doc nonce.

Definition create_combo_box (self : CryptoService) (gen_nonce : BoxNonce) (my_key : KeyPair) (their_vk : string) (doc : bytes) :
    IndyResult ComboBox :=
  '(msg, nonce) ← crypto_box self gen_nonce my_key their_vk doc;
  Ok (mk_combo_box (encode64 msg) (key_verkey my_key) (encode64 nonce)).

Definition crypto_box_seal (self : CryptoService) (ephemeral : Seed) (their_vk : string) (doc : bytes) : IndyResult bytes :=
  '(their_vk, crypto_type_name) ← split_verkey their_vk;
  crypto_type ← crypto_type_of self crypto_type_name;
  their_vk ← base58_decode their_vk;
  their_vk ← array_from_slice their_vk;
  ct_crypto_box_seal crypto_type ephemeral their_vk doc.

Definition crypto_box_seal_open (self : CryptoService) (my_key : KeyPair) (doc : bytes) : IndyResult bytes :=
  '(my_vk, crypto_type_name) ← split_verkey (key_verkey my_key);
  crypto_type ← crypto_type_of self crypto_type_name;
  my_vk ← base58_decode my_vk;
  my_vk ← array_from_slice my_vk;
  my_sk ← base58_decode (key_signkey my_key);
  my_sk ← array_from_slice my_sk;
  ct_crypto_box_seal_open crypto_type my_vk my_sk doc.

(** [chacha20poly1305_ietf::gen_nonce_and_encrypt_detached], [decrypt_detached] *)
Definition gen_nonce_and_encrypt_detached (gen_nonce : Nonce) (data aad : bytes) (key : Key) : bytes * Nonce * AeadTag :=
  let '(plain, tag) := seal_detached data aad gen_nonce key in (plain, gen_nonce, tag).

Definition decrypt_detached (data : bytes) (key : Key) (nonce : Nonce) (tag : AeadTag) (ad : bytes) : IndyResult bytes :=
  ok_or (open_detached data ad tag nonce key) InvalidStructure.

(** The ciphertext, the nonce and the tag, as texts *)
Definition encrypt_plaintext (gen_nonce : Nonce) (plaintext : bytes) (aad : string) (cek : Key) : string * string * string :=
  let '(ciphertext, iv, tag) := gen_nonce_and_encrypt_detached gen_nonce plaintext (as_bytes aad) cek in
  (encode64_urlsafe ciphertext, encode64_urlsafe (arr_bytes iv), encode64_urlsafe (arr_bytes tag)).

(** [map_err] to another kind *)
Definition map_err {A} (kind : IndyErrorKind) (m : IndyResult A) : IndyResult A :=
  match m with Err _ => Err kind | m => m end.

Definition decrypt_ciphertext (ciphertext aad iv tag : string) (cek : Key) : IndyResult string :=
  ciphertext_as_bytes ← map_err InvalidStructure (decode_urlsafe ciphertext);
  nonce_as_slice ← map_err InvalidStructure (decode_urlsafe iv);
  nonce ← map_err InvalidStructure (array_from_slice nonce_as_slice);
  tag_as_slice ← map_err InvalidStructure (decode_urlsafe tag);
  tag ← map_err InvalidStructure (array_from_slice tag_as_slice);
  plaintext_bytes ← map_err UnknownCrypto (decrypt_detached ciphertext_as_bytes cek nonce tag (as_bytes aad));
  ok_or (from_utf8 plaintext_bytes) InvalidStructure.
End crypto.
