(* ===== verification/QueryEncryption.v ===== *)
(** * QueryEncryption: encrypting a query

    Models [libindy/src/services/wallet/query_encryption.rs], and relates what an
    encrypted query means on the encrypted tags of a record to what the query means on
    the record. *)

From S2P Require Import Prelude Errors Json Wql PoolTypes Encryption.

Section query_encryption.
Context `{ChaCha20Poly1305} `{HmacSha256}.

Definition encrypt_name_value (name : TagName) (value : TargetValue) (keys : Keys) :
    IndyResult (TagName * TargetValue) :=
  match name, value with
  | EncryptedTagName name, Unencrypted s =>
      let encrypted_tag_name := encrypt_as_searchable name (tag_name_key keys) (tags_hmac_key keys) in
      let encrypted_tag_value := encrypt_as_searchable (as_bytes s) (tag_value_key keys) (tags_hmac_key keys) in
      Ok (EncryptedTagName encrypted_tag_name, Encrypted encrypted_tag_value)
  | PlainTagName name, Unencrypted s =>
      let encrypted_tag_name := encrypt_as_searchable name (tag_name_key keys) (tags_hmac_key keys) in
      Ok (PlainTagName encrypted_tag_name, Unencrypted s)
  | _, _ => Err WalletQueryError
  end.

(** The name of an [$in], which is encrypted before the values. *)
Definition encrypt_in_name (name : TagName) (keys : Keys) : TagName :=
  match name with
  | EncryptedTagName name => EncryptedTagName (encrypt_as_searchable name (tag_name_key keys) (tags_hmac_key keys))
  | PlainTagName name => PlainTagName (encrypt_as_searchable name (tag_name_key keys) (tags_hmac_key keys))
  end.

Definition encrypt_pair (op : TagName -> TargetValue -> Operator.t) (name : TagName) (value : TargetValue)
    (keys : Keys) : IndyResult Operator.t :=
  '(encrypted_name, encrypted_value) ← encrypt_name_value name value keys;
  Ok (op encrypted_name encrypted_value).

Definition encrypt_operator (keys : Keys) (op : Operator.t) : IndyResult Operator.t :=
  match op with
  | Operator.Eq name value => encrypt_pair Operator.Eq name value keys
  | Operator.Neq name value => encrypt_pair Operator.Neq name value keys
  | Operator.Gt name value => encrypt_pair Operator.Gt name value keys
  | Operator.Gte name value => encrypt_pair Operator.Gte name value keys
  | Operator.Lt name value => encrypt_pair Operator.Lt name value keys
  | Operator.Lte name value => encrypt_pair Operator.Lte name value keys
  | Operator.Like name value => encrypt_pair Operator.Like name value keys
  | Operator.In name values =>
      let name := encrypt_in_name name keys in
      encrypted_values ← mapM (fun value => p ← encrypt_name_value name value keys; Ok p.2) values;
      Ok (Operator.In name encrypted_values)
  | _ => Ok op
  end.

Definition encrypt_query (operator : Operator.t) (keys : Keys) : IndyResult Operator.t :=
  Operator.transform (encrypt_operator keys) operator.
End query_encryption.

(** ** The rows of a stored record *)

Definition stored_row (tag : Tag.t) : TagRow :=
  match tag with
  | Tag.Encrypted name value => (EncryptedTagName name, Encrypted value)
  | Tag.PlainText name value => (PlainTagName name, Unencrypted value)
  end.

Definition stored_rows (etags : list Tag.t) : list TagRow := stored_row <$> etags.

(** A query that the storage can run: values of the kind of their tags, only plain tags
    ordered. *)
Definition same_kind (n : TagName) (v : TargetValue) : bool :=
  match n, v with
  | EncryptedTagName _, Encrypted _ | PlainTagName _, Unencrypted _ => true
  | _, _ => false
  end.

Fixpoint storable (op : Operator.t) : bool :=
  match op with
  | Operator.And l | Operator.Or l => forallb storable l
  | Operator.Not op => storable op
  | Operator.Eq n v | Operator.Neq n v => same_kind n v
  | Operator.Gt n v | Operator.Gte n v | Operator.Lt n v | Operator.Lte n v | Operator.Like n v =>
      is_plain n && is_unencrypted v
  | Operator.In n vs => forallb (same_kind n) vs
  end.

Section facts.
Context `{ChaCha20Poly1305} `{HmacSha256} `{LikePattern}.
Variable keys : Keys.

(** The encrypted form of a name, and of a value of a tag with that name. *)
Definition enc_name (n : TagName) : TagName := encrypt_in_name n keys.

Definition enc_value (n : TagName) (v : TargetValue) : TargetValue :=
  match n, v with
  | EncryptedTagName _, Unencrypted s =>
      Encrypted (encrypt_as_searchable (as_bytes s) (tag_value_key keys) (tags_hmac_key keys))
  | _, v => v
  end.

Definition enc_row (r : TagRow) : TagRow := (enc_name r.1, enc_value r.1 r.2).

#[local] Instance enc_name_inj : Inj (=) (=) enc_name.
Proof.
  intros [n|n] [m|m]; unfold enc_name, encrypt_in_name; intros He; simplify_eq;
    by apply searchable_inj in He as ->.
Qed.

Lemma enc_value_inj n v w : is_unencrypted v -> is_unencrypted w -> enc_value n v = enc_value n w -> v = w.
Proof.
  destruct n as [n|n], v as [s|], w as [t|]; unfold enc_value; try done; intros _ _ He; simplify_eq; try done.
  apply searchable_inj, (inj as_bytes) in He. by subst.
Qed.

Lemma stored_rows_encrypted nk vk hk tags :
  nk = tag_name_key keys -> vk = tag_value_key keys -> hk = tags_hmac_key keys ->
  stored_rows (encrypt_tag nk vk hk <$> map_to_list tags) = enc_row <$> tag_rows tags.
Proof.
  intros -> -> ->. unfold stored_rows, tag_rows. rewrite <-!list_fmap_compose. apply list_fmap_ext.
  intros i [k v] _. cbn [compose]. unfold compose, encrypt_tag, tag_row, enc_row, name_of. cbn [fst snd].
  by destruct (starts_with_tilde k).
Qed.

(** Rows with texts for values, as records have them. *)
Definition text_rows (rows : list TagRow) : Prop := Forall (fun r => is_unencrypted r.2) rows.

Lemma tag_rows_text tags : text_rows (tag_rows tags).
Proof. unfold text_rows, tag_rows. apply Forall_fmap, Forall_true. by intros []. Qed.

Lemma tag_holds_encrypted rows n p q : text_rows rows ->
  (forall v, is_unencrypted v -> q (enc_value n v) = p v) ->
  tag_holds (enc_row <$> rows) (enc_name n) q = tag_holds rows n p.
Proof.
  intros Hr Hpq. unfold tag_holds. induction Hr as [|[m v] rows Hv _ IH]; [done|]. cbn -[enc_name enc_value].
  rewrite IH. f_equal. destruct (decide (m = n)) as [->|Hne].
  - rewrite !bool_decide_true by done. by apply Hpq.
  - by rewrite !bool_decide_false by (done || by intros ?%(inj enc_name)).
Qed.

Lemma encrypt_name_value_spec n v : is_unencrypted v ->
  encrypt_name_value n v keys = Ok (enc_name n, enc_value n v).
Proof. by destruct n, v. Qed.

Lemma encrypt_pair_spec op n v : is_unencrypted v ->
  encrypt_pair op n v keys = Ok (op (enc_name n) (enc_value n v)).
Proof. intros Hv. unfold encrypt_pair. by rewrite encrypt_name_value_spec. Qed.

Lemma enc_value_plain n v : is_plain n -> enc_value n v = v.
Proof. by destruct n, v. Qed.

Lemma same_kind_enc n v : is_unencrypted v -> same_kind (enc_name n) (enc_value n v) = true.
Proof. by destruct n, v. Qed.

Lemma encrypt_values n vs : forallb is_unencrypted vs = true ->
  mapM (fun v => p ← encrypt_name_value (enc_name n) v keys; Ok p.2) vs = Ok (enc_value n <$> vs).
Proof.
  intros Hvs. apply mapM_pure. intros v Hv. rewrite encrypt_name_value_spec; [by destruct n|].
  rewrite forallb_forall in Hvs. by rewrite Hvs by (by apply list_elem_of_In).
Qed.

(** What encrypting makes of a query. *)
Definition encrypts_to (op op' : Operator.t) : Prop :=
  storable op' = true /\ forall rows, text_rows rows -> sat (enc_row <$> rows) op' = sat rows op.

Lemma encrypts_tag op op' n p q :
  storable op' = true -> (forall rows, sat rows op = tag_holds rows n p) ->
  (forall rows, sat rows op' = tag_holds rows (enc_name n) q) ->
  (forall v, is_unencrypted v -> q (enc_value n v) = p v) -> encrypts_to op op'.
Proof. intros Hs Hp Hq He. split; [done|]. intros rows Hr. rewrite Hp, Hq. by apply tag_holds_encrypted. Qed.

Lemma encrypts_plain op n v c :
  (forall n v, storable (op n v) = is_plain n && is_unencrypted v) ->
  (forall rows n v, sat rows (op n v) = tag_holds rows n (text_cmp c v)) ->
  is_plain n = true -> is_unencrypted v = true ->
  encrypts_to (op n v) (op (enc_name n) (enc_value n v)).
Proof.
  intros Hs Hc Hn Hv. eapply encrypts_tag; [|intros; apply Hc|intros; apply Hc|].
  - rewrite Hs. by destruct n, v.
  - intros w _. by rewrite !enc_value_plain by (by rewrite Hn).
Qed.

Lemma enc_value_eq n v w : is_unencrypted v = true -> is_unencrypted w ->
  enc_value n w = enc_value n v <-> w = v.
Proof. intros Hv Hw. split; [|by intros ->]. apply enc_value_inj; [done|by rewrite Hv]. Qed.

Lemma encrypt_leaf op : Operator.is_leaf op = true -> well_typed op = true ->
  exists op', encrypt_operator keys op = Ok op' /\ encrypts_to op op'.
Proof.
  destruct op as [| | |n v|n v|n v|n v|n v|n v|n v|n vs]; try done; intros _; cbn [well_typed];
    rewrite !andb_true_iff; intros Hw; destruct_and?; cbn [encrypt_operator];
    rewrite ?encrypt_pair_spec by (by apply Is_true_true); eauto using encrypts_plain.
  - eexists. split; [done|]. eapply encrypts_tag; [|done|done|].
    + apply same_kind_enc. by apply Is_true_true.
    + intros w Hw. apply bool_decide_ext. by apply enc_value_eq.
  - eexists. split; [done|]. eapply encrypts_tag; [|done|done|].
    + apply same_kind_enc. by apply Is_true_true.
    + intros w Hw. apply bool_decide_ext. by rewrite enc_value_eq.
  - change (encrypt_in_name n keys) with (enc_name n). rewrite encrypt_values by done.
    eexists. split; [done|]. rewrite forallb_forall in *. eapply encrypts_tag; [|done|done|].
    + cbn. rewrite forallb_forall. intros w' Hw'. apply list_elem_of_In, list_elem_of_fmap in Hw' as (w & -> & Hw).
      apply same_kind_enc, Is_true_true, H3. by apply list_elem_of_In.
    + intros w Hw. apply bool_decide_ext. rewrite list_elem_of_fmap. split; [|eauto].
      intros (v & He & Hv). apply enc_value_inj in He as ->; [done..|].
      apply Is_true_true, H3. by apply list_elem_of_In.
Qed.

Lemma encrypts_list l : Forall (fun op => well_typed op = true ->
    exists op', encrypt_query op keys = Ok op' /\ encrypts_to op op') l ->
  forallb well_typed l = true ->
  exists l', mapM (Operator.transform (encrypt_operator keys)) l = Ok l' /\ Forall2 encrypts_to l l'.
Proof.
  induction 1 as [|op l Hop _ IH]; cbn [forallb mapM]; [by eexists|]. intros [Hw Hl]%andb_true_iff.
  destruct (Hop Hw) as (op' & Hq & He), (IH Hl) as (l' & Hm & Hf).
  unfold encrypt_query in Hq. rewrite Hq. cbn. rewrite Hm. cbn. eauto.
Qed.

Lemma encrypts_lists l l' : Forall2 encrypts_to l l' ->
  encrypts_to (Operator.And l) (Operator.And l') /\ encrypts_to (Operator.Or l) (Operator.Or l').
Proof.
  intros Hl. assert (forallb storable l' = true) as Hs.
  { induction Hl as [|x y l l' [Hx _] _ IH]; cbn; [done|]. by rewrite Hx, IH. }
  split; split; try done; intros rows Hr; cbn; [apply forallb_Forall2|apply existsb_Forall2];
    (eapply Forall2_impl; [exact Hl|]); intros x y [_ Hxy]; by apply Hxy.
Qed.

Lemma encrypt_query_spec op : well_typed op = true ->
  exists op', encrypt_query op keys = Ok op' /\ encrypts_to op op'.
Proof.
  induction op as [l IH|l IH|op IH|op Hop] using Operator.operator_ind; intros Hw.
  1-2: destruct (encrypts_list _ IH Hw) as (l' & Hm & Hl); unfold encrypt_query;
    cbn [Operator.transform]; rewrite Hm; cbn; apply encrypts_lists in Hl as [? ?]; eauto.
  - destruct (IH Hw) as (op' & Hq & Hs & He). unfold encrypt_query in *. cbn [Operator.transform].
    rewrite Hq. cbn. eexists. split; [done|]. split; [done|]. intros rows Hr. cbn. by rewrite He.
  - destruct (encrypt_leaf _ Hop Hw) as (op' & Hq & He). exists op'. split; [|done].
    unfold encrypt_query. by destruct op.
Qed.
End facts.

(** ** Theorems *)

(** C26: a query of the parser is encrypted to one that the storage can run, and a record
    satisfies the query exactly when its encrypted tags satisfy the encrypted query, in
    whatever order the tags were encrypted. *)
Theorem search_faithful `{ChaCha20Poly1305} `{HmacSha256} `{LikePattern} `{HashOrder} op keys :
  well_typed op = true ->
  exists op', encrypt_query op keys = Ok op' /\ storable op' = true /\
    forall tags, sat (stored_rows (encrypt_tags tags (tag_name_key keys) (tag_value_key keys) (tags_hmac_key keys))) op'
      = sat (tag_rows tags) op.
Proof.
  intros Hw. destruct (encrypt_query_spec keys op Hw) as (op' & Hq & Hs & He).
  exists op'. split; [done|]. split; [done|]. intros tags. rewrite <-He by apply tag_rows_text.
  rewrite <-(stored_rows_encrypted keys _ _ _ _ eq_refl eq_refl eq_refl).
  apply sat_perm. unfold encrypt_tags, stored_rows. by rewrite hash_iter_perm.
Qed.

(** ** Witness *)

Lemma search_faithful_witness :
  well_typed sample_operator = true /\
  exists op', encrypt_query (H:=ToyCipher) (H0:=ToyHmac) sample_operator toy_keys = Ok op' /\
    sat (H:=ToyLike) (stored_rows (encrypt_tags (H:=ToyCipher) (H0:=ToyHmac) (H1:=key_order)
      {["city" := "Rome"; "~age" := "4"]} (tag_name_key toy_keys) (tag_value_key toy_keys) (tags_hmac_key toy_keys))) op'
    = true.
Proof.
  split; [by vm_compute|].
  destruct (search_faithful (H:=ToyCipher) (H0:=ToyHmac) (H1:=ToyLike) (H2:=key_order) sample_operator toy_keys)
    as (op' & Hq & _ & He); [by vm_compute|].
  exists op'. split; [done|]. rewrite He. by vm_compute.
Defined.
