(* ===== verification/WqlToSql.v ===== *)
(** * WqlToSql: queries as SQL

    Models [libindy/src/services/wallet/storage/default/query.rs]: the text of a search
    and its arguments.  The second part says what SQL means by such a text: it reads the
    text with the grammar of SQL's expressions, as far as these texts go, and evaluates
    it on the rows of the tag tables. *)

From Stdlib Require Import Strings.Ascii.
From S2P Require Import Prelude Errors Json Wql PoolTypes Encryption QueryEncryption.

(** A bound argument: [Vec<u8>] is a blob, [String] is a text. *)
Inductive SqlArg :=
| Blob (b : bytes)
| Text (s : string).

#[export] Instance SqlArg_eq_dec : EqDecision SqlArg.
Proof. solve_decision. Defined.

(** A computation that pushes arguments. *)
Abbreviation SqlM := (StateM IndyErrorKind (list SqlArg)).

Definition push (a : SqlArg) : SqlM unit := modify (fun arguments => arguments ++ [a]).

Section query.
Context `{Machine}.

(** The two tag tables. *)
Inductive TagTable := tags_plaintext | tags_encrypted.

Definition table_name (t : TagTable) : string :=
  match t with tags_plaintext => "tags_plaintext" | tags_encrypted => "tags_encrypted" end.

(** [(i.id in (SELECT item_id FROM <table> WHERE name = ? AND value <test>))] *)
Definition select_head (t : TagTable) : string :=
  ("(i.id in (SELECT item_id FROM " +:+ table_name t +:+ " WHERE name = ? AND value ")%string.

Definition select_text (t : TagTable) (test : string) : string := (select_head t +:+ test +:+ "))")%string.

(** [eq_to_sql] and [neq_to_sql] *)
Definition both_to_sql (test : string) (name : TagName) (value : TargetValue) : SqlM string :=
  match name, value with
  | PlainTagName queried_name, Unencrypted queried_value =>
      _ ← push (Blob queried_name); _ ← push (Text queried_value);
      mret (select_text tags_plaintext test)
  | EncryptedTagName queried_name, Encrypted queried_value =>
      _ ← push (Blob queried_name); _ ← push (Blob queried_value);
      mret (select_text tags_encrypted test)
  | _, _ => fail WalletQueryError
  end.

(** [gt_to_sql] and its neighbours, for plain tags only. *)
Definition plain_to_sql (test : string) (name : TagName) (value : TargetValue) : SqlM string :=
  match name, value with
  | PlainTagName queried_name, Unencrypted queried_value =>
      _ ← push (Blob queried_name); _ ← push (Text queried_value);
      mret (select_text tags_plaintext test)
  | _, _ => fail WalletQueryError
  end.

Definition eq_to_sql := both_to_sql "= ?".
Definition neq_to_sql := both_to_sql "!= ?".
Definition gt_to_sql := plain_to_sql "> ?".
Definition gte_to_sql := plain_to_sql ">= ?".
Definition lt_to_sql := plain_to_sql "< ?".
Definition lte_to_sql := plain_to_sql "<= ?".
Definition like_to_sql := plain_to_sql "LIKE ?".

(** The loop of [in_to_sql]: [comma index] says whether a comma follows. *)
Fixpoint in_loop (target : TargetValue -> option SqlArg) (comma : N -> IndyResult bool)
    (index : N) (values : list TargetValue) (in_string : string) : SqlM string :=
  match values with
  | [] => mret in_string
  | value :: values =>
      match target value with
      | Some arg =>
          _ ← push arg;
          c ← lift (comma index);
          let in_string := (in_string +:+ "?" +:+ if (c : bool) then "," else "")%string in
          in_loop target comma (index + 1)%N values in_string
      | None => fail WalletQueryError
      end
  end.

Definition plain_target (v : TargetValue) : option SqlArg :=
  match v with Unencrypted s => Some (Text s) | Encrypted _ => None end.
Definition encrypted_target (v : TargetValue) : option SqlArg :=
  match v with Encrypted b => Some (Blob b) | Unencrypted _ => None end.

Definition in_to_sql (name : TagName) (values : list TargetValue) : SqlM string :=
  let len := N.of_nat (length values) in
  match name with
  | PlainTagName queried_name =>
      _ ← push (Blob queried_name);
      in_string ← in_loop plain_target (fun index => last ← usize_sub len 1; Ok (index <? last)%N) 0 values
        (select_head tags_plaintext +:+ "IN (");
      mret (in_string +:+ ")))")%string
  | EncryptedTagName queried_name =>
      _ ← push (Blob queried_name);
      index_before_last ← lift (usize_sub len 2);
      in_string ← in_loop encrypted_target (fun index => Ok (index <=? index_before_last)%N) 0 values
        (select_head tags_encrypted +:+ "IN (");
      mret (in_string +:+ ")))")%string
  end.

(** [join_operators], with [operator_to_sql] for the operators. *)
Fixpoint join_loop (operator_to_sql : Operator.t -> SqlM string) (join_str : string) (len index : N)
    (operators : list Operator.t) (s : string) : SqlM string :=
  match operators with
  | [] => mret s
  | operator :: operators =>
      operator_string ← operator_to_sql operator;
      last ← lift (usize_sub len 1);
      let s := (s +:+ operator_string +:+ if (index <? last)%N then join_str else "")%string in
      join_loop operator_to_sql join_str len (index + 1)%N operators s
  end.

Definition join_operators (operator_to_sql : Operator.t -> SqlM string) (operators : list Operator.t)
    (join_str : string) : SqlM string :=
  if 0 <? length operators then
    s ← join_loop operator_to_sql join_str (N.of_nat (length operators)) 0 operators "(";
    mret (s +:+ ")")%string
  else mret ""%string.

Fixpoint operator_to_sql (op : Operator.t) : SqlM string :=
  match op with
  | Operator.Eq tag_name target_value => eq_to_sql tag_name target_value
  | Operator.Neq tag_name target_value => neq_to_sql tag_name target_value
  | Operator.Gt tag_name target_value => gt_to_sql tag_name target_value
  | Operator.Gte tag_name target_value => gte_to_sql tag_name target_value
  | Operator.Lt tag_name target_value => lt_to_sql tag_name target_value
  | Operator.Lte tag_name target_value => lte_to_sql tag_name target_value
  | Operator.Like tag_name target_value => like_to_sql tag_name target_value
  | Operator.In tag_name target_values => in_to_sql tag_name target_values
  | Operator.And suboperators => join_operators operator_to_sql suboperators " AND "
  | Operator.Or suboperators => join_operators operator_to_sql suboperators " OR "
  | Operator.Not suboperator =>
      suboperator_string ← operator_to_sql suboperator;
      mret ("NOT (" +:+ suboperator_string +:+ ")")%string
  end.

Definition with_clause (query_string clause_string : string) : string :=
  if bool_decide (clause_string = ""%string) then query_string
  else (query_string +:+ " AND " +:+ clause_string)%string.

Definition SELECT_ITEMS : string :=
  "SELECT i.id, i.name, i.value, i.key, i.type FROM items as i WHERE i.type = ?".
Definition SELECT_COUNT : string := "SELECT count(*) FROM items as i WHERE i.type = ?".

Definition to_query (head : string) (class : bytes) (op : Operator.t) : IndyResult (string * list SqlArg) :=
  match operator_to_sql op [Blob class] with
  | (Ok clause_string, arguments) => Ok (with_clause head clause_string, arguments)
  | (Err e, _) => Err e
  | (Panic, _) => Panic
  | (OutOfFuel, _) => OutOfFuel
  end.

Definition wql_to_sql : bytes -> Operator.t -> IndyResult (string * list SqlArg) := to_query SELECT_ITEMS.
Definition wql_to_sql_count : bytes -> Operator.t -> IndyResult (string * list SqlArg) := to_query SELECT_COUNT.
End query.

(** ** What the texts mean *)

Inductive test := TEq | TNeq | TGt | TGte | TLt | TLte | TLike | TIn (k : nat).

(** A condition of a search: a sub-select, a bracketed conjunction or disjunction, a
    negation. *)
Inductive clause :=
| Select (t : TagTable) (c : test)
| Group (is_and : bool) (l : list clause)
| Negation (c : clause).

Section clause_ind.
  Variable P : clause -> Prop.
  Hypothesis HSelect : forall t c, P (Select t c).
  Hypothesis HGroup : forall is_and l, Forall P l -> P (Group is_and l).
  Hypothesis HNegation : forall c, P c -> P (Negation c).

Fixpoint clause_ind' (c : clause) : P c :=
  match c with
  | Select t c => HSelect t c
  | Group is_and l => HGroup is_and l
      ((fix all l : Forall P l :=
        match l return Forall P l with
        | [] => Forall_nil_2 _
        | x :: l => Forall_cons_2 _ _ _ (clause_ind' x) (all l)
        end) l)
  | Negation c => HNegation c (clause_ind' c)
  end.
End clause_ind.

(** *** Their texts *)

Definition test_text (c : test) : string :=
  match c with
  | TEq => "= ?" | TNeq => "!= ?" | TGt => "> ?" | TGte => ">= ?" | TLt => "< ?" | TLte => "<= ?"
  | TLike => "LIKE ?"
  | TIn k => "IN (" +:+ join "," (repeat "?" k) +:+ ")"
  end%string.

Definition conj_text (is_and : bool) : string := (if is_and then " AND " else " OR ")%string.

Fixpoint clause_text (c : clause) : string :=
  match c with
  | Select t c => select_text t (test_text c)
  | Group is_and l => ("(" +:+ join (conj_text is_and) (clause_text <$> l) +:+ ")")%string
  | Negation c => ("NOT (" +:+ clause_text c +:+ ")")%string
  end.

(** *** Their values *)

Definition sql_lt (a b : SqlArg) : bool :=
  match a, b with
  | Text s, Text t => key_lt s t
  | Blob s, Blob t => key_lt (string_of_bytes s) (string_of_bytes t)
  | Text _, Blob _ => true
  | Blob _, Text _ => false
  end.

(** The row of a tag table that a tag is stored as. *)
Definition sql_row (r : TagRow) : option (TagTable * bytes * SqlArg) :=
  match r with
  | (PlainTagName n, Unencrypted s) => Some (tags_plaintext, n, Text s)
  | (EncryptedTagName n, Encrypted v) => Some (tags_encrypted, n, Blob v)
  | _ => None
  end.

#[export] Instance TagTable_eq_dec : EqDecision TagTable.
Proof. solve_decision. Defined.

Section eval.
Context `{LikePattern}.

Definition arity (c : test) : nat := match c with TIn k => k | _ => 1 end.

(** [value <test>] with the arguments of the test. *)
Definition eval_test (c : test) (value : SqlArg) (args : list SqlArg) : bool :=
  match c, args with
  | TIn _, args => bool_decide (value ∈ args)
  | TEq, [a] => bool_decide (value = a)
  | TNeq, [a] => bool_decide (value <> a)
  | TGt, [a] => sql_lt a value
  | TGte, [a] => negb (sql_lt value a)
  | TLt, [a] => sql_lt value a
  | TLte, [a] => negb (sql_lt a value)
  | TLike, [Text p] => match value with Text s => like s p | Blob _ => false end
  | _, _ => false
  end.

Definition row_holds (t : TagTable) (n : bytes) (p : SqlArg -> bool) (r : TagRow) : bool :=
  match sql_row r with
  | Some (t', n', v) => bool_decide (t' = t) && bool_decide (n' = n) && p v
  | None => false
  end.

(** The value of a condition for an item with these tags, and the arguments that are left;
    [None] when there are too few. *)
Fixpoint eval_clause (rows : list TagRow) (c : clause) (args : list SqlArg) : option (bool * list SqlArg) :=
  match c with
  | Select t c =>
      match args with
      | Blob n :: args =>
          if arity c <=? length args
          then Some (existsb (row_holds t n (fun v => eval_test c v (take (arity c) args))) rows, drop (arity c) args)
          else None
      | _ => None
      end
  | Group is_and l =>
      (fix eval_all l args :=
        match l with
        | [] => Some (is_and, args)
        | c :: l =>
            '(b, args) ← eval_clause rows c args;
            '(b', args) ← eval_all l args;
            Some ((if is_and then b && b' else b || b'), args)
        end) l args
  | Negation c =>
      '(b, args) ← eval_clause rows c args;
      Some (negb b, args)
  end.
End eval.

(** *** The condition of a query *)

Definition table_of (n : TagName) : TagTable := if is_plain n then tags_plaintext else tags_encrypted.

Fixpoint clause_of (op : Operator.t) : clause :=
  match op with
  | Operator.And l => Group true (clause_of <$> l)
  | Operator.Or l => Group false (clause_of <$> l)
  | Operator.Not op => Negation (clause_of op)
  | Operator.Eq n _ => Select (table_of n) TEq
  | Operator.Neq n _ => Select (table_of n) TNeq
  | Operator.Gt n _ => Select (table_of n) TGt
  | Operator.Gte n _ => Select (table_of n) TGte
  | Operator.Lt n _ => Select (table_of n) TLt
  | Operator.Lte n _ => Select (table_of n) TLte
  | Operator.Like n _ => Select (table_of n) TLike
  | Operator.In n vs => Select (table_of n) (TIn (length vs))
  end.

(** A query that becomes SQL: besides what [storable] says, no group is empty and an
    encrypted tag is looked up in a list of two values at least. *)
Fixpoint runnable (op : Operator.t) : bool :=
  match op with
  | Operator.And l | Operator.Or l => (0 <? length l) && forallb runnable l
  | Operator.Not op => runnable op
  | Operator.In n vs => is_plain n || (2 <=? length vs)
  | _ => true
  end.

Definition arg_of_name (n : TagName) : SqlArg := match n with EncryptedTagName v | PlainTagName v => Blob v end.
Definition arg_of_value (v : TargetValue) : SqlArg :=
  match v with Unencrypted s => Text s | Encrypted v => Blob v end.

Fixpoint args_of (op : Operator.t) : list SqlArg :=
  match op with
  | Operator.And l | Operator.Or l => concat (args_of <$> l)
  | Operator.Not op => args_of op
  | Operator.Eq n v | Operator.Neq n v | Operator.Gt n v | Operator.Gte n v | Operator.Lt n v
  | Operator.Lte n v | Operator.Like n v => [arg_of_name n; arg_of_value v]
  | Operator.In n vs => arg_of_name n :: (arg_of_value <$> vs)
  end.

(** ** The translation *)

Lemma join_cons sep x l :
  join sep (x :: l) = (x +:+ (if (0 <? length l)%nat then sep else "") +:+ join sep l)%string.
Proof. destruct l; [|done]. cbn [join length Nat.ltb Nat.leb]. by rewrite !str_app_nil_r. Qed.

Section translation.
Context `{Machine}.

Lemma last_comma {E} (index k : nat) :
  (last ← usize_sub (E:=E) (N.of_nat (index + S k)) 1; Ok (N.of_nat index <? last)%N) = Ok (0 <? k).
Proof.
  rewrite usize_sub_ok by lia. cbn [mbind outcome_bind]. f_equal. apply eq_true_iff_eq.
  rewrite N.ltb_lt, Nat.ltb_lt. lia.
Qed.

Lemma in_loop_spec target comma values : forall (index : nat) s args,
  Forall (fun v => target v = Some (arg_of_value v)) values ->
  (forall i k, i + S k = index + length values -> comma (N.of_nat i) = Ok (0 <? k)) ->
  in_loop target comma (N.of_nat index) values s args =
    (Ok (s +:+ join "," (repeat "?" (length values)))%string, args ++ (arg_of_value <$> values)).
Proof.
  induction values as [|v values IH]; intros index s args Ht Hc; cbn [in_loop].
  { cbn. by rewrite str_app_nil_r, app_nil_r. }
  apply Forall_cons in Ht as [Hv Ht]. rewrite Hv. rewrite bind_run. cbn [push modify].
  rewrite bind_run. unfold lift. rewrite (Hc index (length values)) by (cbn; lia).
  replace (N.of_nat index + 1)%N with (N.of_nat (S index)) by lia.
  rewrite IH; [|done|intros i k Hi; apply Hc; cbn; lia].
  cbn [length repeat fmap list_fmap]. rewrite join_cons, repeat_length, <-app_assoc, !str_app_assoc. done.
Qed.

Lemma join_loop_spec sep l : forall (index : nat) s args,
  Forall (fun op => forall args,
    operator_to_sql op args = (Ok (clause_text (clause_of op)), args ++ args_of op)) l ->
  join_loop operator_to_sql sep (N.of_nat (index + length l)) (N.of_nat index) l s args =
    (Ok (s +:+ join sep (clause_text <$> (clause_of <$> l)))%string, args ++ concat (args_of <$> l)).
Proof.
  induction l as [|op l IH]; intros index s args Hl; cbn [join_loop].
  { cbn. by rewrite str_app_nil_r, app_nil_r. }
  apply Forall_cons in Hl as [Hop Hl]. rewrite bind_run, Hop, bind_run. cbn [length].
  unfold lift. rewrite usize_sub_ok by lia.
  assert ((N.of_nat index <? N.of_nat (index + S (length l)) - 1)%N = (0 <? length l)) as ->.
  { apply eq_true_iff_eq. rewrite N.ltb_lt, Nat.ltb_lt. lia. }
  replace (N.of_nat index + 1)%N with (N.of_nat (S index)) by lia.
  replace (index + S (length l)) with (S index + length l) by lia.
  rewrite IH by done. cbn [fmap list_fmap]. rewrite join_cons. cbn [concat].
  rewrite !length_fmap, <-app_assoc, !str_app_assoc. done.
Qed.

Lemma storable_targets n vs : forallb (same_kind n) vs = true ->
  Forall (fun v => (if is_plain n then plain_target v else encrypted_target v) = Some (arg_of_value v)) vs.
Proof.
  intros Hvs. apply Forall_forall. intros v Hv. rewrite forallb_forall in Hvs.
  specialize (Hvs v (proj1 (list_elem_of_In _ _) Hv)). by destruct n, v.
Qed.

Lemma in_to_sql_spec n vs args : forallb (same_kind n) vs = true -> is_plain n || (2 <=? length vs) = true ->
  in_to_sql n vs args =
    (Ok (clause_text (Select (table_of n) (TIn (length vs)))), args ++ arg_of_name n :: (arg_of_value <$> vs)).
Proof.
  intros Hk%storable_targets Hl. destruct n as [n|n]; cbn [is_plain orb] in *; cbn [in_to_sql].
  - apply Nat.leb_le in Hl. rewrite bind_run. cbn [push modify]. rewrite bind_run. unfold lift.
    rewrite usize_sub_ok by lia. rewrite bind_run. change 0%N with (N.of_nat 0).
    rewrite (in_loop_spec encrypted_target _ vs 0); [|done|].
    + cbn. unfold select_text. by rewrite <-app_assoc, !str_app_assoc.
    + intros i k Hi. f_equal. apply eq_true_iff_eq. rewrite N.leb_le, Nat.ltb_lt. lia.
  - rewrite bind_run. cbn [push modify]. rewrite bind_run. change 0%N with (N.of_nat 0).
    rewrite (in_loop_spec plain_target _ vs 0); [|done|].
    + cbn. unfold select_text. by rewrite <-app_assoc, !str_app_assoc.
    + intros i k Hi. cbn in Hi. rewrite <-Hi. apply last_comma.
Qed.

(** The text of a query, and its arguments. *)
Lemma operator_to_sql_spec op : storable op = true -> runnable op = true -> forall args,
  operator_to_sql op args = (Ok (clause_text (clause_of op)), args ++ args_of op).
Proof.
  assert (forall l, Forall (fun op => storable op = true -> runnable op = true -> forall args,
      operator_to_sql op args = (Ok (clause_text (clause_of op)), args ++ args_of op)) l ->
    forallb storable l = true -> forallb runnable l = true ->
    Forall (fun op => forall args, operator_to_sql op args = (Ok (clause_text (clause_of op)), args ++ args_of op)) l) as Hall.
  { induction 1 as [|x l Hx _ IH]; cbn; [constructor|].
    intros [? ?]%andb_true_iff [? ?]%andb_true_iff. constructor; auto. }
  induction op as [l IH|l IH|op IH|op Hop] using Operator.operator_ind; cbn [storable runnable]; intros Hs Hr args.
  1-2: apply andb_true_iff in Hr as [Hl Hr]; specialize (Hall l IH Hs Hr);
    cbn [operator_to_sql]; unfold join_operators; rewrite Hl, bind_run;
    change 0%N with (N.of_nat 0); rewrite (join_loop_spec _ l 0) by done;
    unfold mret, StateM_ret; cbn [clause_of clause_text args_of conj_text]; by rewrite <-!str_app_assoc.
  - cbn [operator_to_sql]. by rewrite bind_run, IH.
  - destruct op; try done; cbn [storable runnable] in *.
    1-7: destruct n, v; try done; cbn [operator_to_sql]; unfold eq_to_sql, neq_to_sql, gt_to_sql, gte_to_sql, lt_to_sql,
      lte_to_sql, like_to_sql, both_to_sql, plain_to_sql; rewrite !bind_run; cbn [push modify];
      rewrite bind_run; cbn [push modify]; unfold mret, StateM_ret; by rewrite <-app_assoc.
    by apply in_to_sql_spec.
Qed.
End translation.

(** ** The meaning of the translation *)

(** Rows as the storage keeps them. *)
Definition kinded_rows (rows : list TagRow) : Prop := Forall (fun r => same_kind r.1 r.2 = true) rows.

Lemma stored_rows_kinded etags : kinded_rows (stored_rows etags).
Proof. unfold kinded_rows, stored_rows. apply Forall_fmap, Forall_true. by intros []. Qed.

Section meaning.
Context `{LikePattern}.

Definition name_bytes (n : TagName) : bytes := match n with EncryptedTagName v | PlainTagName v => v end.

Lemma existsb_row_holds rows n p q : kinded_rows rows ->
  (forall v, same_kind n v = true -> q (arg_of_value v) = p v) ->
  existsb (row_holds (table_of n) (name_bytes n) q) rows = tag_holds rows n p.
Proof.
  intros Hr Hpq. unfold tag_holds. induction Hr as [|[m v] rows Hv _ IH]; [done|]. cbn [existsb fst snd].
  rewrite IH. f_equal. cbn in Hv. destruct (decide (m = n)) as [->|Hne].
  - rewrite bool_decide_true by done. rewrite <-Hpq by done.
    destruct n, v; try done; unfold row_holds; cbn; by rewrite !bool_decide_true.
  - rewrite bool_decide_false by done.
    destruct m, n, v; try done; unfold row_holds; cbn; repeat case_bool_decide; try done; congruence.
Qed.

Lemma arg_of_value_inj v w n : same_kind n v = true -> same_kind n w = true ->
  arg_of_value v = arg_of_value w <-> v = w.
Proof. destruct n, v, w; cbn; try done; intros _ _; split; congruence. Qed.

Lemma plain_value n v : is_plain n = true -> same_kind n v = true -> exists s, v = Unencrypted s.
Proof. destruct n, v; cbn; try done; eauto. Qed.

Lemma eval_leaf op rows rest : Operator.is_leaf op = true -> storable op = true -> kinded_rows rows ->
  eval_clause rows (clause_of op) (args_of op ++ rest) = Some (sat rows op, rest).
Proof.
  intros Hop Hs Hr.
  destruct op as [| | |n v|n v|n v|n v|n v|n v|n v|n vs]; try done;
    cbn [storable] in Hs; cbn [clause_of args_of app eval_clause arity sat];
    (replace (arg_of_name n) with (Blob (name_bytes n)) by (by destruct n));
    cbn [app length Nat.leb take drop].
  1-2: rewrite take_0, drop_0; do 2 f_equal; apply existsb_row_holds; [done|];
    intros w Hw; cbn [eval_test]; apply bool_decide_ext; rewrite (arg_of_value_inj _ _ n); done.
  1-5: rewrite take_0, drop_0; apply andb_true_iff in Hs as [Hn Hv]; do 2 f_equal;
    apply existsb_row_holds; [done|]; intros w Hw;
    destruct (plain_value _ _ Hn Hw) as [s ->]; by destruct v.
  rewrite !length_app, length_fmap, (proj2 (Nat.leb_le _ _)) by lia.
  rewrite take_app_length', drop_app_length' by (by rewrite length_fmap). do 2 f_equal.
  apply existsb_row_holds; [done|]. intros w Hw. cbn [eval_test]. apply bool_decide_ext.
  rewrite list_elem_of_fmap. rewrite forallb_forall in Hs. split; [|eauto].
  intros (v & He & Hv). apply (arg_of_value_inj _ _ n) in He as ->; [done..|].
  apply Hs. by apply list_elem_of_In.
Qed.

Lemma eval_clause_of op rows : storable op = true -> kinded_rows rows -> forall rest,
  eval_clause rows (clause_of op) (args_of op ++ rest) = Some (sat rows op, rest).
Proof.
  intros Hs Hr. induction op as [l IH|l IH|op IH|op Hop] using Operator.operator_ind; intros rest.
  1-2: cbn [storable] in Hs; cbn [clause_of args_of eval_clause sat];
    induction IH as [|op l Hop _ IHl]; [done|]; cbn [forallb] in Hs; apply andb_true_iff in Hs as [Hop' Hs];
    cbn [fmap list_fmap concat]; rewrite <-app_assoc, Hop by done; cbn [mbind option_bind];
    by rewrite IHl by done.
  - cbn [storable] in Hs. cbn [clause_of args_of eval_clause sat]. by rewrite IH.
  - by apply eval_leaf.
Qed.
End meaning.

(** ** Reading a text

    The grammar of SQL's expressions, as far as the texts of a search go.  [read_query]
    reads what follows [WHERE i.type = ?]. *)

Fixpoint strip (p s : string) : option string :=
  match p, s with
  | EmptyString, s => Some s
  | String c p, String d s => if decide (c = d) then strip p s else None
  | String _ _, EmptyString => None
  end.

(** The marks of a list, up to the bracket that closes it. *)
Fixpoint read_marks (fuel : nat) (s : string) : option (nat * string) :=
  match fuel with
  | O => None
  | S fuel =>
      match strip "?," s with
      | Some s => '(k, s) ← read_marks fuel s; Some (S k, s)
      | None => s ← strip "?)" s; Some (1, s)
      end
  end.

Definition read_test (fuel : nat) (s : string) : option (test * string) :=
  match strip "= ?" s with Some s => Some (TEq, s) | None =>
  match strip "!= ?" s with Some s => Some (TNeq, s) | None =>
  match strip ">= ?" s with Some s => Some (TGte, s) | None =>
  match strip "> ?" s with Some s => Some (TGt, s) | None =>
  match strip "<= ?" s with Some s => Some (TLte, s) | None =>
  match strip "< ?" s with Some s => Some (TLt, s) | None =>
  match strip "LIKE ?" s with Some s => Some (TLike, s) | None =>
  match strip "IN ()" s with Some s => Some (TIn 0, s) | None =>
    s ← strip "IN (" s; '(k, s) ← read_marks fuel s; Some (TIn k, s)
  end end end end end end end end.

Definition read_select (fuel : nat) (s : string) : option (clause * string) :=
  '(t, s) ← match strip (select_head tags_plaintext) s with
            | Some s => Some (tags_plaintext, s)
            | None => s ← strip (select_head tags_encrypted) s; Some (tags_encrypted, s)
            end;
  '(c, s) ← read_test fuel s;
  s ← strip "))" s;
  Some (Select t c, s).

Fixpoint read_clause (fuel : nat) (s : string) : option (clause * string) :=
  match fuel with
  | O => None
  | S fuel =>
      match read_select fuel s with
      | Some r => Some r
      | None =>
          match strip "NOT (" s with
          | Some s => '(c, s) ← read_clause fuel s; s ← strip ")" s; Some (Negation c, s)
          | None =>
              s ← strip "(" s;
              '(c, s) ← read_clause fuel s;
              match strip ")" s with
              | Some s => Some (Group true [c], s)
              | None =>
                  let is_and := match strip " AND " s with Some _ => true | None => false end in
                  '(l, s) ← read_rest is_and fuel s; Some (Group is_and (c :: l), s)
              end
          end
      end
  end
(** The further parts of a group, and the bracket that closes it. *)
with read_rest (is_and : bool) (fuel : nat) (s : string) : option (list clause * string) :=
  match fuel with
  | O => None
  | S fuel =>
      s ← strip (conj_text is_and) s;
      '(c, s) ← read_clause fuel s;
      match strip ")" s with
      | Some s => Some ([c], s)
      | None => '(l, s) ← read_rest is_and fuel s; Some (c :: l, s)
      end
  end.

(** A search: no condition, or one that is read to its end. *)
Definition read_query (head text : string) : option (option clause) :=
  match strip head text with
  | Some EmptyString => Some None
  | Some s =>
      s ← strip " AND " s;
      '(c, rest) ← read_clause (String.length s) s;
      if bool_decide (rest = ""%string) then Some (Some c) else None
  | None => None
  end.

(** Whether an item with these tags is found: the first argument is compared with the
    type of the item. *)
Definition query_holds `{LikePattern} (c : option clause) (args : list SqlArg) (type_ : bytes)
    (rows : list TagRow) : option bool :=
  match args with
  | Blob class :: args =>
      match c with
      | None => if bool_decide (args = []) then Some (bool_decide (type_ = class)) else None
      | Some c =>
          '(b, rest) ← eval_clause rows c args;
          if bool_decide (rest = []) then Some (bool_decide (type_ = class) && b) else None
      end
  | _ => None
  end.

(** *** What is printed is read *)

Fixpoint well_formed (c : clause) : bool :=
  match c with
  | Select _ _ => true
  | Group _ l => (0 <? length l) && forallb well_formed l
  | Negation c => well_formed c
  end.

(** A group of one reads as a conjunction. *)
Fixpoint normal (c : clause) : clause :=
  match c with
  | Select t c => Select t c
  | Group is_and [c] => Group true [normal c]
  | Group is_and l => Group is_and (normal <$> l)
  | Negation c => Negation (normal c)
  end.

Fixpoint clause_size (c : clause) : nat :=
  match c with
  | Select _ c => S (arity c)
  | Group _ l => S (list_sum ((fun c => S (clause_size c)) <$> l))
  | Negation c => S (clause_size c)
  end.

Lemma strip_app p s : strip p (p +:+ s) = Some s.
Proof. induction p as [|c p IH]; [done|]. change (strip (String c p) (String c (p +:+ s)) = Some s). cbn. by rewrite decide_True. Qed.

Lemma read_marks_spec k : forall fuel s, S k <= fuel ->
  read_marks fuel (join "," (repeat "?"%string (S k)) +:+ ")" +:+ s)%string = Some (S k, s).
Proof.
  induction k as [|k IH]; intros [|fuel] s Hf; try lia; [done|].
  cbn [repeat]. rewrite join_cons, !str_app_assoc. change (0 <? length (repeat "?"%string (S k))) with true.
  cbv iota. change (read_marks (S fuel) ("?," +:+ join "," (repeat "?"%string (S k)) +:+ ")" +:+ s)%string = Some (S (S k), s)).
  cbn [read_marks]. rewrite strip_app. by rewrite IH by lia.
Qed.

Lemma read_test_spec c fuel s : arity c <= fuel -> read_test fuel (test_text c +:+ s)%string = Some (c, s).
Proof.
  intros Hf. destruct c as [| | | | | | |[|k]]; try done. cbn [arity] in Hf. cbn [test_text].
  rewrite !str_app_assoc. pose proof (read_marks_spec k fuel s Hf) as Hm.
  revert Hm. cbn [repeat]. rewrite join_cons, !str_app_assoc. intros Hm.
  unfold read_test. rewrite strip_app. change (strip "IN ()" _) with (@None string).
  cbn [mbind option_bind]. by rewrite Hm.
Qed.

Lemma read_select_spec t c fuel s : arity c <= fuel ->
  read_select fuel (select_text t (test_text c) +:+ s)%string = Some (Select t c, s).
Proof.
  intros Hf. unfold read_select, select_text. rewrite !str_app_assoc. destruct t.
  - rewrite strip_app. cbn [mbind option_bind]. rewrite read_test_spec by done.
    cbn [mbind option_bind]. by rewrite strip_app.
  - rewrite strip_app. change (strip (select_head tags_plaintext) _) with (@None string).
    cbn [mbind option_bind]. rewrite read_test_spec by done. cbn [mbind option_bind]. by rewrite strip_app.
Qed.

(** How a condition begins. *)
Lemma clause_text_head c : exists d s, clause_text c = String d s /\ (d = "("%char \/ d = "N"%char).
Proof. destruct c; eexists _, _; (split; [reflexivity|auto]). Qed.

Lemma read_select_bracket fuel c s : read_select fuel ("(" +:+ clause_text c +:+ s)%string = None.
Proof. by destruct (clause_text_head c) as (d & s' & -> & [-> | ->]). Qed.

Lemma strip_bracket c s : strip ")" (clause_text c +:+ s)%string = None.
Proof. by destruct (clause_text_head c) as (d & s' & -> & [-> | ->]). Qed.

Definition rest_size (l : list clause) : nat := list_sum ((fun c => S (clause_size c)) <$> l).

Lemma rest_size_cons c l : rest_size (c :: l) = S (clause_size c) + rest_size l.
Proof. done. Qed.

Lemma read_rest_spec is_and l : forall fuel s, l <> [] ->
  Forall (fun c => forall fuel s, clause_size c <= fuel ->
    read_clause fuel (clause_text c +:+ s)%string = Some (normal c, s)) l ->
  rest_size l <= fuel ->
  read_rest is_and fuel (conj_text is_and +:+ join (conj_text is_and) (clause_text <$> l) +:+ ")" +:+ s)%string
    = Some (normal <$> l, s).
Proof.
  induction l as [|c l IH]; [done|]. intros fuel s _ Hl Hf. rewrite rest_size_cons in Hf.
  apply Forall_cons in Hl as [Hc Hl]. destruct fuel as [|fuel]; [lia|].
  cbn [read_rest fmap list_fmap]. rewrite strip_app, join_cons, length_fmap, !str_app_assoc.
  cbn [mbind option_bind]. rewrite Hc by lia. cbn [mbind option_bind]. destruct l as [|c' l].
  - change (strip ")" _) with (Some s). done.
  - change (0 <? length (c' :: l)) with true. cbv iota.
    replace (strip ")" _) with (@None string) by (by destruct is_and). by rewrite IH by (done || lia).
Qed.

Lemma read_clause_spec c : well_formed c = true -> forall fuel s, clause_size c <= fuel ->
  read_clause fuel (clause_text c +:+ s)%string = Some (normal c, s).
Proof.
  induction c as [t c|is_and l IH|c IH] using clause_ind'; intros Hw fuel s Hf;
    (destruct fuel as [|fuel]; [cbn in Hf; lia|]); cbn [read_clause clause_text].
  - cbn in Hf. by rewrite read_select_spec by lia.
  - cbn [well_formed] in Hw. apply andb_true_iff in Hw as [Hl Hw]. destruct l as [|c l]; [done|].
    cbn [forallb] in Hw. apply andb_true_iff in Hw as [Hc Hw]. cbn [clause_size] in Hf.
    change (S (rest_size (c :: l)) <= S fuel) in Hf. rewrite rest_size_cons in Hf.
    apply Forall_cons in IH as [IHc IH]. cbn [fmap list_fmap]. rewrite join_cons, length_fmap, !str_app_assoc.
    rewrite read_select_bracket. change (strip "NOT (" _) with (@None string). rewrite strip_app.
    cbn [mbind option_bind]. rewrite IHc by (done || lia). cbn [mbind option_bind]. destruct l as [|c' l].
    + change (strip ")" _) with (Some s). done.
    + change (0 <? length (c' :: l)) with true. cbv iota.
      replace (strip ")" _) with (@None string) by (by destruct is_and).
      assert (forall s, match strip " AND " (conj_text is_and +:+ s)%string with Some _ => true | None => false end = is_and) as ->
        by (intros s'; by destruct is_and).
      rewrite read_rest_spec; [done|done| |lia].
      rewrite Forall_forall in *. intros x Hx. rewrite forallb_forall in Hw. apply IH; [done|].
      apply Hw. by apply list_elem_of_In.
  - rewrite !str_app_assoc. change (read_select fuel _) with (@None (clause * string)).
    rewrite strip_app. rewrite IH by (done || (cbn in Hf; lia)). cbn [mbind option_bind]. by rewrite strip_app.
Qed.

(** *** The fuel suffices *)

Lemma str_app_length (s t : string) : String.length (s +:+ t) = String.length s + String.length t.
Proof. induction s as [|c s IH]; [done|]. exact (f_equal S IH). Qed.

Lemma join_marks_length k : k <= String.length (join "," (repeat "?"%string k)).
Proof.
  induction k as [|k IH]; [cbn; lia|]. cbn [repeat]. rewrite join_cons, !str_app_length. cbn. lia.
Qed.

Lemma clause_size_text c : clause_size c <= String.length (clause_text c).
Proof.
  induction c as [t c|is_and l IH|c IH] using clause_ind'; cbn [clause_size clause_text].
  - unfold select_text, select_head. rewrite !str_app_length. destruct c as [| | | | | | |k]; cbn; try lia.
    rewrite !str_app_length. pose proof (join_marks_length k). cbn. lia.
  - rewrite !str_app_length. enough (rest_size l <=
      S (String.length (join (conj_text is_and) (clause_text <$> l)))) by (unfold rest_size in *; cbn; lia).
    induction IH as [|c l Hc _ IHl]; [cbn; lia|]. rewrite rest_size_cons. cbn [fmap list_fmap].
    rewrite join_cons, !str_app_length, length_fmap. destruct l as [|c' l]; [cbn in *; lia|].
    change (0 <? length (c' :: l)) with true. cbv iota.
    assert (1 <= String.length (conj_text is_and)) by (destruct is_and; cbn; lia). lia.
  - rewrite !str_app_length. cbn. lia.
Qed.

Lemma read_query_text head c : well_formed c = true ->
  read_query head (with_clause head (clause_text c)) = Some (Some (normal c)).
Proof.
  intros Hw. unfold with_clause. rewrite bool_decide_false by (by destruct (clause_text_head c) as (? & ? & -> & _)).
  unfold read_query. rewrite strip_app. change (" AND " +:+ clause_text c)%string with
    (String " " (String "A" (String "N" (String "D" (String " " (clause_text c)))))) at 1.
  cbv iota. change (String " " (String "A" (String "N" (String "D" (String " " (clause_text c))))))
    with (" AND " +:+ clause_text c)%string. rewrite strip_app. cbn [mbind option_bind].
  pose proof (read_clause_spec c Hw (String.length (clause_text c)) "" (clause_size_text c)) as Hr.
  rewrite str_app_nil_r in Hr. by rewrite Hr.
Qed.

Lemma eval_normal `{LikePattern} rows c : forall args, eval_clause rows (normal c) args = eval_clause rows c args.
Proof.
  induction c as [t c|is_and l IH|c IH] using clause_ind'; intros args; [done| |cbn; by rewrite IH].
  destruct l as [|c [|c' l]]; [done| |].
  - apply Forall_cons in IH as [IH _]. cbn. rewrite IH. destruct (eval_clause rows c args) as [[b args']|]; [|done].
    cbn. destruct is_and; cbn; [done|]. by rewrite andb_true_r, orb_false_r.
  - cbn [normal]. remember (c :: c' :: l) as k eqn:Hk. clear Hk. cbn [eval_clause]. revert args.
    induction IH as [|x k Hx _ IHk]; intros args; [done|]. cbn [fmap list_fmap]. rewrite Hx.
    destruct (eval_clause rows x args) as [[b args']|]; [|done]. cbn [mbind option_bind]. by rewrite IHk.
Qed.

Lemma clause_of_well_formed op : runnable op = true -> well_formed (clause_of op) = true.
Proof.
  induction op as [l IH|l IH|op IH|op Hop] using Operator.operator_ind; cbn [runnable clause_of well_formed]; intros Hr.
  1-2: apply andb_true_iff in Hr as [Hl Hr]; rewrite length_fmap, Hl; cbn [andb];
    clear Hl; induction IH as [|x l Hx _ IHl]; [done|]; cbn in *; apply andb_true_iff in Hr as [? ?]; by rewrite Hx, IHl.
  - by apply IH.
  - by destruct op.
Qed.

(** ** Theorems *)

(** A search that becomes SQL: no condition at all, or one without empty groups. *)
Definition searchable (op : Operator.t) : bool :=
  match op with Operator.And [] => true | op => runnable op end.

Section theorems.
Context `{Machine} `{LikePattern}.

Lemma to_query_correct head class op : storable op = true -> searchable op = true ->
  exists text args c, to_query head class op = Ok (text, args) /\ read_query head text = Some c /\
    forall type_ etags, query_holds c args type_ (stored_rows etags) =
      Some (bool_decide (type_ = class) && sat (stored_rows etags) op).
Proof.
  intros Hs Hr. assert (op = Operator.And [] \/ runnable op = true) as [->|Hr']
    by (destruct op as [[]| | | | | | | | | |]; auto).
  { exists head, [Blob class], None. split; [done|]. split.
    - unfold read_query. rewrite <-(str_app_nil_r head) at 2. by rewrite strip_app.
    - intros type_ etags. cbn. by rewrite andb_true_r. }
  unfold to_query. rewrite operator_to_sql_spec by done. eexists _, _, (Some (normal (clause_of op))).
  split; [done|]. split; [by apply read_query_text, clause_of_well_formed|].
  intros type_ etags. cbn [app query_holds]. rewrite eval_normal.
  pose proof (eval_clause_of op _ Hs (stored_rows_kinded etags) []) as He.
  rewrite app_nil_r in He. by rewrite He.
Qed.


(** an [$in] of one value on an encrypted tag, which the parser makes of the JSON
    [{"name":{"$in":["value"]}}], never becomes a search: a build with overflow checks
    unwinds, and one without makes the text of a list with an empty place. *)
Theorem in_of_one_fails class n v :
  wql_to_sql class (Operator.In (EncryptedTagName n) [Encrypted v]) =
    if overflow_checks then Panic
    else Ok (with_clause SELECT_ITEMS (select_text tags_encrypted "IN (?,)"), [Blob class; Blob n; Blob v]).
Proof.
  unfold wql_to_sql, to_query. cbn [operator_to_sql in_to_sql]. rewrite bind_run. cbn [push modify].
  rewrite bind_run. unfold lift, usize_sub. change (2 <=? N.of_nat (length [Encrypted v]))%N with false. cbv iota.
  destruct overflow_checks; [done|]. rewrite bind_run. cbn [in_loop encrypted_target].
  rewrite bind_run. cbn [push modify]. rewrite bind_run. unfold lift.
  assert ((0 <=? N.of_nat (length [Encrypted v]) + usize_modulus - 2)%N = true) as -> by (apply N.leb_le; lia). done.
Qed.

(** an empty disjunction, which no record satisfies, is searched for without any
    condition and finds every record of the class. *)
Theorem empty_or_finds_all class rows :
  wql_to_sql class (Operator.Or []) = Ok (SELECT_ITEMS, [Blob class]) /\
  read_query SELECT_ITEMS SELECT_ITEMS = Some None /\
  query_holds None [Blob class] class rows = Some true /\ sat rows (Operator.Or []) = false.
Proof. split; [done|]. split; [done|]. split; [|done]. cbn. by rewrite bool_decide_true. Qed.
End theorems.

(** ** Witness *)


(** The text that [in_of_one_fails] ends with is not SQL, and neither is a negation of an
    empty conjunction. *)
Example in_of_one_unreadable :
  read_query SELECT_ITEMS (with_clause SELECT_ITEMS (select_text tags_encrypted "IN (?,)")) = None /\
  read_query SELECT_ITEMS (with_clause SELECT_ITEMS "NOT ()") = None.
Proof. by vm_compute. Qed.
