(* ===== verification/Storage.v ===== *)
(** * Storage: what a wallet expects of its storage

    Models the traits of [libindy/src/services/wallet/storage/mod.rs] and the options of
    [services/wallet/mod.rs].  [WalletStorage] is the trait; [WalletStorageLaws] is its
    contract: every operation does to the storage what the operation of the same name
    does to a map from types and names to entries.  [SqliteStorage.v] discharges it, and
    [Wallet.v] relies on nothing else. *)

From stdpp Require Import gmap.
From S2P Require Import Prelude Errors Json Wql PoolTypes Encryption QueryEncryption.

(** ** Options *)

Record RecordOptions := mk_record_options {
  retrieve_type : bool;
  retrieve_value : bool;
  retrieve_tags : bool;
}.

(** [RecordOptions::default] *)
Definition default_record_options : RecordOptions := mk_record_options false true false.

Record SearchOptions := mk_search_options {
  search_records : bool;
  search_total_count : bool;
  search_type : bool;
  search_value : bool;
  search_tags : bool;
}.

(** [SearchOptions::default] *)
Definition default_search_options : SearchOptions := mk_search_options true false false true false.

(** The parsers and printers that serde derives. *)
Class OptionCodecs := {
  record_options_from_str : string -> option RecordOptions;
  record_options_to_string : RecordOptions -> string;
  search_options_from_str : string -> option SearchOptions;
  search_options_to_string : SearchOptions -> string;
}.

Section option_texts.
Context `{OptionCodecs}.

(** [RecordOptions::id] and the two [id_value]s *)
Definition RecordOptions_id : string := record_options_to_string (mk_record_options false false false).
Definition RecordOptions_id_value : string := record_options_to_string (mk_record_options false true false).
Definition SearchOptions_id_value : string := search_options_to_string (mk_search_options true true true true false).

(** The first lines of [get] and of [search]. *)
Definition parse_record_options (options : string) : IndyResult RecordOptions :=
  if decide (options = "{}"%string) then Ok default_record_options
  else ok_or (record_options_from_str options) InvalidStructure.

Definition parse_search_options (options : option string) : IndyResult SearchOptions :=
  match options with
  | None => Ok default_search_options
  | Some option_str => ok_or (search_options_from_str option_str) InvalidStructure
  end.
End option_texts.

(** ** The traits *)

(** [WalletStorage] on a storage [S]; [StorageIterator] is the type [Iter]. *)
Class WalletStorage (S Iter : Type) := {
  storage_get : bytes -> bytes -> string -> StateM IndyErrorKind S StorageRecord;
  storage_add : bytes -> bytes -> EncryptedValue -> list Tag.t -> StateM IndyErrorKind S unit;
  storage_update : bytes -> bytes -> EncryptedValue -> StateM IndyErrorKind S unit;
  storage_add_tags : bytes -> bytes -> list Tag.t -> StateM IndyErrorKind S unit;
  storage_update_tags : bytes -> bytes -> list Tag.t -> StateM IndyErrorKind S unit;
  storage_delete_tags : bytes -> bytes -> list StorageTagName -> StateM IndyErrorKind S unit;
  storage_delete : bytes -> bytes -> StateM IndyErrorKind S unit;
  get_storage_metadata : StateM IndyErrorKind S bytes;
  set_storage_metadata : bytes -> StateM IndyErrorKind S unit;
  storage_get_all : StateM IndyErrorKind S Iter;
  storage_search : bytes -> Operator.t -> option string -> StateM IndyErrorKind S Iter;
  storage_close : StateM IndyErrorKind S unit;
  (** [StorageIterator::next]: a record or the end, and the iterator after it. *)
  iter_next : Iter -> StateM IndyErrorKind S (option StorageRecord * Iter);
  iter_total_count : Iter -> IndyResult (option N);
}.

(** ** The abstract storage *)

#[export] Instance TagName_countable : Countable TagName.
Proof.
  refine (inj_countable'
    (fun n => match n with EncryptedTagName v => inl v | PlainTagName v => inr v end)
    (fun s => match s with inl v => EncryptedTagName v | inr v => PlainTagName v end) _).
  by intros [].
Defined.

(** The tags of an entry, by their names. *)
Abbreviation TagMap := (gmap TagName TargetValue).

Record Entry := mk_entry { entry_value : EncryptedValue; entry_tags : TagMap }.

Abbreviation StorageMap := (gmap (bytes * bytes) Entry).

(** Tags as a map; a later tag of the same name replaces an earlier one. *)
Definition tag_map (tags : list Tag.t) : TagMap := foldl (fun m r => <[r.1 := r.2]> m) ∅ (stored_rows tags).

Definition tag_name_key_of (n : StorageTagName) : TagName :=
  match n with OfEncrypted v => EncryptedTagName v | OfPlain v => PlainTagName v end.

Definition spec_at {A} (t n : bytes) (f : Entry -> A * Entry) : StateM IndyErrorKind StorageMap A := fun m =>
  match m !! (t, n) with
  | Some e => let '(a, e) := f e in (Ok a, <[(t, n) := e]> m)
  | None => (Err WalletItemNotFound, m)
  end.

Definition spec_add (t n : bytes) (v : EncryptedValue) (tags : list Tag.t) : StateM IndyErrorKind StorageMap unit := fun m =>
  match m !! (t, n) with
  | Some _ => (Err WalletItemAlreadyExists, m)
  | None => (Ok tt, <[(t, n) := mk_entry v (tag_map tags)]> m)
  end.

Definition spec_update (t n : bytes) (v : EncryptedValue) : StateM IndyErrorKind StorageMap unit :=
  spec_at t n (fun e => (tt, mk_entry v (entry_tags e))).

Definition spec_add_tags (t n : bytes) (tags : list Tag.t) : StateM IndyErrorKind StorageMap unit :=
  spec_at t n (fun e => (tt, mk_entry (entry_value e) (tag_map tags ∪ entry_tags e))).

Definition spec_update_tags (t n : bytes) (tags : list Tag.t) : StateM IndyErrorKind StorageMap unit :=
  spec_at t n (fun e => (tt, mk_entry (entry_value e) (tag_map tags))).

Definition spec_delete_tags (t n : bytes) (names : list StorageTagName) : StateM IndyErrorKind StorageMap unit :=
  spec_at t n (fun e => (tt, mk_entry (entry_value e)
    (foldl (fun m name => delete (tag_name_key_of name) m) (entry_tags e) names))).

Definition spec_delete (t n : bytes) : StateM IndyErrorKind StorageMap unit := fun m =>
  match m !! (t, n) with
  | Some _ => (Ok tt, delete (t, n) m)
  | None => (Err WalletItemNotFound, m)
  end.

(** [get] returns the entry and its options: what a record shows of it is [shows]. *)
Definition spec_get `{OptionCodecs} (t n : bytes) (options : string) :
    StateM IndyErrorKind StorageMap (RecordOptions * Entry) :=
  options ← lift (parse_record_options options);
  spec_at t n (fun e => ((options, e), e)).

(** The tags of a record come in any order. *)
Definition shows (options : RecordOptions) (t n : bytes) (e : Entry) (r : StorageRecord) : Prop :=
  sr_id r = n /\
  sr_value r = (if retrieve_value options then Some (entry_value e) else None) /\
  sr_type r = (if retrieve_type options then Some t else None) /\
  match sr_tags r with
  | Some tags => retrieve_tags options = true /\ stored_rows tags ≡ₚ map_to_list (entry_tags e)
  | None => retrieve_tags options = false
  end.

(** The entries that a search finds. *)
Definition found `{LikePattern} (m : StorageMap) (t : bytes) (op : Operator.t) : list (bytes * bytes * Entry) :=
  filter (fun x => x.1.1 = t /\ sat (map_to_list (entry_tags x.2)) op = true) (map_to_list m).

(** ** The contract *)

Section contract.
Context {S Iter : Type} `{WalletStorage S Iter}.

(** What an iterator returns when the storage is left alone. *)
Inductive iter_yields (s : S) : Iter -> list StorageRecord -> Prop :=
| yields_end it it' : iter_next it s = (Ok (None, it'), s) -> iter_yields s it []
| yields_next it it' r l : iter_next it s = (Ok (Some r, it'), s) -> iter_yields s it' l ->
    iter_yields s it (r :: l).

(** [m] does to the storage what [spec] does to its map, with results related by [R]. *)
Definition refines {A B : Type} (inv : S -> Prop) (abs : S -> StorageMap) (R : A -> B -> Prop)
    (m : StateM IndyErrorKind S A) (spec : StateM IndyErrorKind StorageMap B) : Prop :=
  forall s, inv s ->
    inv (m s).2 /\ abs (m s).2 = (spec (abs s)).2 /\
    match (m s).1, (spec (abs s)).1 with
    | Ok a, Ok b => R a b
    | Err e, Err e' => e = e'
    | _, _ => False
    end.
End contract.

(** The tags of one call have different names, as those of a [HashMap] do. *)
Definition distinct_names (tags : list Tag.t) : Prop := NoDup (stored_rows tags).*1.

(** The entries and the records that an iterator makes of them. *)
Definition yields_entries {S Iter : Type} `{WalletStorage S Iter} (s : S) (it : Iter) (options : RecordOptions)
    (l : list (bytes * bytes * Entry)) : Prop :=
  exists l' records, l' ≡ₚ l /\ Forall2 (fun x r => shows options x.1.1 x.1.2 x.2 r) l' records /\
    iter_yields s it records.

Class WalletStorageLaws (S Iter : Type) `{WalletStorage S Iter} `{OptionCodecs} `{LikePattern} := {
  storage_inv : S -> Prop;
  storage_map : S -> StorageMap;
  (** The queries that the storage can search for. *)
  can_search : Operator.t -> bool;
  law_get : forall t n options, refines storage_inv storage_map
    (fun r x => shows x.1 t n x.2 r) (storage_get t n options) (spec_get t n options);
  law_add : forall t n v tags, distinct_names tags ->
    refines storage_inv storage_map eq (storage_add t n v tags) (spec_add t n v tags);
  law_update : forall t n v, refines storage_inv storage_map eq (storage_update t n v) (spec_update t n v);
  law_add_tags : forall t n tags,
    refines storage_inv storage_map eq (storage_add_tags t n tags) (spec_add_tags t n tags);
  law_update_tags : forall t n tags, distinct_names tags ->
    refines storage_inv storage_map eq (storage_update_tags t n tags) (spec_update_tags t n tags);
  law_delete_tags : forall t n names,
    refines storage_inv storage_map eq (storage_delete_tags t n names) (spec_delete_tags t n names);
  law_delete : forall t n, refines storage_inv storage_map eq (storage_delete t n) (spec_delete t n);
  law_get_all : forall s, storage_inv s -> exists it, storage_get_all s = (Ok it, s) /\
    yields_entries s it (mk_record_options true true true) (map_to_list (storage_map s));
  law_search : forall s t op options opts, storage_inv s -> storable op = true -> can_search op = true ->
    parse_search_options options = Ok opts ->
    exists it, storage_search t op options s = (Ok it, s) /\
      iter_total_count it =
        Ok (if search_total_count opts then Some (N.of_nat (length (found (storage_map s) t op))) else None) /\
      yields_entries s it (mk_record_options (search_type opts) (search_value opts) (search_tags opts))
        (if search_records opts then found (storage_map s) t op else []);
}.
