(* ===== verification/SqliteStorage.v ===== *)
(** * SqliteStorage: the default storage

    Models [SQLiteStorage] and [SQLiteStorageIterator] of
    [libindy/src/services/wallet/storage/default/mod.rs], and [transaction.rs].  A
    statement of the source is a definition on the tables, with the constraints of the
    schema; a search is read and evaluated as [WqlToSql.v] says.  I/O errors of SQLite are
    left out, and so is the 63-bit limit of row numbers. *)

From stdpp Require Import gmap.
From S2P Require Import Prelude Errors Json Wql PoolTypes Encryption QueryEncryption WqlToSql Storage.

(** What SQLite leaves open: the order in which a table is read, and whether a connection
    enforces foreign keys unless it is told to.  [open_storage] does not tell it; the
    library has them off unless it was compiled otherwise. *)
Class Sqlite := {
  foreign_keys : bool;
  scan : forall {A}, list A -> list A;
  scan_perm : forall {A} (l : list A), scan l ≡ₚ l;
}.

Record ItemRow := mk_item {
  item_id : Z;
  item_type : bytes;
  item_name : bytes;
  item_value : bytes;
  item_key : bytes;
}.

#[export] Instance ItemRow_eq_dec : EqDecision ItemRow.
Proof. solve_decision. Defined.

(** A row of a tag table. *)
Record TagRec (V : Type) := mk_tag { tag_name : bytes; tag_value : V; tag_item : Z }.
Arguments mk_tag {V} tag_name tag_value tag_item.
Arguments tag_name {V} t.
Arguments tag_value {V} t.
Arguments tag_item {V} t.

Record Database := mk_database {
  items : list ItemRow;
  encrypted_tags : list (TagRec bytes);
  plain_tags : list (TagRec string);
  metadata : list bytes;
}.

(** The errors of [rusqlite] that the source tells apart, and
    [impl From<rusqlite::Error> for IndyError]. *)
Inductive SqliteError := ConstraintViolation | SystemIOFailure | QueryReturnedNoRows | OtherSqliteError.

Definition from_rusqlite (e : SqliteError) : IndyErrorKind :=
  match e with
  | ConstraintViolation => WalletItemAlreadyExists
  | SystemIOFailure => IOError
  | QueryReturnedNoRows | OtherSqliteError => InvalidState
  end.

Abbreviation Sql := (StateM SqliteError Database).
Abbreviation SqlResult := (StateM IndyErrorKind Database).

(** [statement?] *)
Definition sql {A} (m : Sql A) : SqlResult A := fun db =>
  match m db with
  | (Ok a, db) => (Ok a, db)
  | (Err e, db) => (Err (from_rusqlite e), db)
  | (Panic, db) => (Panic, db)
  | (OutOfFuel, db) => (OutOfFuel, db)
  end.

(** ** The tag tables *)

Section table.
Context {V : Type}.

Definition is_tag (name : bytes) (id : Z) (r : TagRec V) : bool :=
  bool_decide (tag_name r = name) && bool_decide (tag_item r = id).

(** [DELETE ... WHERE item_id = ?1 AND name = ?2], and without the name *)
Definition delete_tag (id : Z) (name : bytes) (tbl : list (TagRec V)) : list (TagRec V) :=
  filter (fun r => is_tag name id r = false) tbl.
Definition delete_item_tags (id : Z) (tbl : list (TagRec V)) : list (TagRec V) :=
  filter (fun r => tag_item r <> id) tbl.

(** [INSERT]: the primary key is the name and the item. *)
Definition insert_tag (id : Z) (name : bytes) (value : V) (tbl : list (TagRec V)) : option (list (TagRec V)) :=
  if existsb (is_tag name id) tbl then None else Some (tbl ++ [mk_tag name value id]).

(** [INSERT OR REPLACE] *)
Definition replace_tag (id : Z) (name : bytes) (value : V) (tbl : list (TagRec V)) : list (TagRec V) :=
  delete_tag id name tbl ++ [mk_tag name value id].
End table.

(** ** The statements *)

Section statements.
Context `{Sqlite}.

Definition set_encrypted (f : list (TagRec bytes) -> list (TagRec bytes)) (db : Database) : Database :=
  mk_database (items db) (f (encrypted_tags db)) (plain_tags db) (metadata db).
Definition set_plain (f : list (TagRec string) -> list (TagRec string)) (db : Database) : Database :=
  mk_database (items db) (encrypted_tags db) (f (plain_tags db)) (metadata db).
Definition set_items (f : list ItemRow -> list ItemRow) (db : Database) : Database :=
  mk_database (f (items db)) (encrypted_tags db) (plain_tags db) (metadata db).

Definition is_item (type_ name : bytes) (i : ItemRow) : bool :=
  bool_decide (item_type i = type_) && bool_decide (item_name i = name).

Definition has_id (id : Z) (db : Database) : bool := existsb (fun i => bool_decide (item_id i = id)) (items db).

(** The number of a new row: one more than the greatest. *)
Definition next_rowid (l : list ItemRow) : Z := (foldr Z.max 0 (item_id <$> l) + 1)%Z.

(** [INSERT INTO items (type, name, value, key) VALUES (...)] *)
Definition insert_item (type_ name value key : bytes) : Sql Z := fun db =>
  if existsb (is_item type_ name) (items db) then (Err ConstraintViolation, db)
  else
    let id := next_rowid (items db) in
    (Ok id, set_items (fun l => l ++ [mk_item id type_ name value key]) db).

(** [INSERT INTO tags_* (item_id, name, value) VALUES (...)] *)
Definition insert_statement (id : Z) (tag : Tag.t) : Sql unit := fun db =>
  if foreign_keys && negb (has_id id db) then (Err ConstraintViolation, db)
  else
    match tag with
    | Tag.Encrypted name value =>
        match insert_tag id name value (encrypted_tags db) with
        | Some tbl => (Ok tt, set_encrypted (fun _ => tbl) db)
        | None => (Err ConstraintViolation, db)
        end
    | Tag.PlainText name value =>
        match insert_tag id name value (plain_tags db) with
        | Some tbl => (Ok tt, set_plain (fun _ => tbl) db)
        | None => (Err ConstraintViolation, db)
        end
    end.

(** [INSERT OR REPLACE INTO tags_* (item_id, name, value) VALUES (...)] *)
Definition replace_statement (id : Z) (tag : Tag.t) : Sql unit := fun db =>
  if foreign_keys && negb (has_id id db) then (Err ConstraintViolation, db)
  else
    match tag with
    | Tag.Encrypted name value => (Ok tt, set_encrypted (replace_tag id name value) db)
    | Tag.PlainText name value => (Ok tt, set_plain (replace_tag id name value) db)
    end.

(** [DELETE FROM tags_* WHERE item_id = ?1 AND name = ?2] *)
Definition delete_statement (id : Z) (name : StorageTagName) : Sql unit :=
  match name with
  | OfEncrypted name => modify (set_encrypted (delete_tag id name))
  | OfPlain name => modify (set_plain (delete_tag id name))
  end.

(** [SELECT id, value, key FROM items where type = ?1 AND name = ?2], the first row *)
Definition select_item (type_ name : bytes) : Sql ItemRow := fun db =>
  match scan (filter (fun i => is_item type_ name i = true) (items db)) with
  | i :: _ => (Ok i, db)
  | [] => (Err QueryReturnedNoRows, db)
  end.

(** [SELECT name, value FROM tags_* WHERE item_id = ?1] *)
Definition select_encrypted (id : Z) (db : Database) : list Tag.t :=
  (fun r => Tag.Encrypted (tag_name r) (tag_value r)) <$>
    scan (filter (fun r => tag_item r = id) (encrypted_tags db)).
Definition select_plain (id : Z) (db : Database) : list Tag.t :=
  (fun r => Tag.PlainText (tag_name r) (tag_value r)) <$>
    scan (filter (fun r => tag_item r = id) (plain_tags db)).

(** [UPDATE items SET value = ?1, key = ?2 WHERE type = ?3 AND name = ?4]: the number of
    rows changed *)
Definition update_item (value key type_ name : bytes) : Sql nat := fun db =>
  (Ok (length (filter (fun i => is_item type_ name i = true) (items db))),
   set_items (fmap (fun i =>
     if is_item type_ name i then mk_item (item_id i) (item_type i) (item_name i) value key else i)) db).

(** [DELETE FROM items where type = ?1 AND name = ?2], with [ON DELETE CASCADE] *)
Definition delete_item (type_ name : bytes) : Sql nat := fun db =>
  let gone := item_id <$> filter (fun i => is_item type_ name i = true) (items db) in
  let db' := set_items (filter (fun i => is_item type_ name i = false)) db in
  (Ok (length gone),
   if foreign_keys then
     set_encrypted (filter (fun r => tag_item r ∉ gone)) (set_plain (filter (fun r => tag_item r ∉ gone)) db')
   else db').

(** ** Transactions: [transaction.rs] *)

(** The closure of a transaction is committed when it returns, and rolled back when the
    transaction is dropped before. *)
Definition transaction {A} (m : SqlResult A) : SqlResult A := fun db =>
  match m db with
  | (Ok a, db') => (Ok a, db')
  | (r, _) => (r, db)
  end.

(** ** [WalletStorage for SQLiteStorage] *)

(** [match res { Err(QueryReturnedNoRows) => WalletItemNotFound, Err(err) => err.into(), ... }] *)
Definition find_item (type_ id : bytes) : SqlResult ItemRow := fun db =>
  match select_item type_ id db with
  | (Ok i, db) => (Ok i, db)
  | (Err QueryReturnedNoRows, db) => (Err WalletItemNotFound, db)
  | (Err e, db) => (Err (from_rusqlite e), db)
  | (Panic, db) => (Panic, db)
  | (OutOfFuel, db) => (OutOfFuel, db)
  end.

Definition sqlite_get `{OptionCodecs} (type_ id : bytes) (options : string) : SqlResult StorageRecord :=
  options ← lift (parse_record_options options);
  item ← find_item type_ id;
  let value := if retrieve_value options then Some (mk_encrypted_value (item_value item) (item_key item)) else None in
  let type_ := if retrieve_type options then Some type_ else None in
  tags ← (if retrieve_tags options
          then gets (fun db => Some (select_encrypted (item_id item) db ++ select_plain (item_id item) db))
          else mret None);
  mret (mk_storage_record id value type_ tags).

Definition sqlite_add (type_ id : bytes) (value : EncryptedValue) (tags : list Tag.t) : SqlResult unit :=
  transaction (
    id ← sql (insert_item type_ id (ev_data value) (ev_key value));
    forM (fun tag => sql (insert_statement id tag)) tags).

Definition sqlite_update (type_ id : bytes) (value : EncryptedValue) : SqlResult unit :=
  count ← sql (update_item (ev_data value) (ev_key value) type_ id);
  match count with
  | 1 => mret tt
  | O => fail WalletItemNotFound
  | _ => fail InvalidState
  end.

Definition sqlite_add_tags (type_ id : bytes) (tags : list Tag.t) : SqlResult unit :=
  transaction (
    item ← find_item type_ id;
    forM (fun tag => sql (replace_statement (item_id item) tag)) tags).

Definition sqlite_update_tags (type_ id : bytes) (tags : list Tag.t) : SqlResult unit :=
  transaction (
    item ← find_item type_ id;
    _ ← modify (set_encrypted (delete_item_tags (item_id item)));
    _ ← modify (set_plain (delete_item_tags (item_id item)));
    forM (fun tag => sql (insert_statement (item_id item) tag)) tags).

Definition sqlite_delete_tags (type_ id : bytes) (tag_names : list StorageTagName) : SqlResult unit :=
  item ← find_item type_ id;
  transaction (forM (fun name => sql (delete_statement (item_id item) name)) tag_names).

Definition sqlite_delete (type_ id : bytes) : SqlResult unit :=
  row_count ← sql (delete_item type_ id);
  if row_count =? 1 then mret tt else fail WalletItemNotFound.

(** [SELECT value FROM metadata] and [UPDATE metadata SET value = ?1] *)
Definition sqlite_get_storage_metadata : SqlResult bytes := fun db =>
  match metadata db with
  | value :: _ => (Ok value, db)
  | [] => (Err WalletItemNotFound, db)
  end.
Definition sqlite_set_storage_metadata (value : bytes) : SqlResult unit :=
  modify (fun db => mk_database (items db) (encrypted_tags db) (plain_tags db) ((fun _ => value) <$> metadata db)).

Definition sqlite_close : SqlResult unit := mret tt.
End statements.

(** ** The iterator and the searches *)

Record SQLiteStorageIterator := mk_iterator {
  it_rows : option (list ItemRow);
  it_tag_retriever : bool;
  it_options : RecordOptions;
  it_total_count : option N;
}.

Section iterator.
Context `{Sqlite} `{OptionCodecs} `{Machine} `{LikePattern}.

(** [TagRetriever::retrieve] *)
Definition retrieve (id : Z) (db : Database) : list Tag.t := select_plain id db ++ select_encrypted id db.

Definition sqlite_next (self : SQLiteStorageIterator) :
    SqlResult (option StorageRecord * SQLiteStorageIterator) :=
  match it_rows self with
  | None | Some [] => mret (None, self)
  | Some (row :: rows) =>
      let options := it_options self in
      let value := if retrieve_value options then Some (mk_encrypted_value (item_value row) (item_key row)) else None in
      tags ← (if retrieve_tags options then
                if it_tag_retriever self then gets (fun db => Some (retrieve (item_id row) db))
                else fail InvalidState
              else mret None);
      let type_ := if retrieve_type options then Some (item_type row) else None in
      mret (Some (mk_storage_record (item_name row) value type_ tags),
            mk_iterator (Some rows) (it_tag_retriever self) options (it_total_count self))
  end.

Definition sqlite_total_count (self : SQLiteStorageIterator) : IndyResult (option N) := Ok (it_total_count self).

(** [SELECT id, name, value, key, type FROM items] *)
Definition sqlite_get_all : SqlResult SQLiteStorageIterator := fun db =>
  (Ok (mk_iterator (Some (scan (items db))) true (mk_record_options true true true) None), db).

(** The rows of the tags of an item, as a search sees them. *)
Definition item_tags (id : Z) (db : Database) : list TagRow :=
  ((fun r => (PlainTagName (tag_name r), Unencrypted (tag_value r))) <$>
     filter (fun r => tag_item r = id) (plain_tags db)) ++
  ((fun r => (EncryptedTagName (tag_name r), Encrypted (tag_value r))) <$>
     filter (fun r => tag_item r = id) (encrypted_tags db)).

(** A statement of [query.rs]: a text that is not SQL is refused when it is prepared. *)
Definition run_query (head text : string) (args : list SqlArg) : SqlResult (list ItemRow) := fun db =>
  match read_query head text with
  | None => (Err InvalidState, db)
  | Some c =>
      if forallb (fun i => bool_decide (is_Some (query_holds c args (item_type i) (item_tags (item_id i) db)))) (items db)
      then
        (Ok (scan (filter (fun i => query_holds c args (item_type i) (item_tags (item_id i) db) = Some true) (items db))), db)
      else (Err InvalidState, db)
  end.

Definition sqlite_search (type_ : bytes) (query : Operator.t) (options : option string) :
    SqlResult SQLiteStorageIterator :=
  search_options ← lift (parse_search_options options);
  total_count ← (if search_total_count search_options then
      '(query_string, query_arguments) ← lift (wql_to_sql_count type_ query);
      rows ← run_query SELECT_COUNT query_string query_arguments;
      mret (Some (N.of_nat (length rows)))
    else mret None);
  if search_records search_options then
    let fetch_options :=
      mk_record_options (search_type search_options) (search_value search_options) (search_tags search_options) in
    '(query_string, query_arguments) ← lift (wql_to_sql type_ query);
    rows ← run_query SELECT_ITEMS query_string query_arguments;
    mret (mk_iterator (Some rows) (retrieve_tags fetch_options) fetch_options total_count)
  else mret (mk_iterator None false default_record_options total_count).

#[export] Instance SQLiteStorage : WalletStorage Database SQLiteStorageIterator := {|
  storage_get := sqlite_get;
  storage_add := sqlite_add;
  storage_update := sqlite_update;
  storage_add_tags := sqlite_add_tags;
  storage_update_tags := sqlite_update_tags;
  storage_delete_tags := sqlite_delete_tags;
  storage_delete := sqlite_delete;
  get_storage_metadata := sqlite_get_storage_metadata;
  set_storage_metadata := sqlite_set_storage_metadata;
  storage_get_all := sqlite_get_all;
  storage_search := sqlite_search;
  storage_close := sqlite_close;
  iter_next := sqlite_next;
  iter_total_count := sqlite_total_count;
|}.
End iterator.

(** ** Creating, opening and deleting: [WalletStorageType for SQLiteStorageType]

    The files are a map from paths to databases.  [config] is parsed by serde; the path
    of a wallet is made of it and of the name. *)
Class SqlitePaths := {
  config_from_str : string -> option (option string);
  wallet_home_path : string;
  (** [path.push(id); path.push("sqlite.db")] *)
  push_path : string -> string -> string;
  (** [path.parent().unwrap()], and whether a file is in a directory or below it *)
  parent : string -> string;
  inside : string -> string -> bool;
}.

Abbreviation Files := (gmap string Database).

Section storage_type.
Context `{SqlitePaths}.

Definition _db_path (id : string) (config : option (option string)) : string :=
  push_path (push_path (match config with Some (Some path) => path | _ => wallet_home_path end) id) "sqlite.db".

Definition parse_config (config : option string) : IndyResult (option (option string)) :=
  match config with
  | None => Ok None
  | Some s => c ← ok_or (config_from_str s) InvalidStructure; Ok (Some c)
  end.

Definition delete_storage (id : string) (config : option string) : StateM IndyErrorKind Files unit :=
  config ← lift (parse_config config);
  let db_file_path := _db_path id config in
  files ← gets (fun files => files);
  if decide (is_Some (files !! db_file_path)) then
    modify (filter (fun kv => inside (parent db_file_path) kv.1 = false))
  else fail WalletNotFound.

Definition create_storage (id : string) (config : option string) (metadata : bytes) :
    StateM IndyErrorKind Files unit :=
  config ← lift (parse_config config);
  let db_path := _db_path id config in
  files ← gets (fun files => files);
  if decide (is_Some (files !! db_path)) then fail WalletAlreadyExists
  else modify (<[db_path := mk_database [] [] [] [metadata]]>).

Definition open_storage (id : string) (config : option string) : StateM IndyErrorKind Files string :=
  config ← lift (parse_config config);
  let db_file_path := _db_path id config in
  files ← gets (fun files => files);
  if decide (is_Some (files !! db_file_path)) then mret db_file_path else fail WalletNotFound.
End storage_type.

(** ** The tag tables, by lookup *)

Section table_lemmas.
Context {V : Type}.
Implicit Type tbl : list (TagRec V).

Fixpoint tbl_lookup (name : bytes) (id : Z) tbl : option V :=
  match tbl with
  | [] => None
  | r :: tbl => if is_tag name id r then Some (tag_value r) else tbl_lookup name id tbl
  end.

Definition tbl_ok tbl : Prop := NoDup ((fun r => (tag_name r, tag_item r)) <$> tbl).

Lemma is_tag_true name id (r : TagRec V) : is_tag name id r = true <-> tag_name r = name /\ tag_item r = id.
Proof. unfold is_tag. by rewrite andb_true_iff, !bool_decide_eq_true. Qed.

Lemma is_tag_false name id (r : TagRec V) : is_tag name id r = false <-> ~ (tag_name r = name /\ tag_item r = id).
Proof. by rewrite <-not_true_iff_false, is_tag_true. Qed.

Lemma tbl_lookup_app name id tbl tbl' :
  tbl_lookup name id (tbl ++ tbl') =
    match tbl_lookup name id tbl with Some v => Some v | None => tbl_lookup name id tbl' end.
Proof. induction tbl as [|r tbl IH]; cbn; [done|]. by destruct (is_tag name id r). Qed.

Lemma tbl_lookup_existsb name id tbl : existsb (is_tag name id) tbl = bool_decide (is_Some (tbl_lookup name id tbl)).
Proof.
  induction tbl as [|r tbl IH]; [done|]. cbn [existsb tbl_lookup]. by destruct (is_tag name id r).
Qed.

(** A deletion of the rows that do not pass a test on the key. *)
Lemma tbl_lookup_filter (P : TagRec V -> Prop) `{forall r, Decision (P r)} name id tbl (b : bool) :
  (forall r, is_tag name id r = true -> P r <-> b = true) ->
  tbl_lookup name id (filter P tbl) = if b then tbl_lookup name id tbl else None.
Proof.
  intros Hb. induction tbl as [|r tbl IH]; [by destruct b|]. rewrite filter_cons.
  destruct (is_tag name id r) eqn:Hr.
  - destruct (decide (P r)) as [HP|HP].
    + apply Hb in HP as Hbt; [|done]. subst b. cbn. by rewrite Hr.
    + destruct b; [exfalso; by apply HP, Hb|]. done.
  - case_decide; cbn; by rewrite ?Hr.
Qed.

Lemma tbl_ok_filter (P : TagRec V -> Prop) `{forall r, Decision (P r)} tbl : tbl_ok tbl -> tbl_ok (filter P tbl).
Proof.
  unfold tbl_ok. induction tbl as [|r tbl IH]; [done|]. rewrite filter_cons. cbn [fmap list_fmap].
  intros [Hr Ht]%NoDup_cons. case_decide; [|by apply IH]. cbn [fmap list_fmap]. apply NoDup_cons. split; [|by apply IH].
  intros (r' & He & Hr')%list_elem_of_fmap. apply list_elem_of_filter in Hr' as [_ Hr']. apply Hr, list_elem_of_fmap. eauto.
Qed.

Lemma tbl_ok_app_one r tbl : tbl_ok tbl -> tbl_lookup (tag_name r) (tag_item r) tbl = None -> tbl_ok (tbl ++ [r]).
Proof.
  unfold tbl_ok. intros Ht Hr. rewrite fmap_app. apply NoDup_app. split; [done|].
  split; [|by apply NoDup_singleton]. intros x (r' & -> & Hr')%list_elem_of_fmap Hx.
  apply list_elem_of_singleton in Hx. injection Hx as Hn Hi.
  assert (existsb (is_tag (tag_name r) (tag_item r)) tbl = true) as He.
  { apply existsb_exists. exists r'. split; [by apply list_elem_of_In|]. by apply is_tag_true. }
  by rewrite tbl_lookup_existsb, Hr in He.
Qed.

Lemma tbl_lookup_delete name id name' id' tbl :
  tbl_lookup name' id' (delete_tag id name tbl) =
    if decide (name' = name /\ id' = id) then None else tbl_lookup name' id' tbl.
Proof.
  unfold delete_tag. rewrite (tbl_lookup_filter _ _ _ _ (negb (bool_decide (name' = name /\ id' = id)))).
  - case_bool_decide; case_decide; done.
  - intros r [<- <-]%is_tag_true. rewrite is_tag_false, negb_true_iff, bool_decide_eq_false. reflexivity.
Qed.

Lemma tbl_lookup_delete_item id name' id' tbl :
  tbl_lookup name' id' (delete_item_tags id tbl) = if decide (id' = id) then None else tbl_lookup name' id' tbl.
Proof.
  unfold delete_item_tags. rewrite (tbl_lookup_filter _ _ _ _ (negb (bool_decide (id' = id)))).
  - case_bool_decide; case_decide; done.
  - intros r [<- <-]%is_tag_true. rewrite negb_true_iff, bool_decide_eq_false. reflexivity.
Qed.

Lemma tbl_lookup_snoc name id v name' id' tbl : tbl_lookup name id tbl = None ->
  tbl_lookup name' id' (tbl ++ [mk_tag name v id]) =
    if decide (name' = name /\ id' = id) then Some v else tbl_lookup name' id' tbl.
Proof.
  intros Hn. rewrite tbl_lookup_app. cbn. unfold is_tag. cbn. case_decide as Hd.
  - destruct Hd as [-> ->]. by rewrite Hn, !bool_decide_true.
  - destruct (tbl_lookup name' id' tbl); [done|].
    destruct (bool_decide (name = name')) eqn:E1, (bool_decide (id = id')) eqn:E2; cbn; try done.
    apply bool_decide_eq_true in E1, E2. subst. by destruct Hd.
Qed.

Lemma insert_tag_None id name v tbl : insert_tag id name v tbl = None <-> is_Some (tbl_lookup name id tbl).
Proof. unfold insert_tag. rewrite tbl_lookup_existsb. case_bool_decide; naive_solver. Qed.

Lemma tbl_lookup_elem name id v tbl : tbl_ok tbl ->
  tbl_lookup name id tbl = Some v <-> mk_tag name v id ∈ tbl.
Proof.
  intros Ht. induction tbl as [|r tbl IH]; cbn; [set_solver|]. unfold tbl_ok in *. cbn in Ht.
  apply NoDup_cons in Ht as [Hr Ht]. specialize (IH Ht). rewrite elem_of_cons.
  destruct (is_tag name id r) eqn:He.
  - apply is_tag_true in He as [<- <-]. split.
    + intros [= <-]. left. by destruct r.
    + intros [<-|Hin]; [done|]. exfalso. apply Hr, list_elem_of_fmap. by exists (mk_tag (tag_name r) v (tag_item r)).
  - rewrite IH. split; [auto|]. intros [<-|]; [|done]. apply is_tag_false in He. by destruct He.
Qed.
End table_lemmas.
