(* ===== verification/SqliteFacts.v ===== *)
(** * SqliteFacts: the default storage keeps its contract

    The invariant of the tables, the map that they stand for, and the proof that
    [SQLiteStorage] is a [WalletStorage] in the sense of [Storage.v] when foreign keys are
    enforced.  When they are not, deleting an item leaves its tags behind. *)

From stdpp Require Import gmap.
From S2P Require Import Prelude Errors Json Wql PoolTypes Encryption QueryEncryption WqlToSql Storage SqliteStorage.

(** ** The invariant and the map *)

Definition item_key_of (i : ItemRow) : bytes * bytes := (item_type i, item_name i).

Record db_inv (db : Database) : Prop := {
  inv_ids : NoDup (item_id <$> items db);
  inv_keys : NoDup (item_key_of <$> items db);
  inv_encrypted : tbl_ok (encrypted_tags db);
  inv_plain : tbl_ok (plain_tags db);
  inv_encrypted_items : Forall (fun r => tag_item r ∈ item_id <$> items db) (encrypted_tags db);
  inv_plain_items : Forall (fun r => tag_item r ∈ item_id <$> items db) (plain_tags db);
}.

Definition tags_of (id : Z) (db : Database) : TagMap := list_to_map (item_tags id db).

Definition entry_of (db : Database) (i : ItemRow) : Entry :=
  mk_entry (mk_encrypted_value (item_value i) (item_key i)) (tags_of (item_id i) db).

Definition sqlite_map (db : Database) : StorageMap :=
  list_to_map ((fun i => (item_key_of i, entry_of db i)) <$> items db).

(** ** The tags of an item *)

Lemma tbl_names_NoDup {V} (f : bytes -> TagName) (tbl : list (TagRec V)) id : Inj (=) (=) f -> tbl_ok tbl ->
  NoDup ((fun r => f (tag_name r)) <$> filter (fun r => tag_item r = id) tbl).
Proof.
  intros Hf Ht%(tbl_ok_filter (fun r => tag_item r = id)). unfold tbl_ok in Ht.
  assert (Forall (fun r => tag_item r = id) (filter (fun r => tag_item r = id) tbl)) as Hid.
  { apply Forall_forall. by intros r [? _]%list_elem_of_filter. }
  revert Ht Hid. generalize (filter (fun r => tag_item r = id) tbl) as l. intros l.
  induction l as [|r l IH]; cbn; [by constructor|]. intros [Hr Hl]%NoDup_cons [Hi Hid]%Forall_cons.
  apply NoDup_cons. split; [|by apply IH]. intros (r' & He & Hr')%list_elem_of_fmap. apply (inj f) in He.
  apply Hr, list_elem_of_fmap. exists r'. split; [|done]. rewrite Forall_forall in Hid. rewrite He, Hi. by rewrite (Hid r').
Qed.

Lemma item_tags_NoDup id db : db_inv db -> NoDup (item_tags id db).*1.
Proof.
  intros Hdb. unfold item_tags. rewrite fmap_app, <-!list_fmap_compose. apply NoDup_app. split_and!.
  - apply (tbl_names_NoDup PlainTagName); [by intros ?? [=]|apply Hdb].
  - intros n (r & -> & _)%list_elem_of_fmap (r' & He & _)%list_elem_of_fmap. done.
  - apply (tbl_names_NoDup EncryptedTagName); [by intros ?? [=]|apply Hdb].
Qed.

(** The value of a tag in its table. *)
Definition tag_lookup (n : TagName) (id : Z) (db : Database) : option TargetValue :=
  match n with
  | PlainTagName n => Unencrypted <$> tbl_lookup n id (plain_tags db)
  | EncryptedTagName n => Encrypted <$> tbl_lookup n id (encrypted_tags db)
  end.

Lemma tags_of_lookup id db n : db_inv db -> tags_of id db !! n = tag_lookup n id db.
Proof.
  intros Hdb. apply option_eq. intros v. unfold tags_of.
  rewrite <-elem_of_list_to_map by by apply item_tags_NoDup. unfold item_tags.
  rewrite elem_of_app, !list_elem_of_fmap. unfold tag_lookup. destruct n as [n|n]; rewrite fmap_Some; split.
  - intros [(r & [=] & _)|(r & [= -> ->] & [Hi Hr]%list_elem_of_filter)]. exists (tag_value r). split; [|done].
    apply tbl_lookup_elem; [apply Hdb|]. rewrite <-Hi. by destruct r.
  - intros (x & Hx%tbl_lookup_elem & ->); [|apply Hdb]. right. exists (mk_tag n x id). split; [done|].
    by apply list_elem_of_filter.
  - intros [(r & [= -> ->] & [Hi Hr]%list_elem_of_filter)|(r & [=] & _)]. exists (tag_value r). split; [|done].
    apply tbl_lookup_elem; [apply Hdb|]. rewrite <-Hi. by destruct r.
  - intros (x & Hx%tbl_lookup_elem & ->); [|apply Hdb]. left. exists (mk_tag n x id). split; [done|].
    by apply list_elem_of_filter.
Qed.

Lemma tags_of_perm id db : db_inv db -> map_to_list (tags_of id db) ≡ₚ item_tags id db.
Proof. intros Hdb. unfold tags_of. by apply map_to_list_to_map, item_tags_NoDup. Qed.

(** ** The map of the items *)

Lemma sqlite_map_lookup db t n e : db_inv db ->
  sqlite_map db !! (t, n) = Some e <-> exists i, i ∈ items db /\ item_key_of i = (t, n) /\ e = entry_of db i.
Proof.
  intros Hdb. unfold sqlite_map. rewrite <-elem_of_list_to_map.
  - rewrite list_elem_of_fmap. split; [intros (i & [= -> -> ->] & Hi); eauto|].
    intros (i & Hi & Hk & ->). exists i. by rewrite Hk.
  - rewrite <-list_fmap_compose. apply Hdb.
Qed.

Lemma NoDup_fmap_same {A B} (f : A -> B) l x y : NoDup (f <$> l) -> x ∈ l -> y ∈ l -> f x = f y -> x = y.
Proof.
  induction l as [|z l IH]; cbn; [set_solver|]. intros [Hz Hl]%NoDup_cons.
  rewrite !elem_of_cons. intros [->|Hx] [->|Hy] He; auto; exfalso; apply Hz, list_elem_of_fmap; eauto.
Qed.

Lemma same_key db i j : db_inv db -> i ∈ items db -> j ∈ items db -> item_key_of i = item_key_of j -> i = j.
Proof. intros Hdb. apply NoDup_fmap_same, Hdb. Qed.

Lemma same_id db i j : db_inv db -> i ∈ items db -> j ∈ items db -> item_id i = item_id j -> i = j.
Proof. intros Hdb. apply NoDup_fmap_same, Hdb. Qed.

Lemma sqlite_map_None db t n : db_inv db ->
  sqlite_map db !! (t, n) = None <-> forall i, i ∈ items db -> item_key_of i <> (t, n).
Proof.
  intros Hdb. rewrite eq_None_not_Some. split.
  - intros Hn i Hi Hk. apply Hn. exists (entry_of db i). apply sqlite_map_lookup; eauto.
  - intros Hn [e (i & Hi & Hk & _)%sqlite_map_lookup]; [|done]. by apply (Hn i).
Qed.

Lemma is_item_true t n i : is_item t n i = true <-> item_key_of i = (t, n).
Proof. unfold is_item, item_key_of. rewrite andb_true_iff, !bool_decide_eq_true. naive_solver. Qed.

Lemma filter_none {A} (P : A -> Prop) `{forall x, Decision (P x)} l : (forall x, x ∈ l -> ~ P x) -> filter P l = [].
Proof.
  intros Hl. induction l as [|x l IH]; [done|]. rewrite filter_cons, decide_False by (apply Hl; by left).
  apply IH. intros y Hy. apply Hl. by right.
Qed.

Lemma filter_all {A} (P : A -> Prop) `{forall x, Decision (P x)} (l : list A) : (forall x, x ∈ l -> P x) -> filter P l = l.
Proof.
  intros Hl. induction l as [|x l IH]; [done|]. rewrite filter_cons, decide_True by (apply Hl; by left).
  f_equal. apply IH. intros y Hy. apply Hl. by right.
Qed.

Lemma filter_unique {A} (P : A -> Prop) `{forall x, Decision (P x)} l x :
  NoDup l -> x ∈ l -> P x -> (forall y, y ∈ l -> P y -> y = x) -> filter P l = [x].
Proof.
  intros Hl Hx HP Hu. induction l as [|y l IH]; [set_solver|].
  apply NoDup_cons in Hl as [Hy Hl]. rewrite filter_cons. apply elem_of_cons in Hx as [->|Hx].
  - rewrite decide_True by done. f_equal. apply filter_none. intros z Hz HPz.
    apply Hy. rewrite <-(Hu z); [done|by right|done].
  - destruct (decide (P y)) as [HPy|HPy].
    + rewrite (Hu y) in Hy; [done|by left|done].
    + apply IH; [done..|]. intros z Hz. apply Hu. by right.
Qed.

Lemma items_NoDup db : db_inv db -> NoDup (items db).
Proof. intros Hdb. apply (NoDup_fmap_1 item_id), Hdb. Qed.

Lemma filter_item db i t n : db_inv db -> i ∈ items db -> item_key_of i = (t, n) ->
  filter (fun i => is_item t n i = true) (items db) = [i].
Proof.
  intros Hdb Hi Hk. apply filter_unique; [by apply items_NoDup|done|by apply is_item_true|].
  intros j Hj Hkj%is_item_true. apply (same_key db); congruence.
Qed.

Lemma filter_no_item db t n : (forall i, i ∈ items db -> item_key_of i <> (t, n)) ->
  filter (fun i => is_item t n i = true) (items db) = [].
Proof. intros Hn. apply filter_none. intros i Hi Hk%is_item_true. by apply (Hn i). Qed.

Section find.
Context `{Sqlite}.

(** Looking an item up. *)
Lemma find_item_spec db t n : db_inv db ->
  match sqlite_map db !! (t, n) with
  | Some e => exists i, i ∈ items db /\ item_key_of i = (t, n) /\ e = entry_of db i /\ find_item t n db = (Ok i, db)
  | None => find_item t n db = (Err WalletItemNotFound, db)
  end.
Proof.
  intros Hdb. destruct (sqlite_map db !! (t, n)) as [e|] eqn:He.
  - apply sqlite_map_lookup in He as (i & Hi & Hk & ->); [|done]. exists i. split_and!; try done.
    unfold find_item, select_item. rewrite (filter_item db i) by done.
    assert (scan [i] = [i]) as -> by (by apply Permutation_singleton_r; rewrite scan_perm). done.
  - pose proof (proj1 (sqlite_map_None db t n Hdb) He) as Hn. unfold find_item, select_item. rewrite filter_no_item by done.
    assert (scan (@nil ItemRow) = []) as -> by (by apply Permutation_nil_r; rewrite scan_perm). done.
Qed.
End find.

(** ** Changes of the tags of one item *)

(** [db'] is [db] with the tags of item [id] changed by [f]. *)
Definition retagged (id : Z) (f : TagMap -> TagMap) (db db' : Database) : Prop :=
  db_inv db' /\ items db' = items db /\ metadata db' = metadata db /\
  forall id', tags_of id' db' = if decide (id' = id) then f (tags_of id' db) else tags_of id' db.

Lemma retagged_trans id f g db db' db'' :
  retagged id f db db' -> retagged id g db' db'' -> retagged id (fun m => g (f m)) db db''.
Proof.
  intros (Hi & Hit & Hm & Ht) (Hi' & Hit' & Hm' & Ht'). split_and!; [done|congruence|congruence|].
  intros id'. rewrite Ht', Ht. by case_decide.
Qed.

Lemma retagged_id id db : db_inv db -> retagged id (fun m => m) db db.
Proof. intros Hdb. split_and!; try done. intros id'. by case_decide. Qed.

Lemma retagged_ext id f g db db' : f (tags_of id db) = g (tags_of id db) -> retagged id f db db' -> retagged id g db db'.
Proof.
  intros Hfg (? & ? & ? & Ht). split_and!; try done. intros id'. rewrite Ht. by case_decide; subst.
Qed.

(** Tags are changed table by table; it is enough to look at one name. *)
Lemma retagged_lookup id f db db' : db_inv db -> db_inv db' -> items db' = items db -> metadata db' = metadata db ->
  (forall id' n, tag_lookup n id' db' =
    if decide (id' = id) then f (tags_of id' db) !! n else tag_lookup n id' db) ->
  retagged id f db db'.
Proof.
  intros Hdb Hdb' Hi Hm Hl. split_and!; try done. intros id'. apply map_eq. intros n.
  rewrite tags_of_lookup, Hl by done. case_decide; [done|]. by rewrite tags_of_lookup.
Qed.

Definition db_set_encrypted f db := set_encrypted f db.

Lemma inv_set_encrypted f db : db_inv db -> tbl_ok (f (encrypted_tags db)) ->
  Forall (fun r => tag_item r ∈ item_id <$> items db) (f (encrypted_tags db)) -> db_inv (set_encrypted f db).
Proof. intros [] ??. by constructor. Qed.

Lemma inv_set_plain f db : db_inv db -> tbl_ok (f (plain_tags db)) ->
  Forall (fun r => tag_item r ∈ item_id <$> items db) (f (plain_tags db)) -> db_inv (set_plain f db).
Proof. intros [] ??. by constructor. Qed.

Lemma Forall_filter_sub {A} (P : A -> Prop) (Q : A -> Prop) `{forall x, Decision (Q x)} l :
  Forall P l -> Forall P (filter Q l).
Proof. rewrite !Forall_forall. intros Hl x [_ Hx]%list_elem_of_filter. auto. Qed.

(** *** Single statements *)

Definition tag_key (tag : Tag.t) : TagName := (stored_row tag).1.
Definition tag_val (tag : Tag.t) : TargetValue := (stored_row tag).2.

Lemma replace_ok {V} id n (v : V) tbl : tbl_ok tbl -> tbl_ok (replace_tag id n v tbl).
Proof.
  intros Ht. apply (tbl_ok_app_one (mk_tag n v id)); [by apply tbl_ok_filter|].
  cbn. rewrite tbl_lookup_delete. by rewrite decide_True.
Qed.

Lemma replace_items {V} id n (v : V) tbl (ids : list Z) : id ∈ ids ->
  Forall (fun r => tag_item r ∈ ids) tbl -> Forall (fun r => tag_item r ∈ ids) (replace_tag id n v tbl).
Proof.
  intros Hid Ht. apply Forall_app. split; [by apply Forall_filter_sub|]. by repeat constructor.
Qed.

Lemma tbl_lookup_replace {V} id n (v : V) n' id' tbl :
  tbl_lookup n' id' (replace_tag id n v tbl) = if decide (n' = n /\ id' = id) then Some v else tbl_lookup n' id' tbl.
Proof.
  unfold replace_tag. rewrite tbl_lookup_snoc by (rewrite tbl_lookup_delete; by rewrite decide_True).
  case_decide; [done|]. rewrite tbl_lookup_delete. by rewrite decide_False.
Qed.

Lemma has_id_elem id db : id ∈ item_id <$> items db -> has_id id db = true.
Proof.
  intros (i & -> & Hi)%list_elem_of_fmap. unfold has_id. apply existsb_exists. exists i.
  split; [by apply list_elem_of_In|by apply bool_decide_eq_true].
Qed.

Section changes.
Context `{Sqlite}.

Lemma no_foreign_violation id db : id ∈ item_id <$> items db -> foreign_keys && negb (has_id id db) = false.
Proof. intros ->%has_id_elem. apply andb_false_r. Qed.

Lemma replace_statement_spec id tag db : db_inv db -> id ∈ item_id <$> items db ->
  exists db', replace_statement id tag db = (Ok tt, db') /\ retagged id <[tag_key tag := tag_val tag]> db db'.
Proof.
  intros Hdb Hid. unfold replace_statement. rewrite no_foreign_violation by done.
  destruct tag as [n v|n v]; eexists; (split; [done|]).
  - apply retagged_lookup; try done.
    + apply inv_set_encrypted; [done|by apply replace_ok, Hdb|by apply replace_items; [|apply Hdb]].
    + intros id' n'. cbn [tag_key tag_val stored_row fst snd]. rewrite lookup_insert, tags_of_lookup by done.
      destruct n' as [n'|n']; cbn [tag_lookup set_encrypted encrypted_tags plain_tags].
      * rewrite tbl_lookup_replace. repeat case_decide; naive_solver.
      * repeat case_decide; naive_solver.
  - apply retagged_lookup; try done.
    + apply inv_set_plain; [done|by apply replace_ok, Hdb|by apply replace_items; [|apply Hdb]].
    + intros id' n'. cbn [tag_key tag_val stored_row fst snd]. rewrite lookup_insert, tags_of_lookup by done.
      destruct n' as [n'|n']; cbn [tag_lookup set_plain encrypted_tags plain_tags].
      * repeat case_decide; naive_solver.
      * rewrite tbl_lookup_replace. repeat case_decide; naive_solver.
Qed.

(** Without a row to replace, inserting is replacing. *)
Lemma insert_is_replace {V} id n (v : V) tbl : tbl_lookup n id tbl = None ->
  insert_tag id n v tbl = Some (replace_tag id n v tbl).
Proof.
  intros Hn. unfold insert_tag, replace_tag. rewrite tbl_lookup_existsb, Hn. cbn. do 2 f_equal.
  unfold delete_tag. symmetry. induction tbl as [|r tbl IH]; [done|]. cbn in Hn. rewrite filter_cons.
  destruct (is_tag n id r) eqn:Hr; [done|]. rewrite decide_True by done. f_equal. by apply IH.
Qed.

Lemma insert_statement_spec id tag db : db_inv db -> tags_of id db !! tag_key tag = None ->
  insert_statement id tag db = replace_statement id tag db.
Proof.
  intros Hdb Hn. rewrite tags_of_lookup in Hn by done. unfold insert_statement, replace_statement.
  case_match; [done|]. destruct tag as [n v|n v]; cbn in Hn; apply fmap_None in Hn; by rewrite insert_is_replace.
Qed.

Lemma delete_ok {V} id n (tbl : list (TagRec V)) : tbl_ok tbl -> tbl_ok (delete_tag id n tbl).
Proof. apply tbl_ok_filter. Qed.

Lemma delete_statement_spec id name db : db_inv db ->
  exists db', delete_statement id name db = (Ok tt, db') /\ retagged id (delete (tag_name_key_of name)) db db'.
Proof.
  intros Hdb. destruct name as [n|n]; eexists; (split; [done|]).
  - apply retagged_lookup; try done.
    + apply inv_set_encrypted; [done|apply delete_ok, Hdb|apply Forall_filter_sub, Hdb].
    + intros id' n'. cbn [tag_name_key_of]. rewrite lookup_delete, tags_of_lookup by done.
      destruct n' as [n'|n']; cbn [tag_lookup set_encrypted encrypted_tags plain_tags].
      * rewrite tbl_lookup_delete. repeat case_decide; naive_solver.
      * repeat case_decide; naive_solver.
  - apply retagged_lookup; try done.
    + apply inv_set_plain; [done|apply delete_ok, Hdb|apply Forall_filter_sub, Hdb].
    + intros id' n'. cbn [tag_name_key_of]. rewrite lookup_delete, tags_of_lookup by done.
      destruct n' as [n'|n']; cbn [tag_lookup set_plain encrypted_tags plain_tags].
      * repeat case_decide; naive_solver.
      * rewrite tbl_lookup_delete. repeat case_decide; naive_solver.
Qed.

Lemma delete_item_tags_spec id db : db_inv db ->
  retagged id (fun _ => ∅) db (set_plain (delete_item_tags id) (set_encrypted (delete_item_tags id) db)).
Proof.
  intros Hdb. apply retagged_lookup; try done.
  - apply inv_set_plain; [apply inv_set_encrypted; [done|..]|..]; cbn;
      solve [apply tbl_ok_filter, Hdb|apply Forall_filter_sub, Hdb].
  - intros id' n. rewrite lookup_empty.
    destruct n as [n|n]; cbn [tag_lookup set_plain set_encrypted encrypted_tags plain_tags];
      rewrite tbl_lookup_delete_item; by case_decide.
Qed.
End changes.

(** *** Loops over tags *)

Definition fold_tags (tags : list Tag.t) (m : TagMap) : TagMap :=
  foldl (fun m r => <[r.1 := r.2]> m) m (stored_rows tags).

Lemma fold_tags_union tags m : fold_tags tags m = tag_map tags ∪ m.
Proof.
  unfold tag_map, fold_tags. induction (stored_rows tags) as [|r l IH] using rev_ind; cbn.
  - by rewrite (left_id_L ∅ (∪)).
  - rewrite !foldl_app. cbn. by rewrite IH, insert_union_l.
Qed.

Lemma forM_cons {E S A} (f : A -> StateM E S unit) x l s s' : f x s = (Ok tt, s') -> forM f (x :: l) s = forM f l s'.
Proof. intros Hx. cbn [forM]. by rewrite bind_run, Hx. Qed.

Lemma forM_error {E S A} (f : A -> StateM E S unit) x l s e : (f x s).1 = Err e -> (forM f (x :: l) s).1 = Err e.
Proof. intros Hx. cbn [forM]. rewrite bind_run. destruct (f x s) as [[]]; by cbn in *; simplify_eq. Qed.

Lemma sql_Ok {A} (m : Sql A) db a db' : m db = (Ok a, db') -> sql m db = (Ok a, db').
Proof. intros Hm. unfold sql. by rewrite Hm. Qed.

Section loops.
Context `{Sqlite}.

Lemma replace_loop id tags : forall db, db_inv db -> id ∈ item_id <$> items db ->
  exists db', forM (fun tag => sql (replace_statement id tag)) tags db = (Ok tt, db') /\
    retagged id (fold_tags tags) db db'.
Proof.
  induction tags as [|tag tags IH]; intros db Hdb Hid; [eexists; split; [done|by apply retagged_id]|].
  destruct (replace_statement_spec id tag db Hdb Hid) as (db1 & Hr & Ht).
  destruct (IH db1) as (db2 & Hl & Ht2); [apply Ht|destruct Ht as (_ & -> & _); done|].
  exists db2. rewrite (forM_cons _ _ _ _ db1) by (by apply sql_Ok). split; [done|].
  eapply retagged_ext; [|exact (retagged_trans _ _ _ _ _ _ Ht Ht2)]. done.
Qed.

Lemma insert_loop id tags : forall db, db_inv db -> id ∈ item_id <$> items db -> distinct_names tags ->
  (forall tag, tag ∈ tags -> tags_of id db !! tag_key tag = None) ->
  forM (fun tag => sql (insert_statement id tag)) tags db = forM (fun tag => sql (replace_statement id tag)) tags db.
Proof.
  induction tags as [|tag tags IH]; intros db Hdb Hid Hd Hn; [done|].
  destruct (replace_statement_spec id tag db Hdb Hid) as (db1 & Hr & Ht).
  unfold distinct_names in Hd. cbn in Hd. apply NoDup_cons in Hd as [Hnew Hd].
  rewrite (forM_cons (fun tag => sql (insert_statement id tag)) _ _ _ db1).
  2: { apply sql_Ok. rewrite insert_statement_spec; [done..|]. apply Hn. by left. }
  rewrite (forM_cons (fun tag => sql (replace_statement id tag)) _ _ _ db1) by (by apply sql_Ok).
  destruct Ht as (Hdb1 & Hi & _ & Ht). apply IH; [done|by rewrite Hi|done|].
  intros tag' Htag'. rewrite Ht, decide_True by done. rewrite lookup_insert_ne.
  - apply Hn. by right.
  - intros He. apply Hnew. rewrite <-list_fmap_compose. apply list_elem_of_fmap. exists tag'. by split.
Qed.

Lemma delete_loop id names : forall db, db_inv db ->
  exists db', forM (fun name => sql (delete_statement id name)) names db = (Ok tt, db') /\
    retagged id (fun m => foldl (fun m name => delete (tag_name_key_of name) m) m names) db db'.
Proof.
  induction names as [|name names IH]; intros db Hdb; [eexists; split; [done|by apply retagged_id]|].
  destruct (delete_statement_spec id name db Hdb) as (db1 & Hr & Ht).
  destruct (IH db1) as (db2 & Hl & Ht2); [apply Ht|].
  exists db2. rewrite (forM_cons _ _ _ _ db1) by (by apply sql_Ok). split; [done|].
  eapply retagged_ext; [|exact (retagged_trans _ _ _ _ _ _ Ht Ht2)]. done.
Qed.
End loops.

(** ** Changes of the map *)

Lemma item_in_ids db i : i ∈ items db -> item_id i ∈ item_id <$> items db.
Proof. intros Hi. apply list_elem_of_fmap. eauto. Qed.

(** A change of the tags of one item, seen in the map. *)
Lemma retagged_map db db' i f t n : db_inv db -> i ∈ items db -> item_key_of i = (t, n) ->
  retagged (item_id i) f db db' ->
  sqlite_map db' =
    <[(t, n) := mk_entry (entry_value (entry_of db i)) (f (entry_tags (entry_of db i)))]> (sqlite_map db).
Proof.
  intros Hdb Hi Hk (Hdb' & Hit & _ & Ht). apply map_eq. intros [t' n']. apply option_eq. intros x.
  rewrite sqlite_map_lookup, lookup_insert_Some, sqlite_map_lookup, Hit by done. unfold entry_of. cbn. split.
  - intros (j & Hj & Hkj & ->). rewrite Ht. destruct (decide (j = i)) as [->|Hne].
    + left. rewrite decide_True by done. split; congruence.
    + right. rewrite decide_False by (intros ?; apply Hne; by apply (same_id db)). split; [|eauto].
      intros He. apply Hne, (same_key db); congruence.
  - intros [[He <-]|(Hne & j & Hj & Hkj & ->)].
    + exists i. rewrite Ht, decide_True by done. split_and!; congruence.
    + exists j. rewrite Ht, decide_False; [done|]. intros Hid. apply Hne.
      rewrite <-Hk, <-Hkj. f_equal. by apply (same_id db).
Qed.

(** The value of one item replaced, in the table and in the map. *)
Definition revalued (t n value key : bytes) (db : Database) : Database :=
  set_items (fmap (fun i =>
    if is_item t n i then mk_item (item_id i) (item_type i) (item_name i) value key else i)) db.

Lemma revalued_inv t n value key db : db_inv db -> db_inv (revalued t n value key db).
Proof.
  intros [H1 H2 H3 H4 H5 H6].
  assert (item_id <$> items (revalued t n value key db) = item_id <$> items db) as Hids.
  { cbn. rewrite <-list_fmap_compose. apply list_fmap_ext. intros ? i _. unfold compose. by destruct (is_item t n i). }
  constructor; rewrite ?Hids; try done. cbn. rewrite <-list_fmap_compose.
  erewrite list_fmap_ext; [exact H2|]. intros ? i _. unfold compose. by destruct (is_item t n i).
Qed.

Lemma revalued_map t n value key db i : db_inv db -> i ∈ items db -> item_key_of i = (t, n) ->
  sqlite_map (revalued t n value key db) =
    <[(t, n) := mk_entry (mk_encrypted_value value key) (tags_of (item_id i) db)]> (sqlite_map db).
Proof.
  intros Hdb Hi Hk. pose proof (revalued_inv t n value key db Hdb) as Hdb'.
  apply map_eq. intros [t' n']. apply option_eq. intros x.
  rewrite sqlite_map_lookup, lookup_insert_Some, sqlite_map_lookup by done. split.
  - intros (j & (j0 & -> & Hj0)%list_elem_of_fmap & Hkj & ->). destruct (is_item t n j0) eqn:Hij.
    + left. apply is_item_true in Hij. assert (j0 = i) as -> by (apply (same_key db); congruence).
      change (item_key_of i = (t', n')) in Hkj. split; [congruence|done].
    + right. split; [|by exists j0]. intros He. rewrite <-He, <-is_item_true, Hij in Hkj. done.
  - intros [[He <-]|(Hne & j & Hj & Hkj & ->)].
    + exists (mk_item (item_id i) (item_type i) (item_name i) value key). split_and!; [|by rewrite <-He|done].
      apply list_elem_of_fmap. exists i. split; [|done]. by rewrite (proj2 (is_item_true t n i)).
    + exists j. split_and!; [|done|done]. apply list_elem_of_fmap. exists j. split; [|done].
      destruct (is_item t n j) eqn:Hij; [|done]. apply is_item_true in Hij. congruence.
Qed.

(** A new row. *)
Lemma next_rowid_fresh l i : i ∈ l -> (item_id i < next_rowid l)%Z.
Proof.
  unfold next_rowid. induction l as [|j l IH]; [set_solver|]. cbn [fmap list_fmap foldr].
  intros [->|Hi]%elem_of_cons; [lia|]. specialize (IH Hi). lia.
Qed.

Definition with_item (i : ItemRow) (db : Database) : Database := set_items (fun l => l ++ [i]) db.

Lemma new_item_tags db : db_inv db -> tags_of (next_rowid (items db)) db = ∅.
Proof.
  intros Hdb. unfold tags_of, item_tags. rewrite !filter_none; [done|..].
  - intros r Hr Hid. pose proof (inv_encrypted_items _ Hdb) as Hf. rewrite Forall_forall in Hf.
    apply Hf, list_elem_of_fmap in Hr as (i & He & Hi). apply next_rowid_fresh in Hi. lia.
  - intros r Hr Hid. pose proof (inv_plain_items _ Hdb) as Hf. rewrite Forall_forall in Hf.
    apply Hf, list_elem_of_fmap in Hr as (i & He & Hi). apply next_rowid_fresh in Hi. lia.
Qed.

Lemma with_item_inv db t n value key : db_inv db -> (forall i, i ∈ items db -> item_key_of i <> (t, n)) ->
  db_inv (with_item (mk_item (next_rowid (items db)) t n value key) db).
Proof.
  intros Hdb Hn. 
  constructor; cbn [with_item set_items items encrypted_tags plain_tags]; try apply Hdb; rewrite ?fmap_app.
  - apply NoDup_app. split_and!; [apply Hdb| |apply NoDup_singleton].
    intros id (i & -> & Hi)%list_elem_of_fmap Hid%list_elem_of_singleton. apply next_rowid_fresh in Hi. cbn in Hid. lia.
  - apply NoDup_app. split_and!; [apply Hdb| |apply NoDup_singleton].
    intros k (i & -> & Hi)%list_elem_of_fmap Hk%list_elem_of_singleton. by apply (Hn i).
  - eapply Forall_impl; [apply Hdb|]. cbn. intros r Hr. apply elem_of_app. by left.
  - eapply Forall_impl; [apply Hdb|]. cbn. intros r Hr. apply elem_of_app. by left.
Qed.

Lemma with_item_map db t n value key : db_inv db -> (forall i, i ∈ items db -> item_key_of i <> (t, n)) ->
  sqlite_map (with_item (mk_item (next_rowid (items db)) t n value key) db) =
    <[(t, n) := mk_entry (mk_encrypted_value value key) ∅]> (sqlite_map db).
Proof.
  intros Hdb Hn. pose proof (with_item_inv db t n value key Hdb Hn) as Hdb'.
  apply map_eq. intros [t' n']. apply option_eq. intros x.
  rewrite sqlite_map_lookup, lookup_insert_Some, sqlite_map_lookup by done. cbn [with_item set_items items]. split.
  - intros (j & [Hj|Hj%list_elem_of_singleton]%elem_of_app & Hkj & ->).
    + right. split; [intros He; apply (Hn j); congruence|]. eauto.
    + left. subst j. split; [done|]. unfold entry_of. cbn. f_equal. symmetry. by apply new_item_tags.
  - intros [[He <-]|(Hne & j & Hj & Hkj & ->)].
    + eexists. split; [apply elem_of_app; right; by apply list_elem_of_singleton|]. split; [done|].
      unfold entry_of. cbn. f_equal. symmetry. by apply new_item_tags.
    + exists j. split_and!; [apply elem_of_app; by left|done|done].
Qed.

(** An item and its tags removed. *)
Definition without_item (i : ItemRow) (db : Database) : Database :=
  set_encrypted (filter (fun r => tag_item r ∉ [item_id i])) (set_plain (filter (fun r => tag_item r ∉ [item_id i]))
    (set_items (filter (fun j => is_item (item_type i) (item_name i) j = false)) db)).

Lemma is_item_false t n i : is_item t n i = false <-> item_key_of i <> (t, n).
Proof. by rewrite <-not_true_iff_false, is_item_true. Qed.

Lemma NoDup_fmap_filter {A B} (f : A -> B) (P : A -> Prop) `{forall x, Decision (P x)} l :
  NoDup (f <$> l) -> NoDup (f <$> filter P l).
Proof. intros Hl. eapply sublist_NoDup; [exact Hl|]. apply fmap_sublist, sublist_filter. Qed.

Lemma without_item_inv db i : db_inv db -> i ∈ items db -> db_inv (without_item i db).
Proof.
  intros Hdb Hi.
  assert (forall (V : Type) (tbl : list (TagRec V)), Forall (fun r => tag_item r ∈ item_id <$> items db) tbl ->
    Forall (fun r => tag_item r ∈ item_id <$> filter (fun j => is_item (item_type i) (item_name i) j = false) (items db))
      (filter (fun r => tag_item r ∉ [item_id i]) tbl)) as Htags.
  { intros V tbl. rewrite !Forall_forall. intros Ht r [Hne Hr]%list_elem_of_filter.
    apply Ht, list_elem_of_fmap in Hr as (j & He & Hj). apply list_elem_of_fmap. exists j. split; [done|].
    apply list_elem_of_filter. split; [|done]. apply is_item_false. intros Hk. apply Hne, list_elem_of_singleton.
    rewrite He. f_equal. by apply (same_key db). }
  constructor; cbn [without_item set_encrypted set_plain set_items items encrypted_tags plain_tags];
    solve [apply NoDup_fmap_filter, Hdb|apply tbl_ok_filter, Hdb|apply Htags, Hdb].
Qed.

Lemma without_item_tags db i id : db_inv db -> i ∈ items db -> id <> item_id i ->
  tags_of id (without_item i db) = tags_of id db.
Proof.
  intros Hdb Hi Hid. unfold tags_of, item_tags, without_item. cbn [set_encrypted set_plain set_items encrypted_tags plain_tags].
  assert (forall (V : Type) (tbl : list (TagRec V)),
    filter (fun r => tag_item r = id) (filter (fun r => tag_item r ∉ [item_id i]) tbl) = filter (fun r => tag_item r = id) tbl) as Hf.
  { intros V tbl. induction tbl as [|r tbl IH]; [done|]. rewrite !filter_cons.
    destruct (decide (tag_item r = id)) as [He|He].
    - rewrite decide_True by (rewrite list_elem_of_singleton; congruence). rewrite filter_cons, decide_True by done. by rewrite IH.
    - case_decide; [rewrite filter_cons, decide_False by done|]; done. }
  by rewrite !Hf.
Qed.

Lemma without_item_map db i t n : db_inv db -> i ∈ items db -> item_key_of i = (t, n) ->
  sqlite_map (without_item i db) = delete (t, n) (sqlite_map db).
Proof.
  intros Hdb Hi Hk. pose proof (without_item_inv db i Hdb Hi) as Hdb'.
  apply map_eq. intros [t' n']. apply option_eq. intros x.
  rewrite sqlite_map_lookup, lookup_delete_Some, sqlite_map_lookup by done. split.
  - intros (j & [Hne%is_item_false Hj]%list_elem_of_filter & Hkj & ->).
    change (item_key_of j <> item_key_of i) in Hne. split; [congruence|]. exists j. split_and!; [done..|].
    unfold entry_of. rewrite without_item_tags; [done..|]. intros Hid. apply Hne. f_equal. by apply (same_id db).
  - intros (Hne & j & Hj & Hkj & ->). assert (item_key_of j <> item_key_of i) as Hn by congruence. exists j. split_and!; [|done|].
    + apply list_elem_of_filter. split; [by apply is_item_false|done].
    + unfold entry_of. rewrite without_item_tags; [done..|]. intros Hid. apply Hn. f_equal. by apply (same_id db).
Qed.

(** ** The operations *)

Section operations.
Context `{Sqlite} `{OptionCodecs} `{Machine} `{LikePattern}.

Abbreviation sqlite_refines := (refines db_inv sqlite_map).

(** An operation on an existing item. *)
Lemma refines_at {A} t n (m : SqlResult A) (f : Entry -> A * Entry) :
  (forall db i, db_inv db -> i ∈ items db -> item_key_of i = (t, n) -> find_item t n db = (Ok i, db) ->
    exists db', m db = (Ok (f (entry_of db i)).1, db') /\ db_inv db' /\
      sqlite_map db' = <[(t, n) := (f (entry_of db i)).2]> (sqlite_map db)) ->
  (forall db, db_inv db -> find_item t n db = (Err WalletItemNotFound, db) ->
    (forall i, i ∈ items db -> item_key_of i <> (t, n)) -> m db = (Err WalletItemNotFound, db)) ->
  sqlite_refines eq m (spec_at t n f).
Proof.
  intros Hsome Hnone db Hdb. pose proof (find_item_spec db t n Hdb) as Hf. unfold spec_at.
  destruct (sqlite_map db !! (t, n)) as [e|] eqn:He.
  - destruct Hf as (i & Hi & Hk & -> & Hf). destruct (Hsome db i Hdb Hi Hk Hf) as (db' & -> & Hdb' & Hm).
    destruct (f (entry_of db i)) as [a e]. done.
  - rewrite (Hnone db Hdb Hf); [done|]. by apply sqlite_map_None.
Qed.

Lemma find_item_run {A} t n (k : ItemRow -> SqlResult A) db :
  find_item t n db = (Err WalletItemNotFound, db) -> (i ← find_item t n; k i) db = (Err WalletItemNotFound, db).
Proof. intros Hf. by rewrite bind_run, Hf. Qed.

Lemma transaction_Ok {A} (m : SqlResult A) db a db' : m db = (Ok a, db') -> transaction m db = (Ok a, db').
Proof. intros Hm. unfold transaction. by rewrite Hm. Qed.

Lemma transaction_Err {A} (m : SqlResult A) db e db' : m db = (Err e, db') -> transaction m db = (Err e, db).
Proof. intros Hm. unfold transaction. by rewrite Hm. Qed.

Lemma add_tags_refines t n tags : sqlite_refines eq (sqlite_add_tags t n tags) (spec_add_tags t n tags).
Proof.
  apply refines_at.
  - intros db i Hdb Hi Hk Hf. destruct (replace_loop (item_id i) tags db Hdb (item_in_ids db i Hi)) as (db' & Hl & Hr).
    exists db'. split; [|split; [apply Hr|]].
    + apply transaction_Ok. by rewrite bind_run, Hf.
    + erewrite retagged_map by done. cbn. by rewrite fold_tags_union.
  - intros db Hdb Hf _. eapply transaction_Err. by apply find_item_run.
Qed.

Lemma update_tags_refines t n tags : distinct_names tags ->
  sqlite_refines eq (sqlite_update_tags t n tags) (spec_update_tags t n tags).
Proof.
  intros Hd. apply refines_at.
  - intros db i Hdb Hi Hk Hf. pose proof (delete_item_tags_spec (item_id i) db Hdb) as Hc.
    set (db1 := set_plain _ _) in Hc. destruct Hc as (Hdb1 & Hit1 & Hm1 & Ht1).
    assert (item_id i ∈ item_id <$> items db1) as Hid by (rewrite Hit1; by apply item_in_ids).
    destruct (replace_loop (item_id i) tags db1 Hdb1 Hid) as (db' & Hl & Hr).
    exists db'. split; [|split; [apply Hr|]].
    + apply transaction_Ok. rewrite bind_run, Hf, bind_run. cbn [modify]. rewrite bind_run. cbn [modify].
      change (forM (fun tag => sql (insert_statement (item_id i) tag)) tags db1 = (Ok tt, db')).
      rewrite insert_loop; [done..|]. intros tag _. rewrite Ht1, decide_True by done. apply lookup_empty.
    + assert (retagged (item_id i) (fun m => fold_tags tags ∅) db db') as Hc.
      { refine (retagged_trans _ (fun _ => ∅) (fold_tags tags) _ db1 _ _ Hr). done. }
      erewrite (retagged_map _ _ _ _ _ _ Hdb Hi Hk Hc). cbn. by rewrite fold_tags_union, (right_id_L ∅ (∪)).
  - intros db Hdb Hf _. eapply transaction_Err. by apply find_item_run.
Qed.

Lemma delete_tags_refines t n names : sqlite_refines eq (sqlite_delete_tags t n names) (spec_delete_tags t n names).
Proof.
  apply refines_at.
  - intros db i Hdb Hi Hk Hf. destruct (delete_loop (item_id i) names db Hdb) as (db' & Hl & Hr).
    exists db'. split; [|split; [apply Hr|]].
    + unfold sqlite_delete_tags. rewrite bind_run, Hf. by apply transaction_Ok.
    + by erewrite retagged_map by done.
  - intros db Hdb Hf _. by apply find_item_run.
Qed.

Lemma update_refines t n v : sqlite_refines eq (sqlite_update t n v) (spec_update t n v).
Proof.
  apply refines_at.
  - intros db i Hdb Hi Hk _. exists (revalued t n (ev_data v) (ev_key v) db). split; [|split].
    + unfold sqlite_update. rewrite bind_run. unfold sql, update_item. by rewrite (filter_item db i).
    + by apply revalued_inv.
    + erewrite revalued_map by done. by destruct v.
  - intros db Hdb _ Hn. unfold sqlite_update. rewrite bind_run. unfold sql, update_item.
    rewrite filter_no_item by done. cbn. f_equal. unfold set_items. destruct db as [its e p m]. cbn. f_equal.
    rewrite <-(list_fmap_id its) at 2. apply list_fmap_ext. intros ? i Hi%list_elem_of_lookup_2.
    destruct (is_item t n i) eqn:He; [|done]. apply is_item_true in He. by apply Hn in He.
Qed.

(** Adding an item whose key is new. *)
Lemma add_run t n v tags db : existsb (is_item t n) (items db) = false ->
  sqlite_add t n v tags db =
    match forM (fun tag => sql (insert_statement (next_rowid (items db)) tag)) tags
      (with_item (mk_item (next_rowid (items db)) t n (ev_data v) (ev_key v)) db) with
    | (Ok a, db') => (Ok a, db')
    | (r, _) => (r, db)
    end.
Proof. intros Hn. unfold sqlite_add, transaction. rewrite bind_run. unfold sql at 1, insert_item. by rewrite Hn. Qed.

Lemma add_refines t n v tags : distinct_names tags -> sqlite_refines eq (sqlite_add t n v tags) (spec_add t n v tags).
Proof.
  intros Hd db Hdb. unfold spec_add. destruct (sqlite_map db !! (t, n)) as [e|] eqn:He.
  - apply sqlite_map_lookup in He as (i & Hi & Hk & ->); [|done].
    assert (sqlite_add t n v tags db = (Err WalletItemAlreadyExists, db)) as ->; [|done].
    eapply transaction_Err. rewrite bind_run. unfold sql, insert_item.
    assert (existsb (is_item t n) (items db) = true) as ->; [|done].
    apply existsb_exists. exists i. split; [by apply list_elem_of_In|by apply is_item_true].
  - pose proof (proj1 (sqlite_map_None db t n Hdb) He) as Hn.
    set (row := mk_item (next_rowid (items db)) t n (ev_data v) (ev_key v)).
    pose proof (with_item_inv db t n (ev_data v) (ev_key v) Hdb Hn) as Hdb1. fold row in Hdb1.
    assert (row ∈ items (with_item row db)) as Hrow by (apply elem_of_app; right; by apply list_elem_of_singleton).
    destruct (replace_loop (item_id row) tags _ Hdb1 (item_in_ids _ _ Hrow)) as (db' & Hl & Hr).
    assert (tags_of (item_id row) (with_item row db) = ∅) as Hnew by exact (new_item_tags db Hdb).
    assert (sqlite_add t n v tags db = (Ok tt, db')) as ->.
    { rewrite add_run.
      2: { apply not_true_iff_false. intros (i & Hi%list_elem_of_In & Hk%is_item_true)%existsb_exists. by apply (Hn i). }
      fold row. change (next_rowid (items db)) with (item_id row).
      rewrite insert_loop; [by rewrite Hl|done|by apply item_in_ids|done|]. intros tag _. rewrite Hnew. apply lookup_empty. }
    split; [apply Hr|]. split; [|done]. cbn [snd].
    erewrite (retagged_map _ _ row _ t n Hdb1 Hrow) by done.
    pose proof (with_item_map db t n (ev_data v) (ev_key v) Hdb Hn) as Hmap. fold row in Hmap.
    rewrite Hmap, insert_insert_eq. unfold entry_of. cbn [entry_value entry_tags].
    rewrite Hnew, fold_tags_union, (right_id_L ∅ (∪)). by destruct v.
Qed.

Lemma delete_refines t n : foreign_keys = true -> sqlite_refines eq (sqlite_delete t n) (spec_delete t n).
Proof.
  intros Hfk db Hdb. unfold spec_delete. destruct (sqlite_map db !! (t, n)) as [e|] eqn:He.
  - apply sqlite_map_lookup in He as (i & Hi & Hk & ->); [|done].
    assert (sqlite_delete t n db = (Ok tt, without_item i db)) as ->.
    { unfold sqlite_delete. rewrite bind_run. unfold sql, delete_item. rewrite Hfk, (filter_item db i) by done.
      unfold item_key_of in Hk. injection Hk as <- <-. done. }
    split; [by apply without_item_inv|]. split; [|done]. by apply without_item_map.
  - pose proof (proj1 (sqlite_map_None db t n Hdb) He) as Hn.
    assert (sqlite_delete t n db = (Err WalletItemNotFound, db)) as ->; [|done].
    unfold sqlite_delete. rewrite bind_run. unfold sql, delete_item. rewrite Hfk, filter_no_item by done. cbn.
    f_equal. destruct db as [its es ps m]. unfold set_encrypted, set_plain, set_items. cbn. cbn in Hn. f_equal.
    + apply filter_all. intros i Hi. apply is_item_false. by apply Hn.
    + apply filter_all. intros r _. apply not_elem_of_nil.
    + apply filter_all. intros r _. apply not_elem_of_nil.
Qed.

(** *** Reading *)

Lemma plain_then_encrypted_rows id db :
  stored_rows (select_plain id db ++ select_encrypted id db) ≡ₚ item_tags id db.
Proof.
  unfold stored_rows, select_plain, select_encrypted, item_tags. rewrite fmap_app, <-!list_fmap_compose.
  by rewrite !scan_perm.
Qed.

Lemma encrypted_then_plain_rows id db :
  stored_rows (select_encrypted id db ++ select_plain id db) ≡ₚ item_tags id db.
Proof. rewrite <-plain_then_encrypted_rows. unfold stored_rows. by rewrite !fmap_app, Permutation_app_comm. Qed.

Lemma get_refines t n options : refines db_inv sqlite_map (fun r x => shows x.1 t n x.2 r)
  (sqlite_get t n options) (spec_get t n options).
Proof.
  intros db Hdb. unfold sqlite_get, spec_get. rewrite !bind_run. unfold lift.
  destruct (parse_record_options options) as [opts|e| |] eqn:Ho; try done.
  2-3: unfold parse_record_options in Ho; case_decide; try done; by destruct (record_options_from_str _).
  pose proof (find_item_spec db t n Hdb) as Hf. unfold spec_at. rewrite bind_run.
  destruct (sqlite_map db !! (t, n)) as [e|] eqn:He; [|by rewrite Hf].
  destruct Hf as (i & Hi & Hk & -> & ->). rewrite bind_run. cbn [fst snd].
  assert (<[(t, n) := entry_of db i]> (sqlite_map db) = sqlite_map db) as -> by (by apply insert_id).
  destruct (retrieve_tags opts) eqn:Hrt; cbn; (split; [done|]); (split; [done|]); unfold shows; cbn; rewrite Hrt;
    split_and!; try done.
  rewrite encrypted_then_plain_rows. symmetry. by apply tags_of_perm.
Qed.

Lemma iterator_yields db opts retriever count l : db_inv db -> (retrieve_tags opts = true -> retriever = true) ->
  exists records, Forall2 (fun i r => shows opts (item_type i) (item_name i) (entry_of db i) r) l records /\
    iter_yields db (mk_iterator (Some l) retriever opts count) records.
Proof.
  intros Hdb Hr. induction l as [|i l (records & Hs & Hy)].
  { exists []. split; [constructor|]. by eapply yields_end. }
  set (tags := if retrieve_tags opts then Some (retrieve (item_id i) db) else None).
  set (r := mk_storage_record (item_name i)
    (if retrieve_value opts then Some (mk_encrypted_value (item_value i) (item_key i)) else None)
    (if retrieve_type opts then Some (item_type i) else None) tags).
  exists (r :: records). split.
  - constructor; [|done]. unfold shows, r, tags. cbn. split_and!; try done.
    destruct (retrieve_tags opts); [|done]. split; [done|]. unfold retrieve.
    rewrite plain_then_encrypted_rows. symmetry. by apply tags_of_perm.
  - eapply (yields_next _ _ (mk_iterator (Some l) retriever opts count)); [|done].
    unfold iter_next, SQLiteStorage, sqlite_next. cbn [it_rows it_options it_tag_retriever it_total_count].
    rewrite bind_run. unfold r, tags. destruct (retrieve_tags opts); [|done]. by rewrite Hr.
Qed.

(** The entries of some rows. *)
Definition row_entry (db : Database) (i : ItemRow) : bytes * bytes * Entry := (item_key_of i, entry_of db i).

Lemma rows_yield db opts retriever count l k : db_inv db -> (retrieve_tags opts = true -> retriever = true) ->
  row_entry db <$> l ≡ₚ k -> yields_entries db (mk_iterator (Some l) retriever opts count) opts k.
Proof.
  intros Hdb Hr Hl. destruct (iterator_yields db opts retriever count l Hdb Hr) as (records & Hs & Hy).
  exists (row_entry db <$> l), records. split_and!; [done| |done]. by apply Forall2_fmap_l.
Qed.

Lemma sqlite_map_perm db : db_inv db -> map_to_list (sqlite_map db) ≡ₚ row_entry db <$> items db.
Proof.
  intros Hdb. unfold sqlite_map. apply map_to_list_to_map. rewrite <-list_fmap_compose. apply Hdb.
Qed.

(** The rows that a search selects. *)
Definition matching (db : Database) (t : bytes) (op : Operator.t) : list ItemRow :=
  filter (fun i => item_type i = t /\ sat (item_tags (item_id i) db) op = true) (items db).

Lemma filter_fmap_perm {A B} (f : A -> B) (P : B -> Prop) (Q : A -> Prop) `{forall x, Decision (P x)}
    `{forall x, Decision (Q x)} (l : list A) :
  (forall x, P (f x) <-> Q x) -> filter P (f <$> l) = f <$> filter Q l.
Proof.
  intros Hpq. induction l as [|x l IH]; [done|]. cbn [fmap list_fmap]. rewrite !filter_cons.
  repeat case_decide; cbn; try rewrite IH; naive_solver.
Qed.

Lemma found_matching db t op : db_inv db -> found (sqlite_map db) t op ≡ₚ row_entry db <$> matching db t op.
Proof.
  intros Hdb. unfold found. rewrite sqlite_map_perm by done. unfold matching.
  erewrite filter_fmap_perm; [done|]. intros i. unfold row_entry, item_key_of. cbn.
  by rewrite (sat_perm _ (item_tags (item_id i) db)) by by apply tags_of_perm.
Qed.

Lemma item_tags_stored id db : exists etags, item_tags id db = stored_rows etags.
Proof.
  exists (((fun r => Tag.PlainText (tag_name r) (tag_value r)) <$> filter (fun r => tag_item r = id) (plain_tags db)) ++
          ((fun r => Tag.Encrypted (tag_name r) (tag_value r)) <$> filter (fun r => tag_item r = id) (encrypted_tags db))).
  unfold item_tags, stored_rows. by rewrite fmap_app, <-!list_fmap_compose.
Qed.

Lemma run_query_spec head t op db : storable op = true -> searchable op = true ->
  exists text args rows, to_query head t op = Ok (text, args) /\
    run_query head text args db = (Ok rows, db) /\ rows ≡ₚ matching db t op.
Proof.
  intros Hs Hr. destruct (to_query_correct head t op Hs Hr) as (text & args & c & Hq & Hread & Hc).
  assert (forall i, query_holds c args (item_type i) (item_tags (item_id i) db) =
    Some (bool_decide (item_type i = t) && sat (item_tags (item_id i) db) op)) as Hi.
  { intros i. destruct (item_tags_stored (item_id i) db) as [etags ->]. apply Hc. }
  eexists text, args, _. split; [done|]. unfold run_query. rewrite Hread.
  assert (forallb (fun i => bool_decide (is_Some (query_holds c args (item_type i) (item_tags (item_id i) db)))) (items db)
    = true) as ->.
  { apply forallb_forall. intros i _. rewrite Hi. by apply bool_decide_eq_true. }
  split; [done|]. rewrite scan_perm. unfold matching.
  erewrite list_filter_iff; [done|]. intros i. rewrite Hi. split.
  - intros [= [Ht%bool_decide_eq_true Hsat]%andb_true_iff]. done.
  - intros [Ht Hsat]. by rewrite bool_decide_true, Hsat.
Qed.

Lemma get_all_yields db : db_inv db -> exists it, sqlite_get_all db = (Ok it, db) /\
  yields_entries db it (mk_record_options true true true) (map_to_list (sqlite_map db)).
Proof.
  intros Hdb. eexists. split; [done|]. apply rows_yield; [done|done|].
  by rewrite scan_perm, sqlite_map_perm.
Qed.

Lemma search_yields db t op options opts : db_inv db -> storable op = true -> searchable op = true ->
  parse_search_options options = Ok opts ->
  exists it, sqlite_search t op options db = (Ok it, db) /\
    sqlite_total_count it =
      Ok (if search_total_count opts then Some (N.of_nat (length (found (sqlite_map db) t op))) else None) /\
    yields_entries db it (mk_record_options (search_type opts) (search_value opts) (search_tags opts))
      (if search_records opts then found (sqlite_map db) t op else []).
Proof.
  intros Hdb Hs Hr Ho. destruct (run_query_spec SELECT_COUNT t op db Hs Hr) as (text & args & counted & Hq & Hrun & Hc).
  destruct (run_query_spec SELECT_ITEMS t op db Hs Hr) as (text' & args' & rows & Hq' & Hrun' & Hp).
  assert (length counted = length (found (sqlite_map db) t op)) as Hlen.
  { rewrite found_matching by done. by rewrite length_fmap, Hc. }
  set (count := if search_total_count opts then Some (N.of_nat (length (found (sqlite_map db) t op))) else None).
  set (fetch := mk_record_options (search_type opts) (search_value opts) (search_tags opts)).
  exists (if search_records opts then mk_iterator (Some rows) (search_tags opts) fetch count
          else mk_iterator None false default_record_options count).
  split; [|split; [by destruct (search_records opts)|]].
  - unfold sqlite_search. rewrite bind_run. unfold lift at 1. rewrite Ho, bind_run.
    assert ((if search_total_count opts
      then '(query_string, query_arguments) ← lift (wql_to_sql_count t op);
           rows ← run_query SELECT_COUNT query_string query_arguments; mret (Some (N.of_nat (length rows)))
      else mret None) db = (Ok count, db)) as ->.
    { unfold count. destruct (search_total_count opts); [|done]. rewrite bind_run. unfold lift, wql_to_sql_count.
      rewrite Hq, bind_run, Hrun, <-Hlen. done. }
    destruct (search_records opts); [|done]. rewrite bind_run. unfold lift, wql_to_sql.
    by rewrite Hq', bind_run, Hrun'.
  - destruct (search_records opts).
    + apply rows_yield; [done|done|]. by rewrite found_matching, Hp by done.
    + exists [], []. split_and!; [done|constructor|]. by eapply yields_end.
Qed.

(** The default storage implements the trait's contract. *)
#[export] Instance SQLiteStorageLaws (Hfk : foreign_keys = true) :
  WalletStorageLaws Database SQLiteStorageIterator := {|
  storage_inv := db_inv;
  storage_map := sqlite_map;
  can_search := searchable;
  law_get := get_refines;
  law_add := add_refines;
  law_update := update_refines;
  law_add_tags := add_tags_refines;
  law_update_tags := update_tags_refines;
  law_delete_tags := delete_tags_refines;
  law_delete := fun t n => delete_refines t n Hfk;
  law_get_all := get_all_yields;
  law_search := search_yields;
|}.
End operations.

(** ** Theorems *)

Section theorems.
Context `{Sqlite} `{OptionCodecs} `{Machine} `{LikePattern}.


(** a search returns, one by one and without changing the tables, a record for every
    entry of the type whose tags satisfy the query and for no other, shows of each what
    the options ask for, and counts them. *)
Theorem sqlite_search_finds db t op options opts : db_inv db -> storable op = true -> searchable op = true ->
  parse_search_options options = Ok opts ->
  exists it, sqlite_search t op options db = (Ok it, db) /\
    sqlite_total_count it =
      Ok (if search_total_count opts then Some (N.of_nat (length (found (sqlite_map db) t op))) else None) /\
    yields_entries db it (mk_record_options (search_type opts) (search_value opts) (search_tags opts))
      (if search_records opts then found (sqlite_map db) t op else []).
Proof. apply search_yields. Qed.

(** without foreign keys, which [open_storage] does not switch on, deleting an item
    leaves its tags; the next item takes its number, and adding it with a tag of the same
    name fails as if the item existed, or it is given the tags that were left. *)
Theorem orphaned_tags t n t' n' v v' name value value' db : foreign_keys = false ->
  items db = [] -> encrypted_tags db = [] -> plain_tags db = [] ->
  exists db1 db2, sqlite_add t n v [Tag.Encrypted name value] db = (Ok tt, db1) /\
    sqlite_delete t n db1 = (Ok tt, db2) /\ items db2 = [] /\
    sqlite_add t' n' v' [Tag.Encrypted name value'] db2 = (Err WalletItemAlreadyExists, db2) /\
    exists db3, sqlite_add t' n' v' [] db2 = (Ok tt, db3) /\
      exists i, items db3 = [i] /\ item_key_of i = (t', n') /\
        item_tags (item_id i) db3 = [(EncryptedTagName name, Encrypted value)].
Proof.
  intros Hfk Hi He Hp. destruct db as [its es ps m]. cbn in Hi, He, Hp. subst.
  set (row := mk_item 1 t n (ev_data v) (ev_key v)). set (tag := mk_tag name value 1%Z).
  exists (mk_database [row] [tag] [] m), (mk_database [] [tag] [] m).
  assert (is_tag name 1%Z tag = true) as Htag by (by apply is_tag_true).
  assert (is_item t n row = true) as Hrow by (by apply is_item_true).
  split_and!; try done.
  - eapply transaction_Ok. rewrite bind_run. cbn [sql insert_item existsb items].
    unfold sql, insert_item. cbn [items existsb set_items app]. cbn [forM]. rewrite bind_run.
    unfold insert_statement. by rewrite Hfk.
  - unfold sqlite_delete. rewrite bind_run. unfold sql, delete_item. cbn [items].
    rewrite Hfk, filter_cons, decide_True by done. unfold set_items. cbn [items encrypted_tags plain_tags metadata].
    rewrite filter_cons, decide_False by (by rewrite Hrow). done.
  - rewrite add_run by done. cbn [items].
    assert ((forM (fun tag => sql (insert_statement (next_rowid []) tag)) [Tag.Encrypted name value']
      (with_item (mk_item (next_rowid []) t' n' (ev_data v') (ev_key v')) (mk_database [] [tag] [] m))).1 =
      Err WalletItemAlreadyExists) as Herr; [|by destruct (forM _ _ _) as [[]]; cbn in *; simplify_eq].
    apply forM_error. unfold sql, insert_statement. rewrite Hfk. unfold insert_tag. cbn [andb encrypted_tags existsb with_item set_items].
    change (next_rowid _) with 1%Z. by rewrite Htag.
  - eexists. split; [by apply transaction_Ok|]. eexists. split; [done|]. done.
Qed.
End theorems.

(** ** Witnesses *)

Definition toy_sqlite (fk : bool) : Sqlite := {| foreign_keys := fk; scan := fun A l => l; scan_perm := fun A l => Permutation_refl l |}.

Definition toy_options : OptionCodecs := {|
  record_options_from_str := fun s => if decide (s = "all"%string) then Some (mk_record_options true true true) else None;
  record_options_to_string := fun _ => "all"%string;
  search_options_from_str := fun s =>
    if decide (s = "all"%string) then Some (mk_search_options true true true true true) else None;
  search_options_to_string := fun _ => "all"%string;
|}.

Definition empty_db : Database := mk_database [] [] [] [[]].

Lemma empty_db_inv : db_inv empty_db.
Proof. constructor; constructor. Qed.

Definition sample_value : EncryptedValue := mk_encrypted_value [Byte.x01] [Byte.x02].
Definition sample_tags : list Tag.t := [Tag.Encrypted [Byte.x61] [Byte.x62]; Tag.PlainText [Byte.x63] "5"].

Lemma sample_tags_distinct : distinct_names sample_tags.
Proof. apply (bool_decide_unpack _). by vm_compute. Qed.

Definition sample_db : Database := (sqlite_add (H:=toy_sqlite true) [Byte.x74] [Byte.x6e] sample_value sample_tags empty_db).2.

Lemma sample_db_inv : db_inv sample_db.
Proof. apply (add_refines (H:=toy_sqlite true)); [apply sample_tags_distinct|apply empty_db_inv]. Qed.


Lemma sqlite_search_finds_witness :
  let op := Operator.In (EncryptedTagName [Byte.x61]) [Encrypted [Byte.x60]; Encrypted [Byte.x62]] in
  let search := sqlite_search (H:=toy_sqlite true) (H0:=toy_options) (H1:=debug_machine) (H2:=ToyLike) in
  length (found (H:=ToyLike) (sqlite_map sample_db) [Byte.x74] op) = 1 /\
  exists it, search [Byte.x74] op (Some "all"%string) sample_db = (Ok it, sample_db) /\
    sqlite_total_count it = Ok (Some 1%N) /\
    yields_entries (H:=SQLiteStorage (H:=toy_sqlite true) (H0:=toy_options) (H1:=debug_machine) (H2:=ToyLike))
      sample_db it (mk_record_options true true true) (found (H:=ToyLike) (sqlite_map sample_db) [Byte.x74] op).
Proof.
  split; [by vm_compute|].
  refine (sqlite_search_finds (H:=toy_sqlite true) (H0:=toy_options) (H1:=debug_machine) (H2:=ToyLike)
    sample_db [Byte.x74] _ (Some "all"%string) (mk_search_options true true true true true) sample_db_inv _ _ _);
    by vm_compute.
Defined.

Lemma orphaned_tags_witness :
  exists db1 db2, sqlite_add (H:=toy_sqlite false) [Byte.x74] [Byte.x6e] sample_value [Tag.Encrypted [Byte.x61] [Byte.x62]] empty_db = (Ok tt, db1) /\
    sqlite_delete (H:=toy_sqlite false) [Byte.x74] [Byte.x6e] db1 = (Ok tt, db2) /\ items db2 = [] /\
    sqlite_add (H:=toy_sqlite false) [Byte.x74] [Byte.x6f] sample_value [Tag.Encrypted [Byte.x61] [Byte.x63]] db2
      = (Err WalletItemAlreadyExists, db2) /\
    exists db3, sqlite_add (H:=toy_sqlite false) [Byte.x74] [Byte.x6f] sample_value [] db2 = (Ok tt, db3) /\
      exists i, items db3 = [i] /\ item_key_of i = ([Byte.x74], [Byte.x6f]) /\
        item_tags (item_id i) db3 = [(EncryptedTagName [Byte.x61], Encrypted [Byte.x62])].
Proof. refine (orphaned_tags (H:=toy_sqlite false) _ _ _ _ _ _ _ _ _ _ _ _ _ _); done. Defined.
