(* ===== verification/Wallet.v ===== *)
(** * Wallet: encrypted records over any storage

    Models [libindy/src/services/wallet/wallet.rs] and [iterator.rs]: the operations of a
    wallet, written against the interface of [Storage.v].  The theorems show that, over
    any storage that keeps its contract, a wallet is a map from types and names to values
    and tags: encryption cannot be observed. *)

From stdpp Require Import gmap.
From S2P Require Import Prelude Errors Json Wql PoolTypes Encryption QueryEncryption WqlToSql Storage SqliteStorage SqliteFacts.

(** What [EncryptedValue::encrypt] draws: a key for the value and two nonces. *)
Record Fresh := mk_fresh { fresh_key : Key; fresh_nonce : Nonce; fresh_key_nonce : Nonce }.

Section wallet.
Context `{ChaCha20Poly1305} `{HmacSha256} `{HashOrder}.
Context {S Iter : Type} `{WalletStorage S Iter}.

Abbreviation WalletM := (StateM IndyErrorKind S).

Definition encrypt_type (keys : Keys) (type_ : string) : bytes :=
  encrypt_as_searchable (as_bytes type_) (type_key keys) (item_hmac_key keys).
Definition encrypt_name (keys : Keys) (name : string) : bytes :=
  encrypt_as_searchable (as_bytes name) (name_key keys) (item_hmac_key keys).
Definition encrypt_wallet_tags (keys : Keys) (tags : gmap string string) : list Tag.t :=
  encrypt_tags tags (tag_name_key keys) (tag_value_key keys) (tags_hmac_key keys).
Definition encrypt_value (keys : Keys) (fresh : Fresh) (value : string) : EncryptedValue :=
  EncryptedValue_encrypt (fresh_key fresh) (fresh_nonce fresh) (fresh_key_nonce fresh) value (value_key keys).

Definition wallet_add (keys : Keys) (fresh : Fresh) (type_ name value : string) (tags : gmap string string) :
    WalletM unit :=
  storage_add (encrypt_type keys type_) (encrypt_name keys name) (encrypt_value keys fresh value)
    (encrypt_wallet_tags keys tags).

Definition wallet_add_tags (keys : Keys) (type_ name : string) (tags : gmap string string) : WalletM unit :=
  storage_add_tags (encrypt_type keys type_) (encrypt_name keys name) (encrypt_wallet_tags keys tags).

Definition wallet_update_tags (keys : Keys) (type_ name : string) (tags : gmap string string) : WalletM unit :=
  storage_update_tags (encrypt_type keys type_) (encrypt_name keys name) (encrypt_wallet_tags keys tags).

Definition wallet_delete_tags (keys : Keys) (type_ name : string) (tag_names : list string) : WalletM unit :=
  storage_delete_tags (encrypt_type keys type_) (encrypt_name keys name)
    (encrypt_tag_names tag_names (tag_name_key keys) (tags_hmac_key keys)).

Definition wallet_update (keys : Keys) (fresh : Fresh) (type_ name new_value : string) : WalletM unit :=
  storage_update (encrypt_type keys type_) (encrypt_name keys name) (encrypt_value keys fresh new_value).

Definition wallet_get (keys : Keys) (type_ name options : string) : WalletM WalletRecord :=
  result ← storage_get (encrypt_type keys type_) (encrypt_name keys name) options;
  value ← lift (option_mapM (fun v => EncryptedValue_decrypt v (value_key keys)) (sr_value result));
  tags ← lift (decrypt_tags (sr_tags result) (tag_name_key keys) (tag_value_key keys));
  mret (mk_wallet_record ((fun _ => type_) <$> sr_type result) name value tags).

Definition wallet_delete (keys : Keys) (type_ name : string) : WalletM unit :=
  storage_delete (encrypt_type keys type_) (encrypt_name keys name).

(** A [WalletIterator] is the storage's iterator; the keys are the wallet's. *)
Definition wallet_search `{JsonText} (keys : Keys) (type_ query : string) (options : option string) : WalletM Iter :=
  parsed_query ← lift (parse_from_json query);
  encrypted_query ← lift (encrypt_query parsed_query keys);
  storage_search (encrypt_type keys type_) encrypted_query options.

Definition wallet_get_all : WalletM Iter := storage_get_all.

Definition wallet_close : WalletM unit := storage_close.

(** [WalletIterator::next] and [get_total_count] *)
Definition wallet_next (keys : Keys) (it : Iter) : WalletM (option WalletRecord * Iter) :=
  '(next_storage_entity, it) ← iter_next it;
  match next_storage_entity with
  | Some next_storage_entity =>
      record ← lift (decrypt_storage_record next_storage_entity keys);
      mret (Some record, it)
  | None => mret (None, it)
  end.

Definition wallet_total_count (it : Iter) : IndyResult (option N) := iter_total_count it.
End wallet.

(** ** The abstract wallet *)

Abbreviation WalletMap := (gmap (string * string) (string * gmap string string)).

Definition wspec_at {A} (t n : string) (f : string * gmap string string -> A * (string * gmap string string)) :
    StateM IndyErrorKind WalletMap A := fun w =>
  match w !! (t, n) with
  | Some x => let '(a, x) := f x in (Ok a, <[(t, n) := x]> w)
  | None => (Err WalletItemNotFound, w)
  end.

Definition wspec_add (t n v : string) (tags : gmap string string) : StateM IndyErrorKind WalletMap unit := fun w =>
  match w !! (t, n) with
  | Some _ => (Err WalletItemAlreadyExists, w)
  | None => (Ok tt, <[(t, n) := (v, tags)]> w)
  end.

Definition wspec_update (t n v : string) := wspec_at t n (fun x => (tt, (v, x.2))).
Definition wspec_add_tags (t n : string) (tags : gmap string string) := wspec_at t n (fun x => (tt, (x.1, tags ∪ x.2))).
Definition wspec_update_tags (t n : string) (tags : gmap string string) := wspec_at t n (fun x => (tt, (x.1, tags))).
Definition wspec_delete_tags (t n : string) (names : list string) :=
  wspec_at t n (fun x => (tt, (x.1, foldl (fun m k => delete k m) x.2 names))).

Definition wspec_delete (t n : string) : StateM IndyErrorKind WalletMap unit := fun w =>
  match w !! (t, n) with
  | Some _ => (Ok tt, delete (t, n) w)
  | None => (Err WalletItemNotFound, w)
  end.

(** What a record shows of an entry. *)
Definition wallet_record (options : RecordOptions) (t n v : string) (tags : gmap string string) : WalletRecord :=
  mk_wallet_record (if retrieve_type options then Some t else None) n
    (if retrieve_value options then Some v else None) (if retrieve_tags options then Some tags else None).

Definition wspec_get `{OptionCodecs} (t n options : string) : StateM IndyErrorKind WalletMap WalletRecord :=
  options ← lift (parse_record_options options);
  wspec_at t n (fun x => (wallet_record options t n x.1 x.2, x)).

(** ** The encoding of tags *)

Section encoding.
Context `{ChaCha20Poly1305} `{HmacSha256} `{HashOrder}.
Variable keys : Keys.

Definition tag_name_enc (k : string) : TagName := enc_name keys (name_of k).
Definition tag_value_enc (k v : string) : TargetValue := enc_value keys (name_of k) (Unencrypted v).

#[local] Instance tag_name_enc_inj : Inj (=) (=) tag_name_enc.
Proof. intros k k' He%(enc_name_inj keys). by apply (inj name_of). Qed.

(** The tags of an entry that stand for the tags of a record. *)
Definition etag_map (tags : gmap string string) : TagMap := list_to_map (enc_row keys <$> tag_rows tags).

Lemma enc_rows_NoDup tags : NoDup (enc_row keys <$> tag_rows tags).*1.
Proof.
  unfold tag_rows. rewrite <-!list_fmap_compose.
  apply (NoDup_fmap_2_strong (fun kv => tag_name_enc kv.1)).
  - intros [k v] [k' v'] Hk%elem_of_map_to_list Hk'%elem_of_map_to_list He. cbn in He.
    apply (inj tag_name_enc) in He as <-. congruence.
  - apply NoDup_map_to_list.
Qed.

Lemma etag_map_perm tags : map_to_list (etag_map tags) ≡ₚ enc_row keys <$> tag_rows tags.
Proof. unfold etag_map. by apply map_to_list_to_map, enc_rows_NoDup. Qed.

Lemma etag_map_Some tags x y :
  etag_map tags !! x = Some y <-> exists k v, tags !! k = Some v /\ x = tag_name_enc k /\ y = tag_value_enc k v.
Proof.
  unfold etag_map. rewrite <-elem_of_list_to_map by apply enc_rows_NoDup. rewrite list_elem_of_fmap.
  unfold tag_rows. setoid_rewrite list_elem_of_fmap. split.
  - intros (r & He & [k v] & -> & Hkv%elem_of_map_to_list). injection He as -> ->. eauto.
  - intros (k & v & Hkv & -> & ->). exists (tag_row (k, v)). split; [done|]. exists (k, v). by rewrite elem_of_map_to_list.
Qed.

Lemma etag_map_lookup tags k : etag_map tags !! tag_name_enc k = tag_value_enc k <$> tags !! k.
Proof.
  apply option_eq. intros y. rewrite etag_map_Some, fmap_Some. split.
  - intros (k' & v & Hkv & He%(inj tag_name_enc) & ->). subst k'. eauto.
  - intros (v & Hkv & ->). eauto.
Qed.

Lemma etag_map_union tags old : etag_map (tags ∪ old) = etag_map tags ∪ etag_map old.
Proof.
  apply map_eq. intros x. apply option_eq. intros y. rewrite lookup_union_Some_raw. split.
  - intros (k & v & Hkv & -> & ->)%etag_map_Some. rewrite !etag_map_lookup.
    apply lookup_union_Some_raw in Hkv as [->|[-> ->]]; cbn; auto.
  - intros [(k & v & Hkv & -> & ->)%etag_map_Some|[Hn (k & v & Hkv & -> & ->)%etag_map_Some]];
      apply etag_map_Some; exists k, v; (split; [|done]); apply lookup_union_Some_raw; [by left|].
    right. rewrite etag_map_lookup in Hn. by apply fmap_None in Hn.
Qed.

Lemma etag_map_delete k tags : etag_map (delete k tags) = delete (tag_name_enc k) (etag_map tags).
Proof.
  apply map_eq. intros x. apply option_eq. intros y. rewrite lookup_delete_Some, !etag_map_Some. split.
  - intros (k' & v & [Hne Hkv]%lookup_delete_Some & -> & ->). split; [by intros ?%(inj tag_name_enc)|]. eauto.
  - intros [Hne (k' & v & Hkv & -> & ->)]. exists k', v. split; [|done]. apply lookup_delete_Some. split; [|done]. congruence.
Qed.

Lemma stored_rows_enc tags : stored_rows (encrypt_wallet_tags keys tags) ≡ₚ enc_row keys <$> tag_rows tags.
Proof.
  rewrite <-(stored_rows_encrypted keys _ _ _ _ eq_refl eq_refl eq_refl).
  unfold encrypt_wallet_tags, encrypt_tags, stored_rows. by rewrite hash_iter_perm.
Qed.

Lemma encrypted_distinct tags : distinct_names (encrypt_wallet_tags keys tags).
Proof. unfold distinct_names. rewrite stored_rows_enc. apply enc_rows_NoDup. Qed.

Lemma tag_map_encrypted tags : tag_map (encrypt_wallet_tags keys tags) = etag_map tags.
Proof.
  unfold tag_map. rewrite foldl_insert by apply encrypted_distinct. rewrite (right_id_L ∅ (∪)).
  apply list_to_map_proper; [apply encrypted_distinct|apply stored_rows_enc].
Qed.

Lemma encrypt_tag_names_enc names :
  tag_name_key_of <$> encrypt_tag_names names (tag_name_key keys) (tags_hmac_key keys) = tag_name_enc <$> names.
Proof.
  unfold encrypt_tag_names. rewrite <-list_fmap_compose. apply list_fmap_ext. intros ? k _.
  unfold compose, encrypt_tag_name, tag_name_enc, name_of. by destruct (starts_with_tilde k).
Qed.

Lemma foldl_delete_enc names tags :
  foldl (fun m name => delete (tag_name_key_of name) m) (etag_map tags)
    (encrypt_tag_names names (tag_name_key keys) (tags_hmac_key keys)) =
  etag_map (foldl (fun m k => delete k m) tags names).
Proof.
  revert tags. induction names as [|k names IH]; intros tags; [done|]. cbn -[encrypt_tag_name].
  rewrite <-IH, etag_map_delete. unfold encrypt_tag_names. f_equal. f_equal.
  unfold encrypt_tag_name, tag_name_enc, name_of. by destruct (starts_with_tilde k).
Qed.

#[local] Instance stored_row_inj : Inj (=) (=) stored_row.
Proof. intros [] []; cbn; congruence. Qed.

(** The tags that a record shows are decrypted to the record's. *)
Lemma decrypt_shown tags etags : tags_utf8 tags -> stored_rows etags ≡ₚ map_to_list (etag_map tags) ->
  decrypt_tags (Some etags) (tag_name_key keys) (tag_value_key keys) = Ok (Some tags).
Proof.
  intros Hu Hp. apply (decrypt_tags_perm _ _ (tags_hmac_key keys)); [done|].
  rewrite etag_map_perm, <-(stored_rows_encrypted keys _ _ _ _ eq_refl eq_refl eq_refl) in Hp.
  apply Permutation_map_inv in Hp as (l & Hl & Hp). apply (inj (fmap stored_row)) in Hl as ->. by symmetry.
Qed.
End encoding.

(** ** The refinement *)

Section refinement.
Context `{ChaCha20Poly1305} `{HmacSha256} `{HashOrder} `{OptionCodecs} `{LikePattern}.
Context {S Iter : Type} `{!WalletStorage S Iter} `{!WalletStorageLaws S Iter}.
Variable keys : Keys.

(** An entry stands for a value and tags. *)
Definition encodes (e : Entry) (v : string) (tags : gmap string string) : Prop :=
  EncryptedValue_decrypt (entry_value e) (value_key keys) = Ok v /\ entry_tags e = etag_map keys tags /\ tags_utf8 tags.

Definition key_enc (k : string * string) : bytes * bytes := (encrypt_type keys k.1, encrypt_name keys k.2).

#[local] Instance key_enc_inj : Inj (=) (=) key_enc.
Proof.
  intros [t n] [t' n'] He. injection He as Ht Hn.
  apply searchable_inj, (inj as_bytes) in Ht. apply searchable_inj, (inj as_bytes) in Hn. congruence.
Qed.

(** A storage map stands for a wallet. *)
Definition represents (m : StorageMap) (w : WalletMap) : Prop :=
  (forall k, match w !! k with
             | Some x => exists e, m !! key_enc k = Some e /\ encodes e x.1 x.2
             | None => m !! key_enc k = None
             end) /\
  (forall k e, m !! k = Some e -> exists k', k = key_enc k' /\ is_utf8 k'.1 /\ is_utf8 k'.2).

Lemma represents_insert m w k e x : represents m w -> encodes e x.1 x.2 -> is_utf8 k.1 -> is_utf8 k.2 ->
  represents (<[key_enc k := e]> m) (<[k := x]> w).
Proof.
  intros [Hr Hk] He Hu1 Hu2. split.
  - intros k'. destruct (decide (k' = k)) as [->|Hne].
    + rewrite !lookup_insert_eq. eauto.
    + rewrite !lookup_insert_ne by (done || by intros ?%(inj key_enc)). apply Hr.
  - intros k' e' [[<- _]|[_ ?]]%lookup_insert_Some; eauto.
Qed.

Lemma represents_delete m w k : represents m w -> represents (delete (key_enc k) m) (delete k w).
Proof.
  intros [Hr Hk]. split.
  - intros k'. destruct (decide (k' = k)) as [->|Hne].
    + by rewrite !lookup_delete_eq.
    + rewrite !lookup_delete_ne by (done || by intros ?%(inj key_enc)). apply Hr.
  - intros k' e' [_ ?]%lookup_delete_Some. eauto.
Qed.

(** [m], on a storage, does to the wallet what [spec] does. *)
Definition wallet_refines {A} (m : StateM IndyErrorKind S A) (spec : StateM IndyErrorKind WalletMap A) : Prop :=
  forall s w, storage_inv s -> represents (storage_map s) w ->
    storage_inv (m s).2 /\ represents (storage_map (m s).2) (spec w).2 /\ (m s).1 = (spec w).1.

(** An operation on one entry. *)
Lemma wallet_refines_at (m : StateM IndyErrorKind S unit) t n (f : Entry -> unit * Entry)
    (g : string * gmap string string -> unit * (string * gmap string string)) :
  refines storage_inv storage_map eq m (spec_at (encrypt_type keys t) (encrypt_name keys n) f) ->
  (forall e x, encodes e x.1 x.2 -> encodes (f e).2 (g x).2.1 (g x).2.2) ->
  wallet_refines m (wspec_at t n g).
Proof.
  intros Hm Hfg s w Hs Hr. destruct (Hm s Hs) as (Hs' & Habs & Hres). split; [done|].
  unfold spec_at, wspec_at in *. destruct Hr as [Hr Hk]. pose proof (Hr (t, n)) as Hx.
  change (encrypt_type keys t, encrypt_name keys n) with (key_enc (t, n)) in *.
  destruct (w !! (t, n)) as [x|] eqn:Hw.
  - destruct Hx as (e & He & Henc). rewrite He in *. specialize (Hfg e x Henc).
    pose proof (Hk _ _ He) as (k' & Hk' & Hu1 & Hu2). apply (inj key_enc) in Hk' as <-.
    destruct (f e) as [[] e'], (g x) as [[] x']. cbn [fst snd] in *. rewrite Habs.
    split; [by apply represents_insert|]. by destruct (m s).1 as [[]| | |].
  - rewrite Hx in *. cbn [fst snd] in *. rewrite Habs. split; [by split|].
    destruct (m s).1; by subst.
Qed.

Lemma encodes_tags e v tags tags' : encodes e v tags -> tags_utf8 tags' ->
  encodes (mk_entry (entry_value e) (etag_map keys tags')) v tags'.
Proof. by intros (? & _ & _) ?. Qed.

Lemma tags_utf8_union tags old : tags_utf8 tags -> tags_utf8 old -> tags_utf8 (tags ∪ old).
Proof. apply map_Forall_union_2. Qed.

Lemma tags_utf8_deletes names tags : tags_utf8 tags -> tags_utf8 (foldl (fun m k => delete k m) tags names).
Proof. revert tags. induction names as [|k names IH]; intros tags Ht; [done|]. by apply IH, map_Forall_delete. Qed.

Lemma wallet_add_refines fresh t n v tags : is_utf8 t -> is_utf8 n -> is_utf8 v -> tags_utf8 tags ->
  wallet_refines (wallet_add keys fresh t n v tags) (wspec_add t n v tags).
Proof.
  intros Ht Hn Hv Htags s w Hs Hr.
  destruct (law_add (encrypt_type keys t) (encrypt_name keys n) (encrypt_value keys fresh v) _
    (encrypted_distinct keys tags) s Hs) as (Hs' & Habs & Hres). split; [done|].
  unfold spec_add, wspec_add in *. pose proof (proj1 Hr (t, n)) as Hx.
  change (encrypt_type keys t, encrypt_name keys n) with (key_enc (t, n)) in *.
  unfold wallet_add. destruct (w !! (t, n)) as [x|].
  - destruct Hx as (e & He & _). rewrite He in *. cbn [fst snd] in *. rewrite Habs. split; [done|].
    by destruct (storage_add _ _ _ _ s).1; subst.
  - rewrite Hx in *. cbn [fst snd] in *. rewrite Habs. split.
    + apply represents_insert; [done| |done..]. cbn [fst snd]. split; [by apply decrypt_encrypted_value|].
      split; [|done]. cbn [entry_tags]. apply tag_map_encrypted.
    + by destruct (storage_add _ _ _ _ s).1 as [[]| | |].
Qed.

Lemma wallet_delete_refines t n : wallet_refines (wallet_delete keys t n) (wspec_delete t n).
Proof.
  intros s w Hs Hr. destruct (law_delete (encrypt_type keys t) (encrypt_name keys n) s Hs) as (Hs' & Habs & Hres).
  split; [done|]. unfold spec_delete, wspec_delete in *. pose proof (proj1 Hr (t, n)) as Hx.
  change (encrypt_type keys t, encrypt_name keys n) with (key_enc (t, n)) in *.
  unfold wallet_delete. destruct (w !! (t, n)) as [x|].
  - destruct Hx as (e & He & _). rewrite He in *. cbn [fst snd] in *. rewrite Habs.
    split; [by apply represents_delete|]. by destruct (storage_delete _ _ s).1 as [[]| | |].
  - rewrite Hx in *. cbn [fst snd] in *. rewrite Habs. split; [done|]. by destruct (storage_delete _ _ s).1; subst.
Qed.

Lemma wallet_update_refines fresh t n v : is_utf8 v ->
  wallet_refines (wallet_update keys fresh t n v) (wspec_update t n v).
Proof.
  intros Hv. apply (wallet_refines_at _ _ _ (fun e => (tt, mk_entry (encrypt_value keys fresh v) (entry_tags e)))); [apply law_update|].
  intros e x (_ & Ht & Hu). split; [by apply decrypt_encrypted_value|done].
Qed.

Lemma wallet_add_tags_refines t n tags : tags_utf8 tags ->
  wallet_refines (wallet_add_tags keys t n tags) (wspec_add_tags t n tags).
Proof.
  intros Hu. eapply wallet_refines_at; [apply law_add_tags|]. intros e x Henc. cbn [fst snd].
  rewrite tag_map_encrypted. pose proof Henc as (_ & -> & Hold). rewrite <-etag_map_union.
  eapply encodes_tags; [done|by apply tags_utf8_union].
Qed.

Lemma wallet_update_tags_refines t n tags : tags_utf8 tags ->
  wallet_refines (wallet_update_tags keys t n tags) (wspec_update_tags t n tags).
Proof.
  intros Hu. eapply wallet_refines_at; [apply law_update_tags, encrypted_distinct|]. intros e x Henc. cbn [fst snd].
  rewrite tag_map_encrypted. by eapply encodes_tags.
Qed.

Lemma wallet_delete_tags_refines t n names :
  wallet_refines (wallet_delete_tags keys t n names) (wspec_delete_tags t n names).
Proof.
  eapply wallet_refines_at; [apply law_delete_tags|]. intros e x Henc. cbn [fst snd].
  pose proof Henc as (_ & -> & Hold). rewrite foldl_delete_enc. eapply encodes_tags; [done|by apply tags_utf8_deletes].
Qed.

(** *** Reading *)

Lemma decrypt_type_enc t : is_utf8 t ->
  (decrypted_type ← decrypt_merged (encrypt_type keys t) (type_key keys);
   ok_or (from_utf8 decrypted_type) WalletEncryptionError) = Ok t.
Proof. intros Ht. unfold encrypt_type. rewrite decrypt_searchable. cbn [mbind outcome_bind]. by rewrite from_utf8_as_bytes. Qed.

(** A shown entry is decrypted to what the wallet shows. *)
Lemma decrypt_shown_tags opts t n e r v tags : encodes e v tags -> shows opts t n e r ->
  decrypt_tags (sr_tags r) (tag_name_key keys) (tag_value_key keys) = Ok (if retrieve_tags opts then Some tags else None).
Proof.
  intros (_ & Ht & Hu) (_ & _ & _ & Htags). destruct (sr_tags r) as [etags|].
  - destruct Htags as [-> Hp]. rewrite Ht in Hp. by apply decrypt_shown.
  - by rewrite Htags.
Qed.

Lemma decrypt_shown_value opts t n e r v tags : encodes e v tags -> shows opts t n e r ->
  option_mapM (fun v => EncryptedValue_decrypt v (value_key keys)) (sr_value r) =
    Ok (if retrieve_value opts then Some v else None).
Proof. intros (Hv & _ & _) (_ & -> & _). destruct (retrieve_value opts); [|done]. cbn. by rewrite Hv. Qed.

Lemma decrypt_shown_record opts t n e r v tags : is_utf8 t -> is_utf8 n -> encodes e v tags ->
  shows opts (encrypt_type keys t) (encrypt_name keys n) e r ->
  decrypt_storage_record r keys = Ok (wallet_record opts t n v tags).
Proof.
  intros Ht Hn Henc Hs. unfold decrypt_storage_record.
  rewrite (decrypt_shown_tags _ _ _ _ _ _ _ Henc Hs), (decrypt_shown_value _ _ _ _ _ _ _ Henc Hs).
  destruct Hs as (-> & _ & -> & _). unfold encrypt_name. rewrite decrypt_searchable. cbn [mbind outcome_bind].
  rewrite from_utf8_as_bytes by done. cbn [mbind outcome_bind ok_or]. unfold wallet_record.
  destruct (retrieve_type opts); [|done]. cbn [option_mapM]. by rewrite decrypt_type_enc.
Qed.

Lemma spec_get_run t n options m : spec_get t n options m =
  match parse_record_options options with
  | Ok opts => spec_at t n (fun e => ((opts, e), e)) m
  | Err e => (Err e, m)
  | Panic => (Panic, m)
  | OutOfFuel => (OutOfFuel, m)
  end.
Proof. unfold spec_get. rewrite bind_run. unfold lift. by destruct (parse_record_options options). Qed.

Lemma wspec_get_run t n options w : wspec_get t n options w =
  match parse_record_options options with
  | Ok opts => wspec_at t n (fun x => (wallet_record opts t n x.1 x.2, x)) w
  | Err e => (Err e, w)
  | Panic => (Panic, w)
  | OutOfFuel => (OutOfFuel, w)
  end.
Proof. unfold wspec_get. rewrite bind_run. unfold lift. by destruct (parse_record_options options). Qed.

Lemma wallet_get_refines t n options :
  wallet_refines (wallet_get keys t n options) (wspec_get t n options).
Proof.
  intros s w Hs Hr. destruct (law_get (encrypt_type keys t) (encrypt_name keys n) options s Hs) as (Hs' & Habs & Hres).
  rewrite spec_get_run in Habs, Hres. rewrite wspec_get_run.
  unfold wallet_get. rewrite bind_run.
  destruct (storage_get _ _ _ s) as [res s'] eqn:Hget. cbn [fst snd] in *.
  destruct (parse_record_options options) as [opts|e| |]; cbn [fst snd] in *.
  2-4: destruct res; try done; cbn [fst snd]; rewrite Habs; by subst.
  unfold spec_at, wspec_at in *. pose proof (proj1 Hr (t, n)) as Hx.
  change (encrypt_type keys t, encrypt_name keys n) with (key_enc (t, n)) in *.
  destruct (w !! (t, n)) as [x|] eqn:Hw.
  - destruct Hx as (e & He & Henc). rewrite He in *. cbn [fst snd] in *.
    destruct res as [r|e'| |]; [|done..]. rewrite insert_id in Habs by done. rewrite insert_id by done.
    rewrite bind_run. unfold lift. rewrite (decrypt_shown_value _ _ _ _ _ _ _ Henc Hres), bind_run.
    rewrite (decrypt_shown_tags _ _ _ _ _ _ _ Henc Hres). cbn. rewrite Habs. split_and!; try done.
    destruct Hres as (_ & _ & -> & _). unfold wallet_record. by destruct (retrieve_type opts).
  - rewrite Hx in *. cbn [fst snd] in *. destruct res; try done. cbn [fst snd]. rewrite Habs. by subst.
Qed.

(** What an iterator of the wallet returns when the storage is left alone. *)
Inductive wallet_yields (s : S) : Iter -> list WalletRecord -> Prop :=
| wyields_end it it' : wallet_next keys it s = (Ok (None, it'), s) -> wallet_yields s it []
| wyields_next it it' r l : wallet_next keys it s = (Ok (Some r, it'), s) -> wallet_yields s it' l ->
    wallet_yields s it (r :: l).

Lemma iter_wallet_yields s it records wrecords : iter_yields s it records ->
  Forall2 (fun r wr => decrypt_storage_record r keys = Ok wr) records wrecords -> wallet_yields s it wrecords.
Proof.
  intros Hy. revert wrecords. induction Hy as [it it' Hn|it it' r l Hn _ IH]; intros wrecords Hf.
  - inversion Hf; subst. apply (wyields_end _ _ it'). unfold wallet_next. by rewrite bind_run, Hn.
  - inversion Hf as [|? wr ? wl Hr Hl]; subst. apply (wyields_next _ _ it'); [|by apply IH].
    unfold wallet_next. rewrite bind_run, Hn, bind_run. unfold lift. by rewrite Hr.
Qed.

(** The entry of a record of the wallet. *)
Definition entry_at (m : StorageMap) (x : (string * string) * (string * gmap string string)) : bytes * bytes * Entry :=
  (key_enc x.1, default (mk_entry (mk_encrypted_value [] []) ∅) (m !! key_enc x.1)).

Lemma entry_at_spec m w x : represents m w -> x ∈ map_to_list w ->
  m !! key_enc x.1 = Some (entry_at m x).2 /\ encodes (entry_at m x).2 x.2.1 x.2.2.
Proof.
  intros [Hr _] Hx. destruct x as [k x]. apply elem_of_map_to_list in Hx. specialize (Hr k). rewrite Hx in Hr.
  destruct Hr as (e & He & Henc). unfold entry_at. cbn [fst snd]. by rewrite He.
Qed.

Lemma represents_perm m w : represents m w -> map_to_list m ≡ₚ entry_at m <$> map_to_list w.
Proof.
  intros Hr. apply NoDup_Permutation.
  - apply NoDup_map_to_list.
  - apply NoDup_fmap_2_strong; [|apply NoDup_map_to_list]. intros [k x] [k' x'] Hx Hx' He.
    injection He as Ht Hn _. assert (k = k') as -> by (apply (inj key_enc); unfold key_enc; congruence).
    apply elem_of_map_to_list in Hx, Hx'. congruence.
  - intros [k e]. rewrite elem_of_map_to_list, list_elem_of_fmap. split.
    + intros He. pose proof (proj2 Hr _ _ He) as (k' & -> & _). pose proof (proj1 Hr k') as Hk.
      destruct (w !! k') as [x|] eqn:Hw; [|congruence]. exists (k', x). rewrite elem_of_map_to_list.
      split; [|done]. unfold entry_at. cbn [fst snd]. by rewrite He.
    + intros (x & Hx & Hin). injection Hx as -> ->. by apply (entry_at_spec m w).
Qed.

Lemma filter_fmap_perm_elem {A B} (f : A -> B) (P : B -> Prop) (Q : A -> Prop) `{forall x, Decision (P x)}
    `{forall x, Decision (Q x)} (l : list A) :
  (forall x, x ∈ l -> P (f x) <-> Q x) -> filter P (f <$> l) = f <$> filter Q l.
Proof.
  induction l as [|x l IH]; intros Hpq; [done|]. cbn [fmap list_fmap]. rewrite !filter_cons.
  rewrite IH by (intros y Hy; apply Hpq; by right). pose proof (Hpq x (list_elem_of_here _ _)).
  repeat case_decide; naive_solver.
Qed.

(** The records of a type that satisfy a query. *)
Definition matches (w : WalletMap) (t : string) (query : SJsonValue) : list ((string * string) * (string * gmap string string)) :=
  filter (fun x => x.1.1 = t /\ query_sat x.2.2 query = true) (map_to_list w).

Lemma found_matches m w t op' query : represents m w ->
  (forall tags, sat (map_to_list (etag_map keys tags)) op' = query_sat tags query) ->
  found m (encrypt_type keys t) op' ≡ₚ entry_at m <$> matches w t query.
Proof.
  intros Hr Hop. unfold found. rewrite (represents_perm m w) by done. unfold matches.
  erewrite filter_fmap_perm_elem; [done|]. intros x Hx. destruct (entry_at_spec m w x Hr Hx) as (_ & _ & Ht & _).
  rewrite Ht, Hop. unfold entry_at, key_enc. cbn [fst snd]. split; intros [He ?]; split; try done; [|congruence].
  by apply searchable_inj, (inj as_bytes) in He.
Qed.

(** Reading entries of the storage is reading records of the wallet. *)
Lemma entries_yield s it opts l m w : represents m w -> m = storage_map s ->
  (forall x, x ∈ l -> x ∈ map_to_list w) -> yields_entries s it opts (entry_at m <$> l) ->
  exists records, wallet_yields s it records /\
    records ≡ₚ (fun x => wallet_record opts x.1.1 x.1.2 x.2.1 x.2.2) <$> l.
Proof.
  intros Hr Hm Hl (l' & records & Hp & Hs & Hy). apply Permutation_map_inv in Hp as (k & -> & Hk).
  exists ((fun x => wallet_record opts x.1.1 x.1.2 x.2.1 x.2.2) <$> k). split; [|by rewrite Hk].
  eapply iter_wallet_yields; [done|]. apply Forall2_fmap_r. apply Forall2_flip. apply Forall2_fmap_l in Hs.
  eapply Forall2_impl_l; [exact Hs|]. intros x r Hx Hshow. cbv beta in *.
  assert (x ∈ map_to_list w) as Hxw by (apply Hl; by rewrite Hk).
  destruct (entry_at_spec m w x Hr Hxw) as [He Henc].
  destruct (proj2 Hr _ _ He) as (k' & Hk' & Hu1 & Hu2). apply (inj key_enc) in Hk'. subst k'.
  eapply decrypt_shown_record; [done|done|exact Henc|exact Hshow].
Qed.
End refinement.

(** ** Theorems *)

Section theorems.
Context `{ChaCha20Poly1305} `{HmacSha256} `{HashOrder} `{OptionCodecs} `{LikePattern}.
Context {S Iter : Type} `{!WalletStorage S Iter} `{!WalletStorageLaws S Iter}.
Variable keys : Keys.


Lemma search_finds `{JsonText} s w t text query op op' options opts :
  storage_inv s -> represents keys (storage_map s) w ->
  from_str text = Some query -> parse_from_json text = Ok op -> encrypt_query op keys = Ok op' ->
  can_search op' = true -> parse_search_options options = Ok opts ->
  let found := matches w t query in
  let shown := mk_record_options (search_type opts) (search_value opts) (search_tags opts) in
  exists it records, wallet_search keys t text options s = (Ok it, s) /\
    wallet_total_count it = Ok (if search_total_count opts then Some (N.of_nat (length found)) else None) /\
    wallet_yields keys s it records /\
    records ≡ₚ (if search_records opts then (fun x => wallet_record shown x.1.1 x.1.2 x.2.1 x.2.2) <$> found else []).
Proof.
  intros Hs Hr Hq Hop Hop' Hcan Hopts found shown.
  pose proof (parse_from_json_spec text) as Hp. rewrite Hop in Hp. destruct Hp as (query' & Hq' & Hw & Hsat).
  rewrite Hq in Hq'. injection Hq' as <-.
  destruct (encrypt_query_spec keys op Hw) as (op2 & Hop2 & Hst & He). rewrite Hop' in Hop2. injection Hop2 as <-.
  destruct (law_search s (encrypt_type keys t) op' options opts Hs Hst Hcan Hopts) as (it & Hrun & Hcount & Hy).
  assert (Storage.found (storage_map s) (encrypt_type keys t) op' ≡ₚ entry_at keys (storage_map s) <$> found) as Hf.
  { apply (found_matches keys _ w); [done|]. intros tags.
    rewrite (sat_perm _ (enc_row keys <$> tag_rows tags)) by apply etag_map_perm.
    rewrite He by apply tag_rows_text. apply Hsat. }
  destruct (entries_yield keys s it shown (if search_records opts then found else []) (storage_map s) w) as (records & Hrec & Hperm).
  - done.
  - done.
  - intros x Hx. destruct (search_records opts); [|by apply not_elem_of_nil in Hx].
    by apply list_elem_of_filter in Hx as [_ ?].
  - destruct Hy as (l' & recs & Hl' & ? & ?). exists l', recs. split_and!; [|done..].
    rewrite Hl'. destruct (search_records opts); [done|]. done.
  - exists it, records. split_and!; [|by rewrite Hf, length_fmap in Hcount|done|].
    + unfold wallet_search. rewrite bind_run. unfold lift. by rewrite Hop, bind_run, Hop'.
    + rewrite Hperm. by destruct (search_records opts).
Qed.


(** [get_all] returns every record of the wallet with its type, value and tags. *)
Theorem wallet_get_all_correct s w : storage_inv s -> represents keys (storage_map s) w ->
  exists it records, wallet_get_all s = (Ok it, s) /\ wallet_yields keys s it records /\
    records ≡ₚ (fun x => wallet_record (mk_record_options true true true) x.1.1 x.1.2 x.2.1 x.2.2) <$> map_to_list w.
Proof.
  intros Hs Hr. destruct (law_get_all s Hs) as (it & Hrun & Hy).
  destruct (entries_yield keys s it (mk_record_options true true true) (map_to_list w) (storage_map s) w)
    as (records & Hrec & Hperm); [done..| |].
  - destruct Hy as (l' & recs & Hl' & ? & ?). exists l', recs. split_and!; [|done..].
    rewrite Hl'. by apply represents_perm.
  - eauto 10.
Qed.
End theorems.

(** ** Witnesses

    Wallets in the default storage. *)

#[local] Existing Instances ToyCipher ToyHmac key_order toy_options ToyLike debug_machine sample_json.
#[local] Instance toy_sqlite_on : Sqlite := toy_sqlite true.
#[local] Instance toy_laws : WalletStorageLaws Database SQLiteStorageIterator := SQLiteStorageLaws eq_refl.

Definition toy_fresh : Fresh := mk_fresh (toy_key Byte.x09) (toy_nonce Byte.x01) (toy_nonce Byte.x02).
Definition toy_tags : gmap string string := {["city" := "Rome"; "~age" := "4"]}.
Definition toy_wallet : Database := (wallet_add toy_keys toy_fresh "type" "name" "value" toy_tags empty_db).2.
Definition toy_map : WalletMap := {[("type", "name")%string := ("value"%string, toy_tags)]}.

Lemma empty_represented : represents toy_keys (sqlite_map empty_db) ∅.
Proof. split; [done|]. intros k e He. by vm_compute in He. Qed.

Lemma empty_stored : storage_inv empty_db.
Proof. exact empty_db_inv. Qed.

Lemma toy_tags_utf8 : tags_utf8 toy_tags.
Proof. apply (bool_decide_unpack _). vm_compute. exact I. Qed.

Lemma toy_wallet_represented : db_inv toy_wallet /\ represents toy_keys (sqlite_map toy_wallet) toy_map.
Proof.
  destruct (wallet_add_refines toy_keys toy_fresh "type" "name" "value" toy_tags eq_refl eq_refl eq_refl toy_tags_utf8
    empty_db ∅ empty_stored empty_represented) as (Hi & Hr & _). split; [exact Hi|exact Hr].
Qed.



Lemma wallet_get_all_correct_witness :
  exists it records, wallet_get_all toy_wallet = (Ok it, toy_wallet) /\ wallet_yields toy_keys toy_wallet it records /\
    records ≡ₚ (fun x => wallet_record (mk_record_options true true true) x.1.1 x.1.2 x.2.1 x.2.2) <$> map_to_list toy_map.
Proof.
  refine (wallet_get_all_correct toy_keys toy_wallet toy_map (proj1 toy_wallet_represented) (proj2 toy_wallet_represented)).
Defined.
