(* ===== verification/Stream.v ===== *)
(** * Stream: chunked encryption of a byte stream

    Models [Writer] and [Reader] of
    [libindy/src/utils/crypto/chacha20poly1305_ietf/sodium.rs], and what the code uses of
    [std::io]: [write_all], [read_exact], [BufWriter], and files that can be full or
    return less than they are asked for. *)

From S2P Require Import Prelude Errors Encryption.

(** [std::io::ErrorKind], as far as the code tells kinds apart. *)
Inductive IoErrorKind := UnexpectedEof | InvalidData | Interrupted | WriteZero | OtherIo.

(** ** A state inside a state, errors of one kind as errors of another *)

Definition within {E S T A} (get : S -> T) (put : T -> S -> S) (m : StateM E T A) : StateM E S A := fun s =>
  let '(r, t) := m (get s) in (r, put t s).

Definition map_err {E E' S A} (f : E -> E') (m : StateM E S A) : StateM E' S A := fun s =>
  match m s with
  | (Ok a, s') => (Ok a, s')
  | (Err e, s') => (Err (f e), s')
  | (Panic, s') => (Panic, s')
  | (OutOfFuel, s') => (OutOfFuel, s')
  end.

(** ** Writing *)

Class Write (W : Type) := { write : bytes -> StateM IoErrorKind W nat }.

Section write.
Context {W : Type} `{Write W}.

(** [Write::write_all]; none of the writers here is ever [Interrupted]. *)
Fixpoint write_all_loop (fuel : nat) (buf : bytes) : StateM IoErrorKind W unit :=
  match buf with
  | [] => mret tt
  | _ =>
      match fuel with
      | O => lift OutOfFuel
      | S fuel =>
          n ← write buf;
          if n =? 0 then fail WriteZero else write_all_loop fuel (drop n buf)
      end
  end.

Definition write_all (buf : bytes) : StateM IoErrorKind W unit := write_all_loop (length buf) buf.

(** [WriteBytesExt::write_u32::<LittleEndian>], after a cast [as u32] *)
Definition write_u32 (n : N) : StateM IoErrorKind W unit := write_all (le_bytes 4 n).
End write.

(** A file that has room for [room] more bytes, or for any number. *)
Record File := mk_file { contents : bytes; room : option nat }.

#[export] Instance Write_File : Write File := {|
  write := fun buf self =>
    match room self with
    | None => (Ok (length buf), mk_file (contents self ++ buf) None)
    | Some r =>
        let n := r `min` length buf in
        if (n =? 0) && (0 <? length buf) then (Err OtherIo, self)
        else (Ok n, mk_file (contents self ++ take n buf) (Some (r - n)))
    end
|}.

(** [BufWriter] with its default capacity. *)
Definition CAPACITY : nat := 8 * 1024.

Record BufWriter (W : Type) := mk_bufwriter { bw_inner : W; bw_buf : bytes }.
Arguments mk_bufwriter {W} bw_inner bw_buf.
Arguments bw_inner {W} b.
Arguments bw_buf {W} b.

Section bufwriter.
Context {W : Type} `{Write W}.

Definition on_bw_inner {A} : StateM IoErrorKind W A -> StateM IoErrorKind (BufWriter W) A :=
  within bw_inner (fun w self => mk_bufwriter w (bw_buf self)).

(** [flush_buf]: what was written is taken out of the buffer, also on an error. *)
Fixpoint flush_loop (fuel : nat) : StateM IoErrorKind (BufWriter W) unit :=
  buf ← gets bw_buf;
  match buf with
  | [] => mret tt
  | _ =>
      match fuel with
      | O => lift OutOfFuel
      | S fuel =>
          n ← on_bw_inner (write buf);
          if n =? 0 then fail WriteZero
          else _ ← modify (fun self => mk_bufwriter (bw_inner self) (drop n (bw_buf self))); flush_loop fuel
      end
  end.

Definition flush_buf : StateM IoErrorKind (BufWriter W) unit := fun self => flush_loop (length (bw_buf self)) self.

#[export] Instance Write_BufWriter : Write (BufWriter W) := {|
  write := fun buf =>
    len ← gets (fun self => length (bw_buf self));
    _ ← (if CAPACITY <? len + length buf then flush_buf else mret tt);
    if CAPACITY <=? length buf then on_bw_inner (write buf)
    else _ ← modify (fun self => mk_bufwriter (bw_inner self) (bw_buf self ++ buf)); mret (length buf)
|}.

(** [Drop]: the buffer is written, and an error of that is ignored. *)
Definition drop_bufwriter (self : BufWriter W) : W := bw_inner (flush_buf self).2.
End bufwriter.

(** ** [chacha20poly1305_ietf::Writer] *)

(** [sodiumoxide::utils::increment_le] on a nonce *)
Class IncrementLe := { increment : Nonce -> Nonce }.

Record Writer (W : Type) := mk_writer {
  w_buffer : bytes;
  w_chunk_size : nat;
  w_key : Key;
  w_nonce : Nonce;
  w_inner : W;
}.
Arguments mk_writer {W} _ _ _ _ _.
Arguments w_buffer {W} w.
Arguments w_chunk_size {W} w.
Arguments w_key {W} w.
Arguments w_nonce {W} w.
Arguments w_inner {W} w.

Section writer.
Context `{ChaCha20Poly1305} `{IncrementLe} {W : Type} `{Write W}.

Definition Writer_new (inner : W) (key : Key) (nonce : Nonce) (chunk_size : nat) : Writer W :=
  mk_writer [] chunk_size key nonce inner.

Definition into_inner (self : Writer W) : W := w_inner self.

Definition on_inner {A} : StateM IoErrorKind W A -> StateM IoErrorKind (Writer W) A :=
  within w_inner (fun w self => mk_writer (w_buffer self) (w_chunk_size self) (w_key self) (w_nonce self) w).

Definition set_buffer (f : bytes -> bytes) (self : Writer W) : Writer W :=
  mk_writer (f (w_buffer self)) (w_chunk_size self) (w_key self) (w_nonce self) (w_inner self).

Definition next_nonce (self : Writer W) : Writer W :=
  mk_writer (w_buffer self) (w_chunk_size self) (w_key self) (increment (w_nonce self)) (w_inner self).

(** The chunk is encrypted and written, and the nonce moves on when that succeeds. *)
Definition write_chunk (chunk : bytes) : StateM IoErrorKind (Writer W) unit :=
  self ← gets (fun self => self);
  _ ← on_inner (write_all (encrypt chunk (w_key self) (w_nonce self)));
  modify next_nonce.

(** [while self.buffer.len() >= chunk_start + self.chunk_size] *)
Fixpoint write_loop (fuel chunk_start : nat) : StateM IoErrorKind (Writer W) nat :=
  self ← gets (fun self => self);
  if chunk_start + w_chunk_size self <=? length (w_buffer self) then
    match fuel with
    | O => lift OutOfFuel
    | S fuel =>
        _ ← write_chunk (take (w_chunk_size self) (drop chunk_start (w_buffer self)));
        write_loop fuel (chunk_start + w_chunk_size self)
    end
  else mret chunk_start.

#[export] Instance Write_Writer : Write (Writer W) := {|
  write := fun buf =>
    _ ← modify (set_buffer (fun buffer => buffer ++ buf));
    fuel ← gets (fun self => length (w_buffer self));
    chunk_start ← write_loop fuel 0;
    _ ← modify (set_buffer (fun buffer => if 0 <? chunk_start then drop chunk_start buffer else buffer));
    mret (length buf)
|}.

(** [self.buffer.flush()] is the [flush] of a vector, which does nothing: neither is the
    buffer emptied nor the inner writer flushed. *)
Definition flush : StateM IoErrorKind (Writer W) unit :=
  self ← gets (fun self => self);
  if 0 <? length (w_buffer self) then write_chunk (w_buffer self) else mret tt.
End writer.

(** ** Reading *)

(** What a call of [read] does: give at most [S n] bytes, be interrupted, or fail. *)
Inductive ReadStep := Gives (n : nat) | Interrupts | Fails.

(** A reader of the bytes [pending], whose calls go as [plan] says and then as well as
    they can. *)
Record Source := mk_source { pending : bytes; plan : list ReadStep }.

Definition source_read (k : nat) : StateM IoErrorKind Source bytes := fun self =>
  let give n plan := (Ok (take n (pending self)), mk_source (drop n (pending self)) plan) in
  match plan self with
  | [] => give k []
  | Gives n :: plan => give (k `min` S n) plan
  | Interrupts :: plan => (Err Interrupted, mk_source (pending self) plan)
  | Fails :: plan => (Err OtherIo, mk_source (pending self) plan)
  end.

(** The loop of [Read::read_exact] and of [_read_chunk]: calls of [read] until [k] bytes are
    there; a call that gives nothing is the end, where [eof] goes on. *)
Fixpoint fill_loop {R} (read : nat -> StateM IoErrorKind R bytes) (eof : bytes -> StateM IoErrorKind R bytes)
    (fuel k : nat) (got : bytes) : StateM IoErrorKind R bytes :=
  if length got <? k then
    match fuel with
    | O => lift OutOfFuel
    | S fuel =>
        r ← attempt (read (k - length got));
        match r with
        | inr [] => eof got
        | inr more => fill_loop read eof fuel k (got ++ more)
        | inl Interrupted => fill_loop read eof fuel k got
        | inl e => fail e
        end
    end
  else mret got.

(** [Read::read_exact].  The fuel is enough because a call gives a byte, is interrupted,
    which the plan bounds, or ends the loop. *)
Definition read_exact {R} (read : nat -> StateM IoErrorKind R bytes) (fuel k : nat) : StateM IoErrorKind R bytes :=
  fill_loop read (fun _ => fail UnexpectedEof) fuel k [].

Definition source_read_exact (k : nat) : StateM IoErrorKind Source bytes := fun self =>
  read_exact source_read (k + length (plan self)) k self.

Definition source_read_u32 : StateM IoErrorKind Source N := b ← source_read_exact 4; mret (le_value b).

(** ** [chacha20poly1305_ietf::Reader]

    Of [chunk_buffer] only the length matters: the part that is used was just read. *)
Record Reader := mk_reader {
  rest_buffer : bytes;
  chunk_len : nat;
  r_key : Key;
  r_nonce : Nonce;
  r_inner : Source;
}.

Section reader.
Context `{ChaCha20Poly1305} `{IncrementLe}.

(** [vec![0; chunk_size + TAGBYTES]] unwinds when it is larger than [isize::MAX]. *)
Definition Reader_new `{Machine} {E} (inner : Source) (key : Key) (nonce : Nonce) (chunk_size : N) : outcome E Reader :=
  len ← usize_add chunk_size (N.of_nat TAGBYTES);
  if (usize_modulus <=? 2 * len)%N then Panic
  else Ok (mk_reader [] (N.to_nat len) key nonce inner).

Definition on_source {A} : StateM IoErrorKind Source A -> StateM IoErrorKind Reader A :=
  within r_inner (fun s self => mk_reader (rest_buffer self) (chunk_len self) (r_key self) (r_nonce self) s).

Definition set_rest (f : bytes -> bytes) (self : Reader) : Reader :=
  mk_reader (f (rest_buffer self)) (chunk_len self) (r_key self) (r_nonce self) (r_inner self).

Definition next_r_nonce (self : Reader) : Reader :=
  mk_reader (rest_buffer self) (chunk_len self) (r_key self) (increment (r_nonce self)) (r_inner self).

Definition _read_chunk : StateM IoErrorKind Reader bytes :=
  self ← gets (fun self => self);
  got ← on_source (fill_loop source_read mret (chunk_len self + length (plan (r_inner self))) (chunk_len self) []);
  if length got =? 0 then fail UnexpectedEof else mret got.

(** [while pos < buf.len()], with what is in [buf] so far *)
Fixpoint read_loop (fuel k : nat) (out : bytes) : StateM IoErrorKind Reader bytes :=
  if length out <? k then
    match fuel with
    | O => lift OutOfFuel
    | S fuel =>
        data ← _read_chunk;
        self ← gets (fun self => self);
        chunk ← lift (match decrypt data (r_key self) (r_nonce self) with Ok c => Ok c | _ => Err InvalidData end);
        _ ← modify next_r_nonce;
        let to_copy := length chunk `min` (k - length out) in
        let out := out ++ take to_copy chunk in
        _ ← modify (set_rest (fun rest =>
          if (length out =? k) && (to_copy <? length chunk) then rest ++ drop to_copy chunk else rest));
        read_loop fuel k out
    end
  else mret out.

(** [read] on a buffer of [k] bytes fills it or fails. *)
Definition reader_read (k : nat) : StateM IoErrorKind Reader bytes :=
  self ← gets (fun self => self);
  let to_copy := length (rest_buffer self) `min` k in
  _ ← modify (set_rest (drop to_copy));
  read_loop (S (length (pending (r_inner self)))) k (take to_copy (rest_buffer self)).

Definition reader_read_exact (k : nat) : StateM IoErrorKind Reader bytes :=
  read_exact reader_read k k.

Definition reader_read_u32 : StateM IoErrorKind Reader N := b ← reader_read_exact 4; mret (le_value b).
End reader.

(** ** Lemmas: writers that work *)

Class WriteLaws (W : Type) `{Write W} := {
  (** what was accepted, whether or not it went further *)
  accepted : W -> bytes;
  healthy : W -> Prop;
  law_write : forall w buf, healthy w -> exists n w', write buf w = (Ok n, w') /\ healthy w' /\
    n <= length buf /\ (buf <> [] -> 0 < n) /\ accepted w' = accepted w ++ take n buf;
}.

Section write_lemmas.
Context {W : Type} `{WriteLaws W}.

Lemma write_all_loop_healthy fuel : forall buf w, length buf <= fuel -> healthy w ->
  exists w', write_all_loop fuel buf w = (Ok tt, w') /\ healthy w' /\ accepted w' = accepted w ++ buf.
Proof.
  induction fuel as [|fuel IH]; intros buf w Hl Hw.
  - destruct buf; [|cbn in Hl; lia]. exists w. by rewrite app_nil_r.
  - destruct buf as [|x buf]; [exists w; by rewrite app_nil_r|].
    destruct (law_write w (x :: buf) Hw) as (n & w1 & Hrun & Hw1 & Hn & Hpos & Hacc).
    specialize (Hpos ltac:(done)). cbn [write_all_loop]. rewrite bind_run, Hrun.
    rewrite (proj2 (Nat.eqb_neq n 0)) by lia.
    destruct (IH (drop n (x :: buf)) w1) as (w2 & Hrun2 & Hw2 & Hacc2); [|done|].
    + rewrite length_drop. cbn in *. lia.
    + exists w2. split_and!; [done..|]. by rewrite Hacc2, Hacc, <-app_assoc, take_drop.
Qed.

Lemma write_all_healthy buf w : healthy w ->
  exists w', write_all buf w = (Ok tt, w') /\ healthy w' /\ accepted w' = accepted w ++ buf.
Proof. by apply write_all_loop_healthy. Qed.

Lemma flush_loop_healthy fuel : forall self : BufWriter W, length (bw_buf self) <= fuel -> healthy (bw_inner self) ->
  exists w', flush_loop fuel self = (Ok tt, mk_bufwriter w' []) /\ healthy w' /\
    accepted w' = accepted (bw_inner self) ++ bw_buf self.
Proof.
  induction fuel as [|fuel IH]; intros [w buf] Hl Hw; cbn [bw_buf bw_inner] in *.
  - destruct buf; [|cbn in Hl; lia]. exists w. by rewrite app_nil_r.
  - destruct buf as [|x buf]; [exists w; by rewrite app_nil_r|].
    destruct (law_write w (x :: buf) Hw) as (n & w1 & Hrun & Hw1 & Hn & Hpos & Hacc).
    specialize (Hpos ltac:(done)). cbn [flush_loop]. rewrite bind_run. unfold gets. cbn [bw_buf].
    rewrite bind_run. unfold on_bw_inner, within. cbn [bw_inner bw_buf]. rewrite Hrun.
    rewrite (proj2 (Nat.eqb_neq n 0)) by lia. rewrite bind_run. unfold modify. cbn [bw_inner bw_buf].
    destruct (IH (mk_bufwriter w1 (drop n (x :: buf)))) as (w2 & Hrun2 & Hw2 & Hacc2); [|done|].
    + cbn [bw_buf]. rewrite length_drop. cbn in *. lia.
    + exists w2. split_and!; [done..|]. rewrite Hacc2. cbn [bw_inner bw_buf]. by rewrite Hacc, <-app_assoc, take_drop.
Qed.
End write_lemmas.

#[export] Program Instance WriteLaws_File : WriteLaws File := {|
  accepted := contents;
  healthy := fun self => room self = None;
|}.
Next Obligation.
  intros [c r] buf Hr. cbn in *. subst r. exists (length buf), (mk_file (c ++ buf) None).
  split_and!; try done.
  - destruct buf; [done|]. cbn. lia.
  - cbn. by rewrite firstn_all.
Qed.

#[export] Program Instance WriteLaws_BufWriter {W} `{WriteLaws W} : WriteLaws (BufWriter W) := {|
  accepted := fun self => accepted (bw_inner self) ++ bw_buf self;
  healthy := fun self => healthy (bw_inner self);
|}.
Next Obligation.
  intros W H HW [w old] buf Hw. cbn [bw_inner bw_buf] in *. cbn [write Write_BufWriter].
  rewrite bind_run. unfold gets. cbn [bw_buf].
  assert (exists w1 old1, (if CAPACITY <? length old + length buf then flush_buf else mret tt) (mk_bufwriter w old) =
    (Ok tt, mk_bufwriter w1 old1) /\ healthy w1 /\ accepted w1 ++ old1 = accepted w ++ old /\
    (CAPACITY <= length buf -> old1 = [])) as (w1 & old1 & Hrun1 & Hw1 & Hacc1 & Hold).
  { destruct (Nat.ltb_spec CAPACITY (length old + length buf)) as [Hlt|Hge].
    - destruct (flush_loop_healthy (length old) (mk_bufwriter w old)) as (w1 & Hrun & Hw1 & Hacc); [done..|].
      exists w1, []. split_and!; [exact Hrun|done| |done]. by rewrite app_nil_r.
    - exists w, old. split_and!; [done..|]. intros. apply nil_length_inv. lia. }
  rewrite bind_run, Hrun1. destruct (Nat.leb_spec CAPACITY (length buf)) as [Hle|Hgt].
  - specialize (Hold Hle). subst old1. rewrite app_nil_r in Hacc1.
    destruct (law_write w1 buf Hw1) as (n & w2 & Hrun & Hw2 & Hn & Hpos & Hacc).
    exists n, (mk_bufwriter w2 []). unfold on_bw_inner, within. cbn [bw_inner bw_buf]. rewrite Hrun.
    split_and!; try done. by rewrite app_nil_r, Hacc, Hacc1.
  - exists (length buf), (mk_bufwriter w1 (old1 ++ buf)). split_and!; try done.
    + destruct buf; [done|]. cbn. lia.
    + cbn [bw_inner bw_buf]. by rewrite firstn_all, app_assoc, Hacc1.
Qed.

Lemma drop_bufwriter_healthy {W} `{WriteLaws W} (self : BufWriter W) : healthy self ->
  healthy (drop_bufwriter self) /\ accepted (drop_bufwriter self) = accepted self.
Proof.
  intros Hw. unfold drop_bufwriter, flush_buf.
  by destruct (flush_loop_healthy (length (bw_buf self)) self (le_n _) Hw) as (w & -> & ? & ?).
Qed.

(** ** Lemmas: the encrypted stream *)

Section stream.
Context `{ChaCha20Poly1305} `{IncrementLe}.

(** Chunks encrypted one after another. *)
Fixpoint seal_all (key : Key) (nonce : Nonce) (l : list bytes) : bytes :=
  match l with
  | [] => []
  | c :: l => encrypt c key nonce ++ seal_all key (increment nonce) l
  end.

Fixpoint nonce_after (k : nat) (nonce : Nonce) : Nonce :=
  match k with
  | O => nonce
  | S k => nonce_after k (increment nonce)
  end.

Lemma nonce_after_add j k nonce : nonce_after (j + k) nonce = nonce_after k (nonce_after j nonce).
Proof. revert nonce. induction j as [|j IH]; intros nonce; cbn; auto. Qed.

Lemma seal_all_app key nonce l k :
  seal_all key nonce (l ++ k) = seal_all key nonce l ++ seal_all key (nonce_after (length l) nonce) k.
Proof. revert nonce. induction l as [|c l IH]; intros nonce; cbn; [done|]. by rewrite IH, app_assoc. Qed.

Definition full (n : nat) (l : list bytes) : Prop := Forall (fun c => length c = n) l.

Section writing.
Context {W : Type} `{WriteLaws W}.
Implicit Type self : Writer W.

Lemma write_chunk_healthy chunk self : healthy (w_inner self) ->
  exists w, write_chunk chunk self =
      (Ok tt, mk_writer (w_buffer self) (w_chunk_size self) (w_key self) (increment (w_nonce self)) w) /\
    healthy w /\ accepted w = accepted (w_inner self) ++ encrypt chunk (w_key self) (w_nonce self).
Proof.
  intros Hw. destruct (write_all_healthy (encrypt chunk (w_key self) (w_nonce self)) _ Hw) as (w & Hrun & Hw' & Hacc).
  exists w. split_and!; [|done..]. unfold write_chunk. rewrite bind_run. unfold gets. rewrite bind_run.
  unfold on_inner, within. by rewrite Hrun.
Qed.

(** The loop encrypts the full chunks of the buffer from [start] on. *)
Lemma write_loop_healthy fuel : forall start self, 0 < w_chunk_size self -> start <= length (w_buffer self) ->
  length (w_buffer self) - start <= fuel -> healthy (w_inner self) ->
  exists l rest w, drop start (w_buffer self) = concat l ++ rest /\ full (w_chunk_size self) l /\
    length rest < w_chunk_size self /\ healthy w /\
    accepted w = accepted (w_inner self) ++ seal_all (w_key self) (w_nonce self) l /\
    write_loop fuel start self = (Ok (length (w_buffer self) - length rest),
      mk_writer (w_buffer self) (w_chunk_size self) (w_key self) (nonce_after (length l) (w_nonce self)) w).
Proof.
  induction fuel as [|fuel IH]; intros start self Hcs Hstart Hfuel Hw; cbn [write_loop]; rewrite bind_run; unfold gets.
  all: destruct (Nat.leb_spec (start + w_chunk_size self) (length (w_buffer self))) as [Hle|Hgt].
  1: lia.
  1,3: exists [], (drop start (w_buffer self)), (w_inner self);
    split_and!; [done|constructor|rewrite length_drop; lia|done|by rewrite app_nil_r|];
    rewrite length_drop; replace (_ - _) with start by lia; by destruct self.
  set (chunk := take (w_chunk_size self) (drop start (w_buffer self))).
  destruct (write_chunk_healthy chunk self Hw) as (w1 & Hrun & Hw1 & Hacc1). rewrite bind_run, Hrun.
  destruct (IH (start + w_chunk_size self) (mk_writer (w_buffer self) (w_chunk_size self) (w_key self)
    (increment (w_nonce self)) w1)) as (l & rest & w2 & Hd & Hl & Hrest & Hw2 & Hacc2 & Hrun2);
    cbn [w_buffer w_chunk_size w_key w_nonce w_inner] in *; [lia|lia|lia|done|].
  exists (chunk :: l), rest, w2. split_and!; try done.
  - cbn [concat]. rewrite <-app_assoc, <-Hd, <-drop_drop. unfold chunk. by rewrite take_drop.
  - constructor; [|done]. unfold chunk. rewrite length_take, length_drop. lia.
  - by rewrite Hacc2, Hacc1, <-app_assoc.
Qed.

(** What the writer was given, [written], against what it let through. *)
Definition carries (key : Key) (nonce : Nonce) (start written : bytes) self : Prop :=
  exists l, written = concat l ++ w_buffer self /\ full (w_chunk_size self) l /\
    length (w_buffer self) < w_chunk_size self /\ w_key self = key /\ w_nonce self = nonce_after (length l) nonce /\
    accepted (w_inner self) = start ++ seal_all key nonce l /\ healthy (w_inner self).

Lemma carries_new inner key nonce n : 0 < n -> healthy inner ->
  carries key nonce (accepted inner) [] (Writer_new inner key nonce n).
Proof. intros Hn Hw. exists []. cbn. rewrite app_nil_r. split_and!; try done. constructor. Qed.

Lemma carries_write key nonce start written buf self : carries key nonce start written self ->
  exists self', write buf self = (Ok (length buf), self') /\ carries key nonce start (written ++ buf) self' /\
    w_chunk_size self' = w_chunk_size self.
Proof.
  intros (l & -> & Hl & Hb & Hk & Hn & Hacc & Hw). cbn [write Write_Writer].
  rewrite bind_run. unfold modify at 1. rewrite bind_run. unfold gets at 1. cbn [w_buffer set_buffer].
  rewrite bind_run. set (self1 := set_buffer _ self).
  destruct (write_loop_healthy (length (w_buffer self ++ buf)) 0 self1) as (l2 & rest & w & Hd & Hl2 & Hrest & Hw2 & Hacc2 & Hrun);
    cbn [w_buffer w_chunk_size w_key w_nonce w_inner set_buffer self1] in *; [lia|lia|lia|done|].
  rewrite Hrun. rewrite drop_0 in Hd. rewrite bind_run. unfold modify. cbn [w_buffer w_chunk_size w_key w_nonce w_inner set_buffer].
  assert (length (w_buffer self ++ buf) - length rest = length (concat l2)) as -> by (rewrite Hd, length_app; lia).
  assert ((if 0 <? length (concat l2) then drop (length (concat l2)) (w_buffer self ++ buf) else w_buffer self ++ buf) = rest)
    as Hdr.
  { rewrite Hd. destruct (Nat.ltb_spec 0 (length (concat l2))) as [Hpos|Hz]; [by rewrite drop_app_length|].
    by rewrite (nil_length_inv (concat l2)) by lia. }
  eexists. split; [done|]. unfold set_buffer. cbn [w_buffer w_chunk_size w_key w_nonce w_inner]. rewrite Hdr.
  split; [|done]. exists (l ++ l2). cbn [w_buffer w_chunk_size w_key w_nonce w_inner]. split_and!; try done.
  - by rewrite concat_app, <-!app_assoc, Hd.
  - by apply Forall_app.
  - by rewrite length_app, nonce_after_add, Hn.
  - by rewrite Hacc2, Hacc, Hk, Hn, seal_all_app, app_assoc.
Qed.

Lemma carries_write_all key nonce start written buf self : carries key nonce start written self ->
  exists self', write_all buf self = (Ok tt, self') /\ carries key nonce start (written ++ buf) self' /\
    w_chunk_size self' = w_chunk_size self.
Proof.
  intros Hc. unfold write_all. destruct buf as [|x buf]; [exists self; by rewrite app_nil_r|].
  destruct (carries_write _ _ _ _ (x :: buf) _ Hc) as (self' & Hrun & Hc' & Hcs). exists self'.
  split; [|done]. cbn [write_all_loop length]. rewrite bind_run, Hrun. cbn [length Nat.eqb].
  rewrite drop_ge by (cbn; lia). by destruct (length buf).
Qed.

(** The chunks of a stream: all full but the last, which is not empty. *)
Definition chunks_of (n : nat) (l : list bytes) : Prop :=
  exists k r, l = k ++ r /\ full n k /\ (r = [] \/ exists c, r = [c] /\ 0 < length c < n).

Lemma carries_flush key nonce start written self : carries key nonce start written self ->
  exists self' l, flush self = (Ok tt, self') /\ written = concat l /\ chunks_of (w_chunk_size self) l /\
    accepted (w_inner self') = start ++ seal_all key nonce l /\ healthy (w_inner self').
Proof.
  intros (l & -> & Hl & Hb & Hk & Hn & Hacc & Hw). unfold flush. rewrite bind_run. unfold gets.
  destruct (Nat.ltb_spec 0 (length (w_buffer self))) as [Hpos|Hz].
  - destruct (write_chunk_healthy (w_buffer self) self Hw) as (w & Hrun & Hw' & Hacc').
    eexists _, (l ++ [w_buffer self]). split_and!; [exact Hrun| | | |done].
    + rewrite concat_app. cbn. by rewrite app_nil_r.
    + exists l, [w_buffer self]. split_and!; [done..|]. right. eauto.
    + cbn [w_inner]. rewrite Hacc', Hacc, seal_all_app, Hk, Hn. cbn. by rewrite app_nil_r, app_assoc.
  - exists self, l. split_and!; [done| | |done..].
    + by rewrite (nil_length_inv (w_buffer self)), app_nil_r by lia.
    + exists l, []. rewrite app_nil_r. auto.
Qed.
End writing.
End stream.

(** ** Lemmas: reading *)

Definition plan_ok (s : Source) : Prop := Forall (fun step => step <> Fails) (plan s).

Lemma source_read_ok k s : 0 < k -> plan_ok s -> exists s', plan_ok s' /\
  ((source_read k s = (Err Interrupted, s') /\ pending s' = pending s /\ length (plan s') < length (plan s)) \/
   exists n, 0 < n <= k /\ source_read k s = (Ok (take n (pending s)), s') /\ pending s' = drop n (pending s) /\
     length (plan s') <= length (plan s)).
Proof.
  intros Hk Hs. destruct s as [p l]. unfold plan_ok, source_read in *. cbn [pending plan] in *.
  destruct Hs as [|[n| |] l Hst Hs].
  - eexists. split; [|right; exists k; split_and!; [done..|cbn; lia]]. constructor.
  - eexists. split; [|right; exists (k `min` S n); split_and!; [lia|lia|done|done|cbn; lia]]. done.
  - eexists. split; [|left; split_and!; [done..|cbn; lia]]. done.
  - done.
Qed.

Lemma source_fill eof fuel : forall k got s, plan_ok s -> (k - length got) + length (plan s) <= fuel ->
  length got <= k -> exists s', plan_ok s' /\ pending s' = drop (k - length got) (pending s) /\
    fill_loop source_read eof fuel k got s =
      if length got + length (pending s) <? k then eof (got ++ pending s) s'
      else (Ok (got ++ take (k - length got) (pending s)), s').
Proof.
  induction fuel as [|fuel IH]; intros k got s Hs Hf Hk; cbn [fill_loop].
  all: destruct (Nat.ltb_spec (length got) k) as [Hlt|Hge]; [try lia|].
  1,3: exists s; replace (k - length got) with 0 by lia;
    rewrite (proj2 (Nat.ltb_ge _ _)) by lia; cbn; by rewrite drop_0, app_nil_r.
  rewrite bind_run. unfold attempt.
  destruct (source_read_ok (k - length got) s ltac:(lia) Hs) as (s1 & Hs1 & [(-> & Hp & Hl)|(n & Hn & -> & Hp & Hl)]).
  - destruct (IH k got s1) as (s' & Hs' & Hp' & ->); [done|lia|done|]. exists s'. by rewrite Hp', Hp.
  - destruct (take n (pending s)) as [|x more] eqn:Htk.
    + assert (pending s = []) as Hnil by (destruct (pending s), n; try done; lia).
      exists s1. rewrite Hp, Hnil, !drop_nil, app_nil_r. cbn [length]. by rewrite (proj2 (Nat.ltb_lt _ _)) by lia.
    + rewrite <-Htk. set (got' := got ++ take n (pending s)).
      assert (length (take n (pending s)) = n `min` length (pending s)) as Hlen by apply length_take.
      assert (0 < length (take n (pending s))) as Hpos by (rewrite Htk; cbn; lia).
      assert (length got' = length got + n `min` length (pending s)) as Hg' by (unfold got'; by rewrite length_app, Hlen).
      destruct (IH k got' s1) as (s' & Hs' & Hp' & ->); [done|lia|lia|]. exists s'. split; [done|].
      rewrite Hp', Hp, drop_drop, Hg', length_drop.
      destruct (Nat.le_gt_cases n (length (pending s))) as [Hle|Hgt].
      * rewrite Nat.min_l by done. replace (n + (k - (length got + n))) with (k - length got) by lia.
        split; [done|]. replace (length got + n + (length (pending s) - n)) with (length got + length (pending s)) by lia.
        unfold got'. rewrite <-!app_assoc, take_drop.
        assert (take n (pending s) ++ take (k - (length got + n)) (drop n (pending s)) = take (k - length got) (pending s)) as ->.
        { rewrite <-(take_drop n (pending s)) at 3. rewrite take_app_ge by (rewrite length_take; lia).
          rewrite length_take, Nat.min_l by lia. do 2 f_equal. lia. }
        done.
      * rewrite Nat.min_r by lia. rewrite !(drop_ge (pending s)) by lia. split; [done|]. unfold got'.
        rewrite (take_ge (pending s)) by lia. rewrite take_nil, !app_nil_r.
        replace (length got + length (pending s) + (length (pending s) - n)) with (length got + length (pending s)) by lia.
        by rewrite (take_ge (pending s)) by lia.
Qed.

Lemma source_read_exact_ok k s : plan_ok s -> exists s', plan_ok s' /\ pending s' = drop k (pending s) /\
  source_read_exact k s = (if length (pending s) <? k then Err UnexpectedEof else Ok (take k (pending s)), s').
Proof.
  intros Hs. destruct (source_fill (fun _ => fail UnexpectedEof) (k + length (plan s)) k [] s) as (s' & Hs' & Hp & Hrun);
    [done|cbn; lia|cbn; lia|]. cbn [length app Nat.add] in *. rewrite Nat.sub_0_r in *.
  exists s'. split_and!; [done..|]. unfold source_read_exact, read_exact. rewrite Hrun. by case_match.
Qed.

Section reading.
Context `{ChaCha20Poly1305} `{IncrementLe}.

(** What a reader with chunks of [n] bytes makes of a stream: the data, and the error that
    comes after it, which is [InvalidData] when the stream ends inside a chunk. *)
Inductive encrypted (n : nat) (key : Key) : Nonce -> bytes -> bytes -> IoErrorKind -> Prop :=
| enc_end nonce : encrypted n key nonce [] [] UnexpectedEof
| enc_cut nonce tail : tail <> [] -> length tail <= n + TAGBYTES -> open tail nonce key = None ->
    encrypted n key nonce tail [] InvalidData
| enc_last nonce c : length c <= n -> encrypted n key nonce (encrypt c key nonce) c UnexpectedEof
| enc_cons nonce c stream data e : length c = n -> encrypted n key (increment nonce) stream data e ->
    encrypted n key nonce (encrypt c key nonce ++ stream) (c ++ data) e.

Lemma seal_all_encrypted n key l : forall nonce, chunks_of n l ->
  encrypted n key nonce (seal_all key nonce l) (concat l) UnexpectedEof.
Proof.
  intros nonce (k & r & -> & Hk & Hr). revert nonce. induction Hk as [|c k Hc Hk IH]; intros nonce; cbn.
  - destruct Hr as [->|(c & -> & Hc)]; cbn; [constructor|]. rewrite !app_nil_r. constructor. lia.
  - by constructor.
Qed.

(** A part of an encrypted chunk is no encrypted chunk. *)
Fixpoint cuts_refused (key : Key) (nonce : Nonce) (l : list bytes) : Prop :=
  match l with
  | [] => True
  | c :: l => (forall m, 0 < m < length (encrypt c key nonce) -> open (take m (encrypt c key nonce)) nonce key = None) /\
      cuts_refused key (increment nonce) l
  end.

Lemma chunks_cuts_refused n key l : (forall c nonce m, length c <= n -> 0 < m < length (encrypt c key nonce) ->
    open (take m (encrypt c key nonce)) nonce key = None) ->
  forall nonce, chunks_of n l -> cuts_refused key nonce l.
Proof.
  intros Ha nonce (k & r & -> & Hk & Hr). revert nonce. induction Hk as [|c k Hc Hk IH]; intros nonce; cbn.
  - destruct Hr as [->|(c & -> & Hc)]; cbn; [done|]. split; [|done]. intros. apply Ha; lia.
  - split; [|apply IH]. intros. apply Ha; lia.
Qed.

Lemma cut_encrypted n key l : forall nonce m, 0 < n -> chunks_of n l -> cuts_refused key nonce l ->
  m < length (seal_all key nonce l) -> exists data e rest, encrypted n key nonce (take m (seal_all key nonce l)) data e /\
    (e = UnexpectedEof \/ e = InvalidData) /\ rest <> [] /\ concat l = data ++ rest.
Proof.
  intros nonce m Hn (k & r & -> & Hk & Hr). revert nonce m.
  induction Hk as [|c k Hc Hk IH]; intros nonce m Hcuts Hm; cbn [app seal_all concat] in *.
  - destruct Hr as [->|(c & -> & Hc)]; [cbn in Hm; lia|]. destruct Hcuts as [Hcut _]. cbn [seal_all concat] in *.
    rewrite !app_nil_r in *. assert (c <> []) by (intros ->; cbn in Hc; lia).
    destruct m as [|m]; [exists [], UnexpectedEof, c; split_and!; [constructor|auto..]|].
    exists [], InvalidData, c. split_and!; [|auto..]. constructor; [|rewrite length_take; unfold encrypt in *; rewrite seal_length in *; lia|apply Hcut; lia].
    intros Hnil. apply (f_equal length) in Hnil. rewrite length_take in Hnil. cbn [length] in Hnil. lia.
  - destruct Hcuts as [Hcut Hcuts]. assert (length (encrypt c key nonce) = n + TAGBYTES) as Hel
      by (unfold encrypt; rewrite seal_length; lia).
    assert (c ++ concat (k ++ r) <> []) by (destruct c; [cbn in Hc; lia|done]).
    destruct m as [|m]; [exists [], UnexpectedEof, (c ++ concat (k ++ r)); split_and!; [constructor|auto..]|].
    destruct (Nat.lt_ge_cases (S m) (length (encrypt c key nonce))) as [Hlt|Hge].
    + exists [], InvalidData, (c ++ concat (k ++ r)). split_and!; [|auto..].
      rewrite take_app_le by lia. constructor; [|rewrite length_take; lia|apply Hcut; lia].
      intros Hnil. apply (f_equal length) in Hnil. rewrite length_take in Hnil. cbn [length] in Hnil. lia.
    + rewrite length_app in Hm. destruct (IH (increment nonce) (S m - length (encrypt c key nonce))) as (d & e & rest & He & He' & Hrest & Heq);
        [done|lia|]. exists (c ++ d), e, rest. split_and!; [|done..|by rewrite Heq, app_assoc].
      rewrite take_app_ge by lia. by constructor.
Qed.

Definition holds (n : nat) (data : bytes) (e : IoErrorKind) (r : Reader) : Prop :=
  plan_ok (r_inner r) /\ encrypted n (r_key r) (r_nonce r) (pending (r_inner r)) data e /\
  chunk_len r = n + TAGBYTES.

Definition with_source (s : Source) (r : Reader) : Reader :=
  mk_reader (rest_buffer r) (chunk_len r) (r_key r) (r_nonce r) s.

Lemma read_chunk_ok r : plan_ok (r_inner r) -> 0 < chunk_len r -> exists s, plan_ok s /\
  pending s = drop (chunk_len r) (pending (r_inner r)) /\
  _read_chunk r = (if length (pending (r_inner r)) =? 0 then Err UnexpectedEof
                   else Ok (take (chunk_len r) (pending (r_inner r))), with_source s r).
Proof.
  intros Hs Hpos. destruct (source_fill mret (chunk_len r + length (plan (r_inner r))) (chunk_len r) [] (r_inner r))
    as (s & Hs' & Hp & Hrun); [done|cbn; lia|cbn; lia|]. cbn [length app Nat.add] in *. rewrite Nat.sub_0_r in *.
  exists s. split_and!; [done..|]. unfold _read_chunk. rewrite bind_run. unfold gets. rewrite bind_run.
  unfold on_source, within. rewrite Hrun. destruct (Nat.ltb_spec (length (pending (r_inner r))) (chunk_len r)) as [Hlt|Hge].
  - cbn [mret StateM_ret]. rewrite take_ge by lia. by destruct (pending (r_inner r)).
  - assert (length (take (chunk_len r) (pending (r_inner r))) <> 0) as ?%Nat.eqb_neq by (rewrite length_take; lia).
    case_match; [done|]. by rewrite (proj2 (Nat.eqb_neq _ 0)) by lia.
Qed.

(** The next chunk of the source: there is none, it cannot be opened, or it can. *)
Lemma next_chunk n data e r : holds n data e r -> exists s, plan_ok s /\
  match _read_chunk r with
  | (Err e', r') => data = [] /\ e = e' /\ e' = UnexpectedEof
  | (Ok b, r') => r' = with_source s r /\
      ((data = [] /\ e = InvalidData /\ open b (r_nonce r) (r_key r) = None) \/
       exists c d, data = c ++ d /\ b = encrypt c (r_key r) (r_nonce r) /\
         encrypted n (r_key r) (increment (r_nonce r)) (pending s) d e /\ length (pending s) < length (pending (r_inner r)))
  | _ => False
  end.
Proof.
  intros (Hs & He & Hlen). destruct (read_chunk_ok r Hs) as (s & Hs' & Hp & ->); [rewrite Hlen; unfold TAGBYTES; lia|].
  exists s. split; [done|]. rewrite Hp, Hlen. clear Hp.
  assert (forall c, length (encrypt c (r_key r) (r_nonce r)) = length c + TAGBYTES) as Hel by (intros; apply seal_length).
  destruct He as [nonce|nonce tail Hne Hl Ho|nonce c Hc|nonce c stream data e Hc He].
  - done.
  - destruct tail as [|x tail]; [done|]. cbn [length Nat.eqb] in *. rewrite take_ge by (cbn [length]; lia). eauto.
  - rewrite (proj2 (Nat.eqb_neq _ 0)), take_ge, drop_ge by (rewrite Hel; unfold TAGBYTES; lia).
    split; [done|]. right. exists c, []. rewrite app_nil_r, Hel. split_and!; [done..|constructor|cbn; unfold TAGBYTES; lia].
  - rewrite (proj2 (Nat.eqb_neq _ 0)) by (rewrite length_app, Hel; unfold TAGBYTES; lia).
    rewrite take_app_length', drop_app_length' by (rewrite Hel; lia). split; [done|]. right. exists c, data.
    split_and!; [done..|]. rewrite length_app, Hel. unfold TAGBYTES. lia.
Qed.

(** The outcome of reading [k] bytes of [data]. *)
Definition read_outcome (k : nat) (data : bytes) (e : IoErrorKind) : outcome IoErrorKind bytes :=
  if length data <? k then Err e else Ok (take k data).

Lemma read_loop_ok n fuel k e : forall out r data, holds n data e r -> length (pending (r_inner r)) < fuel ->
  length out <= k -> (length out < k -> rest_buffer r = []) -> exists r',
    read_loop fuel k out r = (read_outcome k (out ++ rest_buffer r ++ data) e, r') /\
    (k <= length (out ++ rest_buffer r ++ data) -> exists data', holds n data' e r' /\
      rest_buffer r' ++ data' = drop k (out ++ rest_buffer r ++ data)).
Proof.
  induction fuel as [|fuel IH]; intros out r data Hr Hf Hk Hrest; [lia|]. cbn [read_loop]. unfold read_outcome.
  destruct (Nat.ltb_spec (length out) k) as [Hlt|Hge].
  2: { exists r. assert (k = length out) as -> by lia. rewrite take_app_length, drop_app_length, length_app.
       rewrite (proj2 (Nat.ltb_ge _ _)) by lia. split; [done|]. eauto. }
  specialize (Hrest Hlt). rewrite Hrest. cbn [app]. rewrite bind_run.
  destruct (next_chunk n data e r Hr) as (s & Hs & Hnext). destruct Hr as (_ & _ & Hlen).
  destruct (_read_chunk r) as [[b|e'| |] r1]; [|destruct Hnext as (-> & -> & _)|done..].
  2: { exists r1. rewrite app_nil_r. rewrite (proj2 (Nat.ltb_lt _ _)) by done. split; [done|lia]. }
  destruct Hnext as [-> [(-> & -> & Ho)|(c & d & -> & -> & He & Hless)]]; rewrite bind_run; unfold gets;
    rewrite bind_run; unfold lift; cbn [with_source r_key r_nonce]; unfold decrypt.
  { rewrite Ho. eexists. rewrite app_nil_r. rewrite (proj2 (Nat.ltb_lt _ _)) by done. split; [done|lia]. }
  unfold encrypt. rewrite open_seal. cbn [ok_or]. rewrite bind_run. unfold modify at 1. rewrite bind_run.
  unfold modify at 1. set (to_copy := length c `min` (k - length out)). set (out' := out ++ take to_copy c).
  assert (length out' = length out + to_copy) as Ho by (unfold out'; rewrite length_app, length_take; lia).
  set (r2 := set_rest _ (next_r_nonce (with_source s r))).
  assert (rest_buffer r2 = if (length out' =? k) && (to_copy <? length c) then drop to_copy c else []) as Hr2
    by (unfold r2, set_rest; cbn [rest_buffer next_r_nonce with_source]; by rewrite Hrest).
  destruct (IH out' r2 d) as (r' & Hrun' & Hpost); [by split_and!|cbn; lia|lia| |].
  { intros Hm. by rewrite Hr2, (proj2 (Nat.eqb_neq _ _)) by lia. }
  assert (out' ++ rest_buffer r2 ++ d = out ++ c ++ d) as Hall; [|rewrite Hall in *; eauto].
  unfold out'. rewrite <-!app_assoc. f_equal. rewrite app_assoc. f_equal. rewrite Hr2.
  destruct (Nat.ltb_spec to_copy (length c)) as [Hl|Hg].
  - rewrite (proj2 (Nat.eqb_eq _ _)) by lia. apply take_drop.
  - by rewrite andb_false_r, app_nil_r, take_ge by lia.
Qed.

(** The reader has the bytes [data] to give, and then the error [e]. *)
Definition gives (n : nat) (data : bytes) (e : IoErrorKind) (r : Reader) : Prop :=
  exists d, holds n d e r /\ rest_buffer r ++ d = data.

Lemma reader_read_ok n k data e r : gives n data e r -> exists r',
  reader_read k r = (read_outcome k data e, r') /\ (k <= length data -> gives n (drop k data) e r').
Proof.
  intros (d & Hh & <-). unfold reader_read. rewrite bind_run. unfold gets. rewrite bind_run. unfold modify.
  set (to_copy := length (rest_buffer r) `min` k). set (r1 := set_rest (drop to_copy) r).
  destruct (read_loop_ok n (S (length (pending (r_inner r)))) k e (take to_copy (rest_buffer r)) r1 d) as (r' & Hrun & Hpost).
  - done.
  - cbn. lia.
  - rewrite length_take. lia.
  - rewrite length_take. intros Hlt. apply drop_ge. lia.
  - exists r'. cbn [rest_buffer r1 set_rest] in *. rewrite app_assoc, take_drop in *. by rewrite Hrun.
Qed.

Lemma reader_read_exact_ok n k data e r : gives n data e r -> e <> Interrupted -> exists r',
  reader_read_exact k r = (read_outcome k data e, r') /\ (k <= length data -> gives n (drop k data) e r').
Proof.
  intros Hr He. unfold reader_read_exact, read_exact. destruct k as [|k]; [by exists r|].
  destruct (reader_read_ok n (S k) data e r Hr) as (r' & Hrun & Hpost). exists r'. split; [|done].
  cbn [fill_loop]. change (length [] <? S k) with true. cbv iota. rewrite bind_run. unfold attempt.
  change (S k - length []) with (S k). rewrite Hrun. unfold read_outcome.
  destruct (Nat.ltb_spec (length data) (S k)) as [Hlt|Hge]; [by destruct e|].
  destruct (take (S k) data) as [|x more] eqn:Htk.
  - apply (f_equal length) in Htk. rewrite length_take in Htk. cbn [length] in Htk. lia.
  - rewrite <-Htk, app_nil_l. assert (length (take (S k) data) = S k) as Hl by (rewrite length_take; lia).
    destruct k; cbn [fill_loop]; rewrite Hl; by rewrite (proj2 (Nat.ltb_ge _ _)) by lia.
Qed.

Lemma Reader_new_ok `{Machine} {E} n stream data e key nonce s :
  encrypted n key nonce stream data e -> plan_ok s -> pending s = stream -> (2 * (N.of_nat n + 16) < usize_modulus)%N ->
  exists r, Reader_new (E:=E) s key nonce (N.of_nat n) = Ok r /\ gives n data e r.
Proof.
  intros He Hp Hs Hn. unfold Reader_new. change (N.of_nat TAGBYTES) with 16%N.
  rewrite usize_add_ok by lia. cbn [mbind outcome_bind]. rewrite (proj2 (N.leb_gt _ _)) by lia.
  eexists. split; [done|]. exists data. split; [|done]. split_and!; [done|by rewrite <-Hs in He|]. cbn. unfold TAGBYTES. lia.
Qed.

(** Reads of given lengths, one after another. *)
Fixpoint read_list (ks : list nat) : StateM IoErrorKind Reader (list bytes) :=
  match ks with
  | [] => mret []
  | k :: ks => b ← reader_read_exact k; bs ← read_list ks; mret (b :: bs)
  end.

Fixpoint cut (ks : list nat) (data : bytes) : list bytes :=
  match ks with
  | [] => []
  | k :: ks => take k data :: cut ks (drop k data)
  end.

Lemma read_list_ok n ks e : forall data r, gives n data e r -> e <> Interrupted -> list_sum ks <= length data -> exists r',
  read_list ks r = (Ok (cut ks data), r') /\ gives n (drop (list_sum ks) data) e r'.
Proof.
  induction ks as [|k ks IH]; intros data r Hr He Hs; cbn [read_list cut] in *; [by exists r|].
  change (list_sum (k :: ks)) with (k + list_sum ks) in *.
  destruct (reader_read_exact_ok n k data e r Hr He) as (r1 & Hrun & Hpost). unfold read_outcome in Hrun.
  rewrite (proj2 (Nat.ltb_ge _ _)) in Hrun by lia.
  destruct (IH (drop k data) r1) as (r2 & Hrun2 & Hr2); [apply Hpost; lia|done|rewrite length_drop; lia|].
  exists r2. rewrite bind_run, Hrun, bind_run, Hrun2. split; [done|]. by rewrite drop_drop in Hr2.
Qed.
End reading.

(** Everything written, then flushed. *)
Definition write_stream `{ChaCha20Poly1305} `{IncrementLe} {W} `{Write W} (l : list bytes) :
    StateM IoErrorKind (Writer W) unit :=
  _ ← forM write_all l; flush.

Lemma write_list_carries `{ChaCha20Poly1305} `{IncrementLe} {W} `{WriteLaws W} key nonce start l :
  forall written (self : Writer W), carries key nonce start written self ->
  exists self', forM write_all l self = (Ok tt, self') /\ carries key nonce start (written ++ concat l) self' /\
    w_chunk_size self' = w_chunk_size self.
Proof.
  induction l as [|b l IH]; intros written self Hc; cbn [forM concat].
  - exists self. by rewrite app_nil_r.
  - destruct (carries_write_all _ _ _ _ b _ Hc) as (self1 & Hrun & Hc1 & Hcs).
    destruct (IH _ _ Hc1) as (self2 & Hrun2 & Hc2 & Hcs2). exists self2.
    rewrite bind_run, Hrun. by rewrite app_assoc, Hcs2, Hcs.
Qed.

(** ** Theorems *)

(** what is written to a [Writer] in any pieces and flushed, a [Reader] with the same
    key, nonce and chunk size reads back in pieces of any lengths, however the reads of
    the encrypted bytes are cut and interrupted; then it is at the end. *)
Theorem stream_roundtrip `{ChaCha20Poly1305} `{IncrementLe} `{Machine} {W} `{WriteLaws W}
    (inner : W) key nonce n pieces : 0 < n -> (2 * (N.of_nat n + 16) < usize_modulus)%N -> healthy inner ->
  exists self stream, write_stream pieces (Writer_new inner key nonce n) = (Ok tt, self) /\
    accepted (into_inner self) = accepted inner ++ stream /\
    forall plan ks, plan_ok (mk_source stream plan) -> list_sum ks = length (concat pieces) ->
    exists r r', Reader_new (E:=IoErrorKind) (mk_source stream plan) key nonce (N.of_nat n) = Ok r /\
      read_list ks r = (Ok (cut ks (concat pieces)), r') /\
      (reader_read_exact 1 r').1 = Err UnexpectedEof.
Proof.
  intros Hn Hm Hw.
  destruct (write_list_carries key nonce (accepted inner) pieces [] (Writer_new inner key nonce n)) as (self1 & Hrun1 & Hc1 & Hcs).
  { by apply carries_new. }
  destruct (carries_flush _ _ _ _ _ Hc1) as (self & l & Hrun & Hl & Hchunks & Hacc & _).
  exists self, (seal_all key nonce l). split; [unfold write_stream; by rewrite bind_run, Hrun1|]. split; [done|].
  intros plan ks Hplan Hks. rewrite Hcs in Hchunks. cbn [app] in Hl.
  destruct (Reader_new_ok (E:=IoErrorKind) n (seal_all key nonce l) (concat l) UnexpectedEof key nonce (mk_source (seal_all key nonce l) plan))
    as (r & Hr & Hg); [by apply seal_all_encrypted|done..|].
  rewrite <-Hl in Hg. destruct (read_list_ok n ks _ _ r Hg) as (r' & Hrun' & Hg'); [done|lia|].
  exists r, r'. split_and!; [done..|]. destruct (reader_read_exact_ok n 1 _ _ r' Hg') as (r2 & -> & _); [done|].
  by rewrite drop_ge by lia.
Qed.

(** ** Witness *)

(** A cipher that writes the nonce, two bytes of the key and the length of the data before
    the data. *)
Definition length_tag (nonce : Nonce) (key : Key) (n : nat) : bytes :=
  arr_bytes nonce ++ take 2 (arr_bytes key) ++ le_bytes 2 (N.of_nat n).

Lemma length_tag_length nonce key n : length (length_tag nonce key n) = TAGBYTES.
Proof. unfold length_tag. by rewrite !length_app, length_take, !arr_length, le_bytes_length. Qed.

#[local] Program Instance LengthCipher : ChaCha20Poly1305 := {|
  seal := fun data nonce key => length_tag nonce key (length data) ++ data;
  open := fun data nonce key =>
    if decide (take TAGBYTES data = length_tag nonce key (length data - TAGBYTES)) then Some (drop TAGBYTES data) else None;
|}.
Next Obligation.
  intros data nonce key. cbv beta. rewrite length_app, length_tag_length, take_app_length', drop_app_length'
    by (by rewrite length_tag_length). by rewrite decide_True by (f_equal; lia).
Qed.
Next Obligation. intros data nonce key. cbv beta. rewrite length_app, length_tag_length. lia. Qed.

(** It refuses parts of chunks that are not too long for the length. *)
Lemma length_cipher_cuts key (c : bytes) nonce m : (N.of_nat (length c) < 2 ^ 16)%N -> 0 < m < length (encrypt c key nonce) ->
  open (take m (encrypt c key nonce)) nonce key = None.
Proof.
  unfold encrypt, open, seal. cbn [LengthCipher]. rewrite length_app, length_tag_length. intros Hc Hm.
  apply decide_False. rewrite length_take, length_app, length_tag_length. intros He.
  destruct (Nat.le_gt_cases TAGBYTES m) as [Hle|Hgt].
  - rewrite take_take, Nat.min_l, take_app_length' in He by (done || by rewrite length_tag_length).
    rewrite Nat.min_l in He by lia. unfold length_tag in He. apply app_inj_1 in He as [_ He]; [|done].
    apply app_inj_1 in He as [_ He]; [|done]. apply (f_equal le_value) in He.
    rewrite !le_value_bytes in He by (change (256 ^ N.of_nat 2)%N with (2 ^ 16)%N; lia). lia.
  - apply (f_equal length) in He. rewrite length_tag_length, !length_take, length_app, length_tag_length in He. lia.
Qed.

#[local] Instance ToyIncrement : IncrementLe :=
  {| increment := fun nonce => pad _ (byte_of_N (Byte.to_N (hd Byte.x00 (arr_bytes nonce)) + 1) :: tl (arr_bytes nonce)) |}.

Lemma stream_roundtrip_witness :
  let pieces := [as_bytes "chunked"; as_bytes " encryption"; []; as_bytes "!"] in
  exists self stream, write_stream pieces (Writer_new (mk_file [] None) (toy_key Byte.x01) (toy_nonce Byte.x01) 5) = (Ok tt, self) /\
    accepted (into_inner self) = accepted (mk_file [] None) ++ stream /\
    forall plan ks, plan_ok (mk_source stream plan) -> list_sum ks = length (concat pieces) ->
    exists r r', Reader_new (H1:=debug_machine) (E:=IoErrorKind) (mk_source stream plan) (toy_key Byte.x01) (toy_nonce Byte.x01) (N.of_nat 5) = Ok r /\
      read_list ks r = (Ok (cut ks (concat pieces)), r') /\
      (reader_read_exact 1 r').1 = Err UnexpectedEof.
Proof. refine (stream_roundtrip (H1:=debug_machine) (mk_file [] None) (toy_key Byte.x01) (toy_nonce Byte.x01) 5 _ _ _ _); [lia|done|done]. Defined.
