(* ===== verification/ExportImport.v ===== *)
(** * ExportImport: the export file of a wallet

    Models [libindy/src/services/wallet/export_import.rs] and the types of
    [libindy/src/domain/wallet/export_import.rs] on the streams of [Stream.v].  The theorems
    say that an exported wallet is imported as it was, and that a file that was cut is
    refused. *)

From stdpp Require Import gmap.
From S2P Require Import Prelude Errors Hashing Json Wql PoolTypes Encryption QueryEncryption WqlToSql Storage SqliteStorage SqliteFacts Wallet Stream.

Inductive EncryptionMethod :=
| ChaCha20Poly1305IETF (salt nonce : bytes) (chunk_size : N)
| ChaCha20Poly1305IETFInteractive (salt nonce : bytes) (chunk_size : N)
| ChaCha20Poly1305IETFRaw (nonce : bytes) (chunk_size : N).

Record Header := mk_header { encryption_method : EncryptionMethod; time : N; version : N }.

(** [Record] of [export_import.rs] *)
Record ExportRecord := mk_export_record {
  er_type : string;
  er_id : string;
  er_value : string;
  er_tags : gmap string string;
}.

Definition record_utf8 (r : ExportRecord) : Prop :=
  is_utf8 (er_type r) /\ is_utf8 (er_id r) /\ is_utf8 (er_value r) /\ tags_utf8 (er_tags r).

(** [rmp_serde] on these types: what it writes is not empty and is read back. *)
Class ExportCodecs := {
  header_to_vec : Header -> bytes;
  header_from_slice : bytes -> option Header;
  record_to_vec : ExportRecord -> bytes;
  record_from_slice : bytes -> option ExportRecord;
  header_nonempty : forall h, header_to_vec h <> [];
  record_nonempty : forall r, record_to_vec r <> [];
  header_roundtrip : forall h, header_from_slice (header_to_vec h) = Some h;
  record_roundtrip : forall r, record_utf8 r -> record_from_slice (record_to_vec r) = Some r;
}.

Definition CHUNK_SIZE : N := 1024.

(** [impl From<io::Error> for IndyError] *)
Definition io_indy {S A} (m : StateM IoErrorKind S A) : StateM IndyErrorKind S A := map_err (fun _ => IOError) m.

Definition _map_io_err (e : IoErrorKind) : IndyErrorKind :=
  match e with
  | UnexpectedEof | InvalidData => InvalidStructure
  | _ => IOError
  end.

Section export.
Context `{ChaCha20Poly1305} `{HmacSha256} `{IncrementLe} `{Sha256} `{ExportCodecs}.
Context {St Iter : Type} `{WalletStorage St Iter}.

(** ** Exporting *)

(** The wallet's storage and a writer. *)
Definition on_wallet {W A} : StateM IndyErrorKind St A -> StateM IndyErrorKind (St * W) A :=
  within fst (fun s p => (s, p.2)).
Definition on_writer {W A} (m : StateM IoErrorKind W A) : StateM IndyErrorKind (St * W) A :=
  within snd (fun w p => (p.1, w)) (io_indy m).

(** A [BufWriter] around the file until the end of [m], which drops it. *)
Definition with_bufwriter {W A} `{Write W} (m : StateM IndyErrorKind (St * BufWriter W) A) :
    StateM IndyErrorKind (St * W) A := fun p =>
  let '(r, (s, b)) := m (p.1, mk_bufwriter p.2 []) in (r, (s, drop_bufwriter b)).

(** A [Writer] around the [BufWriter]; dropping it does nothing. *)
Definition with_writer {W A} (key : Key) (nonce : Nonce) (m : StateM IndyErrorKind (St * Writer W) A) :
    StateM IndyErrorKind (St * W) A := fun p =>
  let '(r, (s, w)) := m (p.1, Writer_new p.2 key nonce (N.to_nat CHUNK_SIZE)) in (r, (s, into_inner w)).

Definition encryption_method_of (key_data : KeyDerivationData) (nonce : Nonce) : EncryptionMethod :=
  match key_data with
  | Argon2iMod _ salt => ChaCha20Poly1305IETF (arr_bytes salt) (arr_bytes nonce) CHUNK_SIZE
  | Argon2iInt _ salt => ChaCha20Poly1305IETFInteractive (arr_bytes salt) (arr_bytes nonce) CHUNK_SIZE
  | Raw _ => ChaCha20Poly1305IETFRaw (arr_bytes nonce) CHUNK_SIZE
  end.

Definition write_record {W} `{Write W} (record : bytes) : StateM IndyErrorKind (St * W) unit :=
  _ ← on_writer (write_u32 (N.of_nat (length record)));
  on_writer (write_all record).

(** [while let Some(WalletRecord { type_, id, value, tags }) = records.next()?] *)
Fixpoint export_loop {W} `{Write W} (fuel : nat) (keys : Keys) (records : Iter) : StateM IndyErrorKind (St * W) unit :=
  '(next, records) ← on_wallet (wallet_next keys records);
  match next with
  | None => mret tt
  | Some record =>
      match fuel with
      | O => lift OutOfFuel
      | S fuel =>
          type_ ← lift (ok_or (wr_type record) InvalidState);
          value ← lift (ok_or (wr_value record) InvalidState);
          tags ← lift (ok_or (wr_tags record) InvalidState);
          _ ← write_record (record_to_vec (mk_export_record type_ (wr_id record) value tags));
          export_loop fuel keys records
      end
  end.

(** [nonce] is the one generated, [now] the time; [fuel] bounds the records. *)
Definition export_continue (fuel : nat) (nonce : Nonce) (now : N) (keys : Keys) (version : N) (key : Key)
    (key_data : KeyDerivationData) : StateM IndyErrorKind (St * File) unit :=
  let header := header_to_vec (mk_header (encryption_method_of key_data nonce) now version) in
  with_bufwriter (
    _ ← write_record header;
    with_writer key nonce (
      header_hash ← lift (Hash.hash header);
      _ ← on_writer (write_all header_hash);
      records ← on_wallet wallet_get_all;
      _ ← export_loop fuel keys records;
      _ ← on_writer (write_u32 0);
      on_writer flush)).
End export.

(** ** Importing *)

Section import.
Context `{ExportCodecs}.

Definition key_data_of (passphrase : string) (method : EncryptionMethod) : IndyResult (KeyDerivationData * Nonce * N) :=
  match method with
  | ChaCha20Poly1305IETF salt nonce chunk_size =>
      salt ← ok_or (from_slice salt) InvalidStructure;
      nonce ← ok_or (from_slice nonce) InvalidStructure;
      Ok (Argon2iMod passphrase salt, nonce, chunk_size)
  | ChaCha20Poly1305IETFInteractive salt nonce chunk_size =>
      salt ← ok_or (from_slice salt) InvalidStructure;
      nonce ← ok_or (from_slice nonce) InvalidStructure;
      Ok (Argon2iInt passphrase salt, nonce, chunk_size)
  | ChaCha20Poly1305IETFRaw nonce chunk_size =>
      nonce ← ok_or (from_slice nonce) InvalidStructure;
      Ok (Raw passphrase, nonce, chunk_size)
  end.

(** The reader after this is the state. *)
Definition preparse_file_to_import (passphrase : string) :
    StateM IndyErrorKind Source (KeyDerivationData * Nonce * N * bytes) :=
  header_len ← map_err _map_io_err source_read_u32;
  if (header_len =? 0)%N then fail InvalidStructure
  else
    header_bytes ← map_err _map_io_err (source_read_exact (N.to_nat header_len));
    header ← lift (ok_or (header_from_slice header_bytes) InvalidStructure);
    if (version header =? 0)%N then
      '(import_key_derivation_data, nonce, chunk_size) ← lift (key_data_of passphrase (encryption_method header));
      mret (import_key_derivation_data, nonce, chunk_size, header_bytes)
    else fail InvalidStructure.

Context `{ChaCha20Poly1305} `{HmacSha256} `{HashOrder} `{IncrementLe} `{Sha256} `{Machine}.
Context {St Iter : Type} `{WalletStorage St Iter}.

Definition on_storage {A} : StateM IndyErrorKind St A -> StateM IndyErrorKind (St * Reader) A :=
  within fst (fun s p => (s, p.2)).
Definition on_reader {A} (m : StateM IoErrorKind Reader A) : StateM IndyErrorKind (St * Reader) A :=
  within snd (fun r p => (p.1, r)) (map_err _map_io_err m).

(** The [i]-th record is added with the fresh values [fresh i]. *)
Fixpoint import_loop (fuel i : nat) (keys : Keys) (fresh : nat -> Fresh) : StateM IndyErrorKind (St * Reader) unit :=
  match fuel with
  | O => lift OutOfFuel
  | S fuel =>
      record_len ← on_reader reader_read_u32;
      if (record_len =? 0)%N then mret tt
      else
        record ← on_reader (reader_read_exact (N.to_nat record_len));
        record ← lift (ok_or (record_from_slice record) InvalidStructure);
        _ ← on_storage (wallet_add keys (fresh i) (er_type record) (er_id record) (er_value record) (er_tags record));
        import_loop fuel (S i) keys fresh
  end.

(** A record takes four bytes of the file and more. *)
Definition finish_import (keys : Keys) (fresh : nat -> Fresh) (reader : Source) (key : Key) (nonce : Nonce)
    (chunk_size : N) (header_bytes : bytes) : StateM IndyErrorKind St unit := fun s =>
  match Reader_new reader key nonce chunk_size with
  | Ok r =>
      let '(res, (s, _)) :=
        (header_hash ← on_reader (reader_read_exact HASHBYTES);
         hash ← lift (Hash.hash header_bytes);
         if decide (hash = header_hash) then import_loop (S (length (pending reader))) 0 keys fresh
         else fail InvalidStructure) (s, r) in
      (res, s)
  | Err e => (Err e, s)
  | Panic => (Panic, s)
  | OutOfFuel => (OutOfFuel, s)
  end.
End import.

(** ** Lemmas: exporting *)

(** A number of bytes, and the bytes. *)
Definition frame (b : bytes) : bytes := le_bytes 4 (N.of_nat (length b)) ++ b.

Abbreviation Item := ((string * string) * (string * gmap string string))%type.

Definition record_of (x : Item) : ExportRecord := mk_export_record x.1.1 x.1.2 x.2.1 x.2.2.

Definition item_frames `{ExportCodecs} (l : list Item) : bytes := concat ((fun x => frame (record_to_vec (record_of x))) <$> l).

(** What is encrypted in a file with the header [header]. *)
Definition body `{Sha256} `{ExportCodecs} (header : bytes) (l : list Item) : bytes :=
  sha256_digest header ++ item_frames l ++ le_bytes 4 0.

(** The length of [b] fits in the number before it. *)
Definition frameable (b : bytes) : Prop := (N.of_nat (length b) < 2 ^ 32)%N.

#[export] Instance frameable_dec b : Decision (frameable b).
Proof. unfold frameable. apply _. Defined.

Section export_lemmas.
Context `{ChaCha20Poly1305} `{HmacSha256} `{IncrementLe} `{Sha256} `{ExportCodecs} `{HashOrder} `{OptionCodecs} `{LikePattern}.
Context {St Iter : Type} `{!WalletStorage St Iter} `{!WalletStorageLaws St Iter}.

(** [P written w]: the writer [w] took [written]; it takes whatever it is given. *)
Definition takes {W} `{Write W} (P : bytes -> W -> Prop) : Prop := forall written b w, P written w ->
  exists w', write_all b w = (Ok tt, w') /\ P (written ++ b) w'.

Lemma takes_healthy {W} `{WriteLaws W} start : takes (fun written w => healthy w /\ accepted w = start ++ written).
Proof.
  intros written b w [Hw Ha]. destruct (write_all_healthy b w Hw) as (w' & Hrun & Hw' & Ha').
  exists w'. split_and!; [done..|]. by rewrite Ha', Ha, app_assoc.
Qed.

Lemma takes_carries {W} `{WriteLaws W} key nonce start n :
  takes (fun written w => carries key nonce start written w /\ w_chunk_size w = n).
Proof.
  intros written b w [Hc Hn]. destruct (carries_write_all _ _ _ _ b _ Hc) as (w' & Hrun & Hc' & Hn').
  exists w'. rewrite Hn'. auto.
Qed.

Section takes.
Context {W} `{Write W} (P : bytes -> W -> Prop) (HP : takes P).

Lemma on_writer_takes written b w (s : St) : P written w ->
  exists w', on_writer (write_all b) (s, w) = (Ok tt, (s, w')) /\ P (written ++ b) w'.
Proof.
  intros Hw. destruct (HP written b w Hw) as (w' & Hrun & Hw'). exists w'. split; [|done].
  unfold on_writer, within, io_indy, map_err. cbn [fst snd]. by rewrite Hrun.
Qed.

Lemma write_record_takes written b w (s : St) : P written w ->
  exists w', write_record b (s, w) = (Ok tt, (s, w')) /\ P (written ++ frame b) w'.
Proof.
  intros Hw. destruct (on_writer_takes written (le_bytes 4 (N.of_nat (length b))) w s Hw) as (w1 & Hrun1 & Hw1).
  destruct (on_writer_takes _ b w1 s Hw1) as (w2 & Hrun2 & Hw2). exists w2. unfold frame. rewrite app_assoc.
  split; [|done]. unfold write_record, write_u32. by rewrite bind_run, Hrun1.
Qed.

Lemma export_loop_takes keys l : forall fuel written w (s : St) it, P written w -> length l <= fuel ->
  wallet_yields keys s it ((fun x => wallet_record (mk_record_options true true true) x.1.1 x.1.2 x.2.1 x.2.2) <$> l) ->
  exists w', export_loop fuel keys it (s, w) = (Ok tt, (s, w')) /\ P (written ++ item_frames l) w'.
Proof.
  induction l as [|x l IH]; intros fuel written w s it Hw Hf Hy; cbn [fmap list_fmap] in Hy;
    inversion Hy as [? it' Hn|? it' ? ? Hn Hy']; subst.
  - exists w. unfold item_frames. cbn [fmap list_fmap concat]. rewrite app_nil_r. split; [|done].
    destruct fuel; cbn [export_loop]; rewrite bind_run; unfold on_wallet, within; cbn [fst snd]; by rewrite Hn.
  - destruct fuel as [|fuel]; [cbn in Hf; lia|]. cbn [export_loop]. rewrite bind_run.
    unfold on_wallet at 1, within. cbn [fst snd]. rewrite Hn.
    unfold wallet_record. cbn [wr_type wr_value wr_tags wr_id retrieve_type retrieve_value retrieve_tags].
    do 3 (rewrite bind_run; unfold lift at 1; cbn [ok_or]). rewrite bind_run.
    destruct (write_record_takes written (record_to_vec (record_of x)) w s Hw) as (w1 & Hrun & Hw1).
    unfold record_of in Hrun at 1. rewrite Hrun.
    destruct (IH fuel _ w1 s it' Hw1) as (w2 & Hrun2 & Hw2); [cbn in Hf; lia|done|].
    exists w2. split; [done|]. unfold item_frames in *. cbn [fmap list_fmap concat]. by rewrite app_assoc.
Qed.
End takes.

(** A file that was exported: a header, and the wallet in encrypted chunks. *)
Definition exported (file header : bytes) (key : Key) (nonce : Nonce) (l : list Item) : Prop :=
  exists chunks, file = frame header ++ seal_all key nonce chunks /\
    concat chunks = body header l /\ chunks_of (N.to_nat CHUNK_SIZE) chunks.

Definition export_header (nonce : Nonce) (now version : N) (key_data : KeyDerivationData) : bytes :=
  header_to_vec (mk_header (encryption_method_of key_data nonce) now version).

Lemma export_writes fuel nonce now keys version key key_data (s : St) w :
  openssl_total -> storage_inv s -> represents keys (storage_map s) w -> size w <= fuel ->
  exists file l, export_continue fuel nonce now keys version key key_data (s, mk_file [] None) =
      (Ok tt, (s, mk_file file None)) /\
    map_to_list w ≡ₚ l /\ exported file (export_header nonce now version key_data) key nonce l.
Proof.
  intros Hssl Hs Hr Hf. set (header := export_header nonce now version key_data).
  destruct (wallet_get_all_correct keys s w Hs Hr) as (it & records & Hall & Hy & Hp).
  apply Permutation_map_inv in Hp as (l & -> & Hl).
  set (P1 := fun written (b : BufWriter File) => healthy b /\ accepted b = [] ++ written).
  destruct (write_record_takes P1 (takes_healthy []) [] header (mk_bufwriter (mk_file [] None) []) s) as (b1 & Hrun1 & Hb1 & Ha1);
    [done|]. cbn [app] in Ha1.
  set (P2 := fun written (self : Writer (BufWriter File)) =>
    carries key nonce (frame header) written self /\ w_chunk_size self = N.to_nat CHUNK_SIZE).
  assert (takes P2) as HP2 by apply takes_carries.
  assert (P2 [] (Writer_new b1 key nonce (N.to_nat CHUNK_SIZE))) as Hw1.
  { split; [|done]. rewrite <-Ha1. apply carries_new; [|done]. unfold CHUNK_SIZE. lia. }
  destruct (on_writer_takes P2 HP2 _ (sha256_digest header) _ s Hw1) as (w2 & Hrun2 & Hw2).
  destruct (export_loop_takes P2 HP2 keys l fuel _ w2 s it Hw2) as (w3 & Hrun3 & Hw3); [|done|].
  { by rewrite <-(Permutation_length Hl), length_map_to_list. }
  destruct (on_writer_takes P2 HP2 _ (le_bytes 4 0) _ s Hw3) as (w4 & Hrun4 & Hw4 & Hn4).
  destruct (carries_flush _ _ _ _ _ Hw4) as (w5 & chunks & Hrun5 & Hc & Hch & Hacc & Hw5).
  destruct (drop_bufwriter_healthy (w_inner w5) Hw5) as [Hroom Hcon].
  exists (contents (drop_bufwriter (w_inner w5))), l. split; [|split; [done|]].
  - unfold export_continue, with_bufwriter. rewrite bind_run. cbn [fst snd]. fold (export_header nonce now version key_data).
    fold header. rewrite Hrun1. unfold with_writer. cbn [fst snd]. rewrite bind_run. unfold lift at 1, Hash.hash.
    rewrite Hash.run_total by done. rewrite bind_run, Hrun2, bind_run. unfold on_wallet at 1, within. cbn [fst snd].
    unfold wallet_get_all in Hall |- *. rewrite Hall. rewrite bind_run, Hrun3, bind_run. unfold write_u32. rewrite Hrun4.
    unfold on_writer, within, io_indy, map_err. cbn [fst snd]. rewrite Hrun5. unfold into_inner.
    destruct (drop_bufwriter (w_inner w5)) as [c r]. cbn in Hroom. by subst r.
  - exists chunks. rewrite Hn4 in Hch. split_and!; [|by rewrite <-Hc; unfold body; rewrite !app_assoc|done].
    change (contents (drop_bufwriter (w_inner w5))) with (accepted (drop_bufwriter (w_inner w5))). by rewrite Hcon.
Qed.
End export_lemmas.

(** ** Lemmas: importing *)

(** [data] is the beginning of [a ++ b]. *)
Lemma prefix_split {A} (data rest a b : list A) k : data ++ rest = a ++ b -> length a = k ->
  if length data <? k then rest <> [] else take k data = a /\ drop k data ++ rest = b.
Proof.
  intros He <-. destruct (Nat.ltb_spec (length data) (length a)) as [Hlt|Hge].
  - intros ->. apply (f_equal length) in He. rewrite !length_app in He. cbn in He. lia.
  - apply (f_equal (take (length a))) in He as Ht. apply (f_equal (drop (length a))) in He as Hd.
    rewrite take_app_le, take_app_length in Ht by lia. by rewrite drop_app_le, drop_app_length in Hd by lia.
Qed.

Section preparse.
Context `{ExportCodecs}.

Definition passphrase_of (key_data : KeyDerivationData) : string :=
  match key_data with Raw p | Argon2iMod p _ | Argon2iInt p _ => p end.

(** What the header of an exported file says. *)
Lemma key_data_of_export nonce key_data :
  key_data_of (passphrase_of key_data) (encryption_method_of key_data nonce) = Ok (key_data, nonce, CHUNK_SIZE).
Proof. destruct key_data; cbn; by rewrite !from_slice_arr. Qed.

Lemma le_value_frame (b : bytes) : frameable b -> le_value (le_bytes 4 (N.of_nat (length b))) = N.of_nat (length b).
Proof. intros Hb. apply le_value_bytes. exact Hb. Qed.

Lemma source_read_u32_ok s : plan_ok s -> exists s', plan_ok s' /\ pending s' = drop 4 (pending s) /\
  map_err _map_io_err source_read_u32 s =
    (if length (pending s) <? 4 then Err InvalidStructure else Ok (le_value (take 4 (pending s))), s').
Proof.
  intros Hs. destruct (source_read_exact_ok 4 s Hs) as (s' & Hs' & Hp & Hrun). exists s'. split_and!; [done..|].
  unfold map_err, source_read_u32. rewrite bind_run, Hrun. by destruct (_ <? 4).
Qed.

Lemma preparse_ok passphrase s rest_of file header h : plan_ok s -> pending s ++ rest_of = file ->
  file = frame header ++ drop (length (frame header)) file -> header <> [] -> frameable header ->
  header_from_slice header = Some h -> version h = 0%N -> exists s', plan_ok s' /\
  preparse_file_to_import passphrase s =
    (if length (pending s) <? length (frame header) then Err InvalidStructure
     else k ← key_data_of passphrase (encryption_method h); Ok (k, header), s') /\
  (length (frame header) <= length (pending s) -> pending s' = drop (length (frame header)) (pending s)).
Proof.
  intros Hs Hrest Hfile Hne Hfr Hh Hv.
  assert (length (frame header) = 4 + length header) as Hl by (unfold frame; by rewrite length_app, le_bytes_length).
  destruct (source_read_u32_ok s Hs) as (s1 & Hs1 & Hp1 & Hrun1).
  unfold preparse_file_to_import. rewrite bind_run, Hrun1.
  pose proof (prefix_split (pending s) rest_of (le_bytes 4 (N.of_nat (length header)))
    (header ++ drop (length (frame header)) file) 4) as Hpre. rewrite Hrest in Hpre.
  specialize (Hpre ltac:(rewrite Hfile at 1; unfold frame; by rewrite <-app_assoc) (le_bytes_length _ _)).
  destruct (Nat.ltb_spec (length (pending s)) 4) as [Hlt|Hge].
  { exists s1. rewrite (proj2 (Nat.ltb_lt _ _)) by lia. split_and!; [done..|lia]. }
  destruct Hpre as [-> Hpre]. rewrite le_value_frame by done.
  assert (length header <> 0) by (by destruct header).
  rewrite (proj2 (N.eqb_neq _ 0)), Nat2N.id by lia.
  destruct (source_read_exact_ok (length header) s1 Hs1) as (s2 & Hs2 & Hp2 & Hrun2).
  rewrite bind_run. unfold map_err. rewrite Hrun2, Hp1, length_drop.
  pose proof (prefix_split (drop 4 (pending s)) rest_of header _ _ Hpre eq_refl) as Hpre2. rewrite length_drop in Hpre2.
  exists s2. split; [done|].
  destruct (Nat.ltb_spec (length (pending s) - 4) (length header)) as [Hlt|Hge'].
  { rewrite (proj2 (Nat.ltb_lt _ _)) by lia. split; [done|lia]. }
  rewrite (proj2 (Nat.ltb_ge _ _)) by lia. destruct Hpre2 as [-> _]. rewrite bind_run. unfold lift. rewrite Hh. cbn [ok_or].
  rewrite Hv, N.eqb_refl, bind_run. split; [by destruct (key_data_of _ _) as [[[]]| | |]|].
  intros _. by rewrite Hp2, Hp1, drop_drop, Hl.
Qed.
End preparse.

Section import_lemmas.
Context `{ExportCodecs} `{ChaCha20Poly1305} `{HmacSha256} `{HashOrder} `{IncrementLe} `{OptionCodecs} `{LikePattern}.
Context {St Iter : Type} `{!WalletStorage St Iter} `{!WalletStorageLaws St Iter}.

Definition item_ok (x : Item) : Prop := record_utf8 (record_of x) /\ frameable (record_to_vec (record_of x)).

Definition insert_items (w : WalletMap) (l : list Item) : WalletMap := foldl (fun m r => <[r.1 := r.2]> m) w l.

Definition refusal (e : IoErrorKind) : Prop := e = UnexpectedEof \/ e = InvalidData.

Lemma on_reader_read n k data e r (s : St) : gives n data e r -> refusal e -> exists r',
  on_reader (reader_read_exact k) (s, r) =
    (if length data <? k then Err InvalidStructure else Ok (take k data), (s, r')) /\
  (k <= length data -> gives n (drop k data) e r').
Proof.
  intros Hg He. destruct (reader_read_exact_ok n k data e r Hg) as (r' & Hrun & Hpost); [by destruct He; subst|].
  exists r'. split; [|done]. unfold on_reader, within, map_err. cbn [fst snd]. rewrite Hrun. unfold read_outcome.
  destruct (_ <? k); [|done]. by destruct He as [-> | ->].
Qed.

Lemma on_reader_read_u32 n data e r (s : St) : gives n data e r -> refusal e -> exists r',
  on_reader reader_read_u32 (s, r) =
    (if length data <? 4 then Err InvalidStructure else Ok (le_value (take 4 data)), (s, r')) /\
  (4 <= length data -> gives n (drop 4 data) e r').
Proof.
  intros Hg He. destruct (reader_read_exact_ok n 4 data e r Hg) as (r' & Hrun & Hpost); [by destruct He; subst|].
  exists r'. split; [|done]. unfold on_reader, within, map_err, reader_read_u32. cbn [fst snd].
  rewrite bind_run, Hrun. unfold read_outcome. destruct (_ <? 4); [|done]. by destruct He as [-> | ->].
Qed.

(** A stream that begins as the frames of [l] do adds the items whose frames are whole. *)
Lemma import_loop_ok n keys fresh l : forall fuel i r data rest e (s : St) w,
  gives n data e r -> refusal e -> data ++ rest = item_frames l ++ le_bytes 4 0 -> length data < fuel ->
  storage_inv s -> represents keys (storage_map s) w -> Forall item_ok l -> NoDup l.*1 ->
  (forall x, x ∈ l -> w !! x.1 = None) -> exists s' r' l1 l2, l = l1 ++ l2 /\
    import_loop fuel i keys fresh (s, r) = (if decide (rest = []) then Ok tt else Err InvalidStructure, (s', r')) /\
    storage_inv s' /\ represents keys (storage_map s') (insert_items w l1) /\ (rest = [] -> l2 = []).
Proof.
  induction l as [|x l IH]; intros fuel i r data rest e s w Hg He Hd Hf Hs Hr Hok Hnd Hnew;
    (destruct fuel as [|fuel]; [lia|]); cbn [import_loop]; rewrite bind_run;
    destruct (on_reader_read_u32 n data e r s Hg He) as (r1 & -> & Hg1).
  - cbn [item_frames fmap list_fmap concat app] in Hd. pose proof (prefix_split data rest (le_bytes 4 0) [] 4) as Hp.
    rewrite app_nil_r in Hp. specialize (Hp Hd eq_refl). destruct (length data <? 4).
    + exists s, r1, [], []. by rewrite decide_False.
    + destruct Hp as [-> Hp]. apply app_eq_nil in Hp as [_ ->]. by exists s, r1, [], [].
  - set (b := record_to_vec (record_of x)).
    assert (item_frames (x :: l) ++ le_bytes 4 0 = le_bytes 4 (N.of_nat (length b)) ++ b ++ item_frames l ++ le_bytes 4 0) as Hfr
      by (unfold item_frames; cbn [fmap list_fmap concat]; unfold frame; by rewrite <-!app_assoc).
    rewrite Hfr in Hd. apply Forall_cons in Hok as [[Hu Hfb] Hok]. apply NoDup_cons in Hnd as [Hx Hnd].
    pose proof (prefix_split _ _ _ _ 4 Hd (le_bytes_length _ _)) as Hp.
    destruct (Nat.ltb_spec (length data) 4) as [Hlt|Hge]; [exists s, r1, [], (x :: l); by rewrite decide_False|].
    destruct Hp as [-> Hp]. rewrite le_value_frame by done. specialize (Hg1 Hge).
    assert (length b <> 0) by (by intros ?%nil_length_inv%record_nonempty).
    rewrite (proj2 (N.eqb_neq _ 0)), Nat2N.id by lia. rewrite bind_run.
    destruct (on_reader_read n (length b) _ e r1 s Hg1 He) as (r2 & -> & Hg2).
    pose proof (prefix_split _ _ _ _ _ Hp eq_refl) as Hp2.
    destruct (Nat.ltb_spec (length (drop 4 data)) (length b)) as [Hlt|Hge2]; [exists s, r2, [], (x :: l); by rewrite decide_False|].
    destruct Hp2 as [-> Hp2]. specialize (Hg2 Hge2). rewrite bind_run. unfold lift. unfold b. rewrite record_roundtrip by done.
    cbn [ok_or]. destruct Hu as (Ht & Hn & Hv & Htags).
    destruct (wallet_add_refines keys (fresh i) _ _ _ _ Ht Hn Hv Htags s w Hs Hr) as (Hs' & Hr' & Hres).
    unfold wspec_add in Hr', Hres. change (er_type (record_of x), er_id (record_of x)) with (x.1.1, x.1.2) in *.
    rewrite <-surjective_pairing, (Hnew x) in Hr', Hres by (by left). rewrite bind_run. unfold on_storage, within. cbn [fst snd] in *.
    destruct (wallet_add keys (fresh i) _ _ _ _ s) as [res s'] eqn:Hadd. cbn [fst snd] in *. subst res.
    destruct (IH fuel (S i) r2 (drop (length b) (drop 4 data)) rest e s' (<[x.1 := x.2]> w))
      as (s2 & r3 & l1 & l2 & -> & Hrun & Hs2 & Hr2 & Hl2); try done.
    + rewrite !length_drop. lia.
    + by destruct x as [[] []].
    + intros y Hy. rewrite lookup_insert_ne; [by apply Hnew; right|]. intros Heq. apply Hx. rewrite Heq. by apply list_elem_of_fmap_2.
    + exists s2, r3, (x :: l1), l2. unfold b in Hrun. rewrite Hrun. done.
Qed.
End import_lemmas.

(** ** Lemmas: the whole file *)

Lemma encrypted_length `{ChaCha20Poly1305} `{IncrementLe} n key nonce stream data e :
  encrypted n key nonce stream data e -> length data <= length stream.
Proof. induction 1; unfold encrypt in *; rewrite ?length_app, ?seal_length; cbn [length]; lia. Qed.

Lemma chunk_size_small `{Machine} : (2 * (N.of_nat (N.to_nat CHUNK_SIZE) + 16) < usize_modulus)%N.
Proof. unfold usize_modulus, CHUNK_SIZE. by destruct usize_bits_cases as [-> | ->]. Qed.

Lemma insert_items_all (w : WalletMap) l : map_to_list w ≡ₚ l -> insert_items ∅ l = w.
Proof.
  intros Hl. unfold insert_items. rewrite foldl_insert by (rewrite <-Hl; apply NoDup_fst_map_to_list).
  rewrite (right_id_L ∅ (∪)). rewrite <-(list_to_map_to_list w). symmetry. apply list_to_map_proper; [|done].
  apply NoDup_fst_map_to_list.
Qed.

Lemma insert_items_some (w : WalletMap) l1 l2 : map_to_list w ≡ₚ l1 ++ l2 -> insert_items ∅ l1 ⊆ w.
Proof.
  intros Hl. assert (NoDup l1.*1) as Hnd.
  { pose proof (NoDup_fst_map_to_list w) as Hnd. rewrite Hl, fmap_app in Hnd. by apply NoDup_app in Hnd as [? _]. }
  unfold insert_items. rewrite foldl_insert, (right_id_L ∅ (∪)) by done.
  apply map_subseteq_spec. intros k x Hx%elem_of_list_to_map_2. apply elem_of_map_to_list. rewrite Hl.
  by apply elem_of_app; left.
Qed.

Section finish.
Context `{ExportCodecs} `{ChaCha20Poly1305} `{HmacSha256} `{HashOrder} `{IncrementLe} `{OptionCodecs} `{LikePattern}
  `{!Sha256} `{!Sha256Length} `{Machine}.
Context {St Iter : Type} `{!WalletStorage St Iter} `{!WalletStorageLaws St Iter}.

Lemma represents_utf8 keys m w k x : represents keys m w -> w !! k = Some x ->
  is_utf8 k.1 /\ is_utf8 k.2 /\ is_utf8 x.1 /\ tags_utf8 x.2.
Proof.
  intros [Hr Hk] Hx. specialize (Hr k). rewrite Hx in Hr. destruct Hr as (e & He & Hdec & _ & Htags).
  destruct (Hk _ _ He) as (k' & Hk' & Hu1 & Hu2). apply (key_enc_inj keys) in Hk' as <-. split_and!; try done.
  unfold EncryptedValue_decrypt in Hdec. inv_ok. unfold from_utf8 in *. unfold is_utf8. case_match; [|done].
  injection Hdec as <-. by rewrite as_bytes_of_bytes.
Qed.

Lemma items_ok keys m w l : represents keys m w -> map_to_list w ≡ₚ l ->
  Forall (fun x => frameable (record_to_vec (record_of x))) (map_to_list w) -> Forall item_ok l.
Proof.
  intros Hr Hl Hf. rewrite <-Hl. eapply Forall_impl; [apply Forall_and; split; [exact Hf|]|].
  - apply Forall_forall. intros x Hx. exact (proj1 (elem_of_map_to_list' w x) Hx).
  - intros [k x] [Hfr Hx]. cbn [fst snd] in Hx. split; [|done]. exact (represents_utf8 keys m w k x Hr Hx).
Qed.

Lemma finish_import_ok keys fresh key nonce header l reader data e rest (s : St) w : openssl_total ->
  encrypted (N.to_nat CHUNK_SIZE) key nonce (pending reader) data e -> plan_ok reader -> refusal e ->
  data ++ rest = body header l -> storage_inv s -> represents keys (storage_map s) w -> Forall item_ok l ->
  NoDup l.*1 -> (forall x, x ∈ l -> w !! x.1 = None) -> exists s' l1 l2, l = l1 ++ l2 /\
    finish_import keys fresh reader key nonce CHUNK_SIZE header s =
      (if decide (rest = []) then Ok tt else Err InvalidStructure, s') /\
    storage_inv s' /\ represents keys (storage_map s') (insert_items w l1) /\ (rest = [] -> l2 = []).
Proof.
  intros Hssl Henc Hplan He Hbody Hs Hr Hok Hnd Hnew. unfold finish_import.
  destruct (Reader_new_ok (E:=IndyErrorKind) _ _ data e key nonce reader Henc Hplan eq_refl chunk_size_small)
    as (r & Hnew' & Hg). rewrite N2Nat.id in Hnew'. rewrite Hnew'. rewrite bind_run.
  destruct (on_reader_read _ HASHBYTES data e r s Hg He) as (r1 & -> & Hg1).
  pose proof (prefix_split data rest (sha256_digest header) _ HASHBYTES Hbody (sha256_digest_length _)) as Hp.
  destruct (Nat.ltb_spec (length data) HASHBYTES) as [Hlt|Hge].
  { exists s, [], l. by rewrite decide_False. }
  destruct Hp as [-> Hp]. specialize (Hg1 Hge). rewrite bind_run. unfold lift, Hash.hash. rewrite Hash.run_total by done.
  rewrite decide_True by done. apply encrypted_length in Henc.
  destruct (import_loop_ok _ keys fresh l (S (length (pending reader))) 0 r1 _ rest e s w Hg1 He Hp)
    as (s' & r' & l1 & l2 & Hl & -> & Hs' & Hr' & Hrest); [rewrite length_drop; lia|done..|].
  by exists s', l1, l2.
Qed.
(** An exported file, read with its passphrase and imported into an empty wallet. *)
Lemma import_exported file nonce now keys key key_data fresh plan l (s : St) w :
  openssl_total -> exported file (export_header nonce now 0 key_data) key nonce l -> map_to_list w ≡ₚ l ->
  frameable (export_header nonce now 0 key_data) -> Forall item_ok l ->
  storage_inv s -> represents keys (storage_map s) ∅ -> plan_ok (mk_source file plan) -> exists reader header s2,
    preparse_file_to_import (passphrase_of key_data) (mk_source file plan) =
      (Ok (key_data, nonce, CHUNK_SIZE, header), reader) /\
    finish_import keys fresh reader key nonce CHUNK_SIZE header s = (Ok tt, s2) /\
    storage_inv s2 /\ represents keys (storage_map s2) w.
Proof.
  intros Hssl (chunks & Hfile & Hc & Hch) Hl Hhead Hok Hs' Hr' Hplan.
  set (header := export_header nonce now 0 key_data) in *.
  destruct (preparse_ok (passphrase_of key_data) (mk_source file plan) [] file header (mk_header (encryption_method_of key_data nonce) now 0) Hplan (app_nil_r _))
    as (reader & Hplan' & Hpre & Hpend);
    [rewrite Hfile at 2; rewrite drop_app_length; exact Hfile|apply header_nonempty|done|apply header_roundtrip|done|].
  cbn [pending] in *. rewrite (proj2 (Nat.ltb_ge _ _)) in Hpre by (rewrite Hfile, length_app; lia).
  specialize (Hpend ltac:(rewrite Hfile, length_app; lia)). rewrite Hfile, drop_app_length in Hpend.
  cbn [encryption_method] in Hpre. rewrite key_data_of_export in Hpre. cbn [mbind outcome_bind] in Hpre.
  destruct (finish_import_ok keys fresh key nonce header l reader (concat chunks) UnexpectedEof [] s ∅ Hssl)
    as (s2 & l1 & l2 & Hl12 & Hfin & Hs2 & Hr2 & Hrest).
  - rewrite Hpend. by apply seal_all_encrypted.
  - done.
  - by left.
  - by rewrite app_nil_r.
  - done.
  - done.
  - done.
  - rewrite <-Hl. apply NoDup_fst_map_to_list.
  - intros. apply lookup_empty.
  - specialize (Hrest eq_refl). subst l2. rewrite app_nil_r in Hl12. subst l1.
    exists reader, header, s2. rewrite decide_True in Hfin by done. split_and!; [done..|].
    by rewrite <-(insert_items_all w l Hl).
Qed.

End finish.

(** ** Theorems *)

Section theorems.
Context `{ExportCodecs} `{ChaCha20Poly1305} `{HmacSha256} `{HashOrder} `{IncrementLe} `{OptionCodecs} `{LikePattern}
  `{!Sha256} `{!Sha256Length} `{Machine}.
Context {St Iter : Type} `{!WalletStorage St Iter} `{!WalletStorageLaws St Iter}.
Context {St' Iter' : Type} `{!WalletStorage St' Iter'} `{!WalletStorageLaws St' Iter'}.

(** a wallet that was exported with a passphrase is imported with that passphrase into
    an empty wallet, with other keys and another storage, as it was: every record with
    its type, value and tags, however the file is read. *)
Theorem export_import_roundtrip fuel nonce now keys keys' key key_data fresh (s : St) (s' : St') w :
  openssl_total -> storage_inv s -> represents keys (storage_map s) w -> size w <= fuel ->
  frameable (export_header nonce now 0 key_data) ->
  Forall (fun x => frameable (record_to_vec (record_of x))) (map_to_list w) ->
  storage_inv s' -> represents keys' (storage_map s') ∅ -> exists file,
    export_continue fuel nonce now keys 0 key key_data (s, mk_file [] None) = (Ok tt, (s, mk_file file None)) /\
    forall plan, plan_ok (mk_source file plan) -> exists reader header s2,
      preparse_file_to_import (passphrase_of key_data) (mk_source file plan) =
        (Ok (key_data, nonce, CHUNK_SIZE, header), reader) /\
      finish_import keys' fresh reader key nonce CHUNK_SIZE header s' = (Ok tt, s2) /\
      storage_inv s2 /\ represents keys' (storage_map s2) w.
Proof.
  intros Hssl Hs Hr Hf Hhead Hrec Hs' Hr'.
  destruct (export_writes fuel nonce now keys 0 key key_data s w Hssl Hs Hr Hf) as (file & l & Hrun & Hl & Hexp).
  exists file. split; [done|]. intros plan Hplan.
  apply (import_exported file nonce now keys' key key_data fresh plan l s' w); try done.
  exact (items_ok keys _ w l Hr Hl Hrec).
Qed.

(** C29: an exported file that was cut anywhere is refused with [InvalidStructure], when the
    cipher refuses parts of chunks, and nothing is imported that was not in the wallet. *)
Theorem truncated_export_refused fuel nonce now keys keys' key key_data fresh (s : St) (s' : St') w :
  openssl_total -> storage_inv s -> represents keys (storage_map s) w -> size w <= fuel ->
  frameable (export_header nonce now 0 key_data) ->
  Forall (fun x => frameable (record_to_vec (record_of x))) (map_to_list w) ->
  storage_inv s' -> represents keys' (storage_map s') ∅ ->
  (forall c nonce m, length c <= N.to_nat CHUNK_SIZE -> 0 < m < length (encrypt c key nonce) ->
    open (take m (encrypt c key nonce)) nonce key = None) ->
  exists file, export_continue fuel nonce now keys 0 key key_data (s, mk_file [] None) = (Ok tt, (s, mk_file file None)) /\
    forall m plan, m < length file -> plan_ok (mk_source (take m file) plan) -> exists reader,
      preparse_file_to_import (passphrase_of key_data) (mk_source (take m file) plan) = (Err InvalidStructure, reader) \/
      exists header s2 w', preparse_file_to_import (passphrase_of key_data) (mk_source (take m file) plan) =
          (Ok (key_data, nonce, CHUNK_SIZE, header), reader) /\
        finish_import keys' fresh reader key nonce CHUNK_SIZE header s' = (Err InvalidStructure, s2) /\
        storage_inv s2 /\ represents keys' (storage_map s2) w' /\ w' ⊆ w.
Proof.
  intros Hssl Hs Hr Hf Hhead Hrec Hs' Hr' Hauth.
  destruct (export_writes fuel nonce now keys 0 key key_data s w Hssl Hs Hr Hf) as (file & l & Hrun & Hl & chunks & Hfile & Hc & Hch).
  set (header := export_header nonce now 0 key_data) in *. exists file. split; [done|]. intros m plan Hm Hplan.
  destruct (preparse_ok (passphrase_of key_data) (mk_source (take m file) plan) (drop m file) file header (mk_header (encryption_method_of key_data nonce) now 0) Hplan (take_drop _ _))
    as (reader & Hplan' & Hpre & Hpend);
    [rewrite Hfile at 2; rewrite drop_app_length; exact Hfile|apply header_nonempty|done|apply header_roundtrip|done|].
  exists reader. cbn [pending encryption_method] in *. rewrite key_data_of_export in Hpre. cbn [mbind outcome_bind] in Hpre.
  destruct (Nat.ltb_spec (length (take m file)) (length (frame header))) as [Hlt|Hge]; [by left|right].
  specialize (Hpend Hge). rewrite length_take in Hge.
  rewrite Hfile, take_app_ge, drop_app_length in Hpend by lia.
  destruct (cut_encrypted (N.to_nat CHUNK_SIZE) key chunks nonce (m - length (frame header))) as (data & e & rest & Henc & He & Hrest & Hcat).
  - unfold CHUNK_SIZE. lia.
  - done.
  - by apply (chunks_cuts_refused (N.to_nat CHUNK_SIZE)).
  - rewrite Hfile, length_app in Hm. lia.
  - destruct (finish_import_ok keys' fresh key nonce header l reader data e rest s' ∅ Hssl)
      as (s2 & l1 & l2 & Hl12 & Hfin & Hs2 & Hr2 & _); try done.
    + by rewrite Hpend.
    + by rewrite <-Hcat.
    + exact (items_ok keys _ w l Hr Hl Hrec).
    + rewrite <-Hl. apply NoDup_fst_map_to_list.
    + exists header, s2, (insert_items ∅ l1). rewrite decide_False in Hfin by done. split_and!; try done.
      apply (insert_items_some w l1 l2). by rewrite <-Hl12.
Qed.

(** The chunk size comes from the header, which is checked only after the first chunk was
    read: with a large one the import unwinds, whatever key the caller gives. *)
Theorem chunk_size_unwinds keys fresh reader key nonce chunk_size header (s : St) :
  (chunk_size + 16 < usize_modulus)%N -> (usize_modulus <= 2 * (chunk_size + 16))%N ->
  finish_import keys fresh reader key nonce chunk_size header s = (Panic, s).
Proof.
  intros Hlt Hge. unfold finish_import, Reader_new. change (N.of_nat TAGBYTES) with 16%N.
  rewrite usize_add_ok by done. cbn [mbind outcome_bind]. by rewrite (proj2 (N.leb_le _ _)).
Qed.
End theorems.

(** ** Witnesses

    A wallet in the default storage, exported and imported with other keys. *)

Fixpoint bits_of (p : positive) : bytes :=
  match p with xH => [Byte.x02] | xO p => Byte.x00 :: bits_of p | xI p => Byte.x01 :: bits_of p end.

Fixpoint of_bits (b : bytes) : option positive :=
  match b with
  | [Byte.x02] => Some xH
  | Byte.x00 :: b => xO <$> of_bits b
  | Byte.x01 :: b => xI <$> of_bits b
  | _ => None
  end.

Lemma of_bits_of p : of_bits (bits_of p) = Some p.
Proof. induction p as [p IH|p IH|]; cbn; [by rewrite IH..|done]. Qed.

Lemma bits_of_nonempty p : bits_of p <> [].
Proof. by destruct p. Qed.

#[export] Instance EncryptionMethod_eq_dec : EqDecision EncryptionMethod.
Proof. solve_decision. Defined.

#[export] Instance EncryptionMethod_countable : Countable EncryptionMethod.
Proof.
  refine (inj_countable'
    (fun m => match m with
      | ChaCha20Poly1305IETF a b c => inl (inl (a, b, c))
      | ChaCha20Poly1305IETFInteractive a b c => inl (inr (a, b, c))
      | ChaCha20Poly1305IETFRaw b c => inr (b, c)
      end)
    (fun x => match x with
      | inl (inl (a, b, c)) => ChaCha20Poly1305IETF a b c
      | inl (inr (a, b, c)) => ChaCha20Poly1305IETFInteractive a b c
      | inr (b, c) => ChaCha20Poly1305IETFRaw b c
      end) _).
  by intros [].
Defined.

Definition header_parts (h : Header) := (encryption_method h, time h, version h).
Definition record_parts (r : ExportRecord) := (er_type r, er_id r, er_value r, er_tags r).

#[local] Program Instance ToyCodecs : ExportCodecs := {|
  header_to_vec := fun h => bits_of (encode (header_parts h));
  header_from_slice := fun b => option_map (fun x : EncryptionMethod * N * N => mk_header x.1.1 x.1.2 x.2) (of_bits b ≫= decode);
  record_to_vec := fun r => bits_of (encode (record_parts r));
  record_from_slice := fun b => option_map (fun x : string * string * string * gmap string string => mk_export_record x.1.1.1 x.1.1.2 x.1.2 x.2)
    (of_bits b ≫= decode);
|}.
Next Obligation. intros. apply bits_of_nonempty. Qed.
Next Obligation. intros. apply bits_of_nonempty. Qed.
Next Obligation. intros [m t v]. cbv beta. rewrite of_bits_of. cbn [mbind option_bind]. by rewrite decode_encode. Qed.
Next Obligation. intros [t i v tags] _. cbv beta. rewrite of_bits_of. cbn [mbind option_bind]. by rewrite decode_encode. Qed.

#[local] Existing Instances LengthCipher ToyIncrement ToyHmac key_order toy_options ToyLike debug_machine ToySha.sha ToySha.sha_length.
#[local] Instance toy_sqlite_on : Sqlite := toy_sqlite true.
#[local] Instance toy_laws : WalletStorageLaws Database SQLiteStorageIterator := SQLiteStorageLaws eq_refl.

Definition exported_wallet : Database := (wallet_add toy_keys toy_fresh "t" "n" "value" toy_tags empty_db).2.
Definition exported_map : WalletMap := {[("t", "n")%string := ("value"%string, toy_tags)]}.

(** The keys of the wallet that imports. *)
Definition other_keys : Keys :=
  mk_keys (toy_key Byte.x11) (toy_key Byte.x12) (toy_key Byte.x13) (toy_key Byte.x14)
    (toy_key Byte.x15) (toy_key Byte.x16) (toy_key Byte.x17).

Lemma empty_represented' keys : represents keys (storage_map empty_db) ∅.
Proof. split; [done|]. intros k e He. by vm_compute in He. Qed.

Lemma empty_stored' : storage_inv empty_db.
Proof. exact empty_db_inv. Qed.

Lemma exported_wallet_ok : storage_inv exported_wallet /\ represents toy_keys (storage_map exported_wallet) exported_map.
Proof.
  destruct (wallet_add_refines toy_keys toy_fresh "t" "n" "value" toy_tags eq_refl eq_refl eq_refl toy_tags_utf8
    empty_db ∅ empty_stored' (empty_represented' _)) as (Hi & Hr & _). by split.
Qed.

Lemma exported_frameable : Forall (fun x => frameable (record_to_vec (record_of x))) (map_to_list exported_map).
Proof. apply (bool_decide_unpack _). vm_compute. exact I. Qed.

Lemma header_frameable : frameable (export_header (toy_nonce Byte.x05) 7 0 (Raw "p")).
Proof. apply (bool_decide_unpack _). vm_compute. exact I. Qed.

Lemma export_import_roundtrip_witness : exists file,
  export_continue 1 (toy_nonce Byte.x05) 7 toy_keys 0 (toy_key Byte.x06) (Raw "p") (exported_wallet, mk_file [] None) =
    (Ok tt, (exported_wallet, mk_file file None)) /\
  forall plan, plan_ok (mk_source file plan) -> exists reader header s2,
    preparse_file_to_import (passphrase_of (Raw "p")) (mk_source file plan) =
      (Ok (Raw "p", toy_nonce Byte.x05, CHUNK_SIZE, header), reader) /\
    finish_import other_keys (fun _ => toy_fresh) reader (toy_key Byte.x06) (toy_nonce Byte.x05) CHUNK_SIZE header empty_db =
      (Ok tt, s2) /\
    storage_inv s2 /\ represents other_keys (storage_map s2) exported_map.
Proof.
  refine (export_import_roundtrip 1 (toy_nonce Byte.x05) 7 toy_keys other_keys (toy_key Byte.x06) (Raw "p")
    (fun _ => toy_fresh) exported_wallet empty_db exported_map ToySha.sha_total (proj1 exported_wallet_ok)
    (proj2 exported_wallet_ok) _ header_frameable exported_frameable empty_stored' (empty_represented' _)).
  apply Nat.leb_le. vm_compute. reflexivity.
Defined.

Lemma truncated_export_refused_witness : exists file,
  export_continue 1 (toy_nonce Byte.x05) 7 toy_keys 0 (toy_key Byte.x06) (Raw "p") (exported_wallet, mk_file [] None) =
    (Ok tt, (exported_wallet, mk_file file None)) /\
  forall m plan, m < length file -> plan_ok (mk_source (take m file) plan) -> exists reader,
    preparse_file_to_import (passphrase_of (Raw "p")) (mk_source (take m file) plan) = (Err InvalidStructure, reader) \/
    exists header s2 w', preparse_file_to_import (passphrase_of (Raw "p")) (mk_source (take m file) plan) =
        (Ok (Raw "p", toy_nonce Byte.x05, CHUNK_SIZE, header), reader) /\
      finish_import other_keys (fun _ => toy_fresh) reader (toy_key Byte.x06) (toy_nonce Byte.x05) CHUNK_SIZE header empty_db =
        (Err InvalidStructure, s2) /\
      storage_inv s2 /\ represents other_keys (storage_map s2) w' /\ w' ⊆ exported_map.
Proof.
  refine (truncated_export_refused 1 (toy_nonce Byte.x05) 7 toy_keys other_keys (toy_key Byte.x06) (Raw "p")
    (fun _ => toy_fresh) exported_wallet empty_db exported_map ToySha.sha_total (proj1 exported_wallet_ok)
    (proj2 exported_wallet_ok) _ header_frameable exported_frameable empty_stored' (empty_represented' _) _).
  - apply Nat.leb_le. vm_compute. reflexivity.
  - intros c nonce m Hc. apply length_cipher_cuts. unfold CHUNK_SIZE in Hc. lia.
Defined.

Lemma chunk_size_unwinds_witness :
  finish_import toy_keys (fun _ => toy_fresh) (mk_source [] []) (toy_key Byte.x06) (toy_nonce Byte.x05) (2 ^ 63) [] empty_db =
    (Panic, empty_db).
Proof. apply chunk_size_unwinds; vm_compute; congruence. Defined.

(** The file of a small wallet stays in the buffer of the [BufWriter] until it is dropped,
    where errors are ignored: on a full disk the export reports success and writes
    nothing. *)
Example export_to_full_disk :
  export_continue 1 (toy_nonce Byte.x05) 7 toy_keys 0 (toy_key Byte.x06) (Raw "p") (exported_wallet, mk_file [] (Some 0)) =
    (Ok tt, (exported_wallet, mk_file [] (Some 0))).
Proof. vm_compute. reflexivity. Qed.
