(* ===== verification/WalletService.v ===== *)
(** * WalletService: wallets, their handles and their storages

    Models [WalletService] of [libindy/src/services/wallet/mod.rs].  The storages are a
    map from places to storages; a storage type creates, opens and deletes them, and an
    open wallet is a place and keys, so that two wallets can share a storage.  What the
    code draws at random is given: keys, salts, nonces. *)

From stdpp Require Import gmap.
From S2P Require Import Prelude Errors Hashing Json Wql PoolTypes Encryption QueryEncryption WqlToSql Storage SqliteStorage SqliteFacts Wallet Stream ExportImport.

(** [Config], [Credentials] and [ExportConfig] of [domain/wallet/mod.rs]; the JSON values in
    them are given as their texts. *)
Record Config := mk_config {
  config_id : string;
  config_storage_type : option string;
  storage_config : option string;
}.

Record Credentials := mk_credentials {
  cred_key : string;
  rekey : option string;
  storage_credentials : option string;
  key_derivation_method : KeyDerivationMethod;
  rekey_derivation_method : KeyDerivationMethod;
}.

Record ExportConfig := mk_export_config {
  export_key : string;
  export_path : string;
  export_key_derivation_method : KeyDerivationMethod;
}.

(** serde_json on [Metadata] *)
Class MetadataCodec := {
  metadata_to_vec : Metadata -> option bytes;
  metadata_from_slice : bytes -> option Metadata;
}.

(** Whether the directory of a path can be made, and the space on its disk. *)
Class Disk := { dir_ok : string -> bool; free_space : string -> option nat }.

(** Objects that are kept as records: their type's name and their JSON. *)
Class IndyObject (T : Type) := {
  short_type_name : string;
  object_to_string : T -> option string;
  object_from_str : string -> option T;
}.

(** [WalletStorageType] on the storages [Stores] *)
Record StorageType (Stores : Type) := mk_storage_type {
  create_storage_of : string -> option string -> option string -> bytes -> StateM IndyErrorKind Stores unit;
  open_storage_of : string -> option string -> option string -> StateM IndyErrorKind Stores string;
  delete_storage_of : string -> option string -> option string -> StateM IndyErrorKind Stores unit;
}.
Arguments mk_storage_type {Stores} _ _ _.
Arguments create_storage_of {Stores} s _ _ _ _.
Arguments open_storage_of {Stores} s _ _ _.
Arguments delete_storage_of {Stores} s _ _ _.

(** [Wallet]: the storage is its place. *)
Record Wallet := mk_wallet { wallet_id : string; wallet_place : string; wallet_keys : Keys }.

Record WalletSearch (Iter : Type) := mk_wallet_search { ws_place : string; ws_keys : Keys; ws_iter : Iter }.
Arguments mk_wallet_search {Iter} _ _ _.
Arguments ws_place {Iter} w.
Arguments ws_keys {Iter} w.
Arguments ws_iter {Iter} w.

Record PendingOpen := mk_pending_open {
  po_id : string;
  po_place : string;
  po_metadata : Metadata;
  po_rekey : option KeyDerivationData;
}.

Record PendingImport := mk_pending_import {
  pi_reader : Source;
  pi_nonce : Nonce;
  pi_chunk_size : N;
  pi_header : bytes;
  pi_key_data : KeyDerivationData;
}.

Record WalletService (St : Type) := mk_service {
  storage_types : gmap string (StorageType (gmap string St));
  wallets : gmap Z Wallet;
  pending_for_open : gmap Z PendingOpen;
  pending_for_import : gmap Z PendingImport;
  (** what is outside of the service: the storages, the files, and [IDS_COUNTER] *)
  stores : gmap string St;
  files : gmap string File;
  ids : N;
}.
Arguments mk_service {St} _ _ _ _ _ _ _.
Arguments storage_types {St} w.
Arguments wallets {St} w.
Arguments pending_for_open {St} w.
Arguments pending_for_import {St} w.
Arguments stores {St} w.
Arguments files {St} w.
Arguments ids {St} w.

Section service.
Context `{ChaCha20Poly1305} `{HmacSha256} `{HashOrder} `{KeysCodec} `{MetadataCodec} `{Disk}.
Context {St Iter : Type} `{!WalletStorage St Iter}.

Abbreviation Service := (StateM IndyErrorKind (WalletService St)).
Abbreviation Stores := (gmap string St).

Definition set_types f (sv : WalletService St) : WalletService St :=
  mk_service (f (storage_types sv)) (wallets sv) (pending_for_open sv) (pending_for_import sv) (stores sv) (files sv) (ids sv).
Definition set_wallets f (sv : WalletService St) : WalletService St :=
  mk_service (storage_types sv) (f (wallets sv)) (pending_for_open sv) (pending_for_import sv) (stores sv) (files sv) (ids sv).
Definition set_pending_open f (sv : WalletService St) : WalletService St :=
  mk_service (storage_types sv) (wallets sv) (f (pending_for_open sv)) (pending_for_import sv) (stores sv) (files sv) (ids sv).
Definition set_pending_import f (sv : WalletService St) : WalletService St :=
  mk_service (storage_types sv) (wallets sv) (pending_for_open sv) (f (pending_for_import sv)) (stores sv) (files sv) (ids sv).
Definition set_stores (m : Stores) (sv : WalletService St) : WalletService St :=
  mk_service (storage_types sv) (wallets sv) (pending_for_open sv) (pending_for_import sv) m (files sv) (ids sv).
Definition set_files f (sv : WalletService St) : WalletService St :=
  mk_service (storage_types sv) (wallets sv) (pending_for_open sv) (pending_for_import sv) (stores sv) (f (files sv)) (ids sv).
Definition set_ids n (sv : WalletService St) : WalletService St :=
  mk_service (storage_types sv) (wallets sv) (pending_for_open sv) (pending_for_import sv) (stores sv) (files sv) n.

(** [sequence::get_next_id()] as a handle *)
Definition next_handle `{Machine} : Service Z := fun sv =>
  (n ← usize_add (ids sv) 1; Ok (as_i32 n), set_ids ((ids sv + 1) mod usize_modulus)%N sv).

Definition on_stores {A} : StateM IndyErrorKind Stores A -> Service A := within stores set_stores.

(** A call of the storage at a place.  A storage that was deleted while it was open is
    not modelled further: its calls fail. *)
Definition at_place {A} (place : string) (m : StateM IndyErrorKind St A) : Service A := fun sv =>
  match stores sv !! place with
  | Some s => let '(r, s) := m s in (r, set_stores (<[place := s]> (stores sv)) sv)
  | None => (Err IOError, sv)
  end.

(** ** Storage types *)

Definition register_wallet_storage (type_ : string) (t : StorageType Stores) : Service unit :=
  types ← gets storage_types;
  if decide (is_Some (types !! type_)) then fail WalletStorageTypeAlreadyRegistered
  else modify (set_types (<[type_ := t]>)).

(** The type, with [storage_config] and [storage_credentials] for its calls. *)
Definition _get_config_and_cred_for_storage (config : Config) : Service (StorageType Stores) :=
  types ← gets storage_types;
  lift (ok_or (types !! default "default"%string (config_storage_type config)) UnknownWalletStorageType).

Definition _open_storage (config : Config) (credentials : Credentials) : Service string :=
  storage_type ← _get_config_and_cred_for_storage config;
  on_stores (open_storage_of storage_type (config_id config) (storage_config config) (storage_credentials credentials)).

(** ** Metadata and keys *)

Definition _prepare_metadata (nonce : Nonce) (master_key : Key) (key_data : KeyDerivationData) (keys : Keys) :
    IndyResult bytes :=
  encrypted_keys ← serialize_encrypted nonce keys master_key;
  let metadata :=
    match key_data with
    | Raw _ => MetadataRaw encrypted_keys
    | Argon2iInt _ salt | Argon2iMod _ salt => MetadataArgon encrypted_keys (arr_bytes salt)
    end in
  ok_or (metadata_to_vec metadata) InvalidState.

Definition _restore_keys (metadata : Metadata) (master_key : Key) : IndyResult Keys :=
  to_indy (deserialize_encrypted (get_keys metadata) master_key) WalletAccessFailed.

Definition _is_id_from_config_not_used (config : Config) : Service unit :=
  if decide (config_id config = ""%string) then fail InvalidStructure
  else
    wallets ← gets wallets;
    if existsb (fun kv => String.eqb (wallet_id kv.2) (config_id config)) (map_to_list wallets) then fail WalletAlreadyOpened
    else mret tt.

Definition _open_storage_and_fetch_metadata (config : Config) (credentials : Credentials) :
    Service (string * Metadata * KeyDerivationData) :=
  place ← _open_storage config credentials;
  metadata ← at_place place get_storage_metadata;
  metadata ← lift (ok_or (metadata_from_slice metadata) InvalidState);
  key_derivation_data ←
    lift (from_passphrase_and_metadata (cred_key credentials) metadata (key_derivation_method credentials));
  mret (place, metadata, key_derivation_data).

(** ** Creating, deleting, opening and closing *)

(** [keys] and [nonce] are generated. *)
Definition _create_wallet (keys : Keys) (nonce : Nonce) (config : Config) (credentials : Credentials)
    (key_data : KeyDerivationData) (master_key : Key) : Service Keys :=
  if decide (config_id config = ""%string) then fail InvalidStructure
  else
    storage_type ← _get_config_and_cred_for_storage config;
    metadata ← lift (_prepare_metadata nonce master_key key_data keys);
    _ ← on_stores (create_storage_of storage_type (config_id config) (storage_config config)
                     (storage_credentials credentials) metadata);
    mret keys.

Definition create_wallet (keys : Keys) (nonce : Nonce) (config : Config) (credentials : Credentials)
    (key_data : KeyDerivationData) (master_key : Key) : Service unit :=
  _ ← _create_wallet keys nonce config credentials key_data master_key; mret tt.

Definition delete_wallet_prepare (config : Config) (credentials : Credentials) : Service (Metadata * KeyDerivationData) :=
  wallets ← gets wallets;
  if existsb (fun kv => String.eqb (wallet_id kv.2) (config_id config)) (map_to_list wallets) then fail InvalidState
  else
    '(_, metadata, key_derivation_data) ← _open_storage_and_fetch_metadata config credentials;
    mret (metadata, key_derivation_data).

Definition delete_wallet_continue (config : Config) (credentials : Credentials) (metadata : Metadata) (master_key : Key) :
    Service unit :=
  _ ← lift (_restore_keys metadata master_key);
  storage_type ← _get_config_and_cred_for_storage config;
  on_stores (delete_storage_of storage_type (config_id config) (storage_config config) (storage_credentials credentials)).

(** [salt] is for a new key. *)
Definition open_wallet_prepare `{Machine} (salt : Salt) (config : Config) (credentials : Credentials) :
    Service (Z * KeyDerivationData * option KeyDerivationData) :=
  _ ← _is_id_from_config_not_used config;
  '(place, metadata, key_derivation_data) ← _open_storage_and_fetch_metadata config credentials;
  wallet_handle ← next_handle;
  let rekey_data :=
    (fun rekey => from_passphrase_with_new_salt salt rekey (rekey_derivation_method credentials)) <$> rekey credentials in
  _ ← modify (set_pending_open (<[wallet_handle := mk_pending_open (config_id config) place metadata rekey_data]>));
  mret (wallet_handle, key_derivation_data, rekey_data).

Definition open_wallet_continue (nonce : Nonce) (wallet_handle : Z) (master_key : Key) (rekey : option Key) : Service Z :=
  pending ← gets (fun sv => pending_for_open sv !! wallet_handle);
  match pending with
  | None => fail InvalidState
  | Some (mk_pending_open id place metadata rekey_data) =>
      _ ← modify (set_pending_open (delete wallet_handle));
      keys ← lift (_restore_keys metadata master_key);
      _ ← match rekey, rekey_data with
          | Some rekey, Some rekey_data =>
              metadata ← lift (_prepare_metadata nonce rekey rekey_data keys);
              at_place place (set_storage_metadata metadata)
          | _, _ => mret tt
          end;
      _ ← modify (set_wallets (<[wallet_handle := mk_wallet id place keys]>));
      mret wallet_handle
  end.

Definition close_wallet (handle : Z) : Service unit :=
  wallet ← gets (fun sv => wallets sv !! handle);
  match wallet with
  | Some wallet => _ ← modify (set_wallets (delete handle)); at_place (wallet_place wallet) wallet_close
  | None => fail InvalidWalletHandle
  end.

Definition check (handle : Z) : Service unit :=
  wallets ← gets wallets;
  if decide (is_Some (wallets !! handle)) then mret tt else fail InvalidWalletHandle.

(** ** Records *)

(** An operation of an open wallet.  [_map_wallet_storage_error], around most of them, only
    changes the text of an error. *)
Definition with_wallet {A} (wallet_handle : Z) (m : Keys -> StateM IndyErrorKind St A) : Service A :=
  wallet ← gets (fun sv => wallets sv !! wallet_handle);
  match wallet with
  | Some wallet => at_place (wallet_place wallet) (m (wallet_keys wallet))
  | None => fail InvalidWalletHandle
  end.

Definition add_record (fresh : Fresh) (wallet_handle : Z) (type_ name value : string) (tags : gmap string string) : Service unit :=
  with_wallet wallet_handle (fun keys => wallet_add keys fresh type_ name value tags).
Definition update_record_value (fresh : Fresh) (wallet_handle : Z) (type_ name value : string) : Service unit :=
  with_wallet wallet_handle (fun keys => wallet_update keys fresh type_ name value).
Definition add_record_tags (wallet_handle : Z) (type_ name : string) (tags : gmap string string) : Service unit :=
  with_wallet wallet_handle (fun keys => wallet_add_tags keys type_ name tags).
Definition update_record_tags (wallet_handle : Z) (type_ name : string) (tags : gmap string string) : Service unit :=
  with_wallet wallet_handle (fun keys => wallet_update_tags keys type_ name tags).
Definition delete_record_tags (wallet_handle : Z) (type_ name : string) (tag_names : list string) : Service unit :=
  with_wallet wallet_handle (fun keys => wallet_delete_tags keys type_ name tag_names).
Definition delete_record (wallet_handle : Z) (type_ name : string) : Service unit :=
  with_wallet wallet_handle (fun keys => wallet_delete keys type_ name).
Definition get_record (wallet_handle : Z) (type_ name options_json : string) : Service WalletRecord :=
  with_wallet wallet_handle (fun keys => wallet_get keys type_ name options_json).

(** [WalletSearch] is a [WalletIterator]: where it reads, with which keys, and its place. *)
Definition search_records `{JsonText} (wallet_handle : Z) (type_ query_json options_json : string) : Service (WalletSearch Iter) :=
  wallet ← gets (fun sv => wallets sv !! wallet_handle);
  match wallet with
  | Some wallet =>
      it ← at_place (wallet_place wallet) (wallet_search (wallet_keys wallet) type_ query_json (Some options_json));
      mret (mk_wallet_search (wallet_place wallet) (wallet_keys wallet) it)
  | None => fail InvalidWalletHandle
  end.

(** [unimplemented!()] *)
Definition search_all_records (wallet_handle : Z) : Service (WalletSearch Iter) := lift Panic.

(** Computations that read a search, [&mut WalletSearch] *)
Abbreviation SearchM := (StateM IndyErrorKind (WalletSearch Iter * WalletService St)).

(** An iterator whose storage fails stays where it is. *)
Definition next_storage_entity : SearchM (option StorageRecord) := fun '(s, sv) =>
  match at_place (ws_place s) (iter_next (ws_iter s)) sv with
  | (Ok (e, it), sv) => (Ok e, (mk_wallet_search (ws_place s) (ws_keys s) it, sv))
  | (Err e, sv) => (Err e, (s, sv))
  | (Panic, sv) => (Panic, (s, sv))
  | (OutOfFuel, sv) => (OutOfFuel, (s, sv))
  end.

Definition fetch_next_record : SearchM (option WalletRecord) :=
  next ← next_storage_entity;
  keys ← gets (fun x => ws_keys x.1);
  match next with
  | Some entity => record ← lift (decrypt_storage_record entity keys); mret (Some record)
  | None => mret None
  end.

Definition get_total_count (s : WalletSearch Iter) : IndyResult (option N) := wallet_total_count (ws_iter s).

(** ** Objects *)

Definition add_prefix (type_ : string) : string := ("Indy::" +:+ type_)%string.

Section objects.
Context `{OptionCodecs} (T : Type) `{!IndyObject T}.

Definition type_of : string := add_prefix (short_type_name (T:=T)).

Definition add_indy_object (fresh : Fresh) (wallet_handle : Z) (name : string) (object : T) (tags : gmap string string) :
    Service string :=
  object_json ← lift (ok_or (object_to_string object) InvalidState);
  _ ← add_record fresh wallet_handle type_of name object_json tags;
  mret object_json.

(** The object is printed when the wallet was found. *)
Definition update_indy_object (fresh : Fresh) (wallet_handle : Z) (name : string) (object : T) : Service string :=
  with_wallet wallet_handle (fun keys =>
    object_json ← lift (ok_or (object_to_string object) InvalidState);
    _ ← wallet_update keys fresh type_of name object_json;
    mret object_json).

Definition delete_indy_record (wallet_handle : Z) (name : string) : Service unit :=
  delete_record wallet_handle type_of name.

Definition get_indy_record (wallet_handle : Z) (name options_json : string) : Service WalletRecord :=
  get_record wallet_handle type_of name options_json.

Definition get_indy_object (wallet_handle : Z) (name options_json : string) : Service T :=
  record ← get_record wallet_handle type_of name options_json;
  record_value ← lift (ok_or (wr_value record) InvalidStructure);
  lift (ok_or (object_from_str record_value) InvalidState).

Definition get_indy_opt_object (wallet_handle : Z) (name options_json : string) : Service (option T) :=
  res ← attempt (get_indy_object wallet_handle name options_json);
  match res with
  | inr object => mret (Some object)
  | inl WalletItemNotFound => mret None
  | inl err => fail err
  end.

Definition search_indy_records `{JsonText} (wallet_handle : Z) (query_json options_json : string) : Service (WalletSearch Iter) :=
  search_records wallet_handle type_of query_json options_json.

Definition record_exists (wallet_handle : Z) (name : string) : Service bool :=
  with_wallet wallet_handle (fun keys =>
    res ← attempt (wallet_get keys type_of name RecordOptions_id);
    match res with
    | inr _ => mret true
    | inl WalletItemNotFound => mret false
    | inl err => fail err
    end).

Definition upsert_indy_object (fresh : Fresh) (wallet_handle : Z) (name : string) (object : T) : Service string :=
  exists_ ← record_exists wallet_handle name;
  if exists_ : bool then update_indy_object fresh wallet_handle name object
  else add_indy_object fresh wallet_handle name object ∅.
End objects.

(** ** Export and import *)

Context `{IncrementLe} `{Sha256} `{ExportCodecs} `{Machine}.

Definition export_wallet (fuel : nat) (nonce : Nonce) (now : N) (wallet_handle : Z) (export_config : ExportConfig) (version : N)
    (key_data : KeyDerivationData) (key : Key) : Service unit :=
  if (version =? 0)%N then
    wallet ← gets (fun sv => wallets sv !! wallet_handle);
    wallet ← lift (ok_or wallet InvalidWalletHandle);
    let path := export_path export_config in
    if dir_ok path then
      old ← gets (fun sv => files sv !! path);
      match old with
      | Some _ => fail IOError
      | None =>
          fun sv =>
          match stores sv !! wallet_place wallet with
          | Some s =>
              let '(r, (s, file)) :=
                export_continue fuel nonce now (wallet_keys wallet) version key key_data (s, mk_file [] (free_space path)) in
              (r, set_files (<[path := file]>) (set_stores (<[wallet_place wallet := s]> (stores sv)) sv))
          | None => (Err IOError, set_files (<[path := mk_file [] (free_space path)]>) sv)
          end
      end
    else fail IOError
  else fail InvalidState.

(** [read_plan] says how the reads of the file go. *)
Definition import_wallet_prepare (salt : Salt) (read_plan : list ReadStep) (config : Config) (credentials : Credentials)
    (export_config : ExportConfig) : Service (Z * KeyDerivationData * KeyDerivationData) :=
  file ← gets (fun sv => files sv !! export_path export_config);
  file ← lift (ok_or file IOError);
  '(reader, (import_key_derivation_data, nonce, chunk_size, header_bytes)) ←
    lift (match preparse_file_to_import (export_key export_config) (mk_source (contents file) read_plan) with
          | (Ok r, reader) => Ok (reader, r)
          | (Err e, _) => Err e
          | (Panic, _) => Panic
          | (OutOfFuel, _) => OutOfFuel
          end);
  let key_data := from_passphrase_with_new_salt salt (cred_key credentials) (key_derivation_method credentials) in
  wallet_handle ← next_handle;
  _ ← modify (set_pending_import (<[wallet_handle := mk_pending_import reader nonce chunk_size header_bytes key_data]>));
  mret (wallet_handle, key_data, import_key_derivation_data).

(** [keys], [nonce] and [fresh] are generated. *)
Definition import_wallet_continue (keys : Keys) (nonce : Nonce) (fresh : nat -> Fresh) (wallet_handle : Z) (config : Config)
    (credentials : Credentials) (import_key master_key : Key) : Service unit :=
  pending ← gets (fun sv => pending_for_import sv !! wallet_handle);
  p ← lift (unwrap pending);
  _ ← modify (set_pending_import (delete wallet_handle));
  keys ← _create_wallet keys nonce config credentials (pi_key_data p) master_key;
  _ ← _is_id_from_config_not_used config;
  place ← _open_storage config credentials;
  metadata ← at_place place get_storage_metadata;
  res ← attempt (at_place place
    (finish_import keys fresh (pi_reader p) import_key (pi_nonce p) (pi_chunk_size p) (pi_header p)));
  match res with
  | inr _ => mret tt
  | inl err =>
      metadata ← lift (ok_or (metadata_from_slice metadata) InvalidState);
      _ ← delete_wallet_continue config credentials metadata master_key;
      fail err
  end.
End service.
