(* ===== verification/WalletServiceFacts.v ===== *)
(** * WalletServiceFacts: what the wallet service guarantees

    Theorems on [WalletService.v]: the records behind a handle are a map, wallets that are
    created, opened and given a new passphrase, backups, and what an import leaves behind.
    The storage types are an interface ([StorageTypeLaws]); the default storage implements
    it at the end. *)

From stdpp Require Import gmap.
From S2P Require Import Prelude Errors Hashing Json Wql PoolTypes Encryption QueryEncryption WqlToSql Storage SqliteStorage SqliteFacts Wallet Stream ExportImport WalletService.

(** ** Refinement is preserved by the monad *)

Section wallet_refinement.
Context `{ChaCha20Poly1305} `{HmacSha256} `{HashOrder} `{OptionCodecs} `{LikePattern}.
Context {St Iter : Type} `{!WalletStorage St Iter} `{!WalletStorageLaws St Iter}.
Variable keys : Keys.

Lemma wallet_refines_lift {A} (a : IndyResult A) : wallet_refines keys (lift a) (lift a).
Proof. by intros s w Hs Hr. Qed.

Lemma wallet_refines_bind {A B} (m : StateM IndyErrorKind St A) (f : A -> StateM IndyErrorKind St B) sm sf :
  wallet_refines keys m sm -> (forall a, wallet_refines keys (f a) (sf a)) ->
  wallet_refines keys (m ≫= f) (sm ≫= sf).
Proof.
  intros Hm Hf s w Hs Hr. destruct (Hm s w Hs Hr) as (Hs1 & Hr1 & He). rewrite !bind_run.
  destruct (m s) as [[a|e| |] s1], (sm w) as [r w1]; cbn [fst snd] in *; subst; [by apply Hf|done..].
Qed.

Lemma wallet_refines_result {A B} (o : IndyResult A) (f : A -> StateM IndyErrorKind St B) sf :
  (forall a, o = Ok a -> wallet_refines keys (f a) (sf a)) -> wallet_refines keys (lift o ≫= f) (lift o ≫= sf).
Proof. intros Hf s w Hs Hr. rewrite !bind_run. unfold lift. destruct o; [by apply Hf|done..]. Qed.

Lemma wallet_refines_attempt {A} (m : StateM IndyErrorKind St A) sm :
  wallet_refines keys m sm -> wallet_refines keys (attempt m) (attempt sm).
Proof.
  intros Hm s w Hs Hr. destruct (Hm s w Hs Hr) as (Hs1 & Hr1 & He). unfold attempt.
  by destruct (m s) as [[a|e| |] s1], (sm w) as [r w1]; cbn [fst snd] in *; subst.
Qed.
End wallet_refinement.

(** ** The records behind a handle *)

Section records.
Context `{ChaCha20Poly1305} `{HmacSha256} `{HashOrder} `{OptionCodecs} `{LikePattern}.
Context {St Iter : Type} `{!WalletStorage St Iter} `{!WalletStorageLaws St Iter}.

(** An operation of a wallet service on a handle does to the wallet of the handle what
    [spec] does to its map and nothing else; an unknown handle is refused. *)
Definition service_refines {A} (h : Z) (m : StateM IndyErrorKind (WalletService St) A)
    (spec : StateM IndyErrorKind WalletMap A) : Prop :=
  forall sv wallet s w, wallets sv !! h = Some wallet -> stores sv !! wallet_place wallet = Some s ->
  storage_inv s -> represents (wallet_keys wallet) (storage_map s) w -> exists s',
    m sv = ((spec w).1, set_stores (<[wallet_place wallet := s']> (stores sv)) sv) /\
    storage_inv s' /\ represents (wallet_keys wallet) (storage_map s') (spec w).2.

Definition refuses {A} (h : Z) (m : StateM IndyErrorKind (WalletService St) A) : Prop :=
  forall sv, wallets sv !! h = None -> m sv = (Err InvalidWalletHandle, sv).

Lemma with_wallet_refines {A} h (m : Keys -> StateM IndyErrorKind St A) spec :
  (forall keys, wallet_refines keys (m keys) spec) -> service_refines h (with_wallet h m) spec.
Proof.
  intros Hm sv wallet s w Hh Hp Hs Hr. destruct (Hm (wallet_keys wallet) s w Hs Hr) as (Hs' & Hr' & He).
  exists (m (wallet_keys wallet) s).2. split; [|done]. unfold with_wallet. rewrite bind_run. unfold gets. rewrite Hh.
  unfold at_place. rewrite Hp. rewrite <-He. by destruct (m _ s).
Qed.

Lemma with_wallet_refuses {A} h (m : Keys -> StateM IndyErrorKind St A) : refuses h (with_wallet h m).
Proof. intros sv Hh. unfold with_wallet. rewrite bind_run. unfold gets. by rewrite Hh. Qed.

Lemma service_refines_lift {A} h (a : IndyResult A) : service_refines h (lift a) (lift a).
Proof.
  intros sv wallet s w Hh Hp Hs Hr. exists s. split; [|done]. unfold lift. rewrite insert_id by done. by destruct sv.
Qed.

Lemma service_refines_bind {A B} h (m : StateM IndyErrorKind (WalletService St) A)
    (f : A -> StateM IndyErrorKind (WalletService St) B) sm sf :
  service_refines h m sm -> (forall a, service_refines h (f a) (sf a)) -> service_refines h (m ≫= f) (sm ≫= sf).
Proof.
  intros Hm Hf sv wallet s w Hh Hp Hs Hr. destruct (Hm sv wallet s w Hh Hp Hs Hr) as (s1 & He1 & Hs1 & Hr1).
  rewrite !bind_run, He1. destruct (sm w) as [[a|e| |] w1]; cbn [fst snd] in *; [|by exists s1..].
  destruct (Hf a (set_stores (<[wallet_place wallet := s1]> (stores sv)) sv) wallet s1 w1) as (s2 & He2 & Hs2 & Hr2);
    [done|apply lookup_insert_eq|done..|]. exists s2. rewrite He2. cbn [stores set_stores].
  by rewrite insert_insert_eq.
Qed.

Lemma service_refines_result {A B} h (o : IndyResult A) (f : A -> StateM IndyErrorKind (WalletService St) B) sf :
  (forall a, o = Ok a -> service_refines h (f a) (sf a)) -> service_refines h (lift o ≫= f) (lift o ≫= sf).
Proof.
  intros Hf. destruct o as [a|e| |]; [exact (Hf a eq_refl)|..];
    [exact (service_refines_lift h (Err e))|exact (service_refines_lift h Panic)|exact (service_refines_lift h OutOfFuel)].
Qed.

Lemma service_refines_attempt {A} h (m : StateM IndyErrorKind (WalletService St) A) sm :
  service_refines h m sm -> service_refines h (attempt m) (attempt sm).
Proof.
  intros Hm sv wallet s w Hh Hp Hs Hr. destruct (Hm sv wallet s w Hh Hp Hs Hr) as (s1 & He1 & Hs1 & Hr1).
  exists s1. unfold attempt. rewrite He1. by destruct (sm w) as [[a|e| |] w1].
Qed.

(** ** Objects *)

Section objects.
Context (T : Type) `{!IndyObject T}.

Definition spec_get_indy_object (name options_json : string) : StateM IndyErrorKind WalletMap T :=
  record ← wspec_get (type_of T) name options_json;
  record_value ← lift (ok_or (wr_value record) InvalidStructure);
  lift (ok_or (object_from_str record_value) InvalidState).

Lemma get_indy_object_refines h name options_json :
  service_refines h (get_indy_object T h name options_json) (spec_get_indy_object name options_json).
Proof.
  apply service_refines_bind; [apply with_wallet_refines; intros; apply wallet_get_refines|].
  intros record. apply service_refines_bind; [apply service_refines_lift|]. intros. apply service_refines_lift.
Qed.

(** The object is there or it is not, whatever the parser makes of the options. *)
Definition spec_exists (name : string) : StateM IndyErrorKind WalletMap bool := fun w =>
  match parse_record_options RecordOptions_id with
  | Ok _ => (Ok (bool_decide (is_Some (w !! (type_of T, name)))), w)
  | Err WalletItemNotFound => (Ok false, w)
  | Err e => (Err e, w)
  | Panic => (Panic, w)
  | OutOfFuel => (OutOfFuel, w)
  end.

Lemma record_exists_refines h name : service_refines h (record_exists T h name) (spec_exists name).
Proof.
  apply with_wallet_refines. intros keys s w Hs Hr.
  destruct (wallet_get_refines keys (type_of T) name RecordOptions_id s w Hs Hr) as (Hs' & Hr' & He).
  rewrite wspec_get_run in Hr', He. unfold spec_exists. rewrite bind_run. unfold attempt.
  destruct (wallet_get keys (type_of T) name RecordOptions_id s) as [res s']; cbn [fst snd] in *.
  destruct (parse_record_options RecordOptions_id) as [opts|e| |]; cbn [fst snd] in *; subst; try done.
  - unfold wspec_at in *. destruct (w !! (type_of T, name)) as [x|] eqn:Hx; cbn [fst snd] in *.
    + by rewrite insert_id in Hr' by done.
    + done.
  - by destruct e.
Qed.

(** Updating or inserting: the tags of an object that was there are kept. *)
Definition spec_upsert (name : string) (object : T) : StateM IndyErrorKind WalletMap string := fun w =>
  match object_to_string object with
  | Some json =>
      (Ok json, <[(type_of T, name) := (json, default ∅ (snd <$> w !! (type_of T, name)))]> w)
  | None => (Err InvalidState, w)
  end.

Lemma update_indy_object_refines fresh h name object :
  (forall json, object_to_string object = Some json -> is_utf8 json) ->
  service_refines h (update_indy_object T fresh h name object)
    (json ← lift (ok_or (object_to_string object) InvalidState); _ ← wspec_update (type_of T) name json; mret json).
Proof.
  intros Hj. apply with_wallet_refines. intros keys. apply wallet_refines_result. intros json Hjson%ok_or_Ok.
  apply wallet_refines_bind; [by apply wallet_update_refines, Hj|]. intros. exact (wallet_refines_lift keys (Ok json)).
Qed.

Lemma add_indy_object_refines fresh h name object tags : is_utf8 (type_of T) -> is_utf8 name -> tags_utf8 tags ->
  (forall json, object_to_string object = Some json -> is_utf8 json) ->
  service_refines h (add_indy_object T fresh h name object tags)
    (json ← lift (ok_or (object_to_string object) InvalidState); _ ← wspec_add (type_of T) name json tags; mret json).
Proof.
  intros Ht Hn Htags Hj. apply service_refines_result. intros json Hjson%ok_or_Ok.
  apply service_refines_bind; [|intros; exact (service_refines_lift h (Ok json))].
  apply with_wallet_refines. intros. apply wallet_add_refines; [done..|by apply Hj|done].
Qed.

Lemma upsert_refines fresh h name object : is_utf8 (type_of T) -> is_utf8 name ->
  (forall json, object_to_string object = Some json -> is_utf8 json) ->
  (exists opts, parse_record_options RecordOptions_id = Ok opts) ->
  service_refines h (upsert_indy_object T fresh h name object) (spec_upsert name object).
Proof.
  intros Ht Hn Hj [opts Hopts] sv wallet s w Hh Hp Hs Hr.
  destruct (service_refines_bind h _ (fun b : bool => if b then update_indy_object T fresh h name object
      else add_indy_object T fresh h name object ∅) _
    (fun b : bool => json ← lift (ok_or (object_to_string object) InvalidState);
      _ ← (if b then wspec_update (type_of T) name json else wspec_add (type_of T) name json ∅); mret json)
    (record_exists_refines h name) ltac:(intros [|]; [by apply update_indy_object_refines|by apply add_indy_object_refines])
    sv wallet s w Hh Hp Hs Hr) as (s' & He & Hs' & Hr').
  exists s'. match type of He with _ = ((?spec w).1, _) => assert (spec w = spec_upsert name object w) as Heq end.
  { rewrite bind_run. unfold spec_exists. rewrite Hopts, bind_run. unfold spec_upsert, lift.
    destruct (object_to_string object) as [json|]; cbn [ok_or]; [|done]. rewrite bind_run.
    destruct (w !! (type_of T, name)) as [x|] eqn:Hx.
    - rewrite bool_decide_true by eauto. unfold wspec_update, wspec_at. by rewrite Hx.
    - rewrite bool_decide_false by (by intros []). unfold wspec_add. by rewrite Hx. }
  by rewrite Heq in He, Hr'.
Qed.
End objects.
End records.

(** ** The interface of storage types *)

Class MetadataLaws (St Iter : Type) `{WalletStorageLaws St Iter} := {
  metadata_is : St -> bytes -> Prop;
  law_get_metadata : forall s b, metadata_is s b -> get_storage_metadata s = (Ok b, s);
  law_set_metadata : forall s b b', storage_inv s -> metadata_is s b -> exists s',
    set_storage_metadata b' s = (Ok tt, s') /\ storage_inv s' /\ storage_map s' = storage_map s /\ metadata_is s' b';
  law_add_metadata : forall t n v tags s b, metadata_is s b -> metadata_is (storage_add t n v tags s).2 b;
}.

(** What the service relies on: a storage that was created is empty, has its metadata, is
    found again, and can be deleted; one that was not created leaves nothing. *)
Class StorageTypeLaws {St Iter : Type} `{MetadataLaws St Iter} (t : StorageType (gmap string St)) := {
  (** deleting the storage of this name and configuration leaves the others alone *)
  separate : string -> option string -> gmap string St -> Prop;
  law_create : forall id config cred metadata m m', create_storage_of t id config cred metadata m = (Ok tt, m') ->
    exists place s, m !! place = None /\ m' = <[place := s]> m /\ storage_inv s /\ storage_map s = ∅ /\ metadata_is s metadata /\
      (forall cred' m2, is_Some (m2 !! place) -> open_storage_of t id config cred' m2 = (Ok place, m2)) /\
      (separate id config m -> forall s2, delete_storage_of t id config cred (<[place := s2]> m) = (Ok tt, m));
  law_not_created : forall id config cred metadata m, (create_storage_of t id config cred metadata m).1 <> Ok tt ->
    (create_storage_of t id config cred metadata m).2 = m;
}.

(** serde_json reads what it wrote. *)
Class ServiceCodecLaws `{KeysCodec} `{MetadataCodec} := {
  keys_roundtrip : forall keys b, keys_to_vec keys = Some b -> keys_from_slice b = Some keys;
  metadata_roundtrip : forall m b, metadata_to_vec m = Some b -> metadata_from_slice b = Some m;
}.

Definition method_of (key_data : KeyDerivationData) : KeyDerivationMethod :=
  match key_data with Raw _ => RAW | Argon2iMod _ _ => ARGON2I_MOD | Argon2iInt _ _ => ARGON2I_INT end.

(** The credentials ask for this key. *)
Definition asks_for (credentials : Credentials) (key_data : KeyDerivationData) : Prop :=
  cred_key credentials = passphrase_of key_data /\ key_derivation_method credentials = method_of key_data.

Section wallets.
Context `{ChaCha20Poly1305} `{HmacSha256} `{HashOrder} `{KeysCodec} `{MetadataCodec} `{!ServiceCodecLaws}.
Context `{OptionCodecs} `{LikePattern} {St Iter : Type} `{!WalletStorage St Iter} `{!WalletStorageLaws St Iter}
  `{!MetadataLaws St Iter}.

(** Metadata from which the master key restores the keys, and the passphrase the key data. *)
Definition sealed_with (b : bytes) (keys : Keys) (master_key : Key) (key_data : KeyDerivationData) : Prop :=
  exists metadata, metadata_from_slice b = Some metadata /\ _restore_keys metadata master_key = Ok keys /\
    from_passphrase_and_metadata (passphrase_of key_data) metadata (method_of key_data) = Ok key_data.

Lemma prepared_metadata nonce master_key key_data keys b :
  _prepare_metadata nonce master_key key_data keys = Ok b -> sealed_with b keys master_key key_data.
Proof.
  unfold _prepare_metadata, serialize_encrypted. intros Hb. inv_ok.
  match goal with Hk : keys_to_vec _ = Some ?k |- _ => apply keys_roundtrip in Hk; rename k into kb end.
  match goal with Hm : metadata_to_vec _ = Some _ |- _ => apply metadata_roundtrip in Hm as Hm' end.
  eexists. split; [exact Hm'|]. split.
  - unfold _restore_keys, deserialize_encrypted.
    assert (get_keys match key_data with
      | Raw _ => MetadataRaw (encrypt_as_not_searchable nonce kb master_key)
      | Argon2iInt _ salt | Argon2iMod _ salt => MetadataArgon (encrypt_as_not_searchable nonce kb master_key) (arr_bytes salt)
      end = encrypt_as_not_searchable nonce kb master_key) as -> by (by destruct key_data).
    rewrite decrypt_not_searchable. cbn [mbind outcome_bind].
    match goal with Hk : keys_from_slice _ = Some _ |- _ => by rewrite Hk end.
  - destruct key_data; cbn; unfold master_key_salt_from_slice; by rewrite ?from_slice_arr.
Qed.

(** A wallet that is kept in a storage: which keys open it, and what it holds. *)
Record kept (sv : WalletService St) (config : Config) (place : string) (master_key : Key) (key_data : KeyDerivationData)
    (keys : Keys) (w : WalletMap) : Prop := {
  kept_found : exists t, storage_types sv !! default "default"%string (config_storage_type config) = Some t /\
    forall cred m, is_Some (m !! place) -> open_storage_of t (config_id config) (storage_config config) cred m = (Ok place, m);
  kept_stored : exists s b, stores sv !! place = Some s /\ metadata_is s b /\ sealed_with b keys master_key key_data /\
    storage_inv s /\ represents keys (storage_map s) w;
}.

Definition not_open (sv : WalletService St) (id : string) : Prop :=
  forall h wallet, wallets sv !! h = Some wallet -> wallet_id wallet <> id.

Lemma not_open_existsb sv id : not_open sv id ->
  existsb (fun kv => String.eqb (wallet_id kv.2) id) (map_to_list (wallets sv)) = false.
Proof.
  intros Hn. apply not_true_iff_false. intros ([h wallet] & Hin & He)%existsb_exists.
  apply list_elem_of_In, elem_of_map_to_list in Hin. apply String.eqb_eq in He. by eapply Hn.
Qed.

Lemma id_not_used sv config : config_id config <> ""%string -> not_open sv (config_id config) ->
  _is_id_from_config_not_used config sv = (Ok tt, sv).
Proof.
  intros He Hn. unfold _is_id_from_config_not_used. rewrite decide_False by done. rewrite bind_run. unfold gets.
  by rewrite not_open_existsb.
Qed.

Lemma at_place_run {A} place (m : StateM IndyErrorKind St A) sv s r s' : stores sv !! place = Some s -> m s = (r, s') ->
  at_place place m sv = (r, set_stores (<[place := s']> (stores sv)) sv).
Proof. intros Hs Hm. unfold at_place. by rewrite Hs, Hm. Qed.

Lemma at_place_read {A} place (m : StateM IndyErrorKind St A) sv s r : stores sv !! place = Some s -> m s = (r, s) ->
  at_place place m sv = (r, sv).
Proof. intros Hs Hm. rewrite (at_place_run _ _ _ _ _ _ Hs Hm), insert_id by done. by destruct sv. Qed.

Lemma storage_type_run (t : StorageType (gmap string St)) sv config :
  storage_types sv !! default "default"%string (config_storage_type config) = Some t ->
  _get_config_and_cred_for_storage config sv = (Ok t, sv).
Proof. intros Ht. unfold _get_config_and_cred_for_storage. rewrite bind_run. unfold gets, lift. by rewrite Ht. Qed.

Lemma open_storage_run (t : StorageType (gmap string St)) sv config credentials place :
  storage_types sv !! default "default"%string (config_storage_type config) = Some t -> is_Some (stores sv !! place) ->
  (forall cred m, is_Some (m !! place) -> open_storage_of t (config_id config) (storage_config config) cred m = (Ok place, m)) ->
  _open_storage config credentials sv = (Ok place, sv).
Proof.
  intros Ht Hp Hopen. unfold _open_storage. rewrite bind_run, (storage_type_run t) by done.
  unfold on_stores, within. rewrite Hopen by done. by destruct sv.
Qed.

Lemma fetch_metadata_ok sv config place master_key key_data keys w credentials :
  kept sv config place master_key key_data keys w -> asks_for credentials key_data ->
  exists metadata, _restore_keys metadata master_key = Ok keys /\
    _open_storage_and_fetch_metadata config credentials sv = (Ok (place, metadata, key_data), sv).
Proof.
  intros [(t & Ht & Hopen) (s & b & Hs & Hb & (metadata & Hmeta & Hkeys & Hkd) & _ & _)] [Hc Hm].
  exists metadata. split; [done|]. unfold _open_storage_and_fetch_metadata.
  rewrite bind_run, (open_storage_run t sv config credentials place) by eauto. rewrite bind_run.
  rewrite (at_place_read _ _ sv s (Ok b)) by (done || by apply law_get_metadata).
  rewrite bind_run. unfold lift. rewrite Hmeta. cbn [ok_or]. rewrite bind_run, Hc, Hm, Hkd. done.
Qed.

(** Preparing to open a kept wallet. *)
Lemma open_prepare_ok `{Machine} sv config place master_key key_data keys w credentials salt :
  kept sv config place master_key key_data keys w -> asks_for credentials key_data -> config_id config <> ""%string ->
  not_open sv (config_id config) -> (ids sv + 1 < usize_modulus)%N ->
  let h := as_i32 (ids sv + 1) in
  let rekey_data := (fun r => from_passphrase_with_new_salt salt r (rekey_derivation_method credentials)) <$> rekey credentials in
  exists metadata, _restore_keys metadata master_key = Ok keys /\
    open_wallet_prepare salt config credentials sv =
      (Ok (h, key_data, rekey_data),
       set_pending_open (<[h := mk_pending_open (config_id config) place metadata rekey_data]>) (set_ids (ids sv + 1)%N sv)).
Proof.
  intros Hk Ha Hid Hn Hids h rekey_data. destruct (fetch_metadata_ok _ _ _ _ _ _ _ _ Hk Ha) as (metadata & Hkeys & Hf).
  exists metadata. split; [done|]. unfold open_wallet_prepare. rewrite bind_run, id_not_used by done.
  rewrite bind_run, Hf, bind_run. unfold next_handle. rewrite usize_add_ok by done. cbn [mbind outcome_bind].
  rewrite N.mod_small by done. done.
Qed.

Lemma open_continue_ok nonce sv h id place metadata rekey_data keys master_key :
  pending_for_open sv !! h = Some (mk_pending_open id place metadata rekey_data) ->
  _restore_keys metadata master_key = Ok keys ->
  open_wallet_continue nonce h master_key None sv =
    (Ok h, set_wallets (<[h := mk_wallet id place keys]>) (set_pending_open (delete h) sv)).
Proof.
  intros Hp Hk. unfold open_wallet_continue. rewrite bind_run. unfold gets. rewrite Hp. rewrite bind_run. unfold modify.
  rewrite bind_run. unfold lift. by rewrite Hk.
Qed.

(** The service opens a kept wallet, also one that is started later on the same storages. *)
Definition opens `{Machine} (sv : WalletService St) (config : Config) (place : string) (master_key : Key)
    (key_data : KeyDerivationData) (keys : Keys) : Prop :=
  forall sv' credentials salt nonce, storage_types sv' = storage_types sv -> stores sv' = stores sv ->
  not_open sv' (config_id config) -> (ids sv' + 1 < usize_modulus)%N -> asks_for credentials key_data ->
  rekey credentials = None -> exists h sv1 sv2, open_wallet_prepare salt config credentials sv' = (Ok (h, key_data, None), sv1) /\
    open_wallet_continue nonce h master_key None sv1 = (Ok h, sv2) /\
    wallets sv2 = <[h := mk_wallet (config_id config) place keys]> (wallets sv') /\ stores sv2 = stores sv.

Lemma kept_opens `{Machine} sv config place master_key key_data keys w : config_id config <> ""%string ->
  kept sv config place master_key key_data keys w -> opens sv config place master_key key_data keys.
Proof.
  intros Hid [Hf Hst] sv' credentials salt nonce Ht Hs Hn Hids Ha Hrk.
  assert (kept sv' config place master_key key_data keys w) as Hk' by (by constructor; rewrite ?Ht, ?Hs).
  destruct (open_prepare_ok sv' config place master_key key_data keys w credentials salt Hk' Ha Hid Hn Hids) as (metadata & Hkeys & Hrun).
  rewrite Hrk in Hrun. cbn [fmap option_fmap option_map] in Hrun.
  eexists _, _, _. split; [exact Hrun|]. split; [apply (open_continue_ok _ _ _ (config_id config) place metadata None); [apply lookup_insert_eq|done]|by split].
Qed.

(** Creating a wallet. *)
Lemma create_wallet_ok t `{!StorageTypeLaws t} sv keys nonce config credentials key_data master_key sv1 :
  storage_types sv !! default "default"%string (config_storage_type config) = Some t ->
  _create_wallet keys nonce config credentials key_data master_key sv = (Ok keys, sv1) ->
  exists place s metadata, sv1 = set_stores (<[place := s]> (stores sv)) sv /\ stores sv !! place = None /\
    storage_inv s /\ storage_map s = ∅ /\ metadata_is s metadata /\ sealed_with metadata keys master_key key_data /\
    (forall cred m, is_Some (m !! place) -> open_storage_of t (config_id config) (storage_config config) cred m = (Ok place, m)) /\
    (separate (config_id config) (storage_config config) (stores sv) -> forall s2,
      delete_storage_of t (config_id config) (storage_config config) (storage_credentials credentials) (<[place := s2]> (stores sv)) =
        (Ok tt, stores sv)).
Proof.
  intros Ht. unfold _create_wallet. case_decide; [done|]. rewrite bind_run, (storage_type_run t), bind_run by done. unfold lift.
  destruct (_prepare_metadata nonce master_key key_data keys) as [metadata|e| |] eqn:Hm; try done.
  rewrite bind_run. unfold on_stores, within. destruct (create_storage_of _ _ _ _ _ _) as [[[]|e| |] m'] eqn:Hc; try done.
  cbn. intros [= <-]. destruct (law_create _ _ _ _ _ _ Hc) as (place & s & Hnone & -> & Hs & Hmap & Hmeta & Hopen & Hdel).
  exists place, s, metadata. split_and!; try done. by eapply prepared_metadata.
Qed.

Lemma empty_represents keys m : m = ∅ -> represents keys m ∅.
Proof. intros ->. split; [intros; by rewrite !lookup_empty|]. intros k e He. by rewrite lookup_empty in He. Qed.

Lemma create_wallet_kept t `{!StorageTypeLaws t} sv keys nonce config credentials key_data master_key sv1 :
  storage_types sv !! default "default"%string (config_storage_type config) = Some t ->
  create_wallet keys nonce config credentials key_data master_key sv = (Ok tt, sv1) ->
  config_id config <> ""%string /\ exists place s, stores sv !! place = None /\ sv1 = set_stores (<[place := s]> (stores sv)) sv /\
    kept sv1 config place master_key key_data keys ∅.
Proof.
  intros Ht. unfold create_wallet. rewrite bind_run.
  destruct (_create_wallet _ _ _ _ _ _ _) as [[ks|e| |] sv'] eqn:Hc; try done. intros [= ->].
  assert (ks = keys /\ config_id config <> ""%string) as [-> Hid].
  { unfold _create_wallet in Hc. case_decide; [done|]. inv_run. by repeat (destruct Hc as (? & ? & ? & Hc); inv_run). }
  split; [done|].
  destruct (create_wallet_ok t _ _ _ _ _ _ _ _ Ht Hc) as (place & s & metadata & -> & Hn & Hs & Hmap & Hmeta & Hseal & Hopen & _).
  exists place, s. split_and!; [done..|]. constructor; [by exists t|]. exists s, metadata. split_and!; try done.
  - apply lookup_insert_eq.
  - by apply empty_represents.
Qed.

(** Opening with a new passphrase. *)
Lemma rekey_kept sv config place master_key key_data keys w h metadata nonce new_key new_data b :
  kept sv config place master_key key_data keys w -> _restore_keys metadata master_key = Ok keys ->
  pending_for_open sv !! h = Some (mk_pending_open (config_id config) place metadata (Some new_data)) ->
  _prepare_metadata nonce new_key new_data keys = Ok b -> exists sv', 
    open_wallet_continue nonce h master_key (Some new_key) sv = (Ok h, sv') /\
    wallets sv' = <[h := mk_wallet (config_id config) place keys]> (wallets sv) /\
    kept sv' config place new_key new_data keys w.
Proof.
  intros [Hf (s & old & Hs & Hold & _ & Hi & Hr)] Hk Hp Hb.
  destruct (law_set_metadata s old b Hi Hold) as (s' & Hset & Hi' & Hmap & Hmeta).
  eexists. split.
  - unfold open_wallet_continue. rewrite bind_run. unfold gets. rewrite Hp. rewrite bind_run. unfold modify.
    rewrite bind_run. unfold lift. rewrite Hk. do 2 rewrite bind_run. rewrite Hb.
    rewrite (at_place_run place _ (set_pending_open (delete h) sv) s _ _ Hs Hset). reflexivity.
  - split; [done|]. constructor; [exact Hf|]. exists s', b. split_and!; try done.
    + apply lookup_insert_eq.
    + by eapply prepared_metadata.
    + by rewrite Hmap.
Qed.
End wallets.

(** ** Searches *)

Section searches.
Context `{ChaCha20Poly1305} `{HmacSha256} `{HashOrder} `{OptionCodecs} `{LikePattern} `{JsonText}.
Context {St Iter : Type} `{!WalletStorage St Iter} `{!WalletStorageLaws St Iter}.
Implicit Types (sv : WalletService St) (s : WalletSearch Iter).

(** What a search returns when the service is left alone. *)
Definition search_yields sv s (records : list WalletRecord) : Prop :=
  exists st, stores sv !! ws_place s = Some st /\ wallet_yields (ws_keys s) st (ws_iter s) records.

Lemma next_entity_run sv s st e it : stores sv !! ws_place s = Some st -> iter_next (ws_iter s) st = (Ok (e, it), st) ->
  next_storage_entity (s, sv) = (Ok e, (mk_wallet_search (ws_place s) (ws_keys s) it, sv)).
Proof.
  intros Hst Hn. unfold next_storage_entity, at_place. rewrite Hst, Hn. rewrite insert_id by done. by destruct sv.
Qed.

Lemma fetch_end sv s : search_yields sv s [] -> exists s', fetch_next_record (s, sv) = (Ok None, (s', sv)) /\ ws_place s' = ws_place s.
Proof.
  intros (st & Hst & Hy). inversion Hy as [? it Hn|]; subst. unfold wallet_next in Hn.
  apply M_bind_Ok in Hn as ([[e|] it'] & st' & Hn & Hr).
  - apply M_bind_Ok in Hr as (r & st'' & _ & Hr). discriminate.
  - injection Hr as <- ->. exists (mk_wallet_search (ws_place s) (ws_keys s) it'). split; [|done].
    unfold fetch_next_record. rewrite bind_run. by rewrite (next_entity_run sv s st None it').
Qed.

Lemma fetch_next sv s r records : search_yields sv s (r :: records) ->
  exists s', fetch_next_record (s, sv) = (Ok (Some r), (s', sv)) /\ ws_place s' = ws_place s /\ search_yields sv s' records.
Proof.
  intros (st & Hst & Hy). inversion Hy as [|? it ? ? Hn Hy']; subst. unfold wallet_next in Hn.
  apply M_bind_Ok in Hn as ([[e|] it'] & st' & Hn & Hr); [|discriminate].
  apply M_bind_Ok in Hr as (r' & st'' & Hd & Hr). injection Hr as <- <- ->. unfold lift in Hd. injection Hd as Hd ->.
  exists (mk_wallet_search (ws_place s) (ws_keys s) it'). split_and!; [|done|by exists st].
  unfold fetch_next_record. rewrite bind_run, (next_entity_run sv s st (Some e) it' Hst Hn), bind_run.
  cbn [fst ws_keys gets]. rewrite bind_run. unfold lift. by rewrite Hd.
Qed.

(** A search behind a handle yields the records that the wallet's map has for the query. *)
Lemma service_search sv h wallet st w type_ text query op op' options opts :
  wallets sv !! h = Some wallet -> stores sv !! wallet_place wallet = Some st ->
  storage_inv st -> represents (wallet_keys wallet) (storage_map st) w ->
  from_str text = Some query -> parse_from_json text = Ok op -> encrypt_query op (wallet_keys wallet) = Ok op' ->
  can_search op' = true -> parse_search_options (Some options) = Ok opts ->
  let shown := mk_record_options (search_type opts) (search_value opts) (search_tags opts) in
  exists s records, WalletService.search_records h type_ text options sv = (Ok s, sv) /\ search_yields sv s records /\
    get_total_count s = Ok (if search_total_count opts then Some (N.of_nat (length (matches w type_ query))) else None) /\
    records ≡ₚ (if Storage.search_records opts then (fun x => wallet_record shown x.1.1 x.1.2 x.2.1 x.2.2) <$> matches w type_ query else []).
Proof.
  intros Hh Hst Hs Hr Hq Hop Hop' Hcan Hopts shown.
  destruct (search_finds (wallet_keys wallet) st w type_ text query op op' (Some options) opts Hs Hr Hq Hop Hop' Hcan Hopts)
    as (it & records & Hrun & Hcount & Hy & Hperm).
  exists (mk_wallet_search (wallet_place wallet) (wallet_keys wallet) it), records.
  split_and!; [|by exists st|exact Hcount|exact Hperm].
  unfold WalletService.search_records. rewrite bind_run. unfold gets. rewrite Hh, bind_run.
  by rewrite (at_place_read _ _ sv st _ Hst Hrun).
Qed.
End searches.

(** ** Importing *)

Section importing.
Context `{ChaCha20Poly1305} `{HmacSha256} `{HashOrder} `{KeysCodec} `{MetadataCodec} `{!ServiceCodecLaws} `{Disk}.
Context `{OptionCodecs} `{LikePattern} `{IncrementLe} `{!Sha256} `{!Sha256Length} `{ExportCodecs} `{Machine}.
Context {St Iter : Type} `{!WalletStorage St Iter} `{!WalletStorageLaws St Iter} `{!MetadataLaws St Iter}.

(** Importing records leaves the metadata alone. *)
Lemma import_loop_metadata keys fresh b fuel : forall i (s : St) r, metadata_is s b ->
  metadata_is (import_loop fuel i keys fresh (s, r)).2.1 b.
Proof.
  induction fuel as [|fuel IH]; intros i s r Hs; cbn [import_loop]; [done|]. rewrite bind_run.
  unfold on_reader at 1, within. cbn [fst snd]. destruct (map_err _map_io_err reader_read_u32 r) as [[len|e| |] r1]; try done.
  destruct (len =? 0)%N; [done|]. rewrite bind_run. unfold on_reader at 1, within. cbn [fst snd].
  destruct (map_err _map_io_err (reader_read_exact (N.to_nat len)) r1) as [[record|e| |] r2]; try done.
  rewrite bind_run. unfold lift. destruct (ok_or _ _) as [x|e| |]; try done. rewrite bind_run.
  unfold on_storage, within. cbn [fst snd]. pose proof (fun t n v tags => law_add_metadata t n v tags s b Hs) as Ha.
  unfold wallet_add. specialize (Ha (encrypt_type keys (er_type x)) (encrypt_name keys (er_id x))
    (encrypt_value keys (fresh i) (er_value x)) (encrypt_wallet_tags keys (er_tags x))).
  destruct (storage_add _ _ _ _ s) as [[[]|e| |] s']; [by apply IH|done..].
Qed.

Lemma finish_import_metadata keys fresh reader key nonce chunk_size header (s : St) b : metadata_is s b ->
  metadata_is (finish_import keys fresh reader key nonce chunk_size header s).2 b.
Proof.
  intros Hs. unfold finish_import. destruct (Reader_new _ _ _ _) as [r|e| |]; try done. rewrite bind_run.
  unfold on_reader at 1, within. cbn [fst snd]. destruct (map_err _ _ r) as [[hh|e| |] r1]; try done.
  rewrite bind_run. unfold lift. destruct (Hash.hash header) as [hash|e| |]; try done. case_decide; [|done].
  pose proof (import_loop_metadata keys fresh b (S (length (pending reader))) 0 s r1 Hs) as Hm.
  by destruct (import_loop _ _ _ _ _) as [res [s' r']].
Qed.

Lemma create_wallet_result (t : StorageType (gmap string St)) (sv : WalletService St) keys nonce config credentials key_data master_key :
  storage_types sv !! default "default"%string (config_storage_type config) = Some t ->
  config_id config <> ""%string ->
  _create_wallet keys nonce config credentials key_data master_key sv =
    match _prepare_metadata nonce master_key key_data keys with
    | Ok metadata =>
        let '(r, m) := create_storage_of t (config_id config) (storage_config config) (storage_credentials credentials)
          metadata (stores sv) in
        (r ≫= (fun _ => Ok keys), set_stores m sv)
    | Err e => (Err e, sv)
    | Panic => (Panic, sv)
    | OutOfFuel => (OutOfFuel, sv)
    end.
Proof.
  intros Ht Hid. unfold _create_wallet. rewrite decide_False by done.
  rewrite bind_run, (storage_type_run t), bind_run by done. unfold lift.
  destruct (_prepare_metadata _ _ _ _) as [metadata|e| |]; try done. rewrite bind_run. unfold on_stores, within.
  by destruct (create_storage_of _ _ _ _ _ _) as [[[]|e| |] m].
Qed.

Lemma create_wallet_fails (t : StorageType (gmap string St)) `{!StorageTypeLaws t} (sv : WalletService St) keys nonce config credentials key_data master_key :
  storage_types sv !! default "default"%string (config_storage_type config) = Some t ->
  match _create_wallet keys nonce config credentials key_data master_key sv with
  | (Ok ks, _) => ks = keys /\ config_id config <> ""%string
  | (_, sv') => stores sv' = stores sv /\ wallets sv' = wallets sv
  end.
Proof.
  intros Ht. destruct (decide (config_id config = ""%string)) as [He|He].
  { unfold _create_wallet. by rewrite decide_True. }
  rewrite (create_wallet_result t) by done. destruct (_prepare_metadata _ _ _ _) as [metadata|e| |]; try done.
  pose proof (law_not_created (config_id config) (storage_config config) (storage_credentials credentials) metadata (stores sv)) as Hn.
  destruct (create_storage_of _ _ _ _ _ _) as [[[]|e| |] m]; cbn [fst snd mbind outcome_bind] in *; try done;
    by rewrite Hn by done.
Qed.

(** An import, when the storage was created. *)
Lemma import_continue_run t `{!StorageTypeLaws t} sv keys nonce fresh h p config credentials import_key master_key sv1 :
  storage_types sv !! default "default"%string (config_storage_type config) = Some t ->
  pending_for_import sv !! h = Some p -> not_open sv (config_id config) -> config_id config <> ""%string ->
  separate (config_id config) (storage_config config) (stores sv) ->
  _create_wallet keys nonce config credentials (pi_key_data p) master_key (set_pending_import (delete h) sv) = (Ok keys, sv1) ->
  exists place s b, stores sv !! place = None /\ storage_inv s /\ storage_map s = ∅ /\ metadata_is s b /\
    sealed_with b keys master_key (pi_key_data p) /\
    (forall cred m, is_Some (m !! place) -> open_storage_of t (config_id config) (storage_config config) cred m = (Ok place, m)) /\
    import_wallet_continue keys nonce fresh h config credentials import_key master_key sv =
      let '(r, s2) := finish_import keys fresh (pi_reader p) import_key (pi_nonce p) (pi_chunk_size p) (pi_header p) s in
      (r, set_stores (match r with Err _ => stores sv | _ => <[place := s2]> (stores sv) end) (set_pending_import (delete h) sv)).
Proof.
  intros Ht Hp Hn Hid Hsep Hc. set (sv0 := set_pending_import (delete h) sv) in *.
  destruct (create_wallet_ok t sv0 _ _ _ _ _ _ _ Ht Hc) as (place & s & b & -> & Hnone & Hs & Hmap & Hb & Hseal & Hopen & Hdel).
  exists place, s, b. split_and!; try done. specialize (Hdel Hsep).
  unfold import_wallet_continue. rewrite bind_run. unfold gets at 1. rewrite Hp. rewrite bind_run. unfold lift at 1, unwrap.
  rewrite bind_run. unfold modify. fold sv0. rewrite bind_run, Hc, bind_run. set (sv1 := set_stores _ sv0).
  rewrite (id_not_used sv1) by done. assert (stores sv1 !! place = Some s) as Hs1 by apply lookup_insert_eq.
  rewrite bind_run, (open_storage_run t sv1 config credentials place) by eauto. rewrite bind_run.
  rewrite (at_place_read _ _ sv1 s (Ok b)) by (done || by apply law_get_metadata). rewrite bind_run. unfold attempt.
  destruct (finish_import _ _ _ _ _ _ _ s) as [r s2] eqn:Hf. rewrite (at_place_run _ _ sv1 s r s2) by done.
  change (set_stores (<[place := s2]> (stores sv1)) sv1) with (set_stores (<[place := s2]> (<[place := s]> (stores sv))) sv0).
  rewrite insert_insert_eq. destruct r as [[]|e| |]; try done.
  destruct Hseal as (metadata & Hmeta & Hkeys & _). rewrite bind_run. unfold lift at 1. rewrite Hmeta. cbn [ok_or].
  rewrite bind_run. unfold delete_wallet_continue. rewrite bind_run. unfold lift at 1. rewrite Hkeys.
  rewrite bind_run, (storage_type_run t) by done.
  unfold on_stores, within. change (stores (set_stores ?m sv0)) with m. by rewrite Hdel.
Qed.

Lemma import_not_created (sv : WalletService St) keys nonce fresh h p config credentials import_key master_key r sv1 :
  pending_for_import sv !! h = Some p ->
  _create_wallet keys nonce config credentials (pi_key_data p) master_key (set_pending_import (delete h) sv) = (r, sv1) ->
  match r with
  | Ok _ => True
  | Err e => import_wallet_continue keys nonce fresh h config credentials import_key master_key sv = (Err e, sv1)
  | Panic => import_wallet_continue keys nonce fresh h config credentials import_key master_key sv = (Panic, sv1)
  | OutOfFuel => import_wallet_continue keys nonce fresh h config credentials import_key master_key sv = (OutOfFuel, sv1)
  end.
Proof.
  intros Hp Hc. destruct r as [ks|e| |]; [done|..]; unfold import_wallet_continue; rewrite bind_run; unfold gets at 1; rewrite Hp;
    rewrite bind_run; unfold lift at 1, unwrap; rewrite bind_run; unfold modify; by rewrite bind_run, Hc.
Qed.
End importing.

(** ** Theorems *)

Section theorems.
Context `{ChaCha20Poly1305} `{HmacSha256} `{HashOrder} `{KeysCodec} `{MetadataCodec} `{!ServiceCodecLaws} `{Disk}.
Context `{OptionCodecs} `{LikePattern} `{IncrementLe} `{!Sha256} `{!Sha256Length} `{ExportCodecs} `{Machine}.
Context {St Iter : Type} `{!WalletStorage St Iter} `{!WalletStorageLaws St Iter} `{!MetadataLaws St Iter}.
Implicit Types (sv : WalletService St) (t : StorageType (gmap string St)).

(** C28: the records behind a handle are a map: every operation of the service on a handle
    returns what the map returns and changes the wallet of that handle as it does, and
    nothing else; a handle that is not open is refused and nothing changes. *)
Theorem service_refines_map h type_ name : is_utf8 type_ -> is_utf8 name ->
  (forall fresh v tags, is_utf8 v -> tags_utf8 tags ->
    service_refines (St:=St) h (add_record fresh h type_ name v tags) (wspec_add type_ name v tags)) /\
  (forall fresh v, is_utf8 v ->
    service_refines (St:=St) h (update_record_value fresh h type_ name v) (wspec_update type_ name v)) /\
  (forall tags, tags_utf8 tags ->
    service_refines (St:=St) h (add_record_tags h type_ name tags) (wspec_add_tags type_ name tags) /\
    service_refines (St:=St) h (update_record_tags h type_ name tags) (wspec_update_tags type_ name tags)) /\
  (forall names, service_refines (St:=St) h (delete_record_tags h type_ name names) (wspec_delete_tags type_ name names)) /\
  service_refines (St:=St) h (delete_record h type_ name) (wspec_delete type_ name) /\
  (forall options, service_refines (St:=St) h (get_record h type_ name options) (wspec_get type_ name options)) /\
  (forall A (m : Keys -> StateM IndyErrorKind St A), refuses h (with_wallet h m)).
Proof.
  intros Ht Hn. split_and!; intros; try split; try (apply with_wallet_refines; intros keys).
  - by apply wallet_add_refines.
  - by apply wallet_update_refines.
  - by apply wallet_add_tags_refines.
  - by apply wallet_update_tags_refines.
  - apply wallet_delete_tags_refines.
  - apply wallet_delete_refines.
  - apply wallet_get_refines.
  - apply with_wallet_refuses.
Qed.

(** an object that was put with [upsert_indy_object] is the one that
    [get_indy_object] then returns, whether or not there was one before. *)
Theorem upsert_then_get (T : Type) `{!IndyObject T} fresh h name (object : T) json options opts sv wallet s w :
  object_to_string object = Some json -> object_from_str json = Some object ->
  is_utf8 (type_of T) -> is_utf8 name -> is_utf8 json ->
  (exists o, parse_record_options RecordOptions_id = Ok o) ->
  parse_record_options options = Ok opts -> retrieve_value opts = true ->
  wallets sv !! h = Some wallet -> stores sv !! wallet_place wallet = Some s -> storage_inv s ->
  represents (wallet_keys wallet) (storage_map s) w -> exists sv1 sv2 s2,
    upsert_indy_object T fresh h name object sv = (Ok json, sv1) /\
    get_indy_object T h name options sv1 = (Ok object, sv2) /\
    stores sv2 = <[wallet_place wallet := s2]> (stores sv) /\
    represents (wallet_keys wallet) (storage_map s2) (spec_upsert T name object w).2.
Proof.
  intros Hto Hfrom Ht Hn Hj Hid Hopts Hv Hh Hp Hs Hr.
  destruct (upsert_refines T fresh h name object Ht Hn ltac:(by intros j; rewrite Hto; intros [= <-]) Hid sv wallet s w Hh Hp Hs Hr)
    as (s1 & He1 & Hs1 & Hr1).
  set (sv1 := set_stores (<[wallet_place wallet := s1]> (stores sv)) sv) in *.
  destruct (get_indy_object_refines T h name options sv1 wallet s1 _ Hh (lookup_insert_eq _ _ _) Hs1 Hr1) as (s2 & He2 & _ & Hr2).
  assert (spec_get_indy_object T name options (spec_upsert T name object w).2 = (Ok object, (spec_upsert T name object w).2)) as Hget.
  { unfold spec_upsert, spec_get_indy_object. rewrite Hto. cbn [snd]. rewrite bind_run, wspec_get_run, Hopts.
    unfold wspec_at. rewrite lookup_insert_eq, insert_insert_eq. rewrite bind_run. unfold lift, wallet_record. rewrite Hv.
    cbn [wr_value ok_or fst]. by rewrite Hfrom. }
  rewrite Hget in He2, Hr2. unfold spec_upsert in He1. rewrite Hto in He1. cbn [fst snd] in He1, He2, Hr2.
  eexists sv1, _, s2. split_and!; [exact He1|exact He2| |exact Hr2]. cbn. by rewrite insert_insert_eq.
Qed.

(** after [create_wallet] a service on the same storages opens the wallet with the
    same passphrase and key: the handle has the keys that were generated, the wallet is
    empty, and no other storage was touched. *)
Theorem created_wallet_opens t `{!StorageTypeLaws t} sv keys nonce config credentials key_data master_key sv1 :
  storage_types sv !! default "default"%string (config_storage_type config) = Some t ->
  create_wallet keys nonce config credentials key_data master_key sv = (Ok tt, sv1) ->
  exists place s, stores sv !! place = None /\ stores sv1 = <[place := s]> (stores sv) /\
    represents keys (storage_map s) ∅ /\ opens sv1 config place master_key key_data keys.
Proof.
  intros Ht Hc. destruct (create_wallet_kept t _ _ _ _ _ _ _ _ Ht Hc) as (Hid & place & s & Hn & -> & Hk).
  exists place, s. split_and!; [done..| |by eapply kept_opens].
  destruct (kept_stored _ _ _ _ _ _ _ Hk) as (s' & b & Hs & _ & _ & _ & Hr). cbn in Hs. rewrite lookup_insert_eq in Hs.
  by injection Hs as <-.
Qed.

(** opening a wallet with a new passphrase succeeds with the old key, and from then
    on the new passphrase and key open it, with the same keys and the same records. *)
Theorem rekeyed_wallet_opens sv config place master_key key_data keys w credentials salt new_passphrase nonce new_key b :
  config_id config <> ""%string -> kept sv config place master_key key_data keys w -> asks_for credentials key_data ->
  rekey credentials = Some new_passphrase -> not_open sv (config_id config) -> (ids sv + 1 < usize_modulus)%N ->
  let new_data := from_passphrase_with_new_salt salt new_passphrase (rekey_derivation_method credentials) in
  _prepare_metadata nonce new_key new_data keys = Ok b ->
  exists h sv1 sv2, open_wallet_prepare salt config credentials sv = (Ok (h, key_data, Some new_data), sv1) /\
    open_wallet_continue nonce h master_key (Some new_key) sv1 = (Ok h, sv2) /\
    wallets sv2 !! h = Some (mk_wallet (config_id config) place keys) /\
    kept sv2 config place new_key new_data keys w /\ opens sv2 config place new_key new_data keys.
Proof.
  intros Hid Hk Ha Hrk Hn Hids new_data Hb.
  destruct (open_prepare_ok sv config place master_key key_data keys w credentials salt Hk Ha Hid Hn Hids) as (metadata & Hkeys & Hrun).
  rewrite Hrk in Hrun. cbn [fmap option_fmap option_map] in Hrun. fold new_data in Hrun.
  set (h := as_i32 (ids sv + 1)) in *. set (sv1 := set_pending_open _ _) in Hrun.
  assert (kept sv1 config place master_key key_data keys w) as Hk1 by (destruct Hk; by constructor).
  destruct (rekey_kept sv1 _ _ _ _ _ _ h metadata nonce new_key new_data b Hk1 Hkeys (lookup_insert_eq _ _ _) Hb)
    as (sv2 & Hcont & Hw & Hk2).
  exists h, sv1, sv2. split_and!; [done..| |done|by eapply kept_opens]. rewrite Hw. apply lookup_insert_eq.
Qed.

(** an import that fails leaves the storages as they were, and one that succeeds adds
    one storage, which the passphrase of the credentials opens. *)
Theorem import_all_or_nothing t `{!StorageTypeLaws t} sv keys nonce fresh h p config credentials import_key master_key :
  storage_types sv !! default "default"%string (config_storage_type config) = Some t ->
  pending_for_import sv !! h = Some p -> not_open sv (config_id config) ->
  separate (config_id config) (storage_config config) (stores sv) ->
  let '(r, sv') := import_wallet_continue keys nonce fresh h config credentials import_key master_key sv in
  wallets sv' = wallets sv /\
  match r with
  | Ok _ => exists place s b, stores sv !! place = None /\ stores sv' = <[place := s]> (stores sv) /\
      metadata_is s b /\ sealed_with b keys master_key (pi_key_data p)
  | Err _ => stores sv' = stores sv
  | _ => True
  end.
Proof.
  intros Ht Hp Hn Hsep. pose proof (create_wallet_fails t (set_pending_import (delete h) sv) keys nonce config credentials
    (pi_key_data p) master_key Ht) as Hc.
  destruct (_create_wallet _ _ _ _ _ _ _) as [r sv1] eqn:Hcreate.
  pose proof (import_not_created sv keys nonce fresh h p config credentials import_key master_key r sv1 Hp) as Hfail.
  destruct r as [ks|e| |].
  - destruct Hc as [-> Hid].
    destruct (import_continue_run t sv keys nonce fresh h p config credentials import_key master_key sv1 Ht Hp Hn Hid Hsep Hcreate)
      as (place & s & b & Hnone & Hs & Hmap & Hb & Hseal & Hopen & ->).
    pose proof (finish_import_metadata keys fresh (pi_reader p) import_key (pi_nonce p) (pi_chunk_size p) (pi_header p) s b Hb) as Hb'.
    destruct (finish_import _ _ _ _ _ _ _ s) as [[[]|e| |] s2]; (split; [done|]); [|done..]. by exists place, s2, b.
  - destruct Hc as [Hs Hw]. by rewrite (Hfail Hcreate), Hs, Hw.
  - destruct Hc as [Hs Hw]. by rewrite (Hfail Hcreate), Hw.
  - destruct Hc as [Hs Hw]. by rewrite (Hfail Hcreate), Hw.
Qed.

(** C27: a wallet that was exported and then imported under another name, with other keys,
    another passphrase or another type of storage, is a wallet with the same records,
    which the new passphrase opens; the old wallet is as it was. *)
Theorem backup_restores t `{!StorageTypeLaws t} sv h wallet s w fuel nonce now export_config key_data key
    salt read_plan config credentials import_config keys nonce' fresh master_key metadata m :
  let new_data := from_passphrase_with_new_salt salt (cred_key credentials) (key_derivation_method credentials) in
  (* the wallet that is exported *)
  wallets sv !! h = Some wallet -> stores sv !! wallet_place wallet = Some s -> storage_inv s ->
  represents (wallet_keys wallet) (storage_map s) w -> size w <= fuel ->
  Forall (fun x => frameable (record_to_vec (record_of x))) (map_to_list w) ->
  frameable (export_header nonce now 0 key_data) ->
  (* the file *)
  dir_ok (export_path export_config) = true -> files sv !! export_path export_config = None ->
  free_space (export_path export_config) = None -> openssl_total ->
  export_path import_config = export_path export_config -> export_key import_config = passphrase_of key_data ->
  plan_ok (mk_source [] read_plan) ->
  (* the wallet that is made *)
  storage_types sv !! default "default"%string (config_storage_type config) = Some t -> config_id config <> ""%string ->
  not_open sv (config_id config) -> separate (config_id config) (storage_config config) (stores sv) ->
  (ids sv + 1 < usize_modulus)%N -> _prepare_metadata nonce' master_key new_data keys = Ok metadata ->
  create_storage_of t (config_id config) (storage_config config) (storage_credentials credentials) metadata (stores sv) =
    (Ok tt, m) ->
  exists sv1 sv2 sv3 h' place,
    export_wallet fuel nonce now h export_config 0 key_data key sv = (Ok tt, sv1) /\
    import_wallet_prepare salt read_plan config credentials import_config sv1 = (Ok (h', new_data, key_data), sv2) /\
    import_wallet_continue keys nonce' fresh h' config credentials key master_key sv2 = (Ok tt, sv3) /\
    kept sv3 config place master_key new_data keys w /\ opens sv3 config place master_key new_data keys /\
    stores sv !! place = None /\ stores sv3 !! wallet_place wallet = Some s.
Proof.
  intros new_data Hh Hplace Hs Hr Hsize Hrec Hhead Hdir Hfile Hspace Hssl Hpath Hpass Hplan Ht Hid Hn Hsep Hids Hmeta Hcreate.
  destruct (export_writes fuel nonce now (wallet_keys wallet) 0 key key_data s w Hssl Hs Hr Hsize) as (file & l & Hexp & Hl & Hfmt).
  set (sv1 := set_files (<[export_path export_config := mk_file file None]>) sv).
  assert (export_wallet fuel nonce now h export_config 0 key_data key sv = (Ok tt, sv1)) as Hrun1.
  { unfold export_wallet. change (0 =? 0)%N with true. cbv iota. rewrite bind_run. unfold gets at 1. rewrite bind_run.
    unfold lift. rewrite Hh. cbn [ok_or]. rewrite Hdir, bind_run. unfold gets. rewrite Hfile, Hplace, Hspace, Hexp.
    rewrite insert_id by done. by destruct sv. }
  pose proof (items_ok (wallet_keys wallet) _ w l Hr Hl Hrec) as Hok.
  assert (plan_ok (mk_source file read_plan)) as Hplan' by done.
  pose proof (fun s' => import_exported file nonce now keys key key_data fresh read_plan l s' w Hssl Hfmt Hl Hhead Hok) as Himp.
  destruct (law_create _ _ _ _ _ _ Hcreate) as (_ & s0 & _ & _ & Hs0 & Hmap0 & _).
  destruct (Himp s0 Hs0 (empty_represents _ _ Hmap0) Hplan') as (reader & header & _ & Hpre & _).
  set (h' := as_i32 (ids sv + 1)). set (p := mk_pending_import reader nonce CHUNK_SIZE header new_data).
  set (sv2 := set_pending_import (<[h' := p]>) (set_ids (ids sv + 1)%N sv1)).
  assert (import_wallet_prepare salt read_plan config credentials import_config sv1 = (Ok (h', new_data, key_data), sv2)) as Hrun2.
  { unfold import_wallet_prepare. rewrite bind_run. unfold gets at 1. rewrite Hpath, bind_run. cbn [files sv1 set_files].
    rewrite lookup_insert_eq. unfold lift at 1. cbn [ok_or]. rewrite bind_run, Hpass. cbn [contents]. rewrite Hpre.
    unfold lift at 1. rewrite bind_run. unfold next_handle. cbn [ids sv1 set_files]. rewrite usize_add_ok by done.
    cbn [mbind outcome_bind]. by rewrite N.mod_small by done. }
  assert (_create_wallet keys nonce' config credentials new_data master_key (set_pending_import (delete h') sv2) =
    (Ok keys, set_stores m (set_pending_import (delete h') sv2))) as Hc.
  { rewrite (create_wallet_result t) by done. rewrite Hmeta. cbn [stores set_pending_import sv2 set_ids sv1 set_files].
    by rewrite Hcreate. }
  destruct (import_continue_run t sv2 keys nonce' fresh h' p config credentials key master_key _ Ht (lookup_insert_eq _ _ _)
    Hn Hid Hsep Hc) as (place & s1 & b & Hnone & Hs1 & Hmap1 & Hb & Hseal & Hopen & Hrun3).
  destruct (Himp s1 Hs1 (empty_represents _ _ Hmap1) Hplan') as (reader' & header' & s2 & Hpre' & Hfin & Hs2 & Hr2).
  rewrite Hpre in Hpre'. injection Hpre' as <- <-.
  pose proof (finish_import_metadata keys fresh reader key nonce CHUNK_SIZE header s1 b Hb) as Hb2.
  cbn [pi_reader pi_nonce pi_chunk_size pi_header p] in Hrun3. rewrite Hfin in Hrun3, Hb2.
  cbn [stores set_pending_import sv2 set_ids sv1 set_files] in Hnone, Hrun3.
  assert (kept (set_stores (<[place := s2]> (stores sv)) (set_pending_import (delete h') sv2)) config place master_key
    new_data keys w) as Hk.
  { constructor; [by exists t|]. exists s2, b. split_and!; try done. apply lookup_insert_eq. }
  eexists sv1, sv2, _, h', place. split_and!; [exact Hrun1|exact Hrun2|exact Hrun3|exact Hk|by eapply kept_opens|done|].
  cbn. rewrite lookup_insert_ne; [done|]. intros ->. congruence.
Qed.

(** Two handles are different until the counter wraps. *)
Lemma as_i32_next n : (n + 2 < 2 ^ 32)%N -> as_i32 (n + 1) <> as_i32 (n + 2).
Proof. intros Hn. unfold as_i32. rewrite !N.mod_small by lia. repeat case_match; lia. Qed.

(** whether a wallet is open is checked when its opening is prepared, and only the
    wallets that are open already count: two openings of one wallet that are prepared
    before either continues both succeed, and two handles share the storage. *)
Theorem opened_twice sv config place master_key key_data keys w credentials salt nonce :
  config_id config <> ""%string -> kept sv config place master_key key_data keys w -> asks_for credentials key_data ->
  rekey credentials = None -> not_open sv (config_id config) -> (ids sv + 2 < 2 ^ 32)%N ->
  exists h1 h2 sv', (
    '(h1, _, _) ← open_wallet_prepare salt config credentials;
    '(h2, _, _) ← open_wallet_prepare salt config credentials;
    h1 ← open_wallet_continue nonce h1 master_key None;
    h2 ← open_wallet_continue nonce h2 master_key None;
    mret (h1, h2)) sv = (Ok (h1, h2), sv') /\ h1 <> h2 /\
    wallets sv' !! h1 = Some (mk_wallet (config_id config) place keys) /\
    wallets sv' !! h2 = Some (mk_wallet (config_id config) place keys).
Proof.
  intros Hid Hk Ha Hrk Hn Hids.
  assert ((2 ^ 32 <= usize_modulus)%N) as Hm by (unfold usize_modulus; by destruct usize_bits_cases as [-> | ->]).
  destruct (open_prepare_ok sv config place master_key key_data keys w credentials salt Hk Ha Hid Hn ltac:(lia))
    as (metadata & Hkeys & Hrun). rewrite Hrk in Hrun. cbn [fmap option_fmap option_map] in Hrun.
  set (h1 := as_i32 (ids sv + 1)) in *. set (sv1 := set_pending_open _ _) in Hrun.
  assert (kept sv1 config place master_key key_data keys w) as Hk1 by (destruct Hk; by constructor).
  assert (ids sv1 + 1 = ids sv + 2)%N as Hids1 by (cbn; lia).
  destruct (open_prepare_ok sv1 config place master_key key_data keys w credentials salt Hk1 Ha Hid Hn ltac:(rewrite Hids1; lia))
    as (metadata2 & Hkeys2 & Hrun2). rewrite Hrk, Hids1 in Hrun2. cbn [fmap option_fmap option_map] in Hrun2.
  pose proof (as_i32_next _ Hids) as Hne. set (h2 := as_i32 (ids sv + 2)) in *. set (sv2 := set_pending_open _ _) in Hrun2.
  assert (pending_for_open sv2 !! h1 = Some (mk_pending_open (config_id config) place metadata None)) as Hp1
    by (subst sv2 sv1; cbn; by rewrite lookup_insert_ne, lookup_insert_eq by done).
  pose proof (open_continue_ok nonce sv2 h1 _ _ _ _ _ _ Hp1 Hkeys) as Hc1. set (sv3 := set_wallets _ _) in Hc1.
  assert (pending_for_open sv3 !! h2 = Some (mk_pending_open (config_id config) place metadata2 None)) as Hp2
    by (subst sv3 sv2; cbn; by rewrite lookup_delete_ne, lookup_insert_eq by done).
  pose proof (open_continue_ok nonce sv3 h2 _ _ _ _ _ _ Hp2 Hkeys2) as Hc2.
  eexists h1, h2, _. split; [|split; [exact Hne|]].
  - by rewrite bind_run, Hrun, bind_run, Hrun2, bind_run, Hc1, bind_run, Hc2.
  - subst sv3 sv2 sv1. cbn. split; [|apply lookup_insert_eq]. rewrite lookup_insert_ne, lookup_insert_eq by done. done.
Qed.

(** An import creates the storage before it checks that no wallet of this name is open:
    one that fails there leaves the empty storage behind. *)
Theorem import_leaves_storage t `{!StorageTypeLaws t} sv keys nonce fresh h p config credentials import_key master_key h' wallet metadata m :
  storage_types sv !! default "default"%string (config_storage_type config) = Some t ->
  pending_for_import sv !! h = Some p -> config_id config <> ""%string ->
  wallets sv !! h' = Some wallet -> wallet_id wallet = config_id config ->
  _prepare_metadata nonce master_key (pi_key_data p) keys = Ok metadata ->
  create_storage_of t (config_id config) (storage_config config) (storage_credentials credentials) metadata (stores sv) =
    (Ok tt, m) ->
  exists place s sv', import_wallet_continue keys nonce fresh h config credentials import_key master_key sv =
      (Err WalletAlreadyOpened, sv') /\
    stores sv !! place = None /\ stores sv' = <[place := s]> (stores sv) /\ storage_map s = ∅.
Proof.
  intros Ht Hp Hid Hw He Hmeta Hcreate.
  pose proof (create_wallet_result t (set_pending_import (delete h) sv) keys nonce config credentials (pi_key_data p) master_key Ht Hid) as Hc.
  rewrite Hmeta in Hc. change (stores (set_pending_import (delete h) sv)) with (stores sv) in Hc.
  rewrite Hcreate in Hc. cbn [mbind outcome_bind] in Hc.
  destruct (law_create _ _ _ _ _ _ Hcreate) as (place & s & Hnone & -> & _ & Hmap & _).
  eexists place, s, _. split_and!; [|done| |done].
  - unfold import_wallet_continue. rewrite bind_run. unfold gets at 1. rewrite Hp. rewrite bind_run. unfold lift at 1, unwrap.
    rewrite bind_run. unfold modify. rewrite bind_run, Hc, bind_run. unfold _is_id_from_config_not_used.
    rewrite decide_False by done. rewrite bind_run. unfold gets. cbn [wallets set_stores set_pending_import].
    assert (existsb (fun kv => String.eqb (wallet_id kv.2) (config_id config)) (map_to_list (wallets sv)) = true) as ->.
    { apply existsb_exists. exists (h', wallet). split; [by apply list_elem_of_In, elem_of_map_to_list|].
      by apply String.eqb_eq. }
    reflexivity.
  - done.
Qed.
End theorems.

(** ** The default storage implements the interface *)

Section default_storage.
Context `{Sqlite} `{OptionCodecs} `{Machine} `{LikePattern} `{SqlitePaths} (Hfk : foreign_keys = true).
Local Instance default_laws : WalletStorageLaws Database SQLiteStorageIterator := SQLiteStorageLaws Hfk.

Definition SQLiteStorageType : StorageType Files := {|
  create_storage_of := fun id config _ metadata => create_storage id config metadata;
  open_storage_of := fun id config _ => open_storage id config;
  delete_storage_of := fun id config _ => delete_storage id config;
|}.

(** No statement of an addition touches the metadata. *)
Lemma insert_statement_metadata id tag db : metadata (insert_statement id tag db).2 = metadata db.
Proof. unfold insert_statement. by repeat case_match. Qed.

Lemma insert_tags_metadata id tags : forall db,
  metadata (forM (fun tag => sql (insert_statement id tag)) tags db).2 = metadata db.
Proof.
  induction tags as [|tag tags IH]; intros db; [done|]. cbn [forM]. rewrite bind_run. unfold sql at 1.
  pose proof (insert_statement_metadata id tag db) as Hm.
  destruct (insert_statement id tag db) as [[[]|e| |] db']; cbn [fst snd] in *; [by rewrite IH|done..].
Qed.

Lemma add_metadata t n v tags db : metadata (sqlite_add t n v tags db).2 = metadata db.
Proof.
  unfold sqlite_add, transaction. rewrite bind_run. unfold sql at 1, insert_item. destruct (existsb _ _); [done|].
  pose proof (insert_tags_metadata (next_rowid (items db)) tags (set_items (fun l => l ++ [mk_item (next_rowid (items db)) t n (ev_data v) (ev_key v)]) db)) as Hm.
  by destruct (forM _ _ _) as [[[]|e| |] db'].
Qed.

Definition sqlite_metadata_is (db : Database) (b : bytes) : Prop := exists rest, metadata db = b :: rest.

#[export] Program Instance SQLiteMetadata : MetadataLaws Database SQLiteStorageIterator := {|
  metadata_is := sqlite_metadata_is;
|}.
Next Obligation. intros s b [rest Hb]. cbn. unfold sqlite_get_storage_metadata. by rewrite Hb. Qed.
Next Obligation.
  intros s b b' Hs [rest Hb]. eexists. split; [reflexivity|]. split_and!.
  - destruct Hs. by constructor.
  - done.
  - unfold sqlite_metadata_is. cbn. rewrite Hb. by eexists.
Qed.
Next Obligation. intros t n v tags s b [rest Hb]. exists rest. cbn. by rewrite add_metadata. Qed.

(** A database is in its own directory, and no other one is in there. *)
Definition sqlite_separate (id : string) (config : option string) (files : Files) : Prop :=
  match parse_config config with
  | Ok c => inside (parent (_db_path id c)) (_db_path id c) = true /\
      map_Forall (fun path _ => inside (parent (_db_path id c)) path = false) files
  | _ => True
  end.

#[export] Program Instance SQLiteTypeLaws : StorageTypeLaws SQLiteStorageType := {|
  separate := sqlite_separate;
|}.
Next Obligation.
  intros id config cred metadata m m'. cbn. unfold create_storage. rewrite bind_run. unfold lift.
  destruct (parse_config config) as [c|e| |] eqn:Hc; try done. rewrite bind_run. unfold gets. case_decide as Hd; [done|].
  intros [= <-]. exists (_db_path id c), (mk_database [] [] [] [metadata]). split_and!.
  - by apply eq_None_not_Some.
  - done.
  - constructor; constructor.
  - done.
  - by exists [].
  - intros _ m2 Hm2. unfold open_storage. rewrite bind_run. unfold lift. rewrite Hc, bind_run. unfold gets.
    by rewrite decide_True by done.
  - unfold sqlite_separate. rewrite Hc. intros [Hin Hout] s2. unfold delete_storage. rewrite bind_run. unfold lift.
    rewrite Hc, bind_run. unfold gets. rewrite decide_True by (rewrite lookup_insert_eq; eauto). unfold modify. f_equal.
    rewrite map_filter_insert_False by (cbn; congruence). rewrite delete_id by (by apply eq_None_not_Some).
    apply map_filter_id. intros i x Hx. exact (Hout i x Hx).
Qed.
Next Obligation.
  intros id config cred metadata m. cbn. unfold create_storage. rewrite bind_run. unfold lift.
  destruct (parse_config config) as [c|e| |]; try done. rewrite bind_run. unfold gets. by case_decide.
Qed.
End default_storage.

(** ** Witnesses

    Wallets in the default storage. *)

Definition metadata_parts (m : Metadata) : bytes + bytes * bytes :=
  match m with MetadataRaw keys => inl keys | MetadataArgon keys salt => inr (keys, salt) end.
Definition metadata_of_parts (x : bytes + bytes * bytes) : Metadata :=
  match x with inl keys => MetadataRaw keys | inr (keys, salt) => MetadataArgon keys salt end.

#[local] Instance ToyMetadata : MetadataCodec := {|
  metadata_to_vec := fun m => Some (bits_of (encode (metadata_parts m)));
  metadata_from_slice := fun b => option_map metadata_of_parts (of_bits b ≫= decode);
|}.

#[local] Instance array_u8_countable {n} : Countable (array_u8 n) := inj_countable arr_bytes from_slice from_slice_arr.

Definition keys_parts (k : Keys) :=
  (type_key k, name_key k, value_key k, item_hmac_key k, tag_name_key k, tag_value_key k, tags_hmac_key k).

#[local] Instance ToyKeysCodec : KeysCodec := {|
  keys_to_vec := fun k => Some (bits_of (encode (keys_parts k)));
  keys_from_slice := fun b => option_map (fun x : Key * Key * Key * HmacKey * Key * Key * HmacKey =>
      mk_keys x.1.1.1.1.1.1 x.1.1.1.1.1.2 x.1.1.1.1.2 x.1.1.1.2 x.1.1.2 x.1.2 x.2) (of_bits b ≫= decode);
|}.

#[local] Program Instance ToyServiceCodecs : ServiceCodecLaws.
Next Obligation. intros [] b [= <-]. cbn -[encode decode]. rewrite of_bits_of. cbn -[encode decode]. by rewrite decode_encode. Qed.
Next Obligation.
  intros m b [= <-]. cbn -[encode decode]. rewrite of_bits_of. cbn -[encode decode]. rewrite decode_encode. by destruct m.
Qed.

#[local] Instance ToyDisk : Disk := {| dir_ok := fun _ => true; free_space := fun _ => None |}.

#[local] Instance ToyPaths : SqlitePaths := {|
  config_from_str := fun s => Some (Some s);
  wallet_home_path := "home";
  push_path := fun path x => (path +:+ "/" +:+ x)%string;
  parent := fun path => String.substring 0 (String.length path - 10) path;
  inside := fun dir path => String.prefix (dir +:+ "/")%string path;
|}.

#[local] Instance ToyObject : IndyObject string :=
  {| short_type_name := "Did"; object_to_string := Some; object_from_str := Some |}.

#[local] Existing Instances LengthCipher ToyIncrement ToyHmac key_order toy_options ToyLike debug_machine ToySha.sha
  ToySha.sha_length ToyCodecs.
#[local] Instance toy_sqlite_on : Sqlite := toy_sqlite true.
#[local] Instance toy_laws : WalletStorageLaws Database SQLiteStorageIterator := SQLiteStorageLaws eq_refl.
#[local] Instance toy_metadata_laws : MetadataLaws Database SQLiteStorageIterator := SQLiteMetadata eq_refl.
#[local] Instance toy_type_laws : StorageTypeLaws SQLiteStorageType := SQLiteTypeLaws eq_refl.

Definition toy_config (id : string) : Config := mk_config id None None.
Definition toy_credentials (new : option string) : Credentials := mk_credentials "pass" new None RAW RAW.
Definition toy_salt : Salt := pad _ [Byte.x08].

(** A service where a wallet is open. *)
Definition toy_service : WalletService Database :=
  mk_service {["default"%string := SQLiteStorageType]} {[7%Z := mk_wallet "first" "home/first/sqlite.db" toy_keys]} ∅ ∅
    {["home/first/sqlite.db"%string := exported_wallet]} ∅ 7.

(** The same service when a second wallet was created. *)
Definition toy_created : WalletService Database :=
  (create_wallet other_keys (toy_nonce Byte.x01) (toy_config "second") (toy_credentials None) (Raw "pass") (toy_key Byte.x31)
    toy_service).2.

Lemma toy_created_run :
  create_wallet other_keys (toy_nonce Byte.x01) (toy_config "second") (toy_credentials None) (Raw "pass") (toy_key Byte.x31)
    toy_service = (Ok tt, toy_created).
Proof. reflexivity. Qed.

Lemma toy_created_kept : exists place, kept toy_created (toy_config "second") place (toy_key Byte.x31) (Raw "pass") other_keys ∅.
Proof.
  destruct (create_wallet_kept SQLiteStorageType toy_service _ _ (toy_config "second") _ _ _ _ eq_refl toy_created_run) as (_ & place & s & _ & _ & Hk).
  by exists place.
Qed.

Lemma toy_not_open id : id <> "first"%string -> not_open toy_created id /\ not_open toy_service id.
Proof.
  intros Hid. split; intros h wallet; cbn [wallets toy_created toy_service];
    change (wallets toy_created) with (wallets toy_service); cbn [wallets toy_service];
    intros [<- <-]%lookup_singleton_Some; exact (fun He => Hid (eq_sym He)).
Qed.

Lemma service_refines_map_witness :
  service_refines (St:=Database) 7 (get_record 7 "t" "n" "all") (wspec_get "t" "n" "all") /\
  (get_record 7 "t" "n" "all" toy_service).1 = (wspec_get "t" "n" "all" exported_map).1.
Proof.
  split; [|by vm_compute].
  refine (proj1 (proj2 (proj2 (proj2 (proj2 (proj2 (service_refines_map 7 "t" "n" _ _)))))) "all"%string); done.
Defined.

Lemma upsert_then_get_witness : exists sv1 sv2 s2,
  upsert_indy_object string toy_fresh 7 "n" "document" toy_service = (Ok "document"%string, sv1) /\
  get_indy_object string 7 "n" "all" sv1 = (Ok "document"%string, sv2) /\
  stores sv2 = <["home/first/sqlite.db"%string := s2]> (stores toy_service) /\
  represents toy_keys (storage_map s2) (spec_upsert string "n" "document" exported_map).2.
Proof.
  refine (upsert_then_get string toy_fresh 7 "n" "document" "document" "all" (mk_record_options true true true)
    toy_service _ exported_wallet exported_map eq_refl eq_refl _ _ _ _ eq_refl eq_refl eq_refl eq_refl
    (proj1 exported_wallet_ok) (proj2 exported_wallet_ok)); [done..|by eexists].
Defined.

Lemma created_wallet_opens_witness : exists place s,
  stores toy_service !! place = None /\ stores toy_created = <[place := s]> (stores toy_service) /\
  represents other_keys (storage_map s) ∅ /\
  opens toy_created (toy_config "second") place (toy_key Byte.x31) (Raw "pass") other_keys.
Proof. refine (created_wallet_opens SQLiteStorageType toy_service _ _ (toy_config "second") _ _ _ _ eq_refl toy_created_run). Defined.

Lemma rekeyed_wallet_opens_witness : exists place h sv1 sv2,
  open_wallet_prepare toy_salt (toy_config "second") (toy_credentials (Some "new"%string)) toy_created =
    (Ok (h, Raw "pass", Some (Raw "new")), sv1) /\
  open_wallet_continue (toy_nonce Byte.x02) h (toy_key Byte.x31) (Some (toy_key Byte.x32)) sv1 = (Ok h, sv2) /\
  wallets sv2 !! h = Some (mk_wallet "second" place other_keys) /\
  kept sv2 (toy_config "second") place (toy_key Byte.x32) (Raw "new") other_keys ∅ /\
  opens sv2 (toy_config "second") place (toy_key Byte.x32) (Raw "new") other_keys.
Proof.
  destruct toy_created_kept as [place Hk]. exists place.
  refine (rekeyed_wallet_opens toy_created (toy_config "second") place (toy_key Byte.x31) (Raw "pass") other_keys ∅
    (toy_credentials (Some "new"%string)) toy_salt "new" (toy_nonce Byte.x02) (toy_key Byte.x32) _ _ Hk _ eq_refl _ _ _);
    [done|by split|by apply toy_not_open|by vm_compute|reflexivity].
Defined.

(** A service that is about to import a file that is too short. *)
Definition toy_pending : PendingImport :=
  mk_pending_import (mk_source [] []) (toy_nonce Byte.x05) CHUNK_SIZE [] (Raw "pass").
Definition toy_importing : WalletService Database := set_pending_import <[3%Z := toy_pending]> toy_service.

Lemma import_all_or_nothing_witness :
  let '(r, sv') := import_wallet_continue other_keys (toy_nonce Byte.x01) (fun _ => toy_fresh) 3 (toy_config "second")
    (toy_credentials None) (toy_key Byte.x06) (toy_key Byte.x31) toy_importing in
  wallets sv' = wallets toy_importing /\
  match r with
  | Ok _ => exists place s b, stores toy_importing !! place = None /\ stores sv' = <[place := s]> (stores toy_importing) /\
      metadata_is s b /\ sealed_with b other_keys (toy_key Byte.x31) (pi_key_data toy_pending)
  | Err _ => stores sv' = stores toy_importing
  | _ => True
  end.
Proof.
  pose proof (import_all_or_nothing SQLiteStorageType toy_importing other_keys (toy_nonce Byte.x01) (fun _ => toy_fresh) 3
    toy_pending (toy_config "second") (toy_credentials None) (toy_key Byte.x06) (toy_key Byte.x31) eq_refl eq_refl
    (proj2 (toy_not_open "second" ltac:(done)))) as Himp.
  apply Himp. split; [reflexivity|]. apply map_Forall_singleton. reflexivity.
Defined.

Definition toy_export_config : ExportConfig := mk_export_config "p" "backup" RAW.

Definition restored_metadata : bytes :=
  match _prepare_metadata (toy_nonce Byte.x01) (toy_key Byte.x31) (Raw "pass") other_keys with Ok b => b | _ => [] end.

Lemma backup_restores_witness : exists sv1 sv2 sv3 h' place,
  export_wallet 1 (toy_nonce Byte.x05) 7 7 toy_export_config 0 (Raw "p") (toy_key Byte.x06) toy_service = (Ok tt, sv1) /\
  import_wallet_prepare toy_salt [] (toy_config "second") (toy_credentials None) toy_export_config sv1 =
    (Ok (h', Raw "pass", Raw "p"), sv2) /\
  import_wallet_continue other_keys (toy_nonce Byte.x01) (fun _ => toy_fresh) h' (toy_config "second") (toy_credentials None)
    (toy_key Byte.x06) (toy_key Byte.x31) sv2 = (Ok tt, sv3) /\
  kept sv3 (toy_config "second") place (toy_key Byte.x31) (Raw "pass") other_keys exported_map /\
  opens sv3 (toy_config "second") place (toy_key Byte.x31) (Raw "pass") other_keys /\
  stores toy_service !! place = None /\ stores sv3 !! "home/first/sqlite.db"%string = Some exported_wallet.
Proof.
  refine (backup_restores SQLiteStorageType toy_service 7 (mk_wallet "first" "home/first/sqlite.db" toy_keys) exported_wallet
    exported_map 1 (toy_nonce Byte.x05) 7 toy_export_config (Raw "p") (toy_key Byte.x06) toy_salt [] (toy_config "second")
    (toy_credentials None) toy_export_config other_keys (toy_nonce Byte.x01) (fun _ => toy_fresh) (toy_key Byte.x31)
    restored_metadata (create_storage "second" None restored_metadata (stores toy_service)).2
    eq_refl eq_refl (proj1 exported_wallet_ok) (proj2 exported_wallet_ok) _ exported_frameable header_frameable
    eq_refl eq_refl eq_refl ToySha.sha_total eq_refl eq_refl _ eq_refl _ _ _ _ _ _).
  - apply Nat.leb_le. vm_compute. reflexivity.
  - constructor.
  - done.
  - by apply toy_not_open.
  - split; [reflexivity|]. apply map_Forall_singleton. reflexivity.
  - by vm_compute.
  - vm_compute. reflexivity.
  - reflexivity.
Defined.

Lemma opened_twice_witness : exists place h1 h2 sv', (
    '(h1, _, _) ← open_wallet_prepare toy_salt (toy_config "second") (toy_credentials None);
    '(h2, _, _) ← open_wallet_prepare toy_salt (toy_config "second") (toy_credentials None);
    h1 ← open_wallet_continue (toy_nonce Byte.x02) h1 (toy_key Byte.x31) None;
    h2 ← open_wallet_continue (toy_nonce Byte.x02) h2 (toy_key Byte.x31) None;
    mret (h1, h2)) toy_created = (Ok (h1, h2), sv') /\ h1 <> h2 /\
    wallets sv' !! h1 = Some (mk_wallet "second" place other_keys) /\
    wallets sv' !! h2 = Some (mk_wallet "second" place other_keys).
Proof.
  destruct toy_created_kept as [place Hk]. exists place.
  refine (opened_twice toy_created (toy_config "second") place (toy_key Byte.x31) (Raw "pass") other_keys ∅
    (toy_credentials None) toy_salt (toy_nonce Byte.x02) _ Hk _ eq_refl _ _); [done|by split|by apply toy_not_open|by vm_compute].
Defined.
