(* ===== verification/IndyWallet.v ===== *)
(** * IndyWallet: objects in a wallet, as an interface

    The commands of the issuer use few operations of the wallet service, on records and on
    objects that are kept as records ([services/wallet/mod.rs]).  [IndyWallet] has those
    operations; [service_wallet] is the wallet service, and [map_wallet] the map of the
    records behind one handle.  A command that is written against the interface does to
    the service what it does to the map ([wallet_simulates]), so its theorems are about the
    map. *)

From stdpp Require Import gmap.
From S2P Require Import Prelude Errors Json Wql PoolTypes Encryption QueryEncryption WqlToSql Storage Wallet Stream WalletService WalletServiceFacts.

Class IndyWallet (W : Type) := {
  iw_get_indy_object : forall (T : Type) `{!IndyObject T}, Z -> string -> string -> StateM IndyErrorKind W T;
  iw_add_indy_object : forall (T : Type) `{!IndyObject T}, Fresh -> Z -> string -> T -> gmap string string ->
    StateM IndyErrorKind W string;
  iw_update_indy_object : forall (T : Type) `{!IndyObject T}, Fresh -> Z -> string -> T -> StateM IndyErrorKind W string;
  iw_record_exists : forall (T : Type) `{!IndyObject T}, Z -> string -> StateM IndyErrorKind W bool;
  iw_delete_indy_record : forall (T : Type) `{!IndyObject T}, Z -> string -> StateM IndyErrorKind W unit;
  iw_add_record : Fresh -> Z -> string -> string -> string -> gmap string string -> StateM IndyErrorKind W unit;
  iw_get_record : Z -> string -> string -> string -> StateM IndyErrorKind W WalletRecord;
}.

(** What serde promises of an object, and what a name of a type is. *)
Class ObjectLaws (T : Type) `{!IndyObject T} := {
  object_utf8 : forall (object : T) json, object_to_string object = Some json -> is_utf8 json;
  object_roundtrip : forall (object : T) json, object_to_string object = Some json -> object_from_str json = Some object;
  object_type_utf8 : is_utf8 (type_of T);
}.

(** ** A wallet that is open *)

Section standing.
Context `{ChaCha20Poly1305} `{HmacSha256} `{HashOrder} `{OptionCodecs} `{LikePattern}.
Context {St Iter : Type} `{!WalletStorage St Iter} `{!WalletStorageLaws St Iter}.
Implicit Types (sv : WalletService St).

(** The wallet behind a handle is open and stands for the map [w]. *)
Definition stands_for sv (h : Z) (w : WalletMap) : Prop := exists wallet st,
  wallets sv !! h = Some wallet /\ stores sv !! wallet_place wallet = Some st /\ storage_inv st /\
  represents (wallet_keys wallet) (storage_map st) w.

Lemma refines_stands {A} h (m : StateM IndyErrorKind (WalletService St) A) spec sv w r sv' :
  service_refines h m spec -> stands_for sv h w -> m sv = (r, sv') -> (spec w).1 = r /\ stands_for sv' h (spec w).2.
Proof.
  intros Hm (wallet & st & Hh & Hst & Hs & Hr) Hrun. destruct (Hm sv wallet st w Hh Hst Hs Hr) as (st' & He & Hs' & Hr').
  rewrite Hrun in He. injection He as <- ->. split; [done|]. exists wallet, st'. split_and!; [done|apply lookup_insert_eq|done..].
Qed.

Lemma spec_get_object_reads T `{!IndyObject T} name options w : (spec_get_indy_object T name options w).2 = w.
Proof.
  unfold spec_get_indy_object. rewrite bind_run, wspec_get_run. destruct (parse_record_options options); [|done..].
  unfold wspec_at. destruct (w !! (type_of T, name)) as [x|] eqn:Hx; [|done]. rewrite insert_id by done.
  rewrite bind_run. unfold lift. by destruct (ok_or _ _).
Qed.

Lemma get_object_run T `{!IndyObject T} sv h w name options r sv' : stands_for sv h w ->
  get_indy_object T h name options sv = (r, sv') -> (spec_get_indy_object T name options w).1 = r /\ stands_for sv' h w.
Proof.
  intros Hw Hrun. destruct (refines_stands h _ _ sv w r sv' (get_indy_object_refines T h name options) Hw Hrun) as [Hr Hw'].
  by rewrite spec_get_object_reads in Hw'.
Qed.
End standing.

(** ** Instances *)

#[export] Instance service_wallet `{ChaCha20Poly1305} `{HmacSha256} `{HashOrder} `{OptionCodecs}
    {St Iter : Type} `{!WalletStorage St Iter} : IndyWallet (WalletService St) := {|
  iw_get_indy_object := fun T _ => get_indy_object T;
  iw_add_indy_object := fun T _ => add_indy_object T;
  iw_update_indy_object := fun T _ => update_indy_object T;
  iw_record_exists := fun T _ => record_exists T;
  iw_delete_indy_record := fun T _ => delete_indy_record T;
  iw_add_record := add_record;
  iw_get_record := get_record;
|}.

(** The map of the records behind the one handle that is used *)
#[export] Instance map_wallet `{OptionCodecs} : IndyWallet WalletMap := {|
  iw_get_indy_object := fun T _ _ name options => spec_get_indy_object T name options;
  iw_add_indy_object := fun T _ _ _ name object tags =>
    json ← lift (ok_or (object_to_string object) InvalidState); _ ← wspec_add (type_of T) name json tags; mret json;
  iw_update_indy_object := fun T _ _ _ name object =>
    json ← lift (ok_or (object_to_string object) InvalidState); _ ← wspec_update (type_of T) name json; mret json;
  iw_record_exists := fun T _ _ name => spec_exists T name;
  iw_delete_indy_record := fun T _ _ name => wspec_delete (type_of T) name;
  iw_add_record := fun _ _ type_ name value tags => wspec_add type_ name value tags;
  iw_get_record := fun _ type_ name options => wspec_get type_ name options;
|}.

(** ** Operations made of the others *)

Section derived.
Context {W : Type} `{!IndyWallet W} (T : Type) `{!IndyObject T}.

Definition iw_get_indy_opt_object (wallet_handle : Z) (name options_json : string) : StateM IndyErrorKind W (option T) :=
  res ← attempt (iw_get_indy_object T wallet_handle name options_json);
  match res with
  | inr object => mret (Some object)
  | inl WalletItemNotFound => mret None
  | inl err => fail err
  end.

Definition iw_upsert_indy_object (fresh : Fresh) (wallet_handle : Z) (name : string) (object : T) : StateM IndyErrorKind W string :=
  exists_ ← iw_record_exists T wallet_handle name;
  if exists_ : bool then iw_update_indy_object T fresh wallet_handle name object
  else iw_add_indy_object T fresh wallet_handle name object ∅.
End derived.

(** On the service they are its own. *)
Lemma derived_on_service `{ChaCha20Poly1305} `{HmacSha256} `{HashOrder} `{OptionCodecs}
    {St Iter : Type} `{!WalletStorage St Iter} (T : Type) `{!IndyObject T} :
  iw_get_indy_opt_object (W:=WalletService St) T = get_indy_opt_object T /\
  iw_upsert_indy_object (W:=WalletService St) T = upsert_indy_object T.
Proof. done. Qed.

(** ** Commands do to the service what they do to the map *)

Section simulation.
Context `{ChaCha20Poly1305} `{HmacSha256} `{HashOrder} `{OptionCodecs} `{LikePattern}.
Context {St Iter : Type} `{!WalletStorage St Iter} `{!WalletStorageLaws St Iter}.

Definition wallet_simulates {A} (h : Z) (m : StateM IndyErrorKind (WalletService St) A) (spec : StateM IndyErrorKind WalletMap A) : Prop :=
  forall sv w, stands_for sv h w -> (m sv).1 = (spec w).1 /\ stands_for (m sv).2 h (spec w).2.

Lemma simulates_service {A} h (m : StateM IndyErrorKind (WalletService St) A) spec : service_refines h m spec -> wallet_simulates h m spec.
Proof.
  intros Hm sv w Hw. destruct (refines_stands h m spec sv w (m sv).1 (m sv).2 Hm Hw (surjective_pairing _)) as [Hr Hw']. done.
Qed.

Lemma simulates_lift {A} h (a : IndyResult A) : wallet_simulates h (lift a) (lift a).
Proof. by intros sv w Hw. Qed.

Lemma simulates_bind {A B} h (m : StateM IndyErrorKind (WalletService St) A) (f : A -> StateM IndyErrorKind (WalletService St) B) m' f' :
  wallet_simulates h m m' -> (forall a, wallet_simulates h (f a) (f' a)) -> wallet_simulates h (m ≫= f) (m' ≫= f').
Proof.
  intros Hm Hf sv w Hw. destruct (Hm sv w Hw) as [Hr Hw']. rewrite !bind_run.
  destruct (m sv) as [r sv'], (m' w) as [r' w']; cbn [fst snd] in *; subst r'. destruct r; [by apply Hf|done..].
Qed.

Lemma simulates_get_object T `{!IndyObject T} h name options :
  wallet_simulates h (iw_get_indy_object T h name options) (iw_get_indy_object T h name options).
Proof. apply simulates_service, get_indy_object_refines. Qed.

Lemma simulates_add_object T `{!IndyObject T} `{!ObjectLaws T} fresh h name object tags : is_utf8 name -> tags_utf8 tags ->
  wallet_simulates h (iw_add_indy_object T fresh h name object tags) (iw_add_indy_object T fresh h name object tags).
Proof. intros Hn Ht. apply simulates_service, add_indy_object_refines; [apply object_type_utf8|done..|apply object_utf8]. Qed.

Lemma simulates_update_object T `{!IndyObject T} `{!ObjectLaws T} fresh h name object :
  wallet_simulates h (iw_update_indy_object T fresh h name object) (iw_update_indy_object T fresh h name object).
Proof. apply simulates_service, update_indy_object_refines, object_utf8. Qed.

Lemma simulates_exists T `{!IndyObject T} h name :
  wallet_simulates h (iw_record_exists T h name) (iw_record_exists T h name).
Proof. apply simulates_service, record_exists_refines. Qed.

Lemma simulates_delete T `{!IndyObject T} h name :
  wallet_simulates h (iw_delete_indy_record T h name) (iw_delete_indy_record T h name).
Proof. apply simulates_service, with_wallet_refines. intros. apply wallet_delete_refines. Qed.

Lemma simulates_attempt {A} h (m : StateM IndyErrorKind (WalletService St) A) m' :
  wallet_simulates h m m' -> wallet_simulates h (attempt m) (attempt m').
Proof.
  intros Hm sv w Hw. destruct (Hm sv w Hw) as [Hr Hw']. unfold attempt.
  destruct (m sv) as [r sv'], (m' w) as [r' w']; cbn [fst snd] in *; subst r'. by destruct r.
Qed.

Lemma simulates_get_opt_object T `{!IndyObject T} h name options :
  wallet_simulates h (iw_get_indy_opt_object T h name options) (iw_get_indy_opt_object T h name options).
Proof.
  apply simulates_bind; [by apply simulates_attempt, simulates_get_object|]. intros [err|object]; [|exact (simulates_lift h (Ok _))].
  destruct err; try exact (simulates_lift h (Err _)). exact (simulates_lift h (Ok _)).
Qed.

Lemma simulates_upsert_object T `{!IndyObject T} `{!ObjectLaws T} fresh h name object : is_utf8 name ->
  wallet_simulates h (iw_upsert_indy_object T fresh h name object) (iw_upsert_indy_object T fresh h name object).
Proof.
  intros Hn. apply simulates_bind; [apply simulates_exists|]. intros [|]; [apply simulates_update_object, _|].
  apply simulates_add_object; [apply _|done|]. apply map_Forall_empty.
Qed.

Lemma simulates_add_record fresh h type_ name value tags : is_utf8 type_ -> is_utf8 name -> is_utf8 value -> tags_utf8 tags ->
  wallet_simulates h (iw_add_record fresh h type_ name value tags) (iw_add_record fresh h type_ name value tags).
Proof. intros. apply simulates_service, with_wallet_refines. intros. by apply wallet_add_refines. Qed.

Lemma simulates_get_record h type_ name options :
  wallet_simulates h (iw_get_record h type_ name options) (iw_get_record h type_ name options).
Proof. apply simulates_service, with_wallet_refines. intros. apply wallet_get_refines. Qed.
End simulation.

Create HintDb follow.
#[export] Hint Resolve simulates_get_object simulates_get_opt_object simulates_update_object simulates_exists simulates_delete
  simulates_get_record simulates_lift : follow.

(** Follows a command on the service and on the map call by call. *)
Ltac follow :=
  repeat first
  [ match goal with |- forall _, _ => intro end
  | solve [eauto with follow typeclass_instances]
  | apply simulates_bind
  | apply simulates_attempt
  | match goal with
    | |- wallet_simulates _ (match ?x with _ => _ end) _ => destruct x
    | |- wallet_simulates _ (let '(_, _) := ?x in _) _ => destruct x
    end
  | exact (simulates_lift _ (Ok _))
  | exact (simulates_lift _ (Err _)) ].

(** ** Reading and writing the map *)

Section map_lemmas.
Context `{OptionCodecs}.

(** The object that is kept under a name *)
Definition object_at (T : Type) `{!IndyObject T} (w : WalletMap) (name : string) : option T :=
  x ← w !! (type_of T, name); object_from_str x.1.

(** [RecordOptions::id_value] asks for values. *)
Definition values_read : Prop := exists opts, parse_record_options RecordOptions_id_value = Ok opts /\ retrieve_value opts = true.

Lemma map_get_object (T : Type) `{!IndyObject T} h name w (object : T) : values_read -> object_at T w name = Some object ->
  iw_get_indy_object T h name RecordOptions_id_value w = (Ok object, w).
Proof.
  intros (opts & Hopts & Hv) Hob. unfold object_at in Hob. destruct (w !! (type_of T, name)) as [x|] eqn:Hx; [|done].
  cbn in Hob. cbn [iw_get_indy_object map_wallet]. unfold spec_get_indy_object. rewrite bind_run, wspec_get_run, Hopts.
  unfold wspec_at. rewrite Hx, insert_id by done. unfold wallet_record. rewrite bind_run. unfold lift. cbn. rewrite Hv. cbn.
  by rewrite Hob.
Qed.

Lemma map_get_object_none (T : Type) `{!IndyObject T} h name w : values_read -> w !! (type_of T, name) = None ->
  iw_get_indy_object T h name RecordOptions_id_value w = (Err WalletItemNotFound, w).
Proof.
  intros (opts & Hopts & _) Hx. cbn [iw_get_indy_object map_wallet]. unfold spec_get_indy_object.
  rewrite bind_run, wspec_get_run, Hopts. unfold wspec_at. by rewrite Hx.
Qed.

(** What a read returns is the object that is kept. *)
Lemma map_get_object_ok (T : Type) `{!IndyObject T} h name w (object : T) w' : values_read ->
  iw_get_indy_object T h name RecordOptions_id_value w = (Ok object, w') -> object_at T w name = Some object /\ w' = w.
Proof.
  intros Hv Hget. unfold object_at. destruct (w !! (type_of T, name)) as [x|] eqn:Hx.
  - cbn. destruct (object_from_str x.1) as [object'|] eqn:Hob.
    + rewrite (map_get_object T h name w object') in Hget; [by simplify_eq|done|]. unfold object_at. rewrite Hx. exact Hob.
    + revert Hget. destruct Hv as (opts & Hopts & Hvalue). cbn [iw_get_indy_object map_wallet].
      unfold spec_get_indy_object. rewrite bind_run, wspec_get_run, Hopts. unfold wspec_at. rewrite Hx. unfold wallet_record.
      rewrite bind_run. unfold lift. cbn. rewrite Hvalue. cbn. by rewrite Hob.
  - by rewrite map_get_object_none in Hget.
Qed.

Lemma map_exists (T : Type) `{!IndyObject T} h name w : (exists opts, parse_record_options RecordOptions_id = Ok opts) ->
  iw_record_exists T h name w = (Ok (bool_decide (is_Some (w !! (type_of T, name)))), w).
Proof. intros [opts Hopts]. cbn [iw_record_exists map_wallet]. unfold spec_exists. by rewrite Hopts. Qed.

Lemma map_update_object (T : Type) `{!IndyObject T} fresh h name w (object : T) json x : object_to_string object = Some json ->
  w !! (type_of T, name) = Some x ->
  iw_update_indy_object T fresh h name object w = (Ok json, <[(type_of T, name) := (json, x.2)]> w).
Proof.
  intros Hj Hx. cbn [iw_update_indy_object map_wallet]. rewrite bind_run. unfold lift. rewrite Hj. cbn [ok_or].
  rewrite bind_run. unfold wspec_update, wspec_at. by rewrite Hx.
Qed.

Lemma map_add_object (T : Type) `{!IndyObject T} fresh h name w (object : T) json tags : object_to_string object = Some json ->
  w !! (type_of T, name) = None ->
  iw_add_indy_object T fresh h name object tags w = (Ok json, <[(type_of T, name) := (json, tags)]> w).
Proof.
  intros Hj Hx. cbn [iw_add_indy_object map_wallet]. rewrite bind_run. unfold lift. rewrite Hj. cbn [ok_or].
  rewrite bind_run. unfold wspec_add. by rewrite Hx.
Qed.

Lemma map_get_object_pure (T : Type) `{!IndyObject T} h name options w : (iw_get_indy_object T h name options w).2 = w.
Proof. apply spec_get_object_reads. Qed.
End map_lemmas.
