(* ===== verification/ToyTexts.v ===== *)
(** * ToyTexts: texts to run the commands on

    Texts of objects that are the bits of an encoding, and bytes as letters: instances of
    serde and of base64 for the witnesses of the theorems. *)

From Stdlib Require Import Strings.Ascii Strings.Byte.
From stdpp Require Import gmap.
From S2P Require Import Prelude Errors Wql PoolTypes WalletService IndyWallet.

Local Open Scope string_scope.

(** ** Texts of objects *)

Fixpoint bits (p : positive) : string :=
  match p with xH => "" | xO p => String "0"%char (bits p) | xI p => String "1"%char (bits p) end.

Fixpoint unbits (s : string) : option positive :=
  match s with
  | "" => Some xH
  | String c s => p ← unbits s; if decide (c = "0"%char) then Some (xO p) else Some (xI p)
  end.

Lemma unbits_bits p : unbits (bits p) = Some p.
Proof. induction p as [p IH|p IH|]; cbn; by rewrite ?IH. Qed.

Lemma bits_utf8 p : is_utf8 (bits p).
Proof. by induction p as [p IH|p IH|]. Qed.

(** An object as a value of a countable type *)
Definition text_object {T A} `{Countable A} (name : string) (f : T -> A) (g : A -> T) : IndyObject T := {|
  short_type_name := name;
  object_to_string := fun x => Some (bits (encode (f x)));
  object_from_str := fun s => p ← unbits s; g <$> decode p;
|}.

Lemma text_object_laws {T A} `{Countable A} name (f : T -> A) (g : A -> T) : (forall x, g (f x) = x) -> is_utf8 (add_prefix name) ->
  ObjectLaws T (IndyObject0:=text_object name f g).
Proof.
  intros Hg Hn. split.
  - intros object json [= <-]. apply bits_utf8.
  - intros object json [= <-]. cbn. rewrite unbits_bits. cbn. rewrite decode_encode. cbn. by rewrite Hg.
  - exact Hn.
Qed.

(** ** Letters of bytes *)

Definition of_letter (c : ascii) : N := (Ascii.N_of_ascii c - 97)%N.

Fixpoint toy_decode (s : string) : bytes :=
  match s with
  | String c (String d s) => byte_of_N (of_letter c * 16 + of_letter d) :: toy_decode s
  | _ => []
  end.

Lemma toy_decode_encode b : toy_decode (toy_encode b) = b.
Proof. induction b as [|x b IH]; [done|]. cbn -[letter of_letter]. rewrite IH. f_equal. by destruct x. Qed.

(** The letters of base64 are ASCII and have neither of the characters of verkeys. *)
Lemma toy_encode_plain b : contains_char ":"%char (toy_encode b) = false /\ starts_with_tilde (toy_encode b) = false.
Proof. split; [|by destruct b as [|[]]]. induction b as [|x b IH]; [done|]. cbn -[letter]. by destruct x. Qed.

Lemma toy_encode_utf8 b : is_utf8 (toy_encode b).
Proof. unfold is_utf8. induction b as [|x b IH]; [done|]. by destruct x. Qed.
