(* ===== verification/CryptoCommands.v ===== *)
(** * CryptoCommands: keys in a wallet, and messages for them

    Models [CryptoCommandExecutor] of [libindy/src/commands/crypto.rs] over any [IndyWallet],
    and the messages of [domain/crypto/pack.rs].  A packed message has a random key, which
    seals the text, in a box for each receiver.  serde_json is a class.  [execute], which
    passes a command to its method, is left out. *)

From stdpp Require Import gmap.
From S2P Require Import Prelude Errors PoolTypes Encryption Crypto QueryEncryption Storage Wallet WalletService WalletServiceFacts IndyWallet.

(** ** [domain/crypto/pack.rs] *)

Record JWE := mk_jwe { jwe_protected : string; jwe_iv : string; jwe_ciphertext : string; jwe_tag : string }.
Record Header := mk_header { kid : string; hd_iv : option string; hd_sender : option string }.
Record Recipient := mk_recipient { encrypted_key : string; header : Header }.
Record Protected := mk_protected { enc : string; typ : string; alg : string; recipients : list Recipient }.
Record UnpackMessage := mk_unpack_message {
  message : string;
  recipient_verkey : string;
  sender_verkey : option string;
}.

(** serde_json *)
Class PackCodecs := {
  receivers_from_str : string -> option (list string);
  protected_to_string : Protected -> option string;
  protected_from_str : string -> option Protected;
  jwe_to_vec : JWE -> option bytes;
  jwe_from_slice : bytes -> option JWE;
  unpack_message_to_vec : UnpackMessage -> option bytes;
}.

(** What is drawn at random when a message is packed: the content key, its nonce, and a
    nonce and the ephemeral keys of a sealed box for each receiver *)
Record PackRandom := mk_pack_random {
  rnd_cek : Key;
  rnd_nonce : Nonce;
  rnd_box_nonce : nat -> BoxNonce;
  rnd_ephemeral : nat -> Seed;
}.

Section commands.
Context `{Ed25519} `{Base58} `{CryptoTexts} `{PackCodecs} `{OptionCodecs}.
Context `{!IndyObject KeyPair} `{!IndyObject KeyMetadata}.
Context {W : Type} `{!IndyWallet W}.
Context (crypto_service : CryptoService).

Abbreviation CryptoM := (StateM IndyErrorKind W).

(** ** Keys *)

Definition create_key (randombytes : Seed) (fresh : Fresh) (wallet_handle : Z) (key_info : KeyInfo) : CryptoM string :=
  key ← lift (Crypto.create_key crypto_service randombytes key_info);
  _ ← iw_add_indy_object KeyPair fresh wallet_handle (key_verkey key) key ∅;
  mret (key_verkey key).

Definition get_key (wallet_handle : Z) (vk : string) : CryptoM KeyPair :=
  iw_get_indy_object KeyPair wallet_handle vk RecordOptions_id_value.

Definition crypto_sign (wallet_handle : Z) (my_vk : string) (msg : bytes) : CryptoM bytes :=
  _ ← lift (validate_key crypto_service my_vk);
  key ← get_key wallet_handle my_vk;
  lift (sign crypto_service key msg).

Definition crypto_verify (their_vk : string) (msg signature : bytes) : IndyResult bool :=
  _ ← validate_key crypto_service their_vk;
  verify crypto_service their_vk msg signature.

Definition set_key_metadata (fresh : Fresh) (wallet_handle : Z) (verkey metadata : string) : CryptoM unit :=
  _ ← lift (validate_key crypto_service verkey);
  _ ← iw_upsert_indy_object KeyMetadata fresh wallet_handle verkey (mk_key_metadata metadata);
  mret tt.

Definition get_key_metadata (wallet_handle : Z) (verkey : string) : CryptoM string :=
  _ ← lift (validate_key crypto_service verkey);
  metadata ← iw_get_indy_object KeyMetadata wallet_handle verkey RecordOptions_id_value;
  mret (km_value metadata).

(** ** Boxes *)

Definition authenticated_encrypt (gen_nonce : BoxNonce) (ephemeral : Seed) (wallet_handle : Z) (my_vk their_vk : string)
    (msg : bytes) : CryptoM bytes :=
  _ ← lift (validate_key crypto_service my_vk);
  _ ← lift (validate_key crypto_service their_vk);
  my_key ← get_key wallet_handle my_vk;
  msg ← lift (create_combo_box crypto_service gen_nonce my_key their_vk msg);
  msg ← lift (ok_or (combo_to_msg_pack msg) InvalidState);
  lift (crypto_box_seal crypto_service ephemeral their_vk msg).

(** The sender and the text *)
Definition authenticated_decrypt (wallet_handle : Z) (my_vk : string) (msg : bytes) : CryptoM (string * bytes) :=
  _ ← lift (validate_key crypto_service my_vk);
  my_key ← get_key wallet_handle my_vk;
  decrypted_msg ← lift (crypto_box_seal_open crypto_service my_key msg);
  parsed_msg ← lift (ok_or (combo_from_msg_pack decrypted_msg) InvalidStructure);
  doc ← lift (map_err InvalidStructure (base64_decode (cb_msg parsed_msg)));
  nonce ← lift (map_err InvalidStructure (base64_decode (cb_nonce parsed_msg)));
  decrypted_msg ← lift (crypto_box_open crypto_service my_key (cb_sender parsed_msg) doc nonce);
  mret (cb_sender parsed_msg, decrypted_msg).

Definition anonymous_encrypt (ephemeral : Seed) (their_vk : string) (msg : bytes) : IndyResult bytes :=
  _ ← validate_key crypto_service their_vk;
  crypto_box_seal crypto_service ephemeral their_vk msg.

Definition anonymous_decrypt (wallet_handle : Z) (my_vk : string) (encrypted_msg : bytes) : CryptoM bytes :=
  _ ← lift (validate_key crypto_service my_vk);
  my_key ← get_key wallet_handle my_vk;
  lift (crypto_box_seal_open crypto_service my_key encrypted_msg).

(** ** Packing *)

(** The loop over the receivers, from number [i] on *)
Fixpoint for_receivers (f : nat -> string -> IndyResult Recipient) (i : nat) (receiver_list : list string) :
    IndyResult (list Recipient) :=
  match receiver_list with
  | [] => Ok []
  | their_vk :: receiver_list =>
      recipient ← f i their_vk;
      rest ← for_receivers f (S i) receiver_list;
      Ok (recipient :: rest)
  end.

Definition _base64_encode_protected (encrypted_recipients_struct : list Recipient) (alg_is_authcrypt : bool) : IndyResult string :=
  let alg_val := (if alg_is_authcrypt then "Authcrypt" else "Anoncrypt")%string in
  let protected_struct := mk_protected "xchacha20poly1305_ietf" "JWM/1.0" alg_val encrypted_recipients_struct in
  protected_encoded ← ok_or (protected_to_string protected_struct) InvalidStructure;
  Ok (encode64_urlsafe (as_bytes protected_encoded)).

Definition anoncrypt_recipient (random : PackRandom) (i : nat) (their_vk : string) : IndyResult Recipient :=
  enc_cek ← crypto_box_seal crypto_service (rnd_ephemeral random i) their_vk (arr_bytes (rnd_cek random));
  Ok (mk_recipient (encode64_urlsafe enc_cek) (mk_header their_vk None None)).

Definition _prepare_protected_anoncrypt (random : PackRandom) (receiver_list : list string) : IndyResult string :=
  encrypted_recipients_struct ← for_receivers (anoncrypt_recipient random) 0 receiver_list;
  _base64_encode_protected encrypted_recipients_struct false.

Definition authcrypt_recipient (random : PackRandom) (my_key : KeyPair) (sender_vk : string) (i : nat) (their_vk : string) :
    IndyResult Recipient :=
  '(enc_cek, iv) ← crypto_box crypto_service (rnd_box_nonce random i) my_key their_vk (arr_bytes (rnd_cek random));
  enc_sender ← crypto_box_seal crypto_service (rnd_ephemeral random i) their_vk (as_bytes sender_vk);
  Ok (mk_recipient (encode64_urlsafe enc_cek)
    (mk_header their_vk (Some (encode64_urlsafe iv)) (Some (encode64_urlsafe enc_sender)))).

Definition _prepare_protected_authcrypt (random : PackRandom) (receiver_list : list string) (sender_vk : string)
    (wallet_handle : Z) : CryptoM string :=
  my_key ← get_key wallet_handle sender_vk;
  encrypted_recipients_struct ← lift (for_receivers (authcrypt_recipient random my_key sender_vk) 0 receiver_list);
  lift (_base64_encode_protected encrypted_recipients_struct true).

Definition _format_pack_message (base64_protected ciphertext iv tag : string) : IndyResult bytes :=
  ok_or (jwe_to_vec (mk_jwe base64_protected iv ciphertext tag)) InvalidStructure.

Definition pack_msg (random : PackRandom) (message : bytes) (receivers : string) (sender_vk : option string) (wallet_handle : Z) :
    CryptoM bytes :=
  receiver_list ← lift (ok_or (receivers_from_str receivers) InvalidStructure);
  if decide (receiver_list = []) then fail InvalidStructure
  else
    base64_protected ← match sender_vk with
      | Some sender_vk =>
          _ ← lift (validate_key crypto_service sender_vk);
          _prepare_protected_authcrypt random receiver_list sender_vk wallet_handle
      | None => lift (_prepare_protected_anoncrypt random receiver_list)
      end;
    let '(ciphertext, iv, tag) := encrypt_plaintext (rnd_nonce random) message base64_protected (rnd_cek random) in
    lift (_format_pack_message base64_protected ciphertext iv tag).

(** ** Unpacking *)

(** The first recipient whose key can be read; the errors of reading are dropped. *)
Fixpoint find_recipient (wallet_handle : Z) (recipients : list Recipient) : CryptoM (Recipient * bool) :=
  match recipients with
  | [] => fail WalletItemNotFound
  | recipient :: recipients =>
      my_key_res ← attempt (get_key wallet_handle (kid (header recipient)));
      match my_key_res with
      | inr _ => mret (recipient, bool_decide (is_Some (hd_sender (header recipient))))
      | inl _ => find_recipient wallet_handle recipients
      end
  end.

Definition _find_correct_recipient (protected_struct : Protected) (wallet_handle : Z) : CryptoM (Recipient * bool) :=
  find_recipient wallet_handle (recipients protected_struct).

Definition _unpack_cek_authcrypt (recipient : Recipient) (wallet_handle : Z) : CryptoM (option string * Key) :=
  encrypted_key_vec ← lift (decode_urlsafe (encrypted_key recipient));
  iv ← lift (unwrap (hd_iv (header recipient)));
  iv ← lift (decode_urlsafe iv);
  sender ← lift (unwrap (hd_sender (header recipient)));
  enc_sender_vk ← lift (decode_urlsafe sender);
  my_key ← get_key wallet_handle (kid (header recipient));
  sender_vk_vec ← lift (crypto_box_seal_open crypto_service my_key enc_sender_vk);
  sender_vk ← lift (ok_or (from_utf8 sender_vk_vec) InvalidStructure);
  cek_as_vec ← lift (crypto_box_open crypto_service my_key sender_vk encrypted_key_vec iv);
  cek ← lift (map_err InvalidStructure (array_from_slice cek_as_vec));
  mret (Some sender_vk, cek).

Definition _unpack_cek_anoncrypt (recipient : Recipient) (wallet_handle : Z) : CryptoM (option string * Key) :=
  encrypted_key_vec ← lift (decode_urlsafe (encrypted_key recipient));
  my_key ← get_key wallet_handle (kid (header recipient));
  cek_as_vec ← lift (crypto_box_seal_open crypto_service my_key encrypted_key_vec);
  cek ← lift (map_err InvalidStructure (array_from_slice cek_as_vec));
  mret (None, cek).

(** The message as a value, before it is printed *)
Definition unpack_struct (jwe_json : bytes) (wallet_handle : Z) : CryptoM UnpackMessage :=
  jwe_struct ← lift (ok_or (jwe_from_slice jwe_json) InvalidStructure);
  protected_decoded_vec ← lift (decode_urlsafe (jwe_protected jwe_struct));
  protected_decoded_str ← lift (ok_or (from_utf8 protected_decoded_vec) InvalidStructure);
  protected_struct ← lift (ok_or (protected_from_str protected_decoded_str) InvalidStructure);
  '(recipient, is_auth_recipient) ← _find_correct_recipient protected_struct wallet_handle;
  '(sender_verkey_option, cek) ← (if is_auth_recipient : bool then _unpack_cek_authcrypt recipient wallet_handle
    else _unpack_cek_anoncrypt recipient wallet_handle);
  message ← lift (decrypt_ciphertext (jwe_ciphertext jwe_struct) (jwe_protected jwe_struct) (jwe_iv jwe_struct)
    (jwe_tag jwe_struct) cek);
  mret (mk_unpack_message message (kid (header recipient)) sender_verkey_option).

Definition unpack_msg (jwe_json : bytes) (wallet_handle : Z) : CryptoM bytes :=
  res ← unpack_struct jwe_json wallet_handle;
  lift (ok_or (unpack_message_to_vec res) InvalidStructure).
End commands.
