(* ===== verification/CryptoFacts.v ===== *)
(** * CryptoFacts: what keys and packed messages guarantee

    Theorems on [Crypto.v] and [CryptoCommands.v]: the commands do to a wallet service what
    they do to a map of records; what is signed, boxed or packed for keys that the service
    made is verified, opened or unpacked by them; what unpacking checked of a message;
    messages and verkeys that the code does not expect. *)

From Stdlib Require Import Strings.Ascii.
From stdpp Require Import gmap.
From S2P Require Import Prelude Errors Wql PoolTypes Encryption Crypto QueryEncryption WqlToSql Storage SqliteStorage SqliteFacts Wallet WalletService WalletServiceFacts IndyWallet ToyTexts CryptoCommands.

(** serde reads what it printed, and prints every message. *)
Class PackCodecsLaws `{PackCodecs} := {
  protected_roundtrip : forall p, exists s, protected_to_string p = Some s /\ is_utf8 s /\ protected_from_str s = Some p;
  jwe_roundtrip : forall j, exists b, jwe_to_vec j = Some b /\ jwe_from_slice b = Some j;
  unpack_message_printed : forall u, is_Some (unpack_message_to_vec u);
}.

(** ** Texts and keys that the service made *)

Section texts.
Context `{Ed25519} `{!Ed25519Laws} `{Base58} `{CryptoTexts} `{!CryptoTextsLaws}.

(** The key pair of a seed, as the service writes it *)
Definition key_of (seed : Seed) : KeyPair :=
  let '(vk, sk) := keypair_from_seed seed in mk_key (to_base58 (arr_bytes vk)) (to_base58 (arr_bytes sk)).

Lemma key_of_texts seed : key_of seed =
  mk_key (to_base58 (arr_bytes (keypair_from_seed seed).1)) (to_base58 (arr_bytes (keypair_from_seed seed).2)).
Proof. unfold key_of. by destruct (keypair_from_seed seed). Qed.

Lemma default_crypto_type : crypto_type_of CryptoService_new DEFAULT_CRYPTO_TYPE = Ok ED25519CryptoType.
Proof. unfold crypto_type_of. cbn [crypto_types CryptoService_new]. by rewrite lookup_singleton_eq. Qed.

(** The keys that the service makes of the default type are such pairs. *)
Lemma created_key randombytes key_info key : ki_crypto_type key_info = None ->
  Crypto.create_key CryptoService_new randombytes key_info = Ok key ->
  exists seed, convert_seed (ki_seed key_info) = Ok seed /\ key = key_of (default randombytes seed).
Proof.
  intros Ht. unfold Crypto.create_key. rewrite Ht. cbn [default]. change (id ?x) with x.
  rewrite default_crypto_type. cbn [mbind outcome_bind]. intros (seed & Hseed & Hk)%bind_Ok. exists seed. split; [done|].
  unfold key_of. cbn in Hk. destruct (keypair_from_seed _). injection Hk as <-. done.
Qed.

Lemma split_verkey_plain b : split_verkey (to_base58 b) = Ok (to_base58 b, DEFAULT_CRYPTO_TYPE).
Proof. unfold split_verkey. by rewrite (proj1 (to_base58_plain b)). Qed.

Lemma decode58_back b : base58_decode (to_base58 b) = Ok b.
Proof. unfold base58_decode. by rewrite from_to_base58. Qed.

Lemma base64_back b : base64_decode (encode64 b) = Ok b.
Proof. unfold base64_decode. by rewrite decode_encode64. Qed.

Lemma urlsafe_back b : decode_urlsafe (encode64_urlsafe b) = Ok b.
Proof. unfold decode_urlsafe. by rewrite decode_encode64_urlsafe. Qed.

Lemma array_back {n} (a : array_u8 n) : array_from_slice (arr_bytes a) = Ok a.
Proof. unfold array_from_slice. by rewrite from_slice_arr. Qed.

Lemma on_curve seed : exists pk, ed25519_pk_to_curve25519 (keypair_from_seed seed).1 = Some pk /\
  vk_to_curve25519 (keypair_from_seed seed).1 = pk.
Proof. destruct (keypair_on_curve seed) as [pk Hpk]. exists pk. split; [done|]. unfold vk_to_curve25519. by rewrite Hpk. Qed.

Lemma same_crypto_type {A} (a b : A) : (if decide (DEFAULT_CRYPTO_TYPE = DEFAULT_CRYPTO_TYPE) then a else b) = a.
Proof. by rewrite decide_True. Qed.

End texts.

(** Evaluates the service on keys and texts that it made. *)
Ltac service_run := repeat (progress (rewrite ?same_crypto_type, ?split_verkey_plain, ?default_crypto_type, ?decode58_back, ?base64_back,
  ?urlsafe_back, ?array_back; cbn [mbind outcome_bind])).

(** One step of a run *)
Ltac lifted H := rewrite (run_lift _ _ _ _ H); cbv beta.
Ltac returned := rewrite (run_lift (Ok _) _ _ _ eq_refl); cbv beta.
Ltac stepped H := rewrite (run_returns _ _ _ _ _ H); cbv beta.

(** ** The service *)

Section service.
Context `{Ed25519} `{!Ed25519Laws} `{Base58} `{CryptoTexts} `{!CryptoTextsLaws}.


Lemma match_no_tilde {A} s (f : string -> A) k : starts_with_tilde s = false ->
  match s with String "~"%char t => f t | _ => k end = k.
Proof. destruct s as [|c s]; [done|]. by destruct c as [[] [] [] [] [] [] [] []]. Qed.

Lemma validate_made (vk : PublicKey) : validate_key CryptoService_new (to_base58 (arr_bytes vk)) = Ok tt.
Proof.
  unfold validate_key. service_run. rewrite match_no_tilde by apply to_base58_plain. by service_run.
Qed.

Lemma validate_key_of seed : validate_key CryptoService_new (key_verkey (key_of seed)) = Ok tt.
Proof. rewrite key_of_texts. apply validate_made. Qed.

Lemma sign_verify seed msg : exists signature, sign CryptoService_new (key_of seed) msg = Ok signature /\
  verify CryptoService_new (key_verkey (key_of seed)) msg signature = Ok true.
Proof.
  rewrite key_of_texts. exists (arr_bytes (sign_detached msg (keypair_from_seed seed).2)). unfold sign, verify. cbn [key_verkey key_signkey].
  service_run. cbn. service_run. cbn. by rewrite verify_signed.
Qed.

Lemma box_key_of seed seed' nonce msg : exists c, crypto_box CryptoService_new nonce (key_of seed) (key_verkey (key_of seed')) msg = Ok (c, arr_bytes nonce) /\
  crypto_box_open CryptoService_new (key_of seed') (key_verkey (key_of seed)) c (arr_bytes nonce) = Ok msg.
Proof.
  rewrite !key_of_texts. unfold crypto_box, crypto_box_open, box_crypto_type. cbn [key_verkey key_signkey]. service_run.
  destruct (on_curve seed) as (pk & Hpk & Hvk), (on_curve seed') as (pk' & Hpk' & Hvk').
  eexists. split; [done|]. service_run. cbn. unfold sk_to_curve25519.
  rewrite Hvk, Hvk'. by rewrite (box_opens seed seed' msg nonce pk pk').
Qed.

Lemma seal_key_of seed ephemeral msg : exists c, crypto_box_seal CryptoService_new ephemeral (key_verkey (key_of seed)) msg = Ok c /\
  crypto_box_seal_open CryptoService_new (key_of seed) c = Ok msg.
Proof.
  rewrite !key_of_texts. unfold crypto_box_seal, crypto_box_seal_open. cbn [key_verkey key_signkey]. service_run.
  destruct (on_curve seed) as (pk & Hpk & Hvk). eexists. split; [done|]. cbn. unfold sk_to_curve25519. rewrite Hvk.
  by rewrite (sealedbox_opens ephemeral seed msg pk).
Qed.

Lemma plaintext_back nonce msg aad cek ct iv tag : is_utf8 msg -> encrypt_plaintext nonce (as_bytes msg) aad cek = (ct, iv, tag) ->
  decrypt_ciphertext ct aad iv tag cek = Ok msg.
Proof.
  intros Hu. unfold encrypt_plaintext, gen_nonce_and_encrypt_detached.
  destruct (seal_detached (as_bytes msg) (as_bytes aad) nonce cek) as [plain t] eqn:Hs. intros [= <- <- <-].
  unfold decrypt_ciphertext. service_run. cbn. service_run. cbn. service_run. cbn. service_run. cbn. service_run. cbn.
  unfold decrypt_detached. rewrite (proj2 (open_detached_iff _ _ _ _ _ _) Hs). cbn. by rewrite from_utf8_as_bytes.
Qed.
End service.


(** ** The commands on the records of a wallet *)

Section commands.
Context `{Ed25519} `{!Ed25519Laws} `{Base58} `{CryptoTexts} `{!CryptoTextsLaws} `{PackCodecs} `{!PackCodecsLaws} `{OptionCodecs}.
Context `{!IndyObject KeyPair} `{!ObjectLaws KeyPair} `{!IndyObject KeyMetadata}.
Implicit Types (w : WalletMap) (h : Z) (seed : Seed).



Abbreviation vk_of seed := (key_verkey (key_of seed)).

(** The key pair is in the wallet under its verkey; there is a key under it. *)
Definition holds w seed : Prop := object_at KeyPair w (vk_of seed) = Some (key_of seed).
Definition known w seed : Prop := is_Some (w !! (type_of KeyPair, vk_of seed)).

Lemma get_held h w seed : values_read -> holds w seed -> get_key h (vk_of seed) w = (Ok (key_of seed), w).
Proof. apply map_get_object. Qed.

Lemma get_key_ok h vk w key w' : values_read -> get_key h vk w = (Ok key, w') -> object_at KeyPair w vk = Some key /\ w' = w.
Proof. apply map_get_object_ok. Qed.

(** *** The loop over the receivers *)

Lemma for_receivers_all {A} (g : A -> string) (P : A -> Recipient -> Prop) f : forall l i,
  (forall j a, exists r, f j (g a) = Ok r /\ P a r) -> exists rs, for_receivers f i (g <$> l) = Ok rs /\ Forall2 P l rs.
Proof.
  induction l as [|a l IH]; intros i Hf; [by eexists|]. destruct (Hf i a) as (r & Hr & Hp).
  destruct (IH (S i) Hf) as (rs & Hrs & Hps). exists (r :: rs). cbn. rewrite Hr. cbn. rewrite Hrs. split; [done|]. by constructor.
Qed.

(** A recipient for the key pair of [seed]: its key finds the content key and the sender. *)
Definition addressed (sender : option Seed) (cek : Key) (seed : Seed) (r : Recipient) : Prop :=
  kid (header r) = vk_of seed /\ (is_Some (hd_sender (header r)) <-> is_Some sender) /\
  forall h w, values_read -> holds w seed ->
    (if bool_decide (is_Some (hd_sender (header r))) then _unpack_cek_authcrypt CryptoService_new r h
     else _unpack_cek_anoncrypt CryptoService_new r h) w = (Ok ((fun s => vk_of s) <$> sender, cek), w).

Lemma anoncrypt_addressed random i seed : exists r,
  anoncrypt_recipient CryptoService_new random i (vk_of seed) = Ok r /\ addressed None (rnd_cek random) seed r.
Proof.
  destruct (seal_key_of seed (rnd_ephemeral random i) (arr_bytes (rnd_cek random))) as (c & Hc & Ho).
  unfold anoncrypt_recipient. rewrite Hc. cbn. eexists. split; [done|]. split_and!; [done|by split; intros []|].
  intros h w Hv Hk. cbn. unfold _unpack_cek_anoncrypt. cbn [encrypted_key header kid].
  rewrite (run_lift _ _ _ _ (urlsafe_back _)), (run_returns _ _ _ _ _ (get_held h w seed Hv Hk)), (run_lift _ _ _ _ Ho), array_back. done.
Qed.

Lemma vk_utf8 seed : is_utf8 (vk_of seed).
Proof. rewrite key_of_texts. apply to_base58_utf8. Qed.

Lemma authcrypt_addressed random i sender seed : exists r,
  authcrypt_recipient CryptoService_new random (key_of sender) (vk_of sender) i (vk_of seed) = Ok r /\
  addressed (Some sender) (rnd_cek random) seed r.
Proof.
  destruct (seal_key_of seed (rnd_ephemeral random i) (as_bytes (vk_of sender))) as (c & Hc & Ho).
  destruct (box_key_of sender seed (rnd_box_nonce random i) (arr_bytes (rnd_cek random))) as (b & Hb & Hbo).
  unfold authcrypt_recipient. rewrite Hb. cbn. rewrite Hc. cbn. eexists. split; [done|]. split_and!; [done|by split; eauto|].
  intros h w Hv Hk. cbn. unfold _unpack_cek_authcrypt. cbn [encrypted_key header kid hd_iv hd_sender unwrap].
  lifted (urlsafe_back b). returned. lifted (urlsafe_back (arr_bytes (rnd_box_nonce random i))). returned. lifted (urlsafe_back c).
  stepped (get_held h w seed Hv Hk). lifted Ho. rewrite from_utf8_as_bytes by apply vk_utf8. cbn [ok_or]. returned.
  lifted Hbo. by rewrite array_back.
Qed.
(** *** Packing and unpacking *)

Lemma protected_text rs auth : exists b64, _base64_encode_protected rs auth = Ok b64.
Proof.
  unfold _base64_encode_protected. destruct (protected_roundtrip (mk_protected "xchacha20poly1305_ietf" "JWM/1.0"
    (if auth then "Authcrypt" else "Anoncrypt") rs)) as (p & Hp & _). rewrite Hp. by eexists.
Qed.

(** The recipients of a message, with or without a sender *)
Lemma protected_for random seeds sender : exists rs,
  for_receivers (match sender with Some s => authcrypt_recipient CryptoService_new random (key_of s) (vk_of s)
                 | None => anoncrypt_recipient CryptoService_new random end) 0 ((fun s => vk_of s) <$> seeds) = Ok rs /\
  Forall2 (addressed sender (rnd_cek random)) seeds rs.
Proof.
  apply for_receivers_all. intros j seed. destruct sender as [s|]; [apply authcrypt_addressed|apply anoncrypt_addressed].
Qed.

Definition in_wallet w seed : bool := bool_decide (known w seed).

(** The first recipient whose key is in the wallet is found. *)
Lemma find_recipient_known (P : Seed -> Recipient -> Prop) h w : values_read -> (forall seed r, P seed r -> kid (header r) = vk_of seed) ->
  forall seeds rs, Forall2 P seeds rs -> (forall seed, seed ∈ seeds -> known w seed -> holds w seed) ->
  match list_find (fun seed => in_wallet w seed = true) seeds with
  | Some (_, seed) => exists r, P seed r /\ holds w seed /\
      find_recipient h rs w = (Ok (r, bool_decide (is_Some (hd_sender (header r)))), w)
  | None => find_recipient h rs w = (Err WalletItemNotFound, w)
  end.
Proof.
  intros Hv Hkid seeds rs Hrs. induction Hrs as [|seed r seeds rs Hr _ IH]; intros Hheld; [done|].
  cbn [list_find find_recipient]. rewrite (Hkid seed r Hr). destruct (decide (in_wallet w seed = true)) as [Hin|Hin].
  - apply bool_decide_eq_true in Hin. assert (holds w seed) as Hk by (apply Hheld; [by left|done]).
    exists r. split_and!; [done|done|]. rewrite bind_run. unfold attempt. by rewrite (get_held h w seed Hv Hk).
  - assert (w !! (type_of KeyPair, vk_of seed) = None) as Hnone.
    { apply eq_None_not_Some. intros Hin'. apply Hin. by apply bool_decide_eq_true. }
    rewrite bind_run. unfold attempt, get_key. rewrite (map_get_object_none KeyPair h _ w Hv Hnone).
    specialize (IH ltac:(intros; apply Hheld; [by right|done])). by destruct (list_find _ seeds) as [[i s]|].
Qed.

(** What a message for these recipients is *)
Lemma formatted_unpacks random rs auth text b64 ct iv tag seeds sender h w : values_read -> is_utf8 text ->
  Forall2 (addressed sender (rnd_cek random)) seeds rs ->
  _base64_encode_protected rs auth = Ok b64 -> encrypt_plaintext (rnd_nonce random) (as_bytes text) b64 (rnd_cek random) = (ct, iv, tag) ->
  (forall seed, seed ∈ seeds -> known w seed -> holds w seed) ->
  exists jwe, _format_pack_message b64 ct iv tag = Ok jwe /\
  match list_find (fun seed => in_wallet w seed = true) seeds with
  | Some (_, seed) => unpack_struct CryptoService_new jwe h w =
      (Ok (mk_unpack_message text (vk_of seed) ((fun s => vk_of s) <$> sender)), w)
  | None => unpack_struct CryptoService_new jwe h w = (Err WalletItemNotFound, w)
  end.
Proof.
  intros Hv Hu Hrs Hb Hct Hheld. unfold _base64_encode_protected in Hb.
  destruct (protected_roundtrip (mk_protected "xchacha20poly1305_ietf" "JWM/1.0" (if auth then "Authcrypt" else "Anoncrypt") rs)) as (p & Hp & Hpu & Hback).
  rewrite Hp in Hb. injection Hb as <-. unfold _format_pack_message.
  destruct (jwe_roundtrip (mk_jwe (encode64_urlsafe (as_bytes p)) iv ct tag)) as (jwe & Hj & Hjback). rewrite Hj. exists jwe. split; [done|].
  assert (forall k, unpack_struct CryptoService_new jwe h w = k <-> (
    '(recipient, is_auth_recipient) ← find_recipient h rs;
    '(sender_verkey_option, cek) ← (if is_auth_recipient : bool then _unpack_cek_authcrypt CryptoService_new recipient h
      else _unpack_cek_anoncrypt CryptoService_new recipient h);
    message ← lift (decrypt_ciphertext ct (encode64_urlsafe (as_bytes p)) iv tag cek);
    mret (mk_unpack_message message (kid (header recipient)) sender_verkey_option)) w = k) as Hrun.
  { intros k. unfold unpack_struct. rewrite Hjback. cbn [ok_or]. returned. cbn [jwe_protected jwe_iv jwe_ciphertext jwe_tag].
    lifted (urlsafe_back (as_bytes p)). rewrite from_utf8_as_bytes by done. cbn [ok_or]. returned. rewrite Hback. cbn [ok_or]. by returned. }
  pose proof (find_recipient_known (addressed sender (rnd_cek random)) h w Hv ltac:(by intros seed r [Hkid _]) seeds rs Hrs Hheld) as Hfind.
  destruct (list_find _ seeds) as [[i seed]|]; apply Hrun; [|by rewrite (run_fails _ _ _ _ _ Hfind)].
  destruct Hfind as (r & (Hkid & Hsender & Hopen) & Hk & Hfind). stepped Hfind. stepped (Hopen h w Hv Hk).
  rewrite (run_lift _ _ _ _ (plaintext_back _ _ _ _ _ _ _ Hu Hct)). by rewrite Hkid.
Qed.
(** C11: a text that was packed for receivers, by a sender whose key is in the wallet or by nobody, is
    unpacked with any wallet that has a receiver's key: the first of them is the recipient, and
    the sender is who it was packed by.  A wallet without such a key finds no item. *)
Theorem packed_message_unpacks random text receivers seeds sender h hB wA wB : values_read -> is_utf8 text ->
  receivers_from_str receivers = Some ((fun s => vk_of s) <$> seeds) -> seeds <> [] ->
  (forall s, sender = Some s -> holds wA s) -> (forall seed, seed ∈ seeds -> known wB seed -> holds wB seed) ->
  exists jwe, pack_msg CryptoService_new random (as_bytes text) receivers ((fun s => vk_of s) <$> sender) h wA = (Ok jwe, wA) /\
  match list_find (fun seed => in_wallet wB seed = true) seeds with
  | Some (_, seed) => exists out, unpack_msg CryptoService_new jwe hB wB = (Ok out, wB) /\
      unpack_message_to_vec (mk_unpack_message text (vk_of seed) ((fun s => vk_of s) <$> sender)) = Some out
  | None => unpack_msg CryptoService_new jwe hB wB = (Err WalletItemNotFound, wB)
  end.
Proof.
  intros Hv Hu Hrec Hne Hsender Hheld.
  assert (exists rs auth b64, Forall2 (addressed sender (rnd_cek random)) seeds rs /\ _base64_encode_protected rs auth = Ok b64 /\
    (match (fun s => vk_of s) <$> sender with
     | Some sender_vk => _ ← lift (validate_key CryptoService_new sender_vk);
         _prepare_protected_authcrypt CryptoService_new random ((fun s => vk_of s) <$> seeds) sender_vk h
     | None => lift (_prepare_protected_anoncrypt CryptoService_new random ((fun s => vk_of s) <$> seeds))
     end : StateM IndyErrorKind WalletMap string) wA = (Ok b64, wA)) as (rs & auth & b64 & Hrs & Hb & Hrun).
  { destruct (protected_for random seeds sender) as (rs & Hrs & Hall). exists rs, (bool_decide (is_Some sender)).
    destruct (protected_text rs (bool_decide (is_Some sender))) as [b64 Hb]. exists b64. split_and!; [done|done|].
    destruct sender as [s|]; cbn in Hrs, Hb |- *.
    - lifted (validate_key_of s). unfold _prepare_protected_authcrypt. stepped (get_held h wA s Hv (Hsender s eq_refl)).
      lifted Hrs. unfold lift. by rewrite Hb.
    - unfold lift, _prepare_protected_anoncrypt. rewrite Hrs. cbn. by rewrite Hb. }
  destruct (encrypt_plaintext (rnd_nonce random) (as_bytes text) b64 (rnd_cek random)) as [[ct iv] tag] eqn:Hct.
  destruct (formatted_unpacks random rs auth text b64 ct iv tag seeds sender hB wB Hv Hu Hrs Hb Hct Hheld) as (jwe & Hj & Hun).
  exists jwe. split.
  - unfold pack_msg. rewrite Hrec. cbn [ok_or]. returned. rewrite decide_False by (by destruct seeds).
    stepped Hrun. rewrite Hct. unfold lift. by rewrite Hj.
  - unfold unpack_msg. destruct (list_find _ seeds) as [[i seed]|]; [|by rewrite (run_fails _ _ _ _ _ Hun)].
    destruct (unpack_message_printed (mk_unpack_message text (vk_of seed) ((fun s => vk_of s) <$> sender))) as [out Hout].
    exists out. split; [|done]. stepped Hun. unfold lift. by rewrite Hout.
Qed.
(** *** What unpacking checks *)

Lemma find_recipient_ok h w rs : forall r auth w', values_read -> find_recipient h rs w = (Ok (r, auth), w') ->
  w' = w /\ r ∈ rs /\ auth = bool_decide (is_Some (hd_sender (header r))).
Proof.
  induction rs as [|r0 rs IH]; intros r auth w' Hv; cbn [find_recipient]; [done|]. intros (res & w1 & Hres & Hrun)%M_bind_Ok.
  apply attempt_Ok in Hres. destruct res as [e|key].
  - assert (w1 = w) as -> by (pose proof (map_get_object_pure KeyPair h (kid (header r0)) RecordOptions_id_value w) as Hp;
      unfold get_key in Hres; by rewrite Hres in Hp).
    destruct (IH r auth w' Hv Hrun) as (-> & Hin & Ha). split_and!; [done|by right|done].
  - apply (get_key_ok _ _ _ _ _ Hv) in Hres as [_ ->]. cbv [mret StateM_ret] in Hrun. injection Hrun as <- <- <-. split_and!; [done|by left|done].
Qed.

Lemma from_utf8_inv b s : from_utf8 b = Some s -> b = as_bytes s.
Proof. unfold from_utf8. destruct (utf8_valid b); [|done]. intros [= <-]. by rewrite as_bytes_of_bytes. Qed.

Lemma map_err_Ok {A} kind (m : IndyResult A) a : map_err kind m = Ok a -> m = Ok a.
Proof. by destruct m. Qed.

Lemma decrypted_was_sealed ct aad iv tag cek msg : decrypt_ciphertext ct aad iv tag cek = Ok msg -> exists c n t,
  decode64_urlsafe ct = Some c /\ decode64_urlsafe iv = Some (arr_bytes n) /\ decode64_urlsafe tag = Some (arr_bytes t) /\
  seal_detached (as_bytes msg) (as_bytes aad) n cek = (c, t).
Proof.
  unfold decrypt_ciphertext, decode_urlsafe, array_from_slice, decrypt_detached. intros Hd. inv_ok.
  repeat match goal with H : map_err _ _ = Ok _ |- _ => apply map_err_Ok in H; inv_ok | H : from_slice _ = Some _ |- _ => apply from_slice_Some in H end.
  match goal with H : from_utf8 _ = Some _ |- _ => apply from_utf8_inv in H end. subst.
  match goal with H : open_detached _ _ _ _ _ = Some _ |- _ => apply open_detached_iff in H end. by repeat eexists.
Qed.

(** The content key and the sender that a recipient's key finds *)
Definition cek_found (crypto : CryptoService) (key : KeyPair) (r : Recipient) (sender : option string) (cek : Key) : Prop :=
  exists enc_cek, decode64_urlsafe (encrypted_key r) = Some enc_cek /\
  match sender with
  | Some s => exists sealed iv, (hd_sender (header r) ≫= decode64_urlsafe) = Some sealed /\
      (hd_iv (header r) ≫= decode64_urlsafe) = Some iv /\
      crypto_box_seal_open crypto key sealed = Ok (as_bytes s) /\ crypto_box_open crypto key s enc_cek iv = Ok (arr_bytes cek)
  | None => hd_sender (header r) = None /\ crypto_box_seal_open crypto key enc_cek = Ok (arr_bytes cek)
  end.

Lemma authcrypt_found crypto r h w sender cek w' : values_read -> _unpack_cek_authcrypt crypto r h w = (Ok (sender, cek), w') ->
  w' = w /\ exists key s, sender = Some s /\ object_at KeyPair w (kid (header r)) = Some key /\ cek_found crypto key r sender cek.
Proof.
  intros Hv. unfold _unpack_cek_authcrypt, decode_urlsafe, array_from_slice. intros Hr. inv_run.
  repeat match goal with H : get_key _ _ _ = _ |- _ => apply (get_key_ok _ _ _ _ _ Hv) in H as [? ->] end.
  inv_ok. repeat match goal with H : map_err _ _ = Ok _ |- _ => apply map_err_Ok in H; inv_ok | H : from_slice _ = Some _ |- _ => apply from_slice_Some in H end.
  match goal with H : from_utf8 _ = Some _ |- _ => apply from_utf8_inv in H end. subst.
  split; [done|]. eexists _, _. split_and!; [done..|]. eexists. split; [done|]. eexists _, _.
  repeat match goal with H : ?x = Some _ |- context [?x] => rewrite H end. done.
Qed.

Lemma anoncrypt_found crypto r h w sender cek w' : values_read -> hd_sender (header r) = None ->
  _unpack_cek_anoncrypt crypto r h w = (Ok (sender, cek), w') ->
  w' = w /\ exists key, sender = None /\ object_at KeyPair w (kid (header r)) = Some key /\ cek_found crypto key r sender cek.
Proof.
  intros Hv Hn. unfold _unpack_cek_anoncrypt, decode_urlsafe, array_from_slice. intros Hr. inv_run.
  repeat match goal with H : get_key _ _ _ = _ |- _ => apply (get_key_ok _ _ _ _ _ Hv) in H as [? ->] end.
  inv_ok. repeat match goal with H : map_err _ _ = Ok _ |- _ => apply map_err_Ok in H; inv_ok | H : from_slice _ = Some _ |- _ => apply from_slice_Some in H end.
  subst. split; [done|]. eexists. split_and!; [done..|]. eexists. done.
Qed.
(** C12: whatever message was unpacked, its text is what the content key sealed, with the recipients as
    associated data; the content key was in a box that the wallet's key of a recipient opened, from
    the key of the sender that is reported, or in a sealed box when no sender is reported. *)
Theorem unpacked_was_sealed crypto jwe h w u w' : values_read -> unpack_struct crypto jwe h w = (Ok u, w') ->
  w' = w /\ exists j p b r key cek ct nonce tag,
    jwe_from_slice jwe = Some j /\ decode64_urlsafe (jwe_protected j) = Some (as_bytes b) /\ protected_from_str b = Some p /\
    r ∈ recipients p /\ kid (header r) = recipient_verkey u /\ object_at KeyPair w (recipient_verkey u) = Some key /\
    cek_found crypto key r (sender_verkey u) cek /\
    decode64_urlsafe (jwe_ciphertext j) = Some ct /\ decode64_urlsafe (jwe_iv j) = Some (arr_bytes nonce) /\
    decode64_urlsafe (jwe_tag j) = Some (arr_bytes tag) /\
    seal_detached (as_bytes (message u)) (as_bytes (jwe_protected j)) nonce cek = (ct, tag).
Proof.
  intros Hv. unfold unpack_struct, decode_urlsafe, _find_correct_recipient. intros Hr. apply M_bind_Ok in Hr as (j & w1 & Hj & Hr).
  apply M_bind_Ok in Hr as (pb & w2 & Hpb & Hr). apply M_bind_Ok in Hr as (b & w3 & Hb & Hr). apply M_bind_Ok in Hr as (p & w4 & Hp & Hr).
  unfold lift in Hj, Hpb, Hb, Hp. injection Hj as Hj <-. injection Hpb as Hpb <-. injection Hb as Hb <-. injection Hp as Hp <-.
  apply ok_or_Ok in Hj, Hpb, Hb, Hp. apply from_utf8_inv in Hb as ->.
  apply M_bind_Ok in Hr as ([r auth] & w5 & Hfind & Hr). apply (find_recipient_ok _ _ _ _ _ _ Hv) in Hfind as (-> & Hin & ->).
  apply M_bind_Ok in Hr as ([sender cek] & w6 & Hcek & Hr).
  assert (w6 = w /\ exists key, object_at KeyPair w (kid (header r)) = Some key /\ cek_found crypto key r sender cek) as (-> & key & Hkey & Hfound).
  { case_bool_decide as Hs.
    - apply authcrypt_found in Hcek as (-> & key & s & _ & Hk & Hf); eauto.
    - apply anoncrypt_found in Hcek as (-> & key & _ & Hk & Hf); eauto. by apply eq_None_not_Some. }
  apply M_bind_Ok in Hr as (msg & w7 & Hmsg & Hr). unfold lift in Hmsg. injection Hmsg as Hmsg <-.
  cbv [mret StateM_ret] in Hr. injection Hr as <- <-. apply decrypted_was_sealed in Hmsg as (ct & n & t & Hct & Hn & Ht & Hseal).
  split; [done|]. by exists j, p, b, r, key, cek, ct, n, t.
Qed.

(** a message whose first known recipient has a sender and no nonce makes the command unwind. *)
Theorem missing_iv_unwinds crypto jwe h w j p b r rest enc_cek sender key : values_read ->
  jwe_from_slice jwe = Some j -> decode64_urlsafe (jwe_protected j) = Some (as_bytes b) -> is_utf8 b -> protected_from_str b = Some p ->
  recipients p = mk_recipient enc_cek (mk_header r None (Some sender)) :: rest -> is_Some (decode64_urlsafe enc_cek) ->
  object_at KeyPair w r = Some key -> unpack_msg crypto jwe h w = (Panic, w).
Proof.
  intros Hv Hj Hb Hu Hp Hrec [c Hc] Hk. unfold unpack_msg. enough (unpack_struct crypto jwe h w = (Panic, w)) as Hun
    by (rewrite bind_run; by rewrite Hun).
  unfold unpack_struct, decode_urlsafe. rewrite Hj. cbn [ok_or]. returned. rewrite Hb. cbn [ok_or]. returned.
  rewrite from_utf8_as_bytes by done. cbn [ok_or]. returned. rewrite Hp. cbn [ok_or]. returned.
  assert (_find_correct_recipient p h w = (Ok (mk_recipient enc_cek (mk_header r None (Some sender)), true), w)) as Hfind.
  { unfold _find_correct_recipient. rewrite Hrec. cbn [find_recipient header kid]. rewrite bind_run. unfold attempt, get_key.
    by rewrite (map_get_object KeyPair h r w key Hv Hk). }
  stepped Hfind. rewrite bind_run. unfold _unpack_cek_authcrypt, decode_urlsafe. cbn [encrypted_key header hd_iv]. rewrite Hc. cbn [ok_or].
  by returned.
Qed.

(** a signature of a key in the wallet is verified by its verkey, a box for a key is opened by it and
    says who it is from, and so is a sealed box. *)
Theorem boxes_and_signatures nonce ephemeral seed seed' msg h h' w w' : values_read -> holds w seed -> holds w' seed' ->
  (exists signature, crypto_sign CryptoService_new h (vk_of seed) msg w = (Ok signature, w) /\
    crypto_verify CryptoService_new (vk_of seed) msg signature = Ok true) /\
  (exists boxed, authenticated_encrypt CryptoService_new nonce ephemeral h (vk_of seed) (vk_of seed') msg w = (Ok boxed, w) /\
    authenticated_decrypt CryptoService_new h' (vk_of seed') boxed w' = (Ok (vk_of seed, msg), w')) /\
  (exists sealed, anonymous_encrypt CryptoService_new ephemeral (vk_of seed') msg = Ok sealed /\
    anonymous_decrypt CryptoService_new h' (vk_of seed') sealed w' = (Ok msg, w')).
Proof.
  intros Hv Hk Hk'. split_and!.
  - destruct (sign_verify seed msg) as (signature & Hs & Hver). exists signature. split.
    + unfold crypto_sign. lifted (validate_key_of seed). stepped (get_held h w seed Hv Hk). unfold lift. by rewrite Hs.
    + unfold crypto_verify. by rewrite validate_key_of.
  - destruct (box_key_of seed seed' nonce msg) as (c & Hc & Ho).
    destruct (combo_roundtrip (mk_combo_box (encode64 c) (vk_of seed) (encode64 (arr_bytes nonce)))) as (b & Hb & Hback).
    destruct (seal_key_of seed' ephemeral b) as (s & Hs & Hso). exists s. split.
    + unfold authenticated_encrypt. lifted (validate_key_of seed). lifted (validate_key_of seed'). stepped (get_held h w seed Hv Hk).
      unfold create_combo_box. rewrite Hc. cbn [mbind outcome_bind]. returned. rewrite Hb. cbn [ok_or]. returned. unfold lift. by rewrite Hs.
    + unfold authenticated_decrypt. lifted (validate_key_of seed'). stepped (get_held h' w' seed' Hv Hk'). lifted Hso.
      rewrite Hback. cbn [ok_or]. returned. cbn [cb_msg cb_nonce cb_sender]. rewrite !base64_back. cbn [map_err]. returned. returned.
      by lifted Ho.
  - destruct (seal_key_of seed' ephemeral msg) as (s & Hs & Hso). exists s. split.
    + unfold anonymous_encrypt. by rewrite validate_key_of.
    + unfold anonymous_decrypt. lifted (validate_key_of seed'). stepped (get_held h' w' seed' Hv Hk'). unfold lift. by rewrite Hso.
Qed.

(** bytes that are no point of the curve are accepted as a verkey, and what is meant for it is sealed for
    the key of zeroes. *)
Theorem invalid_verkey_accepted (vk : PublicKey) ephemeral msg : ed25519_pk_to_curve25519 vk = None ->
  validate_key CryptoService_new (to_base58 (arr_bytes vk)) = Ok tt /\
  anonymous_encrypt CryptoService_new ephemeral (to_base58 (arr_bytes vk)) msg = Ok (sealedbox_seal ephemeral msg zeroes).
Proof.
  intros Hn. split; [apply validate_made|]. unfold anonymous_encrypt, crypto_box_seal. rewrite validate_made. service_run.
  cbn. unfold vk_to_curve25519. by rewrite Hn.
Qed.

(** A key that was made is in the wallet, if there was none. *)
Lemma created_key_held randombytes fresh h info vk w w' : values_read -> ki_crypto_type info = None ->
  create_key CryptoService_new randombytes fresh h info w = (Ok vk, w') ->
  exists made : option Seed, convert_seed (ki_seed info) = Ok made /\ vk = vk_of (default randombytes made) /\ holds w' (default randombytes made) /\
    w !! (type_of KeyPair, vk) = None.
Proof.
  intros Hv Ht. unfold create_key. intros (key & w1 & Hkey & Hr)%M_bind_Ok. unfold lift in Hkey. injection Hkey as Hkey <-.
  apply created_key in Hkey as (seed & Hseed & ->); [|done]. apply M_bind_Ok in Hr as (json & w2 & Hadd & Hr).
  cbv [mret StateM_ret] in Hr. injection Hr as <- <-. exists seed. cbn [iw_add_indy_object map_wallet] in Hadd.
  apply M_bind_Ok in Hadd as (json' & w3 & Hj & Hadd). unfold lift in Hj. injection Hj as Hj <-. apply ok_or_Ok in Hj.
  apply M_bind_Ok in Hadd as ([] & w4 & Hadd & Hr). cbv [mret StateM_ret] in Hr. injection Hr as -> ->. revert Hadd. unfold wspec_add.
  destruct (w !! _) eqn:Hx; [done|]. intros [= <-]. split_and!; [done..| |done].
  unfold holds, object_at. rewrite lookup_insert_eq. cbn. by apply object_roundtrip.
Qed.
End commands.

(** ** The commands over a wallet service *)

Section service_commands.
Context `{ChaCha20Poly1305} `{HmacSha256} `{HashOrder} `{OptionCodecs} `{LikePattern}.
Context `{Ed25519} `{Base58} `{CryptoTexts} `{PackCodecs}.
Context `{!IndyObject KeyPair} `{!ObjectLaws KeyPair} `{!IndyObject KeyMetadata} `{!ObjectLaws KeyMetadata}.
Context {St Iter : Type} `{!WalletStorage St Iter} `{!WalletStorageLaws St Iter}.

Lemma simulates_find h rs : wallet_simulates (St:=St) h (find_recipient h rs) (find_recipient h rs).
Proof. induction rs as [|r rs IH]; cbn [find_recipient]; unfold get_key; follow. Qed.

(** every command on the wallet behind a handle returns what it returns on the map of the wallet's
    records and does to the wallet what it does to the map. *)
Theorem crypto_refines_map crypto h :
  (forall randombytes fresh info, (forall key, Crypto.create_key crypto randombytes info = Ok key -> is_utf8 (key_verkey key)) ->
    wallet_simulates (St:=St) h (create_key crypto randombytes fresh h info) (create_key crypto randombytes fresh h info)) /\
  (forall vk msg, wallet_simulates (St:=St) h (crypto_sign crypto h vk msg) (crypto_sign crypto h vk msg)) /\
  (forall fresh vk metadata, is_utf8 vk ->
    wallet_simulates (St:=St) h (set_key_metadata crypto fresh h vk metadata) (set_key_metadata crypto fresh h vk metadata)) /\
  (forall vk, wallet_simulates (St:=St) h (get_key_metadata crypto h vk) (get_key_metadata crypto h vk)) /\
  (forall nonce ephemeral vk vk' msg, wallet_simulates (St:=St) h (authenticated_encrypt crypto nonce ephemeral h vk vk' msg)
    (authenticated_encrypt crypto nonce ephemeral h vk vk' msg)) /\
  (forall vk msg, wallet_simulates (St:=St) h (authenticated_decrypt crypto h vk msg) (authenticated_decrypt crypto h vk msg)) /\
  (forall vk msg, wallet_simulates (St:=St) h (anonymous_decrypt crypto h vk msg) (anonymous_decrypt crypto h vk msg)) /\
  (forall random msg receivers sender, wallet_simulates (St:=St) h (pack_msg crypto random msg receivers sender h)
    (pack_msg crypto random msg receivers sender h)) /\
  (forall jwe, wallet_simulates (St:=St) h (unpack_msg crypto jwe h) (unpack_msg crypto jwe h)).
Proof.
  split_and!; intros.
  - intros sv w Hw. unfold create_key. rewrite !bind_run. unfold lift. destruct (Crypto.create_key _ _ _) as [key|e| |] eqn:Hkey; [|done..].
    revert sv w Hw. apply simulates_bind; [|follow]. apply simulates_add_object; [apply _|by eauto|apply map_Forall_empty].
  - unfold crypto_sign, get_key. follow.
  - unfold set_key_metadata. apply simulates_bind; [follow|]. intros _. apply simulates_bind; [|follow].
    by apply simulates_upsert_object; [apply _|].
  - unfold get_key_metadata. follow.
  - unfold authenticated_encrypt, get_key. follow.
  - unfold authenticated_decrypt, get_key. follow.
  - unfold anonymous_decrypt, get_key. follow.
  - unfold pack_msg, _prepare_protected_authcrypt, get_key. follow.
  - unfold unpack_msg, unpack_struct, _find_correct_recipient, _unpack_cek_authcrypt, _unpack_cek_anoncrypt, get_key.
    pose proof simulates_find. follow.
Qed.
End service_commands.

(** ** A toy cryptography: a key pair is a seed twice *)

Module ToyCrypto.
#[export] Existing Instance toy_options.

Definition seed_key {n} (seed : bytes) : array_u8 n := pad n (Byte.x00 :: seed).
Definition after (prefix b : bytes) : option bytes := if decide (take (length prefix) b = prefix) then Some (drop (length prefix) b) else None.

Lemma after_app prefix b : after prefix (prefix ++ b) = Some b.
Proof. unfold after. by rewrite take_app_length, decide_True, drop_app_length by done. Qed.

Definition toy_signature (key : bytes) (msg : bytes) : Signature := pad _ (take KEYBYTES key ++ msg).
Definition toy_aead_tag (ad : bytes) (nonce : Nonce) (key : Key) : AeadTag := pad _ (take 4 (arr_bytes nonce) ++ take 4 (arr_bytes key) ++ ad).

(** Bytes that start with 0 are points of the curve. *)
#[export] Instance ed25519 : Ed25519 := {|
  keypair_from_seed := fun seed => (seed_key (arr_bytes seed), seed_key (arr_bytes seed));
  sign_detached := fun msg sk => toy_signature (arr_bytes sk) msg;
  verify_detached := fun signature msg pk => bool_decide (signature = toy_signature (arr_bytes pk) msg);
  ed25519_pk_to_curve25519 := fun pk => if decide (head (arr_bytes pk) = Some Byte.x00) then Some pk else None;
  ed25519_sk_to_curve25519 := fun sk => pad _ (arr_bytes sk);
  box_seal := fun msg nonce pk sk => arr_bytes nonce ++ arr_bytes sk ++ arr_bytes pk ++ msg;
  box_open := fun c nonce pk sk => after (arr_bytes nonce ++ arr_bytes pk ++ arr_bytes sk) c;
  sealedbox_seal := fun _ msg pk => arr_bytes pk ++ msg;
  sealedbox_open := fun c pk sk => if decide (pk = sk) then after (arr_bytes pk) c else None;
  seal_detached := fun msg ad nonce key => (msg, toy_aead_tag ad nonce key);
  open_detached := fun c ad tag nonce key => if decide (tag = toy_aead_tag ad nonce key) then Some c else None;
|}.

Lemma pad_take n (b : bytes) : n <= length b -> arr_bytes (pad n b) = take n b.
Proof. intros Hn. unfold pad. cbn [arr_bytes]. by apply take_app_le. Qed.

Lemma secret_is_public (seed : Seed) : pad KEYBYTES (arr_bytes (seed_key (n:=SECRETKEYBYTES) (arr_bytes seed))) = seed_key (arr_bytes seed).
Proof.
  apply arr_eq. unfold seed_key at 2. rewrite pad_take by (rewrite arr_length; unfold KEYBYTES, SECRETKEYBYTES; lia).
  rewrite pad_take by (cbn [length]; rewrite arr_length; unfold KEYBYTES; lia).
  unfold seed_key, pad. cbn [arr_bytes]. rewrite take_take, take_app_le; [done|].
  cbn [length]. rewrite arr_length. unfold KEYBYTES, SECRETKEYBYTES. lia.
Qed.

#[export] Instance ed25519_laws : Ed25519Laws.
Proof.
  split; cbn -[seed_key after pad]; intros.
  - unfold seed_key, pad. cbn. by eexists.
  - apply bool_decide_eq_true. unfold toy_signature. do 2 f_equal. rewrite <-secret_is_public.
    rewrite pad_take by (rewrite arr_length; unfold KEYBYTES, SECRETKEYBYTES; lia). by rewrite take_take.
  - repeat case_decide; simplify_eq. rewrite !secret_is_public, !app_assoc. apply after_app.
  - repeat case_decide; simplify_eq; [apply after_app|]. by rewrite secret_is_public in *.
  - case_decide; naive_solver.
Qed.

#[export] Instance base58 : Base58 := {| to_base58 := toy_encode; from_base58 := fun s => Some (toy_decode s) |}.

(** Texts as lists of strings *)
Definition pack_texts (l : list (list (option string))) : string := bits (encode l).
Definition unpack_texts (s : string) : option (list (list (option string))) := p ← unbits s; decode p.

Lemma pack_texts_back l : unpack_texts (pack_texts l) = Some l.
Proof. unfold unpack_texts, pack_texts. rewrite unbits_bits. cbn. by rewrite decode_encode. Qed.

#[export] Instance texts : CryptoTexts := {|
  encode64 := toy_encode; decode64 := fun s => Some (toy_decode s);
  encode64_urlsafe := toy_encode; decode64_urlsafe := fun s => Some (toy_decode s);
  from_hex := fun s => Some (toy_decode s);
  combo_to_msg_pack := fun c => Some (as_bytes (pack_texts [[Some (cb_msg c); Some (cb_sender c); Some (cb_nonce c)]]));
  combo_from_msg_pack := fun b => l ← unpack_texts (string_of_bytes b);
    match l with [[Some m; Some s; Some n]] => Some (mk_combo_box m s n) | _ => None end;
|}.

#[export] Instance texts_laws : CryptoTextsLaws.
Proof.
  split; cbn; intros.
  - by rewrite toy_decode_encode.
  - apply toy_encode_plain.
  - apply toy_encode_utf8.
  - by rewrite toy_decode_encode.
  - by rewrite toy_decode_encode.
  - apply toy_encode_utf8.
  - eexists. split; [done|]. rewrite string_of_as_bytes, pack_texts_back. by destruct c.
Qed.

Definition recipient_parts (r : Recipient) : list (option string) :=
  [Some (encrypted_key r); Some (kid (header r)); hd_iv (header r); hd_sender (header r)].
Definition recipient_of (l : list (option string)) : option Recipient :=
  match l with [Some e; Some k; iv; s] => Some (mk_recipient e (mk_header k iv s)) | _ => None end.

#[export] Instance pack_codecs : PackCodecs := {|
  receivers_from_str := fun s => l ← unpack_texts s; Some (omap id (concat l));
  protected_to_string := fun p => Some (pack_texts ([Some (enc p); Some (typ p); Some (alg p)] :: (recipient_parts <$> recipients p)));
  protected_from_str := fun s => l ← unpack_texts s;
    match l with [Some e; Some t; Some a] :: rs => Some (mk_protected e t a (omap recipient_of rs)) | _ => None end;
  jwe_to_vec := fun j => Some (as_bytes (pack_texts [[Some (jwe_protected j); Some (jwe_iv j); Some (jwe_ciphertext j); Some (jwe_tag j)]]));
  jwe_from_slice := fun b => l ← unpack_texts (string_of_bytes b);
    match l with [[Some p; Some i; Some c; Some t]] => Some (mk_jwe p i c t) | _ => None end;
  unpack_message_to_vec := fun u => Some (as_bytes (pack_texts [[Some (message u); Some (recipient_verkey u); sender_verkey u]]));
|}.

#[export] Instance pack_laws : PackCodecsLaws.
Proof.
  split; cbn -[pack_texts unpack_texts]; intros.
  - eexists. split_and!; [done|apply bits_utf8|]. rewrite pack_texts_back. cbn. destruct p as [e t a rs]. do 2 f_equal. cbn.
    induction rs as [|[k []] rs IH]; [done|]. csimpl. by rewrite IH.
  - eexists. split; [done|]. rewrite string_of_as_bytes, pack_texts_back. by destruct j.
  - by eexists.
Qed.

#[export] Instance key_object : IndyObject KeyPair := text_object "Key"%string (fun k => [key_verkey k; key_signkey k])
  (fun l => match l with [v; s] => mk_key v s | _ => mk_key ""%string ""%string end).
#[export] Instance key_laws : ObjectLaws KeyPair.
Proof. apply text_object_laws; [by intros []|reflexivity]. Qed.

#[export] Instance metadata_object : IndyObject KeyMetadata := text_object "KeyMetadata"%string km_value mk_key_metadata.
#[export] Instance metadata_laws : ObjectLaws KeyMetadata.
Proof. apply text_object_laws; [by intros []|reflexivity]. Qed.

(** *** Two wallets, and messages between them *)

Definition seed_of (b : Byte.byte) : Seed := toy_key b.
Definition alice : Seed := seed_of Byte.x0a.
Definition bob : Seed := seed_of Byte.x0b.
Definition carol : Seed := seed_of Byte.x0c.

Definition wallet_of (seed : Seed) : WalletMap :=
  {[(type_of KeyPair, key_verkey (key_of seed)) := (default ""%string (object_to_string (key_of seed)), ∅)]}.

Lemma wallet_holds seed : holds (wallet_of seed) seed.
Proof. unfold holds, object_at, wallet_of. rewrite lookup_singleton_eq. exact (object_roundtrip (T:=KeyPair) (key_of seed) _ eq_refl). Qed.

Lemma toy_values_read : values_read.
Proof. eexists. split; reflexivity. Qed.

Definition random : PackRandom := mk_pack_random (toy_key Byte.x11) (toy_nonce Byte.x12) (fun _ => pad _ [Byte.x13]) (fun _ => toy_key Byte.x14).
Definition receivers : string := pack_texts [Some <$> ((fun s => key_verkey (key_of s)) <$> [bob; carol])].

(** Carol's wallet does not have the first receiver's key. *)
Lemma carol_knows seed : seed ∈ [bob; carol] -> known (wallet_of carol) seed -> holds (wallet_of carol) seed.
Proof.
  intros Hin Hk. assert (seed = carol) as ->; [|apply wallet_holds].
  apply elem_of_cons in Hin as [Hin|Hin%list_elem_of_singleton]; subst; [|done]. exfalso. revert Hk. unfold known, wallet_of.
  rewrite lookup_singleton_ne; [by intros []|]. intros [=].
Qed.

Lemma packed_message_unpacks_witness : exists jwe out,
  pack_msg CryptoService_new random (as_bytes "hello") receivers (Some (key_verkey (key_of alice))) 1 (wallet_of alice) = (Ok jwe, wallet_of alice) /\
  unpack_msg CryptoService_new jwe 2 (wallet_of carol) = (Ok out, wallet_of carol) /\
  unpack_message_to_vec (mk_unpack_message "hello" (key_verkey (key_of carol)) (Some (key_verkey (key_of alice)))) = Some out.
Proof.
  destruct (packed_message_unpacks random "hello" receivers [bob; carol] (Some alice) 1 2 (wallet_of alice) (wallet_of carol)) as (jwe & Hpack & Hun).
  - exact toy_values_read.
  - reflexivity.
  - vm_compute. reflexivity.
  - discriminate.
  - intros s [= <-]. apply wallet_holds.
  - exact carol_knows.
  - assert (list_find (fun seed => in_wallet (wallet_of carol) seed = true) [bob; carol] = Some (1, carol)) as Hfind by (vm_compute; reflexivity).
    rewrite Hfind in Hun. destruct Hun as (out & Hout & Hprint). exists jwe, out. split; [exact Hpack|split; [exact Hout|exact Hprint]].
Defined.

(** A message of bare parts: the content key is sealed for bob. *)
Definition sealed_key : string := toy_encode (sealedbox_seal (toy_key Byte.x14) (arr_bytes (toy_key Byte.x11)) (seed_key (arr_bytes bob))).
Definition protected_of (r : Recipient) : string := pack_texts [[Some "e"; Some "t"; Some "a"]; recipient_parts r]%string.
Definition jwe_of (r : Recipient) : JWE :=
  let protected := toy_encode (as_bytes (protected_of r)) in
  let '(ct, iv, tag) := encrypt_plaintext (toy_nonce Byte.x12) (as_bytes "hello") protected (toy_key Byte.x11) in
  mk_jwe protected iv ct tag.
Definition bytes_of (j : JWE) : bytes := default [] (jwe_to_vec j).

Lemma jwe_back j : jwe_from_slice (bytes_of j) = Some j.
Proof. unfold bytes_of. destruct (jwe_roundtrip j) as (b & Hb & Hback). by rewrite Hb. Qed.

Lemma unpacked_was_sealed_witness : exists jwe u, unpack_struct CryptoService_new jwe 2 (wallet_of bob) = (Ok u, wallet_of bob) /\
  message u = "hello"%string /\ exists j cek ct nonce tag, jwe_from_slice jwe = Some j /\
    seal_detached (as_bytes "hello") (as_bytes (jwe_protected j)) nonce cek = (ct, tag).
Proof.
  destruct (protected_for random [bob] None) as (rs & _ & Hrs). destruct (protected_text rs false) as [b64 Hb].
  destruct (encrypt_plaintext (rnd_nonce random) (as_bytes "hello") b64 (rnd_cek random)) as [[ct0 iv0] tag0] eqn:Hct.
  destruct (formatted_unpacks random rs false "hello" b64 ct0 iv0 tag0 [bob] None 2 (wallet_of bob) toy_values_read eq_refl Hrs Hb Hct)
    as (jwe & _ & Hu); [by intros seed ->%list_elem_of_singleton _; apply wallet_holds|].
  assert (list_find (fun seed => in_wallet (wallet_of bob) seed = true) [bob] = Some (0, bob)) as Hfind by (vm_compute; reflexivity).
  rewrite Hfind in Hu. exists jwe, (mk_unpack_message "hello" (key_verkey (key_of bob)) None).
  destruct (unpacked_was_sealed CryptoService_new jwe 2 (wallet_of bob) _ (wallet_of bob) toy_values_read Hu)
    as (_ & j & p & b & r & key & cek & ct & nonce & tag & Hj & _ & _ & _ & _ & _ & _ & _ & _ & _ & Hseal).
  split; [exact Hu|split; [reflexivity|]]. exists j, cek, ct, nonce, tag. split; [exact Hj|exact Hseal].
Defined.

(** A recipient with a sender and no nonce *)
Definition no_iv : Recipient := mk_recipient sealed_key (mk_header (key_verkey (key_of bob)) None (Some "aa"%string)).

Lemma missing_iv_unwinds_witness : unpack_msg CryptoService_new (bytes_of (jwe_of no_iv)) 2 (wallet_of bob) = (Panic, wallet_of bob).
Proof.
  apply (missing_iv_unwinds CryptoService_new (bytes_of (jwe_of no_iv)) 2 (wallet_of bob) (jwe_of no_iv)
    (mk_protected "e" "t" "a" [no_iv]) (protected_of no_iv) (key_verkey (key_of bob)) [] sealed_key "aa" (key_of bob)).
  - exact toy_values_read.
  - apply jwe_back.
  - cbn [jwe_of jwe_protected]. exact (f_equal Some (toy_decode_encode _)).
  - apply bits_utf8.
  - unfold protected_of. cbn -[pack_texts unpack_texts]. by rewrite pack_texts_back.
  - reflexivity.
  - by eexists.
  - apply wallet_holds.
Defined.

Lemma boxes_and_signatures_witness : exists boxed,
  authenticated_encrypt CryptoService_new (pad _ [Byte.x13]) (toy_key Byte.x14) 1 (key_verkey (key_of alice)) (key_verkey (key_of bob)) [Byte.x01]
    (wallet_of alice) = (Ok boxed, wallet_of alice) /\
  authenticated_decrypt CryptoService_new 2 (key_verkey (key_of bob)) boxed (wallet_of bob) = (Ok (key_verkey (key_of alice), [Byte.x01]), wallet_of bob).
Proof.
  exact (proj1 (proj2 (boxes_and_signatures (pad _ [Byte.x13]) (toy_key Byte.x14) alice bob [Byte.x01] 1 2 (wallet_of alice) (wallet_of bob)
    toy_values_read (wallet_holds alice) (wallet_holds bob)))).
Defined.

Definition off_curve : PublicKey := toy_key Byte.xff.

Lemma invalid_verkey_accepted_witness :
  validate_key CryptoService_new (to_base58 (arr_bytes off_curve)) = Ok tt /\
  anonymous_encrypt CryptoService_new (toy_key Byte.x14) (to_base58 (arr_bytes off_curve)) [Byte.x01] = Ok (sealedbox_seal (toy_key Byte.x14) [Byte.x01] zeroes).
Proof. apply (invalid_verkey_accepted off_curve (toy_key Byte.x14) [Byte.x01]). reflexivity. Defined.

(** *** An empty wallet behind the handle 7 *)

#[local] Existing Instances ToyCipher ToyHmac ToyLike key_order debug_machine.
#[local] Instance toy_sqlite_on : Sqlite := toy_sqlite true.
#[local] Instance toy_laws : WalletStorageLaws Database SQLiteStorageIterator := SQLiteStorageLaws eq_refl.

Definition empty_service : WalletService Database :=
  mk_service ∅ {[7%Z := mk_wallet "first" "place" toy_keys]} ∅ ∅ {["place"%string := empty_db]} ∅ 7.

Lemma empty_service_stands : stands_for empty_service 7 ∅.
Proof. exists (mk_wallet "first" "place" toy_keys), empty_db. split_and!; [done|done|exact empty_stored|exact empty_represented]. Qed.

Lemma crypto_refines_map_witness :
  (crypto_sign (W:=WalletService Database) CryptoService_new 7 (key_verkey (key_of bob)) [Byte.x01] empty_service).1 = Err WalletItemNotFound.
Proof.
  destruct (crypto_refines_map (St:=Database) CryptoService_new 7) as (_ & Hsign & _).
  destruct (Hsign (key_verkey (key_of bob)) [Byte.x01] empty_service ∅ empty_service_stands) as [Hr _]. rewrite Hr. vm_compute. reflexivity.
Defined.
End ToyCrypto.
