(* ===== verification/RequestSigning.v ===== *)
(** * RequestSigning: the text of a request that is signed, and signing it

    Models [libindy/src/utils/crypto/signature_serializer.rs] and, of
    [libindy/src/commands/ledger.rs], [_sign_request] with the commands [sign_request] and
    [multi_sign_request].  A number is written as serde_json prints it; [hex] is a class. *)

From stdpp Require Import gmap.
From S2P Require Import Prelude Errors Hashing Json Wql PoolTypes Encryption Crypto QueryEncryption Storage Wallet WalletService WalletServiceFacts IndyWallet CryptoCommands.

(** [hex::ToHex] *)
Class Hex := { to_hex : bytes -> string }.

(** ** [signature_serializer.rs] *)

Section serializer.
Context `{Sha256} `{JsonText} `{Hex}.

Definition is_attrib (type_ : option string) : bool := bool_decide (type_ = Some "100"%string \/ type_ = Some "104"%string).

(** The fields that are left out of the signed text of a request, and those that are hashed
    in one about attributes *)
Definition skipped (key : string) : bool := bool_decide (key ∈ ["signature"; "fees"; "signatures"]%string).
Definition hashed (key : string) : bool := bool_decide (key ∈ ["raw"; "hash"; "enc"]%string).

Definition hash_value (value : SJsonValue) : IndyResult string :=
  text ← ok_or (as_str value) InvalidState;
  digest ← Hash.hash (as_bytes text);
  Ok (to_hex digest).

Fixpoint _serialize_signature (v : SJsonValue) (is_top_level : bool) (type_ : option string) {struct v} : IndyResult string :=
  match v with
  | Bool value => Ok (if value then "True" else "False")%string
  | Number value => Ok (to_string (Number value))
  | String_ value => Ok value
  | Array array =>
      (** [array.map(...).collect()] *)
      res ← (fix elements array := match array with
        | [] => Ok []
        | element :: array =>
            text ← _serialize_signature element false type_; texts ← elements array; Ok (text :: texts)
        end) array;
      Ok (join "," res)
  | Object map =>
      (** [for key in map.keys()], from the [result] so far *)
      (fix keys map in_middle result := match map with
        | [] => Ok result
        | (key, value) :: map =>
            if is_top_level && skipped key then keys map in_middle result
            else
              let result := if in_middle : bool then (result +:+ "|")%string else result in
              text ← (if is_attrib type_ && hashed key then hash_value value else _serialize_signature value false type_);
              keys map true (result +:+ key +:+ ":" +:+ text)%string
        end) map false EmptyString
  | Null => Ok EmptyString
  end.

Definition serialize_signature (v : SJsonValue) : IndyResult string :=
  _serialize_signature v true (as_str (index (index v "operation") "type")).
End serializer.

(** ** [commands/ledger.rs] *)

(** [SignatureType] of the file *)
Inductive SignatureType := Single | Multi.

Section signing.
Context `{Sha256} `{JsonText} `{Hex} `{Ed25519} `{Base58} `{OptionCodecs}.
Context `{!IndyObject KeyPair} `{!IndyObject Did}.
Context {W : Type} `{!IndyWallet W}.
Context (crypto_service : CryptoService).

(** [request.contains_key(key)] *)
Definition contains_key (request : SJsonMap) (key : string) : bool := bool_decide (is_Some (obj_get key request)).

(** The signature of one is put under [signature], those of many under [signatures], by DID. *)
Definition put_signature (signature_type : SignatureType) (submitter_did : string) (signature : bytes) (request : SJsonMap) :
    IndyResult SJsonMap :=
  match signature_type with
  | Single => Ok (obj_insert "signature" (String_ (to_base58 signature)) request)
  | Multi =>
      let request := if contains_key request "signatures" then request else obj_insert "signatures" (Object []) request in
      signatures ← unwrap (as_object (index (Object request) "signatures"));
      Ok (obj_insert "signatures" (Object (obj_insert submitter_did (String_ (to_base58 signature)) signatures)) request)
  end.

Definition _sign_request (wallet_handle : Z) (submitter_did request_json : string) (signature_type : SignatureType) :
    StateM IndyErrorKind W string :=
  my_did ← iw_get_indy_object Did wallet_handle submitter_did RecordOptions_id_value;
  my_key ← iw_get_indy_object KeyPair wallet_handle (did_verkey my_did) RecordOptions_id_value;
  request ← lift (ok_or (from_str request_json) InvalidStructure);
  request ← lift (ok_or (as_object request) InvalidStructure);
  serialized_request ← lift (serialize_signature (Object request));
  signature ← lift (sign crypto_service my_key (as_bytes serialized_request));
  request ← lift (put_signature signature_type submitter_did signature request);
  mret (to_string (Object request)).

Definition sign_request (wallet_handle : Z) (submitter_did request_json : string) : StateM IndyErrorKind W string :=
  _sign_request wallet_handle submitter_did request_json Single.

Definition multi_sign_request (wallet_handle : Z) (submitter_did request_json : string) : StateM IndyErrorKind W string :=
  _sign_request wallet_handle submitter_did request_json Multi.
End signing.
