(* ===== verification/SigningFacts.v ===== *)
(** * SigningFacts: what a signature on a request covers

    Theorems on [RequestSigning.v]: signatures, and only they, are left out of the signed
    text, so that a signed request is verified as it is sent and many can sign one request;
    what the signed text does not tell apart; requests that make the command unwind. *)

From stdpp Require Import gmap.
From S2P Require Import Prelude Errors Hashing Json Wql PoolTypes Encryption Crypto QueryEncryption WqlToSql Storage SqliteStorage SqliteFacts Wallet WalletService WalletServiceFacts IndyWallet ToyTexts CryptoCommands CryptoFacts RequestSigning.

(** ** The signed text *)

Section text.
Context `{Sha256} `{JsonText} `{Hex}.
Implicit Types (m : SJsonMap).

(** The loop over the fields of an object *)
Fixpoint fields_text (top : bool) (type_ : option string) m (in_middle : bool) (result : string) : IndyResult string :=
  match m with
  | [] => Ok result
  | (key, value) :: m =>
      if top && skipped key then fields_text top type_ m in_middle result
      else
        text ← (if is_attrib type_ && hashed key then hash_value value else _serialize_signature value false type_);
        fields_text top type_ m true ((if in_middle then (result +:+ "|")%string else result) +:+ key +:+ ":" +:+ text)%string
  end.

Lemma object_text m top type_ : _serialize_signature (Object m) top type_ = fields_text top type_ m false EmptyString.
Proof.
  cbn [_serialize_signature]. match goal with |- ?f m false EmptyString = _ =>
    enough (forall m mid r, f m mid r = fields_text top type_ m mid r) as E by apply E end.
  clear m. induction m as [|[k v] m IH]; intros mid r; cbn; [done|]. case_match; [apply IH|].
  destruct (if is_attrib type_ && hashed k then hash_value v else _serialize_signature v false type_); cbn; [apply IH|done..].
Qed.

Lemma fields_insert_skipped type_ k v m : skipped k = true -> forall mid r,
  fields_text true type_ (obj_insert k v m) mid r = fields_text true type_ m mid r.
Proof.
  intros Hk. induction m as [|[k' v'] m IH]; intros mid r; cbn; [by rewrite Hk|].
  case_decide as Heq; [subst; cbn; by rewrite Hk|]. destruct (key_lt k k'); cbn; [by rewrite Hk|].
  destruct (skipped k'); cbn; [apply IH|]. destruct (if is_attrib type_ && hashed k' then hash_value v' else _); cbn; [apply IH|done..].
Qed.

Lemma operation_not_skipped k : skipped k = true -> "operation"%string <> k.
Proof. unfold skipped. intros Hk%bool_decide_eq_true <-. set_solver. Qed.

(** A field that is skipped does not change the signed text. *)
Lemma serialize_insert_skipped k v m : skipped k = true -> serialize_signature (Object (obj_insert k v m)) = serialize_signature (Object m).
Proof.
  intros Hk. unfold serialize_signature. rewrite !object_text, fields_insert_skipped by done. f_equal. cbn [index].
  rewrite obj_get_insert, decide_False by (by apply operation_not_skipped). done.
Qed.

(** two requests have the same signed text when one has in a text what the other has in another field,
    or a text where the other has a number, a boolean or nothing, or an array where the other has a
    text with a comma: a signature on one is a signature on the other. *)
Theorem signed_text_ambiguous k k' x y n b : skipped k = false -> skipped k' = false ->
  serialize_signature (Object [(k, String_ (x +:+ "|" +:+ k' +:+ ":" +:+ y)%string)]) = serialize_signature (Object [(k, String_ x); (k', String_ y)]) /\
  serialize_signature (Object [(k, String_ (to_string (Number n)))]) = serialize_signature (Object [(k, Number n)]) /\
  serialize_signature (Object [(k, String_ (if b : bool then "True" else "False")%string)]) = serialize_signature (Object [(k, Bool b)]) /\
  serialize_signature (Object [(k, String_ "")]) = serialize_signature (Object [(k, Null)]) /\
  serialize_signature (Object [(k, Array [String_ x; String_ y])]) = serialize_signature (Object [(k, String_ (x +:+ "," +:+ y)%string)]).
Proof.
  intros Hk Hk'. assert (forall m, Forall (fun p => is_object p.2 = false) m -> as_str (index (index (Object m) "operation") "type") = None) as Hty.
  { intros m Hm. cbn [index]. destruct (obj_get "operation" m) as [v|] eqn:Hv; [|done]. cbn.
    enough (is_object v = false) by (by destruct v). clear -Hm Hv. induction Hm as [|[k0 v0] m Hv0 _ IH]; cbn in Hv; [done|].
    case_decide; [by simplify_eq|by apply IH]. }
  unfold serialize_signature. rewrite !Hty by (repeat constructor). rewrite !object_text. cbn -[String.append]. rewrite ?Hk, ?Hk'.
  change (is_attrib None) with false. cbn -[String.append]. split_and!; [|done..].
  apply (f_equal Ok). by rewrite !str_app_assoc.
Qed.
End text.

(** ** The signatures *)

Lemma obj_insert_again k v v' m : obj_insert k v (obj_insert k v' m) = obj_insert k v m.
Proof.
  induction m as [|[k1 v1] m IH]; cbn; [by rewrite decide_True|]. case_decide; cbn; [by rewrite decide_True|].
  destruct (key_lt k k1) eqn:Hlt; cbn; [by rewrite decide_True|]. by rewrite decide_False, Hlt, IH.
Qed.

Section signing.
Context `{Sha256} `{JsonText} `{Hex} `{Ed25519} `{!Ed25519Laws} `{Base58} `{CryptoTexts} `{!CryptoTextsLaws} `{OptionCodecs}.
Context `{!IndyObject KeyPair} `{!ObjectLaws KeyPair} `{!IndyObject Did}.
Implicit Types (w : WalletMap) (h : Z) (seed : Seed) (m sigs : SJsonMap).

(** The signatures of many that a request has *)
Definition signed_by m sigs : Prop := obj_get "signatures" m = Some (Object sigs) \/ obj_get "signatures" m = None /\ sigs = [].

Definition with_signature did signature sigs m : SJsonMap :=
  obj_insert "signatures" (Object (obj_insert did (String_ (to_base58 signature)) sigs)) m.

Lemma multi_put did signature m sigs : signed_by m sigs -> put_signature Multi did signature m = Ok (with_signature did signature sigs m).
Proof.
  unfold put_signature, contains_key. intros [Hs|[Hs ->]].
  - rewrite bool_decide_true by (by rewrite Hs). cbn [index]. by rewrite Hs.
  - rewrite bool_decide_false by (rewrite Hs; by intros []). cbn [index]. rewrite obj_get_insert, decide_True by done. cbn.
    unfold with_signature. by rewrite obj_insert_again.
Qed.

(** A DID of the wallet whose key pair is in the wallet *)
Definition signer w did seed : Prop := object_at Did w did = Some (mk_did did (key_verkey (key_of seed))) /\ holds w seed.

(** The run of [_sign_request]: the signature is made over the signed text. *)
Lemma sign_run w h did seed json m text type_ signature : values_read -> signer w did seed ->
  from_str json = Some (Object m) -> serialize_signature (Object m) = Ok text ->
  sign CryptoService_new (key_of seed) (as_bytes text) = Ok signature ->
  _sign_request CryptoService_new h did json type_ w = (to_string ∘ Object <$> put_signature type_ did signature m, w).
Proof.
  intros Hv [Hdid Hkey] Hj Ht Hs. unfold _sign_request. stepped (map_get_object Did h did w _ Hv Hdid). cbn [did_verkey].
  stepped (get_held h w seed Hv Hkey). rewrite Hj. cbn [ok_or]. returned. cbn [as_object ok_or]. returned.
  lifted Ht. lifted Hs. rewrite bind_run. unfold lift. by destruct (put_signature _ _ _ _).
Qed.

Lemma sign_of_key seed msg : exists signature, sign CryptoService_new (key_of seed) msg = Ok signature /\
  verify CryptoService_new (key_verkey (key_of seed)) msg signature = Ok true.
Proof. apply sign_verify. Qed.

(** a request that is signed for a DID of the wallet keeps its fields; it has the signature, which is over
    the signed text of the request as it was and as it is sent, and which the verkey of the DID
    verifies.  Signing as one of many keeps the signatures of the others, and unwinds when the
    request has signatures that are not an object. *)
Theorem signed_request_verifies w h did seed json m text : values_read -> signer w did seed ->
  from_str json = Some (Object m) -> serialize_signature (Object m) = Ok text ->
  exists signature, verify CryptoService_new (key_verkey (key_of seed)) (as_bytes text) signature = Ok true /\
    (let m' := obj_insert "signature" (String_ (to_base58 signature)) m in
     sign_request CryptoService_new h did json w = (Ok (to_string (Object m')), w) /\ serialize_signature (Object m') = Ok text /\
     (forall k, k <> "signature"%string -> obj_get k m' = obj_get k m)) /\
    (forall sigs, signed_by m sigs -> let m' := with_signature did signature sigs m in
     multi_sign_request CryptoService_new h did json w = (Ok (to_string (Object m')), w) /\ serialize_signature (Object m') = Ok text /\
     (forall k, k <> "signatures"%string -> obj_get k m' = obj_get k m) /\
     exists sigs', obj_get "signatures" m' = Some (Object sigs') /\ obj_get did sigs' = Some (String_ (to_base58 signature)) /\
       forall other, other <> did -> obj_get other sigs' = obj_get other sigs) /\
    (forall v, obj_get "signatures" m = Some v -> is_object v = false -> multi_sign_request CryptoService_new h did json w = (Panic, w)).
Proof.
  intros Hv Hs Hj Ht. destruct (sign_of_key seed (as_bytes text)) as (signature & Hsign & Hverify). exists signature.
  pose proof (fun type_ => sign_run w h did seed json m text type_ signature Hv Hs Hj Ht Hsign) as Hrun. unfold with_signature.
  split; [done|]. split; [|split]; [split_and!|intros sigs Hsigs; split_and!|].
  - apply (Hrun Single).
  - by rewrite serialize_insert_skipped.
  - intros k Hk. by rewrite obj_get_insert, decide_False.
  - unfold multi_sign_request. by rewrite (Hrun Multi), (multi_put _ _ _ _ Hsigs).
  - by rewrite serialize_insert_skipped.
  - intros k Hk. by rewrite obj_get_insert, decide_False.
  - eexists. rewrite obj_get_insert, decide_True by done. split; [done|]. rewrite obj_get_insert, decide_True by done. split; [done|].
    intros other Ho. by rewrite obj_get_insert, decide_False.
  - intros v Hm Hno. unfold multi_sign_request. rewrite (Hrun Multi). unfold put_signature, contains_key.
    rewrite bool_decide_true by (by rewrite Hm). cbn [index]. rewrite Hm. cbn [default]. by destruct v.
Qed.

(** *** Signers one after the other, each with a wallet *)

Record Signer := mk_signer { sg_handle : Z; sg_did : string; sg_seed : Seed; sg_wallet : WalletMap }.

Fixpoint sign_all (signers : list Signer) (json : string) : IndyResult string :=
  match signers with
  | [] => Ok json
  | s :: signers =>
      json ← (multi_sign_request CryptoService_new (sg_handle s) (sg_did s) json (sg_wallet s)).1;
      sign_all signers json
  end.

(** The signature of one is in the request. *)
Definition verified text sigs (s : Signer) : Prop := exists signature, obj_get (sg_did s) sigs = Some (String_ (to_base58 signature)) /\
  verify CryptoService_new (key_verkey (key_of (sg_seed s))) (as_bytes text) signature = Ok true.

Definition all_texts sigs : Prop := Forall (fun p => is_Some (as_str p.2)) sigs.

Lemma all_texts_insert k t sigs : all_texts sigs -> all_texts (obj_insert k (String_ t) sigs).
Proof.
  induction 1 as [|[k1 v1] sigs Hv Hs IH]; cbn; [by repeat constructor|]. repeat case_match; repeat constructor; try done; by eexists.
Qed.

Lemma sign_rest m text : values_read -> serialize_signature (Object m) = Ok text ->
  (forall sigs, all_texts sigs -> let m' := obj_insert "signatures" (Object sigs) m in from_str (to_string (Object m')) = Some (Object m')) ->
  forall signers, Forall (fun s => signer (sg_wallet s) (sg_did s) (sg_seed s)) signers -> NoDup (sg_did <$> signers) ->
  forall sigs, all_texts sigs -> exists sigs',
    sign_all signers (to_string (Object (obj_insert "signatures" (Object sigs) m))) = Ok (to_string (Object (obj_insert "signatures" (Object sigs') m))) /\
    Forall (verified text sigs') signers /\ (forall did, did ∉ sg_did <$> signers -> obj_get did sigs' = obj_get did sigs).
Proof.
  intros Hv Ht Hback. induction signers as [|s signers IH]; intros Hs Hnd sigs Hsigs; [by exists sigs|].
  apply Forall_cons in Hs as [Hs Hrest]. rewrite fmap_cons in Hnd. apply NoDup_cons in Hnd as [Hfresh Hnd].
  destruct (sign_of_key (sg_seed s) (as_bytes text)) as (signature & Hsign & Hverify).
  destruct (IH Hrest Hnd _ (all_texts_insert (sg_did s) (to_base58 signature) sigs Hsigs)) as (sigs' & Hrun & Hall & Hkept). exists sigs'.
  assert (serialize_signature (Object (obj_insert "signatures" (Object sigs) m)) = Ok text) as Ht' by (by rewrite serialize_insert_skipped).
  split_and!.
  - cbn [sign_all]. unfold multi_sign_request at 1. rewrite (sign_run _ _ _ _ _ _ _ Multi _ Hv Hs (Hback sigs Hsigs) Ht' Hsign).
    rewrite (multi_put _ _ _ sigs) by (left; by rewrite obj_get_insert, decide_True). cbn [fst fmap outcome_fmap mbind outcome_bind compose].
    unfold with_signature. by rewrite obj_insert_again.
  - constructor; [|done]. exists signature. by rewrite Hkept, obj_get_insert, decide_True.
  - intros did Hdid. rewrite fmap_cons, not_elem_of_cons in Hdid. destruct Hdid as [Hne Hdid]. by rewrite Hkept, obj_get_insert, decide_False.
Qed.

(** C13: when signers with different DIDs sign a request one after the other, each with a wallet of its own, the
    request that the last one returns has a signature of each, which the signer's verkey verifies over
    the text that all of them signed. *)
Theorem signers_all_verify m text json signers : values_read -> from_str json = Some (Object m) -> obj_get "signatures" m = None ->
  serialize_signature (Object m) = Ok text ->
  (forall sigs, all_texts sigs -> let m' := obj_insert "signatures" (Object sigs) m in from_str (to_string (Object m')) = Some (Object m')) ->
  Forall (fun s => signer (sg_wallet s) (sg_did s) (sg_seed s)) signers -> NoDup (sg_did <$> signers) -> signers <> [] ->
  exists sigs, let m' := obj_insert "signatures" (Object sigs) m in
    sign_all signers json = Ok (to_string (Object m')) /\ serialize_signature (Object m') = Ok text /\ Forall (verified text sigs) signers.
Proof.
  intros Hv Hj Hnone Ht Hback Hs Hnd Hne. destruct signers as [|s signers]; [done|].
  destruct (sign_of_key (sg_seed s) (as_bytes text)) as (signature & Hsign & _).
  destruct (sign_rest m text Hv Ht Hback (s :: signers) Hs Hnd [] (Forall_nil_2 _)) as (sigs & Hrun & Hall & _). exists sigs.
  split_and!; [|by rewrite serialize_insert_skipped|done]. rewrite <-Hrun. cbn [sign_all]. f_equal.
  apply Forall_cons in Hs as [Hs _]. unfold multi_sign_request.
  assert (serialize_signature (Object (obj_insert "signatures" (Object []) m)) = Ok text) as Ht' by (by rewrite serialize_insert_skipped).
  rewrite (sign_run _ _ _ _ json m text Multi _ Hv Hs Hj Ht Hsign), (sign_run _ _ _ _ _ _ text Multi _ Hv Hs (Hback [] (Forall_nil_2 _)) Ht' Hsign).
  rewrite (multi_put _ _ m []) by (by right). rewrite (multi_put _ _ _ []) by (left; by rewrite obj_get_insert, decide_True).
  unfold with_signature. by rewrite obj_insert_again.
Qed.
End signing.

Section service_commands.
Context `{ChaCha20Poly1305} `{HmacSha256} `{HashOrder} `{OptionCodecs} `{LikePattern}.
Context {St Iter : Type} `{!WalletStorage St Iter} `{!WalletStorageLaws St Iter}.
Context `{Sha256} `{JsonText} `{Hex} `{Ed25519} `{Base58} `{!IndyObject KeyPair} `{!IndyObject Did}.

(** The commands do to the wallet service what they do to the map. *)
Lemma signing_follows crypto h did json type_ :
  wallet_simulates (St:=St) h (_sign_request crypto h did json type_) (_sign_request crypto h did json type_).
Proof. unfold _sign_request. follow. Qed.
End service_commands.

(** ** Toy requests *)

Module ToySigning.
Import ToyCrypto.
#[local] Existing Instance ToySha.sha.
#[export] Instance hex : Hex := {| to_hex := toy_encode |}.
#[export] Instance did_object : IndyObject Did := text_object "Did"%string (fun d => [did_did d; did_verkey d])
  (fun l => match l with [d; v] => mk_did d v | _ => mk_did ""%string ""%string end).
#[export] Instance did_laws : ObjectLaws Did.
Proof. apply text_object_laws; [by intros []|reflexivity]. Qed.

(** The text of an object of texts, and of objects of texts *)
Fixpoint texts_row (sigs : SJsonMap) : list (option string) :=
  match sigs with [] => [] | (k, v) :: sigs => Some k :: as_str v :: texts_row sigs end.
Definition row (p : string * SJsonValue) : list (option string) :=
  match p.2 with Object sigs => Some p.1 :: None :: texts_row sigs | v => [Some p.1; as_str v] end.
Fixpoint row_texts (l : list (option string)) : SJsonMap :=
  match l with Some k :: Some v :: l => (k, String_ v) :: row_texts l | _ => [] end.
Definition row_of (l : list (option string)) : option (string * SJsonValue) :=
  match l with [Some k; Some v] => Some (k, String_ v) | Some k :: None :: l => Some (k, Object (row_texts l)) | _ => None end.

#[export] Instance json_text : JsonText := {|
  to_string := fun v => match v with Object m => pack_texts (row <$> m) | _ => ""%string end;
  from_str := fun s => l ← unpack_texts s; Some (Object (omap row_of l));
|}.

Lemma row_texts_back sigs : all_texts sigs -> row_texts (texts_row sigs) = sigs.
Proof. induction 1 as [|[k v] sigs [t Ht] _ IH]; [done|]. cbn in *. destruct v; simplify_eq/=. by rewrite IH. Qed.

Definition request : SJsonMap := [("identifier"%string, String_ "x"); ("reqId"%string, String_ "1")].

Lemma request_back sigs : all_texts sigs -> let m' := obj_insert "signatures" (Object sigs) request in
  from_str (to_string (Object m')) = Some (Object m').
Proof.
  intros Hs. assert (obj_insert "signatures" (Object sigs) request = request ++ [("signatures"%string, Object sigs)]) as -> by reflexivity.
  cbn -[pack_texts unpack_texts]. rewrite pack_texts_back. cbn. by rewrite row_texts_back.
Qed.

Definition json : string := to_string (Object request).

Lemma json_back : from_str json = Some (Object request).
Proof. unfold json. cbn -[pack_texts unpack_texts]. by rewrite pack_texts_back. Qed.

Definition wallet_with (did : string) (seed : Seed) : WalletMap :=
  <[(type_of Did, did) := (default ""%string (object_to_string (mk_did did (key_verkey (key_of seed)))), ∅)]> (wallet_of seed).

Lemma wallet_signer did seed : signer (wallet_with did seed) did seed.
Proof.
  unfold signer, wallet_with, object_at. rewrite lookup_insert_eq. split; [exact (object_roundtrip (T:=Did) (mk_did did _) _ eq_refl)|].
  unfold holds, object_at. rewrite lookup_insert_ne by (intros [=]). apply wallet_holds.
Qed.

Lemma signed_request_verifies_witness : exists signed,
  sign_request CryptoService_new 1 "did" json (wallet_with "did" alice) = (Ok signed, wallet_with "did" alice).
Proof.
  destruct (signed_request_verifies (wallet_with "did" alice) 1 "did" alice json request "identifier:x|reqId:1" toy_values_read
    (wallet_signer _ _) json_back eq_refl) as (signature & _ & (Hrun & _) & _). by eexists.
Defined.

Definition signers : list Signer := [mk_signer 1 "first" alice (wallet_with "first" alice); mk_signer 2 "second" bob (wallet_with "second" bob)].

Lemma signers_all_verify_witness : exists signed, sign_all signers json = Ok signed.
Proof.
  destruct (signers_all_verify request "identifier:x|reqId:1" json signers toy_values_read json_back eq_refl eq_refl request_back)
    as (sigs & Hrun & _).
  - repeat constructor; apply wallet_signer.
  - repeat constructor; set_solver.
  - discriminate.
  - by eexists.
Defined.

Lemma signed_text_ambiguous_witness :
  serialize_signature (Object [("a"%string, String_ "x|b:y")]) = serialize_signature (Object [("a"%string, String_ "x"); ("b"%string, String_ "y")]).
Proof. exact (proj1 (signed_text_ambiguous "a" "b" "x" "y" (PosInt 0) true eq_refl eq_refl)). Defined.
End ToySigning.
