(* ===== verification/Anoncreds.v ===== *)
(** * Anoncreds: proving and verifying possession of credentials

    Models [libindy/src/services/anoncreds/helpers.rs], [prover.rs] and [verifier.rs], the
    types of [libindy/src/domain/anoncreds/] that they use, and the check of
    [libindy/src/commands/anoncreds/verifier.rs].  The cryptography (indy-crypto's
    Camenisch-Lysyanskaya signatures) is the class [CL].  The theorems say which
    statements the verifier has checked when it accepts, that it accepts what the prover
    makes, and what it does not look at. *)

From Stdlib Require Import Strings.Ascii.
From stdpp Require Import gmap.
From S2P Require Import Prelude Errors Json.

(** ** Cryptography *)

Class CLTypes := {
  ClNonce : Type;
  ClProof : Type;
  ClSignature : Type;
  ClSignatureProof : Type;
  ClPrimaryKey : Type;
  ClRevocationKey : Type;
  ClPublicKey : Type;
  ClAccumKey : Type;
  ClRevReg : Type;
  ClWitness : Type;
  ClMasterSecret : Type;
  ClBlinding : Type;
  ClSchema : Type;
  ClNonSchema : Type;
  ClValues : Type;
  ClRequest : Type;
  ClProofBuilder : Type;
  ClProofVerifier : Type;
}.

(** What the prover and the verifier give for one credential. *)
Record ProverPart `{CLTypes} := mk_prover_part {
  pp_request : ClRequest;
  pp_schema : ClSchema;
  pp_non_schema : ClNonSchema;
  pp_signature : ClSignature;
  pp_values : ClValues;
  pp_key : ClPublicKey;
  pp_rev_reg : option ClRevReg;
  pp_witness : option ClWitness;
}.
Arguments mk_prover_part {_} _ _ _ _ _ _ _ _.

Record VerifierPart `{CLTypes} := mk_verifier_part {
  vp_request : ClRequest;
  vp_schema : ClSchema;
  vp_non_schema : ClNonSchema;
  vp_key : ClPublicKey;
  vp_accum : option ClAccumKey;
  vp_rev_reg : option ClRevReg;
}.
Arguments mk_verifier_part {_} _ _ _ _ _ _.

(** The functions of [indy_crypto::cl].  A builder that is made, filled and finished in one
    function is here a function of what is added to it. *)
Class CL := {
  #[export] cl_types :: CLTypes;
  build_from_parts : ClPrimaryKey -> option ClRevocationKey -> IndyResult ClPublicKey;
  credential_schema : list string -> IndyResult ClSchema;
  non_credential_schema : list string -> IndyResult ClNonSchema;
  credential_values : list (string * string) -> list (string * ClMasterSecret) -> IndyResult ClValues;
  sub_proof_request : list string -> list (string * string * Z) -> IndyResult ClRequest;
  new_proof_builder : IndyResult ClProofBuilder;
  add_common_attribute : string -> ClProofBuilder -> IndyResult ClProofBuilder;
  add_sub_proof : ProverPart -> ClProofBuilder -> IndyResult ClProofBuilder;
  finalize_proof : ClNonce -> ClProofBuilder -> IndyResult ClProof;
  new_proof_verifier : IndyResult ClProofVerifier;
  add_sub_proof_request : VerifierPart -> ClProofVerifier -> IndyResult ClProofVerifier;
  verify_cl : ClProof -> ClNonce -> ClProofVerifier -> IndyResult bool;
  process_credential_signature : ClSignature -> ClValues -> ClSignatureProof -> ClBlinding -> ClPublicKey -> ClNonce ->
    option ClAccumKey -> option ClRevReg -> option ClWitness -> IndyResult ClSignature;
}.

(** [str::to_lowercase]: the tables of Unicode are not written out. *)
Definition ascii_lower (c : Ascii.ascii) : Ascii.ascii :=
  let n := Ascii.N_of_ascii c in
  if ((65 <=? n) && (n <=? 90))%N then Ascii.ascii_of_N (n + 32) else c.

Fixpoint map_chars (f : Ascii.ascii -> Ascii.ascii) (s : string) : string :=
  match s with EmptyString => EmptyString | String c s => String (f c) (map_chars f s) end.

Definition is_ascii (s : string) : Prop := Forall (fun b => (Byte.to_N b < 128)%N) (as_bytes s).

Class Unicode := {
  to_lowercase : string -> string;
  lowercase_ascii : forall s, is_ascii s -> to_lowercase s = map_chars ascii_lower s;
}.

(** ** Data *)

Record AttributeValues := mk_attribute_values { raw : string; encoded : string }.

Record Credential `{CLTypes} := mk_credential {
  cr_schema_id : string;
  cr_cred_def_id : string;
  cr_rev_reg_id : option string;
  cr_values : gmap string AttributeValues;
  cr_signature : ClSignature;
  cr_signature_correctness_proof : ClSignatureProof;
  cr_rev_reg : option ClRevReg;
  cr_witness : option ClWitness;
}.
Arguments mk_credential {_} _ _ _ _ _ _ _ _.

Record NonRevocedInterval := mk_interval { from : option N; to : option N }.

Record AttributeInfo := mk_attribute_info {
  ai_name : string;
  ai_restrictions : option SJsonValue;
  ai_non_revoked : option NonRevocedInterval;
}.

Inductive PredicateTypes := GE.

Record PredicateInfo := mk_predicate_info {
  pi_name : string;
  p_type : PredicateTypes;
  p_value : Z;
  pi_restrictions : option SJsonValue;
  pi_non_revoked : option NonRevocedInterval;
}.

Record ProofRequest `{CLTypes} := mk_proof_request {
  pr_nonce : ClNonce;
  pr_name : string;
  pr_version : string;
  requested_attributes : gmap string AttributeInfo;
  requested_predicates : gmap string PredicateInfo;
  pr_non_revoked : option NonRevocedInterval;
}.
Arguments mk_proof_request {_} _ _ _ _ _ _.

Abbreviation ProofRequestExtraQuery := (gmap string SJsonMap).

Record ProvingCredentialKey := mk_proving_key { cred_id : string; timestamp : option N }.

#[export] Instance proving_key_eq_dec : EqDecision ProvingCredentialKey.
Proof. solve_decision. Defined.
#[export] Instance proving_key_countable : Countable ProvingCredentialKey.
Proof. refine (inj_countable' (fun k => (cred_id k, timestamp k)) (fun x => mk_proving_key x.1 x.2) _). by intros []. Defined.

Record RequestedAttribute := mk_requested_attribute { ra_key : ProvingCredentialKey; ra_revealed : bool }.

Record RequestedCredentials := mk_requested_credentials {
  self_attested_attributes : gmap string string;
  rc_attributes : gmap string RequestedAttribute;
  rc_predicates : gmap string ProvingCredentialKey;
}.

Record RequestedAttributeInfo := mk_requested_attribute_info {
  attr_referent : string;
  attr_info : AttributeInfo;
  revealed : bool;
}.

Record RequestedPredicateInfo := mk_requested_predicate_info {
  predicate_referent : string;
  predicate_info : PredicateInfo;
}.

Record RevealedAttributeInfo := mk_revealed { ri_index : Z; ri_raw : string; ri_encoded : string }.

(** [SubProofReferent] is its index. *)
Record RequestedProof := mk_requested_proof {
  revealed_attrs : gmap string RevealedAttributeInfo;
  self_attested_attrs : gmap string string;
  unrevealed_attrs : gmap string Z;
  predicates : gmap string Z;
}.

Record Identifier := mk_identifier {
  id_schema_id : string;
  id_cred_def_id : string;
  id_rev_reg_id : option string;
  id_timestamp : option N;
}.

Record Proof_ `{CLTypes} := mk_proof {
  cl_proof : ClProof;
  requested_proof : RequestedProof;
  identifiers : list Identifier;
}.
Arguments mk_proof {_} _ _ _.

Record SchemaV1 := mk_schema {
  sc_id : string;
  sc_name : string;
  sc_version : string;
  attr_names : gset string;
  seq_no : option N;
}.

Record CredentialDefinition `{CLTypes} := mk_cred_def {
  cd_id : string;
  cd_schema_id : string;
  cd_tag : string;
  cd_primary : ClPrimaryKey;
  cd_revocation : option ClRevocationKey;
}.
Arguments mk_cred_def {_} _ _ _ _ _.

Inductive IssuanceType := ISSUANCE_BY_DEFAULT | ISSUANCE_ON_DEMAND.

Record RevocationRegistryDefinitionV1 `{CLTypes} := mk_rev_reg_def {
  rd_id : string;
  rd_tag : string;
  rd_cred_def_id : string;
  rd_issuance_type : IssuanceType;
  rd_max_cred_num : N;
  rd_accum_key : ClAccumKey;
  rd_tails_hash : string;
  rd_tails_location : string;
}.
Arguments mk_rev_reg_def {_} _ _ _ _ _ _ _ _.

Record RevocationState `{CLTypes} := mk_rev_state { rs_witness : ClWitness; rs_rev_reg : ClRevReg; rs_timestamp : N }.
Arguments mk_rev_state {_} _ _ _.

(** ** [helpers.rs] *)

Section helpers.
Context `{HashOrder} `{Unicode}.

(** [str::replace(" ", "")] *)
Fixpoint remove_spaces (s : string) : string :=
  match s with
  | EmptyString => EmptyString
  | String c s => if decide (c = " "%char) then remove_spaces s else String c (remove_spaces s)
  end.

Definition attr_common_view (attr : string) : string := to_lowercase (remove_spaces attr).

(** A [HashSet] in the order of its iteration *)
Definition set_iter (s : gset string) : list string := (hash_iter (gset_to_gmap tt s)).*1.

Context `{CL}.

Definition build_credential_schema (attrs : gset string) : IndyResult ClSchema :=
  credential_schema (attr_common_view <$> set_iter attrs).

Definition build_non_credential_schema : IndyResult ClNonSchema := non_credential_schema ["master_secret"%string].

Definition build_credential_values (values : gmap string AttributeValues) (master_secret : option ClMasterSecret) :
    IndyResult ClValues :=
  credential_values ((fun kv => (attr_common_view kv.1, encoded kv.2)) <$> hash_iter values)
    (match master_secret with Some ms => [("master_secret"%string, ms)] | None => [] end).

Definition build_sub_proof_request (attrs : list AttributeInfo) (predicates : list PredicateInfo) : IndyResult ClRequest :=
  sub_proof_request ((fun a => attr_common_view (ai_name a)) <$> attrs)
    ((fun p => (attr_common_view (pi_name p), "GE"%string, p_value p)) <$> predicates).

Definition parse_cred_rev_id (cred_rev_id : string) : IndyResult N :=
  ok_or (parse_uint (2 ^ 32) cred_rev_id) InvalidStructure.
End helpers.

(** ** Texts: [Credential] and [i32] *)

Definition DELIMITER : Ascii.ascii := ":"%char.

Fixpoint split_on (d : Ascii.ascii) (s : string) : list string :=
  match s with
  | EmptyString => [EmptyString]
  | String c s =>
      let parts := split_on d s in
      if decide (c = d) then EmptyString :: parts
      else match parts with p :: ps => String c p :: ps | [] => [String c EmptyString] end
  end.

(** [str::split_terminator]: an empty part at the end is left out. *)
Definition split_terminator (d : Ascii.ascii) (s : string) : list string :=
  let parts := split_on d s in
  if decide (last parts = Some EmptyString) then take (length parts - 1) parts else parts.

(** [str::parse::<i32>]: an optional sign, then at least one digit. *)
Definition parse_i32 (s : string) : option Z :=
  match s with
  | EmptyString => None
  | String "-"%char s =>
      match s with
      | EmptyString => None
      | _ => n ← parse_digits (2 ^ 31 + 1) 0 s; Some (- Z.of_N n)%Z
      end
  | _ => n ← parse_uint (2 ^ 31) s; Some (Z.of_N n)
  end.

Section credential.
Context `{CLTypes}.

Definition schema_part (k : nat) (self : Credential) : string :=
  default ""%string (split_terminator DELIMITER (cr_schema_id self) !! k).

Definition schema_issuer_did : Credential -> string := schema_part 0.
Definition schema_name : Credential -> string := schema_part 2.
Definition schema_version : Credential -> string := schema_part 3.

(** [[0]] of an empty list unwinds. *)
Definition issuer_did (self : Credential) : IndyResult string :=
  unwrap (split_terminator DELIMITER (cr_cred_def_id self) !! 0).
End credential.

(** ** [prover.rs] *)

Section prover.
Context `{HashOrder} `{Unicode} `{CL} `{Machine} `{JsonText}.

Definition new_sub_proof_index (i : Z) : IndyResult Z :=
  if (i + 1 <? 2 ^ 31)%Z then Ok (i + 1)%Z
  else if overflow_checks then Panic
  else Ok (i + 1 - 2 ^ 32)%Z.

Abbreviation ForCredential := (list RequestedAttributeInfo * list RequestedPredicateInfo)%type.

(** [entry(key)]: the attribute is pushed to the ones that are there. *)
Definition add_attribute (proof_req : ProofRequest) (m : gmap ProvingCredentialKey ForCredential)
    (x : string * RequestedAttribute) : IndyResult (gmap ProvingCredentialKey ForCredential) :=
  attr_info ← ok_or (requested_attributes proof_req !! x.1) InvalidStructure;
  let req_attr_info := mk_requested_attribute_info x.1 attr_info (ra_revealed x.2) in
  Ok (match m !! ra_key x.2 with
      | Some (attributes_for_credential, ps) => <[ra_key x.2 := (attributes_for_credential ++ [req_attr_info], ps)]> m
      | None => <[ra_key x.2 := ([req_attr_info], [])]> m
      end).

Definition add_predicate (proof_req : ProofRequest) (m : gmap ProvingCredentialKey ForCredential)
    (x : string * ProvingCredentialKey) : IndyResult (gmap ProvingCredentialKey ForCredential) :=
  predicate_info ← ok_or (requested_predicates proof_req !! x.1) InvalidStructure;
  let req_predicate_info := mk_requested_predicate_info x.1 predicate_info in
  Ok (match m !! x.2 with
      | Some (attrs, predicates_for_credential) => <[x.2 := (attrs, predicates_for_credential ++ [req_predicate_info])]> m
      | None => <[x.2 := ([], [req_predicate_info])]> m
      end).

Definition _prepare_credentials_for_proving (requested_credentials : RequestedCredentials) (proof_req : ProofRequest) :
    IndyResult (gmap ProvingCredentialKey ForCredential) :=
  m ← foldM (add_attribute proof_req) (hash_iter (rc_attributes requested_credentials)) ∅;
  foldM (add_predicate proof_req) (hash_iter (rc_predicates requested_credentials)) m.

(** The first of the credential's attributes, in the order of its map, with the same
    common view *)
Definition get_credential_values_for_attribute (credential_attrs : gmap string AttributeValues) (requested_attr : string) :
    option AttributeValues :=
  (fun found => found.2.2) <$>
    list_find (fun kv => attr_common_view kv.1 = attr_common_view requested_attr) (hash_iter credential_attrs).

Definition update_attr (proof_req : ProofRequest) (credential : Credential) (sub_proof_index : Z) (rp : RequestedProof)
    (attr_info : RequestedAttributeInfo) : IndyResult RequestedProof :=
  if revealed attr_info then
    attribute ← unwrap (requested_attributes proof_req !! attr_referent attr_info);
    attribute_values ← ok_or (get_credential_values_for_attribute (cr_values credential) (ai_name attribute)) InvalidStructure;
    Ok (mk_requested_proof
      (<[attr_referent attr_info := mk_revealed sub_proof_index (raw attribute_values) (encoded attribute_values)]> (revealed_attrs rp))
      (self_attested_attrs rp) (unrevealed_attrs rp) (predicates rp))
  else
    Ok (mk_requested_proof (revealed_attrs rp) (self_attested_attrs rp)
      (<[attr_referent attr_info := sub_proof_index]> (unrevealed_attrs rp)) (predicates rp)).

Definition update_predicate (sub_proof_index : Z) (rp : RequestedProof) (p : RequestedPredicateInfo) : RequestedProof :=
  mk_requested_proof (revealed_attrs rp) (self_attested_attrs rp) (unrevealed_attrs rp)
    (<[predicate_referent p := sub_proof_index]> (predicates rp)).

Definition _update_requested_proof (req_attrs_for_credential : list RequestedAttributeInfo)
    (req_predicates_for_credential : list RequestedPredicateInfo) (proof_req : ProofRequest) (credential : Credential)
    (sub_proof_index : Z) (requested_proof : RequestedProof) : IndyResult RequestedProof :=
  requested_proof ← foldM (update_attr proof_req credential sub_proof_index) req_attrs_for_credential requested_proof;
  Ok (foldl (update_predicate sub_proof_index) requested_proof req_predicates_for_credential).

(** Only the attributes to be revealed *)
Definition _build_sub_proof_request (req_attrs_for_credential : list RequestedAttributeInfo)
    (req_predicates_for_credential : list RequestedPredicateInfo) : IndyResult ClRequest :=
  build_sub_proof_request (attr_info <$> filter (fun a => revealed a = true) req_attrs_for_credential)
    (predicate_info <$> req_predicates_for_credential).

Definition rev_state_for (cred_key : ProvingCredentialKey) (credential : Credential) (cred_def : CredentialDefinition)
    (rev_states : gmap string (gmap N RevocationState)) : IndyResult (option RevocationState) :=
  match cd_revocation cred_def with
  | Some _ =>
      timestamp ← ok_or (timestamp cred_key) InvalidStructure;
      rev_reg_id ← ok_or (cr_rev_reg_id credential) InvalidStructure;
      rev_states_for_timestamp ← ok_or (rev_states !! rev_reg_id) InvalidStructure;
      rev_state ← ok_or (rev_states_for_timestamp !! timestamp) InvalidStructure;
      Ok (Some rev_state)
  | None => Ok None
  end.

(** What the loop of [create_proof] changes *)
Record Proving := mk_proving {
  pv_builder : ClProofBuilder;
  pv_identifiers : list Identifier;
  pv_requested : RequestedProof;
  pv_index : Z;
}.

Section create_proof.
Context (credentials : gmap string Credential) (proof_req : ProofRequest) (requested_credentials : RequestedCredentials)
  (master_secret : ClMasterSecret) (schemas : gmap string SchemaV1) (cred_defs : gmap string CredentialDefinition)
  (rev_states : gmap string (gmap N RevocationState)).

(** The part of the proof for one credential *)
Definition prover_part (non_credential_schema : ClNonSchema) (cred_key : ProvingCredentialKey) (credential : Credential)
    (x : ForCredential) : IndyResult ProverPart :=
  schema ← ok_or (schemas !! cr_schema_id credential) InvalidStructure;
  cred_def ← ok_or (cred_defs !! cr_cred_def_id credential) InvalidStructure;
  rev_state ← rev_state_for cred_key credential cred_def rev_states;
  credential_pub_key ← build_from_parts (cd_primary cred_def) (cd_revocation cred_def);
  credential_schema ← build_credential_schema (attr_names schema);
  credential_values ← build_credential_values (cr_values credential) (Some master_secret);
  sub_proof_request ← _build_sub_proof_request x.1 x.2;
  Ok (mk_prover_part sub_proof_request credential_schema non_credential_schema (cr_signature credential) credential_values
    credential_pub_key (rs_rev_reg <$> rev_state) (rs_witness <$> rev_state)).

Definition prove_credential (non_credential_schema : ClNonSchema) (s : Proving) (x : ProvingCredentialKey * ForCredential) :
    IndyResult Proving :=
  let '(cred_key, (req_attrs_for_cred, req_predicates_for_cred)) := x in
  credential ← ok_or (credentials !! cred_id cred_key) InvalidStructure;
  part ← prover_part non_credential_schema cred_key credential (req_attrs_for_cred, req_predicates_for_cred);
  proof_builder ← add_sub_proof part (pv_builder s);
  let identifier :=
    mk_identifier (cr_schema_id credential) (cr_cred_def_id credential) (cr_rev_reg_id credential) (timestamp cred_key) in
  requested_proof ← _update_requested_proof req_attrs_for_cred req_predicates_for_cred proof_req credential (pv_index s) (pv_requested s);
  sub_proof_index ← new_sub_proof_index (pv_index s);
  Ok (mk_proving proof_builder (pv_identifiers s ++ [identifier]) requested_proof sub_proof_index).

Definition create_proof : IndyResult Proof_ :=
  proof_builder ← new_proof_builder;
  proof_builder ← add_common_attribute "master_secret" proof_builder;
  let requested_proof := mk_requested_proof ∅ (self_attested_attributes requested_credentials) ∅ ∅ in
  credentials_for_proving ← _prepare_credentials_for_proving requested_credentials proof_req;
  non_credential_schema ← build_non_credential_schema;
  s ← foldM (prove_credential non_credential_schema) (hash_iter credentials_for_proving)
    (mk_proving proof_builder [] requested_proof 0);
  proof ← finalize_proof (pr_nonce proof_req) (pv_builder s);
  Ok (mk_proof proof (pv_requested s) (pv_identifiers s)).
End create_proof.

Definition get_non_revoc_interval (global_interval local_interval : option NonRevocedInterval) : option NonRevocedInterval :=
  match local_interval with Some i => Some i | None => global_interval end.

Definition ATTRIBUTE_EXISTENCE_MARKER : string := "1".

Definition marker_tag (attr : string) : string := ("attr::" +:+ attr_common_view attr +:+ "::marker")%string.
Definition value_tag (attr : string) : string := ("attr::" +:+ attr_common_view attr +:+ "::value")%string.

Definition add_value_tags (res : gmap string string) (kv : string * AttributeValues) : gmap string string :=
  <[value_tag kv.1 := raw kv.2]> (<[marker_tag kv.1 := ATTRIBUTE_EXISTENCE_MARKER]> res).

Definition build_credential_tags (credential : Credential) : IndyResult (gmap string string) :=
  issuer_did ← issuer_did credential;
  let res : gmap string string :=
    <["rev_reg_id" := default "None" (cr_rev_reg_id credential)]> (
    <["cred_def_id" := cr_cred_def_id credential]> (
    <["issuer_did" := issuer_did]> (
    <["schema_version" := schema_version credential]> (
    <["schema_name" := schema_name credential]> (
    <["schema_issuer_did" := schema_issuer_did credential]> (
    <["schema_id" := cr_schema_id credential]> ∅))))))%string in
  Ok (foldl add_value_tags res (hash_iter (cr_values credential))).

(** The old format of restrictions: members that are [null] are skipped. *)
Definition old_restriction (sub_query : SJsonValue) : IndyResult SJsonValue :=
  m ← ok_or (as_object sub_query) InvalidStructure;
  Ok (Object (filter (fun kv => is_null kv.2 = false) m)).

Definition restriction_queries (restrictions : option SJsonValue) : IndyResult (list SJsonValue) :=
  match restrictions with
  | Some (Array array) =>
      res ← mapM old_restriction array;
      Ok (match res with [] => [] | _ => [Object [("$or"%string, Array res)]] end)
  | Some (Object object) => Ok [Object object]
  | None => Ok []
  | Some _ => Err InvalidStructure
  end.

(** The query, before it is printed *)
Definition query_value (name referent : string) (restrictions : option SJsonValue) (extra_query : option ProofRequestExtraQuery) :
    IndyResult SJsonValue :=
  let marker := Object [(marker_tag name, String_ ATTRIBUTE_EXISTENCE_MARKER)] in
  restrictions ← restriction_queries restrictions;
  let extra :=
    match extra_query ≫= (fun ex_query => ex_query !! referent) with Some q => [Object q] | None => [] end in
  Ok (Object [("$and"%string, Array (marker :: restrictions ++ extra))]).

Definition build_query (name referent : string) (restrictions : option SJsonValue)
    (extra_query : option ProofRequestExtraQuery) : IndyResult string :=
  query ← query_value name referent restrictions extra_query; Ok (to_string query).

Definition attribute_satisfy_predicate (predicate : PredicateInfo) (attribute_value : string) : IndyResult bool :=
  match p_type predicate with
  | GE => attribute_value ← ok_or (parse_i32 attribute_value) InvalidStructure; Ok (p_value predicate <=? attribute_value)%Z
  end.
End prover.

(** ** [verifier.rs] *)

Section verifier.
Context `{HashOrder} `{Unicode} `{CL} `{Machine}.

(** [index as usize] *)
Definition as_usize (i : Z) : N := Z.to_N (i mod Z.of_N usize_modulus).

Definition _get_revealed_attributes_for_credential (sub_proof_index : nat) (requested_proof : RequestedProof)
    (proof_req : ProofRequest) : list AttributeInfo :=
  omap (fun kv => if (N.of_nat sub_proof_index =? as_usize (ri_index kv.2))%N then requested_attributes proof_req !! kv.1 else None)
    (hash_iter (revealed_attrs requested_proof)).

Definition _get_predicates_for_credential (sub_proof_index : nat) (requested_proof : RequestedProof) (proof_req : ProofRequest) :
    list PredicateInfo :=
  omap (fun kv => if (N.of_nat sub_proof_index =? as_usize kv.2)%N then requested_predicates proof_req !! kv.1 else None)
    (hash_iter (predicates requested_proof)).

Section verify.
Context (full_proof : Proof_) (proof_req : ProofRequest) (schemas : gmap string SchemaV1)
  (cred_defs : gmap string CredentialDefinition) (rev_reg_defs : gmap string RevocationRegistryDefinitionV1)
  (rev_regs : gmap string (gmap N ClRevReg)).

Definition revocation_for (identifier : Identifier) (cred_def : CredentialDefinition) :
    IndyResult (option RevocationRegistryDefinitionV1 * option ClRevReg) :=
  match cd_revocation cred_def with
  | Some _ =>
      timestamp ← ok_or (id_timestamp identifier) InvalidStructure;
      rev_reg_id ← ok_or (id_rev_reg_id identifier) InvalidStructure;
      rev_reg_def ← ok_or (rev_reg_defs !! rev_reg_id) InvalidStructure;
      rev_regs_for_cred ← ok_or (rev_regs !! rev_reg_id) InvalidStructure;
      rev_reg ← ok_or (rev_regs_for_cred !! timestamp) InvalidStructure;
      Ok (Some rev_reg_def, Some rev_reg)
  | None => Ok (None, None)
  end.

(** What is verified for one identifier *)
Definition verifier_part (non_credential_schema : ClNonSchema) (sub_proof_index : nat) (identifier : Identifier) :
    IndyResult VerifierPart :=
  schema ← ok_or (schemas !! id_schema_id identifier) InvalidStructure;
  cred_def ← ok_or (cred_defs !! id_cred_def_id identifier) InvalidStructure;
  '(rev_reg_def, rev_reg) ← revocation_for identifier cred_def;
  let attrs_for_credential := _get_revealed_attributes_for_credential sub_proof_index (requested_proof full_proof) proof_req in
  let predicates_for_credential := _get_predicates_for_credential sub_proof_index (requested_proof full_proof) proof_req in
  credential_schema ← build_credential_schema (attr_names schema);
  sub_proof_request ← build_sub_proof_request attrs_for_credential predicates_for_credential;
  credential_pub_key ← build_from_parts (cd_primary cred_def) (cd_revocation cred_def);
  Ok (mk_verifier_part sub_proof_request credential_schema non_credential_schema credential_pub_key
    (rd_accum_key <$> rev_reg_def) rev_reg).

Definition verify_credential (non_credential_schema : ClNonSchema) (proof_verifier : ClProofVerifier) (x : nat * Identifier) :
    IndyResult ClProofVerifier :=
  part ← verifier_part non_credential_schema x.1 x.2;
  add_sub_proof_request part proof_verifier.

Definition verify : IndyResult bool :=
  proof_verifier ← new_proof_verifier;
  non_credential_schema ← build_non_credential_schema;
  proof_verifier ← foldM (verify_credential non_credential_schema) (imap pair (identifiers full_proof)) proof_verifier;
  verify_cl (cl_proof full_proof) (pr_nonce proof_req) proof_verifier.

(** [VerifierCommandExecutor::verify_proof] *)
Definition verify_proof : IndyResult bool :=
  let requested_attrs := dom (requested_attributes proof_req) in
  let received_attrs := dom (revealed_attrs (requested_proof full_proof)) ∪ dom (unrevealed_attrs (requested_proof full_proof))
    ∪ dom (self_attested_attrs (requested_proof full_proof)) in
  if decide (requested_attrs = received_attrs) then
    if decide (dom (requested_predicates proof_req) = dom (predicates (requested_proof full_proof))) then verify
    else Err InvalidStructure
  else Err InvalidStructure.
End verify.
End verifier.
