(* ===== verification/AnoncredsFacts.v ===== *)
(** * AnoncredsFacts: what a verified proof says, and that created proofs verify

    Theorems on [Anoncreds.v].  The cryptography's contract is [CLLaws]: requests are sets,
    and a proof that was made is accepted. *)

From stdpp Require Import gmap.
From S2P Require Import Prelude Errors Json Anoncreds.

(** ** The contract of the cryptography *)

Section contract.
Context `{CL}.

(** A proof that is built of parts, and its verification. *)
Definition prove_cl (parts : list ProverPart) (nonce : ClNonce) : IndyResult ClProof :=
  b ← new_proof_builder;
  b ← add_common_attribute "master_secret" b;
  b ← foldM (fun b part => add_sub_proof part b) parts b;
  finalize_proof nonce b.

Definition check_cl (parts : list VerifierPart) (proof : ClProof) (nonce : ClNonce) : IndyResult bool :=
  v ← new_proof_verifier;
  v ← foldM (fun v part => add_sub_proof_request part v) parts v;
  verify_cl proof nonce v.

(** What the verifier has to give for a part of the prover. *)
Definition verifier_view (part : ProverPart) (accum : option ClAccumKey) : VerifierPart :=
  mk_verifier_part (pp_request part) (pp_schema part) (pp_non_schema part) (pp_key part) accum (pp_rev_reg part).
End contract.

Class CLLaws `{CL} := {
  (** attributes and predicates are kept as sets *)
  law_request_order : forall attrs attrs' preds preds', attrs ≡ₚ attrs' -> preds ≡ₚ preds' ->
    sub_proof_request attrs preds = sub_proof_request attrs' preds';
  (** the signature is one of the key on the values, which satisfy the predicates, and the
      witness is one of the registry *)
  provable : ProverPart -> option ClAccumKey -> Prop;
  law_complete : forall parts accums nonce proof, prove_cl parts nonce = Ok proof -> Forall2 provable parts accums ->
    check_cl (zip_with verifier_view parts accums) proof nonce = Ok true;
}.

(** ** Lemmas: lists *)

Lemma foldM_app {E A B} (f : A -> B -> outcome E A) l k acc :
  foldM f (l ++ k) acc = foldM f l acc ≫= foldM f k.
Proof. revert acc. induction l as [|x l IH]; intros acc; [done|]. cbn. destruct (f acc x); [apply IH|done..]. Qed.

(** Lists of pairs with different first components, selected by them. *)
Lemma omap_referents {V A} (get : string -> option A) (p : string * V -> bool) (l : list (string * V)) :
  omap (fun kv => if p kv then get kv.1 else None) l = omap get (filter (fun kv => p kv = true) l).*1.
Proof.
  induction l as [|x l IH]; [done|]. rewrite filter_cons. csimpl. destruct (p x) eqn:Hp; csimpl; [|exact IH].
  destruct (get x.1); csimpl; by rewrite IH.
Qed.

(** ** Lemmas: the attributes and predicates of a credential *)

Section prepare.
Context `{CL} (proof_req : ProofRequest).

Definition attribute_of (key : ProvingCredentialKey) (x : string * RequestedAttribute) : option RequestedAttributeInfo :=
  if decide (ra_key x.2 = key) then
    (fun ai => mk_requested_attribute_info x.1 ai (ra_revealed x.2)) <$> requested_attributes proof_req !! x.1
  else None.

Definition predicate_of (key : ProvingCredentialKey) (x : string * ProvingCredentialKey) : option RequestedPredicateInfo :=
  if decide (x.2 = key) then mk_requested_predicate_info x.1 <$> requested_predicates proof_req !! x.1 else None.

(** What is there, with more attributes and predicates. *)
Definition extended (old : option (list RequestedAttributeInfo * list RequestedPredicateInfo))
    (attrs : list RequestedAttributeInfo) (preds : list RequestedPredicateInfo) :
    option (list RequestedAttributeInfo * list RequestedPredicateInfo) :=
  match attrs, preds with
  | [], [] => old
  | _, _ => let '(a, p) := default ([], []) old in Some (a ++ attrs, p ++ preds)
  end.

Lemma extended_extended old a p a' p' : extended (extended old a p) a' p' = extended old (a ++ a') (p ++ p').
Proof.
  destruct a as [|x a], p as [|y p], a' as [|x' a'], p' as [|y' p'], old as [[a0 p0]|]; cbn; try done;
    by rewrite ?app_nil_r, <-?app_assoc.
Qed.

Lemma extended_None a p a' p' : extended None a p = Some (a', p') -> a' = a /\ p' = p.
Proof. destruct a, p; cbn; [done|by intros [= <- <-]..]. Qed.

Lemma add_attributes l : forall m m', foldM (add_attribute proof_req) l m = Ok m' ->
  (forall x, x ∈ l -> is_Some (requested_attributes proof_req !! x.1)) /\
  forall key, m' !! key = extended (m !! key) (omap (attribute_of key) l) [].
Proof.
  induction l as [|x l IH]; intros m m' Hm; cbn [foldM] in Hm; inv_ok.
  - split; [by intros x Hx%elem_of_nil|done].
  - unfold add_attribute in *. inv_ok. match goal with Hr : requested_attributes _ !! _ = Some ?ai |- _ => rename ai into info; rename Hr into Hai end.
    destruct (IH _ _ Hm) as [Hall Hl]. split.
    + intros y [->|Hy]%elem_of_cons; [by rewrite Hai|by apply Hall].
    + intros key. rewrite Hl. cbn [omap list_omap]. unfold attribute_of at 2. rewrite Hai. case_decide as Hk.
      * subst key. cbn [fmap option_fmap option_map].
        etrans; [|exact (extended_extended (m !! ra_key x.2) [_] [] (omap (attribute_of _) l) [])]. f_equal.
        destruct (m !! ra_key x.2) as [[a p]|]; rewrite lookup_insert_eq; cbn; by rewrite ?app_nil_r.
      * f_equal. destruct (m !! ra_key x.2) as [[a p]|]; by rewrite lookup_insert_ne.
Qed.

Lemma add_predicates l : forall m m', foldM (add_predicate proof_req) l m = Ok m' ->
  (forall x, x ∈ l -> is_Some (requested_predicates proof_req !! x.1)) /\
  forall key, m' !! key = extended (m !! key) [] (omap (predicate_of key) l).
Proof.
  induction l as [|x l IH]; intros m m' Hm; cbn [foldM] in Hm; inv_ok.
  - split; [by intros x Hx%elem_of_nil|done].
  - unfold add_predicate in *. inv_ok. match goal with Hr : requested_predicates _ !! _ = Some ?ai |- _ => rename ai into info; rename Hr into Hai end.
    destruct (IH _ _ Hm) as [Hall Hl]. split.
    + intros y [->|Hy]%elem_of_cons; [by rewrite Hai|by apply Hall].
    + intros key. rewrite Hl. cbn [omap list_omap]. unfold predicate_of at 2. rewrite Hai. case_decide as Hk.
      * subst key. cbn [fmap option_fmap option_map].
        etrans; [|exact (extended_extended (m !! x.2) [] [_] [] (omap (predicate_of _) l))]. f_equal.
        destruct (m !! x.2) as [[a p]|]; rewrite lookup_insert_eq; cbn; by rewrite ?app_nil_r.
      * f_equal. destruct (m !! x.2) as [[a p]|]; by rewrite lookup_insert_ne.
Qed.
End prepare.

(** ** Lemmas: indices *)

(** Each referent of an element of a list with the index of the element. *)
Fixpoint index_map {X} (sel : X -> gset string) (k : Z) (l : list X) (old : gmap string Z) : gmap string Z :=
  match l with
  | [] => old
  | x :: l => index_map sel (k + 1) l (gset_to_gmap k (sel x) ∪ old)
  end.

Definition disjoint_by {X} (sel : X -> gset string) (l : list X) : Prop :=
  forall i j x y r, l !! i = Some x -> l !! j = Some y -> r ∈ sel x -> r ∈ sel y -> i = j.

Lemma index_map_old {X} (sel : X -> gset string) l : forall k old r, (forall x, x ∈ l -> r ∉ sel x) ->
  index_map sel k l old !! r = old !! r.
Proof.
  induction l as [|x l IH]; intros k old r Hr; [done|]. cbn. rewrite IH by (intros y Hy; apply Hr; by right).
  apply lookup_union_r, lookup_gset_to_gmap_None, Hr. by left.
Qed.

Lemma index_map_at {X} (sel : X -> gset string) l : forall k old i x r, disjoint_by sel l -> l !! i = Some x -> r ∈ sel x ->
  index_map sel k l old !! r = Some (k + Z.of_nat i)%Z.
Proof.
  induction l as [|y l IH]; intros k old i x r Hd Hi Hr; [done|].
  assert (disjoint_by sel l) as Hd' by (intros i1 i2 ?????? ?; eapply (inj S), Hd; cbn; eauto).
  destruct i as [|i]; cbn in Hi |- *.
  - injection Hi as ->. rewrite index_map_old.
    + assert (gset_to_gmap k (sel x) !! r = Some k) as Hk by by apply lookup_gset_to_gmap_Some.
      rewrite lookup_union_l' by done. rewrite Hk. f_equal. lia.
    + intros z (j & Hj)%list_elem_of_lookup Hz. by specialize (Hd 0 (S j) x z r eq_refl Hj Hr Hz).
  - rewrite (IH (k + 1)%Z _ i x r) by done. f_equal. lia.
Qed.

Lemma index_map_inv {X} (sel : X -> gset string) l k r z : disjoint_by sel l -> index_map sel k l ∅ !! r = Some z ->
  exists i x, l !! i = Some x /\ r ∈ sel x /\ z = (k + Z.of_nat i)%Z.
Proof.
  intros Hd Hz. destruct (decide (Exists (fun x => r ∈ sel x) l)) as [He|Hn].
  - apply Exists_exists in He as (x & (i & Hi)%list_elem_of_lookup & Hx). exists i, x. split_and!; [done..|].
    rewrite (index_map_at sel l k ∅ i x r Hd Hi Hx) in Hz. by injection Hz.
  - rewrite index_map_old in Hz; [by rewrite lookup_empty in Hz|].
    intros x Hx Hr. apply Hn, Exists_exists. by exists x.
Qed.

(** ** Lemmas: the loop of [create_proof] *)

Section proving.
Context `{HashOrder} `{Unicode} `{CL} `{Machine}.

Abbreviation ForCredential := (list RequestedAttributeInfo * list RequestedPredicateInfo)%type.
Abbreviation Entry := (ProvingCredentialKey * ForCredential)%type.

Definition referents_where (b : bool) (attrs : list RequestedAttributeInfo) : gset string :=
  list_to_set (attr_referent <$> filter (fun a => revealed a = b) attrs).

Definition revealed_in (x : Entry) : gset string := referents_where true x.2.1.
Definition unrevealed_in (x : Entry) : gset string := referents_where false x.2.1.
Definition predicates_in (x : Entry) : gset string := list_to_set (predicate_referent <$> x.2.2).

Lemma referents_where_cons b a attrs :
  referents_where b (a :: attrs) =
    if Bool.eqb (revealed a) b then {[attr_referent a]} ∪ referents_where b attrs else referents_where b attrs.
Proof. unfold referents_where. rewrite filter_cons. by destruct (revealed a), b. Qed.

(** The four parts of [rp] that matter: indices of revealed attributes, ... *)
Definition indices (rp : RequestedProof) : gmap string Z := ri_index <$> revealed_attrs rp.

Definition updated (i : Z) (rev unrev preds : gset string) (rp rp' : RequestedProof) : Prop :=
  indices rp' = gset_to_gmap i rev ∪ indices rp /\ unrevealed_attrs rp' = gset_to_gmap i unrev ∪ unrevealed_attrs rp /\
  predicates rp' = gset_to_gmap i preds ∪ predicates rp /\ self_attested_attrs rp' = self_attested_attrs rp.

Lemma insert_gset_to_gmap (i : Z) r (s : gset string) (m : gmap string Z) :
  gset_to_gmap i s ∪ <[r := i]> m = gset_to_gmap i ({[r]} ∪ s) ∪ m.
Proof.
  apply map_eq. intros k. rewrite !lookup_union. rewrite !lookup_gset_to_gmap.
  destruct (decide (k = r)) as [->|Hk].
  - rewrite lookup_insert_eq. rewrite (option_guard_True (r ∈ {[r]} ∪ s)) by set_solver.
    destruct (decide (r ∈ s)); [rewrite option_guard_True by done|rewrite option_guard_False by done]; by destruct (m !! r).
  - rewrite lookup_insert_ne by done. destruct (decide (k ∈ s)).
    + by rewrite !option_guard_True by set_solver.
    + by rewrite !option_guard_False by set_solver.
Qed.

Lemma updated_refl i rp : updated i ∅ ∅ ∅ rp rp.
Proof. unfold updated. by rewrite gset_to_gmap_empty, !(left_id_L ∅ (∪)). Qed.

Lemma update_attrs_spec proof_req credential i attrs : forall rp rp',
  foldM (update_attr proof_req credential i) attrs rp = Ok rp' ->
  updated i (referents_where true attrs) (referents_where false attrs) ∅ rp rp'.
Proof.
  induction attrs as [|a attrs IH]; intros rp rp' Hrun; cbn [foldM] in Hrun.
  - injection Hrun as <-. apply updated_refl.
  - apply bind_Ok in Hrun as (rp1 & Ha & Hrun). destruct (IH _ _ Hrun) as (Hr & Hu & Hp & Hs). unfold update_attr in Ha.
    rewrite !referents_where_cons. destruct (revealed a); inv_ok; unfold updated, indices in *;
      cbn [revealed_attrs unrevealed_attrs predicates self_attested_attrs decide_rel] in *.
    + rewrite fmap_insert in Hr. cbn [ri_index] in Hr. by rewrite insert_gset_to_gmap in Hr.
    + by rewrite insert_gset_to_gmap in Hu.
Qed.

Lemma update_predicates_spec i preds : forall rp,
  updated i ∅ ∅ (list_to_set (predicate_referent <$> preds)) rp (foldl (update_predicate i) rp preds).
Proof.
  induction preds as [|p preds IH]; intros rp; cbn [foldl].
  - apply updated_refl.
  - destruct (IH (update_predicate i rp p)) as (Hr & Hu & Hp & Hs). split_and!; [done..| |done].
    cbn [fmap list_fmap list_to_set]. rewrite Hp. apply insert_gset_to_gmap.
Qed.

Lemma update_spec attrs preds proof_req credential i rp rp' :
  _update_requested_proof attrs preds proof_req credential i rp = Ok rp' ->
  updated i (referents_where true attrs) (referents_where false attrs) (list_to_set (predicate_referent <$> preds)) rp rp'.
Proof.
  unfold _update_requested_proof. intros Hrun. inv_ok.
  match goal with Hf : foldM _ _ _ = Ok ?x |- _ => rename x into rp1; destruct (update_attrs_spec _ _ _ _ _ _ Hf) as (Hr & Hu & Hp & Hs) end.
  destruct (update_predicates_spec i preds rp1) as (Hr' & Hu' & Hp' & Hs').
  rewrite gset_to_gmap_empty, (left_id_L ∅ (∪)) in Hr', Hu', Hp.
  split_and!; [by rewrite Hr'|by rewrite Hu'|by rewrite Hp', Hp|by rewrite Hs'].
Qed.

Section loop.
Context (credentials : gmap string Credential) (proof_req : ProofRequest)
  (master_secret : ClMasterSecret) (schemas : gmap string SchemaV1) (cred_defs : gmap string CredentialDefinition)
  (rev_states : gmap string (gmap N RevocationState)).

Definition identifier_of (key : ProvingCredentialKey) (credential : Credential) : Identifier :=
  mk_identifier (cr_schema_id credential) (cr_cred_def_id credential) (cr_rev_reg_id credential) (timestamp key).

(** The part and the identifier that the prover makes for an entry *)
Definition made (ns : ClNonSchema) (x : Entry) (part : ProverPart) (identifier : Identifier) : Prop :=
  exists credential, credentials !! cred_id x.1 = Some credential /\
    prover_part master_secret schemas cred_defs rev_states ns x.1 credential x.2 = Ok part /\
    identifier = identifier_of x.1 credential.

Lemma prove_loop ns l : forall s s', (pv_index s + Z.of_nat (length l) < 2 ^ 31)%Z ->
  foldM (prove_credential credentials proof_req master_secret schemas cred_defs rev_states ns) l s = Ok s' ->
  exists parts ids, Forall3 (made ns) l parts ids /\
    foldM (fun b part => add_sub_proof part b) parts (pv_builder s) = Ok (pv_builder s') /\
    pv_identifiers s' = pv_identifiers s ++ ids /\
    indices (pv_requested s') = index_map revealed_in (pv_index s) l (indices (pv_requested s)) /\
    unrevealed_attrs (pv_requested s') = index_map unrevealed_in (pv_index s) l (unrevealed_attrs (pv_requested s)) /\
    predicates (pv_requested s') = index_map predicates_in (pv_index s) l (predicates (pv_requested s)) /\
    self_attested_attrs (pv_requested s') = self_attested_attrs (pv_requested s).
Proof.
  induction l as [|[key [attrs preds]] l IH]; intros s s' Hn Hrun; cbn [foldM] in Hrun.
  - injection Hrun as <-. exists [], []. rewrite app_nil_r. split_and!; try done. constructor.
  - cbn [length] in Hn. apply bind_Ok in Hrun as (s1 & Hstep & Hrun). unfold prove_credential in Hstep.
    apply bind_Ok in Hstep as (credential & Hcred%ok_or_Ok & Hstep). apply bind_Ok in Hstep as (part & Hpart & Hstep).
    apply bind_Ok in Hstep as (b & Hb & Hstep). apply bind_Ok in Hstep as (rp & Hrp%update_spec & Hstep).
    apply bind_Ok in Hstep as (i & Hi & Hstep). injection Hstep as <-.
    unfold new_sub_proof_index in Hi. rewrite (proj2 (Z.ltb_lt (pv_index s + 1) (2 ^ 31))) in Hi by lia. injection Hi as <-.
    apply IH in Hrun as (parts & ids & Hmade & Hadd & Hids & Hr & Hu & Hp & Hs); [|cbn [pv_index]; lia].
    cbn [pv_builder pv_identifiers pv_requested pv_index] in *. destruct Hrp as (Hr1 & Hu1 & Hp1 & Hs1).
    exists (part :: parts), (identifier_of key credential :: ids). split_and!.
    + constructor; [by exists credential|done].
    + cbn [foldM]. by rewrite Hb.
    + by rewrite Hids, <-app_assoc.
    + cbn [index_map]. by rewrite Hr, Hr1.
    + cbn [index_map]. by rewrite Hu, Hu1.
    + cbn [index_map]. by rewrite Hp, Hp1.
    + by rewrite Hs, Hs1.
Qed.
Lemma prove_ids_length ns l : forall s s',
  foldM (prove_credential credentials proof_req master_secret schemas cred_defs rev_states ns) l s = Ok s' ->
  length (pv_identifiers s') = length (pv_identifiers s) + length l.
Proof.
  induction l as [|[key [attrs preds]] l IH]; intros s s' Hrun; cbn [foldM] in Hrun; [injection Hrun as <-; cbn; lia|].
  apply bind_Ok in Hrun as (s1 & Hstep & Hrun). rewrite (IH _ _ Hrun). unfold prove_credential in Hstep. inv_ok.
  cbn [pv_identifiers]. rewrite length_app. cbn. lia.
Qed.
End loop.

Section prepared.
Context (rc : RequestedCredentials) (proof_req : ProofRequest) (m : gmap ProvingCredentialKey ForCredential)
  (Hm : _prepare_credentials_for_proving rc proof_req = Ok m).

Lemma prepared_lookup :
  (forall r ra, rc_attributes rc !! r = Some ra -> is_Some (requested_attributes proof_req !! r)) /\
  (forall r k, rc_predicates rc !! r = Some k -> is_Some (requested_predicates proof_req !! r)) /\
  forall key, m !! key = extended None (omap (attribute_of proof_req key) (hash_iter (rc_attributes rc)))
    (omap (predicate_of proof_req key) (hash_iter (rc_predicates rc))).
Proof.
  unfold _prepare_credentials_for_proving in Hm. apply bind_Ok in Hm as (m1 & Ha & Hp).
  apply add_attributes in Ha as [Ha Hl1]. apply add_predicates in Hp as [Hp Hl2]. split_and!.
  - intros r ra Hr. apply (Ha (r, ra)). by apply elem_of_hash_iter.
  - intros r k Hr. apply (Hp (r, k)). by apply elem_of_hash_iter.
  - intros key. by rewrite Hl2, Hl1, lookup_empty, extended_extended, app_nil_r.
Qed.

Lemma prepared_entry x : x ∈ hash_iter m ->
  x.2.1 = omap (attribute_of proof_req x.1) (hash_iter (rc_attributes rc)) /\
  x.2.2 = omap (predicate_of proof_req x.1) (hash_iter (rc_predicates rc)).
Proof.
  destruct x as [key [attrs preds]]. intros Hx%elem_of_hash_iter. destruct prepared_lookup as (_ & _ & Hl).
  rewrite Hl in Hx. by apply extended_None in Hx.
Qed.

Lemma elem_attribute a key : a ∈ omap (attribute_of proof_req key) (hash_iter (rc_attributes rc)) <->
  exists ra, rc_attributes rc !! attr_referent a = Some ra /\ ra_key ra = key /\
    requested_attributes proof_req !! attr_referent a = Some (attr_info a) /\ revealed a = ra_revealed ra.
Proof.
  rewrite list_elem_of_omap. split.
  - intros ([r ra] & Hin%elem_of_hash_iter & Ha). unfold attribute_of in Ha. case_decide; [|done]. cbn in *.
    destruct (requested_attributes proof_req !! r) as [ai|] eqn:Hai; [|done]. cbn in Ha. injection Ha as <-. by exists ra.
  - intros (ra & Hr & Hk & Hai & Hrev). exists (attr_referent a, ra). split; [by apply elem_of_hash_iter|].
    unfold attribute_of. cbn. rewrite decide_True, Hai by done. cbn. by rewrite <-Hrev; destruct a.
Qed.

Lemma elem_predicate p key : p ∈ omap (predicate_of proof_req key) (hash_iter (rc_predicates rc)) <->
  rc_predicates rc !! predicate_referent p = Some key /\
  requested_predicates proof_req !! predicate_referent p = Some (predicate_info p).
Proof.
  rewrite list_elem_of_omap. split.
  - intros ([r k] & Hin%elem_of_hash_iter & Hp). unfold predicate_of in Hp. case_decide; [|done]. cbn in *. subst k.
    destruct (requested_predicates proof_req !! r) as [pi|] eqn:Hpi; [|done]. cbn in Hp. by injection Hp as <-.
  - intros [Hk Hpi]. exists (predicate_referent p, key). split; [by apply elem_of_hash_iter|].
    unfold predicate_of. cbn. rewrite decide_True, Hpi by done. cbn. by destruct p.
Qed.

Lemma in_referents b r x : x ∈ hash_iter m -> r ∈ referents_where b x.2.1 <->
  exists ra, rc_attributes rc !! r = Some ra /\ ra_key ra = x.1 /\ ra_revealed ra = b.
Proof.
  intros [-> _]%prepared_entry. unfold referents_where. rewrite elem_of_list_to_set, list_elem_of_fmap.
  setoid_rewrite list_elem_of_filter. setoid_rewrite elem_attribute. split.
  - intros (a & -> & Hb & ra & Hr & Hk & Hai & Hrev). exists ra. by rewrite <-Hrev.
  - intros (ra & Hr & Hk & Hb). destruct prepared_lookup as (Ha & _). destruct (Ha r ra Hr) as [ai Hai].
    exists (mk_requested_attribute_info r ai (ra_revealed ra)). split_and!; [done..|]. by exists ra.
Qed.

Lemma in_predicates r x : x ∈ hash_iter m -> r ∈ predicates_in x <-> rc_predicates rc !! r = Some x.1.
Proof.
  intros [_ Hp]%prepared_entry. unfold predicates_in. rewrite Hp, elem_of_list_to_set, list_elem_of_fmap.
  setoid_rewrite elem_predicate. split; [by intros (p & -> & ? & _)|].
  intros Hr. destruct prepared_lookup as (_ & Ha & _). destruct (Ha r _ Hr) as [pi Hpi].
  by exists (mk_requested_predicate_info r pi).
Qed.

Lemma entry_of_key key : is_Some (m !! key) -> exists i x, hash_iter m !! i = Some x /\ x.1 = key.
Proof.
  intros [y Hy]. apply elem_of_hash_iter in Hy. apply list_elem_of_lookup in Hy as [i Hi]. by exists i, (key, y).
Qed.

Lemma attribute_entry r ra : rc_attributes rc !! r = Some ra -> exists i x, hash_iter m !! i = Some x /\ x.1 = ra_key ra.
Proof.
  intros Hr. apply entry_of_key. destruct prepared_lookup as (Ha & _ & Hl). destruct (Ha r ra Hr) as [ai Hai].
  assert (mk_requested_attribute_info r ai (ra_revealed ra) ∈ omap (attribute_of proof_req (ra_key ra)) (hash_iter (rc_attributes rc)))
    as Hin by (apply elem_attribute; by exists ra).
  rewrite Hl. destruct (omap (attribute_of _ _) _); [by apply elem_of_nil in Hin|]. by eexists.
Qed.

Lemma predicate_entry r key : rc_predicates rc !! r = Some key -> exists i x, hash_iter m !! i = Some x /\ x.1 = key.
Proof.
  intros Hr. apply entry_of_key. destruct prepared_lookup as (_ & Ha & Hl). destruct (Ha r key Hr) as [pi Hpi].
  assert (mk_requested_predicate_info r pi ∈ omap (predicate_of proof_req key) (hash_iter (rc_predicates rc)))
    as Hin by by apply elem_predicate.
  rewrite Hl. destruct (omap (predicate_of _ _) _); [by apply elem_of_nil in Hin|]. unfold extended.
  destruct (omap (attribute_of _ _) _); by eexists.
Qed.

(** The keys of the entries are different, and a referent belongs to one key. *)
Lemma entries_disjoint (sel : Entry -> gset string) (key_of : string -> ProvingCredentialKey -> Prop) :
  (forall r k k', key_of r k -> key_of r k' -> k = k') ->
  (forall x r, x ∈ hash_iter m -> r ∈ sel x -> key_of r x.1) -> disjoint_by sel (hash_iter m).
Proof.
  intros Hfun Hsel i j x y r Hi Hj Hx Hy.
  assert (x.1 = y.1) as Hk by (eapply Hfun; eapply Hsel; eauto using list_elem_of_lookup_2).
  eapply (NoDup_lookup (hash_iter m).*1 i j x.1); [apply hash_iter_keys|by rewrite list_lookup_fmap, Hi|].
  by rewrite list_lookup_fmap, Hj, Hk.
Qed.

Lemma referents_disjoint b : disjoint_by (fun x => referents_where b x.2.1) (hash_iter m).
Proof.
  apply (entries_disjoint _ (fun r k => ra_key <$> rc_attributes rc !! r = Some k)); [congruence|].
  intros x r Hx (ra & -> & <- & _)%in_referents; done.
Qed.

Lemma predicates_disjoint : disjoint_by predicates_in (hash_iter m).
Proof.
  apply (entries_disjoint _ (fun r k => rc_predicates rc !! r = Some k)); [congruence|].
  by intros x r Hx ?%in_predicates.
Qed.
End prepared.

(** ** Lemmas: the verifier finds the attributes and predicates of the prover *)

Lemma as_usize_of_nat i j : (Z.of_nat j < 2 ^ 31)%Z -> (N.of_nat i =? as_usize (Z.of_nat j))%N = (i =? j).
Proof.
  intros Hj. assert (2 ^ 31 <= Z.of_N usize_modulus)%Z as Hm by (unfold usize_modulus; by destruct usize_bits_cases as [-> | ->]).
  unfold as_usize. rewrite Z.mod_small by lia. replace (Z.to_N (Z.of_nat j)) with (N.of_nat j) by lia.
  destruct (Nat.eqb_spec i j), (N.eqb_spec (N.of_nat i) (N.of_nat j)); lia || done.
Qed.

(** The referents of a map whose elements pass a test, in both readings. *)
Lemma selected_referents {V} (mp : gmap string V) (p : string * V -> bool) (l : list string) :
  NoDup l -> (forall r, r ∈ l <-> exists v, mp !! r = Some v /\ p (r, v) = true) ->
  (filter (fun kv => p kv = true) (hash_iter mp)).*1 ≡ₚ l.
Proof.
  intros Hl Hin. apply NoDup_Permutation; [|done|].
  - eapply submseteq_NoDup; [|apply (hash_iter_keys mp)]. apply fmap_submseteq, sublist_submseteq, sublist_filter.
  - intros r. rewrite Hin, list_elem_of_fmap. split.
    + intros ([r' v] & -> & [Hp Hv%elem_of_hash_iter]%list_elem_of_filter). by exists v.
    + intros (v & Hv & Hp). exists (r, v). split; [done|]. apply list_elem_of_filter. by rewrite elem_of_hash_iter.
Qed.

Lemma omap_referents_NoDup {V A} (f : string * V -> option A) (ref : A -> string) l :
  (forall x a, f x = Some a -> ref a = x.1) -> NoDup l.*1 -> NoDup (ref <$> omap f l).
Proof.
  intros Hf. induction l as [|x l IH]; [constructor|]. cbn [fmap list_fmap]. intros [Hx Hl]%NoDup_cons. csimpl.
  destruct (f x) as [a|] eqn:Ha; [|by apply IH]. csimpl. apply NoDup_cons. split; [|by apply IH].
  rewrite (Hf x a Ha). intros (b & Hb & (y & Hy & Hfy)%list_elem_of_omap)%list_elem_of_fmap. apply Hx.
  rewrite Hb, (Hf y b Hfy). by apply list_elem_of_fmap_2.
Qed.

Lemma fmap_omap_get {A B} (get : string -> option B) (ref : A -> string) (info : A -> B) (l : list A) :
  (forall a, a ∈ l -> get (ref a) = Some (info a)) -> omap get (ref <$> l) = info <$> l.
Proof.
  induction l as [|a l IH]; intros Hl; [done|]. csimpl. rewrite Hl by by left. csimpl. f_equal. apply IH.
  intros b Hb. apply Hl. by right.
Qed.

Section found.
Context (rc : RequestedCredentials) (proof_req : ProofRequest) (m : gmap ProvingCredentialKey ForCredential)
  (Hm : _prepare_credentials_for_proving rc proof_req = Ok m) (rp : RequestedProof)
  (Hlen : (Z.of_nat (length (hash_iter m)) < 2 ^ 31)%Z).

Lemma index_is (sel : Entry -> gset string) (mp : gmap string Z) i x r : disjoint_by sel (hash_iter m) ->
  mp = index_map sel 0 (hash_iter m) ∅ -> hash_iter m !! i = Some x ->
  r ∈ sel x <-> exists z, mp !! r = Some z /\ (N.of_nat i =? as_usize z)%N = true.
Proof.
  intros Hd -> Hi. assert (i < length (hash_iter m)) as Hlt by by eapply lookup_lt_Some. split.
  - intros Hr. eexists. split; [by apply (index_map_at sel _ 0 ∅ i x r)|]. rewrite Z.add_0_l, as_usize_of_nat by lia.
    by apply Nat.eqb_eq.
  - intros (z & (j & y & Hj & Hy & ->)%index_map_inv & Hz); [|done].
    assert (j < length (hash_iter m)) by by eapply lookup_lt_Some.
    rewrite Z.add_0_l, as_usize_of_nat in Hz by lia. apply Nat.eqb_eq in Hz as ->. by simplify_eq.
Qed.

Lemma attributes_found i x : indices rp = index_map revealed_in 0 (hash_iter m) ∅ -> hash_iter m !! i = Some x ->
  _get_revealed_attributes_for_credential i rp proof_req ≡ₚ attr_info <$> filter (fun a => revealed a = true) x.2.1.
Proof.
  intros Hind Hi. assert (x ∈ hash_iter m) as Hx by by eapply list_elem_of_lookup_2.
  destruct (prepared_entry rc proof_req m Hm x Hx) as [Hattrs _].
  unfold _get_revealed_attributes_for_credential.
  rewrite (omap_referents (fun r => requested_attributes proof_req !! r) (fun kv => (N.of_nat i =? as_usize (ri_index kv.2))%N)).
  rewrite <-(fmap_omap_get (fun r => requested_attributes proof_req !! r) attr_referent attr_info).
  - apply omap_Permutation, selected_referents.
    + eapply submseteq_NoDup; [apply fmap_submseteq, sublist_submseteq, sublist_filter|]. rewrite Hattrs.
      apply omap_referents_NoDup; [|apply hash_iter_keys]. intros y a Ha. unfold attribute_of in Ha. case_decide; [|done].
      destruct (_ !! y.1); [|done]. cbn in Ha. by injection Ha as <-.
    + intros r. rewrite <-(elem_of_list_to_set (C:=gset string)). change (list_to_set _) with (revealed_in x).
      rewrite (index_is revealed_in (indices rp) i x r (referents_disjoint rc proof_req m Hm true) Hind Hi).
      unfold indices. setoid_rewrite lookup_fmap. split.
      * intros (z & Hz & He). destruct (revealed_attrs rp !! r) as [info|]; [|done]. cbn in Hz. injection Hz as <-. by exists info.
      * intros (info & -> & He). by exists (ri_index info).
  - intros a [_ Ha]%list_elem_of_filter. rewrite Hattrs in Ha. apply (elem_attribute rc proof_req) in Ha as (ra & _ & _ & Hai & _). done.
Qed.

Lemma predicates_found i x : predicates rp = index_map predicates_in 0 (hash_iter m) ∅ -> hash_iter m !! i = Some x ->
  _get_predicates_for_credential i rp proof_req ≡ₚ predicate_info <$> x.2.2.
Proof.
  intros Hind Hi. assert (x ∈ hash_iter m) as Hx by by eapply list_elem_of_lookup_2.
  destruct (prepared_entry rc proof_req m Hm x Hx) as [_ Hpreds].
  unfold _get_predicates_for_credential.
  rewrite (omap_referents (fun r => requested_predicates proof_req !! r) (fun kv => (N.of_nat i =? as_usize kv.2)%N)).
  rewrite <-(fmap_omap_get (fun r => requested_predicates proof_req !! r) predicate_referent predicate_info).
  - apply omap_Permutation, selected_referents.
    + rewrite Hpreds. apply omap_referents_NoDup; [|apply hash_iter_keys]. intros y a Ha. unfold predicate_of in Ha.
      case_decide; [|done]. destruct (_ !! y.1); [|done]. cbn in Ha. by injection Ha as <-.
    + intros r. rewrite <-(elem_of_list_to_set (C:=gset string)). change (list_to_set _) with (predicates_in x).
      exact (index_is predicates_in (predicates rp) i x r (predicates_disjoint rc proof_req m Hm) Hind Hi).
  - intros p Hp. rewrite Hpreds in Hp. by apply (elem_predicate rc proof_req) in Hp as [_ Hpi].
Qed.
End found.
End proving.

Lemma Forall2_choose {A B C} (P : nat -> A -> B -> C -> Prop) l k : length l = length k ->
  (forall i a b, l !! i = Some a -> k !! i = Some b -> exists c, P i a b c) ->
  exists cs, length cs = length l /\ forall i a b c, l !! i = Some a -> k !! i = Some b -> cs !! i = Some c -> P i a b c.
Proof.
  revert P k. induction l as [|a l IH]; intros P [|b k] Hl Hp; try done; [by exists []|].
  destruct (Hp 0 a b eq_refl eq_refl) as [c Hc].
  destruct (IH (fun i => P (S i)) k) as (cs & Hlen & Hcs); [by injection Hl|intros i; exact (Hp (S i))|].
  exists (c :: cs). split; [cbn; congruence|]. intros [|i] x y z Hx Hy Hz; cbn in *; [congruence|by eapply Hcs].
Qed.

(** ** Theorems *)

Section theorems.
Context `{HashOrder} `{Unicode} `{CL} `{!CLLaws} `{Machine}.

Section verifying.
Context (proof : Proof_) (proof_req : ProofRequest) (schemas : gmap string SchemaV1)
  (cred_defs : gmap string CredentialDefinition) (rev_reg_defs : gmap string RevocationRegistryDefinitionV1)
  (rev_regs : gmap string (gmap N ClRevReg)).

Lemma verify_loop ns l parts : Forall2 (fun x part => verifier_part proof proof_req schemas cred_defs rev_reg_defs rev_regs ns x.1 x.2 = Ok part) l parts ->
  forall v, foldM (verify_credential proof proof_req schemas cred_defs rev_reg_defs rev_regs ns) l v =
    foldM (fun v part => add_sub_proof_request part v) parts v.
Proof.
  induction 1 as [|x part l parts Hx _ IH]; intros v; [done|]. cbn [foldM].
  assert (forall ns v, verify_credential proof proof_req schemas cred_defs rev_reg_defs rev_regs ns v x =
    (verifier_part proof proof_req schemas cred_defs rev_reg_defs rev_regs ns x.1 x.2 ≫= fun part => add_sub_proof_request part v))
    as -> by done. rewrite Hx. cbn [mbind outcome_bind]. destruct (add_sub_proof_request part v); cbn [mbind outcome_bind]; auto.
Qed.

Lemma verify_loop_parts ns l : forall v v',
  foldM (verify_credential proof proof_req schemas cred_defs rev_reg_defs rev_regs ns) l v = Ok v' -> exists parts,
    Forall2 (fun x part => verifier_part proof proof_req schemas cred_defs rev_reg_defs rev_regs ns x.1 x.2 = Ok part) l parts.
Proof.
  induction l as [|x l IH]; intros v v' Hrun; [by exists []|]. cbn [foldM] in Hrun. apply bind_Ok in Hrun as (v1 & Hx & Hrun).
  unfold verify_credential in Hx. apply bind_Ok in Hx as (part & Hpart & _). destruct (IH _ _ Hrun) as [parts Hparts].
  exists (part :: parts). by constructor.
Qed.

(** Verification, when the parts are made: the cryptographic check of the parts. *)
Lemma verify_parts ns parts : build_non_credential_schema = Ok ns ->
  Forall2 (fun x part => verifier_part proof proof_req schemas cred_defs rev_reg_defs rev_regs ns x.1 x.2 = Ok part)
    (imap pair (identifiers proof)) parts ->
  verify proof proof_req schemas cred_defs rev_reg_defs rev_regs = check_cl parts (cl_proof proof) (pr_nonce proof_req).
Proof.
  intros Hns Hparts. unfold verify, check_cl. destruct new_proof_verifier as [v|e| |]; try done. cbn [mbind outcome_bind].
  rewrite Hns. cbn [mbind outcome_bind]. by rewrite (verify_loop ns _ parts).
Qed.
End verifying.

(** What the verifier's registries have to be for an entry of the prover. *)
Definition registered (rev_states : gmap string (gmap N RevocationState))
    (rev_reg_defs : gmap string RevocationRegistryDefinitionV1) (rev_regs : gmap string (gmap N ClRevReg))
    (key : ProvingCredentialKey) (credential : Credential) (cred_def : CredentialDefinition) : Prop :=
  forall rs, rev_state_for key credential cred_def rev_states = Ok (Some rs) -> exists def,
    revocation_for rev_reg_defs rev_regs (identifier_of key credential) cred_def = Ok (Some def, Some (rs_rev_reg rs)).

Lemma revocation_views rev_states rev_reg_defs rev_regs key credential cred_def rs :
  registered rev_states rev_reg_defs rev_regs key credential cred_def ->
  rev_state_for key credential cred_def rev_states = Ok rs -> exists def,
    revocation_for rev_reg_defs rev_regs (identifier_of key credential) cred_def = Ok (def, rs_rev_reg <$> rs).
Proof.
  intros Hreg Hrs. destruct rs as [rs|].
  - destruct (Hreg rs Hrs) as [def Hdef]. by exists (Some def).
  - exists None. unfold rev_state_for, revocation_for in *. destruct (cd_revocation cred_def); [|done]. by inv_ok.
Qed.
(** Every part that the prover makes is verified as the same part. *)
Lemma part_verified rc proof_req m ms schemas cred_defs rev_states rev_reg_defs rev_regs credentials ns proof i x part identifier :
  _prepare_credentials_for_proving rc proof_req = Ok m -> (Z.of_nat (length (hash_iter m)) < 2 ^ 31)%Z ->
  indices (requested_proof proof) = index_map revealed_in 0 (hash_iter m) ∅ ->
  predicates (requested_proof proof) = index_map predicates_in 0 (hash_iter m) ∅ ->
  hash_iter m !! i = Some x -> made credentials ms schemas cred_defs rev_states ns x part identifier ->
  (forall key credential cred_def, credentials !! cred_id key = Some credential ->
    cred_defs !! cr_cred_def_id credential = Some cred_def -> registered rev_states rev_reg_defs rev_regs key credential cred_def) ->
  exists credential def, credentials !! cred_id x.1 = Some credential /\
    prover_part ms schemas cred_defs rev_states ns x.1 credential x.2 = Ok part /\
    (exists cred_def, cred_defs !! cr_cred_def_id credential = Some cred_def /\
      revocation_for rev_reg_defs rev_regs (identifier_of x.1 credential) cred_def = Ok (def, pp_rev_reg part)) /\
    verifier_part proof proof_req schemas cred_defs rev_reg_defs rev_regs ns i identifier =
      Ok (verifier_view part (rd_accum_key <$> def)).
Proof.
  intros Hm Hlen Hrev Hpred Hi (credential & Hcred & Hpart & ->) Hreg.
  pose proof Hpart as Hp. unfold prover_part in Hp.
  apply bind_Ok in Hp as (schema & Hschema%ok_or_Ok & Hp). apply bind_Ok in Hp as (cred_def & Hdef%ok_or_Ok & Hp).
  apply bind_Ok in Hp as (rs & Hrs & Hp). apply bind_Ok in Hp as (key & Hkey & Hp).
  apply bind_Ok in Hp as (cs & Hcs & Hp). apply bind_Ok in Hp as (values & _ & Hp).
  apply bind_Ok in Hp as (request & Hreq & Hp). injection Hp as <-.
  destruct (revocation_views _ _ _ _ _ _ _ (Hreg _ _ _ Hcred Hdef) Hrs) as [def Hrf].
  exists credential, def. cbn [pp_rev_reg]. split_and!; [done..|by exists cred_def|].
  unfold verifier_part, identifier_of in *. cbn [id_schema_id id_cred_def_id].
  rewrite Hschema. cbn [ok_or mbind outcome_bind]. rewrite Hdef. cbn [ok_or mbind outcome_bind].
  rewrite Hrf. cbn [mbind outcome_bind]. rewrite Hcs. cbn [mbind outcome_bind].
  assert (build_sub_proof_request (_get_revealed_attributes_for_credential i (requested_proof proof) proof_req)
    (_get_predicates_for_credential i (requested_proof proof) proof_req) = Ok request) as ->.
  { unfold _build_sub_proof_request in Hreq. rewrite <-Hreq. apply law_request_order.
    - by rewrite (attributes_found rc proof_req m Hm (requested_proof proof) Hlen i x).
    - by rewrite (predicates_found rc proof_req m Hm (requested_proof proof) Hlen i x). }
  cbn [mbind outcome_bind]. by rewrite Hkey.
Qed.

(** The proof answers the request: its referents are those of the request. *)
Lemma created_referents rc proof_req m rp : _prepare_credentials_for_proving rc proof_req = Ok m ->
  indices rp = index_map revealed_in 0 (hash_iter m) ∅ -> unrevealed_attrs rp = index_map unrevealed_in 0 (hash_iter m) ∅ ->
  predicates rp = index_map predicates_in 0 (hash_iter m) ∅ ->
  dom (revealed_attrs rp) ∪ dom (unrevealed_attrs rp) = dom (rc_attributes rc) /\ dom (predicates rp) = dom (rc_predicates rc).
Proof.
  intros Hm Hr Hu Hp.
  assert (forall sel r, disjoint_by sel (hash_iter m) ->
    is_Some (index_map sel 0 (hash_iter m) ∅ !! r) <-> exists i x, hash_iter m !! i = Some x /\ r ∈ sel x) as Hdom.
  { intros sel r Hd. split.
    - intros (z & (i & x & Hi & Hx & _)%index_map_inv); [by exists i, x|done].
    - intros (i & x & Hi & Hx). eexists. by apply (index_map_at sel _ 0 ∅ i x r). }
  assert (forall b r, (exists i x, hash_iter m !! i = Some x /\ r ∈ referents_where b x.2.1) <->
    exists ra, rc_attributes rc !! r = Some ra /\ ra_revealed ra = b) as Hattr.
  { intros b r. split.
    - intros (i & x & Hi%list_elem_of_lookup_2 & Hx). apply (in_referents rc proof_req m Hm) in Hx as (ra & ? & _ & ?); [|done].
      by exists ra.
    - intros (ra & Hra & Hb). destruct (attribute_entry rc proof_req m Hm r ra Hra) as (i & x & Hi & Hk).
      exists i, x. split; [done|]. apply (in_referents rc proof_req m Hm); [by eapply list_elem_of_lookup_2|].
      by exists ra. }
  assert (dom (revealed_attrs rp) = dom (indices rp)) as -> by by rewrite <-(dom_fmap_L ri_index).
  split; apply set_eq; intros r.
  - rewrite elem_of_union, !elem_of_dom, Hr, Hu, !Hdom by (apply (referents_disjoint rc proof_req m Hm)).
    unfold revealed_in, unrevealed_in. rewrite !Hattr. split.
    + intros [(ra & -> & _)|(ra & -> & _)]; by eexists.
    + intros [ra Hra]. destruct (ra_revealed ra) eqn:Hb; [left|right]; by exists ra.
  - rewrite !elem_of_dom, Hp, Hdom by (apply (predicates_disjoint rc proof_req m Hm)). split.
    + intros (i & x & Hi%list_elem_of_lookup_2 & Hx). apply (in_predicates rc proof_req m Hm) in Hx; [by eexists|done].
    + intros [key Hkey]. destruct (predicate_entry rc proof_req m Hm r key Hkey) as (i & x & Hi & <-).
      exists i, x. split; [done|]. apply (in_predicates rc proof_req m Hm); [by eapply list_elem_of_lookup_2|done].
Qed.

Lemma made_proof_accepted credentials proof_req rc ms schemas cred_defs rev_states rev_reg_defs rev_regs proof :
  create_proof credentials proof_req rc ms schemas cred_defs rev_states = Ok proof ->
  (Z.of_nat (length (identifiers proof)) < 2 ^ 31)%Z ->
  dom (requested_attributes proof_req) = dom (rc_attributes rc) ∪ dom (self_attested_attributes rc) ->
  dom (requested_predicates proof_req) = dom (rc_predicates rc) ->
  (forall key credential cred_def, credentials !! cred_id key = Some credential ->
    cred_defs !! cr_cred_def_id credential = Some cred_def -> registered rev_states rev_reg_defs rev_regs key credential cred_def) ->
  (forall key credential cred_def ns x part def, credentials !! cred_id key = Some credential ->
    prover_part ms schemas cred_defs rev_states ns key credential x = Ok part ->
    cred_defs !! cr_cred_def_id credential = Some cred_def ->
    revocation_for rev_reg_defs rev_regs (identifier_of key credential) cred_def = Ok (def, pp_rev_reg part) ->
    provable part (rd_accum_key <$> def)) ->
  verify_proof proof proof_req schemas cred_defs rev_reg_defs rev_regs = Ok true.
Proof.
  intros Hrun Hlen Hattrs Hpreds Hreg Hprov. unfold create_proof in Hrun.
  apply bind_Ok in Hrun as (b0 & Hb0 & Hrun). apply bind_Ok in Hrun as (b1 & Hb1 & Hrun).
  apply bind_Ok in Hrun as (m & Hm & Hrun). apply bind_Ok in Hrun as (ns & Hns & Hrun).
  apply bind_Ok in Hrun as (s & Hloop & Hrun). apply bind_Ok in Hrun as (cp & Hcp & Hrun). injection Hrun as <-.
  assert (length (pv_identifiers s) = length (hash_iter m)) as Hids0.
  { pose proof Hloop as Hl. apply prove_ids_length in Hl. exact Hl. }
  cbn [identifiers] in Hlen. rewrite Hids0 in Hlen.
  apply prove_loop in Hloop as (parts & ids & Hmade & Hadd & Hids & Hr & Hu & Hp & Hs); [|cbn [pv_index]; lia].
  cbn [pv_builder pv_identifiers pv_requested pv_index app] in *. unfold indices at 2 in Hr.
  cbn [revealed_attrs unrevealed_attrs predicates self_attested_attrs] in *. rewrite fmap_empty in Hr.
  destruct (created_referents rc proof_req m (pv_requested s) Hm Hr Hu Hp) as [Hd1 Hd2].
  unfold verify_proof. cbn [requested_proof]. rewrite decide_True by (rewrite Hd1, Hs; exact Hattrs).
  rewrite decide_True by (by rewrite Hd2).
  set (proof := mk_proof cp (pv_requested s) (pv_identifiers s)).
  destruct (Forall2_choose (fun i part identifier def => provable part (rd_accum_key <$> def) /\
    verifier_part proof proof_req schemas cred_defs rev_reg_defs rev_regs ns i identifier =
      Ok (verifier_view part (rd_accum_key <$> def))) parts ids) as (defs & Hdl & Hdefs).
  - by destruct (Forall3_length_lm _ _ _ _ Hmade), (Forall3_length_lr _ _ _ _ Hmade).
  - intros i part identifier Hi Hid. destruct (Forall3_lookup_m _ _ _ _ _ _ Hmade Hi) as (x & id' & Hx & Hid' & Hmk).
    rewrite Hid in Hid'. injection Hid' as <-.
    destruct (part_verified rc proof_req m ms schemas cred_defs rev_states rev_reg_defs rev_regs credentials ns proof i x part identifier
      Hm Hlen Hr Hp Hx Hmk Hreg) as (credential & def & Hcred & Hpart & (cred_def & Hcd & Hrf) & Hv).
    exists def. split; [by eapply Hprov|exact Hv].
  - assert (length ids = length parts) as Hil by by rewrite <-(Forall3_length_lm _ _ _ _ Hmade), (Forall3_length_lr _ _ _ _ Hmade).
    rewrite (verify_parts proof proof_req schemas cred_defs rev_reg_defs rev_regs ns
      (zip_with verifier_view parts (fmap (fmap rd_accum_key : option RevocationRegistryDefinitionV1 -> _) defs)) Hns).
    + apply law_complete.
      * unfold prove_cl. rewrite Hb0. cbn [mbind outcome_bind]. rewrite Hb1. cbn [mbind outcome_bind]. rewrite Hadd. exact Hcp.
      * apply Forall2_fmap_r, Forall2_same_length_lookup_2; [done|]. intros i part def Hi Hd.
        destruct (lookup_lt_is_Some_2 ids i) as [identifier Hid]; [rewrite Hil; by eapply lookup_lt_Some|].
        by destruct (Hdefs i part identifier def Hi Hid Hd).
    + apply Forall2_same_length_lookup_2.
      * rewrite length_imap, length_zip_with, length_fmap, Hdl. cbn [identifiers proof]. rewrite Hids, Hil. lia.
      * intros i y vp Hy Hvp. rewrite list_lookup_imap in Hy. cbn [identifiers proof] in Hy. rewrite Hids in Hy.
        destruct (ids !! i) as [identifier|] eqn:Hid; [|done]. cbn in Hy. injection Hy as <-.
        apply lookup_zip_with_Some in Hvp as (part & accum & -> & Hi & Hacc).
        rewrite list_lookup_fmap in Hacc. destruct (defs !! i) as [def|] eqn:Hd; [|done]. cbn in Hacc. injection Hacc as <-.
        by destruct (Hdefs i part identifier def Hi Hid Hd).
Qed.

(** C5: a proof that [create_proof] makes for a request is accepted by [verify_proof] on
    that request, when every requested attribute and predicate was given a credential or a
    value, the cryptography can prove the parts, and the verifier has the registries that
    the prover used. *)
Theorem created_proof_verifies credentials proof_req rc ms schemas cred_defs rev_states rev_reg_defs rev_regs proof :
  create_proof credentials proof_req rc ms schemas cred_defs rev_states = Ok proof ->
  (Z.of_nat (length (identifiers proof)) < 2 ^ 31)%Z ->
  dom (requested_attributes proof_req) = dom (rc_attributes rc) ∪ dom (self_attested_attributes rc) ->
  dom (requested_predicates proof_req) = dom (rc_predicates rc) ->
  (forall key credential cred_def, credentials !! cred_id key = Some credential ->
    cred_defs !! cr_cred_def_id credential = Some cred_def -> registered rev_states rev_reg_defs rev_regs key credential cred_def) ->
  (forall key credential cred_def ns x part def, credentials !! cred_id key = Some credential ->
    prover_part ms schemas cred_defs rev_states ns key credential x = Ok part ->
    cred_defs !! cr_cred_def_id credential = Some cred_def ->
    revocation_for rev_reg_defs rev_regs (identifier_of key credential) cred_def = Ok (def, pp_rev_reg part) ->
    provable part (rd_accum_key <$> def)) ->
  verify_proof proof proof_req schemas cred_defs rev_reg_defs rev_regs = Ok true.
Proof. apply made_proof_accepted. Qed.
End theorems.

(** ** A toy cryptography, to see that the contract can hold *)

Module ToyCL.

Abbreviation Request := (gset string * gset (string * string * Z))%type.
Abbreviation Key := (string * option string)%type.

#[export] Instance types : CLTypes := {|
  ClNonce := N; ClProof := N * list (Request * list string * list string * Key * option string);
  ClSignature := string; ClSignatureProof := unit; ClPrimaryKey := string; ClRevocationKey := string;
  ClPublicKey := Key; ClAccumKey := string; ClRevReg := string; ClWitness := string; ClMasterSecret := string;
  ClBlinding := unit; ClSchema := list string; ClNonSchema := list string;
  ClValues := list (string * string) * list (string * string); ClRequest := Request;
  ClProofBuilder := list (Request * list string * list string * Key * option string);
  ClProofVerifier := list (Request * list string * list string * Key * option string);
|}.

(** A part is proved when the values have the names that it reveals. *)
#[export] Instance cl : CL := {|
  build_from_parts := fun p r => Ok (p, r);
  credential_schema := Ok;
  non_credential_schema := Ok;
  credential_values := fun known hidden => Ok (known, hidden);
  sub_proof_request := fun attrs preds => Ok (list_to_set attrs, list_to_set preds);
  new_proof_builder := Ok [];
  add_common_attribute := fun _ b => Ok b;
  add_sub_proof := fun part b =>
    if decide ((pp_request part).1 ⊆ list_to_set ((pp_values part).1.*1) /\ pp_values part <> ([], [])) then
      Ok (b ++ [(pp_request part, pp_schema part, pp_non_schema part, pp_key part, pp_rev_reg part)])
    else Err InvalidStructure;
  finalize_proof := fun nonce b => Ok (nonce, b);
  new_proof_verifier := Ok [];
  add_sub_proof_request := fun part v =>
    Ok (v ++ [(vp_request part, vp_schema part, vp_non_schema part, vp_key part, vp_rev_reg part)]);
  verify_cl := fun proof nonce v => Ok (bool_decide (proof = (nonce, v)));
  process_credential_signature := fun s _ _ _ _ _ _ _ _ => Ok s;
|}.

#[export] Instance lower : Unicode := {| to_lowercase := map_chars ascii_lower; lowercase_ascii := fun s _ => eq_refl |}.

Lemma prove_all parts accums : forall b b', length parts = length accums ->
  foldM (fun b part => add_sub_proof part b) parts b = Ok b' ->
  foldM (fun v part => add_sub_proof_request part v) (zip_with verifier_view parts accums) b = Ok b'.
Proof.
  revert accums. induction parts as [|part parts IH]; intros [|accum accums] b b' Hl Hb; try done. cbn [foldM zip_with] in *.
  apply bind_Ok in Hb as (b1 & Hadd & Hb). cbn in Hadd. case_decide; [|done]. injection Hadd as <-.
  cbn [add_sub_proof_request cl mbind outcome_bind]. apply IH; [by injection Hl|exact Hb].
Qed.

#[export] Instance laws : CLLaws.
Proof.
  refine {| provable := fun _ _ => True |}.
  - intros attrs attrs' preds preds' Ha Hp. cbn [sub_proof_request cl]. do 2 f_equal; apply set_eq; intros x;
      by rewrite !elem_of_list_to_set, ?Ha, ?Hp.
  - intros parts accums nonce proof Hp Hall%Forall2_length. unfold prove_cl in Hp. cbn [new_proof_builder cl mbind outcome_bind add_common_attribute] in Hp.
    apply bind_Ok in Hp as (b & Hb & Hp). cbn in Hp. injection Hp as <-. unfold check_cl.
    cbn [new_proof_verifier cl mbind outcome_bind]. rewrite (prove_all parts accums [] b Hall Hb). cbn.
    by rewrite bool_decide_eq_true_2.
Defined.

(** A request for a name, which is revealed, a city, which is not, and an age. *)
#[export] Instance order : HashOrder := key_order.
#[export] Instance machine : Machine := debug_machine.
Local Open Scope string_scope.
Definition schema : SchemaV1 := mk_schema "did:2:person:1.0" "person" "1.0" {["name"; "city"; "age"]} None.
Definition definition : CredentialDefinition := mk_cred_def "did:3:CL:1" "1" "tag" "key" (Some "rkey").
Definition credential : Credential := mk_credential "did:2:person:1.0" "did:3:CL:1" (Some "reg")
  {["name" := mk_attribute_values "Alex" "1139"; "city" := mk_attribute_values "Paris" "27"; "age" := mk_attribute_values "28" "28"]}
  "signature" tt None None.
Definition key : ProvingCredentialKey := mk_proving_key "cred" (Some 7%N).
Definition request : ProofRequest := mk_proof_request 5%N "request" "1.0"
  {["r1" := mk_attribute_info "Na me" None None; "r2" := mk_attribute_info "city" None None; "r3" := mk_attribute_info "phone" None None]}
  {["p1" := mk_predicate_info "age" GE 18 None None]} None.
Definition chosen : RequestedCredentials := mk_requested_credentials {["r3" := "555"]}
  {["r1" := mk_requested_attribute key true; "r2" := mk_requested_attribute key false]} {["p1" := key]}.
Definition schemas : gmap string SchemaV1 := {["did:2:person:1.0" := schema]}.
Definition definitions : gmap string CredentialDefinition := {["did:3:CL:1" := definition]}.
Definition registry : RevocationRegistryDefinitionV1 := mk_rev_reg_def "reg" "tag" "did:3:CL:1" ISSUANCE_BY_DEFAULT 10 "accum" "hash" "tails".
Definition states : gmap string (gmap N RevocationState) := {["reg" := {[7%N := mk_rev_state "witness" "value" 7]}]}.
Definition registries : gmap string RevocationRegistryDefinitionV1 := {["reg" := registry]}.
Definition registry_values : gmap string (gmap N ClRevReg) := {["reg" := {[7%N := "value"]}]}.
Definition shown : IndyResult Proof_ := create_proof
  {["cred" := credential]} request chosen "secret" schemas definitions states.

Definition the_proof : Proof_ :=
  match shown with Ok proof => proof | _ => mk_proof (0%N, []) (mk_requested_proof ∅ ∅ ∅ ∅) [] end.

Lemma shown_ok : shown = Ok the_proof.
Proof.
  assert (match shown with Ok _ => true | _ => false end = true) as Hok by (vm_compute; reflexivity).
  unfold the_proof. by destruct shown.
Qed.

Lemma toy_registered k cred cred_def : ({["cred" := credential]} : gmap string Credential) !! cred_id k = Some cred ->
  definitions !! cr_cred_def_id cred = Some cred_def -> registered states registries registry_values k cred cred_def.
Proof.
  intros [_ <-]%lookup_singleton_Some Hd. unfold definitions in Hd. apply lookup_singleton_Some in Hd as [_ <-].
  intros rs Hrs. exists registry. unfold rev_state_for in Hrs. cbn [cd_revocation definition] in Hrs.
  apply bind_Ok in Hrs as (t & Ht%ok_or_Ok & Hrs). apply bind_Ok in Hrs as (reg & Hr & Hrs). injection Hr as <-.
  apply bind_Ok in Hrs as (sts & Hsts%ok_or_Ok & Hrs). unfold states in Hsts. apply lookup_singleton_Some in Hsts as [_ <-].
  apply bind_Ok in Hrs as (st & Hst%ok_or_Ok & Hrs). apply lookup_singleton_Some in Hst as [<- <-]. injection Hrs as <-.
  unfold revocation_for, identifier_of. cbn [cd_revocation definition id_timestamp id_rev_reg_id credential cr_rev_reg_id ok_or mbind outcome_bind].
  by rewrite Ht.
Qed.

Lemma created_proof_verifies_witness :
  verify_proof the_proof request schemas definitions registries registry_values = Ok true.
Proof.
  refine (created_proof_verifies {["cred" := credential]} request chosen "secret" schemas definitions states
    registries registry_values the_proof shown_ok _ _ _ toy_registered _).
  - vm_compute. reflexivity.
  - apply (bool_decide_unpack _). vm_compute. exact I.
  - apply (bool_decide_unpack _). vm_compute. exact I.
  - done.
Defined.
End ToyCL.
