(* ===== verification/VerifierFacts.v ===== *)
(** * VerifierFacts: what an accepted proof says, and what the verifier does not look at

    Theorems on the verifier of [Anoncreds.v], over the contract of [AnoncredsFacts.v]: the
    statement that the cryptography has checked when a proof is accepted, the parts of a
    proof and of a request that the verdict does not depend on, and the referents that are
    accepted although no credential proves them. *)

From stdpp Require Import gmap.
From S2P Require Import Prelude Errors Json Anoncreds AnoncredsFacts.

(** ** Lemmas: the selected attributes and predicates *)

Section selection.
Context `{HashOrder} `{Unicode} `{CL} `{!CLLaws} `{Machine}.

(** The names that a part [i] has to reveal, and the predicates that it has to satisfy. *)
Definition names_of (attrs : list AttributeInfo) : list string := (fun a => attr_common_view (ai_name a)) <$> attrs.
Definition triples_of (preds : list PredicateInfo) : list (string * string * Z) :=
  (fun p => (attr_common_view (pi_name p), "GE"%string, p_value p)) <$> preds.

Definition attrs_at (i : nat) (rp : RequestedProof) (proof_req : ProofRequest) : list string :=
  names_of (_get_revealed_attributes_for_credential i rp proof_req).
Definition preds_at (i : nat) (rp : RequestedProof) (proof_req : ProofRequest) : list (string * string * Z) :=
  triples_of (_get_predicates_for_credential i rp proof_req).

Lemma elem_of_attrs_at i rp proof_req a : a ∈ attrs_at i rp proof_req <-> exists r ri ai,
  revealed_attrs rp !! r = Some ri /\ requested_attributes proof_req !! r = Some ai /\
  as_usize (ri_index ri) = N.of_nat i /\ a = attr_common_view (ai_name ai).
Proof.
  unfold attrs_at, names_of, _get_revealed_attributes_for_credential. rewrite list_elem_of_fmap. split.
  - intros (ai & -> & Hai). apply list_elem_of_omap in Hai as ([r ri] & Hri%elem_of_hash_iter & Hai). cbn [fst snd] in Hai.
    destruct (N.eqb_spec (N.of_nat i) (as_usize (ri_index ri))); [|done]. by exists r, ri, ai.
  - intros (r & ri & ai & Hri & Hai & Hi & ->). exists ai. split; [done|]. apply list_elem_of_omap. exists (r, ri).
    split; [by apply elem_of_hash_iter|]. cbn [fst snd]. by rewrite Hi, N.eqb_refl.
Qed.

Lemma elem_of_preds_at i rp proof_req t : t ∈ preds_at i rp proof_req <-> exists r z p,
  predicates rp !! r = Some z /\ requested_predicates proof_req !! r = Some p /\
  as_usize z = N.of_nat i /\ t = (attr_common_view (pi_name p), "GE"%string, p_value p).
Proof.
  unfold preds_at, triples_of, _get_predicates_for_credential. rewrite list_elem_of_fmap. split.
  - intros (p & -> & Hp). apply list_elem_of_omap in Hp as ([r z] & Hz%elem_of_hash_iter & Hp). cbn [fst snd] in Hp.
    destruct (N.eqb_spec (N.of_nat i) (as_usize z)); [|done]. by exists r, z, p.
  - intros (r & z & p & Hz & Hp & Hi & ->). exists p. split; [done|]. apply list_elem_of_omap. exists (r, z).
    split; [by apply elem_of_hash_iter|]. cbn [fst snd]. by rewrite Hi, N.eqb_refl.
Qed.

(** What is requested under the referents of an index. *)
Definition indexed {B} (i : nat) (get : string -> option B) (m : gmap string Z) : list B :=
  omap (fun kv => if (N.of_nat i =? as_usize kv.2)%N then get kv.1 else None) (map_to_list m).

Lemma indexed_perm {V A B} i (m : gmap string V) (index : V -> Z) (get : string -> option A) (g : A -> B) :
  g <$> omap (fun kv => if (N.of_nat i =? as_usize (index kv.2))%N then get kv.1 else None) (hash_iter m) ≡ₚ
  indexed i (fun r => g <$> get r) (index <$> m).
Proof.
  unfold indexed. rewrite (hash_iter_perm m), map_to_list_fmap, list_fmap_omap. apply reflexive_eq, list_omap_ext, Forall2_fmap_r.
  induction (map_to_list m) as [|[r v] l IH]; constructor; [|done]. cbn. by case_match.
Qed.

Lemma indexed_insert {B} i (get : string -> option B) m r z : as_usize z <> N.of_nat i -> m !! r = None ->
  indexed i get (<[r := z]> m) ≡ₚ indexed i get m.
Proof.
  intros Hz Hr. unfold indexed. rewrite map_to_list_insert by done. csimpl. by rewrite (proj2 (N.eqb_neq _ _)) by congruence.
Qed.

Lemma indexed_ext {B} i (get get' : string -> option B) m : (forall r, is_Some (m !! r) -> get r = get' r) ->
  indexed i get m = indexed i get' m.
Proof.
  intros Hg. unfold indexed. apply list_omap_ext, Forall_Forall2_diag, Forall_forall. intros [r z] Hrz%elem_of_map_to_list. cbn.
  rewrite Hg; [done|by rewrite Hrz].
Qed.

Definition name_at (proof_req : ProofRequest) (r : string) : option string :=
  (fun a => attr_common_view (ai_name a)) <$> requested_attributes proof_req !! r.
Definition triple_at (proof_req : ProofRequest) (r : string) : option (string * string * Z) :=
  (fun p => (attr_common_view (pi_name p), "GE"%string, p_value p)) <$> requested_predicates proof_req !! r.

Lemma attrs_at_perm i rp proof_req : attrs_at i rp proof_req ≡ₚ indexed i (name_at proof_req) (indices rp).
Proof. exact (indexed_perm i (revealed_attrs rp) ri_index (fun r => requested_attributes proof_req !! r) (fun a => attr_common_view (ai_name a))). Qed.

Lemma preds_at_perm i rp proof_req : preds_at i rp proof_req ≡ₚ indexed i (triple_at proof_req) (predicates rp).
Proof.
  etrans; [exact (indexed_perm i (predicates rp) id (fun r => requested_predicates proof_req !! r) (fun p => (attr_common_view (pi_name p), "GE"%string, p_value p)))|].
  by rewrite map_fmap_id.
Qed.
End selection.

(** ** Lemmas: verifications that are the same *)

Section congruence.
Context `{HashOrder} `{Unicode} `{CL} `{!CLLaws} `{Machine}.
Context (proof proof' : Proof_) (proof_req proof_req' : ProofRequest) (schemas : gmap string SchemaV1)
  (cred_defs : gmap string CredentialDefinition) (rev_reg_defs : gmap string RevocationRegistryDefinitionV1)
  (rev_regs : gmap string (gmap N ClRevReg)).
Hypothesis same_attrs : forall i, i < length (identifiers proof) ->
  indexed i (name_at proof_req) (indices (requested_proof proof)) ≡ₚ indexed i (name_at proof_req') (indices (requested_proof proof')).
Hypothesis same_preds : forall i, i < length (identifiers proof) ->
  indexed i (triple_at proof_req) (predicates (requested_proof proof)) ≡ₚ
  indexed i (triple_at proof_req') (predicates (requested_proof proof')).

Lemma same_part ns i identifier : i < length (identifiers proof) ->
  verifier_part proof proof_req schemas cred_defs rev_reg_defs rev_regs ns i identifier =
  verifier_part proof' proof_req' schemas cred_defs rev_reg_defs rev_regs ns i identifier.
Proof.
  intros Hi. unfold verifier_part.
  enough (build_sub_proof_request (_get_revealed_attributes_for_credential i (requested_proof proof) proof_req)
      (_get_predicates_for_credential i (requested_proof proof) proof_req) =
    build_sub_proof_request (_get_revealed_attributes_for_credential i (requested_proof proof') proof_req')
      (_get_predicates_for_credential i (requested_proof proof') proof_req')) as -> by done.
  apply law_request_order.
  - etrans; [apply attrs_at_perm|]. etrans; [by apply same_attrs|]. symmetry. apply attrs_at_perm.
  - etrans; [apply preds_at_perm|]. etrans; [by apply same_preds|]. symmetry. apply preds_at_perm.
Qed.

Lemma same_verification : cl_proof proof = cl_proof proof' -> identifiers proof = identifiers proof' ->
  pr_nonce proof_req = pr_nonce proof_req' ->
  verify proof proof_req schemas cred_defs rev_reg_defs rev_regs = verify proof' proof_req' schemas cred_defs rev_reg_defs rev_regs.
Proof.
  intros Hcp Hids Hnonce. unfold verify. rewrite <-Hids, <-Hcp, <-Hnonce. destruct new_proof_verifier as [v|e| |]; try done.
  cbn [mbind outcome_bind]. destruct build_non_credential_schema as [ns|e| |]; try done. cbn [mbind outcome_bind].
  f_equal. revert v. assert (forall x, x ∈ imap pair (identifiers proof) -> x.1 < length (identifiers proof)) as Hl.
  { intros x (i & y & -> & Hy)%elem_of_lookup_imap_1. by apply lookup_lt_Some in Hy. }
  induction (imap pair (identifiers proof)) as [|x l IH]; intros v; [done|]. cbn [foldM].
  assert (verify_credential proof proof_req schemas cred_defs rev_reg_defs rev_regs ns v x =
    verify_credential proof' proof_req' schemas cred_defs rev_reg_defs rev_regs ns v x) as ->.
  { unfold verify_credential. by rewrite (same_part ns x.1 x.2) by (apply Hl; left). }
  destruct (verify_credential _ _ _ _ _ _ _ _ _) as [v'|e| |]; try done. cbn [mbind outcome_bind]. apply IH. intros y Hy. apply Hl. by right.
Qed.
End congruence.

(** ** Theorems *)

Section theorems.
Context `{HashOrder} `{Unicode} `{CL} `{!CLLaws} `{Machine}.

(** What was checked for the [i]th identifier of an accepted proof. *)
Definition checked (proof : Proof_) (proof_req : ProofRequest) (schemas : gmap string SchemaV1)
    (cred_defs : gmap string CredentialDefinition) (rev_reg_defs : gmap string RevocationRegistryDefinitionV1)
    (rev_regs : gmap string (gmap N ClRevReg)) (i : nat) (identifier : Identifier) (part : VerifierPart) : Prop :=
  exists schema cred_def names preds,
    schemas !! id_schema_id identifier = Some schema /\ build_credential_schema (attr_names schema) = Ok (vp_schema part) /\
    cred_defs !! id_cred_def_id identifier = Some cred_def /\
    build_from_parts (cd_primary cred_def) (cd_revocation cred_def) = Ok (vp_key part) /\
    sub_proof_request names preds = Ok (vp_request part) /\
    (forall a, a ∈ names <-> exists r ri ai, revealed_attrs (requested_proof proof) !! r = Some ri /\
      requested_attributes proof_req !! r = Some ai /\ as_usize (ri_index ri) = N.of_nat i /\ a = attr_common_view (ai_name ai)) /\
    (forall t, t ∈ preds <-> exists r z p, predicates (requested_proof proof) !! r = Some z /\
      requested_predicates proof_req !! r = Some p /\ as_usize z = N.of_nat i /\
      t = (attr_common_view (pi_name p), "GE"%string, p_value p)) /\
    match cd_revocation cred_def with
    | Some _ => exists at_time rev_reg_id def regs reg, id_timestamp identifier = Some at_time /\
        id_rev_reg_id identifier = Some rev_reg_id /\ rev_reg_defs !! rev_reg_id = Some def /\
        rev_regs !! rev_reg_id = Some regs /\ regs !! at_time = Some reg /\
        vp_accum part = Some (rd_accum_key def) /\ vp_rev_reg part = Some reg
    | None => vp_accum part = None /\ vp_rev_reg part = None
    end.

Lemma part_checked proof proof_req schemas cred_defs rev_reg_defs rev_regs ns i identifier part :
  verifier_part proof proof_req schemas cred_defs rev_reg_defs rev_regs ns i identifier = Ok part ->
  checked proof proof_req schemas cred_defs rev_reg_defs rev_regs i identifier part.
Proof.
  intros Hp. unfold verifier_part in Hp.
  apply bind_Ok in Hp as (schema & Hschema%ok_or_Ok & Hp). apply bind_Ok in Hp as (cred_def & Hdef%ok_or_Ok & Hp).
  apply bind_Ok in Hp as ([def reg] & Hrev & Hp). apply bind_Ok in Hp as (cs & Hcs & Hp).
  apply bind_Ok in Hp as (request & Hreq & Hp). apply bind_Ok in Hp as (key & Hkey & Hp). injection Hp as <-.
  exists schema, cred_def, (attrs_at i (requested_proof proof) proof_req), (preds_at i (requested_proof proof) proof_req).
  split_and!; [done..|by intros a; apply elem_of_attrs_at|by intros t; apply elem_of_preds_at|].
  unfold revocation_for in Hrev. destruct (cd_revocation cred_def); [|by injection Hrev as <- <-].
  apply bind_Ok in Hrev as (at_time & Ht%ok_or_Ok & Hrev). apply bind_Ok in Hrev as (rev_reg_id & Hid%ok_or_Ok & Hrev).
  apply bind_Ok in Hrev as (d & Hd%ok_or_Ok & Hrev). apply bind_Ok in Hrev as (regs & Hregs%ok_or_Ok & Hrev).
  apply bind_Ok in Hrev as (r & Hr%ok_or_Ok & Hrev). injection Hrev as <- <-.
  by exists at_time, rev_reg_id, d, regs, r.
Qed.

(** C4: when a proof is accepted, every requested attribute and predicate has a referent in
    it and the cryptography has accepted, for the nonce of the request, one part for each
    identifier: with the schema, the key and the registry at the identifier's time, and
    exactly the requested names and predicates whose referents point to that part. *)
Theorem accepted_was_checked proof proof_req schemas cred_defs rev_reg_defs rev_regs :
  verify_proof proof proof_req schemas cred_defs rev_reg_defs rev_regs = Ok true ->
  dom (requested_attributes proof_req) = dom (revealed_attrs (requested_proof proof)) ∪
    dom (unrevealed_attrs (requested_proof proof)) ∪ dom (self_attested_attrs (requested_proof proof)) /\
  dom (requested_predicates proof_req) = dom (predicates (requested_proof proof)) /\
  exists parts, check_cl parts (cl_proof proof) (pr_nonce proof_req) = Ok true /\
    length parts = length (identifiers proof) /\
    forall i identifier part, identifiers proof !! i = Some identifier -> parts !! i = Some part ->
      checked proof proof_req schemas cred_defs rev_reg_defs rev_regs i identifier part.
Proof.
  unfold verify_proof. intros Hv. case_decide as Ha; [|done]. case_decide as Hp; [|done]. split_and!; [done..|].
  pose proof Hv as Hrun. unfold verify in Hrun.
  apply bind_Ok in Hrun as (v & _ & Hrun). apply bind_Ok in Hrun as (ns & Hns & Hrun). apply bind_Ok in Hrun as (v' & Hloop & _).
  apply verify_loop_parts in Hloop as [parts Hparts]. exists parts.
  rewrite (verify_parts _ _ _ _ _ _ ns parts Hns Hparts) in Hv. split_and!; [done| |].
  - apply Forall2_length in Hparts. by rewrite length_imap in Hparts.
  - intros i identifier part Hid Hpart. apply (part_checked _ _ _ _ _ _ ns).
    refine (Forall2_lookup_lr _ _ _ i (i, identifier) part Hparts _ Hpart). by rewrite list_lookup_imap, Hid.
Qed.

(** the verdict does not depend on the raw and encoded values that the proof shows, on
    the restrictions, or on the times in which credentials have to be not revoked: proofs
    and requests that differ only there are verified alike. *)
Theorem values_and_restrictions_unchecked proof proof' proof_req proof_req' schemas cred_defs rev_reg_defs rev_regs :
  cl_proof proof = cl_proof proof' -> identifiers proof = identifiers proof' ->
  indices (requested_proof proof) = indices (requested_proof proof') ->
  self_attested_attrs (requested_proof proof) = self_attested_attrs (requested_proof proof') ->
  unrevealed_attrs (requested_proof proof) = unrevealed_attrs (requested_proof proof') ->
  predicates (requested_proof proof) = predicates (requested_proof proof') ->
  pr_nonce proof_req = pr_nonce proof_req' ->
  ai_name <$> requested_attributes proof_req = ai_name <$> requested_attributes proof_req' ->
  (fun p => (pi_name p, p_value p)) <$> requested_predicates proof_req =
    (fun p => (pi_name p, p_value p)) <$> requested_predicates proof_req' ->
  verify_proof proof proof_req schemas cred_defs rev_reg_defs rev_regs =
  verify_proof proof' proof_req' schemas cred_defs rev_reg_defs rev_regs.
Proof.
  intros Hcp Hids Hind Hself Hunrev Hpreds Hnonce Hattrs Hreqp. unfold verify_proof.
  assert (forall rp, dom (revealed_attrs rp) = dom (indices rp)) as Hdom by (intros rp; by rewrite <-(dom_fmap_L ri_index)).
  rewrite !Hdom, <-Hind, <-Hself, <-Hunrev, <-Hpreds.
  rewrite <-(dom_fmap_L ai_name (requested_attributes proof_req)), Hattrs, dom_fmap_L.
  rewrite <-(dom_fmap_L (fun p => (pi_name p, p_value p)) (requested_predicates proof_req)), Hreqp, dom_fmap_L.
  do 2 (case_decide; [|done]). apply same_verification; try done; intros i _.
  - rewrite <-Hind. apply reflexive_eq, indexed_ext. intros r _. unfold name_at.
    change (fun a => attr_common_view (ai_name a)) with (attr_common_view ∘ ai_name).
    by rewrite !option_fmap_compose, <-!lookup_fmap, Hattrs.
  - rewrite <-Hpreds. apply reflexive_eq, indexed_ext. intros r _. unfold triple_at.
    change (fun p => (attr_common_view (pi_name p), "GE"%string, p_value p))
      with ((fun x => (attr_common_view x.1, "GE"%string, x.2)) ∘ (fun p => (pi_name p, p_value p))).
    by rewrite !option_fmap_compose, <-!lookup_fmap, Hreqp.
Qed.

(** A proof that shows one more attribute and one more predicate, and a request for them. *)
Definition show_more (r : string) (ri : RevealedAttributeInfo) (r' : string) (z : Z) (proof : Proof_) : Proof_ :=
  let rp := requested_proof proof in
  mk_proof (cl_proof proof) (mk_requested_proof (<[r := ri]> (revealed_attrs rp)) (self_attested_attrs rp) (unrevealed_attrs rp)
    (<[r' := z]> (predicates rp))) (identifiers proof).

Definition ask_more (r : string) (ai : AttributeInfo) (r' : string) (pi : PredicateInfo) (proof_req : ProofRequest) : ProofRequest :=
  mk_proof_request (pr_nonce proof_req) (pr_name proof_req) (pr_version proof_req) (<[r := ai]> (requested_attributes proof_req))
    (<[r' := pi]> (requested_predicates proof_req)) (pr_non_revoked proof_req).

(** a referent that points to no part is accepted unproved.  A requested attribute
    that the proof shows with any values, under an index that is not one of the identifiers
    (a negative one, say), leaves the verdict what it is without the referent, and so does a
    requested predicate. *)
Theorem out_of_range_accepted proof proof_req schemas cred_defs rev_reg_defs rev_regs r ai ri r' pi z :
  (N.of_nat (length (identifiers proof)) <= as_usize (ri_index ri))%N -> (N.of_nat (length (identifiers proof)) <= as_usize z)%N ->
  requested_attributes proof_req !! r = None -> revealed_attrs (requested_proof proof) !! r = None ->
  requested_predicates proof_req !! r' = None -> predicates (requested_proof proof) !! r' = None ->
  verify_proof proof proof_req schemas cred_defs rev_reg_defs rev_regs = Ok true ->
  verify_proof (show_more r ri r' z proof) (ask_more r ai r' pi proof_req) schemas cred_defs rev_reg_defs rev_regs = Ok true.
Proof.
  intros Hz Hz' Ha Hr Hp Hpr Hv. unfold verify_proof in *.
  cbn [show_more ask_more requested_proof requested_attributes requested_predicates revealed_attrs unrevealed_attrs self_attested_attrs predicates].
  case_decide as Hda; [|done]. case_decide as Hdp; [|done]. rewrite !dom_insert_L.
  rewrite decide_True by (rewrite Hda; by rewrite !(assoc_L (∪))). rewrite decide_True by (by rewrite Hdp).
  rewrite <-Hv. symmetry. apply same_verification; try done; cbn [show_more requested_proof identifiers predicates]; intros i Hi.
  - unfold indices. cbn [revealed_attrs]. rewrite fmap_insert.
    rewrite indexed_insert; [|lia|by rewrite lookup_fmap, Hr]. apply reflexive_eq, indexed_ext. intros x Hx.
    unfold name_at. cbn [ask_more requested_attributes]. rewrite lookup_insert_ne; [done|]. intros <-. rewrite lookup_fmap, Hr in Hx. by destruct Hx.
  - rewrite indexed_insert; [|lia|done]. apply reflexive_eq, indexed_ext. intros x Hx.
    unfold triple_at. cbn [ask_more requested_predicates]. rewrite lookup_insert_ne; [done|]. intros <-. rewrite Hpr in Hx. by destruct Hx.
Qed.
End theorems.

(** ** The theorems at a concrete proof *)

Module Examples.
Import ToyCL.
Local Open Scope string_scope.

Lemma toy_accepted : verify_proof the_proof request schemas definitions registries registry_values = Ok true.
Proof. vm_compute. reflexivity. Qed.

Lemma accepted_was_checked_witness :
  verify_proof the_proof request schemas definitions registries registry_values = Ok true /\
  exists parts, check_cl parts (cl_proof the_proof) (pr_nonce request) = Ok true /\ length parts = 1.
Proof.
  split; [exact toy_accepted|].
  destruct (accepted_was_checked _ _ _ _ _ _ toy_accepted) as (_ & _ & parts & Hparts & Hl & _).
  exists parts. split; [exact Hparts|]. rewrite Hl. vm_compute. reflexivity.
Defined.

(** Another name, another value, and a request with restrictions and a period. *)
Definition forged : Proof_ :=
  mk_proof (cl_proof the_proof) (mk_requested_proof ((fun ri => mk_revealed (ri_index ri) "Eve" "666") <$> revealed_attrs (requested_proof the_proof))
    (self_attested_attrs (requested_proof the_proof)) (unrevealed_attrs (requested_proof the_proof))
    (predicates (requested_proof the_proof))) (identifiers the_proof).

Definition restricted : ProofRequest := mk_proof_request 5%N "request" "1.0"
  {["r1" := mk_attribute_info "Na me" (Some (Object [("issuer_did", String_ "trusted")])) None;
    "r2" := mk_attribute_info "city" None (Some (mk_interval (Some 1000%N) None)); "r3" := mk_attribute_info "phone" None None]}
  {["p1" := mk_predicate_info "age" GE 18 None None]} (Some (mk_interval (Some 1000%N) None)).

Lemma values_and_restrictions_unchecked_witness :
  revealed_attrs (requested_proof forged) !! "r1" = Some (mk_revealed 0 "Eve" "666") /\
  verify_proof forged restricted schemas definitions registries registry_values = Ok true.
Proof.
  split; [vm_compute; reflexivity|]. rewrite <-toy_accepted. symmetry.
  refine (values_and_restrictions_unchecked the_proof forged request restricted _ _ _ _ _ _ _ _ _ _ _ _ _); reflexivity.
Defined.

(** An attribute and a predicate that no credential proves, under the index -1. *)
Lemma out_of_range_accepted_witness :
  verify_proof (show_more "r4" (mk_revealed (-1) "president" "1") "p2" (-1) the_proof)
    (ask_more "r4" (mk_attribute_info "role" None None) "p2" (mk_predicate_info "salary" GE 1000000 None None) request)
    schemas definitions registries registry_values = Ok true.
Proof.
  refine (out_of_range_accepted the_proof request schemas definitions registries registry_values "r4" _ _ "p2" _ (-1)%Z _ _ _ _ _ _ toy_accepted).
  - vm_compute. discriminate.
  - vm_compute. discriminate.
  - vm_compute. reflexivity.
  - vm_compute. reflexivity.
  - vm_compute. reflexivity.
  - vm_compute. reflexivity.
Defined.
End Examples.
