(* ===== verification/ProverCommands.v ===== *)
(** * ProverCommands: the prover's credentials in a wallet

    Models [ProverCommandExecutor] of [libindy/src/commands/anoncreds/prover.rs] over the
    wallet service: master secrets, credential requests, storing and searching credentials,
    and making proofs of them.  Results are the values whose JSON the code returns; what is
    drawn at random (uuids, master secrets, nonces) is an argument.  Its theorems are in
    [ProverFacts.v]. *)

From stdpp Require Import gmap.
From S2P Require Import Prelude Errors Crypto Json PoolTypes Encryption QueryEncryption Storage Wallet Stream WalletService Anoncreds.

(** Blinding, and the index of a signature in its registry *)
Class CLBlinding `{CL} := {
  ClKeyCorrectness : Type;
  ClBlinded : Type;
  ClBlindedProof : Type;
  blind_credential_secrets : ClPublicKey -> ClKeyCorrectness -> ClValues -> ClNonce ->
    IndyResult (ClBlinded * ClBlinding * ClBlindedProof);
  extract_index : ClSignature -> option N;
}.

Record MasterSecret `{CLTypes} := mk_master_secret { ms_value : ClMasterSecret }.
Arguments mk_master_secret {_} _.

Record CredentialOffer `{CLBlinding} := mk_offer {
  of_schema_id : string;
  of_cred_def_id : string;
  of_key_correctness_proof : ClKeyCorrectness;
  of_nonce : ClNonce;
}.
Arguments mk_offer {_ _} _ _ _ _.

Record CredentialRequest `{CLBlinding} := mk_credential_request {
  cq_prover_did : string;
  cq_cred_def_id : string;
  cq_blinded_ms : ClBlinded;
  cq_blinded_ms_correctness_proof : ClBlindedProof;
  cq_nonce : ClNonce;
}.
Arguments mk_credential_request {_ _} _ _ _ _ _.

Record CredentialRequestMetadata `{CLTypes} := mk_request_metadata {
  master_secret_blinding_data : ClBlinding;
  rm_nonce : ClNonce;
  master_secret_name : string;
}.
Arguments mk_request_metadata {_} _ _ _.

Record CredentialInfo := mk_credential_info {
  ci_referent : string;
  ci_attrs : gmap string string;
  ci_schema_id : string;
  ci_cred_def_id : string;
  ci_rev_reg_id : option string;
  ci_cred_rev_id : option string;
}.

Record RequestedCredential := mk_requested_credential { cred_info : CredentialInfo; interval : option NonRevocedInterval }.

Record CredentialsForProofRequest := mk_credentials_for {
  cf_attrs : gmap string (list RequestedCredential);
  cf_predicates : gmap string (list RequestedCredential);
}.

Record SearchForProofRequest (Iter : Type) := mk_search_for {
  sf_search : WalletSearch Iter;
  sf_interval : option NonRevocedInterval;
  sf_predicate_info : option PredicateInfo;
}.
Arguments mk_search_for {Iter} _ _ _.
Arguments sf_search {Iter} s.
Arguments sf_interval {Iter} s.
Arguments sf_predicate_info {Iter} s.

Record ProverCommandExecutor (St Iter : Type) := mk_prover_executor {
  wallet_service : WalletService St;
  searches : gmap Z (WalletSearch Iter);
  searches_for_proof_requests : gmap Z (gmap string (SearchForProofRequest Iter));
}.
Arguments mk_prover_executor {St Iter} _ _ _.
Arguments wallet_service {St Iter} p.
Arguments searches {St Iter} p.
Arguments searches_for_proof_requests {St Iter} p.

(** ** The prover's service *)

Section prover_service.
Context `{HashOrder} `{Unicode} `{CLBlinding}.

Definition new_credential_request (cred_def : CredentialDefinition) (master_secret : ClMasterSecret) (credential_offer : CredentialOffer) :
    IndyResult (ClBlinded * ClBlinding * ClBlindedProof) :=
  credential_pub_key ← build_from_parts (cd_primary cred_def) (cd_revocation cred_def);
  cred_values ← credential_values [] [("master_secret"%string, master_secret)];
  blind_credential_secrets credential_pub_key (of_key_correctness_proof credential_offer) cred_values (of_nonce credential_offer).

Definition process_credential (credential : Credential) (cred_request_metadata : CredentialRequestMetadata)
    (master_secret : ClMasterSecret) (cred_def : CredentialDefinition) (rev_reg_def : option RevocationRegistryDefinitionV1) :
    IndyResult Credential :=
  credential_pub_key ← build_from_parts (cd_primary cred_def) (cd_revocation cred_def);
  credential_values ← build_credential_values (cr_values credential) (Some master_secret);
  signature ← process_credential_signature (cr_signature credential) credential_values (cr_signature_correctness_proof credential)
    (master_secret_blinding_data cred_request_metadata) credential_pub_key (rm_nonce cred_request_metadata)
    (rd_accum_key <$> rev_reg_def) (cr_rev_reg credential) (cr_witness credential);
  Ok (mk_credential (cr_schema_id credential) (cr_cred_def_id credential) (cr_rev_reg_id credential) (cr_values credential) signature
    (cr_signature_correctness_proof credential) (cr_rev_reg credential) (cr_witness credential)).
End prover_service.

(** ** The commands *)

Section commands.
Context `{ChaCha20Poly1305} `{HmacSha256} `{HashOrder} `{OptionCodecs} `{JsonText} `{Machine} `{Base58} `{Unicode} `{CLBlinding}.
Context `{!IndyObject Credential} `{!IndyObject MasterSecret}.
Context {St Iter : Type} `{!WalletStorage St Iter}.

Abbreviation Service := (StateM IndyErrorKind (WalletService St)).
Abbreviation SearchM := (StateM IndyErrorKind (WalletSearch Iter * WalletService St)).
Abbreviation Prover := (StateM IndyErrorKind (ProverCommandExecutor St Iter)).

Definition set_wallet_service (sv : WalletService St) (p : ProverCommandExecutor St Iter) : ProverCommandExecutor St Iter :=
  mk_prover_executor sv (searches p) (searches_for_proof_requests p).
Definition set_searches f (p : ProverCommandExecutor St Iter) : ProverCommandExecutor St Iter :=
  mk_prover_executor (wallet_service p) (f (searches p)) (searches_for_proof_requests p).
Definition set_searches_for f (p : ProverCommandExecutor St Iter) : ProverCommandExecutor St Iter :=
  mk_prover_executor (wallet_service p) (searches p) (f (searches_for_proof_requests p)).

Definition on_wallets {A} : Service A -> Prover A := within wallet_service set_wallet_service.

Definition _wallet_get_master_secret (wallet_handle : Z) (key : string) : Service MasterSecret :=
  get_indy_object MasterSecret wallet_handle key RecordOptions_id_value.

Definition create_master_secret (uuid : string) (new : IndyResult ClMasterSecret) (fresh : Fresh) (wallet_handle : Z)
    (master_secret_id : option string) : Service string :=
  let master_secret_id := default uuid master_secret_id in
  exists_ ← record_exists MasterSecret wallet_handle master_secret_id;
  if exists_ : bool then fail MasterSecretDuplicateName
  else
    master_secret ← lift new;
    _ ← add_indy_object MasterSecret fresh wallet_handle master_secret_id (mk_master_secret master_secret) ∅;
    mret master_secret_id.

Definition create_credential_request (new_nonce : IndyResult ClNonce) (wallet_handle : Z) (prover_did : string)
    (cred_offer : CredentialOffer) (cred_def : CredentialDefinition) (master_secret_id : string) :
    Service (CredentialRequest * CredentialRequestMetadata) :=
  _ ← lift (validate_did prover_did);
  master_secret ← _wallet_get_master_secret wallet_handle master_secret_id;
  '(blinded_ms, ms_blinding_data, blinded_ms_correctness_proof) ←
    lift (new_credential_request cred_def (ms_value master_secret) cred_offer);
  nonce ← lift new_nonce;
  mret (mk_credential_request prover_did (of_cred_def_id cred_offer) blinded_ms blinded_ms_correctness_proof nonce,
        mk_request_metadata ms_blinding_data nonce master_secret_id).

Definition store_credential (uuid : string) (fresh : Fresh) (wallet_handle : Z) (cred_id : option string)
    (cred_req_metadata : CredentialRequestMetadata) (credential : Credential) (cred_def : CredentialDefinition)
    (rev_reg_def : option RevocationRegistryDefinitionV1) : Service string :=
  master_secret ← _wallet_get_master_secret wallet_handle (master_secret_name cred_req_metadata);
  credential ← lift (process_credential credential cred_req_metadata (ms_value master_secret) cred_def rev_reg_def);
  let credential := mk_credential (cr_schema_id credential) (cr_cred_def_id credential) (cr_rev_reg_id credential)
    (cr_values credential) (cr_signature credential) (cr_signature_correctness_proof credential) None None in
  let out_cred_id := default uuid cred_id in
  cred_tags ← lift (build_credential_tags credential);
  _ ← add_indy_object Credential fresh wallet_handle out_cred_id credential cred_tags;
  mret out_cred_id.

Definition _get_credential_info (referent : string) (credential : Credential) : CredentialInfo :=
  mk_credential_info referent (raw <$> cr_values credential) (cr_schema_id credential) (cr_cred_def_id credential)
    (cr_rev_reg_id credential) (pretty <$> extract_index (cr_signature credential)).

Definition _get_credential (record : WalletRecord) : IndyResult (string * Credential) :=
  value ← ok_or (wr_value record) InvalidState;
  credential ← ok_or (object_from_str value) InvalidState;
  Ok (wr_id record, credential).

Definition info_of (record : WalletRecord) : IndyResult CredentialInfo :=
  '(referent, credential) ← _get_credential record; Ok (_get_credential_info referent credential).

(** Runs a computation on a search that is not kept. *)
Definition with_new_search {A} (search : WalletSearch Iter) (m : SearchM A) : Service A := fun sv =>
  let '(r, (_, sv)) := m (search, sv) in (r, sv).

(** [while let Some(record) = search.fetch_next_record()?] *)
Fixpoint all_infos (fuel : nat) (credentials_info : list CredentialInfo) : SearchM (list CredentialInfo) :=
  match fuel with
  | O => lift OutOfFuel
  | S fuel =>
      next ← fetch_next_record;
      match next with
      | Some credential_record => info ← lift (info_of credential_record); all_infos fuel (credentials_info ++ [info])
      | None => mret credentials_info
      end
  end.

Definition search_credentials_in (wallet_handle : Z) (query_json : string) : Service (WalletSearch Iter) :=
  search_indy_records Credential wallet_handle query_json SearchOptions_id_value.

Definition get_credentials (fuel : nat) (wallet_handle : Z) (filter_json : option string) : Service (list CredentialInfo) :=
  credentials_search ← search_credentials_in wallet_handle (default "{}"%string filter_json);
  with_new_search credentials_search (all_infos fuel []).

Definition get_credential (wallet_handle : Z) (cred_id : string) : Service CredentialInfo :=
  credential ← get_indy_object Credential wallet_handle cred_id RecordOptions_id_value;
  mret (_get_credential_info cred_id credential).

(** *** Searches that are kept *)

Definition search_credentials (wallet_handle : Z) (query_json : option string) : Prover (Z * N) :=
  credentials_search ← on_wallets (search_credentials_in wallet_handle (default "{}"%string query_json));
  total_count ← lift (get_total_count credentials_search);
  handle ← on_wallets next_handle;
  _ ← modify (set_searches (<[handle := credentials_search]>));
  mret (handle, default 0%N total_count).

Definition with_search {A} (search_handle : Z) (m : SearchM A) : Prover A := fun p =>
  match searches p !! search_handle with
  | Some search =>
      let '(r, (search, sv)) := m (search, wallet_service p) in
      (r, set_searches (<[search_handle := search]>) (set_wallet_service sv p))
  | None => (Err InvalidWalletHandle, p)
  end.

(** [for _ in 0..count] *)
Fixpoint some_infos (count : nat) (credentials_info : list CredentialInfo) : SearchM (list CredentialInfo) :=
  match count with
  | O => mret credentials_info
  | S count =>
      next ← fetch_next_record;
      match next with
      | Some credential_record => info ← lift (info_of credential_record); some_infos count (credentials_info ++ [info])
      | None => mret credentials_info
      end
  end.

Definition fetch_credentials (search_handle : Z) (count : N) : Prover (list CredentialInfo) :=
  with_search search_handle (some_infos (N.to_nat count) []).

Definition close_credentials_search (search_handle : Z) : Prover unit :=
  searches ← gets searches;
  match searches !! search_handle with
  | Some _ => modify (set_searches (delete search_handle))
  | None => fail InvalidWalletHandle
  end.

(** *** The credentials for a proof request *)

(** Whether a credential is one to return: with a predicate, if its value satisfies it. *)
Definition satisfies (predicate_info : option PredicateInfo) (credential : Credential) : IndyResult bool :=
  match predicate_info with
  | Some predicate =>
      values ← ok_or (get_credential_values_for_attribute (cr_values credential) (pi_name predicate)) InvalidState;
      attribute_satisfy_predicate predicate (encoded values)
  | None => Ok true
  end.

(** [if let Some(mut count) = max_count] counts in a copy. *)
Fixpoint requested_loop (fuel : nat) (predicate_info : option PredicateInfo) (interval : option NonRevocedInterval)
    (max_count : option N) (credentials : list RequestedCredential) : SearchM (list RequestedCredential) :=
  match fuel with
  | O => lift OutOfFuel
  | S fuel =>
      next ← fetch_next_record;
      match next with
      | Some credential_record =>
          '(referent, credential) ← lift (_get_credential credential_record);
          satisfy ← lift (satisfies predicate_info credential);
          if satisfy : bool then
            let credentials := credentials ++ [mk_requested_credential (_get_credential_info referent credential) interval] in
            match max_count with
            | Some count =>
                count ← lift (usize_sub count 1);
                if (count =? 0)%N then mret credentials
                else requested_loop fuel predicate_info interval max_count credentials
            | None => requested_loop fuel predicate_info interval max_count credentials
            end
          else requested_loop fuel predicate_info interval max_count credentials
      | None => mret credentials
      end
  end.

Definition _get_requested_credentials (fuel : nat) (predicate_info : option PredicateInfo) (interval : option NonRevocedInterval)
    (max_count : option N) : SearchM (list RequestedCredential) :=
  match max_count with
  | Some 0%N => mret []
  | _ => requested_loop fuel predicate_info interval max_count []
  end.

Definition _query_requested_credentials (fuel : nat) (wallet_handle : Z) (query_json : string)
    (predicate_info : option PredicateInfo) (interval : option NonRevocedInterval) : Service (list RequestedCredential) :=
  credentials_search ← search_credentials_in wallet_handle query_json;
  with_new_search credentials_search (_get_requested_credentials fuel predicate_info interval None).

Definition credentials_for_attribute (fuel : nat) (wallet_handle : Z) (proof_request : ProofRequest)
    (acc : gmap string (list RequestedCredential)) (x : string * AttributeInfo) : Service (gmap string (list RequestedCredential)) :=
  query_json ← lift (build_query (ai_name x.2) x.1 (ai_restrictions x.2) None);
  let interval := get_non_revoc_interval (pr_non_revoked proof_request) (ai_non_revoked x.2) in
  credentials ← _query_requested_credentials fuel wallet_handle query_json None interval;
  mret (<[x.1 := credentials]> acc).

Definition credentials_for_predicate (fuel : nat) (wallet_handle : Z) (proof_request : ProofRequest)
    (acc : gmap string (list RequestedCredential)) (x : string * PredicateInfo) : Service (gmap string (list RequestedCredential)) :=
  query_json ← lift (build_query (pi_name x.2) x.1 (pi_restrictions x.2) None);
  let interval := get_non_revoc_interval (pr_non_revoked proof_request) (pi_non_revoked x.2) in
  credentials ← _query_requested_credentials fuel wallet_handle query_json (Some x.2) interval;
  mret (<[x.1 := credentials]> acc).

Definition get_credentials_for_proof_req (fuel : nat) (wallet_handle : Z) (proof_request : ProofRequest) :
    Service CredentialsForProofRequest :=
  attrs ← foldlM (credentials_for_attribute fuel wallet_handle proof_request) (hash_iter (requested_attributes proof_request)) ∅;
  predicates ← foldlM (credentials_for_predicate fuel wallet_handle proof_request) (hash_iter (requested_predicates proof_request)) ∅;
  mret (mk_credentials_for attrs predicates).

Definition search_for_attribute (wallet_handle : Z) (proof_request : ProofRequest) (extra_query : option ProofRequestExtraQuery)
    (acc : gmap string (SearchForProofRequest Iter)) (x : string * AttributeInfo) : Service (gmap string (SearchForProofRequest Iter)) :=
  query_json ← lift (build_query (ai_name x.2) x.1 (ai_restrictions x.2) extra_query);
  credentials_search ← search_credentials_in wallet_handle query_json;
  let interval := get_non_revoc_interval (pr_non_revoked proof_request) (ai_non_revoked x.2) in
  mret (<[x.1 := mk_search_for credentials_search interval None]> acc).

Definition search_for_predicate (wallet_handle : Z) (proof_request : ProofRequest) (extra_query : option ProofRequestExtraQuery)
    (acc : gmap string (SearchForProofRequest Iter)) (x : string * PredicateInfo) : Service (gmap string (SearchForProofRequest Iter)) :=
  query_json ← lift (build_query (pi_name x.2) x.1 (pi_restrictions x.2) extra_query);
  credentials_search ← search_credentials_in wallet_handle query_json;
  let interval := get_non_revoc_interval (pr_non_revoked proof_request) (pi_non_revoked x.2) in
  mret (<[x.1 := mk_search_for credentials_search interval (Some x.2)]> acc).

(** Attributes and predicates are kept in one map of referents. *)
Definition search_credentials_for_proof_req (wallet_handle : Z) (proof_request : ProofRequest)
    (extra_query : option ProofRequestExtraQuery) : Prover Z :=
  search ← on_wallets (foldlM (search_for_attribute wallet_handle proof_request extra_query)
    (hash_iter (requested_attributes proof_request)) ∅);
  search ← on_wallets (foldlM (search_for_predicate wallet_handle proof_request extra_query)
    (hash_iter (requested_predicates proof_request)) search);
  search_handle ← on_wallets next_handle;
  _ ← modify (set_searches_for (<[search_handle := search]>));
  mret search_handle.

Definition fetch_credential_for_proof_request (fuel : nat) (search_handle : Z) (item_referent : string) (count : N) :
    Prover (list RequestedCredential) := fun p =>
  match searches_for_proof_requests p !! search_handle with
  | Some items =>
      match items !! item_referent with
      | Some search =>
          let '(r, (s, sv)) :=
            _get_requested_credentials fuel (sf_predicate_info search) (sf_interval search) (Some count) (sf_search search, wallet_service p) in
          (r, set_searches_for
                (<[search_handle := <[item_referent := mk_search_for s (sf_interval search) (sf_predicate_info search)]> items]>)
                (set_wallet_service sv p))
      | None => (Err InvalidWalletHandle, p)
      end
  | None => (Err InvalidWalletHandle, p)
  end.

Definition close_credentials_search_for_proof_req (search_handle : Z) : Prover unit :=
  searches ← gets searches_for_proof_requests;
  match searches !! search_handle with
  | Some _ => modify (set_searches_for (delete search_handle))
  | None => fail InvalidWalletHandle
  end.

(** *** Proofs *)

Definition cred_referents (requested_credentials : RequestedCredentials) : gset string :=
  list_to_set ((fun kv => cred_id (ra_key kv.2)) <$> map_to_list (rc_attributes requested_credentials)) ∪
  list_to_set ((fun kv => cred_id kv.2) <$> map_to_list (rc_predicates requested_credentials)).

Definition load_credential (wallet_handle : Z) (credentials : gmap string Credential) (cred_referent : string) :
    Service (gmap string Credential) :=
  credential ← get_indy_object Credential wallet_handle cred_referent RecordOptions_id_value;
  mret (<[cred_referent := credential]> credentials).

Definition create_proof (wallet_handle : Z) (proof_req : ProofRequest) (requested_credentials : RequestedCredentials)
    (master_secret_id : string) (schemas : gmap string SchemaV1) (cred_defs : gmap string CredentialDefinition)
    (rev_states : gmap string (gmap N RevocationState)) : Service Proof_ :=
  master_secret ← _wallet_get_master_secret wallet_handle master_secret_id;
  credentials ← foldlM (load_credential wallet_handle) (set_iter (cred_referents requested_credentials)) ∅;
  lift (Anoncreds.create_proof credentials proof_req requested_credentials (ms_value master_secret) schemas cred_defs rev_states).
End commands.
