(* ===== verification/ProverFacts.v ===== *)
(** * ProverFacts: which credentials a prover is offered

    Theorems on [ProverCommands.v] over the map of records that the wallet service stands
    for: the meaning of the queries of a proof request, the tags of a stored credential,
    the credentials that a request finds, searches in pages, and the proofs made from
    the wallet. *)

From stdpp Require Import gmap.
From S2P Require Import Prelude Errors Json Wql PoolTypes Encryption QueryEncryption WqlToSql Storage SqliteStorage SqliteFacts Wallet Stream WalletService WalletServiceFacts IndyWallet Anoncreds AnoncredsFacts ProverCommands.

(** ** The queries of a proof request *)

Section queries.
Context `{LikePattern} `{HashOrder} `{Unicode} `{JsonText} `{CL}.

(** The restrictions of an attribute or predicate: an object is a query; a list, in the old
    format, is satisfied by one of its queries without their null members. *)
Definition restrictions_hold (tags : gmap string string) (restrictions : option SJsonValue) : bool :=
  match restrictions with
  | None | Some (Array []) => true
  | Some (Array queries) =>
      existsb (fun q => match q with Object m => query_sat tags (Object (filter (fun kv => is_null kv.2 = false) m)) | _ => false end) queries
  | Some (Object query) => query_sat tags (Object query)
  | Some _ => false
  end.

(** A credential with these tags can be chosen for the name. *)
Definition eligible (name referent : string) (restrictions : option SJsonValue) (extra_query : option ProofRequestExtraQuery)
    (tags : gmap string string) : bool :=
  bool_decide (tags !! marker_tag name = Some ATTRIBUTE_EXISTENCE_MARKER) && restrictions_hold tags restrictions &&
  match extra_query ≫= (fun ex_query => ex_query !! referent) with Some q => query_sat tags (Object q) | None => true end.

Lemma old_restrictions_hold tags l res : mapM old_restriction l = Ok res ->
  existsb (query_sat tags) res =
  existsb (fun q => match q with Object m => query_sat tags (Object (filter (fun kv => is_null kv.2 = false) m)) | _ => false end) l.
Proof.
  revert res. induction l as [|q l IH]; intros res Hm; cbn [mapM] in Hm; [by injection Hm as <-|].
  apply bind_Ok in Hm as (x & Hx & Hm). apply bind_Ok in Hm as (xs & Hxs & Hm). injection Hm as <-.
  unfold old_restriction in Hx. apply bind_Ok in Hx as (m & Hq%ok_or_Ok & Hx). injection Hx as <-.
  destruct q; try done. injection Hq as ->. cbn [existsb]. by rewrite (IH _ Hxs).
Qed.

Lemma restriction_queries_hold tags restrictions queries : restriction_queries restrictions = Ok queries ->
  forallb (query_sat tags) queries = restrictions_hold tags restrictions.
Proof.
  unfold restriction_queries. destruct restrictions as [[| | | |array|object]|]; intros Hr; try done.
  - apply bind_Ok in Hr as (res & Hres & Hr). pose proof (old_restrictions_hold tags _ _ Hres) as Hold.
    destruct array as [|q array]; [by injection Hres as <-; injection Hr as <-|]. cbn [restrictions_hold]. rewrite <-Hold.
    destruct res as [|x res]; [cbn [mapM] in Hres; apply bind_Ok in Hres as (y & _ & Hres); apply bind_Ok in Hres as (ys & _ & Hres); discriminate|].
    injection Hr as <-. cbn [forallb]. rewrite andb_true_r.
    unfold query_sat at 1. cbn [json_all forallb fst snd json_sat]. by rewrite andb_true_r.
  - injection Hr as <-. cbn [forallb]. by rewrite andb_true_r.
  - by injection Hr as <-.
Qed.

Lemma query_meaning name referent restrictions extra_query query : query_value name referent restrictions extra_query = Ok query ->
  forall tags, query_sat tags query = eligible name referent restrictions extra_query tags.
Proof.
  unfold query_value. intros Hb. apply bind_Ok in Hb as (queries & Hq & Hb). injection Hb as <-.
  intros tags. unfold query_sat at 1. cbn [json_all forallb fst snd json_sat]. rewrite andb_true_r.
  change (json_all (json_sat tags)) with (query_sat tags). rewrite forallb_app, (restriction_queries_hold tags _ _ Hq).
  unfold eligible. rewrite andb_assoc. f_equal; [f_equal|].
  - unfold marker_tag. cbn [String.append]. rewrite andb_true_r.
    rewrite !decide_False by done. unfold tag_test, json_test. cbn [String.append].
    destruct (tags !! _) as [v|]; [|done]. apply bool_decide_ext. by rewrite (inj_iff Some).
  - by destruct (extra_query ≫= _); cbn [forallb]; rewrite ?andb_true_r.
Qed.
End queries.

(** ** The tags of a credential *)

Section tags.
Context `{LikePattern} `{HashOrder} `{Unicode} `{CL}.

Lemma as_bytes_app s t : as_bytes (s +:+ t) = as_bytes s ++ as_bytes t.
Proof. induction s as [|c s IH]; [done|].
  change (Ascii.byte_of_ascii c :: as_bytes (s +:+ t) = Ascii.byte_of_ascii c :: as_bytes s ++ as_bytes t). by rewrite IH.
Qed.

Lemma append_inj_r s s' t : (s +:+ t)%string = (s' +:+ t)%string -> s = s'.
Proof.
  intros He. apply (f_equal as_bytes) in He. rewrite !as_bytes_app in He. apply app_inv_tail in He. by apply (inj as_bytes).
Qed.

Lemma value_is_not_marker s s' : (s +:+ "::value")%string <> (s' +:+ "::marker")%string.
Proof.
  intros He. apply (f_equal as_bytes) in He. rewrite !as_bytes_app in He. apply (f_equal last) in He.
  by rewrite !last_app in He.
Qed.

(** The tags of the values: no other value's tags change the marker of a name. *)
Lemma value_tags_marker l : forall tags name,
  foldl add_value_tags tags l !! marker_tag name =
  (if existsb (fun kv => String.eqb (attr_common_view kv.1) (attr_common_view name)) l then Some ATTRIBUTE_EXISTENCE_MARKER
   else tags !! marker_tag name).
Proof.
  induction l as [|[a v] l IH]; intros tags name; [done|]. cbn [foldl existsb]. rewrite IH. cbn [fst].
  assert (add_value_tags tags (a, v) !! marker_tag name =
    if String.eqb (attr_common_view a) (attr_common_view name) then Some ATTRIBUTE_EXISTENCE_MARKER else tags !! marker_tag name) as ->.
  { unfold add_value_tags. cbn [fst snd]. rewrite lookup_insert_ne.
    - destruct (String.eqb_spec (attr_common_view a) (attr_common_view name)) as [He|Hne].
      + unfold marker_tag. rewrite He. by rewrite lookup_insert_eq.
      + rewrite lookup_insert_ne; [done|]. intros Heq. apply Hne. unfold marker_tag in Heq.
        apply (inj (String.append "attr::")) in Heq. by apply append_inj_r in Heq.
    - intros Heq. unfold marker_tag, value_tag in Heq. apply (inj (String.append "attr::")) in Heq.
      by apply (value_is_not_marker (attr_common_view a) (attr_common_view name)). }
  destruct (String.eqb _ _); cbn [orb]; [by case_match|done].
Qed.

Lemma fixed_tag_differs name k : k ∈ ["schema_id"; "schema_issuer_did"; "schema_name"; "schema_version"; "issuer_did"; "cred_def_id"; "rev_reg_id"]%string ->
  marker_tag name <> k /\ value_tag name <> k.
Proof. intros Hk. repeat (apply elem_of_cons in Hk as [->|Hk]; [done|]). by apply elem_of_nil in Hk. Qed.

Lemma value_tags_fixed l k : forall tags, (forall name, marker_tag name <> k /\ value_tag name <> k) ->
  foldl add_value_tags tags l !! k = tags !! k.
Proof.
  induction l as [|[a v] l IH]; intros tags Hk; [done|]. cbn [foldl]. rewrite IH by done. unfold add_value_tags. cbn [fst snd].
  destruct (Hk a). by rewrite !lookup_insert_ne.
Qed.

(** The tags of a credential: those of its parts, and a marker for the common view of each
    of its attributes and for nothing else. *)
Lemma credential_tags_spec credential tags : build_credential_tags credential = Ok tags ->
  (forall name, tags !! marker_tag name = Some ATTRIBUTE_EXISTENCE_MARKER <->
    exists a v, cr_values credential !! a = Some v /\ attr_common_view a = attr_common_view name) /\
  tags !! "schema_id"%string = Some (cr_schema_id credential) /\
  tags !! "cred_def_id"%string = Some (cr_cred_def_id credential) /\
  (exists did, issuer_did credential = Ok did /\ tags !! "issuer_did"%string = Some did) /\
  tags !! "schema_issuer_did"%string = Some (schema_issuer_did credential) /\
  tags !! "schema_name"%string = Some (schema_name credential) /\
  tags !! "schema_version"%string = Some (schema_version credential) /\
  tags !! "rev_reg_id"%string = Some (default "None"%string (cr_rev_reg_id credential)).
Proof.
  unfold build_credential_tags. intros Hb. apply bind_Ok in Hb as (did & Hdid & Hb). injection Hb as <-.
  match goal with |- context [foldl add_value_tags ?m _] => set (base := m) end. split.
  - intros name. rewrite value_tags_marker.
    assert (existsb (fun kv => String.eqb (attr_common_view kv.1) (attr_common_view name)) (hash_iter (cr_values credential)) = true <->
      exists a v, cr_values credential !! a = Some v /\ attr_common_view a = attr_common_view name) as Hex.
    { rewrite existsb_exists. split.
      - intros ([a v] & Hin%list_elem_of_In%elem_of_hash_iter & He%String.eqb_eq). by exists a, v.
      - intros (a & v & Ha & He). exists (a, v). split; [by apply list_elem_of_In, elem_of_hash_iter|by apply String.eqb_eq]. }
    rewrite <-Hex. destruct (existsb _ _); [done|]. unfold base. by rewrite !lookup_insert_ne, lookup_empty by done.
  - assert (forall k v, k ∈ ["schema_id"; "schema_issuer_did"; "schema_name"; "schema_version"; "issuer_did"; "cred_def_id"; "rev_reg_id"]%string ->
      base !! k = Some v -> foldl add_value_tags base (hash_iter (cr_values credential)) !! k = Some v) as Hfix.
    { intros k v Hk <-. apply value_tags_fixed. intros name. by apply fixed_tag_differs. }
    split_and!; [| |exists did; split; [done|]|..]; (apply Hfix; [set_solver|]); unfold base;
      rewrite ?lookup_insert_eq; repeat (rewrite lookup_insert_ne by done; rewrite ?lookup_insert_eq); done.
Qed.
End tags.

(** ** Lemmas: lists *)

Lemma mapM_Ok_inv {E A B} (f : A -> outcome E B) l ys : mapM f l = Ok ys -> Forall2 (fun x y => f x = Ok y) l ys.
Proof.
  revert ys. induction l as [|x l IH]; intros ys Hm; cbn [mapM] in Hm; [injection Hm as <-; constructor|].
  apply bind_Ok in Hm as (y & Hy & Hm). apply bind_Ok in Hm as (ys' & Hys & Hm). injection Hm as <-. constructor; auto.
Qed.

Lemma mapM_all_Ok {E A B} (f : A -> outcome E B) l : (forall x, x ∈ l -> exists y, f x = Ok y) -> exists ys, mapM f l = Ok ys.
Proof.
  induction l as [|x l IH]; intros Hf; [by exists []|]. destruct (Hf x) as [y Hy]; [left|].
  destruct IH as [ys Hys]; [intros z Hz; apply Hf; by right|]. exists (y :: ys). cbn [mapM]. by rewrite Hy; cbn; rewrite Hys.
Qed.

Definition ok_part {E A} (o : outcome E (option A)) : option A := match o with Ok x => x | _ => None end.

Lemma mapM_omap {E A B} (f : A -> outcome E (option B)) l ys : mapM f l = Ok ys -> omap id ys = omap (fun x => ok_part (f x)) l.
Proof.
  intros Hm%mapM_Ok_inv. induction Hm as [|x y l ys Hxy _ IH]; [done|]. csimpl. rewrite Hxy. cbn [ok_part].
  destruct y; cbn; by rewrite IH.
Qed.

(** A fold that inserts a value for each key and leaves the state alone. *)
Lemma foldlM_inserts {E St A V} (step : gmap string V -> string * A -> StateM E St (gmap string V)) (P : string * A -> V -> Prop) s l :
  NoDup l.*1 -> (forall x, x ∈ l -> exists v, (forall acc, step acc x s = (Ok (<[x.1 := v]> acc), s)) /\ P x v) ->
  forall acc, exists m, foldlM step l acc s = (Ok m, s) /\ dom m = dom acc ∪ list_to_set l.*1 /\
    (forall x, x ∈ l -> exists v, m !! x.1 = Some v /\ P x v) /\ (forall k, k ∉ l.*1 -> m !! k = acc !! k).
Proof.
  induction l as [|x l IH]; intros Hnd Hstep acc.
  - exists acc. cbn. split_and!; [done|set_solver|intros x Hx; by apply elem_of_nil in Hx|done].
  - apply NoDup_cons in Hnd as [Hx Hnd]. destruct (Hstep x) as (v & Hrun & HP); [left|].
    destruct (IH Hnd ltac:(intros y Hy; apply Hstep; by right) (<[x.1 := v]> acc)) as (m & Hm & Hdom & Hall & Hout).
    exists m. split_and!.
    + cbn [foldlM]. by rewrite bind_run, Hrun.
    + rewrite Hdom, dom_insert_L. cbn [fmap list_fmap list_to_set]. set_solver.
    + intros y [->|Hy]%elem_of_cons; [|by apply Hall]. exists v. split; [|done]. rewrite Hout by done. apply lookup_insert_eq.
    + intros k Hk. cbn [fmap list_fmap] in Hk. apply not_elem_of_cons in Hk as [Hk1 Hk2]. rewrite Hout by done. by apply lookup_insert_ne.
Qed.

Lemma keys_dom `{HashOrder} {V W} (m : gmap string V) : dom (∅ : gmap string W) ∪ list_to_set (hash_iter m).*1 = dom m.
Proof.
  apply set_eq. intros k. rewrite dom_empty_L, elem_of_union, elem_of_list_to_set, list_elem_of_fmap, elem_of_dom. split.
  - intros [?%elem_of_empty|([k' v] & -> & Hin%elem_of_hash_iter)]; [done|by exists v].
  - intros [v Hv]. right. exists (k, v). split; [done|by apply elem_of_hash_iter].
Qed.

(** ** Searches *)

Section searching.
Context `{ChaCha20Poly1305} `{HmacSha256} `{HashOrder} `{OptionCodecs} `{LikePattern} `{JsonText} `{Machine} `{Unicode} `{CLBlinding}.
Context `{!IndyObject Credential} `{!IndyObject MasterSecret}.
Context {St Iter : Type} `{!WalletStorage St Iter} `{!WalletStorageLaws St Iter}.
Implicit Types (sv : WalletService St) (s : WalletSearch Iter).

(** What a record of a search is turned into: nothing if it does not satisfy the predicate. *)
Definition classify (predicate_info : option PredicateInfo) (interval : option NonRevocedInterval) (record : WalletRecord) :
    IndyResult (option RequestedCredential) :=
  '(referent, credential) ← _get_credential record;
  satisfy ← satisfies predicate_info credential;
  Ok (if satisfy : bool then Some (mk_requested_credential (_get_credential_info referent credential) interval) else None).

Lemma infos_all records : forall fuel acc sv s, length records < fuel -> search_yields sv s records -> exists s',
  all_infos fuel acc (s, sv) = ((infos ← mapM info_of records; Ok (acc ++ infos)), (s', sv)).
Proof.
  induction records as [|r records IH]; intros [|fuel] acc sv s Hf Hy; cbn [length] in Hf; try lia; cbn [all_infos]; rewrite bind_run.
  - destruct (fetch_end sv s Hy) as (s' & -> & _). exists s'. cbn. by rewrite app_nil_r.
  - destruct (fetch_next sv s r records Hy) as (s' & -> & _ & Hy'). rewrite bind_run. unfold lift. cbn [mapM].
    destruct (info_of r) as [info|e| |]; [|by exists s'..]. cbn [mbind outcome_bind].
    destruct (IH fuel (acc ++ [info]) sv s' ltac:(lia) Hy') as (s2 & Hrun). exists s2. rewrite Hrun. f_equal.
    destruct (mapM info_of records) as [infos|e| |]; cbn; [by rewrite <-app_assoc|done..].
Qed.

(** Everything that a search is turned into. *)
Definition all_requested (p : option PredicateInfo) (i : option NonRevocedInterval) (records : list WalletRecord) :
    IndyResult (list RequestedCredential) :=
  mapM (classify p i) records ≫= fun found : list (option RequestedCredential) => Ok (omap id found).

(** With any bound but one, the loop returns everything. *)
Lemma requested_all p i max_count : max_count <> Some 0%N -> max_count <> Some 1%N ->
  forall records fuel acc sv s, length records < fuel -> search_yields sv s records -> exists s',
  requested_loop fuel p i max_count acc (s, sv) = ((found ← mapM (classify p i) records; Ok (acc ++ omap id found)), (s', sv)).
Proof.
  intros H0' H1'. induction records as [|r records IH]; intros [|fuel] acc sv s Hf Hy; cbn [length] in Hf; try lia;
    cbn [requested_loop]; rewrite bind_run.
  - destruct (fetch_end sv s Hy) as (s' & -> & _). exists s'. cbn. by rewrite app_nil_r.
  - destruct (fetch_next sv s r records Hy) as (s' & -> & _ & Hy'). rewrite bind_run. unfold lift. cbn [mapM].
    assert (classify p i r = ('(referent, credential) ← _get_credential r; satisfy ← satisfies p credential;
      Ok (if satisfy : bool then Some (mk_requested_credential (_get_credential_info referent credential) i) else None))) as -> by done.
    destruct (_get_credential r) as [[referent credential]|e| |]; [|by exists s'..]. cbn [mbind outcome_bind]. rewrite bind_run.
    destruct (satisfies p credential) as [b|e| |]; [|by exists s'..]. cbn [mbind outcome_bind].
    set (acc' := if b then acc ++ [mk_requested_credential (_get_credential_info referent credential) i] else acc).
    destruct (IH fuel acc' sv s' ltac:(lia) Hy') as (s2 & Hrun). exists s2.
    assert (requested_loop fuel p i max_count acc' (s', sv) =
      ((found ← (xs ← mapM (classify p i) records;
          Ok ((if b then Some (mk_requested_credential (_get_credential_info referent credential) i) else None) :: xs));
        Ok (acc ++ omap id found)), (s2, sv))) as Hgoal.
    { rewrite Hrun. f_equal. destruct (mapM (classify p i) records) as [found|e| |]; [|done..]. cbn [mbind outcome_bind].
      unfold acc'. destruct b; csimpl; [by rewrite <-app_assoc|done]. }
    destruct b; [|exact Hgoal]. destruct max_count as [count|]; [|exact Hgoal]. rewrite bind_run.
    assert (count <> 0 /\ count <> 1)%N as [Hc0 Hc1] by (split; congruence).
    rewrite usize_sub_ok by lia. rewrite (proj2 (N.eqb_neq _ _)) by lia. exact Hgoal.
Qed.

(** The first credential found, and the records after it *)
Fixpoint first_requested (p : option PredicateInfo) (i : option NonRevocedInterval) (records : list WalletRecord) :
    IndyResult (option RequestedCredential * list WalletRecord) :=
  match records with
  | [] => Ok (None, [])
  | r :: records =>
      rc ← classify p i r;
      match rc with Some rc => Ok (Some rc, records) | None => first_requested p i records end
  end.

Lemma requested_one p i records : forall fuel acc sv s rc rest, length records < fuel -> search_yields sv s records ->
  first_requested p i records = Ok (Some rc, rest) -> exists s',
    requested_loop fuel p i (Some 1%N) acc (s, sv) = (Ok (acc ++ [rc]), (s', sv)) /\ search_yields sv s' rest.
Proof.
  induction records as [|r records IH]; intros [|fuel] acc sv s rc rest Hf Hy Hfirst; cbn [length] in Hf; try lia; [done|].
  cbn [requested_loop]. rewrite bind_run. destruct (fetch_next sv s r records Hy) as (s' & -> & _ & Hy'). rewrite bind_run.
  cbn [first_requested] in Hfirst. apply bind_Ok in Hfirst as (x & Hx & Hfirst). unfold classify in Hx.
  apply bind_Ok in Hx as ([referent credential] & Hc & Hx). apply bind_Ok in Hx as (b & Hb & Hx). injection Hx as <-.
  unfold lift. rewrite Hc, bind_run, Hb. destruct b.
  - injection Hfirst as <- <-. rewrite bind_run. rewrite usize_sub_ok by lia. by exists s'.
  - by apply (IH fuel acc sv s' rc rest); [lia|..].
Qed.

Lemma infos_some count : forall records acc sv s infos, search_yields sv s records ->
  mapM info_of (take count records) = Ok infos -> exists s',
    some_infos count acc (s, sv) = (Ok (acc ++ infos), (s', sv)) /\
    (count <= length records -> search_yields sv s' (drop count records)).
Proof.
  induction count as [|count IH]; intros records acc sv s infos Hy Hm.
  - cbn in Hm. injection Hm as <-. exists s. cbn. rewrite app_nil_r. split; [done|]. by rewrite drop_0.
  - cbn [some_infos]. rewrite bind_run. destruct records as [|r records].
    + destruct (fetch_end sv s Hy) as (s' & -> & _). cbn in Hm. injection Hm as <-. exists s'. cbn. rewrite app_nil_r. split; [done|lia].
    + destruct (fetch_next sv s r records Hy) as (s' & -> & _ & Hy'). cbn [take mapM] in Hm.
      apply bind_Ok in Hm as (info & Hi & Hm). apply bind_Ok in Hm as (rest & His & Hm). injection Hm as <-.
      rewrite bind_run. unfold lift. rewrite Hi. destruct (IH records (acc ++ [info]) sv s' rest Hy' His) as (s2 & Hrun & Hdrop).
      exists s2. rewrite Hrun, <-app_assoc. split; [done|]. cbn [length drop]. intros. apply Hdrop. lia.
Qed.

(** *** Searches of a wallet *)

(** The wallet can run the query: its text is read back, it can be encrypted, and the
    storage can search for it. *)
Definition can_run sv (h : Z) (text : string) : Prop := exists wallet op op',
  wallets sv !! h = Some wallet /\ parse_from_json text = Ok op /\ encrypt_query op (wallet_keys wallet) = Ok op' /\
  can_search op' = true.

(** The options of the searches are read back. *)
Definition options_read : Prop := exists opts, parse_search_options (Some SearchOptions_id_value) = Ok opts /\
  Storage.search_records opts = true /\ search_value opts = true /\ search_total_count opts = true.

Abbreviation Stored := ((string * string) * (string * gmap string string))%type.

(** What is offered for a record of the wallet. *)
Definition classify_entry (p : option PredicateInfo) (i : option NonRevocedInterval) (x : Stored) : IndyResult (option RequestedCredential) :=
  credential ← ok_or (object_from_str x.2.1) InvalidState;
  satisfy ← satisfies p credential;
  Ok (if satisfy : bool then Some (mk_requested_credential (_get_credential_info x.1.2 credential) i) else None).

Lemma classify_record p i opts x : retrieve_value opts = true ->
  classify p i (wallet_record opts x.1.1 x.1.2 x.2.1 x.2.2) = classify_entry p i x.
Proof.
  intros Hv. unfold classify, classify_entry, _get_credential, wallet_record. cbn [wr_value wr_id]. rewrite Hv.
  cbn [ok_or mbind outcome_bind]. by destruct (object_from_str x.2.1).
Qed.

Lemma search_credentials_run sv h w text query : stands_for sv h w -> can_run sv h text -> options_read -> from_str text = Some query ->
  exists opts s records, retrieve_value opts = true /\ search_credentials_in h text sv = (Ok s, sv) /\ search_yields sv s records /\
    get_total_count s = Ok (Some (N.of_nat (length (matches w (type_of Credential) query)))) /\
    records ≡ₚ (fun x => wallet_record opts x.1.1 x.1.2 x.2.1 x.2.2) <$> matches w (type_of Credential) query.
Proof.
  intros (wallet & st & Hh & Hst & Hs & Hr) (wallet' & op & op' & Hh' & Hop & Hop' & Hcan) (opts & Hopts & Ho1 & Ho2 & Ho3) Hq.
  rewrite Hh in Hh'. injection Hh' as <-.
  destruct (service_search sv h wallet st w (type_of Credential) text query op op' _ opts Hh Hst Hs Hr Hq Hop Hop' Hcan Hopts)
    as (s & records & Hrun & Hy & Hcount & Hperm).
  rewrite Ho1 in Hperm. rewrite Ho3 in Hcount. eexists _, s, records. split_and!; [|exact Hrun|exact Hy|exact Hcount|exact Hperm]. exact Ho2.
Qed.

(** The credentials that a search for a query is turned into. *)
Lemma query_requested sv h w text query fuel p i : stands_for sv h w -> can_run sv h text -> options_read ->
  from_str text = Some query -> length (matches w (type_of Credential) query) < fuel ->
  (forall x, x ∈ matches w (type_of Credential) query -> exists rc, classify_entry p i x = Ok rc) ->
  exists found, _query_requested_credentials fuel h text p i sv = (Ok found, sv) /\
    found ≡ₚ omap (fun x => ok_part (classify_entry p i x)) (matches w (type_of Credential) query).
Proof.
  intros Hw Hrun Hopts Hq Hf Hok.
  destruct (search_credentials_run sv h w text query Hw Hrun Hopts Hq) as (opts & s & records & Hv & Hs & Hy & _ & Hperm).
  assert (length records < fuel) as Hf' by (by rewrite Hperm, length_fmap).
  destruct (mapM_all_Ok (classify p i) records) as [found Hfound].
  { intros r Hr. rewrite Hperm in Hr. apply list_elem_of_fmap in Hr as (x & -> & Hx). rewrite classify_record by done. by apply Hok. }
  destruct (requested_all p i None ltac:(done) ltac:(done) records fuel [] sv s Hf' Hy) as (s' & Hloop).
  exists (omap id found). split.
  - unfold _query_requested_credentials. rewrite bind_run, Hs. unfold with_new_search, _get_requested_credentials.
    rewrite Hloop, Hfound. done.
  - rewrite (mapM_omap _ _ _ Hfound), Hperm. apply reflexive_eq, list_omap_ext, Forall2_fmap_l, Forall_Forall2_diag, Forall_true.
    intros x. cbn. by rewrite classify_record.
Qed.

(** *** The credentials that a request is offered *)

(** The credentials of the wallet that can be chosen for an attribute or predicate. *)
Definition offered (w : WalletMap) (name referent : string) (restrictions : option SJsonValue) (extra : option ProofRequestExtraQuery)
    (p : option PredicateInfo) (i : option NonRevocedInterval) : list RequestedCredential :=
  omap (fun x => ok_part (classify_entry p i x))
    (filter (fun x => x.1.1 = type_of Credential /\ eligible name referent restrictions extra x.2.2 = true) (map_to_list w)).

(** An attribute or predicate that the wallet can search for: its restrictions are a query,
    whose text is read back and which the wallet can run, and the credentials of the wallet are readable. *)
Definition searchable_for sv (h : Z) (w : WalletMap) (name referent : string) (restrictions : option SJsonValue)
    (extra : option ProofRequestExtraQuery) (p : option PredicateInfo) (i : option NonRevocedInterval) : Prop :=
  (exists query, query_value name referent restrictions extra = Ok query /\ from_str (to_string query) = Some query /\
    can_run sv h (to_string query)) /\
  forall x, x ∈ map_to_list w -> x.1.1 = type_of Credential -> eligible name referent restrictions extra x.2.2 = true ->
    exists rc, classify_entry p i x = Ok rc.

Lemma matches_eligible w name referent restrictions extra query :
  (forall tags, query_sat tags query = eligible name referent restrictions extra tags) ->
  matches w (type_of Credential) query =
  filter (fun x => x.1.1 = type_of Credential /\ eligible name referent restrictions extra x.2.2 = true) (map_to_list w).
Proof. intros Hq. unfold matches. apply list_filter_iff. intros x. by rewrite Hq. Qed.

Lemma query_offered sv h w name referent restrictions extra p i fuel : stands_for sv h w -> options_read ->
  size w < fuel ->
  searchable_for sv h w name referent restrictions extra p i -> exists text found,
    build_query name referent restrictions extra = Ok text /\
    _query_requested_credentials fuel h text p i sv = (Ok found, sv) /\ found ≡ₚ offered w name referent restrictions extra p i.
Proof.
  intros Hw Ho Hf [(query & Hb & Hjson & Hrun) Hok].
  pose proof (query_meaning name referent restrictions extra query Hb) as Hmean.
  pose proof (matches_eligible w name referent restrictions extra query Hmean) as Hm.
  destruct (query_requested sv h w (to_string query) query fuel p i Hw Hrun Ho) as (found & Hfound & Hperm).
  - done.
  - eapply Nat.le_lt_trans; [|exact Hf]. unfold matches. etrans; [apply length_filter|]. by rewrite length_map_to_list.
  - rewrite Hm. intros x [[Ht He] Hx]%list_elem_of_filter. by apply Hok.
  - exists (to_string query), found. split_and!; [unfold build_query; by rewrite Hb|done|]. by rewrite Hperm, Hm.
Qed.


(** *** Storing *)

(** What [store_credential] keeps of a credential. *)
Definition stored_as (credential stored : Credential) : Prop :=
  cr_schema_id stored = cr_schema_id credential /\ cr_cred_def_id stored = cr_cred_def_id credential /\
  cr_rev_reg_id stored = cr_rev_reg_id credential /\ cr_values stored = cr_values credential /\
  cr_rev_reg stored = None /\ cr_witness stored = None.

Lemma stored_tags credential stored : stored_as credential stored -> build_credential_tags stored = build_credential_tags credential.
Proof.
  intros (Hs & Hd & Hr & Hv & _). unfold build_credential_tags, issuer_did, schema_version, schema_name, schema_issuer_did, schema_part.
  by rewrite Hs, Hd, Hr, Hv.
Qed.

Lemma store_run sv h w uuid fresh cred_id metadata credential cred_def rev_reg_def id sv' : stands_for sv h w ->
  (forall c json, object_to_string (T:=Credential) c = Some json -> is_utf8 json) ->
  is_utf8 (type_of Credential) -> is_utf8 (default uuid cred_id) ->
  (forall tags, build_credential_tags credential = Ok tags -> tags_utf8 tags) ->
  store_credential uuid fresh h cred_id metadata credential cred_def rev_reg_def sv = (Ok id, sv') ->
  exists stored json tags, id = default uuid cred_id /\ stored_as credential stored /\ object_to_string stored = Some json /\
    build_credential_tags credential = Ok tags /\ w !! (type_of Credential, id) = None /\
    stands_for sv' h (<[(type_of Credential, id) := (json, tags)]> w).
Proof.
  intros Hw Hj Ht Hid Htags Hrun. unfold store_credential in Hrun.
  apply M_bind_Ok in Hrun as (ms & sv1 & Hms & Hrun). apply (get_object_run _ _ _ w) in Hms as [_ Hw1]; [|done].
  apply M_bind_Ok in Hrun as (c & sv2 & Hc & Hrun). unfold lift in Hc. injection Hc as Hc <-.
  unfold process_credential in Hc. apply bind_Ok in Hc as (key & _ & Hc). apply bind_Ok in Hc as (values & _ & Hc).
  apply bind_Ok in Hc as (signature & _ & Hc). injection Hc as <-. cbn [cr_schema_id cr_cred_def_id cr_rev_reg_id cr_values cr_signature
    cr_signature_correctness_proof] in Hrun.
  set (stored := mk_credential _ _ _ _ _ _ _ _) in Hrun.
  assert (stored_as credential stored) as Has by done.
  apply M_bind_Ok in Hrun as (tags & sv2 & Htg & Hrun). unfold lift in Htg. injection Htg as Htg <-. rewrite (stored_tags _ _ Has) in Htg.
  apply M_bind_Ok in Hrun as (json & sv3 & Hadd & Hrun). injection Hrun as <- <-.
  destruct (refines_stands h _ _ sv1 w _ _ (add_indy_object_refines Credential fresh h (default uuid cred_id) stored tags Ht Hid (Htags _ Htg) (Hj stored)) Hw1 Hadd)
    as [Hspec Hw3].
  rewrite bind_run in Hspec, Hw3. unfold lift in Hspec, Hw3. destruct (object_to_string stored) as [j|] eqn:Hjson; [|done].
  cbn [ok_or] in Hspec, Hw3. rewrite bind_run in Hspec, Hw3. unfold wspec_add in Hspec, Hw3.
  destruct (w !! (type_of Credential, default uuid cred_id)) eqn:Hnone; [done|].
  exists stored, j, tags. split_and!; [done..|exact Hw3].
Qed.

(** a credential that was stored is from then on offered for every attribute whose
    common view is that of one of its values, whatever restrictions its tags satisfy. *)
Theorem stored_credential_offered sv h w uuid fresh cred_id metadata credential cred_def rev_reg_def id sv' : stands_for sv h w ->
  (forall c json, object_to_string (T:=Credential) c = Some json -> object_from_str json = Some c /\ is_utf8 json) ->
  is_utf8 (type_of Credential) -> is_utf8 (default uuid cred_id) ->
  (forall tags, build_credential_tags credential = Ok tags -> tags_utf8 tags) ->
  store_credential uuid fresh h cred_id metadata credential cred_def rev_reg_def sv = (Ok id, sv') ->
  exists w' tags, stands_for sv' h w' /\ (forall k, k <> (type_of Credential, id) -> w' !! k = w !! k) /\
    build_credential_tags credential = Ok tags /\
    (forall name, tags !! marker_tag name = Some ATTRIBUTE_EXISTENCE_MARKER <->
      exists a v, cr_values credential !! a = Some v /\ attr_common_view a = attr_common_view name) /\
    forall name referent restrictions extra i, eligible name referent restrictions extra tags = true -> exists info,
      mk_requested_credential info i ∈ offered w' name referent restrictions extra None i /\
      ci_referent info = id /\ ci_attrs info = raw <$> cr_values credential /\ ci_schema_id info = cr_schema_id credential /\
      ci_cred_def_id info = cr_cred_def_id credential /\ ci_rev_reg_id info = cr_rev_reg_id credential.
Proof.
  intros Hw Hj Ht Hid Htags Hrun.
  destruct (store_run _ _ w _ _ _ _ _ _ _ _ _ Hw (fun c json Hc => proj2 (Hj c json Hc)) Ht Hid Htags Hrun)
    as (stored & json & tags & _ & (Hs & Hd & Hr & Hv & _) & Hjson & Htg & _ & Hw').
  exists (<[(type_of Credential, id) := (json, tags)]> w), tags.
  split_and!; [done|intros k Hk; by apply lookup_insert_ne|done|apply (credential_tags_spec credential tags Htg)|].
  intros name referent restrictions extra i He. exists (_get_credential_info id stored). split_and!; try done.
  - unfold offered. apply list_elem_of_omap. exists ((type_of Credential, id), (json, tags)). split.
    + apply list_elem_of_filter. split; [done|]. apply elem_of_map_to_list, lookup_insert_eq.
    + unfold classify_entry. cbn [fst snd]. by rewrite (proj1 (Hj stored json Hjson)).
  - cbn. by rewrite Hv.
Qed.

(** *** Searches that are kept *)

Implicit Types (p : ProverCommandExecutor St Iter).

(** The search behind a handle has these records left. *)
Definition has_left p (search_handle : Z) (records : list WalletRecord) : Prop :=
  exists s, searches p !! search_handle = Some s /\ search_yields (wallet_service p) s records.

(** [fetch_credentials] returns the next [count] credentials of a search, in order, or
    those that are left, and leaves the rest to the next call; nothing else changes. *)
Theorem credentials_in_pages p search_handle records count infos : has_left p search_handle records ->
  mapM info_of (take (N.to_nat count) records) = Ok infos -> exists p',
    fetch_credentials search_handle count p = (Ok infos, p') /\
    (N.to_nat count <= length records -> has_left p' search_handle (drop (N.to_nat count) records)) /\
    wallet_service p' = wallet_service p /\ searches_for_proof_requests p' = searches_for_proof_requests p /\
    (forall h, h <> search_handle -> searches p' !! h = searches p !! h).
Proof.
  intros (s & Hs & Hy) Hm. destruct (infos_some _ records [] (wallet_service p) s infos Hy Hm) as (s' & Hrun & Hdrop).
  exists (set_searches (<[search_handle := s']>) (set_wallet_service (wallet_service p) p)). split_and!; [| |done..|].
  - unfold fetch_credentials, with_search. by rewrite Hs, Hrun.
  - intros Hc. exists s'. split; [apply lookup_insert_eq|by apply Hdrop].
  - intros h Hh. by apply lookup_insert_ne.
Qed.

(** The search for a referent of a proof request *)
Definition item_left p (search_handle : Z) (referent : string) (pi : option PredicateInfo) (i : option NonRevocedInterval)
    (records : list WalletRecord) : Prop :=
  exists items s, searches_for_proof_requests p !! search_handle = Some items /\ items !! referent = Some (mk_search_for s i pi) /\
    search_yields (wallet_service p) s records.

Lemma fetch_for_request_run p search_handle items referent s pi i fuel count r s' :
  searches_for_proof_requests p !! search_handle = Some items -> items !! referent = Some (mk_search_for s i pi) ->
  _get_requested_credentials fuel pi i (Some count) (s, wallet_service p) = (r, (s', wallet_service p)) ->
  fetch_credential_for_proof_request fuel search_handle referent count p =
    (r, set_searches_for (<[search_handle := <[referent := mk_search_for s' i pi]> items]>) p).
Proof.
  intros Hi Hs Hrun. unfold fetch_credential_for_proof_request. rewrite Hi, Hs. cbn [sf_predicate_info sf_interval sf_search].
  rewrite Hrun. by destruct p.
Qed.

(** [fetch_credential_for_proof_request] returns nothing for a count of 0 and the next
    credential for a count of 1, but for every other count all credentials that are left:
    the loop counts down a copy of the count. *)
Theorem fetch_returns_all_that_is_left p search_handle referent pi i records fuel :
  item_left p search_handle referent pi i records -> length records < fuel ->
  (fetch_credential_for_proof_request fuel search_handle referent 0 p = (Ok [], p)) /\
  (forall rc rest, first_requested pi i records = Ok (Some rc, rest) -> exists p',
    fetch_credential_for_proof_request fuel search_handle referent 1 p = (Ok [rc], p') /\
    item_left p' search_handle referent pi i rest) /\
  (forall count, (2 <= count)%N -> exists p',
    fetch_credential_for_proof_request fuel search_handle referent count p =
      (all_requested pi i records, p')).
Proof.
  intros (items & s & Hi & Hs & Hy) Hf. split_and!.
  - rewrite (fetch_for_request_run p search_handle items referent s pi i fuel 0 (Ok []) s) by done.
    unfold set_searches_for. rewrite (insert_id items) by done. rewrite insert_id by done. by destruct p.
  - intros rc rest Hfirst. destruct (requested_one pi i records fuel [] (wallet_service p) s rc rest Hf Hy Hfirst) as (s' & Hrun & Hy').
    exists (set_searches_for (<[search_handle := <[referent := mk_search_for s' i pi]> items]>) p).
    split; [by apply (fetch_for_request_run p _ items _ s)|].
    exists (<[referent := mk_search_for s' i pi]> items), s'. split_and!; [apply lookup_insert_eq..|exact Hy'].
  - intros count Hc.
    destruct (requested_all pi i (Some count) ltac:(intros [= ->]; lia) ltac:(intros [= ->]; lia) records fuel [] (wallet_service p) s Hf Hy)
      as (s' & Hrun).
    exists (set_searches_for (<[search_handle := <[referent := mk_search_for s' i pi]> items]>) p).
    apply (fetch_for_request_run p _ items _ s); [done..|].
    unfold _get_requested_credentials. destruct count; [lia|exact Hrun].
Qed.

(** *** Proofs *)

(** The credential of the wallet with an id *)
Definition wallet_credential (w : WalletMap) (cred_id : string) : option Credential :=
  w !! (type_of Credential, cred_id) ≫= fun x => object_from_str x.1.

(** The credentials that the user chose for an attribute or a predicate *)
Definition chosen (rc : RequestedCredentials) (id : string) : Prop :=
  (exists r ra, rc_attributes rc !! r = Some ra /\ cred_id (ra_key ra) = id) \/
  (exists r key, rc_predicates rc !! r = Some key /\ cred_id key = id).

Lemma elem_of_referents rc id : id ∈ cred_referents rc <-> chosen rc id.
Proof.
  unfold cred_referents, chosen. rewrite elem_of_union, !elem_of_list_to_set, !list_elem_of_fmap. split.
  - intros [([r ra] & -> & Hin%elem_of_map_to_list)|([r key] & -> & Hin%elem_of_map_to_list)]; [left|right]; by eexists _, _.
  - intros [(r & ra & Hr & <-)|(r & key & Hr & <-)]; [left; exists (r, ra)|right; exists (r, key)];
      (split; [done|by apply elem_of_map_to_list]).
Qed.

(** The map has the wallet's credentials that were chosen, all of them and no other. *)
Definition chosen_credentials_of (w : WalletMap) (rc : RequestedCredentials) (credentials : gmap string Credential) : Prop :=
  (forall id, chosen rc id -> exists c, wallet_credential w id = Some c /\ credentials !! id = Some c) /\
  (forall id, is_Some (credentials !! id) -> chosen rc id).

Lemma get_object_ok T `{!IndyObject T} sv h w name options opts x object : stands_for sv h w ->
  parse_record_options options = Ok opts -> retrieve_value opts = true -> w !! (type_of T, name) = Some x ->
  object_from_str x.1 = Some object -> exists sv', get_indy_object T h name options sv = (Ok object, sv') /\ stands_for sv' h w.
Proof.
  intros Hw Hopts Hv Hx Hobj. destruct (get_indy_object T h name options sv) as [r sv'] eqn:Hrun.
  destruct (get_object_run T sv h w name options r sv' Hw Hrun) as [Hspec Hw']. exists sv'. split; [|done]. f_equal. rewrite <-Hspec.
  unfold spec_get_indy_object. rewrite bind_run, wspec_get_run, Hopts. unfold wspec_at. rewrite Hx, bind_run. unfold lift, wallet_record.
  cbn [wr_value]. rewrite Hv. cbn [ok_or]. by rewrite Hobj.
Qed.

Lemma load_all opts h w l : parse_record_options RecordOptions_id_value = Ok opts -> retrieve_value opts = true ->
  (forall id, id ∈ l -> is_Some (wallet_credential w id)) -> forall sv acc, stands_for sv h w -> exists res sv',
    foldlM (load_credential h) l acc sv = (Ok res, sv') /\ stands_for sv' h w /\
    forall id, res !! id = if decide (id ∈ l) then wallet_credential w id else acc !! id.
Proof.
  intros Hopts Hv. induction l as [|id l IH]; intros Hl sv acc Hw.
  - exists acc, sv. split_and!; [done|done|]. intros id. by rewrite decide_False by apply not_elem_of_nil.
  - destruct (Hl id) as [c Hc]; [left|]. pose proof Hc as Hc'. unfold wallet_credential in Hc'.
    destruct (w !! (type_of Credential, id)) as [x|] eqn:Hx; [|done]. cbn in Hc'.
    destruct (get_object_ok Credential sv h w id _ opts x c Hw Hopts Hv Hx Hc') as (sv1 & Hget & Hw1).
    destruct (IH ltac:(intros; apply Hl; by right) sv1 (<[id := c]> acc) Hw1) as (res & sv' & Hrun & Hw' & Hres).
    exists res, sv'. split_and!; [|done|].
    + cbn [foldlM]. rewrite bind_run. unfold load_credential at 1. by rewrite bind_run, Hget.
    + intros id'. rewrite Hres. destruct (decide (id' ∈ l)), (decide (id' ∈ id :: l)) as [Hin|Hin]; try done.
      * by destruct Hin; right.
      * apply elem_of_cons in Hin as [->|]; [|done]. by rewrite lookup_insert_eq.
      * rewrite lookup_insert_ne; [done|]. intros <-. by apply Hin; left.
Qed.

Lemma elem_of_set_iter (s : gset string) k : k ∈ set_iter s <-> k ∈ s.
Proof.
  unfold set_iter. rewrite list_elem_of_fmap. split.
  - intros ([k' []] & -> & Hin%elem_of_hash_iter). by apply lookup_gset_to_gmap_Some in Hin as [? _].
  - intros Hk. exists (k, tt). split; [done|]. by apply elem_of_hash_iter, lookup_gset_to_gmap_Some.
Qed.

(** The command makes the proof of the service, with the credentials of the wallet. *)
Lemma create_proof_run sv h w opts ms_id x master proof_req rc schemas cred_defs rev_states credentials : stands_for sv h w ->
  parse_record_options RecordOptions_id_value = Ok opts -> retrieve_value opts = true ->
  w !! (type_of MasterSecret, ms_id) = Some x -> object_from_str x.1 = Some master ->
  chosen_credentials_of w rc credentials -> exists sv', stands_for sv' h w /\
    ProverCommands.create_proof h proof_req rc ms_id schemas cred_defs rev_states sv =
      (Anoncreds.create_proof credentials proof_req rc (ms_value master) schemas cred_defs rev_states, sv').
Proof.
  intros Hw Hopts Hv Hx Hms [Hall Honly].
  destruct (get_object_ok MasterSecret sv h w ms_id _ opts x master Hw Hopts Hv Hx Hms) as (sv1 & Hget & Hw1).
  destruct (load_all opts h w (set_iter (cred_referents rc)) Hopts Hv) with (sv := sv1) (acc := ∅ : gmap string Credential)
    as (res & sv' & Hload & Hw' & Hres); [|done|].
  { intros id Hid%elem_of_set_iter%elem_of_referents. destruct (Hall id Hid) as (c & Hc & _). by exists c. }
  assert (res = credentials) as ->.
  { apply map_eq. intros id. rewrite Hres. destruct (decide _) as [Hin|Hin]; rewrite elem_of_set_iter, elem_of_referents in Hin.
    - by destruct (Hall id Hin) as (c & -> & ->).
    - rewrite lookup_empty. symmetry. apply eq_None_not_Some. intros Hc. by apply Hin, Honly. }
  exists sv'. split; [done|]. unfold ProverCommands.create_proof, _wallet_get_master_secret. by rewrite bind_run, Hget, bind_run, Hload.
Qed.

(** C7: a proof that the command makes from the credentials of a wallet is accepted by the
    verifier's command, when every requested item was given a credential or a value, the
    cryptography can prove the parts, and the verifier has the registries of the prover;
    the wallet stands for the same records. *)
Theorem wallet_proof_verifies `{!CLLaws} sv h w opts ms_id x master proof_req rc schemas cred_defs rev_states
    rev_reg_defs rev_regs credentials proof : stands_for sv h w ->
  parse_record_options RecordOptions_id_value = Ok opts -> retrieve_value opts = true ->
  w !! (type_of MasterSecret, ms_id) = Some x -> object_from_str x.1 = Some master ->
  chosen_credentials_of w rc credentials ->
  Anoncreds.create_proof credentials proof_req rc (ms_value master) schemas cred_defs rev_states = Ok proof ->
  (Z.of_nat (length (identifiers proof)) < 2 ^ 31)%Z ->
  dom (requested_attributes proof_req) = dom (rc_attributes rc) ∪ dom (self_attested_attributes rc) ->
  dom (requested_predicates proof_req) = dom (rc_predicates rc) ->
  (forall key credential cred_def, credentials !! cred_id key = Some credential ->
    cred_defs !! cr_cred_def_id credential = Some cred_def -> registered rev_states rev_reg_defs rev_regs key credential cred_def) ->
  (forall key credential cred_def ns y part def, credentials !! cred_id key = Some credential ->
    prover_part (ms_value master) schemas cred_defs rev_states ns key credential y = Ok part ->
    cred_defs !! cr_cred_def_id credential = Some cred_def ->
    revocation_for rev_reg_defs rev_regs (identifier_of key credential) cred_def = Ok (def, pp_rev_reg part) ->
    provable part (rd_accum_key <$> def)) ->
  exists sv', ProverCommands.create_proof h proof_req rc ms_id schemas cred_defs rev_states sv = (Ok proof, sv') /\
    stands_for sv' h w /\ verify_proof proof proof_req schemas cred_defs rev_reg_defs rev_regs = Ok true.
Proof.
  intros Hw Hopts Hv Hx Hms Hall Hproof Hlen Hattrs Hpreds Hreg Hprov.
  destruct (create_proof_run sv h w opts ms_id x master proof_req rc schemas cred_defs rev_states credentials Hw Hopts Hv Hx Hms Hall)
    as (sv' & Hw' & Hrun).
  exists sv'. split_and!; [by rewrite Hrun; f_equal|done|].
  exact (made_proof_accepted credentials proof_req rc (ms_value master) schemas cred_defs rev_states rev_reg_defs rev_regs proof
    Hproof Hlen Hattrs Hpreds Hreg Hprov).
Qed.
End searching.

(** ** The theorems at a concrete wallet

    A wallet in the default storage with a master secret, where a credential is stored. *)

Module ToyProver.
#[local] Existing Instances ToyCipher ToyHmac key_order toy_options ToyLike debug_machine ToyCL.cl ToyCL.lower ToyCL.laws.
#[local] Instance toy_sqlite_on : Sqlite := toy_sqlite true.
#[local] Instance toy_laws : WalletStorageLaws Database SQLiteStorageIterator := SQLiteStorageLaws eq_refl.
Local Open Scope string_scope.

#[local] Instance blinding : CLBlinding := {|
  ClKeyCorrectness := unit; ClBlinded := unit; ClBlindedProof := unit;
  blind_credential_secrets := fun _ _ _ _ => Ok (tt, tt, tt);
  extract_index := fun _ => Some 5%N;
|}.

(** The text of a credential is known for one credential only. *)
Definition parts (c : Credential) : list string * option string * list (string * (string * string)) * (option string * option string) :=
  ([cr_schema_id c; cr_cred_def_id c; cr_signature c], cr_rev_reg_id c,
   (fun kv => (kv.1, (raw kv.2, encoded kv.2))) <$> map_to_list (cr_values c), (cr_rev_reg c, cr_witness c)).

Lemma parts_inj c c' : parts c = parts c' -> c = c'.
Proof.
  destruct c as [s d r v g gp rr w], c' as [s' d' r' v' g' gp' rr' w']. unfold parts. cbn. intros [= -> -> -> -> Hv -> ->].
  destruct gp, gp'. f_equal. apply map_to_list_inj, reflexive_eq. revert Hv. generalize (map_to_list v'). generalize (map_to_list v).
  intros l. induction l as [|[k [a b]] l IH]; intros [|[k' [a' b']] l']; try done. cbn. intros [= -> -> -> Hl]. by rewrite (IH _ Hl).
Qed.

#[local] Instance credential_object : IndyObject Credential := {|
  short_type_name := "Credential";
  object_to_string := fun c => if decide (parts c = parts ToyCL.credential) then Some "text" else None;
  object_from_str := fun s => if decide (s = "text") then Some ToyCL.credential else None;
|}.

#[local] Instance master_secret_object : IndyObject MasterSecret := {|
  short_type_name := "MasterSecret";
  object_to_string := fun ms => Some (ms_value ms);
  object_from_str := fun s => Some (mk_master_secret s);
|}.

Definition query_for (name : string) : SJsonValue := Object [("$and", Array [Object [(marker_tag name, String_ "1")]])].

#[local] Instance queries_text : JsonText := {|
  to_string := fun v => if decide (v = query_for "name") then "q1" else "q2";
  from_str := fun s => if decide (s = "q1") then Some (query_for "name") else if decide (s = "q2") then Some (query_for "age") else None;
|}.

Lemma text_law c json : object_to_string (T:=Credential) c = Some json -> object_from_str json = Some c /\ is_utf8 json.
Proof.
  cbn [object_to_string object_from_str credential_object]. case_decide as Hp; [|done]. intros [= <-].
  apply parts_inj in Hp as ->. split; [by rewrite decide_True|vm_compute; reflexivity].
Qed.

Definition fresh0 : Fresh := mk_fresh (toy_key Byte.x09) (toy_nonce Byte.x01) (toy_nonce Byte.x02).
Definition db0 : Database := (wallet_add toy_keys fresh0 (type_of MasterSecret) "ms" "secret" ∅ empty_db).2.
Definition w0 : WalletMap := {[(type_of MasterSecret, "ms") := ("secret", ∅)]}.
Definition sv0 : WalletService Database :=
  mk_service ∅ {[7%Z := mk_wallet "first" "place" toy_keys]} ∅ ∅ {["place" := db0]} ∅ 7.

Lemma empty_tags_utf8 : tags_utf8 ∅.
Proof. apply (bool_decide_unpack _). vm_compute. exact I. Qed.

Lemma texts_utf8 : is_utf8 (type_of MasterSecret) /\ is_utf8 (type_of Credential) /\ is_utf8 "ms" /\ is_utf8 "secret" /\ is_utf8 "cred".
Proof. repeat split. Qed.

Lemma sv0_stands : stands_for sv0 7 w0.
Proof.
  destruct texts_utf8 as (Ht & _ & Hn & Hv & _).
  destruct (wallet_add_refines toy_keys fresh0 (type_of MasterSecret) "ms" "secret" ∅ Ht Hn Hv empty_tags_utf8
    empty_db ∅ empty_stored empty_represented) as (Hi & Hr & _).
  exists (mk_wallet "first" "place" toy_keys), db0. split_and!; [done|done|exact Hi|exact Hr].
Qed.

Definition metadata0 : CredentialRequestMetadata := mk_request_metadata tt 5%N "ms".
Definition storing (id : string) (sv : WalletService Database) :=
  store_credential "uuid" fresh0 7 (Some id) metadata0 ToyCL.credential ToyCL.definition None sv.
Definition sv1 : WalletService Database := (storing "cred" sv0).2.

Lemma stored : storing "cred" sv0 = (Ok "cred", sv1).
Proof.
  assert ((storing "cred" sv0).1 = Ok "cred") as Hok by (vm_compute; reflexivity).
  unfold sv1. rewrite <-Hok. apply surjective_pairing.
Qed.

Lemma tags_text tags : build_credential_tags ToyCL.credential = Ok tags -> tags_utf8 tags.
Proof.
  intros Ht. assert (bool_decide (match build_credential_tags ToyCL.credential with Ok t => tags_utf8 t | _ => True end) = true) as Hok
    by (vm_compute; reflexivity).
  apply bool_decide_eq_true_1 in Hok. rewrite Ht in Hok. exact Hok.
Qed.

Lemma stored_credential_offered_witness : exists w' tags, stands_for sv1 7 w' /\
  eligible "NAME" "r1" (Some (Object [("cred_def_id", String_ "did:3:CL:1")])) None tags = true /\
  exists info, mk_requested_credential info None ∈ offered w' "NAME" "r1" (Some (Object [("cred_def_id", String_ "did:3:CL:1")])) None None None /\
    ci_referent info = "cred".
Proof.
  destruct (stored_credential_offered sv0 7 w0 "uuid" fresh0 (Some "cred") metadata0 ToyCL.credential ToyCL.definition None "cred" sv1
    sv0_stands text_law (proj1 (proj2 texts_utf8)) (proj2 (proj2 (proj2 (proj2 texts_utf8)))) tags_text stored) as (w' & tags & Hw' & _ & Htags & _ & Hoffered).
  exists w', tags.
  assert (eligible "NAME" "r1" (Some (Object [("cred_def_id", String_ "did:3:CL:1")])) None tags = true) as He.
  { assert (match build_credential_tags ToyCL.credential with
      | Ok t => eligible "NAME" "r1" (Some (Object [("cred_def_id", String_ "did:3:CL:1")])) None t | _ => false end = true) as Hok
      by (vm_compute; reflexivity).
    rewrite Htags in Hok. exact Hok. }
  split; [exact Hw'|]. split; [exact He|]. destruct (Hoffered "NAME" "r1" _ None None He) as (info & Hin & Href & _).
  exists info. split; [exact Hin|exact Href].
Defined.

Lemma text_is c json : object_to_string (T:=Credential) c = Some json -> json = "text".
Proof. cbn [object_to_string credential_object]. case_decide; [|discriminate]. intros Hj. injection Hj. intros ->. reflexivity. Qed.

(** The wallet after that. *)
Definition tags0 : gmap string string := match build_credential_tags ToyCL.credential with Ok t => t | _ => ∅ end.
Definition w1 : WalletMap := <[(type_of Credential, "cred") := ("text", tags0)]> w0.

Lemma storing_stands id sv w : stands_for sv 7 w -> is_utf8 id -> (storing id sv).1 = Ok id ->
  stands_for (storing id sv).2 7 (<[(type_of Credential, id) := ("text", tags0)]> w).
Proof.
  intros Hw Hid Hok. assert (storing id sv = (Ok id, (storing id sv).2)) as Hrun by (rewrite <-Hok; apply surjective_pairing).
  destruct (store_run sv 7 w "uuid" fresh0 (Some id) metadata0 ToyCL.credential ToyCL.definition None id _ Hw
    (fun c json Hc => proj2 (text_law c json Hc)) (proj1 (proj2 texts_utf8)) Hid tags_text Hrun)
    as (c & json & tags & _ & _ & Hjson & Htags & _ & Hw').
  apply text_is in Hjson. assert (tags = tags0) as Ht by (unfold tags0; rewrite Htags; reflexivity).
  rewrite <-Hjson, <-Ht. exact Hw'.
Qed.

Lemma sv1_stands : stands_for sv1 7 w1.
Proof.
  apply (storing_stands "cred" sv0 w0 sv0_stands); [exact (proj2 (proj2 (proj2 (proj2 texts_utf8))))|vm_compute; reflexivity].
Qed.

Lemma w1_credentials x : x ∈ map_to_list w1 -> x.1.1 = type_of Credential -> x = ((type_of Credential, "cred"), ("text", tags0)).
Proof.
  destruct x as [[t n] v]. intros Hx%elem_of_map_to_list Ht. cbn [fst] in Ht. subst t. unfold w1 in Hx.
  apply lookup_insert_Some in Hx as [[Hk <-]|[_ Hx]]; [injection Hk as <-; reflexivity|].
  unfold w0 in Hx. apply lookup_singleton_Some in Hx as [Hk _]. discriminate.
Qed.

Lemma runs text : text = "q1" \/ text = "q2" -> can_run sv1 7 text.
Proof.
  intros Htext. exists (mk_wallet "first" "place" toy_keys).
  assert (forall text, text = "q1" \/ text = "q2" -> match parse_from_json text with
    | Ok op => match encrypt_query op toy_keys with Ok op' => can_search op' | _ => false end | _ => false end = true) as Hok
    by (intros ? [->| ->]; vm_compute; reflexivity).
  specialize (Hok text Htext). destruct (parse_from_json text) as [op| | |]; [|discriminate..]. exists op.
  destruct (encrypt_query op toy_keys) as [op'| | |] eqn:He; [|discriminate..]. exists op'.
  split; [vm_compute; reflexivity|]. split; [reflexivity|]. split; [exact He|exact Hok].
Qed.

Lemma options_ok : options_read.
Proof. eexists. split; [reflexivity|]. repeat split. Qed.

Definition request0 : ProofRequest := mk_proof_request 5%N "request" "1.0" {["r1" := mk_attribute_info "Na me" None None]}
  {["p1" := mk_predicate_info "age" GE 18 None (Some (mk_interval None (Some 9%N)))]} None.

Lemma searchable_item name referent (p : option PredicateInfo) i query : query_value name referent None None = Ok query ->
  from_str (to_string query) = Some query -> (to_string query = "q1" \/ to_string query = "q2") ->
  (exists b, satisfies p ToyCL.credential = Ok b) -> searchable_for sv1 7 w1 name referent None None p i.
Proof.
  intros Hq Hback Htext [b Hb]. split.
  - exists query. split; [exact Hq|]. split; [exact Hback|]. apply runs. exact Htext.
  - intros x Hx Ht _. rewrite (w1_credentials x Hx Ht). unfold classify_entry. cbn [fst snd object_from_str credential_object].
    rewrite decide_True by reflexivity. cbn [ok_or mbind outcome_bind]. rewrite Hb. eexists. reflexivity.
Qed.

Lemma offered_length : length (offered w1 "age" "p1" None None (Some (mk_predicate_info "age" GE 18 None (Some (mk_interval None (Some 9%N)))))
  (Some (mk_interval None (Some 9%N)))) = 1.
Proof. vm_compute. reflexivity. Qed.


(** Three credentials, and a search for a name *)
Definition sv3 : WalletService Database := (storing "third" (storing "other" sv1).2).2.
Definition w3 : WalletMap :=
  <[(type_of Credential, "third") := ("text", tags0)]> (<[(type_of Credential, "other") := ("text", tags0)]> w1).

Lemma sv3_stands : stands_for sv3 7 w3.
Proof.
  apply (storing_stands "third"); [apply (storing_stands "other"); [exact sv1_stands|reflexivity|vm_compute; reflexivity]|reflexivity|].
  vm_compute. reflexivity.
Qed.

Lemma sv3_search : exists s records, length records = 3 /\ search_yields sv3 s records /\
  (forall r, r ∈ records -> info_of r = Ok (_get_credential_info (wr_id r) ToyCL.credential)).
Proof.
  assert (can_run sv3 7 "q1") as Hrun.
  { destruct (runs "q1" ltac:(left; reflexivity)) as (wallet & op & op' & Hh & Hop & Hop' & Hcan). exists wallet, op, op'.
    split; [|split; [exact Hop|split; [exact Hop'|exact Hcan]]]. rewrite <-Hh. vm_compute. reflexivity. }
  destruct (search_credentials_run sv3 7 w3 "q1" (query_for "name") sv3_stands Hrun options_ok eq_refl) as (opts & s & records & Hv & _ & Hy & _ & Hperm).
  exists s, records. split; [|split; [exact Hy|]].
  - rewrite Hperm, length_fmap. vm_compute. reflexivity.
  - intros r Hr. rewrite Hperm in Hr. apply list_elem_of_fmap in Hr as (x & -> & Hx).
    assert (x.2.1 = "text") as Htext.
    { apply list_elem_of_filter in Hx as [[Ht _] Hx]. destruct x as [[t n] [v tags]]. apply elem_of_map_to_list in Hx. cbn [fst] in Ht. subst t.
      unfold w3 in Hx. apply lookup_insert_Some in Hx as [[_ He]|[_ Hx]]; [exact (eq_sym (f_equal fst He))|].
      apply lookup_insert_Some in Hx as [[_ He]|[_ Hx]]; [exact (eq_sym (f_equal fst He))|].
      assert (((type_of Credential, n), (v, tags)) ∈ map_to_list w1) as Hin by (apply elem_of_map_to_list; exact Hx).
      exact (f_equal (fun y => y.2.1) (w1_credentials _ Hin eq_refl)). }
    unfold info_of, _get_credential, wallet_record. cbn [wr_value wr_id]. rewrite Hv, Htext. reflexivity.
Qed.

Definition prover_with (s : WalletSearch SQLiteStorageIterator) : ProverCommandExecutor Database SQLiteStorageIterator :=
  mk_prover_executor sv3 {[2%Z := s]} {[3%Z := {["r1" := mk_search_for s None None]}]}.

(** Two pages of a search for three credentials *)
Lemma credentials_in_pages_witness : exists s p1 p2 infos1 infos2,
  fetch_credentials 2 2 (prover_with s) = (Ok infos1, p1) /\ length infos1 = 2 /\
  fetch_credentials 2 2 p1 = (Ok infos2, p2) /\ length infos2 = 1.
Proof.
  destruct sv3_search as (s & records & Hl & Hy & Hinfo). exists s.
  destruct records as [|r1 [|r2 [|r3 [|? ?]]]]; try discriminate Hl.
  assert (Hi : forall r, r ∈ [r1; r2; r3] -> exists info, info_of r = Ok info) by (intros r Hr; eexists; apply Hinfo, Hr).
  destruct (Hi r1 ltac:(set_solver)) as [i1 H1'], (Hi r2 ltac:(set_solver)) as [i2 H2'], (Hi r3 ltac:(set_solver)) as [i3 H3'].
  destruct (credentials_in_pages (prover_with s) 2 [r1; r2; r3] 2 [i1; i2]) as (p1 & Hrun1 & Hleft & _).
  { exists s. split; [reflexivity|exact Hy]. }
  { change (N.to_nat 2) with 2. cbn [take mapM]. rewrite H1', H2'. reflexivity. }
  destruct (credentials_in_pages p1 2 [r3] 2 [i3] (Hleft ltac:(cbn; lia))) as (p2 & Hrun2 & _).
  { change (N.to_nat 2) with 2. cbn [take mapM]. rewrite H3'. reflexivity. }
  exists p1, p2, [i1; i2], [i3]. split; [exact Hrun1|]. split; [reflexivity|]. split; [exact Hrun2|reflexivity].
Defined.

(** Asked for two credentials, it returns three. *)
Lemma fetch_returns_all_that_is_left_witness : exists s p' found,
  fetch_credential_for_proof_request 5 3 "r1" 2 (prover_with s) = (Ok found, p') /\ length found = 3.
Proof.
  destruct sv3_search as (s & records & Hl & Hy & Hinfo). exists s.
  destruct records as [|r1 [|r2 [|r3 [|? ?]]]]; try discriminate Hl.
  assert (Hc : forall r, r ∈ [r1; r2; r3] -> exists rc, classify None None r = Ok (Some rc)).
  { intros r Hr. pose proof (Hinfo r Hr) as Hok. unfold info_of in Hok. unfold classify.
    destruct (_get_credential r) as [[referent c]| | |]; [|discriminate..]. eexists. reflexivity. }
  destruct (Hc r1 ltac:(set_solver)) as [i1 H1'], (Hc r2 ltac:(set_solver)) as [i2 H2'], (Hc r3 ltac:(set_solver)) as [i3 H3'].
  destruct (fetch_returns_all_that_is_left (prover_with s) 3 "r1" None None [r1; r2; r3] 5) as (_ & _ & Hall).
  { exists {["r1" := mk_search_for s None None]}, s. split; [reflexivity|]. split; [reflexivity|exact Hy]. }
  { cbn. lia. }
  destruct (Hall 2%N ltac:(lia)) as (p' & Hrun). exists p'.
  exists [i1; i2; i3]. split; [|reflexivity]. rewrite Hrun. unfold all_requested. cbn [mapM]. rewrite H1', H2', H3'. reflexivity.
Defined.

Lemma chosen_ok : chosen_credentials_of w1 ToyCL.chosen {["cred" := ToyCL.credential]}.
Proof.
  split.
  - intros id Hid. assert (id = "cred") as ->.
    { destruct Hid as [(r & ra & Hr & <-)|(r & key & Hr & <-)]; unfold ToyCL.chosen in Hr; cbn [rc_attributes rc_predicates] in Hr.
      - apply lookup_insert_Some in Hr as [[_ <-]|[_ Hr]]; [reflexivity|]. apply lookup_singleton_Some in Hr as [_ <-]. reflexivity.
      - apply lookup_singleton_Some in Hr as [_ <-]. reflexivity. }
    exists ToyCL.credential. split; [|apply lookup_singleton_eq]. unfold wallet_credential, w1. rewrite lookup_insert_eq. reflexivity.
  - intros id [c Hc]. apply lookup_singleton_Some in Hc as [<- _]. right. exists "p1", ToyCL.key. split; reflexivity.
Qed.

(** A proof from the wallet, of the request of the toy cryptography *)
Lemma wallet_proof_verifies_witness : exists sv', stands_for sv' 7 w1 /\
  ProverCommands.create_proof 7 ToyCL.request ToyCL.chosen "ms" ToyCL.schemas ToyCL.definitions ToyCL.states sv1 = (Ok ToyCL.the_proof, sv') /\
  verify_proof ToyCL.the_proof ToyCL.request ToyCL.schemas ToyCL.definitions ToyCL.registries ToyCL.registry_values = Ok true.
Proof.
  destruct (wallet_proof_verifies sv1 7 w1 (mk_record_options true true true) "ms" ("secret", ∅) (@mk_master_secret (@cl_types ToyCL.cl) "secret")
    ToyCL.request ToyCL.chosen ToyCL.schemas ToyCL.definitions ToyCL.states ToyCL.registries ToyCL.registry_values
    {["cred" := ToyCL.credential]} ToyCL.the_proof sv1_stands) as (sv' & Hrun & Hw & Hv).
  - reflexivity.
  - reflexivity.
  - vm_compute. reflexivity.
  - reflexivity.
  - exact chosen_ok.
  - exact ToyCL.shown_ok.
  - vm_compute. reflexivity.
  - apply (bool_decide_unpack _). vm_compute. exact I.
  - apply (bool_decide_unpack _). vm_compute. exact I.
  - exact ToyCL.toy_registered.
  - intros. exact I.
  - exists sv'. split; [exact Hw|]. split; [exact Hrun|exact Hv].
Defined.
End ToyProver.
