(* ===== verification/BlobStorage.v ===== *)
(** * BlobStorage: large files by their hash

    Models [libindy/src/services/blob_storage/]: [mod.rs], [default_writer.rs] and
    [default_reader.rs].  A blob is written in pieces to a temporary file, hashed on the
    way, and copied to a file that is named by the hash.  The file system is a map from
    paths to contents; a plan says how its calls go, and every call takes one step of it. *)

From stdpp Require Import gmap.
From S2P Require Import Prelude Errors Hashing PoolTypes.

(** How the next call goes: as it should, at most [n] bytes of a read or write, not at all. *)
Inductive IoStep := Full | Short (n : nat) | Fails.

(** Paths, and serde_json on the configurations. *)
Class BlobPaths := {
  tmp_dir : string;
  join : string -> string -> string;
  writer_config_from_str : string -> option (string * string);
  reader_config_from_str : string -> option string;
}.

(** [DefaultWriterConfig], [DefaultWriter] and [DefaultReader]; a file is its path. *)
Record WriterConfig := mk_writer_config { wc_base_dir : string; wc_uri_pattern : string }.
Record WritableBlob := mk_writable { wb_base_dir : string; wb_file : string; wb_id : Z }.
Record ReadableBlob := mk_readable { rb_file : string; rb_hash : bytes }.

(** A writer is kept with what its hasher was given. *)
Record BlobStorageService := mk_blobs {
  writer_configs : gmap Z WriterConfig;
  writer_blobs : gmap Z (WritableBlob * bytes);
  reader_configs : gmap Z string;
  reader_blobs : gmap Z ReadableBlob;
  (** what is outside of the service: the files, how the next calls go, [IDS_COUNTER] *)
  blob_files : gmap string bytes;
  io_plan : list IoStep;
  blob_ids : N;
}.

Section blobs.
Context `{Machine} `{Sha256} `{Base58} `{BlobPaths}.

Abbreviation Blobs := (StateM IndyErrorKind BlobStorageService).

Definition set_writer_configs f (b : BlobStorageService) :=
  mk_blobs (f (writer_configs b)) (writer_blobs b) (reader_configs b) (reader_blobs b) (blob_files b) (io_plan b) (blob_ids b).
Definition set_writer_blobs f (b : BlobStorageService) :=
  mk_blobs (writer_configs b) (f (writer_blobs b)) (reader_configs b) (reader_blobs b) (blob_files b) (io_plan b) (blob_ids b).
Definition set_reader_configs f (b : BlobStorageService) :=
  mk_blobs (writer_configs b) (writer_blobs b) (f (reader_configs b)) (reader_blobs b) (blob_files b) (io_plan b) (blob_ids b).
Definition set_reader_blobs f (b : BlobStorageService) :=
  mk_blobs (writer_configs b) (writer_blobs b) (reader_configs b) (f (reader_blobs b)) (blob_files b) (io_plan b) (blob_ids b).
Definition set_blob_files f (b : BlobStorageService) :=
  mk_blobs (writer_configs b) (writer_blobs b) (reader_configs b) (reader_blobs b) (f (blob_files b)) (io_plan b) (blob_ids b).
Definition set_io_plan l (b : BlobStorageService) :=
  mk_blobs (writer_configs b) (writer_blobs b) (reader_configs b) (reader_blobs b) (blob_files b) l (blob_ids b).
Definition set_blob_ids n (b : BlobStorageService) :=
  mk_blobs (writer_configs b) (writer_blobs b) (reader_configs b) (reader_blobs b) (blob_files b) (io_plan b) n.

(** [sequence::get_next_id()] as a handle *)
Definition next_blob_handle : Blobs Z := fun b =>
  (n ← usize_add (blob_ids b) 1; Ok (as_i32 n), set_blob_ids ((blob_ids b + 1) mod usize_modulus)%N b).

(** ** The file system *)

(** The number of bytes that a read or a write of [n] bytes takes: at least one, if any. *)
Definition io_bytes (n : nat) : Blobs nat := fun b =>
  match io_plan b with
  | [] => (Ok n, b)
  | Full :: l => (Ok n, set_io_plan l b)
  | Short k :: l => (Ok (n `min` (1 `max` k)), set_io_plan l b)
  | Fails :: l => (Err IOError, set_io_plan l b)
  end.

(** A call that works or does not. *)
Definition io_call : Blobs unit := _ ← io_bytes 0; mret tt.

Definition file_at (path : string) : Blobs bytes :=
  files ← gets blob_files; lift (ok_or (files !! path) IOError).

(** ** [default_writer.rs] *)

Definition tmp_storage_file (id : Z) : string := join (join tmp_dir "indy_client") ("def_storage_tmp_" +:+ pretty id)%string.

(** [File::create] truncates. *)
Definition DefaultWriterConfig_create (self : WriterConfig) (id : Z) : Blobs WritableBlob :=
  _ ← io_call;
  _ ← io_call;
  _ ← modify (set_blob_files (<[tmp_storage_file id := []]>));
  mret (mk_writable (wc_base_dir self) (tmp_storage_file id) id).

(** [File::write] may write a part only. *)
Definition DefaultWriter_append (self : WritableBlob) (b : bytes) : Blobs nat :=
  old ← file_at (wb_file self);
  res ← io_bytes (length b);
  _ ← modify (set_blob_files (<[wb_file self := old ++ take res b]>));
  mret res.

(** [flush] of a file does nothing; [sync_all], [create], [copy] and [remove_file] are calls. *)
Definition DefaultWriter_finalize (self : WritableBlob) (hash : bytes) : Blobs string :=
  _ ← io_call;
  let path := join (wb_base_dir self) (to_base58 hash) in
  _ ← io_call;
  contents ← file_at (tmp_storage_file (wb_id self));
  _ ← io_call;
  _ ← modify (set_blob_files (<[path := contents]>));
  _ ← io_call;
  _ ← modify (set_blob_files (delete (tmp_storage_file (wb_id self))));
  mret path.

(** ** [default_reader.rs] *)

Definition DefaultReaderConfig_open (self : string) (hash : bytes) (location : string) : Blobs ReadableBlob :=
  let path := join self (to_base58 hash) in
  _ ← io_call;
  _ ← file_at path;
  mret (mk_readable path hash).

(** Reads into a buffer of [size] bytes from a position. *)
Definition read_file (path : string) (size offset : nat) : Blobs bytes :=
  contents ← file_at path;
  let there := take size (drop offset contents) in
  n ← io_bytes (length there);
  mret (take n there).

Definition DefaultReader_read (self : ReadableBlob) (size offset : nat) : Blobs bytes :=
  _ ← io_call;
  read_file (rb_file self) size offset.

Fixpoint verify_loop (fuel : nat) (path : string) (offset : nat) (hashed : bytes) : Blobs bytes :=
  match fuel with
  | O => lift OutOfFuel
  | S fuel =>
      buf ← read_file path 1024 offset;
      match buf with
      | [] => mret hashed
      | _ => verify_loop fuel path (offset + length buf) (hashed ++ buf)
      end
  end.

Definition DefaultReader_verify (self : ReadableBlob) : Blobs bool :=
  _ ← io_call;
  contents ← file_at (rb_file self);
  hashed ← verify_loop (S (length contents)) (rb_file self) 0 [];
  mret (bool_decide (sha256_digest hashed = rb_hash self)).

(** ** [mod.rs] *)

Definition open_writer (type_ config : string) : Blobs Z :=
  writer_config ← lift (
    if decide (type_ = "default"%string) then ok_or (writer_config_from_str config) InvalidStructure else Err InvalidStructure);
  config_handle ← next_blob_handle;
  _ ← modify (set_writer_configs (<[config_handle := mk_writer_config writer_config.1 writer_config.2]>));
  mret config_handle.

Definition create_blob (config_handle : Z) : Blobs Z :=
  blob_handle ← next_blob_handle;
  configs ← gets writer_configs;
  config ← lift (ok_or (configs !! config_handle) InvalidStructure);
  writer ← DefaultWriterConfig_create config blob_handle;
  _ ← modify (set_writer_blobs (<[blob_handle := (writer, [])]>));
  mret blob_handle.

Definition append (handle : Z) (b : bytes) : Blobs nat :=
  writers ← gets writer_blobs;
  '(writer, hashed) ← lift (ok_or (writers !! handle) InvalidStructure);
  _ ← modify (set_writer_blobs (<[handle := (writer, hashed ++ b)]>));
  DefaultWriter_append writer b.

Definition finalize (handle : Z) : Blobs (string * bytes) :=
  writers ← gets writer_blobs;
  '(writer, hashed) ← lift (ok_or (writers !! handle) InvalidStructure);
  _ ← modify (set_writer_blobs (delete handle));
  let hash := sha256_digest hashed in
  location ← DefaultWriter_finalize writer hash;
  mret (location, hash).

Definition open_reader (type_ config : string) : Blobs Z :=
  reader_config ← lift (
    if decide (type_ = "default"%string) then ok_or (reader_config_from_str config) InvalidStructure else Err InvalidStructure);
  config_handle ← next_blob_handle;
  _ ← modify (set_reader_configs (<[config_handle := reader_config]>));
  mret config_handle.

Definition open_blob (config_handle : Z) (location : string) (hash : bytes) : Blobs Z :=
  configs ← gets reader_configs;
  config ← lift (ok_or (configs !! config_handle) InvalidStructure);
  reader ← DefaultReaderConfig_open config hash location;
  reader_handle ← next_blob_handle;
  _ ← modify (set_reader_blobs (<[reader_handle := reader]>));
  mret reader_handle.

Definition with_reader {A} (handle : Z) (f : ReadableBlob -> Blobs A) : Blobs A :=
  readers ← gets reader_blobs;
  reader ← lift (ok_or (readers !! handle) InvalidStructure);
  f reader.

Definition read (handle : Z) (size offset : nat) : Blobs bytes :=
  with_reader handle (fun reader => DefaultReader_read reader size offset).

Definition _verify (handle : Z) : Blobs bool := with_reader handle DefaultReader_verify.

Definition close (handle : Z) : Blobs unit :=
  with_reader handle (fun _ => modify (set_reader_blobs (delete handle))).
End blobs.
