(* ===== verification/TailsFacts.v ===== *)
(** * TailsFacts: blobs and tails are read back

    Theorems on [BlobStorage.v] and [Tails.v]: a blob is stored under the hash of its
    pieces and read back, the tails of a registry are stored in order whatever the order
    of the threads, and a short write is not noticed. *)

From Stdlib Require Import Strings.Byte.
From stdpp Require Import gmap.
From S2P Require Import Prelude Errors Hashing PoolTypes Anoncreds AnoncredsFacts BlobStorage Tails.

(** ** Lemmas: blobs *)

Section blobs.
Context `{Machine} `{Sha256} `{Base58} `{BlobPaths}.
Implicit Types (b : BlobStorageService).

Lemma io_full n b : io_plan b = [] -> io_bytes n b = (Ok n, b).
Proof. unfold io_bytes. by intros ->. Qed.

Lemma io_call_full b : io_plan b = [] -> io_call b = (Ok tt, b).
Proof. intros Hp. unfold io_call. by rewrite bind_run, io_full. Qed.

(** A blob that is being written: what was hashed, and what its file has. *)
Definition writing b (h : Z) (w : WritableBlob) (hashed data : bytes) : Prop :=
  writer_blobs b !! h = Some (w, hashed) /\ blob_files b !! wb_file w = Some data /\ io_plan b = [] /\
  wb_file w = tmp_storage_file (wb_id w).

(** The parts of the service that a writer leaves alone. *)
Definition same_readers b b' : Prop :=
  reader_configs b' = reader_configs b /\ reader_blobs b' = reader_blobs b /\ blob_ids b' = blob_ids b.

Lemma append_run b h w hashed data x : writing b h w hashed data -> exists b',
  append h x b = (Ok (length x), b') /\ writing b' h w (hashed ++ x) (data ++ x) /\ same_readers b b'.
Proof.
  intros (Hw & Hf & Hp & Ht).
  exists (set_blob_files (<[wb_file w := data ++ x]>) (set_writer_blobs (<[h := (w, hashed ++ x)]>) b)). split_and!.
  - unfold append. rewrite bind_run. unfold gets. cbn [fst]. rewrite bind_run. unfold lift. rewrite Hw. cbn [ok_or].
    rewrite bind_run. unfold modify. unfold DefaultWriter_append, file_at. rewrite !bind_run. unfold gets, lift.
    cbn [blob_files set_writer_blobs]. rewrite Hf. cbn [ok_or]. rewrite bind_run, io_full by done. rewrite bind_run. unfold modify.
    by rewrite firstn_all.
  - unfold writing. cbn. rewrite !lookup_insert_eq. done.
  - done.
Qed.

Lemma appends_run {A} (f : A -> bytes) (g : A -> IndyResult bytes) l : (forall x, x ∈ l -> g x = Ok (f x)) -> forall b h w hashed data,
  writing b h w hashed data -> exists b',
    forM (fun x => y ← lift (g x); _ ← append h y; mret tt) l b = (Ok tt, b') /\
    writing b' h w (hashed ++ concat (f <$> l)) (data ++ concat (f <$> l)) /\ same_readers b b'.
Proof.
  induction l as [|x l IH]; intros Hg b h w hashed data Hw.
  - exists b. cbn. rewrite !app_nil_r. done.
  - destruct (append_run b h w _ _ (f x) Hw) as (b1 & Hrun & Hw1 & Hr1 & Hr2 & Hr3).
    destruct (IH ltac:(intros y Hy; apply Hg; by right) b1 h w _ _ Hw1) as (b' & Hrun' & Hw' & Hs1 & Hs2 & Hs3).
    exists b'. split_and!.
    + cbn [forM]. rewrite bind_run. rewrite bind_run. unfold lift at 1. rewrite Hg by left. by rewrite bind_run, Hrun.
    + cbn [fmap list_fmap concat]. by rewrite !app_assoc.
    + unfold same_readers. by rewrite Hs1, Hs2, Hs3, Hr1, Hr2, Hr3.
Qed.

Lemma create_run b c wc : io_plan b = [] -> writer_configs b !! c = Some wc -> (blob_ids b + 1 < usize_modulus)%N ->
  let h := as_i32 (blob_ids b + 1) in exists b',
  create_blob c b = (Ok h, b') /\ writing b' h (mk_writable (wc_base_dir wc) (tmp_storage_file h) h) [] [] /\
  reader_configs b' = reader_configs b /\ reader_blobs b' = reader_blobs b /\ blob_ids b' = (blob_ids b + 1)%N.
Proof.
  intros Hp Hc Hi h.
  set (b0 := set_blob_ids ((blob_ids b + 1) mod usize_modulus)%N b).
  exists (set_writer_blobs (<[h := (mk_writable (wc_base_dir wc) (tmp_storage_file h) h, [])]>)
    (set_blob_files (<[tmp_storage_file h := []]>) b0)). split_and!.
  - unfold create_blob. rewrite bind_run. unfold next_blob_handle. rewrite usize_add_ok by done. cbn [mbind outcome_bind].
    fold b0. rewrite bind_run. unfold gets. rewrite bind_run. unfold lift. cbn [writer_configs b0 set_blob_ids]. rewrite Hc. cbn [ok_or].
    rewrite bind_run. unfold DefaultWriterConfig_create. rewrite bind_run, io_call_full by done. rewrite bind_run, io_call_full by done. done.
  - unfold writing. cbn. by rewrite !lookup_insert_eq.
  - done.
  - done.
  - cbn. by apply N.mod_small.
Qed.

Lemma finalize_run b h w hashed data : writing b h w hashed data ->
  let hash := sha256_digest hashed in
  let path := join (wb_base_dir w) (to_base58 hash) in
  path <> tmp_storage_file (wb_id w) -> exists b',
    finalize h b = (Ok (path, hash), b') /\ blob_files b' !! path = Some data /\ io_plan b' = [] /\ same_readers b b'.
Proof.
  intros (Hw & Hf & Hp & Ht) hash path Hne.
  exists (set_blob_files (delete (tmp_storage_file (wb_id w))) (set_blob_files (<[path := data]>) (set_writer_blobs (delete h) b))).
  split_and!; [|cbn; by rewrite lookup_delete_ne, lookup_insert_eq by done|done|done].
  unfold finalize. rewrite bind_run. unfold gets. rewrite bind_run. unfold lift. rewrite Hw. cbn [ok_or]. rewrite bind_run.
  unfold modify. fold hash. rewrite bind_run. unfold DefaultWriter_finalize. rewrite bind_run, io_call_full by done.
  rewrite bind_run, io_call_full by done. rewrite bind_run. unfold file_at. rewrite bind_run. unfold gets, lift.
  cbn [blob_files set_writer_blobs]. rewrite <-Ht, Hf. cbn [ok_or]. rewrite bind_run, io_call_full by done. rewrite bind_run. unfold modify.
  rewrite bind_run, io_call_full by done. rewrite Ht. reflexivity.
Qed.

(** A blob that can be read. *)
Definition readable b (h : Z) (hash contents : bytes) : Prop := io_plan b = [] /\ exists path,
  reader_blobs b !! h = Some (mk_readable path hash) /\ blob_files b !! path = Some contents.

Lemma open_run b c base location hash contents : io_plan b = [] -> reader_configs b !! c = Some base ->
  blob_files b !! join base (to_base58 hash) = Some contents -> (blob_ids b + 1 < usize_modulus)%N -> exists h b',
  open_blob c location hash b = (Ok h, b') /\ readable b' h hash contents.
Proof.
  intros Hp Hc Hf Hi. exists (as_i32 (blob_ids b + 1)).
  exists (set_reader_blobs (<[as_i32 (blob_ids b + 1) := mk_readable (join base (to_base58 hash)) hash]>)
    (set_blob_ids ((blob_ids b + 1) mod usize_modulus)%N b)). split.
  - unfold open_blob. rewrite bind_run. unfold gets. rewrite bind_run. unfold lift. rewrite Hc. cbn [ok_or]. rewrite bind_run.
    unfold DefaultReaderConfig_open. rewrite bind_run, io_call_full by done. rewrite bind_run. unfold file_at. rewrite bind_run.
    unfold gets, lift. rewrite Hf. cbn [ok_or]. cbv [mret StateM_ret]. rewrite bind_run. unfold next_blob_handle.
    by rewrite usize_add_ok by done.
  - split; [done|]. eexists. cbn. by rewrite lookup_insert_eq.
Qed.

Lemma read_file_run b path contents size offset : io_plan b = [] -> blob_files b !! path = Some contents ->
  read_file path size offset b = (Ok (take size (drop offset contents)), b).
Proof.
  intros Hp Hf. unfold read_file, file_at. rewrite !bind_run. unfold gets, lift. rewrite Hf. cbn [ok_or].
  rewrite bind_run, io_full by done. by rewrite firstn_all.
Qed.

Lemma read_run b h hash contents size offset : readable b h hash contents ->
  read h size offset b = (Ok (take size (drop offset contents)), b).
Proof.
  intros (Hp & path & Hr & Hf). unfold read, with_reader. rewrite bind_run. unfold gets. rewrite bind_run. unfold lift. rewrite Hr.
  cbn [ok_or]. unfold DefaultReader_read. rewrite bind_run, io_call_full by done. by apply read_file_run.
Qed.

Lemma verify_loop_run b path contents : io_plan b = [] -> blob_files b !! path = Some contents -> forall fuel offset hashed,
  length contents - offset < fuel -> verify_loop fuel path offset hashed b = (Ok (hashed ++ drop offset contents), b).
Proof.
  intros Hp Hf. induction fuel as [|fuel IH]; intros offset hashed Hl; [lia|].
  cbn [verify_loop]. rewrite bind_run, (read_file_run b path contents) by done.
  destruct (take 1024 (drop offset contents)) as [|x l] eqn:He.
  - assert (drop offset contents = []) as -> by (by destruct (drop offset contents)). by rewrite app_nil_r.
  - rewrite <-He. assert (offset < length contents) as Ho.
    { destruct (decide (offset < length contents)); [done|]. rewrite drop_ge in He by lia. done. }
    rewrite IH by (rewrite length_take, length_drop; lia). rewrite <-app_assoc. do 2 f_equal.
    rewrite length_take, length_drop. rewrite <-(take_drop 1024 (drop offset contents)) at 2. rewrite drop_drop. apply (f_equal (app _)).
    destruct (decide (1024 <= length contents - offset)).
    + rewrite Nat.min_l by done. done.
    + rewrite Nat.min_r by lia. rewrite (drop_ge _ (offset + (length contents - offset))), (drop_ge _ (offset + 1024)) by lia. done.
Qed.
End blobs.

(** ** Lemmas: tails *)

Section tails.
Context `{Machine} `{Sha256} `{Base58} `{BlobPaths} `{TailsLib}.

Lemma elem_of_indices rtg i : i ∈ tail_indices rtg <-> (i < getSize rtg)%N.
Proof.
  unfold tail_indices. rewrite list_elem_of_fmap. split.
  - intros (k & -> & Hk%elem_of_seq). lia.
  - intros Hi. exists (N.to_nat i). split; [lia|]. apply elem_of_seq. lia.
Qed.

(** All threads made their tails. *)
Definition all_tails (rtg : TailsGenerator) (tail : N -> Tail) (tail_bytes : N -> bytes) : Prop := forall i, (i < getSize rtg)%N ->
  generate_tail rtg i = Ok (Some (tail i)) /\ tail_to_bytes (tail i) = Ok (tail_bytes i).

Lemma threads_run rtg tail tb order : all_tails rtg tail tb -> (forall i, i ∈ order -> (i < getSize rtg)%N) ->
  mapM (tail_thread rtg) order = Ok ((fun i => Some (i, tb i)) <$> order).
Proof.
  intros Hall. induction order as [|i order IH]; intros Ho; [done|]. cbn [mapM fmap list_fmap].
  destruct (Hall i) as [Hg Hb]; [apply Ho; left|]. 
  assert (tail_thread rtg i = Ok (Some (i, tb i))) as -> by (unfold tail_thread; rewrite Hg; cbn [unwrap mbind outcome_bind]; by rewrite Hb).
  cbn [mbind outcome_bind]. by rewrite IH by (intros; apply Ho; by right).
Qed.

Lemma omap_Some {A B} (f : A -> B) (l : list A) : omap id ((fun x => Some (f x)) <$> l) = f <$> l.
Proof. induction l as [|x l IH]; [done|]. csimpl. by rewrite IH. Qed.

(** The map that is filled from the pushed tails. *)
Definition put (m : gmap N bytes) (kv : N * bytes) : gmap N bytes := <[kv.1 := kv.2]> m.

Lemma insert_tails tails_data n : forall s m, s + n <= length tails_data ->
  foldM (insert_tail tails_data) (N.of_nat <$> seq s n) m = Ok (foldl put m (take n (drop s tails_data))).
Proof.
  induction n as [|n IH]; intros s m Hl; [done|]. cbn [seq fmap list_fmap foldM].
  destruct (lookup_lt_is_Some_2 tails_data s) as [kv Hs]; [lia|].
  assert (insert_tail tails_data m (N.of_nat s) = Ok (put m kv)) as -> by (unfold insert_tail; by rewrite Nat2N.id, Hs).
  cbn [mbind outcome_bind].
  change (list_fmap _ _ N.of_nat (seq (S s) n)) with (N.of_nat <$> seq (S s) n). rewrite IH by lia.
  rewrite (drop_S _ _ _ Hs). done.
Qed.

Lemma put_lookup l k v : NoDup l.*1 -> (k, v) ∈ l -> forall m, foldl put m l !! k = Some v.
Proof.
  assert (forall l m k, k ∉ l.*1 -> foldl put m l !! k = m !! k) as Hout.
  { clear. intros l. induction l as [|[k1 v1] l IH]; intros m k Hk; [done|]. cbn in Hk. apply not_elem_of_cons in Hk as [Hne Hk].
    cbn [foldl]. rewrite IH by done. unfold put. by rewrite lookup_insert_ne. }
  induction l as [|[k' v'] l IH]; intros Hnd Hin m; [by apply elem_of_nil in Hin|]. apply NoDup_cons in Hnd as [Hk Hnd]. cbn [foldl].
  apply elem_of_cons in Hin as [[= <- <-]|Hin]; [|by apply IH]. rewrite Hout by done. unfold put. apply lookup_insert_eq.
Qed.

(** The tails by their indices, whatever the order in which they were pushed. *)
Lemma tails_by_index rtg (tb : N -> bytes) order : order ≡ₚ tail_indices rtg -> exists m,
  foldM (insert_tail ((fun i => (i, tb i)) <$> order)) (tail_indices rtg) ∅ = Ok m /\
  forall i, (i < getSize rtg)%N -> m !! i = Some (tb i).
Proof.
  intros Hperm. assert (length order = N.to_nat (getSize rtg)) as Hl.
  { rewrite Hperm. unfold tail_indices. by rewrite length_fmap, length_seq. }
  eexists. split; [apply insert_tails; rewrite length_fmap; lia|]. intros i Hi. rewrite drop_0, take_ge by (rewrite length_fmap; lia).
  apply put_lookup.
  - rewrite <-list_fmap_compose. change (NoDup ((fun i => i) <$> order)). rewrite list_fmap_id, Hperm. unfold tail_indices.
    apply NoDup_fmap_2; [apply _|]. apply NoDup_seq.
  - apply list_elem_of_fmap. exists i. split; [done|]. rewrite Hperm. by apply elem_of_indices.
Qed.
End tails.

(** ** Theorems *)

Section theorems.
Context `{Machine} `{Sha256} `{Base58} `{BlobPaths} `{TailsLib} `{CLTypes}.

(** What the tails file of a registry has. *)
Definition tails_file (rtg : TailsGenerator) (tail_bytes : N -> bytes) : bytes :=
  [Byte.x00; Byte.x02] ++ concat (tail_bytes <$> tail_indices rtg).

(** A service that can write and read blobs of one directory. *)
Definition can_store (b : BlobStorageService) (writer reader : Z) (base_dir : string) : Prop :=
  io_plan b = [] /\ (exists pattern, writer_configs b !! writer = Some (mk_writer_config base_dir pattern)) /\
  reader_configs b !! reader = Some base_dir /\ (blob_ids b + 2 < usize_modulus)%N /\
  (forall hash id, join base_dir (to_base58 hash) <> tmp_storage_file id).

Lemma store_tails_run b writer reader base_dir order rtg tail tb : can_store b writer reader base_dir ->
  order ≡ₚ tail_indices rtg -> all_tails rtg tail tb ->
  let hash := sha256_digest (tails_file rtg tb) in
  let path := join base_dir (to_base58 hash) in exists b',
    store_tails_from_generator order writer rtg b = (Ok (path, to_base58 hash), b') /\
    blob_files b' !! path = Some (tails_file rtg tb) /\ io_plan b' = [] /\
    reader_configs b' !! reader = Some base_dir /\ (blob_ids b' + 1 < usize_modulus)%N.
Proof.
  intros (Hp & (pattern & Hc) & Hr & Hi & Hne) Hperm Hall hash path.
  destruct (create_run b writer _ Hp Hc ltac:(lia)) as (b1 & Hrun1 & Hw1 & Hrc1 & Hrb1 & Hi1). cbn [wc_base_dir] in Hw1.
  destruct (append_run b1 _ _ _ _ [Byte.x00; Byte.x02] Hw1) as (b2 & Hrun2 & Hw2 & Hrc2 & Hrb2 & Hi2).
  destruct (tails_by_index rtg tb order Hperm) as (m & Hm & Hlook).
  destruct (appends_run tb (fun i => unwrap (m !! i)) (tail_indices rtg)
    ltac:(intros i Hin%elem_of_indices; cbv beta; by rewrite (Hlook i Hin)) b2 _ _ _ _ Hw2) as (b3 & Hrun3 & Hw3 & Hrc3 & Hrb3 & Hi3).
  destruct (finalize_run b3 _ _ _ _ Hw3) as (b4 & Hrun4 & Hfile & Hp4 & Hrc4 & Hrb4 & Hi4); [apply Hne|].
  exists b4. split_and!; [|exact Hfile|exact Hp4|by rewrite Hrc4, Hrc3, Hrc2, Hrc1|rewrite Hi4, Hi3, Hi2, Hi1; lia].
  unfold store_tails_from_generator. rewrite bind_run, Hrun1, bind_run, Hrun2, bind_run. unfold lift at 1.
  rewrite (threads_run rtg tail tb order Hall) by (intros i Hi'; rewrite Hperm in Hi'; by apply elem_of_indices).
  rewrite omap_Some, bind_run. unfold lift at 1. rewrite Hm, bind_run, Hrun3, bind_run, Hrun4. done.
Qed.

Lemma concat_piece (f : N -> bytes) k n l i : (forall x, x ∈ l -> length (f x) = k) -> l !! i = Some n ->
  take k (drop (k * i) (concat (f <$> l))) = f n.
Proof.
  revert i. induction l as [|x l IH]; intros i Hlen Hi; [done|]. cbn [fmap list_fmap concat].
  assert (length (f x) = k) as Hx by (apply Hlen; left). destruct i as [|i].
  - injection Hi as ->. by rewrite Nat.mul_0_r, drop_0, take_app_length'.
  - rewrite drop_app_ge by lia. replace (k * S i - length (f x)) with (k * i) by lia.
    apply IH; [|done]. intros; apply Hlen; by right.
Qed.

Lemma tail_at rtg (tb : N -> bytes) i : (forall j, (j < getSize rtg)%N -> length (tb j) = N.to_nat TAIL_SIZE) -> (i < getSize rtg)%N ->
  take (N.to_nat TAIL_SIZE) (drop (N.to_nat (TAIL_SIZE * i + TAILS_BLOB_TAG_SZ)) (tails_file rtg tb)) = tb i.
Proof.
  intros Hlen Hi. unfold tails_file, TAILS_BLOB_TAG_SZ.
  rewrite drop_app_ge by (cbn; lia).
  replace (N.to_nat (TAIL_SIZE * i + 2) - length [Byte.x00; Byte.x02]) with (N.to_nat TAIL_SIZE * N.to_nat i) by (cbn [length]; lia).
  apply concat_piece.
  - intros x Hx%elem_of_indices. by apply Hlen.
  - unfold tail_indices. rewrite list_lookup_fmap, lookup_seq_lt by lia. cbn. f_equal. lia.
Qed.

(** An accessor of a blob that has a tails file reads its tails. *)
Lemma accessor_reads b reader base_dir rtg tail tb (def : RevocationRegistryDefinitionV1) : io_plan b = [] ->
  reader_configs b !! reader = Some base_dir -> (blob_ids b + 1 < usize_modulus)%N ->
  let hash := sha256_digest (tails_file rtg tb) in
  blob_files b !! join base_dir (to_base58 hash) = Some (tails_file rtg tb) -> rd_tails_hash def = to_base58 hash ->
  (forall i, (i < getSize rtg)%N -> length (tb i) = N.to_nat TAIL_SIZE /\ tail_from_bytes (tb i) = Ok (tail i)) ->
  (forall h, from_base58 (to_base58 h) = Some h) -> (TAIL_SIZE * getSize rtg + 2 < usize_modulus)%N -> exists h b2,
  SDKTailsAccessor_new reader def b = (Ok h, b2) /\
  forall i, (i < getSize rtg)%N -> access_tail h i b2 = (Ok (tail i), b2).
Proof.
  intros Hp Hr Hi hash Hfile Hhash Hsize Hb58 Hmod.
  destruct (open_run b reader base_dir (rd_tails_location def) hash (tails_file rtg tb) Hp Hr Hfile Hi) as (h & b2 & Hopen & Hread).
  exists h, b2. split.
  - unfold SDKTailsAccessor_new. rewrite bind_run. unfold lift. rewrite Hhash, Hb58. exact Hopen.
  - intros i Hlt. unfold access_tail. rewrite bind_run. unfold lift at 1. unfold usize_mul.
    assert (TAIL_SIZE * i <= TAIL_SIZE * getSize rtg)%N as Hle by (apply N.mul_le_mono_l; lia).
    rewrite (proj2 (N.ltb_lt _ _)) by lia. cbn [mbind outcome_bind]. rewrite usize_add_ok by (unfold TAILS_BLOB_TAG_SZ; lia).
    rewrite bind_run. unfold attempt. rewrite (read_run b2 h _ _ _ _ Hread).
    rewrite (tail_at rtg tb i) by (try done; intros; by apply Hsize). unfold lift. by rewrite (proj2 (Hsize i Hlt)).
Qed.

(** the tails that [store_tails_from_generator] stores are read back, each under its
    index, by an accessor that is opened with the location and the hash of the registry's
    definition, whatever the order in which the threads made them. *)
Theorem tails_read_back b writer reader base_dir order rtg tail tb : can_store b writer reader base_dir ->
  order ≡ₚ tail_indices rtg -> all_tails rtg tail tb ->
  (forall i, (i < getSize rtg)%N -> length (tb i) = N.to_nat TAIL_SIZE /\ tail_from_bytes (tb i) = Ok (tail i)) ->
  (forall h, from_base58 (to_base58 h) = Some h) -> (TAIL_SIZE * getSize rtg + 2 < usize_modulus)%N -> exists location hash b1,
  store_tails_from_generator order writer rtg b = (Ok (location, hash), b1) /\
  forall def : RevocationRegistryDefinitionV1, rd_tails_location def = location -> rd_tails_hash def = hash -> exists h b2,
    SDKTailsAccessor_new reader def b1 = (Ok h, b2) /\
    forall i, (i < getSize rtg)%N -> access_tail h i b2 = (Ok (tail i), b2).
Proof.
  intros Hcan Hperm Hall Hsize Hb58 Hmod.
  destruct (store_tails_run b writer reader base_dir order rtg tail tb Hcan Hperm Hall) as (b1 & Hrun & Hfile & Hp1 & Hr1 & Hi1).
  eexists _, _, b1. split; [exact Hrun|]. intros def Hloc Hhash.
  by apply (accessor_reads b1 reader base_dir rtg tail tb).
Qed.

Lemma missing_tail (tails_data : list (N * bytes)) n : forall s m, s <= length tails_data < s + n ->
  foldM (insert_tail tails_data) (N.of_nat <$> seq s n) m = Panic.
Proof.
  induction n as [|n IH]; intros s m Hl; [lia|]. cbn [seq fmap list_fmap foldM].
  destruct (tails_data !! s) as [kv|] eqn:Hs.
  - assert (insert_tail tails_data m (N.of_nat s) = Ok (put m kv)) as -> by (unfold insert_tail; by rewrite Nat2N.id, Hs).
    apply lookup_lt_Some in Hs. apply IH. lia.
  - assert (insert_tail tails_data m (N.of_nat s) = Panic) as -> by (unfold insert_tail; by rewrite Nat2N.id, Hs). done.
Qed.

Lemma omap_shorter {A} (l : list (option A)) : None ∈ l -> length (omap id l) < length l.
Proof.
  assert (forall l : list (option A), length (omap id l) <= length l) as Hle.
  { intros k. induction k as [|[x|] k IH]; csimpl; lia. }
  induction l as [|[x|] l IH]; intros Hin; csimpl; [by apply elem_of_nil in Hin| |specialize (Hle l); lia].
  apply elem_of_cons in Hin as [?|Hin]; [done|]. specialize (IH Hin). lia.
Qed.

(** when a thread cannot make its tail, it only prints so, and the whole service
    unwinds afterwards, at the index that is missing. *)
Theorem failed_tail_unwinds b writer config order rtg made : io_plan b = [] ->
  writer_configs b !! writer = Some config -> (blob_ids b + 1 < usize_modulus)%N -> order ≡ₚ tail_indices rtg ->
  (forall i, (i < getSize rtg)%N -> tail_thread rtg i = Ok (made i)) ->
  (exists i, (i < getSize rtg)%N /\ made i = None) ->
  (store_tails_from_generator order writer rtg b).1 = Panic.
Proof.
  intros Hp Hc Hi Hperm Hmade (i & Hlt & Hnone).
  destruct (create_run b writer _ Hp Hc Hi) as (b1 & Hrun1 & Hw1 & _).
  destruct (append_run b1 _ _ _ _ [Byte.x00; Byte.x02] Hw1) as (b2 & Hrun2 & _).
  unfold store_tails_from_generator. rewrite bind_run, Hrun1, bind_run, Hrun2, bind_run. unfold lift at 1.
  assert (mapM (tail_thread rtg) order = Ok (made <$> order)) as ->.
  { assert (forall j, j ∈ order -> (j < getSize rtg)%N) as Hin by (intros j Hj; rewrite Hperm in Hj; by apply elem_of_indices).
    clear -Hin Hmade. induction order as [|j order IH]; [done|]. cbn [mapM fmap list_fmap]. rewrite Hmade by (apply Hin; left).
    cbn [mbind outcome_bind]. by rewrite IH by (intros; apply Hin; by right). }
  assert (length (omap id (made <$> order)) < N.to_nat (getSize rtg)) as Hshort.
  { assert (length (made <$> order) = N.to_nat (getSize rtg)) as <-.
    { rewrite length_fmap, Hperm. unfold tail_indices. by rewrite length_fmap, length_seq. }
    apply omap_shorter. apply list_elem_of_fmap. exists i. split; [done|]. rewrite Hperm. by apply elem_of_indices. }
  rewrite bind_run. unfold lift at 1. unfold tail_indices at 1. by rewrite missing_tail by lia.
Qed.

(** a write may write a part of a piece only.  [append] answers how much, which no
    caller looks at, and the hasher has the whole piece: the blob is stored under a hash
    that is not the hash of its file, and [_verify] says so. *)
Theorem short_write_unnoticed b h w hashed data x k c : writer_blobs b !! h = Some (w, hashed) ->
  blob_files b !! wb_file w = Some data -> wb_file w = tmp_storage_file (wb_id w) -> io_plan b = [Short k] ->
  reader_configs b !! c = Some (wb_base_dir w) -> (blob_ids b + 1 < usize_modulus)%N ->
  let hash := sha256_digest (hashed ++ x) in
  let file := data ++ take (length x `min` (1 `max` k)) x in
  join (wb_base_dir w) (to_base58 hash) <> tmp_storage_file (wb_id w) -> exists n b1 path b2 r b3,
    append h x b = (Ok n, b1) /\ finalize h b1 = (Ok (path, hash), b2) /\ blob_files b2 !! path = Some file /\
    open_blob c path hash b2 = (Ok r, b3) /\ _verify r b3 = (Ok (bool_decide (sha256_digest file = hash)), b3).
Proof.
  intros Hw Hf Ht Hp Hc Hi hash file Hne.
  set (b0 := set_io_plan [] (set_writer_blobs (<[h := (w, hashed ++ x)]>) b)).
  set (b1 := set_blob_files (<[wb_file w := file]>) b0).
  assert (append h x b = (Ok (length x `min` (1 `max` k)), b1)) as Happ.
  { unfold append. rewrite bind_run. unfold gets. cbn [fst]. rewrite bind_run. unfold lift. rewrite Hw. cbn [ok_or].
    rewrite bind_run. unfold modify. unfold DefaultWriter_append, file_at. rewrite !bind_run. unfold gets, lift.
    cbn [blob_files set_writer_blobs]. rewrite Hf. cbn [ok_or]. rewrite bind_run. unfold io_bytes at 1. cbn [io_plan set_writer_blobs].
    rewrite Hp. rewrite bind_run. unfold modify. done. }
  assert (writing b1 h w (hashed ++ x) file) as Hwr by (unfold writing; cbn; rewrite !lookup_insert_eq; done).
  destruct (finalize_run b1 h w _ _ Hwr Hne) as (b2 & Hfin & Hfile & Hp2 & Hr2 & Hb2 & Hi2).
  destruct (open_run b2 c (wb_base_dir w) (join (wb_base_dir w) (to_base58 hash)) hash file Hp2) as (r & b3 & Hopen & Hp3 & path' & Hr3 & Hf3).
  { by rewrite Hr2. }
  { exact Hfile. }
  { by rewrite Hi2. }
  exists (length x `min` (1 `max` k)), b1, (join (wb_base_dir w) (to_base58 hash)), b2, r, b3.
  split_and!; [done..|]. unfold _verify, with_reader. rewrite bind_run. unfold gets. rewrite bind_run. unfold lift. rewrite Hr3. cbn [ok_or].
  unfold DefaultReader_verify. rewrite bind_run, io_call_full by done. rewrite bind_run. unfold file_at. rewrite bind_run. unfold gets, lift.
  cbn [rb_file]. rewrite Hf3. cbn [ok_or]. rewrite bind_run, (verify_loop_run b3 path' file Hp3 Hf3) by lia. done.
Qed.
End theorems.

(** ** Witnesses *)
Module ToyTails.
#[export] Existing Instances ToySha.sha ToyPool.machine ToyPool.base58 ToyCL.types.

(** Tails of one byte. *)
#[export] Instance lib : TailsLib := {|
  Tail := Byte.byte; TailsGenerator := N; TAIL_SIZE := 1;
  tail_to_bytes := fun t => Ok [t];
  tail_from_bytes := fun l => match l with [t] => Ok t | _ => Err InvalidStructure end;
  getSize := fun n => n;
  generate_tail := fun n i => if (i =? 200)%N then Err IOError else Ok (Some (byte_of_N (7 * i)));
|}.

#[export] Instance paths : BlobPaths := {|
  tmp_dir := "/tmp"; join := fun a b => (a +:+ "/" +:+ b)%string;
  writer_config_from_str := fun s => Some (s, ""%string); reader_config_from_str := Some;
|}.

Definition three : TailsGenerator := 3%N.
Definition many : TailsGenerator := 201%N.

Definition service : BlobStorageService := mk_blobs
  {[1%Z := mk_writer_config "base" ""]} {[5%Z := (mk_writable "base" (tmp_storage_file 5) 5, [Byte.x01])]} {[2%Z := "base"%string]} ∅
  {[tmp_storage_file 5 := [Byte.x01]]} [] 5.

Lemma can : can_store service 1 2 "base".
Proof. split_and!; [done|by eexists|done|vm_compute; reflexivity|]. intros hash id. cbn. discriminate. Qed.

Lemma tails_3 : all_tails three (fun i => byte_of_N (7 * i)) (fun i => [byte_of_N (7 * i)]).
Proof. intros i Hi. change (i < 3)%N in Hi. cbn. by rewrite (proj2 (N.eqb_neq _ _)) by lia. Qed.

Lemma base58_back h : from_base58 (to_base58 h) = Some h.
Proof. cbn. f_equal. apply as_bytes_of_bytes. Qed.

Lemma tails_read_back_witness : [2; 0; 1]%N ≡ₚ tail_indices three /\ exists location hash b1,
  store_tails_from_generator [2; 0; 1]%N 1 three service = (Ok (location, hash), b1).
Proof.
  assert ([2; 0; 1]%N ≡ₚ tail_indices three) as Hperm by (apply (bool_decide_unpack _); vm_compute; exact I).
  split; [exact Hperm|].
  destruct (tails_read_back service 1 2 "base" [2; 0; 1]%N three _ _ can Hperm tails_3) as (location & hash & b1 & Hrun & _).
  - intros i Hi. split; reflexivity.
  - apply base58_back.
  - vm_compute. reflexivity.
  - exists location, hash, b1. exact Hrun.
Defined.

Lemma failed_tail_unwinds_witness : (store_tails_from_generator (tail_indices many) 1 many service).1 = Panic.
Proof.
  apply (failed_tail_unwinds service 1 (mk_writer_config "base" "") (tail_indices many) many
    (fun i => if (i =? 200)%N then None else Some (i, [byte_of_N (7 * i)]))); try reflexivity.
  - intros i Hi. unfold tail_thread. cbn [generate_tail lib]. destruct (i =? 200)%N; reflexivity.
  - exists 200%N. split; reflexivity.
Defined.

Lemma short_write_unnoticed_witness : exists n b1 path b2 hash r b3,
  append 5 [Byte.x02; Byte.x03] (set_io_plan [Short 1] service) = (Ok n, b1) /\ finalize 5 b1 = (Ok (path, hash), b2) /\
  open_blob 2 path hash b2 = (Ok r, b3) /\ _verify r b3 = (Ok false, b3).
Proof.
  destruct (short_write_unnoticed (set_io_plan [Short 1] service) 5 (mk_writable "base" (tmp_storage_file 5) 5) [Byte.x01] [Byte.x01]
    [Byte.x02; Byte.x03] 1 2) as (n & b1 & path & b2 & r & b3 & Happ & Hfin & _ & Hopen & Hver); try reflexivity.
  - intros Heq. discriminate Heq.
  - exists n, b1, path, b2, (sha256_digest ([Byte.x01] ++ [Byte.x02; Byte.x03])), r, b3.
    split; [exact Happ|]. split; [exact Hfin|]. split; [exact Hopen|]. exact Hver.
Defined.
End ToyTails.
