(* ===== verification/Revocation.v ===== *)
(** * Revocation: what the cryptography asks of a tails file

    Some functions of indy-crypto call back for tails ([RevocationTailsAccessor]): such a
    function is here the tree of its calls, [TailsUse], that [run_tails] runs with the
    accessor of [commands/anoncreds/tails.rs].  With it the commands of
    [commands/anoncreds/prover.rs] that make and update revocation states. *)

From stdpp Require Import gmap.
From S2P Require Import Prelude Errors Hashing PoolTypes WalletService Anoncreds BlobStorage Tails.

(** A computation that asks for tails *)
Inductive TailsUse `{TailsLib} (A : Type) :=
| Done (r : IndyResult A)
| Access (tail_id : N) (k : IndyErrorKind + Tail -> TailsUse A).
Arguments Done {_ _} r.
Arguments Access {_ _} tail_id k.

(** Deltas of registries and witnesses of indy-crypto *)
Class CLRevocation `{TailsLib} `{CLTypes} := {
  ClDelta : Type;
  delta_from_parts : option ClRevReg -> ClRevReg -> gset N -> gset N -> ClDelta;
  delta_merge : ClDelta -> ClDelta -> IndyResult ClDelta;
  rev_reg_from_delta : ClDelta -> ClRevReg;
  witness_new : N -> N -> bool -> ClDelta -> TailsUse ClWitness;
  witness_update : N -> N -> ClDelta -> ClWitness -> TailsUse ClWitness;
}.

#[export] Instance issuance_type_eq_dec : EqDecision IssuanceType.
Proof. solve_decision. Defined.

Definition IssuanceType_to_bool (self : IssuanceType) : bool := bool_decide (self = ISSUANCE_BY_DEFAULT).

Section revocation.
Context `{Machine} `{Sha256} `{Base58} `{BlobPaths} `{TailsLib} `{CLTypes}.

Abbreviation Blobs := (StateM IndyErrorKind BlobStorageService).

Fixpoint run_tails {A} (tails : Z) (u : TailsUse A) : Blobs A :=
  match u with
  | Done r => lift r
  | Access tail_id k => tail ← attempt (access_tail tails tail_id); run_tails tails (k tail)
  end.

(** The accessor is dropped at the end of the function, whatever its result. *)
Definition dropping {A} (tails : Z) (m : Blobs A) : Blobs A := fun b =>
  let '(r, b) := m b in (r, (SDKTailsAccessor_drop tails b).2).

Definition with_tails {A} (reader_handle : Z) (rev_reg_def : RevocationRegistryDefinitionV1) (f : Z -> Blobs A) : Blobs A :=
  tails ← SDKTailsAccessor_new reader_handle rev_reg_def;
  dropping tails (f tails).

Context `{!CLRevocation} `{!IndyObject RevocationState}.

Definition create_revocation_state (blob_storage_reader_handle : Z) (revoc_reg_def : RevocationRegistryDefinitionV1)
    (rev_reg_delta : ClDelta) (timestamp : N) (cred_rev_id : string) : Blobs string :=
  rev_idx ← lift (parse_cred_rev_id cred_rev_id);
  with_tails blob_storage_reader_handle revoc_reg_def (fun tails =>
    witness ← run_tails tails (witness_new rev_idx (rd_max_cred_num revoc_reg_def)
      (IssuanceType_to_bool (rd_issuance_type revoc_reg_def)) rev_reg_delta);
    lift (ok_or (object_to_string (mk_rev_state witness (rev_reg_from_delta rev_reg_delta) timestamp)) InvalidState)).

Definition update_revocation_state (blob_storage_reader_handle : Z) (rev_state : RevocationState)
    (rev_reg_def : RevocationRegistryDefinitionV1) (rev_reg_delta : ClDelta) (timestamp : N) (cred_rev_id : string) : Blobs string :=
  rev_idx ← lift (parse_cred_rev_id cred_rev_id);
  with_tails blob_storage_reader_handle rev_reg_def (fun tails =>
    witness ← run_tails tails (witness_update rev_idx (rd_max_cred_num rev_reg_def) rev_reg_delta (rs_witness rev_state));
    lift (ok_or (object_to_string (mk_rev_state witness (rev_reg_from_delta rev_reg_delta) timestamp)) InvalidState)).
End revocation.
