(* ===== verification/IssuerCommands.v ===== *)
(** * IssuerCommands: schemas, credential definitions, registries and credentials

    Models [libindy/src/commands/anoncreds/issuer.rs] and
    [libindy/src/services/anoncreds/issuer.rs] with the identifiers of
    [libindy/src/domain/anoncreds/].  The wallet is any [IndyWallet], so that the commands
    run on the wallet service and on the map of its records.  What is drawn at random and
    the order in which threads end are arguments.  The theorems are in
    [IssuerFacts.v]. *)

From stdpp Require Import gmap.
From S2P Require Import Prelude Errors Crypto Hashing Json Wql PoolTypes Encryption QueryEncryption Storage Wallet Stream WalletService WalletServiceFacts IndyWallet Anoncreds ProverCommands BlobStorage Tails Revocation.

(** ** Cryptography *)

Class CLIssuer `{CLBlinding} `{!TailsLib} `{!CLRevocation} := {
  ClRandom : Type;
  ClPrivateKey : Type;
  ClRevPrivate : Type;
  new_credential_def : ClRandom -> ClSchema -> ClNonSchema -> bool -> IndyResult (ClPublicKey * ClPrivateKey * ClKeyCorrectness);
  get_primary_key : ClPublicKey -> IndyResult ClPrimaryKey;
  get_revocation_key : ClPublicKey -> IndyResult (option ClRevocationKey);
  new_revocation_registry_def : ClRandom -> ClPublicKey -> N -> bool ->
    IndyResult (ClAccumKey * ClRevPrivate * ClRevReg * TailsGenerator);
  sign_credential : ClRandom -> string -> ClBlinded -> ClBlindedProof -> ClNonce -> ClNonce -> ClValues -> ClPublicKey ->
    ClPrivateKey -> IndyResult (ClSignature * ClSignatureProof);
  (** also the registry after it, and its change *)
  sign_credential_with_revoc : ClRandom -> string -> ClBlinded -> ClBlindedProof -> ClNonce -> ClNonce -> ClValues ->
    ClPublicKey -> ClPrivateKey -> N -> N -> bool -> ClRevReg -> ClRevPrivate ->
    TailsUse (ClSignature * ClSignatureProof * option ClDelta * ClRevReg);
  cl_revoke_credential : ClRevReg -> N -> N -> TailsUse (ClDelta * ClRevReg);
  cl_recovery_credential : ClRevReg -> N -> N -> TailsUse (ClDelta * ClRevReg);
}.

(** ** Data *)

Inductive SignatureType := CL_SIGNATURE.
Inductive RegistryType := CL_ACCUM.

Definition SignatureType_to_str (self : SignatureType) : string := match self with CL_SIGNATURE => "CL" end.
Definition RegistryType_to_str (self : RegistryType) : string := match self with CL_ACCUM => "CL_ACCUM" end.

(** [support_revocation] *)
Record CredentialDefinitionConfig := mk_cred_def_config { support_revocation : bool }.
Definition CredentialDefinitionConfig_default : CredentialDefinitionConfig := mk_cred_def_config false.

Record RevocationRegistryConfig := mk_registry_config { rc_issuance_type : option string; rc_max_cred_num : option N }.

Record RevocationRegistryV1 `{CLTypes} := mk_rev_reg { rv_value : ClRevReg }.
Arguments mk_rev_reg {_} _.

Record CredentialDefinitionPrivateKey `{CLIssuer} := mk_cred_def_private { cp_value : ClPrivateKey }.
Arguments mk_cred_def_private {_ _ _ _ _} _.
Record CredentialDefinitionCorrectnessProof `{CLBlinding} := mk_correctness { cc_value : ClKeyCorrectness }.
Arguments mk_correctness {_ _} _.
Record RevocationRegistryDefinitionPrivate `{CLIssuer} := mk_registry_private { rp_value : ClRevPrivate }.
Arguments mk_registry_private {_ _ _ _ _} _.

Record RevocationRegistryInfo := mk_registry_info { rr_id : string; curr_id : N; used_ids : gset N }.

(** What [serde_json] prints and reads of the values that are not kept as objects *)
Class IssuerCodecs `{CLBlinding} `{!TailsLib} `{!CLRevocation} := {
  schema_to_string : SchemaV1 -> option string;
  offer_to_string : CredentialOffer -> option string;
  delta_to_string : ClDelta -> option string;
  signature_type_from_str : string -> option SignatureType;
  registry_type_from_str : string -> option RegistryType;
  issuance_type_from_str : string -> option IssuanceType;
}.

(** ** Identifiers *)

Definition MAX_ATTRIBUTES_COUNT : nat := 125.

(** [format!] of parts with the delimiter between them *)
Fixpoint delimited (parts : list string) : string :=
  match parts with
  | [] => ""
  | [p] => p
  | p :: parts => (p +:+ String DELIMITER (delimited parts))%string
  end.

Definition schema_id (did name version : string) : string := delimited [did; "2"; name; version]%string.

(** [is_node_1_3] is [ProtocolVersion::is_node_1_3()]. *)
Definition cred_def_id (is_node_1_3 : bool) (did schema_id signature_type tag : string) : string :=
  if is_node_1_3 then delimited [did; "3"; signature_type; schema_id]%string
  else delimited [did; "3"; signature_type; schema_id; tag]%string.

Definition rev_reg_id (did cred_def_id : string) (rev_reg_type : RegistryType) (tag : string) : string :=
  delimited [did; "4"; cred_def_id; RegistryType_to_str rev_reg_type; tag]%string.

(** ** The state *)

(** The callbacks of the definitions whose keys are being made, the wallets and the blobs *)
Record IssuerCommandExecutor (W : Type) := mk_issuer {
  iss_wallets : W;
  iss_blobs : BlobStorageService;
  pending_callbacks : gmap Z Z;
}.
Arguments mk_issuer {W} _ _ _.
Arguments iss_wallets {W} i.
Arguments iss_blobs {W} i.
Arguments pending_callbacks {W} i.

(** What is in the command that waits for the keys of a definition *)
Record CredDefContinue := mk_continue {
  cn_wallet_handle : Z;
  cn_schema : SchemaV1;
  cn_schema_id : string;
  cn_cred_def_id : string;
  cn_tag : string;
  cn_cb_id : Z;
}.

(** A call of a callback, or a command that is sent *)
Inductive IssuerSent :=
| CallBack (cb : Z) (res : IndyErrorKind + string * string)
| CreateCredentialDefinition (attr_names : gset string) (support_revocation : bool) (continue : CredDefContinue).

(** ** [services/anoncreds/issuer.rs] *)

Section issuer_service.
Context `{Machine} `{Sha256} `{Base58} `{BlobPaths} `{HashOrder} `{Unicode} `{CLIssuer}.

Abbreviation Blobs := (StateM IndyErrorKind BlobStorageService).

Definition Issuer_new_credential_definition (random : ClRandom) (attr_names : gset string) (support_revocation : bool) :
    IndyResult (ClPrimaryKey * option ClRevocationKey * ClPrivateKey * ClKeyCorrectness) :=
  credential_schema ← build_credential_schema attr_names;
  non_credential_schema ← build_non_credential_schema;
  '(credential_public_key, credential_private_key, credential_key_correctness_proof) ←
    new_credential_def random credential_schema non_credential_schema support_revocation;
  primary ← get_primary_key credential_public_key;
  revocation ← get_revocation_key credential_public_key;
  Ok (primary, revocation, credential_private_key, credential_key_correctness_proof).

Definition Issuer_new_revocation_registry (random : ClRandom) (cred_def : CredentialDefinition) (max_cred_num : N)
    (issuance_by_default : bool) : IndyResult (ClAccumKey * ClRevPrivate * ClRevReg * TailsGenerator) :=
  credential_pub_key ← build_from_parts (cd_primary cred_def) (cd_revocation cred_def);
  new_revocation_registry_def random credential_pub_key max_cred_num issuance_by_default.

(** The registry is changed in place: it is returned with the signature. *)
Definition Issuer_new_credential (random : ClRandom) (cred_def : CredentialDefinition) (cred_priv_key : ClPrivateKey)
    (cred_issuance_blinding_nonce : ClNonce) (cred_request : CredentialRequest) (cred_values : gmap string AttributeValues)
    (rev_idx : option N) (rev_reg_def : option RevocationRegistryDefinitionV1) (rev_reg : option ClRevReg)
    (rev_key_priv : option ClRevPrivate) (rev_tails_accessor : option Z) :
    Blobs (ClSignature * ClSignatureProof * option ClDelta * option ClRevReg) :=
  credential_values ← lift (build_credential_values cred_values None);
  credential_pub_key ← lift (build_from_parts (cd_primary cred_def) (cd_revocation cred_def));
  match rev_idx with
  | Some rev_idx =>
      rev_reg ← lift (ok_or rev_reg InvalidState);
      rev_key_priv ← lift (ok_or rev_key_priv InvalidState);
      rev_reg_def ← lift (ok_or rev_reg_def InvalidState);
      rev_tails_accessor ← lift (ok_or rev_tails_accessor InvalidState);
      '(signature, correctness_proof, rev_reg_delta, rev_reg) ← run_tails rev_tails_accessor
        (sign_credential_with_revoc random (cq_prover_did cred_request) (cq_blinded_ms cred_request)
          (cq_blinded_ms_correctness_proof cred_request) cred_issuance_blinding_nonce (cq_nonce cred_request) credential_values
          credential_pub_key cred_priv_key rev_idx (rd_max_cred_num rev_reg_def)
          (IssuanceType_to_bool (rd_issuance_type rev_reg_def)) rev_reg rev_key_priv);
      mret (signature, correctness_proof, rev_reg_delta, Some rev_reg)
  | None =>
      '(signature, correctness_proof) ← lift (sign_credential random (cq_prover_did cred_request) (cq_blinded_ms cred_request)
        (cq_blinded_ms_correctness_proof cred_request) cred_issuance_blinding_nonce (cq_nonce cred_request) credential_values
        credential_pub_key cred_priv_key);
      mret (signature, correctness_proof, None, rev_reg)
  end.
End issuer_service.

(** ** The commands *)

Section commands.
Context `{Machine} `{Sha256} `{Base58} `{BlobPaths} `{HashOrder} `{Unicode} `{OptionCodecs} `{CLIssuer} `{!IssuerCodecs}.
Context `{!IndyObject CredentialDefinition} `{!IndyObject CredentialDefinitionPrivateKey}.
Context `{!IndyObject CredentialDefinitionCorrectnessProof} `{!IndyObject RevocationRegistryDefinitionV1}.
Context `{!IndyObject RevocationRegistryV1} `{!IndyObject RevocationRegistryDefinitionPrivate}.
Context `{!IndyObject RevocationRegistryInfo} `{!IndyObject Credential}.
Context {W : Type} `{!IndyWallet W}.

Abbreviation Wallets := (StateM IndyErrorKind W).
Abbreviation Blobs := (StateM IndyErrorKind BlobStorageService).
Abbreviation Issuer := (StateM IndyErrorKind (IssuerCommandExecutor W)).

Definition set_iss_wallets (w : W) (p : IssuerCommandExecutor W) : IssuerCommandExecutor W :=
  mk_issuer w (iss_blobs p) (pending_callbacks p).
Definition set_iss_blobs (b : BlobStorageService) (p : IssuerCommandExecutor W) : IssuerCommandExecutor W :=
  mk_issuer (iss_wallets p) b (pending_callbacks p).
Definition set_pending f (p : IssuerCommandExecutor W) : IssuerCommandExecutor W :=
  mk_issuer (iss_wallets p) (iss_blobs p) (f (pending_callbacks p)).

Definition on_iss_wallets {A} : Wallets A -> Issuer A := within iss_wallets set_iss_wallets.
Definition on_iss_blobs {A} : Blobs A -> Issuer A := within iss_blobs set_iss_blobs.

Definition get_object (T : Type) `{!IndyObject T} (wallet_handle : Z) (name : string) : Issuer T :=
  on_iss_wallets (iw_get_indy_object T wallet_handle name RecordOptions_id_value).

(** An accessor that lives until the end of the function *)
Definition then_drop {A} (tails : Z) (m : Issuer A) : Issuer A := fun p =>
  let '(r, p) := m p in (r, (on_iss_blobs (SDKTailsAccessor_drop tails) p).2).

Definition holding_tails {A} (reader_handle : Z) (rev_reg_def : RevocationRegistryDefinitionV1) (f : Z -> Issuer A) : Issuer A :=
  tails ← on_iss_blobs (SDKTailsAccessor_new reader_handle rev_reg_def);
  then_drop tails (f tails).

(** [a + b] on [u32] *)
Definition u32_add (a b : N) : IndyResult N :=
  if (a + b <? 2 ^ 32)%N then Ok (a + b)%N
  else if overflow_checks then Panic
  else Ok ((a + b) mod 2 ^ 32)%N.

(** *** Schemas and definitions *)

Definition create_schema (issuer_did name version : string) (attrs : gset string) : Issuer (string * string) :=
  _ ← lift (validate_did issuer_did);
  if decide (MAX_ATTRIBUTES_COUNT < size attrs) then fail InvalidStructure
  else
    let schema_id := schema_id issuer_did name version in
    schema_json ← lift (ok_or (schema_to_string (mk_schema schema_id name version attrs None)) InvalidState);
    mret (schema_id, schema_json).

Definition _wallet_set_schema_id (fresh : Fresh) (wallet_handle : Z) (id schema_id : string) : Wallets unit :=
  iw_add_record fresh wallet_handle (add_prefix "SchemaId") id schema_id ∅.

Definition _wallet_get_schema_id (wallet_handle : Z) (key : string) : Wallets string :=
  schema_id_record ← iw_get_record wallet_handle (add_prefix "SchemaId") key RecordOptions_id_value;
  lift (ok_or (wr_value schema_id_record) InvalidStructure).

Definition _prepare_create_and_store_credential_definition (is_node_1_3 : bool) (wallet_handle : Z) (issuer_did : string)
    (schema : SchemaV1) (tag : string) (type_ : option string) (config : option CredentialDefinitionConfig) :
    Issuer (CredentialDefinitionConfig * string * string * SignatureType) :=
  _ ← lift (validate_did issuer_did);
  let cred_def_config := default CredentialDefinitionConfig_default config in
  signature_type ← lift (match type_ with
    | Some type_ => ok_or (signature_type_from_str (quoted type_)) InvalidStructure
    | None => Ok CL_SIGNATURE
    end);
  let schema_id := default (sc_id schema) (pretty <$> seq_no schema) in
  let cred_def_id := cred_def_id is_node_1_3 issuer_did schema_id (SignatureType_to_str signature_type) tag in
  exists_ ← on_iss_wallets (iw_record_exists CredentialDefinition wallet_handle cred_def_id);
  if exists_ : bool then fail CredDefAlreadyExists
  else mret (cred_def_config, schema_id, cred_def_id, signature_type).

Definition create_and_store_credential_definition (is_node_1_3 : bool) (wallet_handle : Z) (issuer_did : string)
    (schema : SchemaV1) (tag : string) (type_ : option string) (config : option CredentialDefinitionConfig) (cb : Z) :
    Issuer IssuerSent :=
  prepared ← attempt (_prepare_create_and_store_credential_definition is_node_1_3 wallet_handle issuer_did schema tag type_ config);
  match prepared with
  | inl err => mret (CallBack cb (inl err))
  | inr (cred_def_config, schema_id, cred_def_id, signature_type) =>
      cb_id ← on_iss_blobs next_blob_handle;
      _ ← modify (set_pending (<[cb_id := cb]>));
      mret (CreateCredentialDefinition (attr_names schema) (support_revocation cred_def_config)
        (mk_continue wallet_handle schema schema_id cred_def_id tag cb_id))
  end.

(** The keys are made by a thread. *)
Definition _create_credential_definition (random : ClRandom) (attr_names : gset string) (support_revocation : bool) :
    IndyResult (ClPrimaryKey * option ClRevocationKey * ClPrivateKey * ClKeyCorrectness) :=
  Issuer_new_credential_definition random attr_names support_revocation.

Definition _complete_create_and_store_credential_definition (fresh : nat -> Fresh) (wallet_handle : Z) (schema : SchemaV1)
    (schema_id cred_def_id tag : string) (res : ClPrimaryKey * option ClRevocationKey * ClPrivateKey * ClKeyCorrectness) :
    Issuer (string * string) :=
  let '(primary, revocation, cred_priv_key, cred_key_correctness_proof) := res in
  let cred_def := mk_cred_def cred_def_id schema_id tag primary revocation in
  cred_def_json ← on_iss_wallets (iw_add_indy_object CredentialDefinition (fresh 0) wallet_handle cred_def_id cred_def ∅);
  _ ← on_iss_wallets (iw_add_indy_object CredentialDefinitionPrivateKey (fresh 1) wallet_handle cred_def_id
    (mk_cred_def_private cred_priv_key) ∅);
  _ ← on_iss_wallets (iw_add_indy_object CredentialDefinitionCorrectnessProof (fresh 2) wallet_handle cred_def_id
    (mk_correctness cred_key_correctness_proof) ∅);
  _ ← on_iss_wallets (_wallet_set_schema_id (fresh 3) wallet_handle cred_def_id (sc_id schema));
  mret (cred_def_id, cred_def_json).

(** The callback must be there. *)
Definition _create_and_store_credential_definition_continue (fresh : nat -> Fresh) (continue : CredDefContinue)
    (result : IndyErrorKind + ClPrimaryKey * option ClRevocationKey * ClPrivateKey * ClKeyCorrectness) : Issuer IssuerSent :=
  callbacks ← gets pending_callbacks;
  _ ← modify (set_pending (delete (cn_cb_id continue)));
  cb ← lift (unwrap (callbacks !! cn_cb_id continue));
  res ← attempt (match result with
    | inr result => _complete_create_and_store_credential_definition fresh (cn_wallet_handle continue) (cn_schema continue)
        (cn_schema_id continue) (cn_cred_def_id continue) (cn_tag continue) result
    | inl err => fail err
    end);
  mret (CallBack cb res).

(** *** Registries *)

Definition create_and_store_revocation_registry (random : ClRandom) (order : list N) (fresh : nat -> Fresh) (wallet_handle : Z)
    (issuer_did : string) (type_ : option string) (tag cred_def_id : string) (config : RevocationRegistryConfig)
    (tails_writer_handle : Z) : Issuer (string * string * string) :=
  rev_reg_type ← lift (match type_ with
    | Some type_ => ok_or (registry_type_from_str (quoted type_)) InvalidStructure
    | None => Ok CL_ACCUM
    end);
  issuance_type ← lift (match rc_issuance_type config with
    | Some type_ => ok_or (issuance_type_from_str (quoted type_)) InvalidStructure
    | None => Ok ISSUANCE_ON_DEMAND
    end);
  let max_cred_num := default 100000%N (rc_max_cred_num config) in
  let rev_reg_id := rev_reg_id issuer_did cred_def_id rev_reg_type tag in
  cred_def ← get_object CredentialDefinition wallet_handle cred_def_id;
  '(revoc_public_keys, revoc_key_private, revoc_registry, revoc_tails_generator) ←
    lift (Issuer_new_revocation_registry random cred_def max_cred_num (IssuanceType_to_bool issuance_type));
  '(tails_location, tails_hash) ← on_iss_blobs (store_tails_from_generator order tails_writer_handle revoc_tails_generator);
  let revoc_reg_def := mk_rev_reg_def rev_reg_id tag cred_def_id issuance_type max_cred_num revoc_public_keys tails_hash tails_location in
  revoc_reg_def_json ← on_iss_wallets
    (iw_add_indy_object RevocationRegistryDefinitionV1 (fresh 0) wallet_handle rev_reg_id revoc_reg_def ∅);
  revoc_reg_json ← on_iss_wallets
    (iw_add_indy_object RevocationRegistryV1 (fresh 1) wallet_handle rev_reg_id (mk_rev_reg revoc_registry) ∅);
  _ ← on_iss_wallets (iw_add_indy_object RevocationRegistryDefinitionPrivate (fresh 2) wallet_handle rev_reg_id
    (mk_registry_private revoc_key_private) ∅);
  _ ← on_iss_wallets (iw_add_indy_object RevocationRegistryInfo (fresh 3) wallet_handle rev_reg_id
    (mk_registry_info rev_reg_id 0 ∅) ∅);
  mret (rev_reg_id, revoc_reg_def_json, revoc_reg_json).

(** *** Credentials *)

(** What is read of the registry of a credential, with the accessor of its tails *)
Record RevocationParts := mk_revocation_parts {
  rp_def : RevocationRegistryDefinitionV1;
  rp_reg : RevocationRegistryV1;
  rp_priv : RevocationRegistryDefinitionPrivate;
  rp_tails : Z;
  rp_info : RevocationRegistryInfo;
}.

Definition create_credential_offer (new_nonce : IndyResult ClNonce) (wallet_handle : Z) (cred_def_id : string) : Issuer string :=
  cred_def_correctness_proof ← get_object CredentialDefinitionCorrectnessProof wallet_handle cred_def_id;
  nonce ← lift new_nonce;
  schema_id ← on_iss_wallets (_wallet_get_schema_id wallet_handle cred_def_id);
  lift (ok_or (offer_to_string (mk_offer schema_id cred_def_id (cc_value cred_def_correctness_proof) nonce)) InvalidState).

(** The entry of the credential in the registry: the next index, marked as used when
    credentials are issued on demand. *)
Definition next_entry (rev_reg_def : RevocationRegistryDefinitionV1) (rev_reg_info : RevocationRegistryInfo) :
    IndyResult RevocationRegistryInfo :=
  curr_id ← u32_add 1 (curr_id rev_reg_info);
  if (rd_max_cred_num rev_reg_def <? curr_id)%N then Err RevocationRegistryFull
  else Ok (mk_registry_info (rr_id rev_reg_info) curr_id
    (if decide (rd_issuance_type rev_reg_def = ISSUANCE_ON_DEMAND) then {[curr_id]} ∪ used_ids rev_reg_info
     else used_ids rev_reg_info)).

(** The indices that were issued and revoked since the registry was made *)
Definition issued_and_revoked (issuance_type : IssuanceType) (info : RevocationRegistryInfo) : gset N * gset N :=
  match issuance_type with
  | ISSUANCE_ON_DEMAND => (used_ids info, ∅)
  | ISSUANCE_BY_DEFAULT => (∅, used_ids info)
  end.

Definition store_registry (fresh : nat -> Fresh) (wallet_handle : Z) (rev_reg_id : string) (rev_reg : RevocationRegistryV1)
    (rev_reg_info : RevocationRegistryInfo) : Issuer unit :=
  _ ← on_iss_wallets (iw_update_indy_object RevocationRegistryV1 (fresh 0) wallet_handle rev_reg_id rev_reg);
  _ ← on_iss_wallets (iw_update_indy_object RevocationRegistryInfo (fresh 1) wallet_handle rev_reg_id rev_reg_info);
  mret tt.

(** The rest of [new_credential], when everything was read *)
Definition sign_and_store (random : ClRandom) (fresh : nat -> Fresh) (wallet_handle : Z) (cred_offer : CredentialOffer)
    (cred_request : CredentialRequest) (cred_values : gmap string AttributeValues) (rev_reg_id : option string)
    (cred_def : CredentialDefinition) (cred_def_priv_key : CredentialDefinitionPrivateKey) (schema_id : string)
    (parts : option RevocationParts) : Issuer (string * option string * option string) :=
  '(credential_signature, signature_correctness_proof, rev_reg_delta, rev_reg) ← on_iss_blobs
    (Issuer_new_credential random cred_def (cp_value cred_def_priv_key) (of_nonce cred_offer) cred_request cred_values
      ((fun p => curr_id (rp_info p)) <$> parts) (rp_def <$> parts) ((fun p => rv_value (rp_reg p)) <$> parts)
      ((fun p => rp_value (rp_priv p)) <$> parts) (rp_tails <$> parts));
  witness ← (match parts, rev_reg with
    | Some p, Some r_reg =>
        let '(issued, revoked) := issued_and_revoked (rd_issuance_type (rp_def p)) (rp_info p) in
        let rev_reg_delta := delta_from_parts None r_reg issued revoked in
        witness ← on_iss_blobs (run_tails (rp_tails p) (witness_new (curr_id (rp_info p)) (rd_max_cred_num (rp_def p))
          (IssuanceType_to_bool (rd_issuance_type (rp_def p))) rev_reg_delta));
        mret (Some witness)
    | _, _ => mret None
    end);
  let credential := mk_credential schema_id (cq_cred_def_id cred_request) rev_reg_id cred_values credential_signature
    signature_correctness_proof rev_reg witness in
  cred_json ← lift (ok_or (object_to_string credential) InvalidState);
  rev_reg_delta_json ← lift (match rev_reg_delta with
    | Some delta => json ← ok_or (delta_to_string delta) InvalidState; Ok (Some json)
    | None => Ok None
    end);
  _ ← (match rev_reg, rev_reg_id, parts with
    | Some r_reg, Some r_reg_id, Some p => store_registry fresh wallet_handle r_reg_id (mk_rev_reg r_reg) (rp_info p)
    | _, _, _ => mret tt
    end);
  mret (cred_json, (fun p => pretty (curr_id (rp_info p))) <$> parts, rev_reg_delta_json).

Definition new_credential (random : ClRandom) (fresh : nat -> Fresh) (wallet_handle : Z) (cred_offer : CredentialOffer)
    (cred_request : CredentialRequest) (cred_values : gmap string AttributeValues) (rev_reg_id : option string)
    (blob_storage_reader_handle : option Z) : Issuer (string * option string * option string) :=
  cred_def ← get_object CredentialDefinition wallet_handle (of_cred_def_id cred_offer);
  cred_def_priv_key ← get_object CredentialDefinitionPrivateKey wallet_handle (cq_cred_def_id cred_request);
  schema_id ← on_iss_wallets (_wallet_get_schema_id wallet_handle (of_cred_def_id cred_offer));
  let finish := sign_and_store random fresh wallet_handle cred_offer cred_request cred_values rev_reg_id cred_def
    cred_def_priv_key schema_id in
  match rev_reg_id with
  | Some r_reg_id =>
      rev_reg_def ← get_object RevocationRegistryDefinitionV1 wallet_handle r_reg_id;
      rev_reg ← get_object RevocationRegistryV1 wallet_handle r_reg_id;
      rev_key_priv ← get_object RevocationRegistryDefinitionPrivate wallet_handle r_reg_id;
      rev_reg_info ← get_object RevocationRegistryInfo wallet_handle r_reg_id;
      rev_reg_info ← lift (next_entry rev_reg_def rev_reg_info);
      reader_handle ← lift (ok_or blob_storage_reader_handle InvalidStructure);
      holding_tails reader_handle rev_reg_def (fun tails =>
        finish (Some (mk_revocation_parts rev_reg_def rev_reg rev_key_priv tails rev_reg_info)))
  | None => finish None
  end.

(** *** Revoking and recovering *)

(** [HashSet::insert] and [HashSet::remove], when they return true *)
Definition set_insert (id : N) (ids : gset N) : option (gset N) := if decide (id ∈ ids) then None else Some ({[id]} ∪ ids).
Definition set_remove (id : N) (ids : gset N) : option (gset N) := if decide (id ∈ ids) then Some (ids ∖ {[id]}) else None.

(** The two commands differ in what they do to the set of indices and in the function of
    the cryptography. *)
Definition change_credential (mark : IssuanceType -> N -> gset N -> option (gset N))
    (change : ClRevReg -> N -> N -> TailsUse (ClDelta * ClRevReg)) (fresh : nat -> Fresh) (wallet_handle : Z)
    (blob_storage_reader_handle : Z) (rev_reg_id cred_revoc_id : string) : Issuer string :=
  cred_revoc_id ← lift (parse_cred_rev_id cred_revoc_id);
  revocation_registry_definition ← get_object RevocationRegistryDefinitionV1 wallet_handle rev_reg_id;
  rev_reg ← get_object RevocationRegistryV1 wallet_handle rev_reg_id;
  holding_tails blob_storage_reader_handle revocation_registry_definition (fun tails =>
    bound ← lift (u32_add (rd_max_cred_num revocation_registry_definition) 1);
    if (bound <? cred_revoc_id)%N then fail InvalidUserRevocId
    else
      rev_reg_info ← get_object RevocationRegistryInfo wallet_handle rev_reg_id;
      ids ← lift (ok_or (mark (rd_issuance_type revocation_registry_definition) cred_revoc_id (used_ids rev_reg_info)) InvalidUserRevocId);
      '(rev_reg_delta, rev_reg) ← on_iss_blobs (run_tails tails
        (change (rv_value rev_reg) (rd_max_cred_num revocation_registry_definition) cred_revoc_id));
      rev_reg_delta_json ← lift (ok_or (delta_to_string rev_reg_delta) InvalidState);
      _ ← store_registry fresh wallet_handle rev_reg_id (mk_rev_reg rev_reg)
        (mk_registry_info (rr_id rev_reg_info) (curr_id rev_reg_info) ids);
      mret rev_reg_delta_json).

Definition revoked_ids (issuance_type : IssuanceType) : N -> gset N -> option (gset N) :=
  match issuance_type with ISSUANCE_ON_DEMAND => set_remove | ISSUANCE_BY_DEFAULT => set_insert end.
Definition recovered_ids (issuance_type : IssuanceType) : N -> gset N -> option (gset N) :=
  match issuance_type with ISSUANCE_ON_DEMAND => set_insert | ISSUANCE_BY_DEFAULT => set_remove end.

Definition revoke_credential := change_credential revoked_ids cl_revoke_credential.
Definition recovery_credential := change_credential recovered_ids cl_recovery_credential.

Definition merge_revocation_registry_deltas (rev_reg_delta other_rev_reg_delta : ClDelta) : Issuer string :=
  merged ← lift (delta_merge rev_reg_delta other_rev_reg_delta);
  lift (ok_or (delta_to_string merged) InvalidState).
End commands.
