(* ===== verification/ToyIssuer.v ===== *)
(** * ToyIssuer: a toy cryptography for the issuer

    Instances of the classes of [IssuerCommands.v] to run its commands on: registries that are
    the list of what happened to them, with the texts of [ToyTexts.v]. *)

From Stdlib Require Import Strings.Ascii Strings.Byte.
From stdpp Require Import gmap.
From S2P Require Import Prelude Errors Hashing Json Wql PoolTypes Encryption QueryEncryption WqlToSql Storage SqliteStorage SqliteFacts Wallet Stream WalletService WalletServiceFacts IndyWallet ToyTexts Anoncreds AnoncredsFacts ProverCommands BlobStorage Tails TailsFacts Revocation IssuerCommands.

Module ToyIssuer.
Local Open Scope string_scope.

(** ** Cryptography *)

#[export] Existing Instances ToyCL.types ToyCL.cl ToyCL.lower ToySha.sha ToyPool.machine ToyPool.order ToyPool.base58 ToyTails.lib ToyTails.paths.

#[export] Instance blinding : CLBlinding := {|
  ClKeyCorrectness := N; ClBlinded := unit; ClBlindedProof := unit;
  blind_credential_secrets := fun _ _ _ _ => Ok (tt, tt, tt);
  extract_index := fun _ => Some 5%N;
|}.

#[export] Instance revocation : @CLRevocation ToyTails.lib ToyCL.types := {|
  ClDelta := string;
  delta_from_parts := fun _ reg issued revoked => reg;
  delta_merge := fun d d' => Ok (d +:+ d');
  rev_reg_from_delta := fun d => d;
  witness_new := fun i _ _ d => Done (Ok d);
  witness_update := fun i _ d w => Done (Ok (w +:+ d));
|}.

(** What happened to an index; its tail is looked at. *)
Definition happened (what reg : string) (i : N) : TailsUse (string * string) :=
  Access (i - 1) (fun tail => Done (match tail with inr _ => Ok (what +:+ pretty i, reg +:+ what +:+ pretty i) | inl e => Err e end)).

#[export] Instance issuer : @CLIssuer ToyCL.cl blinding ToyTails.lib revocation := {|
  ClRandom := unit; ClPrivateKey := string; ClRevPrivate := string;
  new_credential_def := fun _ _ _ support => Ok (("key", if support : bool then Some "rkey" else None), "secret", 7%N);
  get_primary_key := fun k => Ok k.1;
  get_revocation_key := fun k => Ok k.2;
  new_revocation_registry_def := fun _ _ max _ => Ok ("accum", "private", "", max);
  sign_credential := fun _ _ _ _ _ _ _ _ _ => Ok ("signature", tt);
  sign_credential_with_revoc := fun _ _ _ _ _ _ _ _ _ i _ _ reg _ =>
    Access (i - 1) (fun tail => Done (match tail with
      | inr _ => Ok ("signature", tt, Some ("+" +:+ pretty i), reg +:+ "+" +:+ pretty i)
      | inl e => Err e
      end));
  cl_revoke_credential := fun reg _ i => happened "-" reg i;
  cl_recovery_credential := fun reg _ i => happened "*" reg i;
|}.

#[export] Instance codecs : @IssuerCodecs ToyCL.cl blinding ToyTails.lib revocation :=
  @Build_IssuerCodecs ToyCL.cl blinding ToyTails.lib revocation
    (fun s => Some (sc_id s)) (fun o => Some (of_cred_def_id o)) (fun d => Some d)
    (fun s => if decide (s = quoted "CL") then Some CL_SIGNATURE else None)
    (fun s => if decide (s = quoted "CL_ACCUM") then Some CL_ACCUM else None)
    (fun s => if decide (s = quoted "ISSUANCE_BY_DEFAULT") then Some ISSUANCE_BY_DEFAULT
      else if decide (s = quoted "ISSUANCE_ON_DEMAND") then Some ISSUANCE_ON_DEMAND else None).

(** ** Objects *)

#[export] Instance definition_object : IndyObject CredentialDefinition :=
  text_object "CredentialDefinition"
    (fun d : CredentialDefinition => ([cd_id d; cd_schema_id d; cd_tag d; (cd_primary d : string)], (cd_revocation d : option string)))
    (fun '(l, r) => match l with
      | [i; s; t; p] => mk_cred_def i s t (p : ClPrimaryKey) (r : option ClRevocationKey)
      | _ => mk_cred_def "" "" "" ("" : ClPrimaryKey) None
      end).
#[export] Instance definition_laws : ObjectLaws CredentialDefinition.
Proof. apply text_object_laws; [by intros []|reflexivity]. Qed.

#[export] Instance private_object : IndyObject CredentialDefinitionPrivateKey :=
  text_object "CredentialDefinitionPrivateKey" (fun k => cp_value k : string) (fun s => mk_cred_def_private (s : ClPrivateKey)).
#[export] Instance private_laws : ObjectLaws CredentialDefinitionPrivateKey.
Proof. apply text_object_laws; [by intros []|reflexivity]. Qed.

#[export] Instance correctness_object : IndyObject CredentialDefinitionCorrectnessProof :=
  text_object "CredentialDefinitionCorrectnessProof" (fun k => cc_value k : N) (fun n => mk_correctness (n : ClKeyCorrectness)).
#[export] Instance correctness_laws : ObjectLaws CredentialDefinitionCorrectnessProof.
Proof. apply text_object_laws; [by intros []|reflexivity]. Qed.

#[export] Instance registry_definition_object : IndyObject RevocationRegistryDefinitionV1 :=
  text_object "RevocationRegistryDefinition"
    (fun d : RevocationRegistryDefinitionV1 =>
      ([rd_id d; rd_tag d; rd_cred_def_id d; (rd_accum_key d : string); rd_tails_hash d; rd_tails_location d],
       (IssuanceType_to_bool (rd_issuance_type d), rd_max_cred_num d)))
    (fun '(l, (b, m)) => let it := if b : bool then ISSUANCE_BY_DEFAULT else ISSUANCE_ON_DEMAND in match l with
      | [i; t; c; a; h; l] => mk_rev_reg_def i t c it m (a : ClAccumKey) h l
      | _ => mk_rev_reg_def "" "" "" it m ("" : ClAccumKey) "" ""
      end).
#[export] Instance registry_definition_laws : ObjectLaws RevocationRegistryDefinitionV1.
Proof. apply text_object_laws; [by intros [? ? ? []]|reflexivity]. Qed.

#[export] Instance registry_object : IndyObject RevocationRegistryV1 :=
  text_object "RevocationRegistry" (fun r => rv_value r : string) (fun s => mk_rev_reg (s : ClRevReg)).
#[export] Instance registry_laws : ObjectLaws RevocationRegistryV1.
Proof. apply text_object_laws; [by intros []|reflexivity]. Qed.

#[export] Instance registry_private_object : IndyObject RevocationRegistryDefinitionPrivate :=
  text_object "RevocationRegistryDefinitionPrivate" (fun r => rp_value r : string) (fun s => mk_registry_private (s : ClRevPrivate)).
#[export] Instance registry_private_laws : ObjectLaws RevocationRegistryDefinitionPrivate.
Proof. apply text_object_laws; [by intros []|reflexivity]. Qed.

#[export] Instance info_object : IndyObject RevocationRegistryInfo :=
  text_object "RevocationRegistryInfo" (fun i => (rr_id i, curr_id i, used_ids i)) (fun '(i, c, u) => mk_registry_info i c u).
#[export] Instance info_laws : ObjectLaws RevocationRegistryInfo.
Proof. apply text_object_laws; [by intros []|reflexivity]. Qed.

#[export] Instance credential_object : IndyObject Credential :=
  {| short_type_name := "Credential"; object_to_string := fun _ => Some "credential"; object_from_str := fun _ => None |}.

(** ** A wallet with a definition, and the commands on it *)

#[export] Existing Instance toy_options.

Definition random : ClRandom := tt.
Definition generator (max : N) : TailsGenerator := max.
Definition accum : ClAccumKey := "accum".
Definition private : ClRevPrivate := "private".
Definition empty_registry : ClRevReg := "".

Definition fresh : nat -> Fresh := fun _ => mk_fresh (toy_key Byte.x09) (toy_nonce Byte.x01) (toy_nonce Byte.x02).
Definition definition : CredentialDefinition := mk_cred_def "cd" "schema" "tag" ("key" : ClPrimaryKey) (Some ("rkey" : ClRevocationKey)).
Definition text_of (T : Type) `{!IndyObject T} (x : T) : string := default "" (object_to_string x).

Definition records : WalletMap :=
  {[(type_of CredentialDefinition, "cd") := (text_of CredentialDefinition definition, ∅);
    (type_of CredentialDefinitionPrivateKey, "cd") := (text_of CredentialDefinitionPrivateKey (mk_cred_def_private ("secret" : ClPrivateKey)), ∅);
    (type_of CredentialDefinitionCorrectnessProof, "cd") := (text_of CredentialDefinitionCorrectnessProof (mk_correctness (7%N : ClKeyCorrectness)), ∅);
    (add_prefix "SchemaId", "cd") := ("did:2:person:1.0", ∅)]}.

Definition start : IssuerCommandExecutor WalletMap := mk_issuer records ToyTails.service ∅.

Definition offer : CredentialOffer := mk_offer "did:2:person:1.0" "cd" (7%N : ClKeyCorrectness) (5%N : ClNonce).
Definition request : CredentialRequest := mk_credential_request "prover" "cd" (tt : ClBlinded) (tt : ClBlindedProof) (5%N : ClNonce).

Definition making (issuance_type : option string) (max : N) : StateM IndyErrorKind (IssuerCommandExecutor WalletMap) (string * string * string) :=
  create_and_store_revocation_registry random (reverse (tail_indices (generator max))) fresh 7 "did" None "r" "cd"
    (mk_registry_config issuance_type (Some max)) 1.
Definition registry : string := "did:4:cd:CL_ACCUM:r".
Definition issuing : StateM IndyErrorKind (IssuerCommandExecutor WalletMap) (string * option string * option string) :=
  new_credential random fresh 7 offer request ∅ (Some registry) (Some 2%Z).
End ToyIssuer.
