(* ===== verification/RegistryFacts.v ===== *)
(** * RegistryFacts: the entries of a revocation registry

    Theorems on the commands of [IssuerCommands.v] over the map of a wallet's records: a
    registry is a counter and a set of active credentials that issuing, revoking and
    recovering change as their names say, all or nothing; an index is issued once; a new
    registry is empty and its tails are read back; identifiers are taken apart again. *)

From stdpp Require Import gmap.
From S2P Require Import Prelude Errors Hashing Json Wql PoolTypes Encryption QueryEncryption WqlToSql Storage Wallet Stream WalletService WalletServiceFacts IndyWallet Anoncreds AnoncredsFacts ProverCommands BlobStorage Tails TailsFacts Revocation IssuerCommands ToyIssuer.

(** ** What a registry is to its users *)

(** How many indices were issued, and which credentials are active: not revoked, or, when
    credentials are issued by default, not revoked since the registry was made. *)
Record RegistryState := mk_registry_state { issued : N; active : gset N }.

Definition all_ids (max_cred_num : N) : gset N := list_to_set (N.of_nat <$> seq 0 (N.to_nat max_cred_num + 2)).

Lemma elem_of_all_ids max i : i ∈ all_ids max <-> (i <= max + 1)%N.
Proof.
  unfold all_ids. rewrite elem_of_list_to_set, list_elem_of_fmap. split.
  - intros (k & -> & Hk%elem_of_seq). lia.
  - intros Hi. exists (N.to_nat i). split; [lia|]. apply elem_of_seq. lia.
Qed.

Definition state_of (issuance_type : IssuanceType) (max : N) (info : RevocationRegistryInfo) : RegistryState :=
  mk_registry_state (curr_id info)
    (match issuance_type with ISSUANCE_ON_DEMAND => used_ids info | ISSUANCE_BY_DEFAULT => all_ids max ∖ used_ids info end).

Definition spec_issue (issuance_type : IssuanceType) (max : N) (s : RegistryState) : option RegistryState :=
  if decide (issued s + 1 <= max)%N then
    Some (mk_registry_state (issued s + 1)%N
      (match issuance_type with ISSUANCE_ON_DEMAND => {[(issued s + 1)%N]} ∪ active s | ISSUANCE_BY_DEFAULT => active s end))
  else None.

Definition spec_revoke (max i : N) (s : RegistryState) : option RegistryState :=
  if decide (i <= max + 1 /\ i ∈ active s)%N then Some (mk_registry_state (issued s) (active s ∖ {[i]})) else None.

Definition spec_recover (max i : N) (s : RegistryState) : option RegistryState :=
  if decide (i <= max + 1 /\ i ∉ active s)%N then Some (mk_registry_state (issued s) ({[i]} ∪ active s)) else None.

(** The two sets of indices that the code keeps are one set of active credentials. *)
Lemma revoked_active issuance_type max i info ids : (i <= max + 1)%N -> revoked_ids issuance_type i (used_ids info) = Some ids ->
  spec_revoke max i (state_of issuance_type max info) =
  Some (state_of issuance_type max (mk_registry_info (rr_id info) (curr_id info) ids)).
Proof.
  intros Hi. unfold spec_revoke, state_of. destruct issuance_type; cbn [revoked_ids active issued curr_id used_ids].
  - unfold set_insert. case_decide as Hin; [done|]. intros [= <-]. rewrite decide_True by (rewrite elem_of_difference, elem_of_all_ids; done).
    do 2 f_equal. set_solver.
  - unfold set_remove. case_decide as Hin; [|done]. intros [= <-]. by rewrite decide_True.
Qed.

Lemma not_revoked issuance_type max i info : (i <= max + 1)%N -> revoked_ids issuance_type i (used_ids info) = None ->
  spec_revoke max i (state_of issuance_type max info) = None.
Proof.
  intros Hi. unfold spec_revoke, state_of. destruct issuance_type; cbn [revoked_ids active issued curr_id used_ids].
  - unfold set_insert. case_decide as Hin; [|done]. intros _. rewrite decide_False; [done|]. rewrite elem_of_difference. tauto.
  - unfold set_remove. case_decide as Hin; [done|]. intros _. rewrite decide_False by tauto. done.
Qed.

Lemma recovered_active issuance_type max i info ids : (i <= max + 1)%N -> recovered_ids issuance_type i (used_ids info) = Some ids ->
  spec_recover max i (state_of issuance_type max info) =
  Some (state_of issuance_type max (mk_registry_info (rr_id info) (curr_id info) ids)).
Proof.
  intros Hi. unfold spec_recover, state_of. destruct issuance_type; cbn [recovered_ids active issued curr_id used_ids].
  - unfold set_remove. case_decide as Hin; [|done]. intros [= <-]. rewrite decide_True by (split; [done|set_solver]).
    do 2 f_equal. apply set_eq. intros j. rewrite elem_of_union, elem_of_singleton, !elem_of_difference, elem_of_singleton, elem_of_all_ids.
    destruct (decide (j = i)) as [->|]; tauto.
  - unfold set_insert. case_decide as Hin; [done|]. intros [= <-]. by rewrite decide_True.
Qed.

Lemma not_recovered issuance_type max i info : (i <= max + 1)%N -> recovered_ids issuance_type i (used_ids info) = None ->
  spec_recover max i (state_of issuance_type max info) = None.
Proof.
  intros Hi. unfold spec_recover, state_of. destruct issuance_type; cbn [recovered_ids active issued curr_id used_ids].
  - unfold set_remove. case_decide as Hin; [done|]. intros _. rewrite decide_False; [done|].
    rewrite elem_of_difference, elem_of_all_ids. tauto.
  - unfold set_insert. case_decide as Hin; [|done]. intros _. rewrite decide_False by tauto. done.
Qed.

(** ** Commands over a map of records *)

Section commands.
Context `{Machine} `{Sha256} `{Base58} `{BlobPaths} `{HashOrder} `{Unicode} `{OptionCodecs} `{CLIssuer} `{!IssuerCodecs}.
Context `{!IndyObject CredentialDefinition} `{!IndyObject CredentialDefinitionPrivateKey}.
Context `{!IndyObject CredentialDefinitionCorrectnessProof} `{!IndyObject RevocationRegistryDefinitionV1}.
Context `{!IndyObject RevocationRegistryV1} `{!IndyObject RevocationRegistryDefinitionPrivate}.
Context `{!IndyObject RevocationRegistryInfo} `{!IndyObject Credential}.
Context `{!ObjectLaws RevocationRegistryDefinitionV1} `{!ObjectLaws RevocationRegistryV1} `{!ObjectLaws RevocationRegistryInfo}.

Abbreviation Executor := (IssuerCommandExecutor WalletMap).
Abbreviation Issuer := (StateM IndyErrorKind Executor).
Implicit Types (q : Executor) (w : WalletMap) (id : string) (h : Z) (fresh : nat -> Fresh).
Implicit Types (reg : RevocationRegistryV1) (info : RevocationRegistryInfo) (def : RevocationRegistryDefinitionV1).

(** A command that succeeds has the result and the wallet that [Q] says; one that does not
    leaves the wallet as it was. *)
Definition outcome_is {A} (Q : A -> WalletMap -> Prop) (m : Issuer A) q : Prop :=
  match m q with (Ok a, q') => Q a (iss_wallets q') | (_, q') => iss_wallets q' = iss_wallets q end.

(** A computation that does not change the wallet *)
Definition reads {A} (m : Issuer A) : Prop := forall q, iss_wallets (m q).2 = iss_wallets q.

Lemma reads_lift {A} (a : IndyResult A) : reads (lift a).
Proof. done. Qed.

Lemma reads_blobs {A} (m : StateM IndyErrorKind BlobStorageService A) : reads (on_iss_blobs m).
Proof. intros q. unfold on_iss_blobs, within. by destruct (m (iss_blobs q)). Qed.

Lemma outcome_ret {A} (Q : A -> WalletMap -> Prop) a q : Q a (iss_wallets q) -> outcome_is Q (mret a) q.
Proof. done. Qed.

Lemma outcome_fails {A} (Q : A -> WalletMap -> Prop) e q : outcome_is Q (fail e) q.
Proof. done. Qed.

Lemma outcome_bind {A B : Type} (Q : B -> WalletMap -> Prop) (m : Issuer A) (f : A -> Issuer B) q : reads m ->
  (forall a q', (m q).1 = Ok a -> iss_wallets q' = iss_wallets q -> outcome_is Q (f a) q') -> outcome_is Q (m ≫= f) q.
Proof.
  intros Hm Hf. specialize (Hm q). unfold outcome_is. rewrite bind_run. destruct (m q) as [[a|e| |] q']; cbn [snd] in *; [|done..].
  specialize (Hf a q' eq_refl Hm). unfold outcome_is in Hf. destruct (f a q') as [[b|e| |] q'']; [done|congruence..].
Qed.

Lemma outcome_lift {A B : Type} (Q : B -> WalletMap -> Prop) (a : IndyResult A) (f : A -> Issuer B) q :
  (forall x, a = Ok x -> outcome_is Q (f x) q) -> outcome_is Q (lift a ≫= f) q.
Proof. intros Hf. unfold outcome_is. rewrite bind_run. unfold lift. destruct a; [by apply Hf|done..]. Qed.

Lemma get_object_result (T : Type) `{!IndyObject T} (h : Z) (name : string) q : (get_object T h name q).2 = q /\
  forall object, (get_object T h name q).1 = Ok object -> object_at T (iss_wallets q) name = Some object.
Proof.
  unfold get_object, on_iss_wallets, within. pose proof (map_get_object_pure T h name RecordOptions_id_value (iss_wallets q)) as Hpure.
  assert (forall object, (iw_get_indy_object T h name RecordOptions_id_value (iss_wallets q)).1 = Ok object ->
    object_at T (iss_wallets q) name = Some object) as Hget.
  { intros object. cbn [iw_get_indy_object map_wallet]. unfold spec_get_indy_object. rewrite bind_run, wspec_get_run.
    destruct (parse_record_options RecordOptions_id_value) as [opts|e| |]; [|done..]. unfold wspec_at, object_at.
    destruct (iss_wallets q !! (type_of T, name)) as [x|]; [|done]. rewrite bind_run. unfold lift, wallet_record. cbn.
    destruct (retrieve_value opts); [|done]. cbn. by intros ?%ok_or_Ok. }
  destruct (iw_get_indy_object T h name RecordOptions_id_value (iss_wallets q)) as [r w]; cbn [fst snd] in *. subst w.
  split; [by destruct q|exact Hget].
Qed.

Lemma outcome_object {B} (T : Type) `{!IndyObject T} (Q : B -> WalletMap -> Prop) (h : Z) (name : string) (f : T -> Issuer B) q :
  (forall object, object_at T (iss_wallets q) name = Some object -> outcome_is Q (f object) q) ->
  outcome_is Q (get_object T h name ≫= f) q.
Proof.
  intros Hf. destruct (get_object_result T h name q) as [Hq Hob]. unfold outcome_is. rewrite bind_run.
  destruct (get_object T h name q) as [[a|e| |] q']; cbn [fst snd] in *; subst; [|done..]. by apply Hf, Hob.
Qed.

Lemma outcome_holding {A : Type} (Q : A -> WalletMap -> Prop) (reader : Z) (def : RevocationRegistryDefinitionV1) (f : Z -> Issuer A) q :
  (forall tails q', iss_wallets q' = iss_wallets q -> outcome_is Q (f tails) q') -> outcome_is Q (holding_tails reader def f) q.
Proof.
  intros Hf. apply outcome_bind; [apply reads_blobs|]. intros tails q' _ Hq'. specialize (Hf tails q' Hq'). revert Hf.
  unfold outcome_is, then_drop. destruct (f tails q') as [r q'']. rewrite (reads_blobs (SDKTailsAccessor_drop tails)).
  destruct r; congruence.
Qed.

(** ** The registry in the wallet *)

(** The records of a registry, by their names; it has not issued more than it may. *)
Definition registry_of w id def reg info : Prop :=
  object_at RevocationRegistryDefinitionV1 w id = Some def /\ object_at RevocationRegistryV1 w id = Some reg /\
  object_at RevocationRegistryInfo w id = Some info /\ (curr_id info <= rd_max_cred_num def)%N.

(** The names of the types are different, and registries can be printed. *)
Class RegistryTypes : Prop := {
  types_differ : NoDup [type_of RevocationRegistryDefinitionV1; type_of RevocationRegistryV1; type_of RevocationRegistryInfo;
    type_of RevocationRegistryDefinitionPrivate];
  registry_printable : forall reg : RevocationRegistryV1, is_Some (object_to_string reg);
  info_printable : forall info : RevocationRegistryInfo, is_Some (object_to_string info);
}.
Context `{!RegistryTypes}.

(** The other records *)
Definition same_but_registry (id : string) w w' : Prop := forall t n,
  (n = id -> t <> type_of RevocationRegistryV1 /\ t <> type_of RevocationRegistryInfo) -> w' !! (t, n) = w !! (t, n).

Lemma outcome_store {B : Type} (Q : B -> WalletMap -> Prop) fresh (h : Z) (id : string) reg' info' (f : unit -> Issuer B) q def reg info :
  registry_of (iss_wallets q) id def reg info -> (curr_id info' <= rd_max_cred_num def)%N ->
  (forall q', registry_of (iss_wallets q') id def reg' info' -> same_but_registry id (iss_wallets q) (iss_wallets q') ->
    exists b, f tt q' = (Ok b, q') /\ Q b (iss_wallets q')) ->
  outcome_is Q (store_registry fresh h id reg' info' ≫= f) q.
Proof.
  intros (Hdef & Hreg & Hinfo & _) Hle Hf. destruct (registry_printable reg') as [json Hj], (info_printable info') as [json' Hj'].
  pose proof types_differ as Hnd. rewrite !NoDup_cons, !not_elem_of_cons in Hnd. destruct Hnd as ((Hdr & Hdi & _) & (Hri & _) & _).
  unfold object_at in Hreg, Hinfo. destruct (iss_wallets q !! (type_of RevocationRegistryV1, id)) as [x|] eqn:Hx; [|done].
  destruct (iss_wallets q !! (type_of RevocationRegistryInfo, id)) as [y|] eqn:Hy; [|done].
  set (w1 := <[(type_of RevocationRegistryV1, id) := (json, x.2)]> (iss_wallets q)).
  set (w2 := <[(type_of RevocationRegistryInfo, id) := (json', y.2)]> w1).
  assert (store_registry fresh h id reg' info' q = (Ok tt, set_iss_wallets w2 q)) as Hrun.
  { unfold store_registry. rewrite bind_run. unfold on_iss_wallets, within.
    rewrite (map_update_object RevocationRegistryV1 _ h id (iss_wallets q) reg' json x Hj Hx). rewrite bind_run. cbn [iss_wallets set_iss_wallets].
    fold w1. by rewrite (map_update_object RevocationRegistryInfo _ h id w1 info' json' y Hj') by (unfold w1; by rewrite lookup_insert_ne by congruence). }
  destruct (Hf (set_iss_wallets w2 q)) as (b & Hb & HQ).
  - cbn [iss_wallets set_iss_wallets]. unfold registry_of, object_at, w2, w1. split_and!.
    + by rewrite !lookup_insert_ne by congruence.
    + rewrite lookup_insert_ne, lookup_insert_eq by congruence. cbn. by apply object_roundtrip.
    + rewrite lookup_insert_eq. cbn. by apply object_roundtrip.
    + done.
  - intros t n Ht. cbn [iss_wallets set_iss_wallets]. unfold w2, w1.
    destruct (decide (n = id)) as [->|]; [destruct (Ht eq_refl)|]; by rewrite !lookup_insert_ne by congruence.
  - unfold outcome_is. by rewrite bind_run, Hrun, Hb.
Qed.

(** A command on a registry succeeds only when the registry allows it, and then does what
    [spec] says to the registry and nothing to the other records; otherwise it leaves all
    records alone. *)
Definition changes_registry {A : Type} (id : string) (def : RevocationRegistryDefinitionV1) (spec : RegistryState -> option RegistryState) (out : A -> RegistryState -> Prop) (m : Issuer A) : Prop :=
  forall q reg info, registry_of (iss_wallets q) id def reg info -> outcome_is (fun a w' => exists s' reg' info',
    let state := state_of (rd_issuance_type def) (rd_max_cred_num def) in
    spec (state info) = Some s' /\ registry_of w' id def reg' info' /\ state info' = s' /\
    same_but_registry id (iss_wallets q) w' /\ out a s') m q.

Definition for_index (text : string) (spec : N -> RegistryState -> option RegistryState) (s : RegistryState) : option RegistryState :=
  match parse_cred_rev_id text with Ok i => spec i s | _ => None end.

(** Revoking and recovering, when the set of the code stands for the active credentials *)
Lemma change_registry (mark : IssuanceType -> N -> gset N -> option (gset N)) change (spec : N -> N -> RegistryState -> option RegistryState)
    id def fresh h reader text : (rd_max_cred_num def + 1 < 2 ^ 32)%N ->
  (forall issuance_type max i info ids, (i <= max + 1)%N -> mark issuance_type i (used_ids info) = Some ids ->
    spec max i (state_of issuance_type max info) = Some (state_of issuance_type max (mk_registry_info (rr_id info) (curr_id info) ids))) ->
  changes_registry id def (for_index text (spec (rd_max_cred_num def))) (fun _ _ => True)
    (change_credential mark change fresh h reader id text).
Proof.
  intros Hmax Hmark q reg info (Hdef & Hreg & Hinfo & Hcurr). unfold change_credential.
  apply outcome_lift. intros i Hi. apply outcome_object. rewrite Hdef. intros ? [= <-].
  apply outcome_object. rewrite Hreg. intros ? [= <-]. apply outcome_holding. intros tails q1 Hq1.
  apply outcome_lift. intros bound Hbound. unfold u32_add in Hbound. rewrite (proj2 (N.ltb_lt _ _)) in Hbound by done. injection Hbound as <-.
  destruct (N.ltb_spec (rd_max_cred_num def + 1) i) as [|Hle]; [done|]. apply outcome_object. rewrite Hq1, Hinfo. intros ? [= <-].
  apply outcome_lift. intros ids Hids%ok_or_Ok. apply outcome_bind; [apply reads_blobs|]. intros [delta reg'] q2 _ Hq2.
  apply outcome_lift. intros json _. eapply outcome_store; [by rewrite Hq2, Hq1|exact Hcurr|]. intros q' Hq' Hsame.
  eexists. split; [done|]. eexists _, _, _. split_and!; [|exact Hq'|done| |done].
  - unfold for_index. rewrite Hi. by apply Hmark.
  - by rewrite <-Hq1, <-Hq2.
Qed.

Lemma next_entry_spec def info info' : (rd_max_cred_num def + 1 < 2 ^ 32)%N -> (curr_id info <= rd_max_cred_num def)%N ->
  next_entry def info = Ok info' -> rr_id info' = rr_id info /\ curr_id info' = (curr_id info + 1)%N /\
  spec_issue (rd_issuance_type def) (rd_max_cred_num def) (state_of (rd_issuance_type def) (rd_max_cred_num def) info) =
    Some (state_of (rd_issuance_type def) (rd_max_cred_num def) info').
Proof.
  intros Hmax Hle. unfold next_entry, u32_add. rewrite (proj2 (N.ltb_lt _ _)) by lia. intros Hi. apply bind_Ok in Hi as (i & [= <-] & Hi). revert Hi.
  destruct (N.ltb_spec (rd_max_cred_num def) (1 + curr_id info)) as [|Hc]; [done|]. intros [= <-]. cbn [rr_id curr_id].
  split_and!; [done|lia|]. unfold spec_issue, state_of. cbn [issued curr_id]. rewrite decide_True by lia.
  rewrite (N.add_comm 1). do 2 f_equal. by destruct (rd_issuance_type def).
Qed.

Lemma schema_id_reads h (key : string) : reads (on_iss_wallets (_wallet_get_schema_id h key)).
Proof.
  intros q. unfold on_iss_wallets, within, _wallet_get_schema_id. rewrite bind_run. cbn [iw_get_record map_wallet]. rewrite wspec_get_run.
  destruct (parse_record_options RecordOptions_id_value); [|done..]. unfold wspec_at.
  destruct (iss_wallets q !! _) as [x|] eqn:Hx; [|done]. rewrite insert_id by done. unfold lift. by destruct (ok_or _ _).
Qed.

(** A signature for a registry comes with the changed registry. *)
Lemma signed_registry random cred_def key nonce request values i rev_reg_def rev_reg priv tails q signature proof delta rr :
  (on_iss_blobs (Issuer_new_credential random cred_def key nonce request values (Some i) rev_reg_def rev_reg priv tails) q).1 =
    Ok (signature, proof, delta, rr) -> is_Some rr.
Proof.
  unfold on_iss_blobs, within. destruct (Issuer_new_credential _ _ _ _ _ _ _ _ _ _ _ (iss_blobs q)) as [r b] eqn:Hrun. cbn [fst]. intros ->.
  unfold Issuer_new_credential in Hrun. apply M_bind_Ok in Hrun as (? & ? & _ & Hrun). apply M_bind_Ok in Hrun as (? & ? & _ & Hrun).
  do 4 (apply M_bind_Ok in Hrun as (? & ? & _ & Hrun)). apply M_bind_Ok in Hrun as ([[[? ?] ?] ?] & ? & _ & Hrun). injection Hrun as <- <- <- <- _. done.
Qed.

Lemma issue_registry random fresh h offer request values id def reader : (rd_max_cred_num def + 1 < 2 ^ 32)%N ->
  changes_registry id def (spec_issue (rd_issuance_type def) (rd_max_cred_num def)) (fun res s' => res.1.2 = Some (pretty (issued s')))
    (new_credential random fresh h offer request values (Some id) reader).
Proof.
  intros Hmax q reg info (Hdef & Hreg & Hinfo & Hcurr). unfold new_credential.
  apply outcome_object. intros cred_def _. apply outcome_object. intros priv _. apply outcome_bind; [apply schema_id_reads|].
  intros schema q1 _ Hq1. apply outcome_object. rewrite Hq1, Hdef. intros ? [= <-]. apply outcome_object. rewrite Hq1, Hreg. intros ? [= <-].
  apply outcome_object. intros rpriv _. apply outcome_object. rewrite Hq1, Hinfo. intros ? [= <-].
  apply outcome_lift. intros info' Hnext. destruct (next_entry_spec def info info' Hmax Hcurr Hnext) as (_ & Hcurr' & Hspec).
  assert (curr_id info' <= rd_max_cred_num def)%N as Hle.
  { unfold spec_issue in Hspec. case_decide as Hd; [|done]. cbn in Hd. lia. }
  apply outcome_lift. intros handle _. apply outcome_holding. intros tails q2 Hq2. unfold sign_and_store. cbn [fmap option_fmap option_map rp_info].
  apply outcome_bind; [apply reads_blobs|]. intros [[[signature proof] delta] rr] q3 [r ->]%signed_registry Hq3. cbn [rp_def rp_info rp_tails].
  destruct (issued_and_revoked _ _) as [iss rev]. apply outcome_bind.
  { intros q4. rewrite bind_run. pose proof (reads_blobs (run_tails tails (witness_new (curr_id info') (rd_max_cred_num def)
      (IssuanceType_to_bool (rd_issuance_type def)) (delta_from_parts None r iss rev))) q4) as Hr.
    by destruct (on_iss_blobs _ q4) as [[?|?| |] ?]. }
  intros witness q4 _ Hq4. apply outcome_lift. intros cred_json _. apply outcome_lift. intros delta_json _.
  eapply outcome_store; [rewrite Hq4, Hq3, Hq2, Hq1; by split_and!|exact Hle|].
  intros q' Hq' Hsame. eexists. split; [done|]. eexists _, _, _. split_and!; [exact Hspec|exact Hq'|done| |done].
  by rewrite <-Hq1, <-Hq2, <-Hq3, <-Hq4.
Qed.

Lemma revoke_registry id def fresh h reader text : (rd_max_cred_num def + 1 < 2 ^ 32)%N ->
  changes_registry id def (for_index text (spec_revoke (rd_max_cred_num def))) (fun _ _ => True) (revoke_credential fresh h reader id text).
Proof. intros Hmax. apply change_registry; [done|]. intros. by apply revoked_active. Qed.

Lemma recover_registry id def fresh h reader text : (rd_max_cred_num def + 1 < 2 ^ 32)%N ->
  changes_registry id def (for_index text (spec_recover (rd_max_cred_num def))) (fun _ _ => True) (recovery_credential fresh h reader id text).
Proof. intros Hmax. apply change_registry; [done|]. intros. by apply recovered_active. Qed.

(** C8: a registry is a counter and a set of active credentials.  A command that succeeds
    was allowed by the registry, and issuing takes the next index, revoking and recovering
    an index up to one more than the registry has; it changes the registry as its name says
    and no other record.  A command that does not succeed changes no record. *)
Theorem registry_commands id def : (rd_max_cred_num def + 1 < 2 ^ 32)%N ->
  (forall random fresh h offer request values reader, changes_registry id def
    (spec_issue (rd_issuance_type def) (rd_max_cred_num def)) (fun res s' => res.1.2 = Some (pretty (issued s')))
    (new_credential random fresh h offer request values (Some id) reader)) /\
  (forall fresh h reader text, changes_registry id def (for_index text (spec_revoke (rd_max_cred_num def))) (fun _ _ => True)
    (revoke_credential fresh h reader id text)) /\
  (forall fresh h reader text, changes_registry id def (for_index text (spec_recover (rd_max_cred_num def))) (fun _ _ => True)
    (recovery_credential fresh h reader id text)).
Proof.
  intros Hmax. split_and!; intros.
  - by apply issue_registry.
  - by apply revoke_registry.
  - by apply recover_registry.
Qed.

(** ** Runs of commands *)

Inductive RegistryCommand :=
| Issue (random : ClRandom) (fresh : nat -> Fresh) (h : Z) (offer : CredentialOffer) (request : CredentialRequest)
    (values : gmap string AttributeValues) (reader : option Z)
| Revoke (fresh : nat -> Fresh) (h reader : Z) (cred_revoc_id : string)
| Recover (fresh : nat -> Fresh) (h reader : Z) (cred_revoc_id : string).

(** The index that a command gave to a credential, and the state after it *)
Definition run_command (id : string) (command : RegistryCommand) q : option string * Executor :=
  match command with
  | Issue random fresh h offer request values reader =>
      let '(r, q') := new_credential random fresh h offer request values (Some id) reader q in
      (match r with Ok res => res.1.2 | _ => None end, q')
  | Revoke fresh h reader text => (None, (revoke_credential fresh h reader id text q).2)
  | Recover fresh h reader text => (None, (recovery_credential fresh h reader id text q).2)
  end.

Fixpoint run_commands (id : string) (commands : list RegistryCommand) q : list string * Executor :=
  match commands with
  | [] => ([], q)
  | command :: commands =>
      let '(index, q) := run_command id command q in
      let '(indices, q) := run_commands id commands q in
      (match index with Some index => index :: indices | None => indices end, q)
  end.

Lemma registry_after {A : Type} id def (spec : RegistryState -> option RegistryState) (out : A -> RegistryState -> Prop) (m : Issuer A) q reg info :
  changes_registry id def spec out m -> registry_of (iss_wallets q) id def reg info ->
  exists reg' info', registry_of (iss_wallets (m q).2) id def reg' info' /\
    let state := state_of (rd_issuance_type def) (rd_max_cred_num def) in
    match (m q).1 with Ok a => spec (state info) = Some (state info') /\ out a (state info') | _ => info' = info end.
Proof.
  intros Hm Hreg. specialize (Hm q reg info Hreg). unfold outcome_is in Hm.
  destruct (m q) as [[a|e| |] q']; cbn [fst snd]; [|rewrite Hm; by exists reg, info..].
  destruct Hm as (s' & reg' & info' & Hspec & Hreg' & <- & _ & Hout). by exists reg', info'.
Qed.

Lemma spec_keeps_issued text (spec : N -> RegistryState -> option RegistryState) s s' : (forall i s1 s2, spec i s1 = Some s2 -> issued s2 = issued s1) ->
  for_index text spec s = Some s' -> issued s' = issued s.
Proof. unfold for_index. destruct (parse_cred_rev_id text); [|done..]. intros Hs. apply Hs. Qed.

(** The registry after a command: an index that was given is the next one. *)
Lemma command_step id def reg info command q : (rd_max_cred_num def + 1 < 2 ^ 32)%N -> registry_of (iss_wallets q) id def reg info ->
  exists reg' info', registry_of (iss_wallets (run_command id command q).2) id def reg' info' /\
    match (run_command id command q).1 with
    | Some index => curr_id info' = (curr_id info + 1)%N /\ index = pretty (curr_id info')
    | None => curr_id info' = curr_id info
    end.
Proof.
  intros Hmax Hreg.
  destruct command as [random fresh h offer request values reader|fresh h reader text|fresh h reader text]; unfold run_command.
  - destruct (registry_after _ _ _ _ _ q reg info (issue_registry random fresh h offer request values id def reader Hmax) Hreg) as (reg' & info' & Hreg' & Hres).
    exists reg', info'. destruct (new_credential _ _ _ _ _ _ _ _ q) as [[res|e| |] q']; cbn [fst snd] in *; [|by subst..].
    destruct Hres as [Hspec ->]. split; [done|]. unfold spec_issue in Hspec. case_decide; [|done].
    injection Hspec as Hc _. split; [cbn in Hc; congruence|done].
  - destruct (registry_after _ _ _ _ _ q reg info (revoke_registry id def fresh h reader text Hmax) Hreg) as (reg' & info' & Hreg' & Hres).
    exists reg', info'. split; [done|]. cbn [fst]. destruct (revoke_credential fresh h reader id text q) as [[a|e| |] q']; cbn [fst snd] in *; [|by subst..].
    apply proj1, spec_keeps_issued in Hres; [done|]. intros i s1 s2. unfold spec_revoke. case_decide; [|done]. by intros [= <-].
  - destruct (registry_after _ _ _ _ _ q reg info (recover_registry id def fresh h reader text Hmax) Hreg) as (reg' & info' & Hreg' & Hres).
    exists reg', info'. split; [done|]. cbn [fst]. destruct (recovery_credential fresh h reader id text q) as [[a|e| |] q']; cbn [fst snd] in *; [|by subst..].
    apply proj1, spec_keeps_issued in Hres; [done|]. intros i s1 s2. unfold spec_recover. case_decide; [|done]. by intros [= <-].
Qed.

(** C9: in any run of commands on a registry, the credentials get the next indices in
    turn: no index is given twice, and none that the registry does not have. *)
Theorem indices_given_once id def commands : (rd_max_cred_num def + 1 < 2 ^ 32)%N -> forall q reg info,
  registry_of (iss_wallets q) id def reg info ->
  let indices := (run_commands id commands q).1 in
  indices = (fun k => pretty (N.of_nat k)) <$> seq (S (N.to_nat (curr_id info))) (length indices) /\ NoDup indices /\
  N.to_nat (curr_id info) + length indices <= N.to_nat (rd_max_cred_num def).
Proof.
  intros Hmax q reg info Hreg indices.
  assert (indices = (fun k => pretty (N.of_nat k)) <$> seq (S (N.to_nat (curr_id info))) (length indices) /\
    N.to_nat (curr_id info) + length indices <= N.to_nat (rd_max_cred_num def)) as [Heq Hle].
  { subst indices. revert q reg info Hreg. induction commands as [|command commands IH]; intros q reg info Hreg.
    - cbn. destruct Hreg as (_ & _ & _ & Hle). split; [done|lia].
    - destruct (command_step id def reg info command q Hmax Hreg) as (reg' & info' & Hreg' & Hres).
      cbn [run_commands]. destruct (run_command id command q) as [index q1]. cbn [fst snd] in *.
      destruct (IH q1 reg' info' Hreg') as [Heq Hle]. destruct (run_commands id commands q1) as [indices q2]. cbn [fst] in *.
      destruct index as [index|].
      + destruct Hres as [Hc ->]. rewrite Hc in *. replace (N.to_nat (curr_id info + 1)) with (S (N.to_nat (curr_id info))) in * by lia.
        cbn [length seq fmap list_fmap]. split; [|lia]. f_equal; [f_equal; lia|exact Heq].
      + by rewrite <-Hres. }
  split; [done|]. split; [|done]. rewrite Heq. apply NoDup_fmap_2; [|apply NoDup_seq].
  intros i j Hij%(inj pretty). lia.
Qed.

(** ** Errors *)

Lemma issuer_object_ok (T : Type) `{!IndyObject T} h (name : string) q (object : T) : values_read -> object_at T (iss_wallets q) name = Some object ->
  get_object T h name q = (Ok object, q).
Proof.
  intros Hv Hob. unfold get_object, on_iss_wallets, within. rewrite (map_get_object T h name (iss_wallets q) object Hv Hob). by destruct q.
Qed.

Lemma schema_id_ok h (name : string) q x : values_read -> iss_wallets q !! (add_prefix "SchemaId", name) = Some x ->
  on_iss_wallets (_wallet_get_schema_id h name) q = (Ok x.1, q).
Proof.
  intros (opts & Hopts & Hv) Hx. unfold on_iss_wallets, within, _wallet_get_schema_id. rewrite bind_run. cbn [iw_get_record map_wallet].
  rewrite wspec_get_run, Hopts. unfold wspec_at. rewrite Hx, insert_id by done. unfold wallet_record, lift. cbn. rewrite Hv. by destruct q.
Qed.

(** What issuing reads, besides the registry *)
Definition can_issue w (offer : CredentialOffer) (request : CredentialRequest) id : Prop :=
  is_Some (object_at CredentialDefinition w (of_cred_def_id offer)) /\
  is_Some (object_at CredentialDefinitionPrivateKey w (cq_cred_def_id request)) /\
  is_Some (w !! (add_prefix "SchemaId", of_cred_def_id offer)) /\ is_Some (object_at RevocationRegistryDefinitionPrivate w id).

(** a registry that has issued as many credentials as it may answers the next with
    [RevocationRegistryFull] and nothing changes; one of the largest size that a [u32]
    counts makes a build with overflow checks unwind there. *)
Theorem full_registry_refuses id def reg info random fresh h offer request values reader q : values_read ->
  registry_of (iss_wallets q) id def reg info -> can_issue (iss_wallets q) offer request id -> curr_id info = rd_max_cred_num def ->
  ((rd_max_cred_num def + 1 < 2 ^ 32)%N ->
    new_credential random fresh h offer request values (Some id) reader q = (Err RevocationRegistryFull, q)) /\
  ((rd_max_cred_num def + 1 = 2 ^ 32)%N -> overflow_checks = true ->
    new_credential random fresh h offer request values (Some id) reader q = (Panic, q)).
Proof.
  intros Hv (Hdef & Hreg & Hinfo & _) ([cd Hcd] & [pk Hpk] & [x Hx] & [rpk Hrpk]) Hfull.
  assert (new_credential random fresh h offer request values (Some id) reader q =
    (match next_entry def info with Ok _ => (new_credential random fresh h offer request values (Some id) reader q).1
       | Err e => Err e | Panic => Panic | OutOfFuel => OutOfFuel end,
     match next_entry def info with Ok _ => (new_credential random fresh h offer request values (Some id) reader q).2 | _ => q end)) as Hrun.
  { destruct (next_entry def info) as [i|e| |] eqn:Hnext; [apply surjective_pairing|..];
      unfold new_credential; rewrite bind_run, (issuer_object_ok _ h _ q cd Hv Hcd), bind_run, (issuer_object_ok _ h _ q pk Hv Hpk), bind_run,
        (schema_id_ok h _ q x Hv Hx), bind_run, (issuer_object_ok _ h _ q def Hv Hdef), bind_run, (issuer_object_ok _ h _ q reg Hv Hreg), bind_run,
        (issuer_object_ok _ h _ q rpk Hv Hrpk), bind_run, (issuer_object_ok _ h _ q info Hv Hinfo), bind_run; unfold lift; by rewrite Hnext. }
  rewrite Hrun. unfold next_entry, u32_add. rewrite Hfull, (N.add_comm 1). split.
  - intros Hlt. rewrite (proj2 (N.ltb_lt _ _)) by done. cbn. by rewrite (proj2 (N.ltb_lt _ _)) by lia.
  - intros Heq Ho. rewrite Heq, Ho. done.
Qed.

(** an index can be revoked before it is issued: a registry that issues by default
    then issues a credential that is revoked already, and does not say so. *)
Theorem revoked_index_issued id def reg info fresh h h' reader q d q1 random fresh' offer request values reader' res q2 :
  (rd_max_cred_num def + 1 < 2 ^ 32)%N -> registry_of (iss_wallets q) id def reg info -> rd_issuance_type def = ISSUANCE_BY_DEFAULT ->
  revoke_credential fresh h reader id (pretty (curr_id info + 1)%N) q = (Ok d, q1) ->
  new_credential random fresh' h' offer request values (Some id) reader' q1 = (Ok res, q2) -> exists reg' info',
    registry_of (iss_wallets q2) id def reg' info' /\ res.1.2 = Some (pretty (curr_id info + 1)%N) /\
    (curr_id info + 1)%N ∉ active (state_of (rd_issuance_type def) (rd_max_cred_num def) info').
Proof.
  intros Hmax Hreg Htype Hrev Hnew.
  destruct (registry_after _ _ _ _ _ q reg info (revoke_registry id def fresh h reader (pretty (curr_id info + 1)%N) Hmax) Hreg)
    as (reg1 & info1 & Hreg1 & Hs1). rewrite Hrev in Hreg1, Hs1. cbn [fst snd] in *. destruct Hs1 as [Hs1 _].
  destruct (registry_after _ _ _ _ _ q1 reg1 info1 (issue_registry random fresh' h' offer request values id def reader' Hmax) Hreg1)
    as (reg2 & info2 & Hreg2 & Hs2). rewrite Hnew in Hreg2, Hs2. cbn [fst snd] in *. destruct Hs2 as [Hs2 Hres].
  exists reg2, info2. split; [done|]. unfold spec_issue in Hs2. case_decide; [|done]. injection Hs2 as Hc2 Ha2.
  unfold for_index, parse_cred_rev_id in Hs1. destruct Hreg as (_ & _ & _ & Hle). rewrite parse_uint_pretty in Hs1 by lia. cbn [ok_or] in Hs1.
  unfold spec_revoke in Hs1. case_decide; [|done]. injection Hs1 as Hc1 Ha1. cbn [issued state_of curr_id] in Hc1, Hc2, Hres.
  rewrite Hres. split; [do 2 f_equal; congruence|]. rewrite Htype in *.
  change (curr_id info + 1 ∉ all_ids (rd_max_cred_num def) ∖ used_ids info2)%N. rewrite <-Ha2.
  change (curr_id info + 1 ∉ all_ids (rd_max_cred_num def) ∖ used_ids info1)%N. rewrite <-Ha1. set_solver.
Qed.

(** ** A new registry *)

Lemma add_object_ok (T : Type) `{!IndyObject T} (f : Fresh) h (name : string) q (object : T) json : object_to_string object = Some json ->
  iss_wallets q !! (type_of T, name) = None ->
  on_iss_wallets (iw_add_indy_object T f h name object ∅) q =
    (Ok json, set_iss_wallets (<[(type_of T, name) := (json, ∅)]> (iss_wallets q)) q).
Proof. intros Hj Hx. unfold on_iss_wallets, within. by rewrite (map_add_object T f h name (iss_wallets q) object json ∅ Hj Hx). Qed.

(** a new registry has issued nothing and has no used index; the other records are as
    they were, and the tails that were made for it are read back, with an accessor for
    its definition, through a reader of the same directory. *)
Theorem registry_created random order fresh h did type_ tag (cd_id : string) config writer reader base_dir q cd t it accum priv reg_value rtg tail tb dj pj :
  let max := default 100000%N (rc_max_cred_num config) in
  let id := rev_reg_id did cd_id t tag in
  match type_ with Some s => registry_type_from_str (quoted s) | None => Some CL_ACCUM end = Some t ->
  match rc_issuance_type config with Some s => issuance_type_from_str (quoted s) | None => Some ISSUANCE_ON_DEMAND end = Some it ->
  values_read -> object_at CredentialDefinition (iss_wallets q) cd_id = Some cd ->
  Issuer_new_revocation_registry random cd max (IssuanceType_to_bool it) = Ok (accum, priv, reg_value, rtg) ->
  can_store (iss_blobs q) writer reader base_dir -> order ≡ₚ tail_indices rtg -> all_tails rtg tail tb ->
  (forall i, (i < getSize rtg)%N -> length (tb i) = N.to_nat TAIL_SIZE /\ tail_from_bytes (tb i) = Ok (tail i)) ->
  (forall x, from_base58 (to_base58 x) = Some x) -> (TAIL_SIZE * getSize rtg + 2 < usize_modulus)%N ->
  (forall ty, iss_wallets q !! (ty, id) = None) ->
  let hash := to_base58 (sha256_digest (tails_file rtg tb)) in
  let def := mk_rev_reg_def id tag cd_id it max accum hash (join base_dir hash) in
  object_to_string def = Some dj -> object_to_string (mk_registry_private priv) = Some pj -> exists rj q',
    create_and_store_revocation_registry random order fresh h did type_ tag cd_id config writer q = (Ok (id, dj, rj), q') /\
    registry_of (iss_wallets q') id def (mk_rev_reg reg_value) (mk_registry_info id 0 ∅) /\
    (forall ty n, n <> id -> iss_wallets q' !! (ty, n) = iss_wallets q !! (ty, n)) /\
    exists tails b, SDKTailsAccessor_new reader def (iss_blobs q') = (Ok tails, b) /\
      forall i, (i < getSize rtg)%N -> access_tail tails i b = (Ok (tail i), b).
Proof.
  intros max id Ht Hit Hv Hcd Hnew Hcan Hperm Hall Hsize Hb58 Hmod Hnone hash def Hdj Hpj.
  destruct (store_tails_run (iss_blobs q) writer reader base_dir order rtg tail tb Hcan Hperm Hall) as (b1 & Hrun & Hfile & Hp1 & Hr1 & Hi1).
  destruct (registry_printable (mk_rev_reg reg_value)) as [rj Hrj], (info_printable (mk_registry_info id 0 ∅)) as [ij Hij].
  pose proof types_differ as Hnd. rewrite !NoDup_cons, !not_elem_of_cons in Hnd.
  destruct Hnd as ((Hdr & Hdi & Hdp & _) & (Hri & Hrp & _) & (Hip & _) & _).
  set (w1 := <[(type_of RevocationRegistryDefinitionV1, id) := (dj, ∅)]> (iss_wallets q)).
  set (w2 := <[(type_of RevocationRegistryV1, id) := (rj, ∅)]> w1).
  set (w3 := <[(type_of RevocationRegistryDefinitionPrivate, id) := (pj, ∅)]> w2).
  set (w4 := <[(type_of RevocationRegistryInfo, id) := (ij, ∅)]> w3).
  exists rj, (mk_issuer w4 b1 (pending_callbacks q)). split_and!.
  - unfold create_and_store_revocation_registry.
    assert (match type_ with Some s => ok_or (registry_type_from_str (quoted s)) InvalidStructure | None => Ok CL_ACCUM end = Ok t) as ->
      by (destruct type_; [by rewrite Ht|congruence]).
    assert (match rc_issuance_type config with Some s => ok_or (issuance_type_from_str (quoted s)) InvalidStructure
      | None => Ok ISSUANCE_ON_DEMAND end = Ok it) as -> by (destruct (rc_issuance_type config); [by rewrite Hit|congruence]).
    rewrite bind_run. unfold lift at 1. rewrite bind_run. unfold lift at 1. rewrite bind_run, (issuer_object_ok _ h cd_id q cd Hv Hcd).
    rewrite bind_run. unfold lift at 1. fold max. rewrite Hnew, bind_run. unfold on_iss_blobs at 1, within. rewrite Hrun. fold hash. fold id. fold def.
    rewrite bind_run, (add_object_ok _ _ h id _ def dj Hdj) by apply Hnone. cbn [iss_wallets set_iss_blobs]. fold w1.
    rewrite bind_run, (add_object_ok _ _ h id _ (mk_rev_reg reg_value) rj Hrj)
      by (cbn; unfold w1; rewrite lookup_insert_ne by congruence; apply Hnone). cbn [iss_wallets set_iss_wallets]. fold w2.
    rewrite bind_run, (add_object_ok _ _ h id _ (mk_registry_private priv) pj Hpj)
      by (cbn; unfold w2, w1; rewrite !lookup_insert_ne by congruence; apply Hnone). cbn [iss_wallets set_iss_wallets]. fold w3.
    rewrite bind_run, (add_object_ok _ _ h id _ (mk_registry_info id 0 ∅) ij Hij)
      by (cbn; unfold w3, w2, w1; rewrite !lookup_insert_ne by congruence; apply Hnone). done.
  - cbn [iss_wallets]. unfold registry_of, object_at, w4, w3, w2, w1. split_and!; [..|cbn; lia].
    + rewrite !lookup_insert_ne, lookup_insert_eq by congruence. by apply object_roundtrip.
    + rewrite !lookup_insert_ne, lookup_insert_eq by congruence. by apply object_roundtrip.
    + rewrite lookup_insert_eq. by apply object_roundtrip.
  - intros ty n Hn. cbn [iss_wallets]. unfold w4, w3, w2, w1. by rewrite !lookup_insert_ne by congruence.
  - by apply (accessor_reads b1 reader base_dir rtg tail tb).
Qed.
End commands.

(** ** Identifiers *)

Definition no_delimiter (s : string) : Prop := DELIMITER ∉ String.list_ascii_of_string s.

Lemma split_on_cons p s : no_delimiter p -> split_on DELIMITER (p +:+ String DELIMITER s) = p :: split_on DELIMITER s.
Proof.
  unfold no_delimiter. induction p as [|c p IH]; intros Hp; [done|]. cbn [String.list_ascii_of_string] in Hp.
  apply not_elem_of_cons in Hp as [Hc Hp]. change (String c p +:+ String DELIMITER s)%string with (String c (p +:+ String DELIMITER s)).
  cbn [split_on]. rewrite IH by done. by rewrite decide_False by congruence.
Qed.

Lemma split_on_last p : no_delimiter p -> split_on DELIMITER p = [p].
Proof.
  unfold no_delimiter. induction p as [|c p IH]; intros Hp; [done|]. cbn [String.list_ascii_of_string] in Hp.
  apply not_elem_of_cons in Hp as [Hc Hp]. cbn [split_on]. rewrite IH by done. by rewrite decide_False by congruence.
Qed.

Lemma split_delimited parts : parts <> [] -> Forall no_delimiter parts -> split_on DELIMITER (delimited parts) = parts.
Proof.
  intros Hne Hall. induction Hall as [|p parts Hp Hall IH]; [done|]. destruct parts as [|p' parts].
  - by apply split_on_last.
  - cbn [delimited]. rewrite split_on_cons by done. f_equal. by apply IH.
Qed.

(** An empty part at the end is left out, and read as empty. *)
Lemma terminator_part s k : default ""%string (split_terminator DELIMITER s !! k) = default ""%string (split_on DELIMITER s !! k).
Proof.
  unfold split_terminator. case_decide as Hl; [|done]. set (parts := split_on DELIMITER s) in *.
  destruct (decide (k < length parts - 1)) as [Hk|Hk]; [by rewrite lookup_take_lt|]. rewrite lookup_take_ge by lia.
  destruct (decide (k = length parts - 1)) as [->|].
  - rewrite last_lookup in Hl. replace (pred (length parts)) with (length parts - 1) in Hl by lia. by rewrite Hl.
  - by rewrite lookup_ge_None_2 by lia.
Qed.

Section identifiers.
Context `{CLTypes}.
Implicit Types (credential : Credential).

Lemma parts_read credential parts k : parts <> [] -> Forall no_delimiter parts -> cr_schema_id credential = delimited parts ->
  schema_part k credential = default ""%string (parts !! k).
Proof. intros Hne Hall Hid. unfold schema_part. by rewrite Hid, terminator_part, split_delimited. Qed.

(** the parts of a schema's identifier, and the issuer of a definition, are read back
    from the identifiers of a credential, for names without the delimiter. *)
Theorem ids_read_back credential did name version did' v (sid tag : string) type_ : no_delimiter did -> no_delimiter did' ->
  cr_cred_def_id credential = cred_def_id v did' sid (SignatureType_to_str type_) tag -> issuer_did credential = Ok did' /\
  (cr_schema_id credential = schema_id did name version ->
    (no_delimiter name -> no_delimiter version -> schema_issuer_did credential = did /\ schema_name credential = name /\
      schema_version credential = version) /\
    (forall n1 n2, no_delimiter n1 -> no_delimiter n2 -> no_delimiter version -> name = (n1 +:+ String DELIMITER n2)%string ->
      schema_name credential = n1 /\ schema_version credential = n2)).
Proof.
  intros Hd Hd' Hcd.
  assert (no_delimiter "2") as H2 by (intros Hin; apply elem_of_cons in Hin as [|Hin%elem_of_nil]; done). split.
  - unfold issuer_did. rewrite Hcd. unfold cred_def_id.
    assert (forall rest, rest <> [] -> split_terminator DELIMITER (delimited (did' :: rest)) !! 0 = Some did') as Hhead.
    { intros [|p rest] Hne; [done|]. cbn [delimited]. unfold split_terminator. rewrite split_on_cons by done.
      assert (split_on DELIMITER (delimited (p :: rest)) <> []) as Hs.
      { generalize (delimited (p :: rest)). intros s. destruct s as [|c s]; [done|]. cbn. case_decide; [done|]. by destruct (split_on DELIMITER s). }
      cbn [delimited] in Hs. destruct (split_on DELIMITER _) as [|p1 ps]; [done|]. case_decide; [|done]. cbn [length].
      rewrite lookup_take_lt by lia. done. }
    destruct v; by rewrite Hhead.
  - intros Hid. split.
    + intros Hn Hv. unfold schema_issuer_did, schema_name, schema_version.
      assert (Forall no_delimiter [did; "2"%string; name; version]) as Hall by by repeat constructor.
      pose proof (fun k => parts_read credential [did; "2"; name; version]%string k ltac:(done) Hall Hid) as Hk. rewrite !Hk. by split_and?.
    + intros n1 n2 H1' H2' Hv ->. unfold schema_name, schema_version.
      assert (Forall no_delimiter [did; "2"%string; n1; n2; version]) as Hall by by repeat constructor.
      assert (cr_schema_id credential = delimited [did; "2"; n1; n2; version]%string) as Hid'.
      { rewrite Hid. unfold schema_id. cbn [delimited]. by rewrite str_app_assoc. }
      pose proof (fun k => parts_read credential [did; "2"; n1; n2; version]%string k ltac:(done) Hall Hid') as Hk. rewrite !Hk. by split_and?.
Qed.
End identifiers.

(** ** Witnesses *)
Module ToyRegistry.
Import ToyIssuer.ToyIssuer.

#[local] Instance types : RegistryTypes.
Proof. split; [|by eexists..]. apply (bool_decide_unpack _). vm_compute. exact I. Qed.

Lemma values : values_read.
Proof. eexists. split; reflexivity. Qed.

(** A new registry for three credentials, of each type *)
Definition on_demand : IssuerCommandExecutor WalletMap := (making None 3 start).2.
Definition by_default : IssuerCommandExecutor WalletMap := (making (Some "ISSUANCE_BY_DEFAULT"%string) 3 start).2.
Definition tail_byte (i : N) : bytes := [byte_of_N (7 * i)].
Definition hash_of (max : N) : string := to_base58 (sha256_digest (tails_file (generator max) tail_byte)).
Definition def_of (issuance_type : IssuanceType) : @RevocationRegistryDefinitionV1 (@cl_types ToyCL.cl) :=
  mk_rev_reg_def registry "r" "cd" issuance_type 3 accum (hash_of 3) (join "base" (hash_of 3)).

Lemma on_demand_registry : registry_of (iss_wallets on_demand) registry (def_of ISSUANCE_ON_DEMAND) (mk_rev_reg empty_registry)
  (mk_registry_info registry 0 ∅).
Proof. split; [|split; [|split]]; vm_compute; [reflexivity..|discriminate]. Qed.

Lemma by_default_registry : registry_of (iss_wallets by_default) registry (def_of ISSUANCE_BY_DEFAULT) (mk_rev_reg empty_registry)
  (mk_registry_info registry 0 ∅).
Proof. split; [|split; [|split]]; vm_compute; [reflexivity..|discriminate]. Qed.

Lemma three_tails : all_tails (generator 3) (fun i => byte_of_N (7 * i)) tail_byte.
Proof. exact ToyTails.tails_3. Qed.

Lemma no_registry (ty : string) : iss_wallets start !! (ty, registry) = None.
Proof.
  cbn [iss_wallets start]. unfold records, registry.
  rewrite !lookup_insert_ne by (intros [=]). by apply lookup_singleton_ne.
Qed.

Lemma registry_created_witness : exists rid dj rj q', making None 3 start = (Ok (rid, dj, rj), q') /\
  registry_of (iss_wallets q') rid (def_of ISSUANCE_ON_DEMAND) (mk_rev_reg empty_registry) (mk_registry_info rid 0 ∅).
Proof.
  destruct (registry_created random (reverse (tail_indices (generator 3))) fresh 7 "did" None "r" "cd"
    (mk_registry_config None (Some 3%N)) 1 2 "base" start definition CL_ACCUM ISSUANCE_ON_DEMAND accum
    private empty_registry (generator 3) (fun i => byte_of_N (7 * i)) tail_byte
    (text_of RevocationRegistryDefinitionV1 (def_of ISSUANCE_ON_DEMAND))
    (text_of RevocationRegistryDefinitionPrivate (mk_registry_private private)))
    as (rj & q' & Hrun & Hreg & _).
  - reflexivity.
  - reflexivity.
  - exact values.
  - vm_compute. reflexivity.
  - vm_compute. reflexivity.
  - exact ToyTails.can.
  - apply reverse_Permutation.
  - exact three_tails.
  - intros i Hi. split; reflexivity.
  - exact ToyTails.base58_back.
  - vm_compute. reflexivity.
  - exact no_registry.
  - vm_compute. reflexivity.
  - vm_compute. reflexivity.
  - eexists _, _, rj, q'. split; [exact Hrun|exact Hreg].
Defined.

Lemma three_fits it : (rd_max_cred_num (def_of it) + 1 < 2 ^ 32)%N.
Proof. vm_compute. reflexivity. Qed.

(** The first credential of a registry *)
Definition one_issued : IssuerCommandExecutor WalletMap := (issuing on_demand).2.

Lemma first_issued : issuing on_demand = (Ok ("credential", Some "1", Some "+1")%string, one_issued).
Proof.
  assert ((issuing on_demand).1 = Ok ("credential", Some "1", Some "+1")%string) as Hok by (vm_compute; reflexivity).
  unfold one_issued. rewrite <-Hok. apply surjective_pairing.
Qed.

Lemma registry_commands_witness : exists q', issuing on_demand = (Ok ("credential", Some "1", Some "+1")%string, q') /\
  exists reg' info', registry_of (iss_wallets q') registry (def_of ISSUANCE_ON_DEMAND) reg' info' /\
    active (state_of ISSUANCE_ON_DEMAND 3 info') = {[1%N]} /\
    (outcome_is (fun _ w' => exists reg2 info2, registry_of w' registry (def_of ISSUANCE_ON_DEMAND) reg2 info2 /\
      active (state_of ISSUANCE_ON_DEMAND 3 info2) = {[1%N]} ∖ {[1%N]}) (revoke_credential fresh 7 2 registry "1") q').
Proof.
  destruct (registry_commands registry (def_of ISSUANCE_ON_DEMAND) (three_fits ISSUANCE_ON_DEMAND)) as (Hissue & Hrevoke & _).
  pose proof (Hissue random fresh 7%Z offer request ∅ (Some 2%Z) on_demand _ _ on_demand_registry) as Ho. unfold outcome_is in Ho.
  exists one_issued. split; [exact first_issued|]. fold issuing in Ho. rewrite first_issued in Ho.
  destruct Ho as (s' & reg' & info' & Hspec & Hreg' & Hs & _). exists reg', info'. split; [exact Hreg'|].
  assert (active (state_of ISSUANCE_ON_DEMAND 3 info') = {[1%N]}) as Ha.
  { change (state_of ISSUANCE_ON_DEMAND 3 info') with (state_of (rd_issuance_type (def_of ISSUANCE_ON_DEMAND)) (rd_max_cred_num (def_of ISSUANCE_ON_DEMAND)) info').
    rewrite Hs. assert (Some (mk_registry_state 1 ({[1%N]} ∪ ∅)) = Some s') as Heq by exact Hspec. injection Heq as <-. apply union_empty_r_L. }
  split; [exact Ha|]. pose proof (Hrevoke fresh 7%Z 2%Z "1"%string one_issued _ _ Hreg') as Hr. unfold outcome_is in *.
  destruct (revoke_credential fresh 7 2 registry "1" one_issued) as [[d|e| |] q2]; [|exact Hr..].
  destruct Hr as (s2 & reg2 & info2 & Hspec2 & Hreg2 & Hs2 & _). exists reg2, info2. split; [exact Hreg2|].
  change (state_of ISSUANCE_ON_DEMAND 3 info2) with (state_of (rd_issuance_type (def_of ISSUANCE_ON_DEMAND)) (rd_max_cred_num (def_of ISSUANCE_ON_DEMAND)) info2).
  rewrite Hs2. unfold for_index in Hspec2. change (parse_cred_rev_id "1") with (Ok 1%N : IndyResult N) in Hspec2.
  unfold spec_revoke in Hspec2. case_decide; [|discriminate Hspec2]. injection Hspec2 as <-.
  exact (f_equal (fun a => a ∖ {[1%N]}) Ha).
Defined.

(** Issuing four times, with a revocation and a failed recovery between *)
Definition issue_one : RegistryCommand := Issue random fresh 7 offer request ∅ (Some 2%Z).
Definition commands : list RegistryCommand :=
  [issue_one; Revoke fresh 7 2 "1"; issue_one; Recover fresh 7 2 "2"; issue_one; issue_one]%string.

Lemma indices_given_once_witness : (run_commands registry commands on_demand).1 = ["1"; "2"; "3"]%string /\
  NoDup (run_commands registry commands on_demand).1.
Proof.
  split; [vm_compute; reflexivity|].
  exact (proj1 (proj2 (indices_given_once registry (def_of ISSUANCE_ON_DEMAND) commands (three_fits ISSUANCE_ON_DEMAND) on_demand _ _ on_demand_registry))).
Defined.

(** The registry after those *)
Definition full : IssuerCommandExecutor WalletMap := (run_commands registry commands on_demand).2.

Definition full_value : @ClRevReg (@cl_types ToyCL.cl) := "+1-1+2+3"%string.

Lemma full_registry : registry_of (iss_wallets full) registry (def_of ISSUANCE_ON_DEMAND) (mk_rev_reg full_value)
  (mk_registry_info registry 3 {[2; 3]}%N).
Proof. split; [|split; [|split]]; vm_compute; [reflexivity..|discriminate]. Qed.

Lemma full_registry_refuses_witness : issuing full = (Err RevocationRegistryFull, full).
Proof.
  apply (full_registry_refuses registry (def_of ISSUANCE_ON_DEMAND) (mk_rev_reg full_value)
    (mk_registry_info registry 3 {[2; 3]}%N) random fresh 7 offer request ∅ (Some 2%Z) full values full_registry).
  - split; [|split; [|split]]; apply (bool_decide_unpack _); vm_compute; exact I.
  - reflexivity.
  - exact (three_fits ISSUANCE_ON_DEMAND).
Defined.

(** Index 1 of a registry that issues by default is revoked, and then issued. *)
Definition first_revoked : IssuerCommandExecutor WalletMap := (revoke_credential fresh 7 2 registry "1" by_default).2.
Definition then_issued : IssuerCommandExecutor WalletMap := (issuing first_revoked).2.

Lemma revoked_first : revoke_credential fresh 7 2 registry "1" by_default = (Ok "-1"%string, first_revoked).
Proof.
  assert ((revoke_credential fresh 7 2 registry "1" by_default).1 = Ok "-1"%string) as Hok by (vm_compute; reflexivity).
  unfold first_revoked. rewrite <-Hok. apply surjective_pairing.
Qed.

Lemma issued_then : issuing first_revoked = (Ok ("credential", Some "1", Some "+1")%string, then_issued).
Proof.
  assert ((issuing first_revoked).1 = Ok ("credential", Some "1", Some "+1")%string) as Hok by (vm_compute; reflexivity).
  unfold then_issued. rewrite <-Hok. apply surjective_pairing.
Qed.

Lemma revoked_index_issued_witness : exists reg' info',
  registry_of (iss_wallets then_issued) registry (def_of ISSUANCE_BY_DEFAULT) reg' info' /\
  1%N ∉ active (state_of ISSUANCE_BY_DEFAULT 3 info').
Proof.
  destruct (revoked_index_issued registry (def_of ISSUANCE_BY_DEFAULT) _ (mk_registry_info registry 0 ∅) fresh 7 7 2 by_default _ first_revoked
    random fresh offer request ∅ (Some 2%Z) _ then_issued (three_fits ISSUANCE_BY_DEFAULT) by_default_registry eq_refl revoked_first issued_then)
    as (reg' & info' & Hreg' & _ & Hno). exists reg', info'. split; [exact Hreg'|exact Hno].
Defined.

Lemma ids_read_back_witness : schema_name (mk_credential "did:2:person:1.0" "did:3:CL:1:tag" None ∅ ("s"%string : @ClSignature ToyCL.types) (tt : @ClSignatureProof ToyCL.types) None None) = "person"%string.
Proof.
  assert (forall s, bool_decide (no_delimiter s) = true -> no_delimiter s) as Hn by (intros s; apply bool_decide_eq_true_1).
  apply (ids_read_back _ "did" "person" "1.0" "did" false "1" "tag" CL_SIGNATURE); try reflexivity; apply Hn; vm_compute; reflexivity.
Defined.
End ToyRegistry.
