(* ===== verification/World.v ===== *)
(** * World: the effects of the pool thread

    The pool thread works on its directory of the file system, on the networker, on the
    channel of the command executor and on three process-wide values.  [World] is what it
    sees of them; a computation is a function from a world to an outcome and a world.

    - Every call on the file system can fail: [io] says how the next ones end.
    - The networker and the command executor only receive: what they are sent is
      appended to [effects], in order.
    - [CommandExecutor::instance().send(...).unwrap()] does not fail: the executor lives
      as long as the library. *)

From S2P Require Import Prelude Errors PoolTypes.

(** What the pool thread sends to the command executor.  The result of a command is
    [inl] of an error or [inr] of a value. *)
Inductive Command :=
| OpenAck (cmd_id pool_id : Z) (res : IndyErrorKind + unit)
| CloseAck (cmd_id : Z) (res : IndyErrorKind + unit)
| RefreshAck (cmd_id : Z) (res : IndyErrorKind + unit)
| SubmitAck (cmd_id : Z) (res : IndyErrorKind + string).

Inductive Effect :=
| Net (e : NetworkerEvent)
| Sent (c : Command).

(** How a call on the file system ends: it succeeds, or it fails; a failing write may
    have written some of its bytes. *)
Inductive IoResult :=
| IoOk
| IoFail (written : nat).

Record World := mk_world {
  (** the lines of [<pool>/<pool>.txn], if the file exists *)
  genesis : option (list string);
  (** the bytes of [<pool>/stored.btxn], if the file exists *)
  stored : option bytes;
  (** how the next calls on the file system end; they succeed when the list is over *)
  io : list IoResult;
  effects : list Effect;
  (** [ProtocolVersion::get()] *)
  protocol_version : N;
  (** [SystemTime::now()] in seconds since the epoch, and [THRESHOLD] *)
  cur_time : N;
  freshness_threshold : N;
}.

Definition set_stored (s : option bytes) (w : World) : World :=
  mk_world (genesis w) s (io w) (effects w) (protocol_version w) (cur_time w) (freshness_threshold w).
Definition set_io (l : list IoResult) (w : World) : World :=
  mk_world (genesis w) (stored w) l (effects w) (protocol_version w) (cur_time w) (freshness_threshold w).
Definition set_effects (l : list Effect) (w : World) : World :=
  mk_world (genesis w) (stored w) (io w) l (protocol_version w) (cur_time w) (freshness_threshold w).

(** ** The monad *)

Abbreviation M := (StateM IndyErrorKind World).

Definition emit (e : Effect) : M unit := fun w => (Ok tt, set_effects (effects w ++ [e]) w).

(** [networker.borrow_mut().process_event(Some(e))] *)
Definition net (e : NetworkerEvent) : M unit := emit (Net e).

(** [CommandExecutor::instance().send(c).unwrap()] *)
Definition send (c : Command) : M unit := emit (Sent c).

(** The end of the next call on the file system. *)
Definition next_io : M IoResult := fun w =>
  match io w with
  | [] => (Ok IoOk, w)
  | r :: l => (Ok r, set_io l w)
  end.

(** A call on the file system whose failure the code maps to [IOError]. *)
Definition io_call : M unit :=
  r ← next_io;
  match r with IoOk => mret tt | IoFail _ => fail IOError end.

(** ** Lemmas *)

(** [logs m es w]: [m] runs from [w] to a value, with exactly the effects [es], and
    changes nothing else. *)
Definition logs {A} (m : M A) (a : A) (es : list Effect) (w : World) : Prop :=
  m w = (Ok a, set_effects (effects w ++ es) w).

Lemma forM_emit {A} (f : A -> Effect) l w :
  forM (fun x => emit (f x)) l w = (Ok tt, set_effects (effects w ++ (f <$> l)) w).
Proof.
  revert w. induction l as [|x l IH]; intros w; cbn.
  - rewrite app_nil_r. by destruct w.
  - rewrite bind_run. cbn. rewrite IH. cbn. by rewrite <-app_assoc.
Qed.

(** ** Relations between worlds *)

(** [w'] comes after [w] in a computation that touches the files of the pool and sends
    the effects [es]. *)
Definition world_step (w w' : World) (es : list Effect) : Prop :=
  effects w' = effects w ++ es /\ genesis w' = genesis w /\
  protocol_version w' = protocol_version w /\ cur_time w' = cur_time w /\
  freshness_threshold w' = freshness_threshold w /\
  exists l, io w = l ++ io w'.

Lemma world_step_refl w : world_step w w [].
Proof. unfold world_step. rewrite app_nil_r. split_and!; try done. by exists []. Qed.

Lemma world_step_trans w1 w2 w3 es1 es2 :
  world_step w1 w2 es1 -> world_step w2 w3 es2 -> world_step w1 w3 (es1 ++ es2).
Proof.
  intros (He1 & ? & ? & ? & ? & l1 & Hl1) (He2 & ? & ? & ? & ? & l2 & Hl2).
  unfold world_step. split_and!; try congruence.
  - by rewrite He2, He1, app_assoc.
  - exists (l1 ++ l2). by rewrite Hl1, Hl2, app_assoc.
Qed.

(** [quiet m]: [m] sends nothing. *)
Definition quiet {A} (m : M A) : Prop := forall w, world_step w (m w).2 [].

Lemma quiet_ret {A} (a : A) : quiet (mret a).
Proof. intros w. apply world_step_refl. Qed.

Lemma quiet_lift {A} (m : IndyResult A) : quiet (lift m).
Proof. intros w. apply world_step_refl. Qed.

Lemma quiet_gets {A} (f : World -> A) : quiet (gets f).
Proof. intros w. apply world_step_refl. Qed.

Lemma quiet_bind {A B} (m : M A) (f : A -> M B) : quiet m -> (forall a, quiet (f a)) -> quiet (m ≫= f).
Proof.
  intros Hm Hf w. rewrite bind_run. specialize (Hm w). destruct (m w) as [[a|e| |] w1]; try done.
  change [] with ([] ++ [] : list Effect). eapply world_step_trans; [exact Hm|apply Hf].
Qed.

Lemma quiet_attempt {A} (m : M A) : quiet m -> quiet (attempt m).
Proof. intros Hm w. specialize (Hm w). unfold attempt. by destruct (m w) as [[a|e| |] w1]. Qed.

Lemma quiet_next_io : quiet next_io.
Proof.
  intros w. unfold next_io. destruct (io w) as [|r l] eqn:Hio; [apply world_step_refl|].
  unfold world_step. cbn. rewrite app_nil_r, Hio. split_and!; try done. by exists [r].
Qed.

Lemma quiet_set_stored s : quiet (fun w => (Ok tt, set_stored s w)).
Proof. intros w. unfold world_step. cbn. rewrite app_nil_r. split_and!; try done. by exists []. Qed.

Lemma quiet_io_call : quiet io_call.
Proof. apply quiet_bind; [apply quiet_next_io|]. intros []; [apply quiet_ret|apply quiet_lift]. Qed.

Lemma quiet_foldlM {A B} (f : A -> B -> M A) l acc : (forall a b, quiet (f a b)) -> quiet (foldlM f l acc).
Proof.
  intros Hf. revert acc. induction l as [|x l IH]; intros acc; [apply quiet_ret|].
  apply quiet_bind; auto.
Qed.

Lemma quiet_forM {A} (f : A -> M unit) l : (forall a, quiet (f a)) -> quiet (forM f l).
Proof. intros Hf. induction l as [|x l IH]; [apply quiet_ret|]. apply quiet_bind; auto. Qed.

#[export] Hint Resolve quiet_ret quiet_lift quiet_gets quiet_bind quiet_attempt quiet_next_io
  quiet_set_stored quiet_io_call quiet_foldlM quiet_forM : indy.

(** ** The effects of a computation *)

(** [outputs m Q]: when [m] returns [a], it has appended effects [es] with [Q a es]. *)
Definition outputs {A} (m : M A) (Q : A -> list Effect -> Prop) : Prop := forall w,
  match m w with
  | (Ok a, w') => exists es, world_step w w' es /\ Q a es
  | _ => True
  end.

Lemma outputs_ret {A} (a : A) (Q : A -> list Effect -> Prop) : Q a [] -> outputs (mret a) Q.
Proof. intros HQ w. exists []. split; [apply world_step_refl|done]. Qed.

Lemma outputs_bind {A B} (m : M A) (g : A -> M B) (Q : A -> list Effect -> Prop) (R : B -> list Effect -> Prop) :
  outputs m Q -> (forall a es, Q a es -> outputs (g a) (fun b es' => R b (es ++ es'))) -> outputs (m ≫= g) R.
Proof.
  intros Hm Hg w. specialize (Hm w). rewrite bind_run. destruct (m w) as [[a|e| |] w1]; try done.
  destruct Hm as (es & Hs & HQ). specialize (Hg a es HQ w1). destruct (g a w1) as [[b|e| |] w2]; try done.
  destruct Hg as (es' & Hs' & HR). exists (es ++ es'). split; [by eapply world_step_trans|done].
Qed.

Lemma outputs_mono {A} (m : M A) (Q R : A -> list Effect -> Prop) :
  outputs m Q -> (forall a es, Q a es -> R a es) -> outputs m R.
Proof. intros Hm HQR w. specialize (Hm w). destruct (m w) as [[a|e| |] w1]; naive_solver. Qed.

Lemma outputs_emit e : outputs (emit e) (fun _ es => es = [e]).
Proof.
  intros w. exists [e]. split; [|done]. unfold world_step, emit. cbn. split_and!; try done. by exists [].
Qed.

Lemma outputs_quiet {A} (m : M A) : quiet m -> outputs m (fun _ es => es = []).
Proof. intros Hm w. specialize (Hm w). destruct (m w) as [[a|e| |] w1]; try done. by exists []. Qed.

Lemma outputs_lift {A} (m : IndyResult A) : outputs (lift m) (fun a es => m = Ok a /\ es = []).
Proof. intros w. unfold lift. destruct m; try done. exists []. split; [apply world_step_refl|done]. Qed.

Lemma outputs_forM_emit {A} (g : A -> Effect) l : outputs (forM (fun x => emit (g x)) l) (fun _ es => es = g <$> l).
Proof.
  intros w. rewrite forM_emit. exists (g <$> l). split; [|done].
  unfold world_step. cbn. split_and!; try done. by exists [].
Qed.

Lemma outputs_Ok {A} (m : M A) Q w a w' : outputs m Q -> m w = (Ok a, w') ->
  exists es, effects w' = effects w ++ es /\ Q a es.
Proof. intros Hm Hw. specialize (Hm w). rewrite Hw in Hm. destruct Hm as (es & (He & _) & HQ). eauto. Qed.

(** The next step of a proof of [outputs]. *)
Ltac outputs_step lem := eapply outputs_bind; [eapply lem|cbn beta; intros ? ? ?].

(** The commands among the effects, and the answers to submitted commands. *)
Definition sents (es : list Effect) : list Command :=
  omap (fun e => match e with Sent c => Some c | Net _ => None end) es.

Lemma sents_app es es' : sents (es ++ es') = sents es ++ sents es'.
Proof. apply omap_app. Qed.

Lemma sents_sent {A} (f : A -> Command) l : sents ((fun x => Sent (f x)) <$> l) = f <$> l.
Proof. induction l as [|x l IH]; [done|]. cbn. by rewrite <-IH. Qed.

Definition submits (es : list Effect) : list (Z * (IndyErrorKind + string)) :=
  omap (fun e => match e with Sent (SubmitAck id r) => Some (id, r) | _ => None end) es.

Lemma submits_app es es' : submits (es ++ es') = submits es ++ submits es'.
Proof. apply omap_app. Qed.

Lemma submits_replies ids r : submits ((fun id => Sent (SubmitAck id r)) <$> ids) = (fun id => (id, r)) <$> ids.
Proof. induction ids as [|id ids IH]; [done|]. cbn. by rewrite <-IH. Qed.

Lemma submits_sents es es' : sents es = sents es' -> submits es = submits es'.
Proof.
  assert (forall es, submits es = omap (fun c => match c with SubmitAck id r => Some (id, r) | _ => None end) (sents es)) as He.
  { clear. induction es as [|[e|[]] es IH]; [done|..]; cbn; unfold submits in IH; by rewrite IH. }
  intros Heq. by rewrite !He, Heq.
Qed.

(** The numbers of the commands that were answered. *)
Definition command_id (c : Command) : Z :=
  match c with OpenAck id _ _ | CloseAck id _ | RefreshAck id _ | SubmitAck id _ => id end.
Definition acked (es : list Effect) : list Z := command_id <$> sents es.

Lemma acked_app es es' : acked (es ++ es') = acked es ++ acked es'.
Proof. unfold acked. by rewrite sents_app, fmap_app. Qed.

Lemma acked_replies ids r : acked ((fun id => Sent (SubmitAck id r)) <$> ids) = ids.
Proof. unfold acked. rewrite sents_sent, <-list_fmap_compose. by induction ids as [|id ids IH]; cbn; f_equal. Qed.

(** [tries m Q]: as [outputs m Q], and when [m] fails it has sent nothing. *)
Definition tries {A} (m : M A) (Q : A -> list Effect -> Prop) : Prop := forall w,
  match m w with
  | (Ok a, w') => exists es, world_step w w' es /\ Q a es
  | (Err _, w') => world_step w w' []
  | _ => True
  end.

Lemma tries_quiet {A} (m : M A) : quiet m -> tries m (fun _ es => es = []).
Proof. intros Hm w. specialize (Hm w). destruct (m w) as [[a|e| |] w1]; try done. by exists []. Qed.

Lemma tries_bind {A B} (m : M A) (g : A -> M B) Q : quiet m -> (forall a, tries (g a) Q) -> tries (m ≫= g) Q.
Proof.
  intros Hm Hg w. specialize (Hm w). rewrite bind_run. destruct (m w) as [[a|e| |] w1]; try done.
  specialize (Hg a w1). destruct (g a w1) as [[b|e| |] w2]; try done.
  - destruct Hg as (es & Hs & HQ). exists es. split; [|done]. by apply (world_step_trans _ _ _ [] es Hm).
  - by apply (world_step_trans _ _ _ [] [] Hm).
Qed.

(** A computation that does not fail. *)
Definition no_err {A} (m : M A) : Prop := forall w e, (m w).1 <> Err e.

Lemma tries_no_err {A} (m : M A) Q : no_err m -> outputs m Q -> tries m Q.
Proof. intros Hn Hm w. specialize (Hm w). specialize (Hn w). destruct (m w) as [[a|e| |] w1]; try done. by specialize (Hn e). Qed.

Lemma no_err_bind {A B} (m : M A) (g : A -> M B) : no_err m -> (forall a, no_err (g a)) -> no_err (m ≫= g).
Proof.
  intros Hm Hg w e. rewrite bind_run. specialize (Hm w). destruct (m w) as [[a|e'| |] w1]; try done; [apply Hg|].
  by specialize (Hm e').
Qed.

Lemma no_err_emit e : no_err (emit e).
Proof. done. Qed.

Lemma outputs_attempt {A} (m : M A) Q : tries m Q ->
  outputs (attempt m) (fun r es => match r with inr a => Q a es | inl _ => es = [] end).
Proof. intros Hm w. specialize (Hm w). unfold attempt. destruct (m w) as [[a|e| |] w1]; try done. by exists []. Qed.

(** [yields m P]: what [m] returns satisfies [P]. *)
Definition yields {A} (m : M A) (P : A -> Prop) : Prop := forall w a w', m w = (Ok a, w') -> P a.

Lemma yields_ret {A} (a : A) (P : A -> Prop) : P a -> yields (mret a) P.
Proof. by intros HP w ? ? [= <- _]. Qed.

Lemma yields_any {A B} (m : M A) (g : A -> M B) (P : B -> Prop) :
  (forall a, yields (g a) P) -> yields (m ≫= g) P.
Proof. intros Hg w b w' (a & w1 & _ & Hb)%M_bind_Ok. by eapply Hg. Qed.

Lemma yields_bind_of {A B} (m : M A) (g : A -> M B) (P : A -> Prop) (Q : B -> Prop) :
  yields m P -> (forall a, P a -> yields (g a) Q) -> yields (m ≫= g) Q.
Proof. intros Hm Hg w b w' (a & w1 & Ha & Hb)%M_bind_Ok. eapply Hg; [by eapply Hm|done]. Qed.

(** Walks to the values that a computation returns. *)
Ltac walk_yields :=
  repeat first
    [ match goal with
      | |- yields (let _ := _ in _) _ => cbv zeta
      | |- yields (match ?x with _ => _ end) _ => destruct x eqn:?
      | |- yields (mret _) _ => apply yields_ret
      | |- yields (_ ≫= _) _ => apply yields_any; intros ?
      end ].

Lemma outputs_yields {A} (m : M A) Q (P : A -> Prop) :
  outputs m Q -> yields m P -> outputs m (fun a es => Q a es /\ P a).
Proof.
  intros Hm Hy w. specialize (Hm w). specialize (Hy w). destruct (m w) as [[a|e| |] w1]; try done.
  destruct Hm as (es & Hs & HQ). exists es. split_and!; [done..|by eapply Hy].
Qed.
