(* ===== verification/MerkleFactory.v ===== *)
(** * MerkleFactory: the ledger on disk

    Models [libindy/src/services/pool/merkle_tree_factory.rs]: the genesis file of JSON
    transactions, the cache file of length-prefixed records, the tree built from either,
    and the node state that the transactions describe. *)

From S2P Require Import Prelude Errors Json Hashing MerkleTree PoolTypes World.
Import MerkleTree.MerkleTree.

(** ** [str::trim] *)

(** The UTF-8 encodings of the characters of the Unicode class White_Space. *)
Definition whitespace : list bytes :=
  [[Byte.x09]; [Byte.x0a]; [Byte.x0b]; [Byte.x0c]; [Byte.x0d]; [Byte.x20];
   [Byte.xc2; Byte.x85]; [Byte.xc2; Byte.xa0]; [Byte.xe1; Byte.x9a; Byte.x80]] ++
  ((fun b => [Byte.xe2; Byte.x80; b]) <$>
    [Byte.x80; Byte.x81; Byte.x82; Byte.x83; Byte.x84; Byte.x85; Byte.x86; Byte.x87; Byte.x88;
     Byte.x89; Byte.x8a; Byte.xa8; Byte.xa9; Byte.xaf]) ++
  [[Byte.xe2; Byte.x81; Byte.x9f]; [Byte.xe3; Byte.x80; Byte.x80]].

(** [b] without the prefix [p], if it has it. *)
Fixpoint strip_prefix (p b : bytes) : option bytes :=
  match p, b with
  | [], _ => Some b
  | x :: p, y :: b => if decide (x = y) then strip_prefix p b else None
  | _, [] => None
  end.

Fixpoint first_stripped (ps : list bytes) (b : bytes) : option bytes :=
  match ps with
  | [] => None
  | p :: ps => match strip_prefix p b with Some b' => Some b' | None => first_stripped ps b end
  end.

Fixpoint strip_all (fuel : nat) (ps : list bytes) (b : bytes) : bytes :=
  match fuel with
  | O => b
  | S fuel => match first_stripped ps b with Some b' => strip_all fuel ps b' | None => b end
  end.

Definition trim_start (b : bytes) : bytes := strip_all (length b) whitespace b.
Definition trim_end (b : bytes) : bytes :=
  reverse (strip_all (length b) (reverse <$> whitespace) (reverse b)).
Definition trim (s : string) : string := string_of_bytes (trim_end (trim_start (as_bytes s))).

Section factory.
Context `{Machine} `{Sha256} `{JsonText} `{PoolCodecs} `{Base58} `{HashOrder}.

(** ** Reading *)

Definition _parse_txn_from_json (txn : string) : IndyResult bytes :=
  let txn := trim txn in
  if decide (txn = ""%string) then Ok []
  else
    txn ← ok_or (from_str txn) InvalidStructure;
    ok_or (rmp_to_vec_named txn) InvalidState.

(** The body of the loop of [_from_genesis]; reading a line can fail. *)
Definition genesis_line (mt : MerkleTree) (line : string) : M MerkleTree :=
  _ ← io_call;
  if decide (trim line = ""%string) then mret mt
  else lift (txn ← _parse_txn_from_json line; append mt txn).

Definition _from_genesis (lines : list string) : M MerkleTree :=
  mt ← lift (from_vec []);
  _ ← io_call;
  foldlM genesis_line lines mt.

(** [isize::MAX]: no vector is longer. *)
Definition isize_max : N := (2 ^ (usize_bits - 1) - 1)%N.

(** The loop of [_from_cache] on the bytes that are still to be read.  Each of the two
    reads can fail; a [u64] cut short ends the loop, a record cut short is an error. *)
Fixpoint cache_loop (fuel : nat) (rest : bytes) (mt : MerkleTree) : M MerkleTree :=
  match fuel with
  | O => lift OutOfFuel
  | S fuel =>
      _ ← io_call;
      if decide (length rest < 8) then mret mt
      else
        let len := (le_value (take 8 rest) mod usize_modulus)%N in
        let rest := drop 8 rest in
        if (isize_max <? len)%N then lift Panic
        else
          _ ← io_call;
          if (N.of_nat (length rest) <? len)%N then fail InvalidState
          else
            mt ← lift (append mt (take (N.to_nat len) rest));
            cache_loop fuel (drop (N.to_nat len) rest) mt
  end.

Definition _from_cache (file : bytes) : M MerkleTree :=
  mt ← lift (from_vec []);
  _ ← io_call;
  cache_loop (S (length file)) file mt.

Definition create : M MerkleTree :=
  w ← gets id;
  match stored w with
  | None =>
      match genesis w with
      | None => fail PoolNotCreated
      | Some lines => _from_genesis lines
      end
  | Some file => _from_cache file
  end.

(** ** Writing *)

Definition put_stored (s : option bytes) : M unit := fun w => (Ok tt, set_stored s w).

Definition drop_cache : M unit :=
  s ← gets stored;
  match s with
  | Some _ => _ ← io_call; put_stored None
  | None => fail InvalidState
  end.

(** One [write_all] at the end of the cache file. *)
Definition write_all (b : bytes) : M unit :=
  s ← gets stored;
  r ← next_io;
  let old := default [] s in
  match r with
  | IoOk => put_stored (Some (old ++ b))
  | IoFail written => _ ← put_stored (Some (old ++ take written b)); fail IOError
  end.

Definition _dump_vec_to_file (v : list bytes) : M unit :=
  forM (fun line =>
    _ ← write_all (le_bytes 8 (N.of_nat (length line)));
    write_all line) v.

Definition genesis_binary_line (txns : list bytes) (line : string) : M (list bytes) :=
  _ ← io_call;
  txn ← lift (_parse_txn_from_json line);
  mret (txns ++ [txn]).

Definition _genesis_to_binary (lines : list string) : M (list bytes) :=
  _ ← io_call;
  foldlM genesis_binary_line lines [].

Definition _dump_genesis_to_stored : M unit :=
  g ← gets genesis;
  match g with
  | None => fail PoolNotCreated
  | Some lines =>
      _ ← io_call;
      _ ← put_stored (Some []);
      genesis_vec ← _genesis_to_binary lines;
      _dump_vec_to_file genesis_vec
  end.

Definition dump_new_txns (txns : list bytes) : M unit :=
  s ← gets stored;
  _ ← match s with None => _dump_genesis_to_stored | Some _ => mret tt end;
  _ ← io_call;
  _dump_vec_to_file txns.

(** ** The node state *)

(** The transaction in the form of version 1, if it fits the protocol version. *)
Definition to_v1 (protocol_version : N) (txn : NodeTransaction) : IndyResult NodeTransactionV1 :=
  match txn with
  | Txn_V0 txn =>
      if negb (protocol_version =? 1)%N then Err PoolIncompatibleProtocolVersion else Ok (v1_from txn)
  | Txn_V1 txn =>
      if negb (protocol_version =? 2)%N then Err PoolIncompatibleProtocolVersion else Ok txn
  end.

Definition node_state_step (protocol_version : N) (gen_tnxs : gmap string NodeTransactionV1)
    (gen_txn : bytes) : IndyResult (gmap string NodeTransactionV1) :=
  gen_txn ← ok_or (rmp_node_transaction gen_txn) InvalidState;
  gen_txn ← to_v1 protocol_version gen_txn;
  let d := dest (txn_data (txn gen_txn)) in
  match gen_tnxs !! d with
  | Some old => new ← update old gen_txn; Ok (<[d := new]> gen_tnxs)
  | None => Ok (<[d := gen_txn]> gen_tnxs)
  end.

Definition build_node_state (merkle_tree : MerkleTree) : M (gmap string NodeTransactionV1) :=
  pv ← gets protocol_version;
  lift (leaves ← iter merkle_tree; foldM (node_state_step pv) leaves ∅).

(** ** Specification of the cache file *)

Definition encode_record (r : bytes) : bytes := le_bytes 8 (N.of_nat (length r)) ++ r.
Definition encode_records (rs : list bytes) : bytes := concat (encode_record <$> rs).

(** Records that a vector can hold. *)
Definition sized (r : bytes) : Prop := (N.of_nat (length r) <= isize_max)%N.

Lemma encode_records_cons r rs : encode_records (r :: rs) = encode_record r ++ encode_records rs.
Proof. done. Qed.

Lemma encode_records_app rs ts : encode_records (rs ++ ts) = encode_records rs ++ encode_records ts.
Proof. unfold encode_records. by rewrite fmap_app, concat_app. Qed.

Lemma encode_record_length r : length (encode_record r) = 8 + length r.
Proof. unfold encode_record. by rewrite length_app, le_bytes_length. Qed.

Lemma isize_max_lt : (isize_max < usize_modulus)%N /\ (usize_modulus <= 2 ^ 64)%N.
Proof. unfold isize_max, usize_modulus. by destruct usize_bits_cases as [-> | ->]. Qed.

Lemma sized_length r : sized r -> le_value (le_bytes 8 (N.of_nat (length r))) = N.of_nat (length r).
Proof.
  unfold sized. intros Hr. destruct isize_max_lt. apply le_value_bytes. change (256 ^ N.of_nat 8)%N with (2 ^ 64)%N. lia.
Qed.

Lemma io_call_ok w : io w = [] -> io_call w = (Ok tt, w).
Proof. intros Hio. unfold io_call. rewrite bind_run. unfold next_io. by rewrite Hio. Qed.

(** One record is read back, whatever follows it. *)
Lemma cache_loop_record fuel r rest mt w : io w = [] -> sized r ->
  cache_loop (S fuel) (encode_record r ++ rest) mt w =
    (lift (append mt r) ≫= cache_loop fuel rest) w.
Proof.
  intros Hio Hr. cbn [cache_loop]. rewrite bind_run, io_call_ok by done.
  rewrite decide_False by (rewrite length_app, encode_record_length; lia).
  unfold encode_record. rewrite <-!app_assoc.
  rewrite take_app_length', drop_app_length' by (by rewrite le_bytes_length).
  rewrite sized_length by done. destruct isize_max_lt.
  unfold sized in Hr. rewrite N.mod_small by lia.
  destruct (N.ltb_spec isize_max (N.of_nat (length r))); [lia|].
  rewrite bind_run, io_call_ok by done. rewrite length_app.
  destruct (N.ltb_spec (N.of_nat (length r + length rest)) (N.of_nat (length r))); [lia|].
  by rewrite Nat2N.id, take_app_length, drop_app_length.
Qed.

(** A record that is cut short is noticed, unless it is cut in its length. *)
Lemma cache_loop_cut fuel r k mt w : io w = [] -> sized r -> k < 8 + length r ->
  cache_loop (S fuel) (take k (encode_record r)) mt w =
    ((if decide (k < 8) then Ok mt else Err InvalidState), w).
Proof.
  intros Hio Hr Hk. cbn [cache_loop]. rewrite bind_run, io_call_ok by done.
  rewrite length_take, encode_record_length, Nat.min_l by lia.
  destruct (decide (k < 8)); [done|].
  unfold encode_record. rewrite take_app_ge by (rewrite le_bytes_length; lia).
  rewrite take_app_length', drop_app_length' by (by rewrite le_bytes_length).
  rewrite sized_length, le_bytes_length by done. destruct isize_max_lt.
  unfold sized in Hr. rewrite N.mod_small by lia.
  destruct (N.ltb_spec isize_max (N.of_nat (length r))); [lia|].
  rewrite bind_run, io_call_ok by done. rewrite length_take.
  destruct (N.ltb_spec (N.of_nat (Nat.min (k - 8) (length r))) (N.of_nat (length r))); [done|lia].
Qed.

(** The number of whole records in the first [k] bytes of a file, and what is left. *)
Fixpoint whole (k : nat) (rs : list bytes) : nat * nat :=
  match rs with
  | [] => (0, 0)
  | r :: rs =>
      if decide (8 + length r <= k) then
        let '(j, rem) := whole (k - (8 + length r)) rs in (S j, rem)
      else (0, k)
  end.

(** What reading a cache file that was cut after [k] bytes gives: the tree of its whole
    records, or an error after them. *)
Lemma cache_loop_truncated fuel rs mt k w :
  io w = [] -> Forall sized rs -> (whole k rs).1 < fuel ->
  cache_loop fuel (take k (encode_records rs)) mt w =
    ((mt' ← append_all mt (take (whole k rs).1 rs);
      if decide ((whole k rs).2 < 8) then Ok mt' else Err InvalidState), w).
Proof.
  revert fuel k mt. induction rs as [|r rs IH]; intros [|fuel] k mt Hio Hrs Hf; try lia.
  - unfold encode_records. cbn [fmap list_fmap concat]. rewrite take_nil. cbn [cache_loop].
    by rewrite bind_run, io_call_ok.
  - apply Forall_cons in Hrs as [Hr Hrs]. rewrite encode_records_cons. cbn [whole] in *.
    destruct (decide (8 + length r <= k)) as [Hk|Hk].
    + destruct (whole (k - (8 + length r)) rs) as [j rem] eqn:Hw. cbn [fst] in Hf.
      rewrite take_app_ge by (rewrite encode_record_length; lia).
      rewrite cache_loop_record by done. rewrite bind_run, encode_record_length. unfold lift.
      destruct (append mt r) as [mt'|e| |] eqn:Ha;
        [rewrite IH, Hw by (done || (rewrite Hw; cbn [fst]; lia))|..]; cbn; by rewrite Ha.
    + rewrite take_app_le by (rewrite encode_record_length; lia).
      rewrite cache_loop_cut by (done || lia). done.
Qed.

Lemma whole_all k rs : length (encode_records rs) <= k -> whole k rs = (length rs, 0).
Proof.
  revert k. induction rs as [|r rs IH]; intros k Hk; [done|].
  rewrite encode_records_cons, length_app, encode_record_length in Hk. cbn [whole].
  rewrite decide_True by lia. by rewrite IH by lia.
Qed.

(** Bytes that hold some records whole hold at least them. *)
Lemma whole_prefix k rs ts : length (encode_records rs) <= k ->
  exists j, (whole k (rs ++ ts)).1 = length rs + j.
Proof.
  revert k. induction rs as [|r rs IH]; intros k Hk; cbn [app]; [by eexists|].
  rewrite encode_records_cons, length_app, encode_record_length in Hk. cbn [whole].
  rewrite decide_True by lia. destruct (IH (k - (8 + length r)) ltac:(lia)) as [j Hj].
  exists j. destruct (whole _ _) as [j' rem]. cbn in *. lia.
Qed.

Lemma whole_count k rs : (whole k rs).1 <= length (take k (encode_records rs)).
Proof.
  revert k. induction rs as [|r rs IH]; intros k; cbn [whole]; [cbn; lia|].
  rewrite encode_records_cons. case_decide; [|cbn; lia].
  rewrite take_app_ge, length_app by (rewrite encode_record_length; lia).
  rewrite encode_record_length. specialize (IH (k - (8 + length r))).
  destruct (whole _ rs) as [j rem]. cbn in *. lia.
Qed.

(** ** The writes *)

(** [m] ends, whatever the file system does, in a world whose cache file is the old one
    and some first bytes of [b], all of them if it returns. *)
Definition appends (m : M unit) (b : bytes) : Prop := forall w s, stored w = Some s ->
  exists k, stored (m w).2 = Some (s ++ take k b) /\ genesis (m w).2 = genesis w /\
    match (m w).1 with Ok _ => take k b = b | Err e => e = IOError | _ => False end.

Lemma appends_ret : appends (mret tt) [].
Proof. intros w s Hs. exists 0. cbn. by rewrite Hs, app_nil_r. Qed.

Lemma appends_write_all b : appends (write_all b) b.
Proof.
  intros w s Hs. unfold write_all. rewrite bind_run. cbn. rewrite Hs, bind_run. unfold next_io.
  destruct (io w) as [|[|n] l]; cbn.
  - exists (length b). by rewrite firstn_all.
  - exists (length b). by rewrite firstn_all.
  - by exists n.
Qed.

Lemma appends_io_call : appends io_call [].
Proof.
  intros w s Hs. unfold io_call. rewrite bind_run. unfold next_io.
  destruct (io w) as [|[|n] l]; cbn; exists 0; by rewrite Hs, app_nil_r.
Qed.

Lemma appends_bind m n b c : appends m b -> appends n c -> appends (m ≫= fun _ => n) (b ++ c).
Proof.
  intros Hm Hn w s Hw. rewrite bind_run. destruct (Hm w s Hw) as (k & Hs & Hg & Hr).
  destruct (m w) as [[a|e| |] w1]; cbn in *; try done.
  - destruct (Hn w1 _ Hs) as (k' & Hs' & Hg' & Hr').
    exists (length b + k'). rewrite Hs', Hg', <-app_assoc, Hr.
    rewrite take_app_add. split_and!; [done..|].
    destruct (n w1).1; [congruence|done..].
  - exists (Nat.min k (length b)). rewrite take_app_le by lia. rewrite Hs.
    split_and!; [|done..]. do 2 f_equal. by rewrite <-take_take, firstn_all.
Qed.

Lemma appends_dump v : appends (_dump_vec_to_file v) (encode_records v).
Proof.
  induction v as [|r v IH]; [apply appends_ret|].
  rewrite encode_records_cons. apply appends_bind; [|exact IH].
  apply appends_bind; apply appends_write_all.
Qed.

(** Without failures the records are appended. *)
Lemma dump_vec_ok v w s : io w = [] -> stored w = Some s ->
  _dump_vec_to_file v w = (Ok tt, set_stored (Some (s ++ encode_records v)) w).
Proof.
  revert w s. induction v as [|r v IH]; intros w s Hio Hs.
  - cbn. rewrite app_nil_r, <-Hs. by destruct w.
  - rewrite encode_records_cons, app_assoc.
    unfold _dump_vec_to_file. cbn [forM]. rewrite bind_run. unfold write_all.
    rewrite bind_run, bind_run. cbn. rewrite bind_run. unfold next_io. rewrite Hio, Hs. cbn.
    rewrite bind_run. cbn. rewrite bind_run. unfold next_io. cbn. rewrite Hio. cbn.
    fold (_dump_vec_to_file v). rewrite IH with (s := s ++ encode_record r); [|done|].
    + done.
    + cbn. unfold encode_record. by rewrite <-app_assoc.
Qed.

(** ** Reading back *)

Definition load (l : list bytes) : IndyResult MerkleTree := mt ← from_vec []; append_all mt l.

Lemma load_hashes l : Hash.hashes (load l) (fun mt => represents mt l).
Proof.
  eapply Hash.hashes_bind; [apply from_vec_hashes|]. intros mt Hmt. by apply (append_all_hashes l mt []).
Qed.

Lemma load_run l :
  load l = match from_vec [] with
           | Ok mt => append_all mt l
           | Err e => Err e
           | Panic => Panic
           | OutOfFuel => OutOfFuel
           end.
Proof. done. Qed.

(** [create] on a cache file that was cut after [k] bytes. *)
Lemma create_truncated rs k w :
  io w = [] -> Forall sized rs -> stored w = Some (take k (encode_records rs)) ->
  create w = ((mt ← load (take (whole k rs).1 rs);
               if decide ((whole k rs).2 < 8) then Ok mt else Err InvalidState), w).
Proof.
  intros Hio Hrs Hs. unfold create. rewrite bind_run. unfold gets, id. rewrite Hs.
  unfold _from_cache. rewrite bind_run, load_run. unfold lift.
  destruct (from_vec []) as [mt|e| |]; try done. rewrite bind_run, io_call_ok by done.
  apply cache_loop_truncated; [done..|]. pose proof (whole_count k rs). lia.
Qed.

Lemma create_stored rs w : io w = [] -> Forall sized rs -> stored w = Some (encode_records rs) ->
  create w = (load rs, w).
Proof.
  intros Hio Hrs Hs. rewrite <-(firstn_all (encode_records rs)) in Hs.
  rewrite (create_truncated rs _ w Hio Hrs Hs), whole_all by done.
  cbn [fst snd]. rewrite firstn_all. destruct (load rs); cbn [mbind outcome_bind]; [|done..].
  by rewrite decide_True by lia.
Qed.

(** ** The genesis file *)

(** A line without a transaction. *)
Definition blank (line : string) : Prop := trim line = ""%string.
#[export] Instance blank_dec line : Decision (blank line) := decide (trim line = ""%string).

Lemma blank_parse line : blank line -> _parse_txn_from_json line = Ok [].
Proof. unfold blank, _parse_txn_from_json. intros ->. done. Qed.

(** The transactions of a genesis file: those of its lines that are not blank. *)
Definition genesis_txns (lines : list string) (bins : list bytes) : Prop :=
  Forall2 (fun line bin => _parse_txn_from_json line = Ok bin) lines bins.

Fixpoint nonblank (lines : list string) (bins : list bytes) : list bytes :=
  match lines, bins with
  | line :: lines, bin :: bins =>
      if decide (blank line) then nonblank lines bins else bin :: nonblank lines bins
  | _, _ => []
  end.

Lemma genesis_lines_run lines bins mt w : io w = [] -> genesis_txns lines bins ->
  foldlM genesis_line lines mt w = (append_all mt (nonblank lines bins), w).
Proof.
  intros Hio Hb. revert mt. induction Hb as [|line bin lines bins Hp _ IH]; intros mt; [done|].
  cbn [foldlM nonblank]. rewrite bind_run. unfold genesis_line at 1. rewrite bind_run, io_call_ok by done.
  unfold blank at 1. case_decide as Hl; case_decide as Hl'; try done; [apply IH|].
  rewrite Hp. cbn. destruct (append mt bin); [apply IH|done..].
Qed.

Lemma create_genesis lines bins w :
  io w = [] -> stored w = None -> genesis w = Some lines -> genesis_txns lines bins ->
  create w = (load (nonblank lines bins), w).
Proof.
  intros Hio Hs Hg Hb. unfold create. rewrite bind_run. unfold gets, id. rewrite Hs, Hg.
  unfold _from_genesis. rewrite bind_run, load_run. unfold lift.
  destruct (from_vec []) as [mt|e| |]; try done. rewrite bind_run, io_call_ok by done.
  by apply genesis_lines_run.
Qed.

Lemma genesis_to_binary_run lines bins acc w : io w = [] -> genesis_txns lines bins ->
  foldlM genesis_binary_line lines acc w = (Ok (acc ++ bins), w).
Proof.
  intros Hio Hb. revert acc. induction Hb as [|line bin lines bins Hp _ IH]; intros acc.
  - cbn. by rewrite app_nil_r.
  - cbn [foldlM]. rewrite bind_run. unfold genesis_binary_line at 1.
    rewrite bind_run, io_call_ok, bind_run by done. unfold lift. rewrite Hp. cbn.
    by rewrite IH, <-app_assoc.
Qed.

Lemma first_dump_run lines bins w :
  io w = [] -> genesis w = Some lines -> genesis_txns lines bins ->
  _dump_genesis_to_stored w = (Ok tt, set_stored (Some (encode_records bins)) w).
Proof.
  intros Hio Hg Hb. unfold _dump_genesis_to_stored. rewrite bind_run. unfold gets. rewrite Hg.
  rewrite bind_run, io_call_ok, bind_run by done.
  cbv [put_stored]. unfold _genesis_to_binary. rewrite bind_run, bind_run, io_call_ok by done.
  rewrite (genesis_to_binary_run lines bins) by done. by rewrite (dump_vec_ok bins _ []).
Qed.
End factory.

(** ** Properties *)
Section properties.
Context `{Machine} `{Sha256} `{JsonText} `{PoolCodecs} `{Base58} `{HashOrder}.

(** the cache file round-trips.  Appending transactions to a cache of records and
    reading the cache again gives the Merkle tree of the old records followed by the new
    transactions (unless OpenSSL fails), for every record that fits in memory. *)
Theorem cache_roundtrip (rs ts : list bytes) (w : World) :
  io w = [] -> Forall sized (rs ++ ts) -> stored w = Some (encode_records rs) ->
  exists w', dump_new_txns ts w = (Ok tt, w') /\ stored w' = Some (encode_records (rs ++ ts)) /\
    Hash.hashes (create w').1 (fun mt => represents mt (rs ++ ts)).
Proof.
  intros Hio Hsz Hs. exists (set_stored (Some (encode_records (rs ++ ts))) w). split_and!; [|done|].
  - unfold dump_new_txns. rewrite bind_run. unfold gets. rewrite Hs, bind_run. cbn [mret StateM_ret].
    rewrite bind_run, io_call_ok, (dump_vec_ok ts w _ Hio Hs) by done.
    by rewrite encode_records_app.
  - rewrite (create_stored (rs ++ ts)) by done. apply load_hashes.
Qed.

(** a crash while the cache is extended loses no old record and invents none.
    However the calls on the file system fail while transactions are appended to a cache,
    reading the file later either reports [InvalidState] or gives the tree of all the old
    records and a prefix of the new ones. *)
Theorem cache_crash_safe (rs ts : list bytes) (w w' : World) :
  Forall sized (rs ++ ts) -> stored w = Some (encode_records rs) ->
  stored w' = stored (dump_new_txns ts w).2 -> io w' = [] ->
  match (create w').1 with
  | Ok mt => exists j, represents mt (rs ++ take j ts)
  | Err e => e = InvalidState
  | Panic | OutOfFuel => False
  end.
Proof.
  intros Hsz Hs Hs' Hio.
  assert (exists k, stored w' = Some (take k (encode_records (rs ++ ts))) /\
    length (encode_records rs) <= k) as (k & Hk & Hle).
  { rewrite Hs'. unfold dump_new_txns. rewrite bind_run. unfold gets. rewrite Hs, bind_run. cbn [mret StateM_ret].
    destruct (appends_bind _ _ _ _ appends_io_call (appends_dump ts) w _ Hs) as (k & Hk & _).
    exists (length (encode_records rs) + k). rewrite encode_records_app, take_app_add.
    split; [exact Hk|lia]. }
  rewrite (create_truncated _ _ _ Hio Hsz Hk). cbn [fst].
  destruct (whole_prefix k rs ts Hle) as [j ->]. rewrite take_app_add.
  pose proof (load_hashes (rs ++ take j ts)) as Hl.
  destruct (load _) as [mt|e| |]; cbn in *; [case_decide; [by exists j|done]|by destruct Hl|done..].
Qed.

(** the cache of a genesis file is not the genesis file.  Without failures, the tree
    made from the genesis file has a leaf per line that is not blank, the first dump makes
    a cache with a record per line, and the tree read from that cache has an extra empty
    leaf for every blank line: the two trees agree exactly when no line is blank. *)
Theorem genesis_cache_blank_lines (lines : list string) (bins ts : list bytes) (w : World) :
  io w = [] -> stored w = None -> genesis w = Some lines -> genesis_txns lines bins ->
  Forall sized (bins ++ ts) ->
  Hash.hashes (create w).1 (fun mt => represents mt (nonblank lines bins)) /\
  (exists w', dump_new_txns ts w = (Ok tt, w') /\
    Hash.hashes (create w').1 (fun mt => represents mt (bins ++ ts))) /\
  (nonblank lines bins = bins <-> Forall (fun line => ~ blank line) lines).
Proof.
  intros Hio Hs Hg Hb Hsz. split_and!.
  - rewrite (create_genesis lines bins) by done. apply load_hashes.
  - exists (set_stored (Some (encode_records (bins ++ ts))) w). split.
    + unfold dump_new_txns. rewrite bind_run. unfold gets. rewrite Hs, bind_run.
      rewrite (first_dump_run lines bins), bind_run, io_call_ok by done.
      by rewrite (dump_vec_ok ts _ (encode_records bins)), encode_records_app.
    + rewrite (create_stored (bins ++ ts)) by done. apply load_hashes.
  - clear Hg Hsz. assert (length (nonblank lines bins) <= length bins) as Hle.
    { clear -Hb. induction Hb; cbn; [lia|]. case_decide; cbn; lia. }
    clear Hio Hs. induction Hb as [|line bin lines bins Hp Hb IH]; cbn [nonblank]; [done|].
    rewrite Forall_cons. assert (length (nonblank lines bins) <= length bins) as Hle'.
    { clear -Hb. induction Hb; cbn; [lia|]. case_decide; cbn; lia. }
    case_decide as Hl.
    + split; [|naive_solver]. intros He. apply (f_equal length) in He. cbn in He. lia.
    + rewrite <-IH by done. split; [|by intros [_ ->]]. by intros [= ->].
Qed.

(** an interrupted first dump loses the ledger.  When the cache file has just been
    created and the genesis file then cannot be read, the empty cache stays behind, and
    from then on [create] returns the empty tree, without an error. *)
Theorem interrupted_first_dump (lines : list string) (ts : list bytes) (w w' : World) :
  stored w = None -> genesis w = Some lines -> io w = [IoOk; IoFail 0] ->
  stored w' = stored (dump_new_txns ts w).2 -> io w' = [] ->
  (dump_new_txns ts w).1 = Err IOError /\
  Hash.hashes (create w').1 (fun mt => represents mt []).
Proof.
  intros Hs Hg Hio Hs' Hio'.
  assert (dump_new_txns ts w = (Err IOError, set_io [] (set_stored (Some []) w))) as Hd.
  { unfold dump_new_txns. rewrite bind_run. unfold gets. rewrite Hs, bind_run.
    unfold _dump_genesis_to_stored. rewrite bind_run. unfold gets. rewrite Hg, bind_run.
    unfold io_call at 1. rewrite bind_run. unfold next_io. by rewrite Hio. }
  rewrite Hd in Hs' |- *. split; [done|]. rewrite (create_stored []) by done. apply load_hashes.
Qed.
End properties.

(** ** Witnesses *)

#[local] Existing Instances ToySha.sha ToySha.sha_length ToyPool.machine ToyPool.order
  ToyPool.base58 ToyPool.json_text ToyPool.codecs.

Definition sample_world (g : option (list string)) (s : option bytes) (l : list IoResult) : World :=
  mk_world g s l [] 2 1000 600.

Definition sample_lines : list string := ["a"; ""; "b"]%string.
Definition sample_bins : list bytes := [[Byte.x61]; []; [Byte.x62]].

Lemma cache_roundtrip_witness :
  let w := sample_world None (Some (encode_records [[Byte.x61]])) [] in
  exists w', dump_new_txns [[Byte.x62]; [Byte.x63]] w = (Ok tt, w') /\
    stored w' = Some (encode_records [[Byte.x61]; [Byte.x62]; [Byte.x63]]) /\
    Hash.hashes (create w').1 (fun mt => represents mt [[Byte.x61]; [Byte.x62]; [Byte.x63]]).
Proof.
  apply (cache_roundtrip [[Byte.x61]] [[Byte.x62]; [Byte.x63]]); [reflexivity| |reflexivity].
  repeat constructor; vm_compute; discriminate.
Defined.

(** The second record is cut in the middle. *)
Lemma cache_crash_safe_witness :
  let w := sample_world None (Some (encode_records [[Byte.x61]])) [IoOk; IoOk; IoFail 1] in
  let w' := sample_world None (stored (dump_new_txns [[Byte.x62; Byte.x63]] w).2) [] in
  (create w').1 = Err InvalidState /\
  match (create w').1 with
  | Ok mt => exists j, represents mt ([[Byte.x61]] ++ take j [[Byte.x62; Byte.x63]])
  | Err e => e = InvalidState
  | Panic | OutOfFuel => False
  end.
Proof.
  split; [vm_compute; reflexivity|].
  apply (cache_crash_safe [[Byte.x61]] [[Byte.x62; Byte.x63]]
    (sample_world None (Some (encode_records [[Byte.x61]])) [IoOk; IoOk; IoFail 1])); try reflexivity.
  repeat constructor; vm_compute; discriminate.
Defined.

Lemma genesis_cache_blank_lines_witness :
  let w := sample_world (Some sample_lines) None [] in
  nonblank sample_lines sample_bins = [[Byte.x61]; [Byte.x62]] /\
  Hash.hashes (create w).1 (fun mt => represents mt (nonblank sample_lines sample_bins)) /\
  (exists w', dump_new_txns [[Byte.x63]] w = (Ok tt, w') /\
    Hash.hashes (create w').1 (fun mt => represents mt (sample_bins ++ [[Byte.x63]]))) /\
  (nonblank sample_lines sample_bins = sample_bins <-> Forall (fun line => ~ blank line) sample_lines).
Proof.
  split; [vm_compute; reflexivity|].
  apply (genesis_cache_blank_lines sample_lines sample_bins [[Byte.x63]]
    (sample_world (Some sample_lines) None [])); try reflexivity.
  - repeat constructor.
  - repeat constructor; vm_compute; discriminate.
Defined.

Lemma interrupted_first_dump_witness :
  let w := sample_world (Some sample_lines) None [IoOk; IoFail 0] in
  let w' := sample_world (Some sample_lines) (stored (dump_new_txns [[Byte.x63]] w).2) [] in
  (dump_new_txns [[Byte.x63]] w).1 = Err IOError /\
  Hash.hashes (create w').1 (fun mt => represents mt []).
Proof.
  apply (interrupted_first_dump sample_lines [[Byte.x63]]); reflexivity.
Defined.
