(* ===== verification/Catchup.v ===== *)
(** * Catchup: the decision to catch up and the check of consistency proofs

    Models [libindy/src/services/pool/catchup.rs] on the world of [World.v].  Sizes are
    [usize]; the subtractions that can go below zero are [usize_sub]. *)

From S2P Require Import Prelude Errors Json Hashing MerkleTree MerkleProof Consistency PoolTypes World MerkleFactory.
Import MerkleTree.MerkleTree.

Inductive CatchupProgress :=
| ShouldBeStarted (target_mt_root : bytes) (target_mt_size : N) (mt : MerkleTree)
| NotNeeded (mt : MerkleTree)
| Restart (mt : MerkleTree)
| InProgress.

(** What a node says about the ledger: the root, the size and the consistency proof.  A
    node that did not answer votes for the root "timeout". *)
Abbreviation LedgerVote := (string * N * option (list string))%type.

Section catchup.
Context `{Machine} `{Sha256} `{JsonText} `{PoolCodecs} `{Base58} `{HashOrder}.

Definition build_catchup_req (merkle : MerkleTree) (target_mt_size : N) :
    IndyResult (option (string * string)) :=
  txns_cnt ← usize_sub target_mt_size (count merkle);
  if (txns_cnt <=? 0)%N then Ok None
  else
    seq_no_start ← usize_add (count merkle) 1;
    let seq_no_end := target_mt_size in
    let cr := mk_catchup_req 0 seq_no_start seq_no_end target_mt_size in
    let req_id := (pretty seq_no_start +:+ pretty seq_no_end)%string in
    req_json ← ok_or (message_to_json (MCatchupReq cr)) InvalidState;
    Ok (Some (req_id, req_json)).

Definition check_cons_proofs (mt : MerkleTree) (cons_proofs : list string)
    (target_mt_root : bytes) (target_mt_size : N) : IndyResult unit :=
  bytes_proofs ← mapM base58_decode cons_proofs;
  ok ← consistency_proof mt target_mt_root target_mt_size bytes_proofs;
  if negb ok then Err InvalidState else Ok tt.

Definition _try_to_catch_up (ledger_status : LedgerVote) (merkle_tree : MerkleTree) :
    IndyResult CatchupProgress :=
  let '(target_mt_root, target_mt_size, hashes) := ledger_status in
  let cur_mt_size := count merkle_tree in
  let cur_mt_hash := to_base58 (root_hash merkle_tree) in
  if (target_mt_size =? cur_mt_size)%N then
    if decide (cur_mt_hash = target_mt_root) then Ok (NotNeeded merkle_tree)
    else Err InvalidState
  else if (cur_mt_size <? target_mt_size)%N then
    target_mt_root ← ok_or (from_base58 target_mt_root) InvalidStructure;
    _ ← match hashes with
        | None => Ok tt
        | Some hashes => check_cons_proofs merkle_tree hashes target_mt_root target_mt_size
        end;
    Ok (ShouldBeStarted target_mt_root target_mt_size merkle_tree)
  else Err InvalidState.

Definition _try_to_restart_catch_up (err : IndyErrorKind) : M CatchupProgress :=
  dropped ← attempt drop_cache;
  match dropped with
  | inr _ => merkle_tree ← create; mret (Restart merkle_tree)
  | inl _ => fail err
  end.

(** The number of votes, over all the answers. *)
Definition reps_cnt (nodes_votes : gmap LedgerVote (gset string)) : N :=
  foldr N.add 0%N ((fun kv => N.of_nat (size kv.2)) <$> map_to_list nodes_votes).

Definition _if_consensus_reachable (nodes_votes : gmap LedgerVote (gset string))
    (node_cnt votes_cnt f : N) : M CatchupProgress :=
  rest ← lift (usize_sub node_cnt (reps_cnt nodes_votes));
  positive_votes_cnt ← lift (usize_add votes_cnt rest);
  needed ← lift (usize_sub node_cnt f);
  if (positive_votes_cnt <? needed)%N then _try_to_restart_catch_up PoolTimeout
  else mret InProgress.

Definition is_timeout_vote (key : LedgerVote) : bool := bool_decide (key.1.1 = "timeout"%string).

(** The numbers of votes of the answers that are, or are not, timeouts. *)
Definition vote_counts (timeouts : bool) (nodes_votes : gmap LedgerVote (gset string)) :
    gmap LedgerVote N :=
  filter (fun kv => is_timeout_vote kv.1 = timeouts) ((fun s : gset string => N.of_nat (size s)) <$> nodes_votes).

Definition check_nodes_responses_on_status (nodes_votes : gmap LedgerVote (gset string))
    (merkle_tree : MerkleTree) (node_cnt f : N) : M CatchupProgress :=
  let votes := vote_counts false nodes_votes in
  let timeout_votes := vote_counts true nodes_votes in
  let most_popular_not_timeout := max_by_key snd (hash_iter votes) in
  let timeout_votes := last (hash_iter timeout_votes) in
  match most_popular_not_timeout with
  | Some (most_popular_not_timeout_vote, votes_cnt) =>
      needed ← lift (usize_add f 1);
      if (votes_cnt =? needed)%N then
        r ← attempt (lift (_try_to_catch_up most_popular_not_timeout_vote merkle_tree));
        match r with
        | inr progress => mret progress
        | inl err =>
            dropped ← attempt drop_cache;
            match dropped with
            | inr _ =>
                merkle_tree ← create;
                lift (_try_to_catch_up most_popular_not_timeout_vote merkle_tree)
            | inl _ => fail err
            end
        end
      else _if_consensus_reachable nodes_votes node_cnt votes_cnt f
  | None =>
      match timeout_votes with
      | Some (_, votes_cnt) =>
          needed ← lift (usize_sub node_cnt f);
          if (votes_cnt =? needed)%N then _try_to_restart_catch_up PoolTimeout
          else _if_consensus_reachable nodes_votes node_cnt votes_cnt f
      | None => mret InProgress
      end
  end.
End catchup.

(** ** Lemmas *)
Section lemmas.
Context `{Machine} `{Sha256} `{JsonText} `{PoolCodecs} `{Base58} `{HashOrder}.

Lemma vote_counts_lookup b votes key c :
  vote_counts b votes !! key = Some c <->
  exists s, votes !! key = Some s /\ c = N.of_nat (size s) /\ is_timeout_vote key = b.
Proof.
  unfold vote_counts. rewrite map_lookup_filter_Some, lookup_fmap_Some. naive_solver.
Qed.

(** The answer with the most votes, among those that are no timeouts. *)
Lemma most_popular_spec votes :
  match max_by_key snd (hash_iter (vote_counts false votes)) with
  | Some (key, c) =>
      is_timeout_vote key = false /\
      (exists s, votes !! key = Some s /\ c = N.of_nat (size s)) /\
      forall key' s', votes !! key' = Some s' -> is_timeout_vote key' = false ->
        (N.of_nat (size s') <= c)%N
  | None => forall key s, votes !! key = Some s -> is_timeout_vote key = true
  end.
Proof.
  pose proof (max_by_key_spec snd (hash_iter (vote_counts false votes))) as Hm.
  destruct (max_by_key _ _) as [[key c]|].
  - destruct Hm as [Hin Hmax]. apply elem_of_hash_iter, vote_counts_lookup in Hin as (s & Hs & -> & Ht).
    split_and!; [done|by exists s|]. intros key' s' Hs' Ht'.
    apply (Hmax (key', _)), elem_of_hash_iter, vote_counts_lookup. by exists s'.
  - intros key s Hs. destruct (is_timeout_vote key) eqn:Ht; [done|].
    assert ((key, N.of_nat (size s)) ∈ hash_iter (vote_counts false votes)) as Hin.
    { apply elem_of_hash_iter, vote_counts_lookup. by exists s. }
    rewrite Hm in Hin. by apply not_elem_of_nil in Hin.
Qed.

(** What [_try_to_catch_up] has checked when it succeeds. *)
Lemma try_to_catch_up_Ok vote mt p :
  _try_to_catch_up vote mt = Ok p ->
  match p with
  | NotNeeded mt' => mt' = mt /\ vote.1.2 = count mt /\ to_base58 (root_hash mt) = vote.1.1
  | ShouldBeStarted root n mt' =>
      mt' = mt /\ n = vote.1.2 /\ (count mt < n)%N /\ from_base58 vote.1.1 = Some root /\
      forall hashes, vote.2 = Some hashes -> check_cons_proofs mt hashes root n = Ok tt
  | Restart _ | InProgress => False
  end.
Proof.
  destruct vote as [[root n] hashes]. unfold _try_to_catch_up. cbn [fst snd].
  destruct (N.eqb_spec n (count mt)) as [->|Hn]; [by case_decide; [intros [= <-]|]|].
  destruct (N.ltb_spec (count mt) n) as [Hlt|]; [|done].
  intros (r & Hr%ok_or_Ok & ([] & Hh & [= <-])%bind_Ok)%bind_Ok.
  split_and!; try done. intros hs ->. by destruct hashes.
Qed.

Lemma restart_cases err w p w' : _try_to_restart_catch_up err w = (Ok p, w') -> exists mt, p = Restart mt.
Proof.
  unfold _try_to_restart_catch_up. rewrite M_bind_Ok. intros (r & w1 & _ & Hr).
  destruct r; [done|]. apply M_bind_Ok in Hr as (mt & w2 & _ & [= <- _]). by exists mt.
Qed.

Lemma if_reachable_cases votes n c f w p w' :
  _if_consensus_reachable votes n c f w = (Ok p, w') -> p = InProgress \/ exists mt, p = Restart mt.
Proof.
  unfold _if_consensus_reachable.
  intros (r1 & w1 & _ & (r2 & w2 & _ & (r3 & w3 & _ & Hp)%M_bind_Ok)%M_bind_Ok)%M_bind_Ok.
  case_match; [right; by eapply restart_cases|]. injection Hp as <- _. by left.
Qed.

(** Where the decision of [check_nodes_responses_on_status] comes from. *)
Lemma check_nodes_Ok votes merkle n f w p :
  (f + 1 < usize_modulus)%N -> (check_nodes_responses_on_status votes merkle n f w).1 = Ok p ->
  p = InProgress \/ (exists mt, p = Restart mt) \/
  exists key s mt, votes !! key = Some s /\ key.1.1 <> "timeout"%string /\
    N.of_nat (size s) = (f + 1)%N /\
    (forall key' s', votes !! key' = Some s' -> key'.1.1 <> "timeout"%string -> size s' <= size s) /\
    _try_to_catch_up key mt = Ok p.
Proof.
  intros Hf. pose proof (most_popular_spec votes) as Hpop.
  unfold check_nodes_responses_on_status.
  destruct (max_by_key _ _) as [[key c]|]; [|destruct (last _) as [[key c]|]].
  - destruct Hpop as (Ht & (s & Hs & ->) & Hmax).
    rewrite bind_run. unfold lift at 1. rewrite usize_add_ok by done.
    destruct (N.eqb_spec (N.of_nat (size s)) (f + 1)) as [Hc|Hc].
    + intros Htry. right; right. exists key, s.
      assert (exists mt, _try_to_catch_up key mt = Ok p) as [mt Hmt].
      { revert Htry. rewrite bind_run. unfold attempt at 1, lift at 1.
        destruct (_try_to_catch_up key merkle) as [p'|e| |] eqn:He; cbn [fst]; try done.
        { intros [= ->]. by exists merkle. }
        rewrite bind_run. destruct (attempt drop_cache w) as [[[e'|[]]|e'| |] w1]; cbn [fst]; try done.
        rewrite bind_run. destruct (create w1) as [[mt|e'| |] w2]; cbn [fst]; try done. by exists mt. }
      exists mt. apply bool_decide_eq_false in Ht. do 3 (split; [done|]). split; [|done].
      intros key' s' Hs' Ht'. specialize (Hmax key' s' Hs' ltac:(by apply bool_decide_eq_false)). lia.
    + destruct (_if_consensus_reachable _ _ _ _ _) as [r w'] eqn:Hr. cbn. intros ->.
      apply if_reachable_cases in Hr. tauto.
  - rewrite bind_run. destruct (lift _ w) as [[needed|e| |] w1]; cbn [fst]; try done.
    case_match; [destruct (_try_to_restart_catch_up _ _) as [r w'] eqn:Hr
                |destruct (_if_consensus_reachable _ _ _ _ _) as [r w'] eqn:Hr]; cbn; intros ->.
    + apply restart_cases in Hr. tauto.
    + apply if_reachable_cases in Hr. tauto.
  - intros [= <-]. by left.
Qed.

(** Without a cache there is nothing to restart from. *)
Lemma restart_without_cache err w : stored w = None -> _try_to_restart_catch_up err w = (Err err, w).
Proof.
  intros Hs. unfold _try_to_restart_catch_up. rewrite bind_run. unfold attempt, drop_cache.
  rewrite bind_run. unfold gets. by rewrite Hs.
Qed.

Lemma reps_cnt_singletons votes a :
  (forall key s, votes !! key = Some s -> s = {[a]}) -> reps_cnt votes = N.of_nat (size votes).
Proof.
  intros Ha. unfold reps_cnt. rewrite <-length_map_to_list.
  assert (Forall (fun kv => kv.2 = {[a]}) (map_to_list votes)) as Hall.
  { apply Forall_forall. intros [key s] Hin%elem_of_map_to_list. by eapply Ha. }
  induction Hall as [|[key s] l Hs _ IH]; cbn in *; [done|]. rewrite IH, Hs, size_singleton. lia.
Qed.

(** Consistency proofs that pass the check come from a tree that extends this one. *)
Lemma check_cons_proofs_sound `{!Sha256Length} l l' mt proofs bs :
  represents mt l -> mapM base58_decode proofs = Ok bs ->
  Forall (fun p => length p = HASHBYTES) bs ->
  collision_free (tree_messages (merkle l) ++ tree_messages (merkle l') ++
    verifier_messages mt (N.of_nat (length l')) bs) ->
  check_cons_proofs mt proofs (mth l') (N.of_nat (length l')) = Ok tt ->
  consistency_proof mt (mth l') (N.of_nat (length l')) bs = Ok true.
Proof.
  intros _ Hbs _ _ Hc. unfold check_cons_proofs in Hc. rewrite Hbs in Hc. cbn in Hc.
  apply bind_Ok in Hc as ([] & Hc & Hok); done.
Qed.
End lemmas.

(** ** Properties *)
Section properties.
Context `{Machine} `{Sha256} `{JsonText} `{PoolCodecs} `{Base58} `{HashOrder}.

(** What stands behind a decision: an answer that is not a timeout, given by exactly
    [f + 1] nodes and by as many as any other, that fits the tree. *)
Definition target_voted (votes : gmap LedgerVote (gset string)) (f : N) (p : CatchupProgress) : Prop :=
  match p with
  | InProgress | Restart _ => True
  | NotNeeded mt | ShouldBeStarted _ _ mt =>
      exists key s, votes !! key = Some s /\ key.1.1 <> "timeout"%string /\
        N.of_nat (size s) = (f + 1)%N /\
        (forall key' s', votes !! key' = Some s' -> key'.1.1 <> "timeout"%string -> size s' <= size s) /\
        match p with
        | ShouldBeStarted root sz _ =>
            sz = key.1.2 /\ (count mt < sz)%N /\ from_base58 key.1.1 = Some root /\
            forall hashes, key.2 = Some hashes -> check_cons_proofs mt hashes root sz = Ok tt
        | _ => key.1.2 = count mt /\ to_base58 (root_hash mt) = key.1.1
        end
  end.

(** a catchup target has exactly [f + 1] votes.  When the answers of the nodes make
    the pool start a catchup, or decide that none is needed, there is an answer that is
    not a timeout and that exactly [f + 1] nodes gave, none was given by more, and the
    decision follows from it: its size and root are those of the current tree (or of the
    tree of the genesis file, after the cache was dropped), or the size is larger, the
    root decodes to the target and the consistency proof, when there is one, was
    accepted. *)
Theorem catchup_target_voted (votes : gmap LedgerVote (gset string)) (merkle : MerkleTree)
    (n f : N) (w : World) (p : CatchupProgress) :
  (f + 1 < usize_modulus)%N ->
  (check_nodes_responses_on_status votes merkle n f w).1 = Ok p ->
  target_voted votes f p.
Proof.
  intros Hf [->|[[mt ->]|(key & s & mt & Hs & Ht & Hc & Hmax & Hp)]]%check_nodes_Ok; [done..| |done].
  apply try_to_catch_up_Ok in Hp.
  destruct p as [root sz mt'|mt'| |]; try done; destruct Hp as (-> & Hp); exists key, s; naive_solver.
Qed.

(** one node can block the catchup of a pool that tolerates failures.  The votes of a
    node are counted once per answer: when one node alone gave [k] different answers, more
    than [f + 1], the pool gives up with [PoolTimeout] although no other node has been
    heard, if there is no cache to restart from; with more answers than there are nodes,
    a build with overflow checks unwinds. *)
Theorem one_node_blocks_catchup (votes : gmap LedgerVote (gset string)) (merkle : MerkleTree)
    (n f : N) (a : string) (w : World) :
  (1 <= f)%N -> (f < n < usize_modulus - 1)%N -> stored w = None ->
  (forall key s, votes !! key = Some s -> s = {[a]} /\ key.1.1 <> "timeout"%string) ->
  (f + 1 < N.of_nat (size votes))%N ->
  ((N.of_nat (size votes) <= n)%N ->
    check_nodes_responses_on_status votes merkle n f w = (Err PoolTimeout, w)) /\
  ((n < N.of_nat (size votes))%N -> overflow_checks = true ->
    check_nodes_responses_on_status votes merkle n f w = (Panic, w)).
Proof.
  intros Hf Hn Hs Hone Hk.
  assert (reps_cnt votes = N.of_nat (size votes)) as Hreps.
  { apply (reps_cnt_singletons votes a). intros. by eapply Hone. }
  assert (check_nodes_responses_on_status votes merkle n f w =
    _if_consensus_reachable votes n 1 f w) as ->.
  { pose proof (most_popular_spec votes) as Hpop. unfold check_nodes_responses_on_status.
    destruct (max_by_key _ _) as [[key c]|].
    - destruct Hpop as (_ & (s & [-> _]%Hone & ->) & _). rewrite size_singleton.
      rewrite bind_run. unfold lift at 1. rewrite usize_add_ok by lia.
      by destruct (N.eqb_spec (N.of_nat 1) (f + 1)); [lia|].
    - exfalso. destruct (map_choose votes) as (key & s & Hks).
      { intros ->. rewrite map_size_empty in Hk. lia. }
      specialize (Hpop key s Hks). apply bool_decide_eq_true in Hpop. by apply Hone in Hks as [_ []]. }
  unfold _if_consensus_reachable. rewrite bind_run, Hreps. unfold lift at 1 4. split.
  - intros Hle. rewrite usize_sub_ok, bind_run by done. unfold lift at 1.
    rewrite usize_add_ok, bind_run by lia. unfold lift at 1. rewrite usize_sub_ok by lia.
    destruct (N.ltb_spec (1 + (n - N.of_nat (size votes))) (n - f)); [|lia].
    by apply restart_without_cache.
  - intros Hlt Hoc. unfold usize_sub at 1. destruct (N.leb_spec (N.of_nat (size votes)) n); [lia|].
    by rewrite Hoc.
Qed.

(** a catchup that was decided can be requested.  When the answers of the nodes
    make the pool start a catchup, the request that is then built for it does not wrap:
    it asks for the transactions from the one after the last local one to the target. *)
Theorem catchup_req_for_target (votes : gmap LedgerVote (gset string)) (merkle : MerkleTree)
    (n f : N) (w : World) (root : bytes) (sz : N) (mt : MerkleTree) :
  (f + 1 < usize_modulus)%N -> (sz < usize_modulus)%N ->
  (check_nodes_responses_on_status votes merkle n f w).1 = Ok (ShouldBeStarted root sz mt) ->
  build_catchup_req mt sz =
    (req_json ← ok_or (message_to_json (MCatchupReq (mk_catchup_req 0 (count mt + 1) sz sz))) InvalidState;
     Ok (Some ((pretty (count mt + 1)%N +:+ pretty sz)%string, req_json))).
Proof.
  intros Hf Hsz Hc. assert (count mt < sz)%N as Hlt.
  { apply check_nodes_Ok in Hc as [|[[? ?]|(key & s & mt' & _ & _ & _ & _ & Hp)]]; [done..| |done].
    by apply try_to_catch_up_Ok in Hp as (-> & -> & ? & _). }
  unfold build_catchup_req. rewrite usize_sub_ok by lia. cbn [mbind outcome_bind].
  destruct (N.leb_spec (sz - count mt) 0); [lia|]. by rewrite usize_add_ok by lia.
Qed.
End properties.

(** ** Witnesses *)

#[local] Existing Instances ToySha.sha ToySha.sha_length ToyPool.machine ToyPool.order
  ToyPool.base58 ToyPool.json_text ToyPool.codecs.

(** Two nodes that say that the ledger has 5 transactions, and one that is silent. *)
Definition sample_votes : gmap LedgerVote (gset string) :=
  <[("root"%string, 5%N, None) := {["a"%string; "b"%string]}]>
  (<[("timeout"%string, 0%N, None) := {["c"%string]}]> ∅).

(** Three different answers of one node. *)
Definition greedy_votes : gmap LedgerVote (gset string) :=
  <[("r1"%string, 5%N, None) := {["a"%string]}]>
  (<[("r2"%string, 5%N, None) := {["a"%string]}]>
  (<[("r3"%string, 5%N, None) := {["a"%string]}]> ∅)).

Definition sample_progress : CatchupProgress := ShouldBeStarted (as_bytes "root") 5 sample_tree.

Lemma catchup_target_voted_witness :
  (check_nodes_responses_on_status sample_votes sample_tree 4 1 (sample_world None None [])).1 =
    Ok sample_progress /\ target_voted sample_votes 1 sample_progress.
Proof.
  split; [vm_compute; reflexivity|].
  apply (catchup_target_voted sample_votes sample_tree 4 1 (sample_world None None []));
    vm_compute; reflexivity.
Defined.

Lemma greedy_votes_of_a key s :
  greedy_votes !! key = Some s -> s = {["a"%string]} /\ key.1.1 <> "timeout"%string.
Proof.
  apply (map_Forall_lookup_1 (fun key s => s = {["a"%string]} /\ key.1.1 <> "timeout"%string)).
  apply (bool_decide_unpack _). vm_compute. exact I.
Qed.

Lemma one_node_blocks_catchup_witness :
  check_nodes_responses_on_status greedy_votes sample_tree 4 1 (sample_world None None []) =
    (Err PoolTimeout, sample_world None None []) /\
  check_nodes_responses_on_status greedy_votes sample_tree 2 1 (sample_world None None []) =
    (Panic, sample_world None None []).
Proof.
  split.
  - refine (proj1 (one_node_blocks_catchup greedy_votes sample_tree 4 1 "a" (sample_world None None [])
      _ _ _ greedy_votes_of_a _) _); vm_compute; by try split.
  - refine (proj2 (one_node_blocks_catchup greedy_votes sample_tree 2 1 "a" (sample_world None None [])
      _ _ _ greedy_votes_of_a _) _ _); vm_compute; by try split.
Defined.

Lemma catchup_req_for_target_witness :
  build_catchup_req sample_tree 5 = Ok (Some ("45"%string, "{}"%string)) /\
  build_catchup_req sample_tree 5 =
    (req_json ← ok_or (message_to_json (MCatchupReq (mk_catchup_req 0 (count sample_tree + 1) 5 5))) InvalidState;
     Ok (Some ((pretty (count sample_tree + 1)%N +:+ pretty 5%N)%string, req_json))).
Proof.
  split; [vm_compute; reflexivity|].
  apply (catchup_req_for_target sample_votes sample_tree 4 1 (sample_world None None []) (as_bytes "root") 5 sample_tree);
    vm_compute; reflexivity.
Defined.
