(* ===== verification/Response.v ===== *)
(** * Response: the metadata of ledger responses

    Models [libindy/src/domain/ledger/response.rs] and, of
    [libindy/src/services/pool/mod.rs], [parse_response_metadata],
    [get_last_signed_time] and the freshness threshold.  The derived parser of
    [Message<Value>] is the class [ResponseCodec]. *)

From S2P Require Import Prelude Errors Json World.

Record Response := mk_response { req_id : N; reason : string }.

(** [Reply<T>]: [ReplyV1] carries [data.result]. *)
Inductive Reply (T : Type) :=
| ReplyV0 (result : T)
| ReplyV1 (data_result : list T).
Arguments ReplyV0 {T} result.
Arguments ReplyV1 {T} data_result.

Inductive Message (T : Type) :=
| ReqNACK (r : Response)
| MReply (r : Reply T)
| Reject (r : Response).
Arguments ReqNACK {T} r.
Arguments MReply {T} r.
Arguments Reject {T} r.

(** [Reply::result]; [remove(0)] unwinds on an empty vector. *)
Definition result {T} (self : Reply T) : IndyResult T :=
  match self with
  | ReplyV0 r => Ok r
  | ReplyV1 (r :: _) => Ok r
  | ReplyV1 [] => Panic
  end.

Record ResponseMetadata := mk_metadata {
  seq_no : option N;
  txn_time : option N;
  last_txn_time : option N;
  last_seq_no : option N;
}.

(** [serde_json::from_str::<Message<Value>>] *)
Class ResponseCodec := { response_from_str : string -> option (Message SJsonValue) }.

Section metadata.
Context `{ResponseCodec}.
Local Open Scope json_scope.

Definition _handle_response_message_type {T} (message : Message T) : IndyResult (Reply T) :=
  match message with
  | Reject _ | ReqNACK _ => Err InvalidTransaction
  | MReply reply => Ok reply
  end.

Definition _parse_transaction_metadata_v0 (message : SJsonValue) : ResponseMetadata :=
  mk_metadata (as_u64 message.["seqNo"]) (as_u64 message.["txnTime"])
    (as_u64 message.["state_proof"].["multi_signature"].["value"].["timestamp"]) None.

Definition _parse_transaction_metadata_v1 (message : SJsonValue) : ResponseMetadata :=
  mk_metadata (as_u64 message.["txnMetadata"].["seqNo"]) (as_u64 message.["txnMetadata"].["txnTime"])
    (as_u64 message.["multiSignature"].["signedState"].["stateMetadata"].["timestamp"]) None.

Definition parse_response_metadata (response : string) : IndyResult ResponseMetadata :=
  message ← ok_or (response_from_str response) InvalidTransaction;
  response_object ← _handle_response_message_type message;
  response_result ← result response_object;
  match as_str response_result.["ver"] with
  | None => Ok (_parse_transaction_metadata_v0 response_result)
  | Some "1"%string => Ok (_parse_transaction_metadata_v1 response_result)
  | Some _ => Err InvalidTransaction
  end.

(** [c.ok().and_then(|resp| resp.last_txn_time)]: an unwinding is not an error. *)
Definition get_last_signed_time (response : string) : IndyResult (option N) :=
  match parse_response_metadata response with
  | Ok resp => Ok (last_txn_time resp)
  | Err _ => Ok None
  | Panic => Panic
  | OutOfFuel => OutOfFuel
  end.
End metadata.

(** [set_freshness_threshold] on the value of [THRESHOLD]. *)
Definition set_freshness_threshold (threshold : N) (w : World) : World :=
  mk_world (genesis w) (stored w) (io w) (effects w) (protocol_version w) (cur_time w) (N.max threshold 300).

(** ** Properties *)

(** what [parse_response_metadata] does on every kind of message.  A rejection or an
    unparsable text is the error [InvalidTransaction]; a reply gives the metadata of its
    version, and a version other than none and "1" is the same error.  The only message
    that unwinds is a reply of the second format without any result. *)
Theorem parse_response_metadata_total `{ResponseCodec} (response : string) :
  match response_from_str response with
  | Some (MReply (ReplyV1 [])) => parse_response_metadata response = Panic
  | Some (MReply (ReplyV0 r)) | Some (MReply (ReplyV1 (r :: _))) =>
      parse_response_metadata response =
        if decide (as_str (index r "ver") = None) then Ok (_parse_transaction_metadata_v0 r)
        else if decide (as_str (index r "ver") = Some "1"%string) then Ok (_parse_transaction_metadata_v1 r)
        else Err InvalidTransaction
  | Some (ReqNACK _) | Some (Reject _) | None => parse_response_metadata response = Err InvalidTransaction
  end.
Proof.
  unfold parse_response_metadata. destruct (response_from_str response) as [[r|[r|[|r l]]|r]|]; cbn; try done;
    (destruct (as_str (index r "ver")) as [s|]; [rewrite decide_False by done|by rewrite decide_True];
     case_decide as Hs; [by injection Hs as ->|];
     repeat case_match; try done; by destruct Hs).
Qed.

(** The response format that every text is a reply in, for the examples. *)
Module ToyResponse.
#[export] Instance codec : ResponseCodec :=
  {| response_from_str := fun s => Some (MReply (ReplyV0 (Object [("txnTime"%string, Number (PosInt 990))]))) |}.
End ToyResponse.
