(* ===== verification/Trie.v ===== *)
(** * Trie: the Patricia Merkle trie of state proofs

    Models [libindy/src/services/pool/state_proof/node.rs].  RLP and SHA-3 are libraries:
    the class [Rlp] is the reading interface of the [rlp] crate and the encoding that its
    stream builds.  Reading panics where the code indexes an empty path. *)

From S2P Require Import Prelude Errors.

(** What a piece of RLP says that it is: [rlp::Prototype]. *)
Inductive Prototype := PNull | PData (n : nat) | PList (n : nat).

(** What is written to an [RlpStream]. *)
Inductive Item := IData (b : bytes) | IList (l : list Item).

Class Rlp := {
  UntrustedRlp : Type;
  rlp_new : bytes -> UntrustedRlp;
  prototype : UntrustedRlp -> option Prototype;
  at_ : UntrustedRlp -> nat -> option UntrustedRlp;
  as_val_bytes : UntrustedRlp -> option bytes;
  is_empty : UntrustedRlp -> bool;
  (** the pieces that [iter] yields *)
  rlp_iter : UntrustedRlp -> list UntrustedRlp;
  (** the bytes of what was written *)
  rlp_encode : Item -> bytes;
  (** the length of the bytes that are read; a part is shorter *)
  rlp_size : UntrustedRlp -> nat;
  at_size : forall r i r', at_ r i = Some r' -> rlp_size r' < rlp_size r;
  (** the length in the prototype is that of the data *)
  data_length : forall r n b, prototype r = Some (PData n) -> as_val_bytes r = Some b -> length b = n;
  (** [is_empty] recognises empty data *)
  not_empty_data : forall r b, is_empty r = false -> as_val_bytes r = Some b -> b <> [];
  (** RLP is an injective encoding *)
  rlp_encode_inj : forall x y, rlp_encode x = rlp_encode y -> x = y;
}.

Inductive Node :=
| Leaf (path value : bytes)
| Extension (path : bytes) (next : Node)
| Full (nodes : list (option Node)) (value : option bytes)
| Hash_ (h : bytes).

Definition RADIX : nat := 16.
Definition FULL_SIZE : nat := RADIX + 1.
Definition PAIR_SIZE : nat := 2.
Definition HASH_SIZE : nat := 32.
Definition IS_LEAF_MASK : N := 32.
Definition IS_PATH_ODD_MASK : N := 16.

(** The result of decoding: the error is a [DecoderError]. *)
Abbreviation RlpResult := (outcome unit).

Definition has_mask (mask : N) (b : Byte.byte) : bool := (N.land (Byte.to_N b) mask =? mask)%N.

Section node.
Context `{Rlp}.

(** ** Encoding *)

Fixpoint rlp_append (self : Node) : Item :=
  match self with
  | Hash_ hash => IData hash
  | Leaf path value => IList [IData path; IData value]
  | Extension path next => IList [IData path; rlp_append next]
  | Full nodes value =>
      IList (((fun node => match node with Some node => rlp_append node | None => IData [] end) <$> nodes) ++
             [match value with Some value => IData value | None => IData [] end])
  end.

(** ** Decoding *)

Definition at_r (r : UntrustedRlp) (i : nat) : RlpResult UntrustedRlp := ok_or (at_ r i) ().
Definition val_at (r : UntrustedRlp) (i : nat) : RlpResult bytes :=
  x ← at_r r i; ok_or (as_val_bytes x) ().

Section decode_with.
Variable decode : UntrustedRlp -> RlpResult Node.

Definition decode_pair (rlp : UntrustedRlp) : RlpResult Node :=
  path ← val_at rlp 0;
  flags ← unwrap (path !! 0);
  if has_mask IS_LEAF_MASK flags then
    p ← val_at rlp 0;
    v ← val_at rlp 1;
    Ok (Leaf p v)
  else if (N.land (Byte.to_N flags) IS_LEAF_MASK =? 0)%N then
    p ← val_at rlp 0;
    next ← at_r rlp 1;
    next ← decode next;
    Ok (Extension p next)
  else Err ().

Definition decode_child (rlp : UntrustedRlp) (i : nat) : RlpResult (option Node) :=
  cur ← at_r rlp i;
  proto ← ok_or (prototype cur) ();
  match proto with
  | PData 0 => Ok None
  | _ => node ← decode cur; Ok (Some node)
  end.

Definition decode_full (rlp : UntrustedRlp) : RlpResult Node :=
  nodes ← mapM (decode_child rlp) (seq 0 RADIX);
  last ← at_r rlp RADIX;
  value ← (if negb (is_empty last) then v ← val_at rlp RADIX; Ok (Some v) else Ok None);
  Ok (Full nodes value).
End decode_with.

(** [Node::decode]; the fuel is the size of the input. *)
Fixpoint decode_fuel (fuel : nat) (rlp : UntrustedRlp) : RlpResult Node :=
  match fuel with
  | O => OutOfFuel
  | S fuel =>
      proto ← ok_or (prototype rlp) ();
      match proto with
      | PList n =>
          if decide (n = PAIR_SIZE) then decode_pair (decode_fuel fuel) rlp
          else if decide (n = FULL_SIZE) then decode_full (decode_fuel fuel) rlp
          else Err ()
      | PData n =>
          if decide (n = HASH_SIZE) then h ← ok_or (as_val_bytes rlp) (); Ok (Hash_ h)
          else Err ()
      | PNull => Err ()
      end
  end.

Definition decode (rlp : UntrustedRlp) : RlpResult Node := decode_fuel (S (rlp_size rlp)) rlp.

(** [rlp.as_list::<Node>()] and [rlp.as_list::<Vec<u8>>()] *)
Definition as_list_nodes (rlp : UntrustedRlp) : RlpResult (list Node) := mapM decode (rlp_iter rlp).
Definition as_list_bytes (rlp : UntrustedRlp) : option (list bytes) :=
  match mapM (fun r => ok_or (as_val_bytes r) ()) (rlp_iter rlp) with Ok l => Some l | _ => None end.

(** ** Paths *)

Definition path_to_nibbles (path : bytes) : bytes :=
  concat ((fun s => [byte_of_N (Byte.to_N s / 16); byte_of_N (N.land (Byte.to_N s) 15)]) <$> path).

Definition parse_path (path : bytes) : IndyResult (bool * bytes) :=
  match path with
  | [] => Panic
  | flags :: rest =>
      let is_leaf := has_mask IS_LEAF_MASK flags in
      let is_odd := has_mask IS_PATH_ODD_MASK flags in
      let nibbles := path_to_nibbles rest in
      Ok (is_leaf, if is_odd then byte_of_N (N.land (Byte.to_N flags) 15) :: nibbles else nibbles)
  end.

(** [path.strip_prefix]: [starts_with] and the slice after it. *)
Fixpoint after_prefix (p path : bytes) : option bytes :=
  match p, path with
  | [], _ => Some path
  | x :: p, y :: path => if decide (x = y) then after_prefix p path else None
  | _ :: _, [] => None
  end.

(** ** Lookup *)

Abbreviation TrieDB := (gmap bytes Node).

(** [_get_value]; the fuel bounds the depth of the recursion. *)
Fixpoint _get_value (fuel : nat) (db : TrieDB) (self : Node) (path : bytes) : IndyResult (option bytes) :=
  match fuel with
  | O => OutOfFuel
  | S fuel =>
      match self with
      | Full nodes value =>
          match path with
          | [] => Ok value
          | p :: path =>
              next ← unwrap (nodes !! N.to_nat (Byte.to_N p));
              match next with
              | Some next => _get_value fuel db next path
              | None => Ok None
              end
          end
      | Hash_ hash =>
          _ ← assert_that (bool_decide (length hash = HASH_SIZE));
          match db !! hash with
          | Some next => _get_value fuel db next path
          | None => Err InvalidStructure
          end
      | Leaf pair_path value =>
          '(is_leaf, pair_path) ← parse_path pair_path;
          if negb is_leaf then Err InvalidState
          else if decide (pair_path = path) then Ok (Some value) else Ok None
      | Extension pair_path next =>
          '(is_leaf, pair_path) ← parse_path pair_path;
          if (is_leaf : bool) then Err InvalidState
          else match after_prefix pair_path path with
               | Some path => _get_value fuel db next path
               | None => Ok None
               end
      end
  end.

(** The depth of a node, and of the deepest of a database. *)
Fixpoint depth (n : Node) : nat :=
  match n with
  | Leaf _ _ | Hash_ _ => 0
  | Extension _ next => S (depth next)
  | Full nodes _ => S (foldr Nat.max 0 ((fun o => match o with Some n => depth n | None => 0 end) <$> nodes))
  end.

Definition db_depth (db : TrieDB) : nat := foldr Nat.max 0 ((fun kv => depth kv.2) <$> map_to_list db).

(** Enough when no hash refers back to itself. *)
Definition get_fuel (db : TrieDB) (self : Node) : nat :=
  S (depth self) + size db * (2 + db_depth db) + 1.

Definition get_value (db : TrieDB) (self : Node) (path : bytes) : IndyResult (option bytes) :=
  let nibble_path := path_to_nibbles path in
  value ← _get_value (get_fuel db self) db self nibble_path;
  match value with
  | Some v =>
      match as_list_bytes (rlp_new v) with
      | Some [val] => Ok (Some val)
      | _ => Err InvalidStructure
      end
  | None => Ok None
  end.

Definition get_str_value (db : TrieDB) (self : Node) (path : bytes) : IndyResult (option string) :=
  value ← get_value db self path;
  match value with
  | Some vec => str ← ok_or (from_utf8 vec) InvalidStructure; Ok (Some str)
  | None => Ok None
  end.

(** ** Well-formed nodes: those that [decode] returns *)

Section node_ind.
  Variable P : Node -> Prop.
  Hypothesis HLeaf : forall p v, P (Leaf p v).
  Hypothesis HExt : forall p n, P n -> P (Extension p n).
  Hypothesis HFull : forall ns v, Forall (fun o => forall n, o = Some n -> P n) ns -> P (Full ns v).
  Hypothesis HHash : forall h, P (Hash_ h).

Fixpoint node_ind (n : Node) : P n :=
  match n with
  | Leaf p v => HLeaf p v
  | Extension p n => HExt p n (node_ind n)
  | Full ns v => HFull ns v
      ((fix go l := match l return Forall (fun o => forall n, o = Some n -> P n) l with
        | [] => Forall_nil_2 _
        | o :: l => Forall_cons_2 _ o l
            (match o return forall n, o = Some n -> P n with
             | Some m => fun n e => match e in _ = x return match x with Some n => P n | None => True end with
                                    | eq_refl => node_ind m end
             | None => fun n e => match e in _ = x return match x with Some _ => P n | None => True end with
                                  | eq_refl => I end
             end) (go l)
        end) ns)
  | Hash_ h => HHash h
  end.
End node_ind.

Definition leaf_path (path : bytes) : Prop :=
  match path with flags :: _ => has_mask IS_LEAF_MASK flags = true | [] => False end.
Definition extension_path (path : bytes) : Prop :=
  match path with flags :: _ => has_mask IS_LEAF_MASK flags = false | [] => False end.

Inductive wf : Node -> Prop :=
| wf_leaf p v : leaf_path p -> wf (Leaf p v)
| wf_extension p n : extension_path p -> wf n -> wf (Extension p n)
| wf_full ns v : length ns = RADIX -> (forall n, Some n ∈ ns -> wf n) -> v <> Some [] -> wf (Full ns v)
| wf_hash h : length h = HASH_SIZE -> wf (Hash_ h).

Lemma leaf_mask_cases b : has_mask IS_LEAF_MASK b = false <-> N.land (Byte.to_N b) IS_LEAF_MASK = 0%N.
Proof. by destruct b. Qed.

Lemma decode_fuel_wf fuel r n : decode_fuel fuel r = Ok n -> wf n.
Proof.
  revert r n. induction fuel as [|fuel IH]; intros r n Hd; cbn [decode_fuel] in Hd; [done|].
  apply bind_Ok in Hd as (proto & Hproto%ok_or_Ok & Hd). destruct proto as [|k|k]; [done| |].
  - destruct (decide (k = HASH_SIZE)) as [->|]; [|done].
    apply bind_Ok in Hd as (h & Hh%ok_or_Ok & [= <-]). constructor. by eapply data_length.
  - destruct (decide (k = PAIR_SIZE)); [|destruct (decide (k = FULL_SIZE)); [|done]].
    + unfold decode_pair in Hd. apply bind_Ok in Hd as (p & Hp & Hd).
      apply bind_Ok in Hd as (flags & Hflags%unwrap_Ok & Hd).
      destruct p as [|b p]; [done|]. injection Hflags as <-. rewrite Hp in Hd. cbn [mbind outcome_bind] in Hd.
      destruct (has_mask IS_LEAF_MASK b) eqn:Hm.
      * apply bind_Ok in Hd as (v & _ & [= <-]). by constructor.
      * apply leaf_mask_cases in Hm as Hm0. rewrite Hm0 in Hd. cbn [N.eqb] in Hd.
        apply bind_Ok in Hd as (x & _ & (nx & Hnx & [= <-])%bind_Ok). constructor; [done|by eapply IH].
    + unfold decode_full in Hd. apply bind_Ok in Hd as (ns & Hns & Hd).
      apply bind_Ok in Hd as (lst & Hlst & Hd). apply bind_Ok in Hd as (v & Hv & [= <-]).
      constructor.
      * apply mapM_length in Hns. by rewrite Hns, length_seq.
      * intros m Hm. apply mapM_Ok in Hns. apply list_elem_of_lookup_1 in Hm as [i Hi].
        destruct (Forall2_lookup_r _ _ _ _ _ Hns Hi) as (j & _ & Hc). unfold decode_child in Hc.
        apply bind_Ok in Hc as (cur & _ & Hc). apply bind_Ok in Hc as (pr & _ & Hc).
        assert ((node ← decode_fuel fuel cur; Ok (Some node)) = Ok (Some m)) as Hc'
          by (by destruct pr as [|[]|]).
        apply bind_Ok in Hc' as (m' & Hm' & [= <-]). by eapply IH.
      * destruct (negb (is_empty lst)) eqn:He; [|congruence].
        apply bind_Ok in Hv as (b & Hb & [= <-]). intros [= ->].
        unfold val_at in Hb. rewrite Hlst in Hb. cbn in Hb. apply ok_or_Ok in Hb.
        apply negb_true_iff in He. by eapply not_empty_data.
Qed.

Lemma decode_wf r n : decode r = Ok n -> wf n.
Proof. apply decode_fuel_wf. Qed.

Lemma rlp_append_nonempty n : wf n -> rlp_append n <> IData [].
Proof. destruct 1 as [| | |h Hh]; cbn; try done. by intros [= ->]. Qed.

Definition child_item (o : option Node) : Item :=
  match o with Some n => rlp_append n | None => IData [] end.

Lemma child_items_inj ns1 ns2 :
  Forall (fun o => forall n, o = Some n -> forall n2, wf n -> wf n2 -> rlp_append n = rlp_append n2 -> n = n2) ns1 ->
  (forall n, Some n ∈ ns1 -> wf n) -> (forall n, Some n ∈ ns2 -> wf n) ->
  child_item <$> ns1 = child_item <$> ns2 -> ns1 = ns2.
Proof.
  intros HF. revert ns2. induction HF as [|o1 ns1 Ho _ IH]; intros [|o2 ns2] H1 H2 He; try done.
  injection He as He Hes. rewrite (IH ns2) by (done || set_solver). f_equal.
  destruct o1 as [n1|], o2 as [n2|]; cbn in He; try done.
  - f_equal. apply (Ho n1); [done|apply H1; left|apply H2; left|done].
  - exfalso. apply (rlp_append_nonempty n1); [apply H1; left|done].
  - exfalso. apply (rlp_append_nonempty n2); [apply H2; left|done].
Qed.

(** Well-formed nodes with one encoding are one node. *)
Lemma rlp_append_inj n1 n2 : wf n1 -> wf n2 -> rlp_append n1 = rlp_append n2 -> n1 = n2.
Proof.
  revert n2. induction n1 as [p v|p n IH|ns v IH|h] using node_ind; intros n2 H1 H2 He;
    destruct n2 as [p2 v2|p2 m|ns2 v2|h2]; try done; cbn [rlp_append] in He;
    inversion H1 as [? ? Hp1|? ? Hp1 Hw1|? ? Hl1 Hw1 Hv1|]; inversion H2 as [? ? Hp2|? ? Hp2 Hw2|? ? Hl2 Hw2 Hv2|]; subst.
  - by injection He as -> ->.
  - exfalso. injection He as -> _. destruct p2; cbn in *; congruence.
  - exfalso. injection He as He. apply (f_equal length) in He. rewrite length_app, length_fmap, Hl2 in He. done.
  - exfalso. injection He as -> _. destruct p2; cbn in *; congruence.
  - injection He as -> He. f_equal. by apply IH.
  - exfalso. injection He as He. apply (f_equal length) in He. rewrite length_app, length_fmap, Hl2 in He. done.
  - exfalso. injection He as He. apply (f_equal length) in He. rewrite length_app, length_fmap, Hl1 in He. done.
  - exfalso. injection He as He. apply (f_equal length) in He. rewrite length_app, length_fmap, Hl1 in He. done.
  - injection He as He. apply app_inj_2 in He as [Hns Hv]; [|done].
    rewrite (child_items_inj ns ns2 IH Hw1 Hw2 Hns). f_equal.
    destruct v, v2; cbn in Hv; congruence.
  - by injection He as ->.
Qed.

(** ** Lookup *)

(** What [_verify_proof] builds: every node is stored under its hash. *)
Definition hashed_by (sha : bytes -> bytes) (db : TrieDB) : Prop :=
  forall h n, db !! h = Some n -> wf n /\ sha (rlp_encode (rlp_append n)) = h.

(** The encodings of the nodes of a database. *)
Definition encodings (ns : list Node) : list bytes := (fun n => rlp_encode (rlp_append n)) <$> ns.

Definition no_collision (sha : bytes -> bytes) (ms : list bytes) : Prop :=
  forall m1 m2, m1 ∈ ms -> m2 ∈ ms -> sha m1 = sha m2 -> m1 = m2.

(** A hash determines the value of every path below it. *)
Lemma get_value_unique sha db1 db2 ms f1 f2 n path v1 v2 :
  hashed_by sha db1 -> hashed_by sha db2 -> no_collision sha ms ->
  (forall h m, db1 !! h = Some m -> rlp_encode (rlp_append m) ∈ ms) ->
  (forall h m, db2 !! h = Some m -> rlp_encode (rlp_append m) ∈ ms) ->
  _get_value f1 db1 n path = Ok v1 -> _get_value f2 db2 n path = Ok v2 -> v1 = v2.
Proof.
  intros Hh1 Hh2 Hcf Hm1 Hm2. revert f2 n path. induction f1 as [|f1 IH]; intros [|f2] n path H1 H2; try done.
  destruct n as [pp v|pp m|ns v|h]; cbn [_get_value] in H1, H2.
  - destruct (parse_path pp) as [[[] p]| | |]; cbn in *; try done. case_decide; congruence.
  - destruct (parse_path pp) as [[[] p]| | |]; cbn in *; try done.
    destruct (after_prefix p path) as [rest|]; [by eapply IH|congruence].
  - destruct path as [|x path]; [congruence|].
    destruct (ns !! _) as [[m|]|]; cbn in *; [by eapply IH|congruence|done].
  - destruct (bool_decide _); cbn in *; [|done].
    destruct (db1 !! h) as [m1|] eqn:Hd1; [|done]. destruct (db2 !! h) as [m2|] eqn:Hd2; [|done].
    destruct (Hh1 _ _ Hd1) as [Hw1 He1], (Hh2 _ _ Hd2) as [Hw2 He2].
    assert (m1 = m2) as ->; [|by eapply IH].
    apply rlp_append_inj; [done..|]. apply rlp_encode_inj, Hcf; [by eapply Hm1|by eapply Hm2|congruence].
Qed.

(** *** Totality *)

Definition nibbles (path : bytes) : Prop := Forall (fun b => (Byte.to_N b < 16)%N) path.

Lemma path_to_nibbles_nibbles path : nibbles (path_to_nibbles path).
Proof.
  unfold nibbles, path_to_nibbles. induction path as [|s path IH]; cbn; [constructor|].
  pose proof (byte_to_N_lt s).
  assert (Byte.to_N s / 16 < 16)%N by (apply N.Div0.div_lt_upper_bound; lia).
  assert (N.land (Byte.to_N s) 15 < 16)%N.
  { change 15%N with (N.ones 4). rewrite N.land_ones. by apply N.mod_lt. }
  repeat (constructor; [rewrite byte_to_of_N, N.mod_small; lia|]). done.
Qed.

Lemma after_prefix_nibbles p path rest : nibbles path -> after_prefix p path = Some rest -> nibbles rest.
Proof.
  revert path. induction p as [|x p IH]; intros [|y path] Hn; cbn; try (by intros [= <-]).
  case_decide; [|done]. apply IH. by inversion Hn.
Qed.

(** The hashes of a database are numbered so that a node refers only to smaller ones:
    there is no chain of hashes that comes back. *)
Fixpoint refers (n : Node) : list bytes :=
  match n with
  | Leaf _ _ => []
  | Extension _ n => refers n
  | Full ns _ => mjoin ((fun o => match o with Some n => refers n | None => [] end) <$> ns)
  | Hash_ h => [h]
  end.

Definition ranked (rank : bytes -> nat) (db : TrieDB) : Prop :=
  forall h n, db !! h = Some n -> rank h < size db /\
    forall h', h' ∈ refers n -> is_Some (db !! h') -> rank h' < rank h.

Lemma foldr_max_elem (l : list nat) x : x ∈ l -> x <= foldr Nat.max 0 l.
Proof. induction 1 as [|? ? ? _ IH]; cbn; lia. Qed.

Lemma db_depth_lookup db h n : db !! h = Some n -> depth n <= db_depth db.
Proof.
  intros Hn. apply foldr_max_elem, list_elem_of_fmap. exists (h, n).
  by rewrite elem_of_map_to_list.
Qed.

(** The result of a lookup in a well-formed trie. *)
Definition lookup_ok {A} (r : IndyResult A) : Prop :=
  match r with Ok _ => True | Err e => e = InvalidStructure | Panic | OutOfFuel => False end.

Lemma get_value_total db rank fuel n path k :
  ranked rank db -> (forall h m, db !! h = Some m -> wf m) -> wf n -> nibbles path ->
  (forall h, h ∈ refers n -> is_Some (db !! h) -> rank h < k) ->
  depth n + k * (2 + db_depth db) < fuel ->
  lookup_ok (_get_value fuel db n path).
Proof.
  intros Hr Hdb. revert n path k. induction fuel as [|fuel IH]; intros n path k Hn Hp Href Hfuel; [lia|].
  destruct n as [pp v|pp m|ns v|h]; cbn [_get_value]; inversion Hn as [? ? Hl|? ? Hl Hm|? ? Hl Hm Hv|? Hl]; subst.
  - destruct pp as [|b pp]; [done|]. cbn in Hl |- *. rewrite Hl. cbn. by case_decide.
  - destruct pp as [|b pp]; [done|]. cbn in Hl |- *. rewrite Hl. cbn [mbind outcome_bind].
    destruct (after_prefix _ path) as [rest|] eqn:Ha; [|done].
    apply (IH _ _ k); [done|by eapply after_prefix_nibbles|done|]. cbn in Hfuel. lia.
  - destruct path as [|x path]; [done|]. inversion Hp as [|? ? Hx Hp']; subst.
    destruct (ns !! N.to_nat (Byte.to_N x)) as [[m|]|] eqn:Hi; cbn [unwrap mbind outcome_bind]; [|done|].
    + apply list_elem_of_lookup_2 in Hi. apply (IH _ _ k); [by apply Hm|done| |].
      * intros h Hh. apply Href. cbn. apply list_elem_of_join. exists (refers m).
        rewrite list_elem_of_fmap. split; [done|by exists (Some m)].
      * cbn in Hfuel. assert (depth m <= foldr Nat.max 0 ((fun o : option Node =>
          match o with Some n => depth n | None => 0 end) <$> ns)); [|lia].
        apply foldr_max_elem, list_elem_of_fmap. by exists (Some m).
    + apply lookup_ge_None in Hi. rewrite Hl in Hi. unfold RADIX in Hi. lia.
  - rewrite bool_decide_eq_true_2 by done. cbn [assert_that mbind outcome_bind].
    destruct (db !! h) as [m|] eqn:Hm; [|done]. destruct (Hr _ _ Hm) as [_ Hlt].
    specialize (Href h ltac:(left) ltac:(by eexists)). pose proof (db_depth_lookup _ _ _ Hm).
    apply (IH _ _ (rank h)); [by eapply Hdb|done|done|]. cbn in Hfuel. nia.
Qed.

Lemma get_str_value_total db rank n path :
  ranked rank db -> (forall h m, db !! h = Some m -> wf m) -> wf n -> lookup_ok (get_str_value db n path).
Proof.
  intros Hr Hdb Hn. assert (lookup_ok (_get_value (get_fuel db n) db n (path_to_nibbles path))) as Hl.
  { apply (get_value_total _ rank _ _ _ (size db)); [done..|apply path_to_nibbles_nibbles| |].
    - intros h _ [m Hm]. by apply (Hr h m).
    - unfold get_fuel. lia. }
  unfold get_str_value, get_value. destruct (_get_value _ _ _ _) as [[v|]|e| |]; cbn in *; try done.
  destruct (as_list_bytes _) as [[|val [|]]|]; cbn; try done. by destruct (from_utf8 val).
Qed.

(** *** Decoding ends *)

Lemma mapM_total {E A B} (f : A -> outcome E B) l :
  (forall x, x ∈ l -> f x <> OutOfFuel) -> mapM f l <> OutOfFuel.
Proof.
  induction l as [|x l IH]; intros Hf; cbn; [done|].
  specialize (Hf x ltac:(left)) as Hx. destruct (f x); try done. cbn.
  specialize (IH ltac:(intros; apply Hf; by right)). by destruct (mapM f l).
Qed.

Lemma val_at_total r i : val_at r i <> OutOfFuel.
Proof. unfold val_at, at_r. destruct (at_ r i) as [x|]; cbn; [|done]. by destruct (as_val_bytes x). Qed.

Lemma decode_fuel_total fuel r : rlp_size r < fuel -> decode_fuel fuel r <> OutOfFuel.
Proof.
  revert r. induction fuel as [|fuel IH]; intros r Hf; [lia|].
  assert (forall i r', at_ r i = Some r' -> decode_fuel fuel r' <> OutOfFuel) as Hat.
  { intros i r' Hr. apply IH. apply at_size in Hr. lia. }
  cbn [decode_fuel]. destruct (prototype r) as [[|k|k]|]; cbn [ok_or mbind outcome_bind]; try done.
  - case_decide; [|done]. by destruct (as_val_bytes r).
  - case_decide; [|case_decide; [|done]].
    + unfold decode_pair. pose proof (val_at_total r 0) as Hv0. pose proof (val_at_total r 1) as Hv1.
      destruct (val_at r 0) as [[|b p]|e| |]; cbn; try done. case_match; [by destruct (val_at r 1)|].
      case_match; [|done]. unfold at_r. destruct (at_ r 1) as [nx|] eqn:Hnx; cbn; [|done].
      apply Hat in Hnx. by destruct (decode_fuel fuel nx).
    + unfold decode_full.
      assert (mapM (decode_child (decode_fuel fuel) r) (seq 0 RADIX) <> OutOfFuel) as Hns.
      { apply mapM_total. intros i _. unfold decode_child, at_r.
        destruct (at_ r i) as [c|] eqn:Hc; cbn; [|done]. apply Hat in Hc.
        destruct (prototype c) as [[|[|k']|k']|]; cbn; try done; by destruct (decode_fuel fuel c). }
      destruct (mapM _ _); try done. cbn [mbind outcome_bind]. unfold at_r.
      destruct (at_ r RADIX) as [c|]; cbn [ok_or mbind outcome_bind]; [|done].
      pose proof (val_at_total r RADIX). case_match; [|done]. by destruct (val_at r RADIX).
Qed.
End node.

(** ** Properties *)

(** [Node::decode] ends on every input and what it returns is well-formed: paths are
    not empty and carry the flag of their kind, branch nodes have 16 children, hashes have
    32 bytes.  It does not always return: a list of two whose first part is empty data
    makes it index an empty path, and it unwinds. *)
Theorem decode_behaviour `{Rlp} (r : UntrustedRlp) :
  decode r <> OutOfFuel /\ (forall n, decode r = Ok n -> wf n) /\
  (prototype r = Some (PList PAIR_SIZE) -> val_at r 0 = Ok [] -> decode r = Panic).
Proof.
  split_and!.
  - apply decode_fuel_total. lia.
  - apply decode_wf.
  - intros Hp Hv. unfold decode. cbn [decode_fuel]. rewrite Hp. cbn [ok_or mbind outcome_bind].
    rewrite decide_True by done. unfold decode_pair. by rewrite Hv.
Qed.

(** C40: looking up a key in a trie of decoded nodes ends and does not unwind.  When no
    node refers to itself through hashes, a lookup from a decoded node returns a value,
    none, or the error [InvalidStructure], for every key: branch nodes are indexed within
    bounds and the recursion ends within the fuel given. *)
Theorem trie_lookup_total `{Rlp} (db : gmap bytes Node) (rank : bytes -> nat) (n : Node) (key : bytes) :
  (forall h m, db !! h = Some m -> exists r, decode r = Ok m) -> ranked rank db ->
  (exists r, decode r = Ok n) ->
  match get_str_value db n key with
  | Ok _ => True
  | Err e => e = InvalidStructure
  | Panic | OutOfFuel => False
  end.
Proof.
  intros Hdb Hr [r Hn]. apply (get_str_value_total db rank); [done| |by eapply decode_wf].
  intros h m Hm. destruct (Hdb h m Hm) as [r' Hr']. by eapply decode_wf.
Qed.

(** ** A toy RLP to run the development on: items that are not encoded *)
Module ToyRlp.

Fixpoint item_tree (x : Item) : gen_tree bytes :=
  match x with IData b => GenLeaf b | IList l => GenNode 0 (item_tree <$> l) end.
Fixpoint tree_item (t : gen_tree bytes) : Item :=
  match t with GenLeaf b => IData b | GenNode _ l => IList (tree_item <$> l) end.

Fixpoint tree_item_tree (x : Item) : tree_item (item_tree x) = x.
Proof.
  destruct x as [b|l]; cbn; [done|]. f_equal. induction l as [|x l IH]; cbn; [done|].
  by rewrite tree_item_tree, IH.
Qed.

Fixpoint bits (p : positive) : bytes :=
  match p with xH => [] | xO p => Byte.x00 :: bits p | xI p => Byte.x01 :: bits p end.

Lemma bits_inj p q : bits p = bits q -> p = q.
Proof. revert q. induction p as [p IH|p IH|]; intros [q|q|] He; try done; cbn in He; f_equal; apply IH; by injection He. Qed.

Lemma encode_inj x y : bits (encode (item_tree x)) = bits (encode (item_tree y)) -> x = y.
Proof. intros He%bits_inj%encode_inj. by rewrite <-(tree_item_tree x), He, tree_item_tree. Qed.

Fixpoint item_size (x : Item) : nat :=
  match x with IData _ => 0 | IList l => S (foldr Nat.add 0 (item_size <$> l)) end.

Lemma item_size_lookup l i x : l !! i = Some x -> item_size x < S (foldr Nat.add 0 (item_size <$> l)).
Proof.
  revert i. induction l as [|y l IH]; intros [|i] Hi; cbn in *; simplify_eq; [lia|].
  specialize (IH i Hi). lia.
Qed.

Definition item_prototype (x : Item) : Prototype :=
  match x with IData b => PData (length b) | IList l => PList (length l) end.
Definition item_at (x : Item) (i : nat) : option Item :=
  match x with IList l => l !! i | IData _ => None end.
Definition item_bytes (x : Item) : option bytes :=
  match x with IData b => Some b | IList _ => None end.
Definition item_empty (x : Item) : bool :=
  match x with IData [] | IList [] => true | _ => false end.

Lemma item_at_size x i y : item_at x i = Some y -> item_size y < item_size x.
Proof. destruct x; [done|]. apply item_size_lookup. Qed.

Lemma item_data_length x n b : Some (item_prototype x) = Some (PData n) -> item_bytes x = Some b -> length b = n.
Proof. destruct x; [|done]. by intros [= <-] [= <-]. Qed.

Lemma item_not_empty x b : item_empty x = false -> item_bytes x = Some b -> b <> [].
Proof. destruct x as [[]|]; try done. by intros _ [= <-]. Qed.

(** A text that starts with a zero byte is a trie of one leaf under the empty key, one
    that starts with a one is malformed. *)
#[export] Instance rlp : Rlp := {|
  UntrustedRlp := Item;
  rlp_new := fun b =>
    match b with
    | Byte.x00 :: r => IList [IList [IData [Byte.x20]; IData r]]
    | Byte.x01 :: _ => IList [IList [IData []; IData []]]
    | _ => IList [IData b]
    end;
  prototype := fun x => Some (item_prototype x);
  at_ := item_at;
  as_val_bytes := item_bytes;
  is_empty := item_empty;
  rlp_iter := fun x => match x with IList l => l | IData _ => [] end;
  rlp_encode := fun x => bits (encode (item_tree x));
  rlp_size := item_size;
  at_size := item_at_size;
  data_length := item_data_length;
  not_empty_data := item_not_empty;
  rlp_encode_inj := encode_inj;
|}.
End ToyRlp.

#[local] Existing Instance ToyRlp.rlp.

Definition sample_leaf : Node := Leaf [Byte.x20] [Byte.x61].
Definition sample_db : gmap bytes Node := {[ [Byte.x01] := sample_leaf ]}.

Lemma decode_behaviour_witness :
  @decode ToyRlp.rlp (IList [IData []; IData []]) = Panic.
Proof.
  apply (@decode_behaviour ToyRlp.rlp (IList [IData []; IData []])); reflexivity.
Defined.

Lemma trie_lookup_total_witness :
  get_str_value sample_db sample_leaf [] = Ok (Some "a"%string) /\
  match get_str_value sample_db sample_leaf [] with
  | Ok _ => True
  | Err e => e = InvalidStructure
  | Panic | OutOfFuel => False
  end.
Proof.
  split; [vm_compute; reflexivity|].
  apply (trie_lookup_total sample_db (fun _ => 0)).
  - intros h m Hm. unfold sample_db in Hm. apply lookup_singleton_Some in Hm as [_ <-]. by exists (IList [IData [Byte.x20]; IData [Byte.x61]] : @UntrustedRlp ToyRlp.rlp).
  - intros h m Hm. unfold sample_db in Hm. apply lookup_singleton_Some in Hm as [_ <-]. split; [vm_compute; constructor|]. intros h' Hh'. by apply not_elem_of_nil in Hh'.
  - by exists (IList [IData [Byte.x20]; IData [Byte.x61]] : @UntrustedRlp ToyRlp.rlp).
Defined.
