(* ===== verification/StateProof.v ===== *)
(** * StateProof: state proofs in the replies of a node

    Models [libindy/src/services/pool/state_proof/mod.rs] and the types of parsed proofs
    of [libindy/src/services/pool/types.rs].  BLS signatures, the hash functions, hex,
    base64 and the plugins that parse the proofs of other ledgers are libraries: the
    class [ProofLibs]. *)

From Stdlib Require Import Strings.Ascii.
From S2P Require Import Prelude Errors Json PoolTypes Response Trie.

(** ** types.rs *)

Inductive KeyValuesInSP :=
| Simple (kvs : list (string * option string))
| SubTrie (sub_trie_prefix : option string) (kvs : list (string * option string)).

Record ParsedSP := mk_parsed_sp {
  proof_nodes : string;
  root_hash : string;
  kvs_to_verify : KeyValuesInSP;
  multi_signature : SJsonValue;
}.

(** ** Libraries *)

Class ProofLibs `{Bls} := {
  sha3_256 : bytes -> bytes;
  sha2_256 : bytes -> bytes;
  to_hex : bytes -> string;
  base64_encode : bytes -> string;
  base64_decode : string -> option bytes;
  (** the plugin of a transaction type: what it makes of a raw message *)
  sp_parser : string -> option (string -> option (list ParsedSP));
  MultiSignature : Type;
  multi_signature_from_bytes : bytes -> option MultiSignature;
  verify_multi_sig : MultiSignature -> bytes -> list VerKey -> Generator -> option bool;
}.

Section state_proof.
Context `{Machine} `{JsonText} `{PoolCodecs} `{Base58} `{HashOrder} `{Rlp} `{ProofLibs}.
Local Open Scope json_scope.

(** ** Verification *)

(** The nodes of a proof, each under its hash. *)
Definition trie_db (nodes : list Node) : gmap bytes Node :=
  foldl (fun map node => <[sha3_256 (rlp_encode (rlp_append node)) := node]> map) ∅ nodes.

Definition _verify_proof (proofs_rlp root_hash key : bytes) (expected_value : option string) : IndyResult bool :=
  match as_list_nodes (rlp_new proofs_rlp) with
  | Panic => Panic
  | OutOfFuel => OutOfFuel
  | r =>
      let nodes := match r with Ok nodes => nodes | _ => [] end in
      let map := trie_db nodes in
      match map !! root_hash with
      | Some root =>
          match get_str_value map root key with
          | Ok value => Ok (bool_decide (value = expected_value))
          | Err _ => Ok false
          | Panic => Panic
          | OutOfFuel => OutOfFuel
          end
      | None => Ok false
      end
  end.

(** The keys of the participants that are nodes of the pool; the loop returns early
    on one without a key. *)
Fixpoint participant_keys (participants : list string) (nodes : list (string * option VerKey)) :
    IndyResult (list VerKey) :=
  match nodes with
  | [] => Ok []
  | (name, verkey) :: nodes =>
      if decide (name ∈ participants) then
        match verkey with
        | Some blskey => keys ← participant_keys participants nodes; Ok (blskey :: keys)
        | None => Err InvalidState
        end
      else participant_keys participants nodes
  end.

Definition _verify_proof_signature (signature : string) (participants : list string) (value : bytes)
    (nodes : gmap string (option VerKey)) (f : N) (gen : Generator) : IndyResult bool :=
  ver_keys ← participant_keys participants (hash_iter nodes);
  needed ← usize_sub (N.of_nat (size nodes)) f;
  if (N.of_nat (length ver_keys) <? needed)%N then Ok false
  else
    match from_base58 signature with
    | None => Ok false
    | Some signature =>
        match multi_signature_from_bytes signature with
        | None => Ok false
        | Some signature =>
            Ok (default false (verify_multi_sig signature value ver_keys gen))
        end
    end.

Definition _parse_reply_for_proof_signature_checking (json_msg : SJsonValue) :
    option (string * list string * bytes) :=
  match as_str json_msg.["signature"], as_array json_msg.["participants"],
        rmp_to_vec_named json_msg.["value"] with
  | Some signature, Some participants, Some value =>
      let participants_unwrap := omap as_str participants in
      if decide (length participants = length participants_unwrap) then
        Some (signature, participants_unwrap, value)
      else None
  | _, _, _ => None
  end.

(** [.unwrap_or(false)] *)
Definition or_false (r : IndyResult bool) : IndyResult bool :=
  match r with Err _ => Ok false | r => r end.

(** The loop over the pairs of a proof. *)
Fixpoint verify_kvs (proof_nodes root_hash : bytes) (kvs : list (string * option string)) : IndyResult bool :=
  match kvs with
  | [] => Ok true
  | (k, v) :: kvs =>
      match base64_decode k with
      | None => Ok false
      | Some key =>
          ok ← _verify_proof proof_nodes root_hash key v;
          if negb ok then Ok false else verify_kvs proof_nodes root_hash kvs
      end
  end.

(** The body of the loop of [verify_parsed_sp]. *)
Definition verify_one (parsed_sp : ParsedSP) (nodes : gmap string (option VerKey)) (f : N) (gen : Generator) :
    IndyResult bool :=
  if decide (as_str (multi_signature parsed_sp).["value"].["state_root_hash"] <> Some (root_hash parsed_sp)) then
    Ok false
  else
    match _parse_reply_for_proof_signature_checking (multi_signature parsed_sp) with
    | None => Ok false
    | Some (signature, participants, value) =>
        signed ← or_false (_verify_proof_signature signature participants value nodes f gen);
        if negb signed then Ok false
        else
          match base64_decode (proof_nodes parsed_sp), from_base58 (root_hash parsed_sp) with
          | Some proof_nodes, Some root_hash =>
              match kvs_to_verify parsed_sp with
              | Simple kvs => verify_kvs proof_nodes root_hash kvs
              | SubTrie _ _ => Ok false
              end
          | _, _ => Ok false
          end
    end.

Fixpoint verify_parsed_sp (parsed_sps : list ParsedSP) (nodes : gmap string (option VerKey)) (f : N)
    (gen : Generator) : IndyResult bool :=
  match parsed_sps with
  | [] => Ok true
  | parsed_sp :: parsed_sps =>
      ok ← verify_one parsed_sp nodes f gen;
      if negb ok then Ok false else verify_parsed_sp parsed_sps nodes f gen
  end.

(** ** Parsing the replies of the built-in transactions *)

Definition GET_ATTR : string := "104".
Definition GET_NYM : string := "105".
Definition GET_SCHEMA : string := "107".
Definition GET_CRED_DEF : string := "108".
Definition GET_REVOC_REG_DEF : string := "115".
Definition GET_REVOC_REG : string := "116".
Definition GET_REVOC_REG_DELTA : string := "117".

(** [ProtocolVersion::get()] *)
Context (protocol_version : N).
Definition is_node_1_3 : bool := (protocol_version =? 1)%N.

(** The marker of a kind of key: a control character, or its digit. *)
Definition marker (n : N) : string :=
  if is_node_1_3 then String (ascii_of_N n) "" else String (ascii_of_N (48 + n)) "".

(** The first of the alternatives that is there: [a.or(b)]. *)
Definition or_else {A} (a b : option A) : option A := match a with Some _ => a | None => b end.

(** [json_msg["data"]] as a text and as a value; [None] when it has another type. *)
Definition reply_data (json_msg : SJsonValue) : option (option string * SJsonValue) :=
  match json_msg.["data"] with
  | Null => Some (None, Null)
  | String_ str => parsed_data ← from_str str; Some (Some str, parsed_data)
  | Object map => Some (Some (to_string json_msg.["data"]), Object map)
  | _ => None
  end.

Definition key_suffix (json_msg parsed_data : SJsonValue) (xtype : string) : option string :=
  if decide (xtype = GET_ATTR) then
    attr_name ← or_else (or_else (as_str json_msg.["raw"]) (as_str json_msg.["enc"])) (as_str json_msg.["hash"]);
    Some (":" +:+ marker 1 +:+ ":" +:+ to_hex (sha2_256 (as_bytes attr_name)))%string
  else if decide (xtype = GET_CRED_DEF) then
    sign_type ← as_str json_msg.["signature_type"];
    sch_seq_no ← as_u64 json_msg.["ref"];
    let tag := if is_node_1_3 then None else as_str json_msg.["tag"] in
    let tag := match tag with Some t => (":" +:+ t)%string | None => ""%string end in
    Some (":" +:+ marker 3 +:+ ":" +:+ sign_type +:+ ":" +:+ pretty sch_seq_no +:+ tag)%string
  else if decide (xtype = GET_NYM) then Some ""%string
  else if decide (xtype = GET_SCHEMA) then
    name ← as_str parsed_data.["name"];
    ver ← as_str parsed_data.["version"];
    Some (":" +:+ marker 2 +:+ ":" +:+ name +:+ ":" +:+ ver)%string
  else if decide (xtype = GET_REVOC_REG_DEF) then
    cred_def_id ← as_str parsed_data.["credDefId"];
    revoc_def_type ← as_str parsed_data.["revocDefType"];
    tag ← as_str parsed_data.["tag"];
    Some (":" +:+ marker 4 +:+ ":" +:+ cred_def_id +:+ ":" +:+ revoc_def_type +:+ ":" +:+ tag)%string
  else if decide ((xtype = GET_REVOC_REG \/ xtype = GET_REVOC_REG_DELTA) /\
                  is_null parsed_data.["value"].["accum_from"] = true) then
    revoc_reg_def_id ← as_str parsed_data.["revocRegDefId"];
    Some (marker 5 +:+ ":" +:+ revoc_reg_def_id)%string
  else None.

Definition key_prefix (json_msg : SJsonValue) (xtype : string) : option bytes :=
  let dest := or_else (as_str json_msg.["dest"]) (as_str json_msg.["origin"]) in
  if decide (xtype = GET_NYM) then
    dest ← dest; Some (sha2_256 (as_bytes dest))
  else if decide (xtype = GET_REVOC_REG \/ xtype = GET_REVOC_REG_DELTA) then Some []
  else if decide (xtype = GET_REVOC_REG_DEF) then
    id ← as_str json_msg.["id"]; Some (as_bytes (default ""%string (head (split_on ":"%char id))))
  else
    dest ← dest; Some (as_bytes dest).

(** The error is a text that is only logged. *)
Definition _parse_reply_for_proof_value (json_msg : SJsonValue) (data : option string) (parsed_data : SJsonValue)
    (xtype : string) : option (option string) :=
  match data with
  | None => Some None
  | Some data =>
      let seq_no := json_msg.["seqNo"] in
      let time := json_msg.["txnTime"] in
      let value :=
        if decide (xtype = GET_NYM) then set_key (set_key (Object []) "seqNo" seq_no) "txnTime" time
        else set_key (set_key (Object []) "lsn" seq_no) "lut" time in
      if decide (xtype = GET_NYM) then
        let value := set_key value "identifier" parsed_data.["identifier"] in
        let value := set_key value "role" parsed_data.["role"] in
        Some (Some (to_string (set_key value "verkey" parsed_data.["verkey"])))
      else if decide (xtype = GET_ATTR) then
        Some (Some (to_string (set_key value "val" (String_ (to_hex (sha2_256 (as_bytes data)))))))
      else if decide (xtype ∈ [GET_CRED_DEF; GET_REVOC_REG_DEF; GET_REVOC_REG]) then
        Some (Some (to_string (set_key value "val" parsed_data)))
      else if decide (xtype = GET_SCHEMA) then
        map ← as_object parsed_data;
        let map := obj_remove "version" (obj_remove "name" map) in
        match map with
        | [] => Some None
        | _ => Some (Some (to_string (set_key value "val" (Object map))))
        end
      else if decide (xtype = GET_REVOC_REG_DELTA) then
        Some (Some (to_string (set_key value "val" parsed_data.["value"].["accum_to"])))
      else None
  end.

Definition _parse_reply_for_builtin_sp (json_msg : SJsonValue) (xtype : string) :
    IndyResult (option (list ParsedSP)) :=
  _ ← assert_that (bool_decide (xtype ∈ REQUESTS_FOR_STATE_PROOFS));
  Ok (proof ← as_str json_msg.["state_proof"].["proof_nodes"];
      root_hash ← as_str json_msg.["state_proof"].["root_hash"];
      '(data, parsed_data) ← reply_data json_msg;
      key_suffix ← key_suffix json_msg parsed_data xtype;
      key_prefix ← key_prefix json_msg xtype;
      let key := key_prefix ++ as_bytes key_suffix in
      value ← _parse_reply_for_proof_value json_msg data parsed_data xtype;
      Some [mk_parsed_sp proof root_hash (Simple [(base64_encode key, value)])
              json_msg.["state_proof"].["multi_signature"]]).

Definition parse_generic_reply_for_proof_checking (json_msg : SJsonValue) (raw_msg : string) :
    IndyResult (option (list ParsedSP)) :=
  match as_str json_msg.["type"] with
  | None => Ok None
  | Some xtype =>
      if decide (xtype ∈ REQUESTS_FOR_STATE_PROOFS) then _parse_reply_for_builtin_sp json_msg xtype
      else
        Ok match sp_parser xtype with
           | Some parser => if contains_char "000"%char raw_msg then None else parser raw_msg
           | None => None
           end
  end.
End state_proof.

(** ** Lemmas *)
Section lemmas.
Context `{Machine} `{JsonText} `{PoolCodecs} `{Base58} `{HashOrder} `{Rlp} `{ProofLibs}.

(** The keys that are used belong to distinct nodes of the pool that are participants. *)
Lemma participant_keys_spec participants nodes keys :
  NoDup nodes.*1 -> participant_keys participants nodes = Ok keys ->
  exists signers, NoDup signers /\
    Forall2 (fun name k => name ∈ participants /\ (name, Some k) ∈ nodes) signers keys /\
    forall name, name ∈ signers -> name ∈ nodes.*1.
Proof.
  revert keys. induction nodes as [|[name vk] nodes IH]; intros keys; cbn [participant_keys fmap list_fmap fst].
  - intros _ [= <-]. exists []. split_and!; [constructor|constructor|done].
  - intros [Hnew Hnd]%NoDup_cons Hk. case_decide as Hin.
    + destruct vk as [k|]; [|done]. apply bind_Ok in Hk as (ks & Hks & [= <-]).
      destruct (IH ks Hnd Hks) as (signers & Hs & HF & Hsub).
      exists (name :: signers). split_and!.
      * constructor; [|done]. intros Hbad%Hsub. done.
      * constructor; [split; [done|left]|]. eapply Forall2_impl; [exact HF|]. cbn. intros ?? [? ?]. split; [done|by right].
      * intros nm [->|Hnm]%elem_of_cons; [left|right; by apply Hsub].
    + destruct (IH keys Hnd Hk) as (signers & Hs & HF & Hsub). exists signers. split_and!; [done| |].
      * eapply Forall2_impl; [exact HF|]. cbn. intros ?? [? ?]. split; [done|by right].
      * intros nm Hnm. right. by apply Hsub.
Qed.

(** What stands behind an accepted multi-signature. *)
Lemma verify_proof_signature_sound signature participants value nodes f gen :
  (f <= N.of_nat (size nodes))%N ->
  _verify_proof_signature signature participants value nodes f gen = Ok true ->
  exists sig ms signers keys, from_base58 signature = Some sig /\ multi_signature_from_bytes sig = Some ms /\
    verify_multi_sig ms value keys gen = Some true /\ NoDup signers /\
    (N.of_nat (size nodes) - f <= N.of_nat (length signers))%N /\
    Forall2 (fun name k => name ∈ participants /\ nodes !! name = Some (Some k)) signers keys.
Proof.
  intros Hf (keys & Hk & (needed & Hn & Hv)%bind_Ok)%bind_Ok.
  rewrite usize_sub_ok in Hn by done. injection Hn as <-.
  destruct (N.ltb_spec (N.of_nat (length keys)) (N.of_nat (size nodes) - f)); [done|].
  destruct (from_base58 signature) as [sig|]; [|done].
  destruct (multi_signature_from_bytes sig) as [ms|] eqn:Hms; [|done].
  destruct (verify_multi_sig ms value keys gen) as [[]|] eqn:Hver; try done.
  destruct (participant_keys_spec _ _ _ (hash_iter_keys nodes) Hk) as (signers & Hnd & HF & _).
  exists sig, ms, signers, keys. split_and!; try done.
  - by rewrite (Forall2_length _ _ _ HF).
  - eapply Forall2_impl; [exact HF|]. cbn. intros ?? [? ?%elem_of_hash_iter]. done.
Qed.

Lemma trie_db_hashed nodes : (forall n, n ∈ nodes -> wf n) ->
  hashed_by sha3_256 (trie_db nodes) /\
  forall h n, trie_db nodes !! h = Some n -> rlp_encode (rlp_append n) ∈ encodings nodes.
Proof.
  unfold trie_db. induction nodes as [|x nodes IH] using rev_ind; intros Hw; [done|].
  rewrite foldl_app. cbn. destruct IH as [Hh He]; [intros; apply Hw; set_solver|].
  assert (wf x) as Hx by (apply Hw; set_solver).
  split; intros h n [[<- <-]|[_ Hn]]%lookup_insert_Some.
  - done.
  - by apply Hh.
  - unfold encodings. rewrite fmap_app. set_solver.
  - unfold encodings. rewrite fmap_app. apply He in Hn. set_solver.
Qed.

Lemma as_list_nodes_wf r nodes : as_list_nodes r = Ok nodes -> forall n, n ∈ nodes -> wf n.
Proof.
  intros Hn%mapM_Ok n [i Hi]%list_elem_of_lookup_1.
  destruct (Forall2_lookup_r _ _ _ _ _ Hn Hi) as (x & _ & Hx). by eapply decode_wf.
Qed.

(** What an accepted proof of one key says. *)
Lemma verify_proof_true proofs root key e :
  _verify_proof proofs root key e = Ok true ->
  exists nodes n, as_list_nodes (rlp_new proofs) = Ok nodes /\ trie_db nodes !! root = Some n /\
    get_str_value (trie_db nodes) n key = Ok e.
Proof.
  unfold _verify_proof. destruct (as_list_nodes _) as [nodes|e'| |]; try done.
  - destruct (trie_db nodes !! root) as [n|] eqn:Hn; [|done].
    destruct (get_str_value _ _ _) as [v|e'| |] eqn:Hv; try done.
    intros [= Hb%bool_decide_eq_true]. exists nodes, n. by rewrite <-Hb.
Qed.

Lemma verify_kvs_true proofs root kvs :
  verify_kvs proofs root kvs = Ok true ->
  Forall (fun kv => exists key, base64_decode kv.1 = Some key /\ _verify_proof proofs root key kv.2 = Ok true) kvs.
Proof.
  induction kvs as [|[k v] kvs IH]; intros Hv; [constructor|]. cbn in Hv.
  destruct (base64_decode k) as [key|] eqn:Hk; [|done].
  apply bind_Ok in Hv as ([] & Hp & Hv); [|done]. constructor; [by exists key|by apply IH].
Qed.

Lemma get_str_value_unique db1 db2 ms n key v1 v2 :
  hashed_by sha3_256 db1 -> hashed_by sha3_256 db2 -> no_collision sha3_256 ms ->
  (forall h m, db1 !! h = Some m -> rlp_encode (rlp_append m) ∈ ms) ->
  (forall h m, db2 !! h = Some m -> rlp_encode (rlp_append m) ∈ ms) ->
  get_str_value db1 n key = Ok v1 -> get_str_value db2 n key = Ok v2 -> v1 = v2.
Proof.
  intros Hh1 Hh2 Hcf Hm1 Hm2 (w1 & (x1 & Hx1 & Hw1)%bind_Ok & Hv1)%bind_Ok
    (w2 & (x2 & Hx2 & Hw2)%bind_Ok & Hv2)%bind_Ok.
  rewrite (get_value_unique _ _ _ _ _ _ _ _ _ _ Hh1 Hh2 Hcf Hm1 Hm2 Hx1 Hx2) in Hw1.
  rewrite Hw1 in Hw2. injection Hw2 as ->. congruence.
Qed.
End lemmas.

(** ** Properties *)
Section properties.
Context `{Machine} `{JsonText} `{PoolCodecs} `{Base58} `{HashOrder} `{Rlp} `{ProofLibs}.


(** proofs cannot disagree.  When two lists of proof nodes are accepted for the same
    root and the same key, they prove the same value (or both that there is none), as long
    as SHA-3 has no collision among the encodings of their nodes. *)
Theorem state_proof_unforgeable (proofs1 proofs2 root key : bytes) (v1 v2 : option string) (ns1 ns2 : list Node) :
  as_list_nodes (rlp_new proofs1) = Ok ns1 -> as_list_nodes (rlp_new proofs2) = Ok ns2 ->
  no_collision sha3_256 (encodings ns1 ++ encodings ns2) ->
  _verify_proof proofs1 root key v1 = Ok true -> _verify_proof proofs2 root key v2 = Ok true ->
  v1 = v2.
Proof.
  intros Hns1 Hns2 Hcf (x & n1 & Hx & Hn1 & Hg1)%verify_proof_true (y & n2 & Hy & Hn2 & Hg2)%verify_proof_true.
  rewrite Hns1 in Hx. injection Hx as <-. rewrite Hns2 in Hy. injection Hy as <-.
  destruct (trie_db_hashed ns1 (as_list_nodes_wf _ _ Hns1)) as [Hh1 He1].
  destruct (trie_db_hashed ns2 (as_list_nodes_wf _ _ Hns2)) as [Hh2 He2].
  assert (forall h m, trie_db ns1 !! h = Some m -> rlp_encode (rlp_append m) ∈ encodings ns1 ++ encodings ns2) as Hm1.
  { intros h m Hm. apply elem_of_app. left. by eapply He1. }
  assert (forall h m, trie_db ns2 !! h = Some m -> rlp_encode (rlp_append m) ∈ encodings ns1 ++ encodings ns2) as Hm2.
  { intros h m Hm. apply elem_of_app. right. by eapply He2. }
  assert (n1 = n2) as ->.
  { destruct (Hh1 _ _ Hn1) as [Hw1 Hs1], (Hh2 _ _ Hn2) as [Hw2 Hs2].
    apply rlp_append_inj; [done..|]. apply rlp_encode_inj, Hcf; [by eapply Hm1|by eapply Hm2|congruence]. }
  by eapply (get_str_value_unique _ _ _ _ _ _ _ Hh1 Hh2 Hcf Hm1 Hm2).
Qed.

(** a node can make its client unwind.  The nodes of a proof are not covered by its
    signature: an accepted proof whose nodes are replaced by bytes in which a path is
    empty makes [verify_parsed_sp] unwind, instead of refusing it. *)
Theorem malformed_proof_unwinds (sp : ParsedSP) (nodes : gmap string (option VerKey)) (f : N) (gen : Generator)
    (kv : string * option string) (kvs : list (string * option string)) (proof : string) (b : bytes) :
  verify_parsed_sp [sp] nodes f gen = Ok true -> kvs_to_verify sp = Simple (kv :: kvs) ->
  base64_decode proof = Some b -> as_list_nodes (rlp_new b) = Panic ->
  verify_parsed_sp [mk_parsed_sp proof (root_hash sp) (kvs_to_verify sp) (multi_signature sp)] nodes f gen = Panic.
Proof.
  cbn [verify_parsed_sp]. intros Hv Hkvs Hb Hpanic. apply bind_Ok in Hv as ([] & Hone & Hv); [clear Hv|done].
  assert (verify_one (mk_parsed_sp proof (root_hash sp) (kvs_to_verify sp) (multi_signature sp)) nodes f gen = Panic)
    as ->; [|done].
  unfold verify_one in *. cbn [multi_signature root_hash proof_nodes kvs_to_verify].
  revert Hone. case_decide; [done|].
  destruct (_parse_reply_for_proof_signature_checking _) as [[[sig parts] value]|]; [intros Hone|done].
  apply bind_Ok in Hone as ([] & Hsig & Hone); [|done]. rewrite Hsig. cbn [mbind outcome_bind negb] in *.
  rewrite Hb, Hkvs in *. destruct (base64_decode (proof_nodes sp)); [|done].
  destruct (from_base58 (root_hash sp)) as [root|]; [|done]. destruct kv as [k v]. cbn [verify_kvs] in *.
  destruct (base64_decode k) as [key|]; [|done]. unfold _verify_proof at 1. by rewrite Hpanic.
Qed.

(** the time of a state proof is not signed.  A reply to a built-in request keeps
    its proof when the member "ver" and the member "multiSignature" of the other format are
    added to it, and the time that is then read from it is the one in the added member,
    whatever it is: the freshness of a proof is what the answering node says. *)
Theorem freshness_not_signed (m : SJsonMap) (xtype raw raw' : string) (protocol_version time : N) :
  as_str (index (Object m) "type") = Some xtype -> xtype ∈ REQUESTS_FOR_STATE_PROOFS ->
  let forged := Object (obj_insert "ver" (String_ "1")
    (obj_insert "multiSignature"
      (Object [("signedState"%string, Object [("stateMetadata"%string,
         Object [("timestamp"%string, Number (PosInt time))])])]) m)) in
  parse_generic_reply_for_proof_checking protocol_version forged raw' =
    parse_generic_reply_for_proof_checking protocol_version (Object m) raw /\
  as_str (index forged "ver") = Some "1"%string /\
  last_txn_time (_parse_transaction_metadata_v1 forged) = Some time.
Proof.
  intros Ht Hx forged.
  assert (forall k, k <> "ver"%string -> k <> "multiSignature"%string -> index forged k = index (Object m) k) as Hi.
  { intros k ? ?. unfold forged, index. by rewrite !obj_get_insert, !decide_False by done. }
  split_and!.
  - unfold parse_generic_reply_for_proof_checking, _parse_reply_for_builtin_sp, reply_data, key_suffix,
      key_prefix, _parse_reply_for_proof_value.
    rewrite !Hi by done. rewrite Ht, !(decide_True _ _ Hx). done.
  - unfold forged, index. by rewrite obj_get_insert, decide_True by done.
  - unfold _parse_transaction_metadata_v1, forged. cbn [last_txn_time].
    unfold index at 4. rewrite !obj_get_insert, decide_False, decide_True by done. reflexivity.
Qed.
End properties.

(** ** Witnesses *)

(** Libraries that accept every signature; SHA-3 is replaced by the identity. *)
Module ToyProofs.
#[export] Existing Instances ToyPool.machine ToyPool.order ToyPool.base58 ToyPool.json_text
  ToyPool.codecs ToyPool.bls ToyRlp.rlp.

#[export] Instance libs : ProofLibs := {|
  sha3_256 := fun b => b;
  sha2_256 := fun b => b;
  to_hex := string_of_bytes;
  base64_encode := string_of_bytes;
  base64_decode := fun s => Some (as_bytes s);
  sp_parser := fun _ => None;
  MultiSignature := bytes;
  multi_signature_from_bytes := Some;
  verify_multi_sig := fun _ _ _ _ => Some true;
|}.
End ToyProofs.

#[local] Existing Instances ToyPool.machine ToyPool.order ToyPool.base58 ToyPool.json_text
  ToyPool.codecs ToyPool.bls ToyRlp.rlp ToyProofs.libs.

Definition sample_root : bytes := rlp_encode (rlp_append sample_leaf).
Definition sample_proof_nodes : string := string_of_bytes [Byte.x00; Byte.x61].

Definition sample_sp : ParsedSP :=
  mk_parsed_sp sample_proof_nodes (string_of_bytes sample_root) (Simple [(""%string, Some "a"%string)])
    (Object [("participants"%string, Array [String_ "n1"; String_ "n2"; String_ "n3"]);
             ("signature"%string, String_ "s");
             ("value"%string, Object [("result"%string, String_ "v");
                ("state_root_hash"%string, String_ (string_of_bytes sample_root))])]).

Definition sample_nodes : gmap string (option VerKey) :=
  <["n1"%string := Some [Byte.x01]]> (<["n2"%string := Some [Byte.x02]]>
  (<["n3"%string := Some [Byte.x03]]> (<["n4"%string := Some [Byte.x04]]> ∅))).

Definition sample_reply : SJsonMap :=
  [("dest"%string, String_ "d"); ("state_proof"%string, Object [
    ("multi_signature"%string, Null); ("proof_nodes"%string, String_ "p"); ("root_hash"%string, String_ "r")]);
   ("type"%string, String_ GET_NYM)].


Lemma state_proof_unforgeable_witness :
  _verify_proof [Byte.x00; Byte.x61] sample_root [] (Some "a"%string) = Ok true /\
  (Some "a"%string : option string) = Some "a"%string.
Proof.
  split; [vm_compute; reflexivity|].
  refine (state_proof_unforgeable [Byte.x00; Byte.x61] [Byte.x00; Byte.x61] sample_root []
    (Some "a"%string) (Some "a"%string) [sample_leaf] [sample_leaf] _ _ _ _ _).
  - vm_compute. reflexivity.
  - vm_compute. reflexivity.
  - intros m1 m2 _ _ He. exact He.
  - vm_compute. reflexivity.
  - vm_compute. reflexivity.
Defined.

Lemma malformed_proof_unwinds_witness :
  verify_parsed_sp [mk_parsed_sp (string_of_bytes [Byte.x01]) (root_hash sample_sp)
    (kvs_to_verify sample_sp) (multi_signature sample_sp)] sample_nodes 1 () = Panic.
Proof.
  refine (malformed_proof_unwinds sample_sp sample_nodes 1 () (""%string, Some "a"%string) []
    (string_of_bytes [Byte.x01]) [Byte.x01] _ _ _ _); vm_compute; reflexivity.
Defined.

Lemma freshness_not_signed_witness :
  let forged := Object (obj_insert "ver" (String_ "1")
    (obj_insert "multiSignature"
      (Object [("signedState"%string, Object [("stateMetadata"%string,
         Object [("timestamp"%string, Number (PosInt 99))])])]) sample_reply)) in
  parse_generic_reply_for_proof_checking 2 forged "b" =
    parse_generic_reply_for_proof_checking 2 (Object sample_reply) "a" /\
  as_str (index forged "ver") = Some "1"%string /\
  last_txn_time (_parse_transaction_metadata_v1 forged) = Some 99%N.
Proof.
  refine (freshness_not_signed sample_reply GET_NYM "a" "b" 2 99 _ _); [vm_compute; reflexivity|].
  apply (bool_decide_unpack _). vm_compute. exact I.
Defined.

(** ** The service that the request handler uses *)

Class StateProofService `{Bls} := {
  sp_parse : N -> SJsonValue -> string -> IndyResult (option (list ParsedSP));
  sp_verify : list ParsedSP -> gmap string (option VerKey) -> N -> Generator -> IndyResult bool;
}.

#[export] Instance state_proof_service `{Machine} `{JsonText} `{PoolCodecs} `{Base58} `{HashOrder}
    `{Rlp} `{ProofLibs} : StateProofService :=
  {| sp_parse := parse_generic_reply_for_proof_checking; sp_verify := verify_parsed_sp |}.
