(* ===== verification/RequestHandler.v ===== *)
(** * RequestHandler: the state machine of one request to the pool

    Models [libindy/src/services/pool/request_handler.rs].  A request is sent to one node
    or to all of them and collects their answers; [handle_event] is a function from the
    machine and an event to the next machine and the event for the pool, on the world of
    [World.v].  The networker is only sent to, so that its handle is not part of the state. *)

From S2P Require Import Prelude Errors Json Hashing MerkleTree PoolTypes World MerkleFactory Catchup Response Trie StateProof.
Import MerkleTree.MerkleTree.

(** ** States *)

(** An answer; two are equal when they come from the same node, so that a set of them is
    a map from nodes to answers. *)
Record NodeResponse := mk_node_response {
  nr_raw_msg : string;
  nr_node_alias : string;
  timestamp : N;
}.

Record ConsensusState := mk_consensus {
  c_denied_nodes : gset string;
  c_replies : gmap SJsonValue (gset string);
  c_timeout_nodes : gset string;
}.

Record SingleState := mk_single {
  s_denied_nodes : gset string;
  s_replies : gmap SJsonValue (gmap string NodeResponse);
  s_timeout_nodes : gset string;
}.

Record CatchupConsensusState := mk_catchup_consensus {
  cc_replies : gmap LedgerVote (gset string);
  cc_merkle_tree : MerkleTree;
}.

Record CatchupSingleState := mk_catchup_single {
  target_mt_root : bytes;
  target_mt_size : N;
  cs_merkle_tree : MerkleTree;
  cs_req_id : string;
}.

Record FullState := mk_full {
  accum_reply : option SJsonValue;
  nodes_to_send : option (list string);
}.

Inductive RequestState :=
| Start
| Single (s : SingleState)
| Consensus (s : ConsensusState)
| CatchupSingle (s : CatchupSingleState)
| CatchupConsensus (s : CatchupConsensusState)
| FullReq (s : FullState)
| Finish.

Definition new_consensus : ConsensusState := mk_consensus ∅ ∅ ∅.
Definition new_single : SingleState := mk_single ∅ ∅ ∅.

Record RequestSM `{Bls} := mk_request {
  f : N;
  cmd_ids : list Z;
  nodes : gmap string (option VerKey);
  generator : Generator;
  timeout : Z;
  extended_timeout : Z;
  state : RequestState;
}.

Definition request_new `{Bls} (f : N) (cmd_ids : list Z) (nodes : gmap string (option VerKey))
    (generator : option Generator) (timeout extended_timeout : Z) : RequestSM :=
  mk_request _ f cmd_ids nodes (default default_generator generator) timeout extended_timeout Start.

Section handler.
Context `{Machine} `{Sha256} `{JsonText} `{PoolCodecs} `{Base58} `{HashOrder} `{Bls}
  `{ResponseCodec} `{!StateProofService}.

(** ** Answers to the commands that wait *)

Definition _send_replies (cmd_ids : list Z) (msg : IndyErrorKind + string) : M unit :=
  forM (fun id => send (SubmitAck id msg)) cmd_ids.
Definition _send_ok_replies (cmd_ids : list Z) (msg : string) : M unit := _send_replies cmd_ids (inr msg).
Definition _finish_request (cmd_ids : list Z) : M unit := _send_replies cmd_ids (inl PoolTerminated).

(** ** Answers of nodes *)

Definition _get_msg_result_without_state_proof (msg : string) : IndyResult (SJsonValue * SJsonValue) :=
  msg ← ok_or (from_str msg) InvalidStructure;
  let msg_result := index msg "result" in
  let without_proof := remove_key msg_result "state_proof" in
  let without_proof :=
    if is_object (index without_proof "data") then
      set_key without_proof "data" (remove_key (index without_proof "data") "stateProofFrom")
    else without_proof in
  Ok (msg_result, without_proof).

Definition _check_state_proof (protocol_version : N) (msg_result : SJsonValue) (f : N) (gen : Generator)
    (bls_keys : gmap string (option VerKey)) (raw_msg : string) : IndyResult bool :=
  parsed ← sp_parse protocol_version msg_result raw_msg;
  match parsed with
  | Some parsed_sps => sp_verify parsed_sps bls_keys f gen
  | None => Ok false
  end.

(** [a + b] on [u64] *)
Definition u64_add (a b : N) : IndyResult N :=
  if (a + b <? 2 ^ 64)%N then Ok (a + b)%N
  else if overflow_checks then Panic
  else Ok ((a + b) mod 2 ^ 64)%N.

(** ** Consensus *)

Definition sum_sizes (l : list N) : N := foldr N.add 0%N l.
Definition max_size (l : list N) : N := foldr N.max 0%N l.

Definition consensus_sizes (s : ConsensusState) : list N :=
  (fun kv => N.of_nat (size kv.2)) <$> map_to_list (c_replies s).

(** [ConsensusState::is_consensus_reachable] *)
Definition consensus_reachable (s : ConsensusState) (f total_nodes_cnt : N) : IndyResult bool :=
  let rep_no := sum_sizes (consensus_sizes s) in
  let max_no := max_size (consensus_sizes s) in
  n ← usize_add max_no total_nodes_cnt;
  n ← usize_sub n rep_no;
  n ← usize_sub n (N.of_nat (size (c_timeout_nodes s)));
  n ← usize_sub n (N.of_nat (size (c_denied_nodes s)));
  Ok (f <? n)%N.

(** [set.insert(node_alias)] in the set of a value. *)
Definition add_vote {K} `{Countable K} (key : K) (node_alias : string) (replies : gmap K (gset string)) :
    gmap K (gset string) :=
  <[key := {[node_alias]} ∪ default ∅ (replies !! key)]> replies.

Definition nodes_cnt (sm : RequestSM) : N := N.of_nat (size (nodes sm)).

(** A reply, a refusal or a rejection. *)
Definition consensus_reply (sm : RequestSM) (s : ConsensusState) (raw_msg node_alias req_id : string) :
    M (RequestState * option PoolEvent) :=
  match _get_msg_result_without_state_proof raw_msg with
  | Ok (_, result_without_proof) =>
      let replies := add_vote result_without_proof node_alias (c_replies s) in
      let s := mk_consensus (c_denied_nodes s) replies (c_timeout_nodes s) in
      let cnt := N.of_nat (size (default ∅ (replies !! result_without_proof))) in
      if (f sm <? cnt)%N then
        _ ← _send_ok_replies (cmd_ids sm) raw_msg;
        _ ← net (CleanTimeout req_id None);
        mret (Finish, None)
      else
        reachable ← lift (consensus_reachable s (f sm) (nodes_cnt sm));
        if (reachable : bool) then
          _ ← net (CleanTimeout req_id (Some node_alias));
          mret (Consensus s, None)
        else
          _ ← _send_replies (cmd_ids sm) (inl PoolTimeout);
          _ ← net (CleanTimeout req_id None);
          mret (Finish, None)
  | _ =>
      let s := mk_consensus ({[node_alias]} ∪ c_denied_nodes s) (c_replies s) (c_timeout_nodes s) in
      if (N.of_nat (size (c_denied_nodes s)) + N.of_nat (size (c_replies s)) =? nodes_cnt sm)%N then
        _ ← _send_replies (cmd_ids sm) (inl PoolTimeout);
        mret (Finish, None)
      else mret (Consensus s, None)
  end.

Definition consensus_timeout (sm : RequestSM) (s : ConsensusState) (req_id node_alias : string) :
    M (RequestState * option PoolEvent) :=
  let s := mk_consensus (c_denied_nodes s) (c_replies s) ({[node_alias]} ∪ c_timeout_nodes s) in
  reachable ← lift (consensus_reachable s (f sm) (nodes_cnt sm));
  if (reachable : bool) then
    _ ← net (CleanTimeout req_id (Some node_alias));
    mret (Consensus s, None)
  else
    _ ← _send_replies (cmd_ids sm) (inl PoolTimeout);
    _ ← net (CleanTimeout req_id None);
    mret (Finish, None).

Definition handle_consensus (sm : RequestSM) (s : ConsensusState) (re : RequestEvent) :
    M (RequestState * option PoolEvent) :=
  match re with
  | REReply _ raw_msg node_alias req_id
  | REReqNACK _ raw_msg node_alias req_id
  | REReject _ raw_msg node_alias req_id => consensus_reply sm s raw_msg node_alias req_id
  | REReqACK _ _ node_alias req_id =>
      _ ← net (ExtendTimeout req_id node_alias (extended_timeout sm));
      mret (Consensus s, None)
  | RETimeout req_id node_alias => consensus_timeout sm s req_id node_alias
  | Terminate => _ ← _finish_request (cmd_ids sm); mret (Finish, None)
  | _ => mret (Consensus s, None)
  end.

(** ** A single node *)

(** [SingleState::is_consensus_reachable] *)
Definition single_reachable (s : SingleState) (total_nodes_cnt : N) : bool :=
  (N.of_nat (size (s_timeout_nodes s)) + N.of_nat (size (s_denied_nodes s)) +
   sum_sizes ((fun kv => N.of_nat (size kv.2)) <$> map_to_list (s_replies s)) <? total_nodes_cnt)%N.

(** [SingleState::try_to_continue] *)
Definition try_to_continue (sm : RequestSM) (s : SingleState) (req_id node_alias : string) :
    M (RequestState * option PoolEvent) :=
  if single_reachable s (nodes_cnt sm) then
    _ ← net (Resend req_id (timeout sm));
    _ ← net (Resend req_id (timeout sm));
    _ ← net (CleanTimeout req_id (Some node_alias));
    mret (Single s, None)
  else
    _ ← _send_replies (cmd_ids sm) (inl PoolTimeout);
    _ ← net (CleanTimeout req_id None);
    mret (Finish, None).

(** [set.insert(NodeResponse {..})]: an answer of the same node stays. *)
Definition add_response (key : SJsonValue) (resp : NodeResponse)
    (replies : gmap SJsonValue (gmap string NodeResponse)) : gmap SJsonValue (gmap string NodeResponse) :=
  let set := default ∅ (replies !! key) in
  <[key := match set !! nr_node_alias resp with
           | Some _ => set
           | None => <[nr_node_alias resp := resp]> set
           end]> replies.

(** [_get_cur_time() <= _get_freshness_threshold() + last_write_time] *)
Definition is_fresh (last_write_time : N) : M bool :=
  now ← gets cur_time;
  threshold ← gets freshness_threshold;
  limit ← lift (u64_add threshold last_write_time);
  mret (now <=? limit)%N.

Definition proof_is_fresh (sm : RequestSM) (result : SJsonValue) (raw_msg : string) (last_write_time : N) : M bool :=
  pv ← gets protocol_version;
  ok ← lift (_check_state_proof pv result (f sm) (generator sm) (nodes sm) raw_msg);
  if (ok : bool) then is_fresh last_write_time else mret false.

Definition single_reply (sm : RequestSM) (s : SingleState) (raw_msg node_alias req_id : string) :
    M (RequestState * option PoolEvent) :=
  let timeouts := s_timeout_nodes s ∖ {[node_alias]} in
  match _get_msg_result_without_state_proof raw_msg with
  | Ok (result, result_without_proof) =>
      time ← lift (get_last_signed_time raw_msg);
      let last_write_time := default 0%N time in
      let replies := add_response result_without_proof (mk_node_response raw_msg node_alias last_write_time)
                       (s_replies s) in
      let set := default ∅ (replies !! result_without_proof) in
      let cnt := N.of_nat (size set) in
      let soonest := match max_by_key (fun kv => timestamp kv.2) (hash_iter set) with
                     | Some (_, resp) => nr_raw_msg resp
                     | None => raw_msg
                     end in
      let s := mk_single (s_denied_nodes s) replies timeouts in
      accept ← (if (f sm <? cnt)%N then mret true else proof_is_fresh sm result raw_msg last_write_time);
      if (accept : bool) then
        _ ← net (CleanTimeout req_id None);
        _ ← _send_ok_replies (cmd_ids sm) (if (f sm <? cnt)%N then soonest else raw_msg);
        mret (Finish, None)
      else try_to_continue sm s req_id node_alias
  | _ =>
      try_to_continue sm (mk_single ({[node_alias]} ∪ s_denied_nodes s) (s_replies s) timeouts) req_id node_alias
  end.

Definition handle_single (sm : RequestSM) (s : SingleState) (re : RequestEvent) :
    M (RequestState * option PoolEvent) :=
  match re with
  | REReply _ raw_msg node_alias req_id
  | REReqNACK _ raw_msg node_alias req_id
  | REReject _ raw_msg node_alias req_id => single_reply sm s raw_msg node_alias req_id
  | REReqACK _ _ node_alias req_id =>
      _ ← net (ExtendTimeout req_id node_alias (extended_timeout sm));
      mret (Single s, None)
  | RETimeout req_id node_alias =>
      try_to_continue sm
        (mk_single (s_denied_nodes s) (s_replies s) ({[node_alias]} ∪ s_timeout_nodes s)) req_id node_alias
  | Terminate => _ ← _finish_request (cmd_ids sm); mret (Finish, None)
  | _ => mret (Single s, None)
  end.

(** ** All nodes *)

(** [_full_request_handle_consensus_state] *)
Definition full_reply (sm : RequestSM) (s : FullState) (req_id node_alias node_result : string) :
    M (RequestState * option PoolEvent) :=
  accum ← lift (match accum_reply s with
    | None => Ok (Object [(node_alias, String_ node_result)])
    | Some inner => map ← unwrap (as_object inner); Ok (Object (obj_insert node_alias (String_ node_result) map))
    end);
  let required_reply_cnt := match nodes_to_send s with
    | Some l => N.of_nat (length l)
    | None => nodes_cnt sm
    end in
  map ← lift (unwrap (as_object accum));
  if (N.of_nat (length map) =? required_reply_cnt)%N then
    _ ← net (CleanTimeout req_id None);
    _ ← _send_ok_replies (cmd_ids sm) (to_string accum);
    mret (Finish, None)
  else
    _ ← net (CleanTimeout req_id (Some node_alias));
    mret (FullReq (mk_full (Some accum) (nodes_to_send s)), None).

Definition handle_full (sm : RequestSM) (s : FullState) (re : RequestEvent) :
    M (RequestState * option PoolEvent) :=
  match re with
  | REReply _ raw_msg node_alias req_id
  | REReqNACK _ raw_msg node_alias req_id
  | REReject _ raw_msg node_alias req_id => full_reply sm s req_id node_alias raw_msg
  | RETimeout req_id node_alias => full_reply sm s req_id node_alias "timeout"
  | Terminate => _ ← _finish_request (cmd_ids sm); mret (Finish, None)
  | _ => mret (FullReq s, None)
  end.

(** ** Catchup *)

(** [_process_catchup_target] *)
Definition _process_catchup_target (sm : RequestSM) (s : CatchupConsensusState) (merkle_root : string)
    (txn_seq_no : N) (hashes : option (list string)) (node_alias : string) :
    M (CatchupConsensusState * bool * option PoolEvent) :=
  let replies := add_vote (merkle_root, txn_seq_no, hashes) node_alias (cc_replies s) in
  let s := mk_catchup_consensus replies (cc_merkle_tree s) in
  r ← attempt (check_nodes_responses_on_status replies (cc_merkle_tree s) (nodes_cnt sm) (f sm));
  mret match r with
       | inr InProgress => (s, false, None)
       | inr (NotNeeded merkle_tree) => (s, true, Some (Synced merkle_tree))
       | inr (Restart merkle_tree) => (s, false, Some (CatchupRestart merkle_tree))
       | inr (ShouldBeStarted root size merkle_tree) => (s, true, Some (CatchupTargetFound root size merkle_tree))
       | inl err => (s, true, Some (CatchupTargetNotFound err))
       end.

(** [_catchup_target_handle_consensus_state] *)
Definition catchup_target (sm : RequestSM) (s : CatchupConsensusState) (mt_root : string) (sz : N)
    (cons_proof : option (list string)) (node_alias req_id : string) :
    M (RequestState * option PoolEvent) :=
  '(s, finished, result) ← _process_catchup_target sm s mt_root sz cons_proof node_alias;
  match (finished : bool), result with
  | true, result =>
      _ ← net (CleanTimeout req_id None);
      mret (Finish, result)
  | false, Some (CatchupRestart merkle_tree) =>
      _ ← net (CleanTimeout req_id None);
      mret (CatchupConsensus s, Some (CatchupRestart merkle_tree))
  | false, result =>
      _ ← net (CleanTimeout req_id (Some node_alias));
      mret (CatchupConsensus s, result)
  end.

Definition handle_catchup_consensus (sm : RequestSM) (s : CatchupConsensusState) (re : RequestEvent) :
    M (RequestState * option PoolEvent) :=
  match re with
  | RELedgerStatus ls (Some node_alias) _ =>
      catchup_target sm s (merkleRoot ls) (txnSeqNo ls) None node_alias (merkleRoot ls)
  | REConsistencyProof cp node_alias =>
      catchup_target sm s (newMerkleRoot cp) (seqNoEnd cp) (Some (hashes cp)) node_alias (oldMerkleRoot cp)
  | RETimeout req_id node_alias => catchup_target sm s "timeout" 0 None node_alias req_id
  | Terminate => _ ← _finish_request (cmd_ids sm); mret (Finish, None)
  | _ => mret (CatchupConsensus s, None)
  end.

(** The loop of [_process_catchup_reply]: it takes the transactions in the order of their
    numbers; the fuel is their count. *)
Fixpoint take_txns (fuel : nat) (rep : CatchupRep) (merkle : MerkleTree) (txns_to_drop : list bytes) :
    IndyResult (MerkleTree * list bytes) :=
  if decide (txns rep = ∅) then Ok (merkle, txns_to_drop)
  else
    match fuel with
    | O => OutOfFuel
    | S fuel =>
        key ← min_tx rep;
        txn ← unwrap (txns rep !! pretty key);
        let rep := mk_catchup_rep (rep_ledgerId rep) (consProof rep) (delete (pretty key) (txns rep)) in
        txn ← ok_or (rmp_to_vec_named txn) InvalidStructure;
        merkle ← append merkle txn;
        take_txns fuel rep merkle (txns_to_drop ++ [txn])
    end.

Definition _process_catchup_reply (rep : CatchupRep) (merkle : MerkleTree) (target_mt_root : bytes)
    (target_mt_size : N) : M MerkleTree :=
  '(merkle, txns_to_drop) ← lift (take_txns (size (txns rep)) rep merkle []);
  _ ← lift (check_cons_proofs merkle (consProof rep) target_mt_root target_mt_size);
  _ ← dump_new_txns txns_to_drop;
  mret merkle.

Definition handle_catchup_single (sm : RequestSM) (s : CatchupSingleState) (re : RequestEvent) :
    M (RequestState * option PoolEvent) :=
  match re with
  | RECatchupRep cr node_alias =>
      r ← attempt (_process_catchup_reply cr (cs_merkle_tree s) (target_mt_root s) (target_mt_size s));
      match r with
      | inr merkle =>
          _ ← net (CleanTimeout (cs_req_id s) None);
          mret (Finish, Some (Synced merkle))
      | inl _ =>
          _ ← net (Resend (cs_req_id s) (timeout sm));
          _ ← net (CleanTimeout (cs_req_id s) (Some node_alias));
          mret (CatchupSingle s, None)
      end
  | RETimeout req_id node_alias =>
      _ ← net (Resend (cs_req_id s) (timeout sm));
      _ ← net (CleanTimeout req_id (Some node_alias));
      mret (CatchupSingle s, None)
  | Terminate => _ ← _finish_request (cmd_ids sm); mret (Finish, None)
  | _ => mret (CatchupSingle s, None)
  end.

(** ** The start *)

Definition start_full (sm : RequestSM) (msg req_id : string) (local_timeout : option Z)
    (nodes_to_send : option string) : M (RequestState * option PoolEvent) :=
  let timeout := default (extended_timeout sm) local_timeout in
  match nodes_to_send with
  | Some nodes_to_send =>
      match strings_from_json nodes_to_send with
      | Some nodes_to_send =>
          if decide (nodes_to_send <> [] /\ Forall (fun node => is_Some (nodes sm !! node)) nodes_to_send) then
            _ ← net (SendAllRequest msg req_id timeout (Some nodes_to_send));
            mret (FullReq (mk_full None (Some nodes_to_send)), None)
          else
            _ ← _send_replies (cmd_ids sm) (inl InvalidStructure);
            mret (Finish, None)
      | None =>
          _ ← _send_replies (cmd_ids sm) (inl InvalidStructure);
          mret (Finish, None)
      end
  | None =>
      _ ← net (SendAllRequest msg req_id timeout None);
      mret (FullReq (mk_full None None), None)
  end.

Definition handle_start (sm : RequestSM) (re : RequestEvent) : M (RequestState * option PoolEvent) :=
  match re with
  | RELedgerStatus ls _ (Some merkle) =>
      let req_id := merkleRoot ls in
      msg ← lift (unwrap (message_to_json (MLedgerStatus ls)));
      _ ← net (SendAllRequest msg req_id (extended_timeout sm) None);
      mret (CatchupConsensus (mk_catchup_consensus ∅ merkle), None)
  | RECatchupReq merkle target_mt_size target_mt_root =>
      r ← attempt (lift (build_catchup_req merkle target_mt_size));
      match r with
      | inr (Some (req_id, req_json)) =>
          _ ← net (SendOneRequest req_json req_id (timeout sm));
          mret (CatchupSingle (mk_catchup_single target_mt_root target_mt_size merkle req_id), None)
      | inr None => mret (Finish, Some (Synced merkle))
      | inl e =>
          _ ← _send_replies (cmd_ids sm) (inl e);
          mret (Finish, None)
      end
  | CustomSingleRequest msg req_id =>
      _ ← net (SendOneRequest msg req_id (timeout sm));
      _ ← net (Resend req_id (timeout sm));
      mret (Single new_single, None)
  | CustomFullRequest msg req_id local_timeout nodes_to_send =>
      start_full sm msg req_id local_timeout nodes_to_send
  | CustomConsensusRequest msg req_id =>
      _ ← net (SendAllRequest msg req_id (timeout sm) None);
      mret (Consensus new_consensus, None)
  | _ => mret (Start, None)
  end.

(** ** The machine *)

Definition set_state (sm : RequestSM) (s : RequestState) : RequestSM :=
  mk_request _ (f sm) (cmd_ids sm) (nodes sm) (generator sm) (timeout sm) (extended_timeout sm) s.

Definition dispatch (sm : RequestSM) (re : RequestEvent) : M (RequestState * option PoolEvent) :=
  match state sm with
  | Start => handle_start sm re
  | Consensus s => handle_consensus sm s re
  | Single s => handle_single sm s re
  | CatchupConsensus s => handle_catchup_consensus sm s re
  | CatchupSingle s => handle_catchup_single sm s re
  | FullReq s => handle_full sm s re
  | Finish => mret (Finish, None)
  end.

Definition handle_event (sm : RequestSM) (re : RequestEvent) : M (RequestSM * option PoolEvent) :=
  '(s, event) ← dispatch sm re;
  mret (set_state sm s, event).

Definition is_terminal (sm : RequestSM) : bool :=
  match state sm with Finish => true | _ => false end.

(** ** [RequestHandlerImpl] *)

Abbreviation RequestHandlerImpl := (option RequestSM).

Definition process_event (self : RequestHandlerImpl) (ore : option RequestEvent) :
    M (RequestHandlerImpl * option PoolEvent) :=
  match ore with
  | Some re =>
      match self with
      | Some w => '(rw, res) ← handle_event w re; mret (Some rw, res)
      | None => mret (None, None)
      end
  | None => mret (self, None)
  end.

Definition impl_is_terminal (self : RequestHandlerImpl) : bool :=
  match self with Some w => is_terminal w | None => true end.
End handler.
