(* ===== verification/RequestFacts.v ===== *)
(** * RequestFacts: the theorems about the request state machine

    What a run of the machine of [RequestHandler.v] sends, decides and cannot do. *)

From S2P Require Import Prelude Errors Json Hashing MerkleTree MerkleProof Consistency PoolTypes World MerkleFactory Catchup Response Trie StateProof RequestHandler.
Import MerkleTree.MerkleTree.

Section quiet.
Context `{Machine} `{Sha256} `{JsonText} `{PoolCodecs} `{Base58} `{HashOrder}.

Lemma quiet_put_stored s : quiet (put_stored s).
Proof. apply quiet_set_stored. Qed.

Hint Resolve quiet_put_stored : indy.

Lemma quiet_drop_cache : quiet drop_cache.
Proof. apply quiet_bind; [auto with indy|]. intros [s|]; auto with indy. apply quiet_lift. Qed.

Lemma quiet_cache_loop fuel rest mt : quiet (cache_loop fuel rest mt).
Proof.
  revert rest mt. induction fuel as [|fuel IH]; intros rest mt; cbn [cache_loop]; [apply quiet_lift|].
  apply quiet_bind; [apply quiet_io_call|]. intros _. case_decide; [apply quiet_ret|].
  case_match; [apply quiet_lift|]. apply quiet_bind; [apply quiet_io_call|]. intros _.
  case_match; [apply quiet_lift|]. apply quiet_bind; [apply quiet_lift|]. auto.
Qed.

Lemma quiet_create : quiet create.
Proof.
  apply quiet_bind; [apply quiet_gets|]. intros w. destruct (stored w) as [file|].
  - apply quiet_bind; [apply quiet_lift|]. intros mt. apply quiet_bind; [apply quiet_io_call|].
    intros _. apply quiet_cache_loop.
  - destruct (genesis w) as [lines|]; [|apply quiet_lift].
    apply quiet_bind; [apply quiet_lift|]. intros mt. apply quiet_bind; [apply quiet_io_call|]. intros _.
    apply quiet_foldlM. intros mt' line. apply quiet_bind; [apply quiet_io_call|]. intros _.
    case_decide; [apply quiet_ret|apply quiet_lift].
Qed.

Lemma quiet_write_all b : quiet (write_all b).
Proof.
  apply quiet_bind; [apply quiet_gets|]. intros s. apply quiet_bind; [apply quiet_next_io|].
  intros []; auto with indy. apply quiet_bind; [auto with indy|]. intros _. apply quiet_lift.
Qed.

Lemma quiet_dump_vec v : quiet (_dump_vec_to_file v).
Proof. apply quiet_forM. intros a. apply quiet_bind; intros; apply quiet_write_all. Qed.

Lemma quiet_dump_new_txns ts : quiet (dump_new_txns ts).
Proof.
  apply quiet_bind; [apply quiet_gets|]. intros s. apply quiet_bind.
  - destruct s; [apply quiet_ret|]. apply quiet_bind; [apply quiet_gets|].
    intros [lines|]; [|apply quiet_lift]. apply quiet_bind; [apply quiet_io_call|]. intros _.
    apply quiet_bind; [auto with indy|]. intros _. apply quiet_bind; [|intros; apply quiet_dump_vec].
    apply quiet_bind; [apply quiet_io_call|]. intros _. apply quiet_foldlM. intros a b.
    apply quiet_bind; [apply quiet_io_call|]. intros _. apply quiet_bind; [apply quiet_lift|]. intros; apply quiet_ret.
  - intros _. apply quiet_bind; [apply quiet_io_call|]. intros _. apply quiet_dump_vec.
Qed.

Lemma quiet_restart err : quiet (_try_to_restart_catch_up err).
Proof.
  apply quiet_bind; [apply quiet_attempt, quiet_drop_cache|]. intros [|]; [apply quiet_lift|].
  apply quiet_bind; [apply quiet_create|]. intros; apply quiet_ret.
Qed.

Lemma quiet_if_reachable votes n c f : quiet (_if_consensus_reachable votes n c f).
Proof.
  do 3 (apply quiet_bind; [apply quiet_lift|]; intros ?).
  case_match; [apply quiet_restart|apply quiet_ret].
Qed.

Lemma quiet_check_nodes votes mt n f : quiet (check_nodes_responses_on_status votes mt n f).
Proof.
  unfold check_nodes_responses_on_status.
  destruct (max_by_key _ _) as [[key c]|]; [|destruct (last _) as [[key c]|]; [|apply quiet_ret]].
  - apply quiet_bind; [apply quiet_lift|]. intros needed. case_match; [|apply quiet_if_reachable].
    apply quiet_bind; [apply quiet_attempt, quiet_lift|]. intros [err|]; [|apply quiet_ret].
    apply quiet_bind; [apply quiet_attempt, quiet_drop_cache|]. intros [|]; [apply quiet_lift|].
    apply quiet_bind; [apply quiet_create|]. intros; apply quiet_lift.
  - apply quiet_bind; [apply quiet_lift|]. intros needed.
    case_match; [apply quiet_restart|apply quiet_if_reachable].
Qed.

Lemma quiet_process_catchup_reply rep mt root n : quiet (_process_catchup_reply rep mt root n).
Proof.
  apply quiet_bind; [apply quiet_lift|]. intros [mt' ts]. apply quiet_bind; [apply quiet_lift|].
  intros _. apply quiet_bind; [apply quiet_dump_new_txns|]. intros; apply quiet_ret.
Qed.
End quiet.

(** ** Every command is answered at most once *)
Section answers.
Context `{Machine} `{Sha256} `{JsonText} `{PoolCodecs} `{Base58} `{HashOrder} `{Bls}
  `{ResponseCodec} `{!StateProofService}.

(** The same answer to every command. *)
Definition answer_all (ids : list Z) (r : IndyErrorKind + string) : list (Z * (IndyErrorKind + string)) :=
  (fun id => (id, r)) <$> ids.

(** What a step from a live state sends: when it finishes the request, either one answer
    to every command that waits or an event for the pool; otherwise no answer. *)
Definition answered (ids : list Z) (p : RequestState * option PoolEvent) (es : list Effect) : Prop :=
  match p.1 with
  | Finish => (exists r, sents es = (fun id => SubmitAck id r) <$> ids /\ p.2 = None) \/ (sents es = [] /\ is_Some p.2)
  | _ => sents es = []
  end.

Lemma answered_submits ids p es : answered ids p es ->
  match p.1 with
  | Finish => (exists r, submits es = answer_all ids r /\ p.2 = None) \/ (submits es = [] /\ is_Some p.2)
  | _ => submits es = []
  end.
Proof.
  unfold answered, answer_all.
  assert (forall es, sents es = [] -> submits es = []) as Hnil by (intros es' Hes; by apply (submits_sents es' [])).
  destruct p.1; auto. intros [(r & Hr & ?)|[Hr ?]]; [left; exists r|right; by auto]. split; [|done].
  rewrite <-submits_replies. apply submits_sents. by rewrite sents_sent.
Qed.

Lemma outputs_send_replies ids r :
  outputs (_send_replies ids r) (fun _ es => es = (fun id => Sent (SubmitAck id r)) <$> ids).
Proof. apply (outputs_forM_emit (fun id => Sent (SubmitAck id r))). Qed.

Lemma outputs_net e : outputs (net e) (fun _ es => es = [Net e]).
Proof. apply outputs_emit. Qed.

(** Closes [answered] for the effects of a finished computation. *)
Ltac close_answered :=
  apply outputs_ret; unfold answered; cbn [fst snd];
  rewrite ?sents_app, ?sents_sent; cbn;
  rewrite ?app_nil_r; eauto.

(** Walks through a computation. *)
Ltac walk_outputs :=
  repeat first
    [ match goal with
      | |- outputs (_send_replies _ _ ≫= _) _ => outputs_step outputs_send_replies; subst
      | |- outputs (_send_ok_replies _ _ ≫= _) _ => outputs_step outputs_send_replies; subst
      | |- outputs (_finish_request _ ≫= _) _ => outputs_step outputs_send_replies; subst
      | |- outputs (net _ ≫= _) _ => outputs_step outputs_net; subst
      | |- outputs (lift _ ≫= _) _ => eapply outputs_bind; [eapply outputs_lift|cbn beta; intros ? ? [? ->]]
      | |- outputs (gets _ ≫= _) _ => eapply outputs_bind; [eapply outputs_quiet, quiet_gets|cbn beta; intros ? ? ->]
      | |- outputs (let _ := _ in _) _ => cbv zeta
      | |- outputs (match ?x with _ => _ end) _ => destruct x eqn:?
      | |- outputs (mret _) _ => close_answered; fail
      end ].

Lemma answered_consensus sm s re : outputs (handle_consensus sm s re) (answered (cmd_ids sm)).
Proof. unfold handle_consensus, consensus_reply, consensus_timeout. walk_outputs. all: close_answered. Qed.

Lemma answered_try_to_continue sm s r n : outputs (try_to_continue sm s r n) (answered (cmd_ids sm)).
Proof. unfold try_to_continue. walk_outputs; close_answered. Qed.

Lemma answered_full sm s re : outputs (handle_full sm s re) (answered (cmd_ids sm)).
Proof. unfold handle_full, full_reply. walk_outputs; close_answered. Qed.

Lemma quiet_is_fresh t : quiet (is_fresh t).
Proof.
  do 2 (apply quiet_bind; [apply quiet_gets|]; intros ?). apply quiet_bind; [apply quiet_lift|].
  intros; apply quiet_ret.
Qed.

Lemma quiet_proof_is_fresh sm r raw t : quiet (proof_is_fresh sm r raw t).
Proof.
  apply quiet_bind; [apply quiet_gets|]. intros pv. apply quiet_bind; [apply quiet_lift|].
  intros []; [apply quiet_is_fresh|apply quiet_ret].
Qed.

Lemma answered_single sm s re : outputs (handle_single sm s re) (answered (cmd_ids sm)).
Proof.
  assert (forall raw a id, outputs (single_reply sm s raw a id) (answered (cmd_ids sm))) as Hreply.
  { intros raw a id. unfold single_reply.
    destruct (_get_msg_result_without_state_proof raw) as [[r v]|e| |]; try apply answered_try_to_continue.
    eapply outputs_bind; [eapply outputs_lift|cbn beta; intros time ? [? ->]]. cbv zeta.
    eapply outputs_bind.
    { apply outputs_quiet. case_match; [apply quiet_ret|apply quiet_proof_is_fresh]. }
    intros [] ? ->; [|apply answered_try_to_continue]. walk_outputs; close_answered. }
  unfold handle_single. destruct re; try apply Hreply; try apply answered_try_to_continue;
    walk_outputs; close_answered.
Qed.

Lemma answered_start sm re : outputs (handle_start sm re) (answered (cmd_ids sm)).
Proof.
  unfold handle_start, start_full. destruct re; walk_outputs; try close_answered.
  eapply outputs_bind; [apply outputs_quiet, quiet_attempt, quiet_lift|]. intros r ? ->.
  walk_outputs; close_answered.
Qed.

Lemma answered_catchup_single sm s re : outputs (handle_catchup_single sm s re) (answered (cmd_ids sm)).
Proof.
  unfold handle_catchup_single. destruct re; walk_outputs; try close_answered.
  eapply outputs_bind; [apply outputs_quiet, quiet_attempt, quiet_process_catchup_reply|]. intros r ? ->.
  walk_outputs; close_answered.
Qed.

(** A decision about the catchup always comes with an event for the pool. *)
Lemma process_catchup_target_spec sm s root n hs a :
  outputs (_process_catchup_target sm s root n hs a)
    (fun r es => es = [] /\ match r with (_, true, ev) => is_Some ev | (_, false, _) => True end).
Proof.
  unfold _process_catchup_target. cbv zeta.
  eapply outputs_bind; [apply outputs_quiet, quiet_attempt, quiet_check_nodes|]. intros r ? ->.
  apply outputs_ret. split; [done|]. by destruct r as [|[]].
Qed.

Lemma answered_catchup_target sm s root n hs a id :
  outputs (catchup_target sm s root n hs a id) (answered (cmd_ids sm)).
Proof.
  unfold catchup_target. eapply outputs_bind; [apply process_catchup_target_spec|].
  intros [[s' []] ev] es [-> Hev]; walk_outputs; close_answered.
Qed.

Lemma answered_catchup_consensus sm s re : outputs (handle_catchup_consensus sm s re) (answered (cmd_ids sm)).
Proof.
  unfold handle_catchup_consensus. destruct re as [? []| | | | | | | | | | | | | | |];
    try apply answered_catchup_target; walk_outputs; close_answered.
Qed.

Lemma answered_dispatch sm re : is_terminal sm = false -> outputs (dispatch sm re) (answered (cmd_ids sm)).
Proof.
  unfold is_terminal, dispatch. intros Ht. destruct (state sm); [apply answered_start|apply answered_single
    |apply answered_consensus|apply answered_catchup_single|apply answered_catchup_consensus
    |apply answered_full|done].
Qed.

(** ** Runs *)

(** The machine fed with a sequence of events; what it tells the pool is collected. *)
Fixpoint run (sm : RequestSM) (es : list RequestEvent) : M (RequestSM * list PoolEvent) :=
  match es with
  | [] => mret (sm, [])
  | e :: es =>
      '(sm, ev) ← handle_event sm e;
      '(sm, evs) ← run sm es;
      mret (sm, option_list ev ++ evs)
  end.

Lemma handle_event_params sm re w sm' ev w' : handle_event sm re w = (Ok (sm', ev), w') ->
  sm' = set_state sm (state sm').
Proof. intros ([s e] & w1 & _ & [= <- <- <-])%M_bind_Ok. done. Qed.

Lemma run_finished sm es w : is_terminal sm = true -> run sm es w = (Ok (sm, []), w).
Proof.
  intros Ht. assert (state sm = Finish) as Hs by (unfold is_terminal in Ht; by destruct (state sm)).
  induction es as [|e es IH]; [done|]. cbn [run]. rewrite bind_run.
  unfold handle_event. rewrite bind_run. unfold dispatch. rewrite Hs. cbn.
  assert (set_state sm Finish = sm) as ->; [destruct sm; cbn in *; by subst|].
  rewrite bind_run, IH. done.
Qed.

(** Answers and events of a run, as one statement. *)
Lemma run_answers sm es w sm' evs w' : is_terminal sm = false ->
  run sm es w = (Ok (sm', evs), w') ->
  exists out, effects w' = effects w ++ out /\ cmd_ids sm' = cmd_ids sm /\
    (if is_terminal sm' then (exists r, submits out = answer_all (cmd_ids sm) r) \/ (submits out = [] /\ evs <> [])
     else submits out = []).
Proof.
  revert sm w evs. induction es as [|e es IH]; intros sm w evs Ht.
  - intros [= <- <- <-]. exists []. rewrite app_nil_r, Ht. done.
  - cbn [run]. intros ([sm1 ev] & w1 & Hone & ([sm2 evs2] & w2 & Htwo & [= <- <- <-])%M_bind_Ok)%M_bind_Ok.
    pose proof (handle_event_params _ _ _ _ _ _ Hone) as Hsm1.
    apply M_bind_Ok in Hone as ([s ev'] & w1' & Hd & [= <- <- <-]).
    apply (outputs_Ok _ _ _ _ _ (answered_dispatch sm e Ht)) in Hd as (out1 & Ho1 & Ha%answered_submits).
    cbn [fst snd] in Ha. destruct (is_terminal (set_state sm s)) eqn:Ht1.
    + rewrite (run_finished _ es w1' Ht1) in Htwo. injection Htwo as <- <- <-. exists out1. rewrite Ht1.
      unfold is_terminal in Ht1. cbn in Ht1. destruct s; try done. split_and!; [done..|].
      destruct Ha as [(r & Hr & ->)|[Hr [x ->]]]; [left; eauto|by right].
    + destruct (IH _ _ _ Ht1 Htwo) as (out2 & Ho2 & Hc & Hr). exists (out1 ++ out2).
      rewrite Ho2, Ho1, submits_app. split_and!; [by rewrite app_assoc|done|].
      assert (submits out1 = []) as -> by (unfold is_terminal in Ht1; cbn in Ht1; by destruct s).
      destruct (is_terminal sm2); [|done]. cbn [app]. destruct Hr as [Hr|[Hr Hn]]; [by left|right].
      split; [done|]. intros [_ ?]%app_eq_nil. done.
Qed.
End answers.

(** ** Agreement *)
Section agreement.
Context `{Machine} `{Sha256} `{JsonText} `{PoolCodecs} `{Base58} `{HashOrder} `{Bls}
  `{ResponseCodec} `{!StateProofService}.

(** The text and the node of an event that is an answer. *)
Definition answer_of (e : RequestEvent) : option (string * string) :=
  match e with
  | REReply _ raw a _ | REReqNACK _ raw a _ | REReject _ raw a _ => Some (raw, a)
  | _ => None
  end.

(** The part of an answer that nodes agree on. *)
Definition agreed_part (raw : string) : option SJsonValue :=
  match _get_msg_result_without_state_proof raw with Ok (_, v) => Some v | _ => None end.

(** Node [a] answered [v] in one of the events. *)
Definition said (es : list RequestEvent) (a : string) (v : SJsonValue) : Prop :=
  exists e raw, e ∈ es /\ answer_of e = Some (raw, a) /\ agreed_part raw = Some v.

(** More than [k] nodes gave the answer that [raw] contains. *)
Definition quorum (k : N) (es : list RequestEvent) (raw : string) : Prop :=
  exists v (S : gset string), agreed_part raw = Some v /\ (k < N.of_nat (size S))%N /\
    forall a, a ∈ S -> said es a v.

Lemma said_app es es' a v : said es a v -> said (es ++ es') a v.
Proof. intros (e & raw & He & Ha). exists e, raw. split; [|done]. apply elem_of_app. by left. Qed.

Lemma said_snoc es e raw a v : answer_of e = Some (raw, a) -> agreed_part raw = Some v -> said (es ++ [e]) a v.
Proof. intros Ha Hv. exists e, raw. split; [|done]. apply elem_of_app. right. left. Qed.

Lemma quorum_app k es es' raw : quorum k es raw -> quorum k (es ++ es') raw.
Proof. intros (v & S & Hv & Hk & HS). exists v, S. split_and!; try done. intros a Ha. apply said_app. auto. Qed.

Definition consensus_inv (hist : list RequestEvent) (s : ConsensusState) : Prop :=
  forall v S a, c_replies s !! v = Some S -> a ∈ S -> said hist a v.

Definition consensus_step (k : N) (hist : list RequestEvent) (p : RequestState * option PoolEvent)
    (es : list Effect) : Prop :=
  (p.1 = Finish \/ exists s, p.1 = Consensus s /\ consensus_inv hist s) /\
  forall id raw, (id, inr raw) ∈ submits es -> quorum k hist raw.

(** The only answer that [_send_replies] gives. *)
Lemma replied_in ids r es id r' :
  submits es = [] -> (id, r') ∈ submits (((fun id => Sent (SubmitAck id r)) <$> ids) ++ es) -> r' = r.
Proof.
  intros He. rewrite submits_app, submits_replies, He, app_nil_r. by intros (? & [= -> ->] & _)%list_elem_of_fmap.
Qed.

Lemma consensus_inv_add hist e raw a v s :
  consensus_inv hist s -> answer_of e = Some (raw, a) -> agreed_part raw = Some v ->
  forall denied timeouts, consensus_inv (hist ++ [e]) (mk_consensus denied (add_vote v a (c_replies s)) timeouts).
Proof.
  intros Hi Ha Hv denied timeouts v' S a'. cbn. unfold add_vote.
  intros [[<- <-]|[_ HS]]%lookup_insert_Some Hin; [|apply said_app; by eapply Hi].
  apply elem_of_union in Hin as [->%elem_of_singleton|Hin]; [by eapply said_snoc|].
  destruct (c_replies s !! v) as [S|] eqn:HS; cbn in Hin; [|set_solver]. apply said_app. by eapply Hi.
Qed.

Lemma consensus_reply_step sm s hist e raw a id :
  consensus_inv hist s -> answer_of e = Some (raw, a) ->
  outputs (consensus_reply sm s raw a id) (consensus_step (f sm) (hist ++ [e])).
Proof.
  intros Hi Ha. unfold consensus_reply.
  destruct (_get_msg_result_without_state_proof raw) as [[r v]|e'| |] eqn:Hm.
  2-4: cbv zeta; case_match;
    [outputs_step outputs_send_replies; subst; apply outputs_ret; split; [by left|];
     intros i raw' Hin%replied_in; [done|done]
    |apply outputs_ret; split; [right; eexists; split; [done|]; intros v S a' HS Ha'; apply said_app; by eapply Hi
                               |by intros i raw' Hin%not_elem_of_nil]].
  assert (agreed_part raw = Some v) as Hv by (unfold agreed_part; by rewrite Hm).
  cbv zeta. set (replies := add_vote v a (c_replies s)).
  destruct (N.ltb_spec (f sm) (N.of_nat (size (default ∅ (replies !! v))))) as [Hlt|Hge].
  - outputs_step outputs_send_replies; subst. outputs_step outputs_net; subst. apply outputs_ret.
    split; [by left|]. intros i raw' Hin%replied_in; [|done]. simplify_eq.
    exists v, (default ∅ (replies !! v)). split_and!; [done..|]. intros a' Ha'.
    destruct (replies !! v) as [S|] eqn:HS; cbn in Ha'; [|set_solver].
    by eapply (consensus_inv_add hist e raw a v s Hi Ha Hv ∅ ∅).
  - eapply outputs_bind; [eapply outputs_lift|cbn beta; intros reachable ? [? ->]]. destruct reachable.
    + outputs_step outputs_net; subst. apply outputs_ret. split; [right|].
      * eexists. split; [done|]. by eapply consensus_inv_add.
      * by intros i raw' Hin%not_elem_of_nil.
    + outputs_step outputs_send_replies; subst. outputs_step outputs_net; subst. apply outputs_ret.
      split; [by left|]. by intros i raw' Hin%replied_in.
Qed.

Lemma consensus_inv_mono hist e s denied timeouts :
  consensus_inv hist s -> consensus_inv (hist ++ [e]) (mk_consensus denied (c_replies s) timeouts).
Proof. intros Hi v S a HS Ha. apply said_app. by eapply Hi. Qed.

Lemma handle_consensus_step sm s hist e :
  consensus_inv hist s -> outputs (handle_consensus sm s e) (consensus_step (f sm) (hist ++ [e])).
Proof.
  intros Hi. assert (consensus_inv (hist ++ [e]) s) as Hi'.
  { intros v S a HS Ha. apply said_app. by eapply Hi. }
  assert (outputs (mret (Consensus s, None) : M (RequestState * option PoolEvent))
    (consensus_step (f sm) (hist ++ [e]))) as Hstay.
  { apply outputs_ret. split; [right; by exists s|]. by intros i raw Hin%not_elem_of_nil. }
  destruct e; cbn [handle_consensus]; try exact Hstay; try (by apply consensus_reply_step).
  - unfold consensus_timeout. cbv zeta.
    eapply outputs_bind; [eapply outputs_lift|cbn beta; intros reachable ? [? ->]]. destruct reachable.
    + outputs_step outputs_net; subst. apply outputs_ret. split; [right|].
      * eexists. split; [done|]. by apply consensus_inv_mono.
      * by intros i raw' Hin%not_elem_of_nil.
    + outputs_step outputs_send_replies; subst. outputs_step outputs_net; subst. apply outputs_ret.
      split; [by left|]. by intros i raw' Hin%replied_in.
  - outputs_step outputs_net; subst. apply outputs_ret. split; [right; by exists s|].
    by intros i raw' Hin%not_elem_of_nil.
  - outputs_step outputs_send_replies; subst. apply outputs_ret. split; [by left|].
    by intros i raw' Hin%replied_in.
Qed.

Lemma run_consensus sm es : forall s hist w sm' evs w',
  state sm = Consensus s -> consensus_inv hist s -> run sm es w = (Ok (sm', evs), w') ->
  exists out, effects w' = effects w ++ out /\
    forall id raw, (id, inr raw) ∈ submits out -> quorum (f sm) (hist ++ es) raw.
Proof.
  revert sm. induction es as [|e es IH]; intros sm s hist w sm' evs w' Hs Hi.
  - intros [= <- <- <-]. exists []. rewrite app_nil_r. split; [done|]. by intros ?? Hin%not_elem_of_nil.
  - cbn [run]. intros ([sm1 ev] & w1 & Hone & ([sm2 evs2] & w2 & Htwo & [= <- <- <-])%M_bind_Ok)%M_bind_Ok.
    apply M_bind_Ok in Hone as ([s1 ev'] & w1' & Hd & [= <- <- <-]).
    unfold dispatch in Hd. rewrite Hs in Hd.
    apply (outputs_Ok _ _ _ _ _ (handle_consensus_step sm s hist e Hi)) in Hd as (out1 & Ho1 & Hst & Hq).
    cbn [fst snd] in *. destruct Hst as [->|(s' & -> & Hi')].
    + rewrite run_finished in Htwo by done. injection Htwo as <- <- <-. exists out1. split; [done|].
      intros id raw Hin. replace (hist ++ e :: es) with ((hist ++ [e]) ++ es) by (by rewrite <-app_assoc).
      apply quorum_app. by eapply Hq.
    + destruct (IH (set_state sm (Consensus s')) s' (hist ++ [e]) _ _ _ _ eq_refl Hi' Htwo) as (out2 & Ho2 & Hq2).
      exists (out1 ++ out2). rewrite Ho2, Ho1, <-app_assoc. split; [done|].
      intros id raw. rewrite submits_app, elem_of_app.
      replace (hist ++ e :: es) with ((hist ++ [e]) ++ es) by (by rewrite <-app_assoc).
      intros [Hin|Hin]; [apply quorum_app; by eapply Hq|by eapply Hq2].
Qed.
End agreement.

(** ** Requests to one node *)
Section single.
Context `{Machine} `{Sha256} `{JsonText} `{PoolCodecs} `{Base58} `{HashOrder} `{Bls}
  `{ResponseCodec} `{!StateProofService}.

(** A set of answers that nodes gave in the events, all with the same agreed part. *)
Definition answers_in (es : list RequestEvent) (v : SJsonValue) (m : gmap string NodeResponse) : Prop :=
  forall a resp, m !! a = Some resp ->
    agreed_part (nr_raw_msg resp) = Some v /\
    exists e, e ∈ es /\ answer_of e = Some (nr_raw_msg resp, a).

(** [raw] is the most recently signed of more than [k] answers that agree. *)
Definition latest_of_quorum (k : N) (es : list RequestEvent) (raw : string) : Prop :=
  exists v m, answers_in es v m /\ (k < N.of_nat (size m))%N /\
    exists a resp, m !! a = Some resp /\ nr_raw_msg resp = raw /\
      forall a' resp', m !! a' = Some resp' -> (timestamp resp' <= timestamp resp)%N.

(** [raw] is an answer with a state proof that was accepted and is recent enough. *)
Definition proved_and_fresh (sm : RequestSM) (w : World) (es : list RequestEvent) (raw : string) : Prop :=
  exists e a r v time limit, e ∈ es /\ answer_of e = Some (raw, a) /\
    _get_msg_result_without_state_proof raw = Ok (r, v) /\
    _check_state_proof (protocol_version w) r (f sm) (generator sm) (nodes sm) raw = Ok true /\
    get_last_signed_time raw = Ok time /\
    u64_add (freshness_threshold w) (default 0%N time) = Ok limit /\ (cur_time w <= limit)%N.

Definition acceptable (sm : RequestSM) (w : World) (es : list RequestEvent) (raw : string) : Prop :=
  latest_of_quorum (f sm) es raw \/ proved_and_fresh sm w es raw.

Definition single_inv (hist : list RequestEvent) (s : SingleState) : Prop :=
  forall v m, s_replies s !! v = Some m -> answers_in hist v m.

Lemma answers_in_app es es' v m : answers_in es v m -> answers_in (es ++ es') v m.
Proof.
  intros Hm a resp Ha. destruct (Hm a resp Ha) as [Hv (e & He & Hans)]. split; [done|].
  exists e. split; [|done]. apply elem_of_app. by left.
Qed.

Lemma acceptable_app sm w es es' raw : acceptable sm w es raw -> acceptable sm w (es ++ es') raw.
Proof.
  intros [(v & m & Hm & Hrest)|(e & a & r & v & time & limit & He & Hrest)].
  - left. exists v, m. split; [by apply answers_in_app|done].
  - right. exists e, a, r, v, time, limit. split; [|done]. apply elem_of_app. by left.
Qed.

Lemma single_inv_mono hist es s : single_inv hist s -> single_inv (hist ++ es) s.
Proof. intros Hi v m Hm. apply answers_in_app. by apply Hi. Qed.

Lemma single_inv_add hist e raw a v t s denied timeouts :
  single_inv hist s -> answer_of e = Some (raw, a) -> agreed_part raw = Some v ->
  single_inv (hist ++ [e]) (mk_single denied (add_response v (mk_node_response raw a t) (s_replies s)) timeouts).
Proof.
  intros Hi Ha Hv v' m. cbn. unfold add_response. cbn [nr_node_alias].
  assert (answers_in (hist ++ [e]) v (default ∅ (s_replies s !! v))) as Hold.
  { destruct (s_replies s !! v) as [m'|] eqn:Hm'; cbn; [|done]. apply answers_in_app. by apply Hi. }
  intros [[<- <-]|[_ Hm]]%lookup_insert_Some; [|apply answers_in_app; by apply Hi].
  destruct (default ∅ (s_replies s !! v) !! a) as [old|] eqn:Hold'; [done|].
  intros a' resp [[<- <-]|[_ Hr]]%lookup_insert_Some; [|by apply Hold].
  cbn. split; [done|]. exists e. split; [|done]. apply elem_of_app. right. left.
Qed.

(** What a step of the machine sends and leaves behind. *)
Definition single_step (sm : RequestSM) (w : World) (hist : list RequestEvent)
    (p : RequestState * option PoolEvent) (es : list Effect) : Prop :=
  (p.1 = Finish \/ exists s, p.1 = Single s /\ single_inv hist s) /\
  forall id raw, (id, inr raw) ∈ submits es -> acceptable sm w hist raw.

Lemma try_to_continue_step sm s w hist r a :
  single_inv hist s -> outputs (try_to_continue sm s r a) (single_step sm w hist).
Proof.
  intros Hi. unfold try_to_continue. case_match.
  - do 3 (outputs_step outputs_net; subst). apply outputs_ret. split; [right; by exists s|].
    by intros i raw' Hin%not_elem_of_nil.
  - outputs_step outputs_send_replies; subst. outputs_step outputs_net; subst. apply outputs_ret.
    split; [by left|]. by intros i raw' Hin%replied_in.
Qed.

(** [m] as [outputs] from one world. *)
Definition outputs_at {A} (w : World) (m : M A) (Q : A -> list Effect -> Prop) : Prop :=
  match m w with
  | (Ok a, w') => exists es, world_step w w' es /\ Q a es
  | _ => True
  end.

Lemma proof_is_fresh_true sm r raw t w w' : proof_is_fresh sm r raw t w = (Ok true, w') ->
  w' = w /\ _check_state_proof (protocol_version w) r (f sm) (generator sm) (nodes sm) raw = Ok true /\
  exists limit, u64_add (freshness_threshold w) t = Ok limit /\ (cur_time w <= limit)%N.
Proof.
  unfold proof_is_fresh. rewrite bind_run. unfold gets at 1, id. rewrite bind_run. unfold lift.
  destruct (_check_state_proof _ _ _ _ _ _) as [[]|e| |]; try done.
  unfold is_fresh. rewrite bind_run. unfold gets at 1. rewrite bind_run. unfold gets at 1. rewrite bind_run.
  unfold lift. destruct (u64_add _ _) as [limit|e| |]; try done. intros [= Hle <-].
  split_and!; [done..|]. exists limit. split; [done|]. by apply N.leb_le.
Qed.

Lemma single_reply_step sm s hist e raw a id w :
  single_inv hist s -> answer_of e = Some (raw, a) ->
  outputs_at w (single_reply sm s raw a id) (single_step sm w (hist ++ [e])).
Proof.
  intros Hi Ha. unfold outputs_at, single_reply.
  destruct (_get_msg_result_without_state_proof raw) as [[r v]|e'| |] eqn:Hm;
    try (apply (try_to_continue_step sm _ w); by apply single_inv_mono).
  assert (agreed_part raw = Some v) as Hv by (unfold agreed_part; by rewrite Hm).
  rewrite bind_run. unfold lift at 1. destruct (get_last_signed_time raw) as [time|e'| |] eqn:Ht; try done.
  cbv zeta. set (t := default 0%N time). set (resp := mk_node_response raw a t).
  set (replies := add_response v resp (s_replies s)). set (set_ := default ∅ (replies !! v)).
  pose proof (single_inv_add hist e raw a v t s (s_denied_nodes s) (s_timeout_nodes s ∖ {[a]}) Hi Ha Hv) as Hinv.
  fold resp replies in Hinv.
  destruct (N.ltb_spec (f sm) (N.of_nat (size set_))) as [Hlt|Hge].
  - rewrite bind_run. cbn [mret StateM_ret]. eapply (outputs_bind (net _)); [apply outputs_net|]. cbn beta. intros _ ? ->.
    eapply outputs_bind; [apply outputs_send_replies|]. intros _ ? ->. apply outputs_ret.
    split; [by left|]. intros i raw' Hin. cbn [app] in Hin. apply (replied_in _ _ [] i) in Hin; [|done].
    injection Hin as ->. left. unfold set_ in *. destruct (replies !! v) as [m|] eqn:Hr; cbn in *; [|rewrite map_size_empty in Hlt; lia].
    exists v, m. split_and!; [by apply Hinv|done|].
    pose proof (max_by_key_spec (fun kv : string * NodeResponse => timestamp kv.2) (hash_iter m)) as Hmax.
    destruct (max_by_key _ _) as [[b respb]|].
    + destruct Hmax as [Hb%elem_of_hash_iter Hmax]. exists b, respb. split_and!; [done..|].
      intros a' resp' Hr'. by apply (Hmax (a', resp')), elem_of_hash_iter.
    + apply (f_equal length) in Hmax. rewrite (Permutation_length (hash_iter_perm m)), length_map_to_list in Hmax.
      cbn in Hmax. lia.
  - rewrite bind_run. pose proof (quiet_proof_is_fresh sm r raw t w) as Hq.
    destruct (proof_is_fresh sm r raw t w) as [[[]|e'| |] w1] eqn:Hf; try done; cbn [snd] in Hq.
    + apply proof_is_fresh_true in Hf as (-> & Hc & limit & Hl & Hle).
      eapply (outputs_bind (net _)); [apply outputs_net|]. cbn beta. intros _ ? ->.
      eapply outputs_bind; [apply outputs_send_replies|]. intros _ ? ->. apply outputs_ret.
      split; [by left|]. intros i raw' Hin. cbn [app] in Hin. apply (replied_in _ _ [] i) in Hin; [|done].
      injection Hin as ->. right. exists e, a, r, v, time, limit. split_and!; try done.
      apply elem_of_app. right. left.
    + pose proof (try_to_continue_step sm _ w (hist ++ [e]) id a Hinv w1) as Hs.
      destruct (try_to_continue _ _ _ _ w1) as [[p|e'| |] w2]; try done.
      destruct Hs as (es & Hs & HQ). exists es. split; [|done]. by apply (world_step_trans _ _ _ _ _ Hq Hs).
Qed.

Lemma handle_single_step sm s hist e w :
  single_inv hist s -> outputs_at w (handle_single sm s e) (single_step sm w (hist ++ [e])).
Proof.
  intros Hi. pose proof (single_inv_mono _ [e] _ Hi) as Hi'.
  assert (outputs_at w (mret (Single s, None) : M (RequestState * option PoolEvent))
    (single_step sm w (hist ++ [e]))) as Hstay.
  { apply outputs_ret. split; [right; by exists s|]. by intros i raw Hin%not_elem_of_nil. }
  destruct e; cbn [handle_single]; try exact Hstay; try (by apply single_reply_step).
  - by apply (try_to_continue_step sm _ w).
  - eapply (outputs_bind (net _)); [apply outputs_net|]. cbn beta. intros _ ? ->. apply outputs_ret.
    split; [right; by exists s|]. by intros i raw' Hin%not_elem_of_nil.
  - eapply (outputs_bind (_finish_request _)); [apply outputs_send_replies|]. cbn beta. intros _ ? ->.
    apply outputs_ret. split; [by left|]. by intros i raw' Hin%replied_in.
Qed.

Lemma acceptable_step sm w w1 out es raw : world_step w w1 out -> acceptable sm w1 es raw -> acceptable sm w es raw.
Proof.
  intros (_ & _ & Hpv & Ht & Hf & _) [Hq|Hp]; [by left|right].
  unfold proved_and_fresh in *. by rewrite Hpv, Ht, Hf in Hp.
Qed.

Lemma run_single sm es : forall s hist w sm' evs w',
  state sm = Single s -> single_inv hist s -> run sm es w = (Ok (sm', evs), w') ->
  exists out, effects w' = effects w ++ out /\
    forall id raw, (id, inr raw) ∈ submits out -> acceptable sm w (hist ++ es) raw.
Proof.
  revert sm. induction es as [|e es IH]; intros sm s hist w sm' evs w' Hs Hi.
  - intros [= <- <- <-]. exists []. rewrite app_nil_r. split; [done|]. by intros ?? Hin%not_elem_of_nil.
  - cbn [run]. intros ([sm1 ev] & w1 & Hone & ([sm2 evs2] & w2 & Htwo & [= <- <- <-])%M_bind_Ok)%M_bind_Ok.
    apply M_bind_Ok in Hone as ([s1 ev'] & w1' & Hd & [= <- <- <-]).
    unfold dispatch in Hd. rewrite Hs in Hd.
    pose proof (handle_single_step sm s hist e w Hi) as Hstep. unfold outputs_at in Hstep. rewrite Hd in Hstep.
    destruct Hstep as (out1 & Hw1 & Hst & Hq).
    replace (hist ++ e :: es) with ((hist ++ [e]) ++ es) by (by rewrite <-app_assoc).
    pose proof Hw1 as (Ho1 & _). cbn [fst snd] in *. destruct Hst as [->|(s' & -> & Hi')].
    + rewrite run_finished in Htwo by done. injection Htwo as <- <- <-. exists out1. split; [done|].
      intros id raw Hin. apply acceptable_app. by eapply Hq.
    + destruct (IH (set_state sm (Single s')) s' (hist ++ [e]) _ _ _ _ eq_refl Hi' Htwo) as (out2 & Ho2 & Hq2).
      exists (out1 ++ out2). rewrite Ho2, Ho1, <-app_assoc. split; [done|].
      intros id raw. rewrite submits_app, elem_of_app.
      intros [Hin|Hin]; [apply acceptable_app; by eapply Hq|].
      eapply (acceptable_step sm _ w1'); [done|]. apply (Hq2 id raw Hin).
Qed.
End single.

(** ** The arithmetic of consensus requests *)
Section arithmetic.
Context `{Machine} `{Sha256} `{JsonText} `{PoolCodecs} `{Base58} `{HashOrder} `{Bls}
  `{ResponseCodec} `{!StateProofService}.

Lemma sum_sizes_perm l k : l ≡ₚ k -> sum_sizes l = sum_sizes k.
Proof. unfold sum_sizes. induction 1; cbn; lia. Qed.

Lemma max_size_perm l k : l ≡ₚ k -> max_size l = max_size k.
Proof. unfold max_size. induction 1; cbn; lia. Qed.

Lemma sum_sizes_cons x l : sum_sizes (x :: l) = (x + sum_sizes l)%N.
Proof. done. Qed.

Lemma max_size_cons x l : max_size (x :: l) = N.max x (max_size l).
Proof. done. Qed.

Definition sizes_of (m : gmap SJsonValue (gset string)) : list N :=
  (fun kv => N.of_nat (size kv.2)) <$> map_to_list m.

(** The sizes before and after a vote. *)
Lemma sizes_add_vote v a (m : gmap SJsonValue (gset string)) :
  exists l old new, (sum_sizes (sizes_of m) = old + sum_sizes l)%N /\
    (sum_sizes (sizes_of (add_vote v a m)) = new + sum_sizes l)%N /\
    max_size (sizes_of m) = N.max old (max_size l) /\
    max_size (sizes_of (add_vote v a m)) = N.max new (max_size l) /\ (old <= new <= old + 1)%N.
Proof.
  set (S := default ∅ (m !! v)). set (S' := {[a]} ∪ S).
  exists (sizes_of (delete v m)), (N.of_nat (size S)), (N.of_nat (size S')).
  assert (sizes_of (add_vote v a m) ≡ₚ N.of_nat (size S') :: sizes_of (delete v m)) as Hnew.
  { unfold add_vote. fold S S'. unfold sizes_of. rewrite <-insert_delete_eq.
    rewrite map_to_list_insert by apply lookup_delete_eq. done. }
  assert (sizes_of m ≡ₚ N.of_nat (size S) :: sizes_of (delete v m) \/
    m !! v = None /\ sizes_of m = sizes_of (delete v m)) as Hold.
  { destruct (m !! v) as [S0|] eqn:Hm; [left|right].
    - unfold sizes_of. rewrite <-(insert_delete_id m v S0 Hm) at 1.
      rewrite map_to_list_insert by apply lookup_delete_eq. unfold S. done.
    - by rewrite delete_id. }
  assert (size S <= size S' <= size S + 1) as Hsize.
  { unfold S'. destruct (decide (a ∈ S)) as [Ha|Ha].
    - replace ({[a]} ∪ S) with S by set_solver. lia.
    - rewrite size_union by set_solver. rewrite size_singleton. lia. }
  rewrite (sum_sizes_perm _ _ Hnew), (max_size_perm _ _ Hnew), sum_sizes_cons, max_size_cons.
  destruct Hold as [Hold|[Hm He]].
  - rewrite (sum_sizes_perm _ _ Hold), (max_size_perm _ _ Hold), sum_sizes_cons, max_size_cons.
    split_and!; try done; lia.
  - assert (size S = 0) as HS by (unfold S; rewrite Hm; apply size_empty).
    rewrite He. split_and!; try done; lia.
Qed.

(** The votes that can still come leave a majority above [f]. *)
Definition reachable_inv (fl n : N) (steps : nat) (s : ConsensusState) : Prop :=
  c_denied_nodes s = ∅ /\
  (sum_sizes (consensus_sizes s) + N.of_nat (size (c_timeout_nodes s)) + fl <
    max_size (consensus_sizes s) + n)%N /\
  (max_size (consensus_sizes s) <= N.of_nat steps)%N.

Lemma reachable_new fl n : (fl < n)%N -> reachable_inv fl n 0 new_consensus.
Proof.
  intros Hf. assert (consensus_sizes new_consensus = []) as He by (unfold consensus_sizes; cbn; by rewrite map_to_list_empty).
  unfold reachable_inv. rewrite He. cbn [c_denied_nodes c_timeout_nodes new_consensus]. rewrite size_empty. cbn.
  split_and!; [done|lia|done].
Qed.

(** The check of a state that is at most one vote away from one with the invariant. *)
Lemma consensus_reachable_ok fl n s steps :
  c_denied_nodes s = ∅ ->
  (sum_sizes (consensus_sizes s) + N.of_nat (size (c_timeout_nodes s)) <= max_size (consensus_sizes s) + n)%N ->
  (max_size (consensus_sizes s) <= N.of_nat steps)%N -> (N.of_nat steps + n < usize_modulus)%N ->
  exists b, consensus_reachable s fl n = Ok b /\ (b = true -> reachable_inv fl n steps s).
Proof.
  intros Hd Hle Hmax Hn. unfold consensus_reachable. rewrite Hd, size_empty.
  rewrite usize_add_ok by lia. cbn [mbind outcome_bind]. rewrite usize_sub_ok by lia. cbn [mbind outcome_bind].
  rewrite usize_sub_ok by lia. cbn [mbind outcome_bind]. rewrite usize_sub_ok by lia. cbn [mbind outcome_bind].
  eexists. split; [done|]. intros Hlt%N.ltb_lt. unfold reachable_inv. split_and!; [done|lia|done].
Qed.

Lemma finish_run {A} ids r e (p : A) w : exists w',
  (_ ← _send_replies ids r; _ ← net e; mret p) w = (Ok p, w').
Proof.
  rewrite bind_run. unfold _send_replies, send. rewrite (forM_emit (fun id => Sent (SubmitAck id r))). by eexists.
Qed.

(** A step from a state with the invariant returns, and keeps it. *)
Lemma handle_consensus_total sm s e steps w :
  reachable_inv (f sm) (nodes_cnt sm) steps s -> (N.of_nat (S steps) + nodes_cnt sm < usize_modulus)%N ->
  (forall raw a, answer_of e = Some (raw, a) -> is_Some (agreed_part raw)) ->
  exists p w', handle_consensus sm s e w = (Ok p, w') /\
    (p.1 = Finish \/ exists s', p.1 = Consensus s' /\ reachable_inv (f sm) (nodes_cnt sm) (S steps) s').
Proof.
  intros Hi Hn Hans. assert (reachable_inv (f sm) (nodes_cnt sm) (S steps) s) as Hi'.
  { destruct Hi as (Hd & Hlt & Hmax). unfold reachable_inv. split_and!; [done..|lia]. }
  assert (forall raw a id, answer_of e = Some (raw, a) -> exists p w', consensus_reply sm s raw a id w = (Ok p, w') /\
    (p.1 = Finish \/ exists s', p.1 = Consensus s' /\ reachable_inv (f sm) (nodes_cnt sm) (S steps) s')) as Hreply.
  { intros raw a id Ha. destruct (Hans _ _ Ha) as [v Hv]. unfold consensus_reply, agreed_part in *.
    destruct (_get_msg_result_without_state_proof raw) as [[r v']| | |]; try done. clear Hv. cbv zeta.
    case_match.
    { destruct (finish_run (cmd_ids sm) (inr raw) (CleanTimeout id None) (Finish, None : option PoolEvent) w) as [w' Hw].
      eexists _, w'. split; [exact Hw|by left]. }
    set (s' := mk_consensus _ _ _).
    destruct (consensus_reachable_ok (f sm) (nodes_cnt sm) s' (S steps)) as (b & -> & Hb).
    - apply Hi.
    - destruct Hi as (_ & Hlt & _). destruct (sizes_add_vote v' a (c_replies s)) as (l & o & nw & H1' & H2' & H3' & H4' & H5').
      unfold s', consensus_sizes in *. cbn. fold (sizes_of (c_replies s)) in Hlt.
      fold (sizes_of (add_vote v' a (c_replies s))). lia.
    - destruct Hi as (_ & _ & Hmax). destruct (sizes_add_vote v' a (c_replies s)) as (l & o & nw & H1' & H2' & H3' & H4' & H5').
      unfold s', consensus_sizes in *. cbn. fold (sizes_of (c_replies s)) in Hmax.
      fold (sizes_of (add_vote v' a (c_replies s))). lia.
    - done.
    - rewrite bind_run. cbn [lift]. destruct b.
      + eexists _, _. split; [reflexivity|]. right. eexists. split; [done|]. by apply Hb.
      + destruct (finish_run (cmd_ids sm) (inl PoolTimeout) (CleanTimeout id None) (Finish, None : option PoolEvent) w) as [w' Hw].
        eexists _, w'. split; [exact Hw|by left]. }
  destruct e; cbn [handle_consensus]; try (by eapply Hreply); try (eexists _, _; split; [reflexivity|right; by exists s]).
  - unfold consensus_timeout. cbv zeta. set (s' := mk_consensus _ _ _).
    destruct (consensus_reachable_ok (f sm) (nodes_cnt sm) s' (S steps)) as (b & -> & Hb).
    + apply Hi.
    + destruct Hi as (_ & Hlt & _). unfold s', consensus_sizes in *. cbn.
      assert (size ({[node_alias]} ∪ c_timeout_nodes s) <= size (c_timeout_nodes s) + 1).
      { destruct (decide (node_alias ∈ c_timeout_nodes s)).
        - replace ({[node_alias]} ∪ c_timeout_nodes s) with (c_timeout_nodes s) by set_solver. lia.
        - rewrite size_union by set_solver. rewrite size_singleton. lia. }
      lia.
    + destruct Hi' as (_ & _ & Hmax). exact Hmax.
    + done.
    + rewrite bind_run. cbn [lift]. destruct b.
      * eexists _, _. split; [reflexivity|]. right. eexists. split; [done|]. by apply Hb.
      * destruct (finish_run (cmd_ids sm) (inl PoolTimeout) (CleanTimeout req_id None) (Finish, None : option PoolEvent) w) as [w' Hw].
        eexists _, w'. split; [exact Hw|by left].
  - rewrite bind_run. unfold _finish_request, _send_replies, send.
    rewrite (forM_emit (fun id => Sent (SubmitAck id (inl PoolTerminated)))).
    eexists _, _. split; [reflexivity|by left].
Qed.

Lemma run_consensus_total sm es : forall s steps w,
  state sm = Consensus s -> reachable_inv (f sm) (nodes_cnt sm) steps s ->
  (N.of_nat (steps + length es) + nodes_cnt sm < usize_modulus)%N ->
  (forall e raw a, e ∈ es -> answer_of e = Some (raw, a) -> is_Some (agreed_part raw)) ->
  exists p w', run sm es w = (Ok p, w').
Proof.
  revert sm. induction es as [|e es IH]; intros sm s steps w Hs Hi Hn Hans; [by eexists _, _|].
  cbn [run length] in *. destruct (handle_consensus_total sm s e steps w Hi) as ([s1 ev] & w1 & Hh & Hst).
  { lia. }
  { intros raw a. apply Hans. left. }
  rewrite bind_run. unfold handle_event. rewrite bind_run. unfold dispatch. rewrite Hs, Hh. cbn [mret StateM_ret].
  destruct Hst as [He|(s' & He & Hi')]; cbn [fst] in He; subst s1.
  - rewrite bind_run, run_finished by done. by eexists _, _.
  - destruct (IH (set_state sm (Consensus s')) s' (S steps) w1 eq_refl Hi') as ([sm2 evs] & w2 & Hr).
    { cbn [nodes_cnt set_state nodes]. unfold nodes_cnt in *. cbn. lia. }
    { intros e' raw a He'. apply Hans. by right. }
    rewrite bind_run, Hr. by eexists _, _.
Qed.
End arithmetic.

(** ** Properties *)
Section properties.
Context `{Machine} `{Sha256} `{JsonText} `{PoolCodecs} `{Base58} `{HashOrder} `{Bls}
  `{ResponseCodec} `{!StateProofService}.

(** C37: every command is answered at most once, and together with the others.  Whatever
    events a new request handler receives, it has answered nothing while it is not
    terminal; when it is, either every command that waits has got exactly one answer, the
    same for all, or (catchups) none has and the pool has been told an event. *)
Theorem request_answered_once (fl : N) (ids : list Z) (ns : gmap string (option VerKey)) (g : option Generator)
    (t et : Z) (es : list RequestEvent) (w w' : World) (sm' : RequestSM) (evs : list PoolEvent) :
  run (request_new fl ids ns g t et) es w = (Ok (sm', evs), w') ->
  exists out, effects w' = effects w ++ out /\
    if is_terminal sm' then
      (exists r, submits out = (fun id => (id, r)) <$> ids) \/ (submits out = [] /\ evs <> [])
    else submits out = [].
Proof.
  intros Hr. destruct (run_answers (request_new fl ids ns g t et) es w sm' evs w' eq_refl Hr) as (out & Ho & _ & Ha). by exists out.
Qed.

(** C22: agreement.  The answer that a consensus request passes on to its commands was
    given, up to the state proof, by more than [f] distinct nodes: with at most [f] faulty
    nodes, by an honest one. *)
Theorem consensus_agreement (fl : N) (ids : list Z) (ns : gmap string (option VerKey)) (g : option Generator)
    (t et : Z) (msg req_id : string) (es : list RequestEvent) (w w' : World) (sm' : RequestSM) (evs : list PoolEvent) :
  run (request_new fl ids ns g t et) (CustomConsensusRequest msg req_id :: es) w = (Ok (sm', evs), w') ->
  exists out, effects w' = effects w ++ out /\
    forall id raw, (id, inr raw) ∈ submits out -> quorum fl es raw.
Proof.
  cbn [run]. intros ([sm1 ev] & w1 & Hone & ([sm2 evs2] & w2 & Htwo & [= <- <- <-])%M_bind_Ok)%M_bind_Ok.
  injection Hone as <- <- <-.
  assert (consensus_inv [] new_consensus) as Hi by done.
  destruct (run_consensus (set_state (request_new fl ids ns g t et) (Consensus new_consensus)) es new_consensus []
    _ _ _ _ eq_refl Hi Htwo) as (out & Ho & Hq).
  eexists (_ :: out). rewrite Ho. cbn. rewrite <-app_assoc. split; [done|]. intros id raw. cbn. apply Hq.
Qed.


(** the arithmetic of consensus requests stays within bounds.  Whatever answers,
    acknowledgements and timeouts a consensus request receives, in any order, the
    subtractions that decide whether a consensus can still be reached do not go below
    zero, in either build: the machine returns from every event, provided that the answers
    are JSON texts (which the event itself was parsed from). *)
Theorem consensus_request_total (fl : N) (ids : list Z) (ns : gmap string (option VerKey)) (g : option Generator)
    (t et : Z) (msg req_id : string) (es : list RequestEvent) (w : World) :
  (fl < N.of_nat (size ns))%N -> (N.of_nat (length es) + N.of_nat (size ns) < usize_modulus)%N ->
  (forall e raw a, e ∈ es -> answer_of e = Some (raw, a) -> is_Some (agreed_part raw)) ->
  exists sm' evs w', run (request_new fl ids ns g t et) (CustomConsensusRequest msg req_id :: es) w = (Ok (sm', evs), w').
Proof.
  intros Hf Hn Hans. cbn [run]. rewrite bind_run.
  destruct (run_consensus_total (set_state (request_new fl ids ns g t et) (Consensus new_consensus)) es new_consensus 0
    (set_effects (effects w ++ [Net (SendAllRequest msg req_id t None)]) w)) as ([sm' evs] & w' & Hr); [done| |done|done|].
  { by apply reachable_new. }
  assert (handle_event (request_new fl ids ns g t et) (CustomConsensusRequest msg req_id) w =
    (Ok (set_state (request_new fl ids ns g t et) (Consensus new_consensus), None),
     set_effects (effects w ++ [Net (SendAllRequest msg req_id t None)]) w)) as -> by done.
  rewrite bind_run, Hr. by eexists _, _, _.
Qed.
End properties.

(** ** Witnesses *)

#[local] Existing Instances ToySha.sha ToySha.sha_length ToyPool.machine ToyPool.order
  ToyPool.base58 ToyPool.json_text ToyPool.codecs ToyPool.bls ToyRlp.rlp ToyProofs.libs ToyResponse.codec.

Definition four_nodes : gmap string (option VerKey) :=
  list_to_map [("a"%string, None); ("b"%string, None); ("c"%string, None); ("d"%string, None)].

Definition reply_of (node : string) (raw : string) : RequestEvent :=
  REReply (PoolTypes.ReplyV0 (mk_response_metadata 1)) raw node "1".

(** Node a says x, b is silent, c says y and d says x as well; then c says y again. *)
Definition sample_events : list RequestEvent :=
  [reply_of "a" "x"; RETimeout "1" "b"; reply_of "c" "y"; reply_of "d" "x"; reply_of "c" "y"].

Definition quiet_world : World := sample_world None None [].

Definition sample_request : RequestSM := request_new 1 [7; 8]%Z four_nodes None 20 60.

Definition sample_run (start : RequestEvent) : IndyResult (RequestSM * list PoolEvent) * World :=
  run sample_request (start :: sample_events) quiet_world.

(** The runs of the witnesses end, and answer both commands. *)
Definition run_ok (r : IndyResult (RequestSM * list PoolEvent) * World) : bool :=
  match r.1 with
  | Ok (sm, _) => is_terminal sm && bool_decide (submits (effects r.2) = [(7%Z, inr "x"%string); (8%Z, inr "x"%string)])
  | _ => false
  end.

Lemma run_ok_spec r : run_ok r = true -> exists sm evs w, r = (Ok (sm, evs), w) /\ is_terminal sm = true.
Proof.
  destruct r as [[[sm evs]| | |] w]; cbn; try done. unfold run_ok. cbn. intros [Ht _]%andb_prop.
  by exists sm, evs, w.
Qed.

Lemma request_answered_once_witness :
  let r := sample_run (CustomConsensusRequest "m" "1") in
  run_ok r = true /\ exists out, effects r.2 = [] ++ out /\
    ((exists a, submits out = (fun id => (id, a)) <$> [7; 8]%Z) \/ submits out = [] /\ exists sm ev evs, r.1 = Ok (sm, ev :: evs)).
Proof.
  cbv zeta. assert (run_ok (sample_run (CustomConsensusRequest "m" "1")) = true) as Hok by (vm_compute; reflexivity).
  split; [exact Hok|]. destruct (run_ok_spec _ Hok) as (sm & evs & w & Hr & Ht). rewrite Hr.
  pose proof (request_answered_once 1 [7; 8]%Z four_nodes None 20 60 _ quiet_world w sm evs Hr) as (out & Ho & Hout).
  rewrite Ht in Hout. exists out. split; [exact Ho|]. destruct Hout as [Hout|[Hout Hev]]; [left; exact Hout|right].
  split; [exact Hout|]. destruct evs as [|ev evs]; [contradiction Hev; reflexivity|]. exists sm, ev, evs. reflexivity.
Defined.

Lemma consensus_agreement_witness :
  let r := sample_run (CustomConsensusRequest "m" "1") in
  run_ok r = true /\ exists out, effects r.2 = [] ++ out /\
    forall id raw, (id, inr raw) ∈ submits out -> quorum 1 sample_events raw.
Proof.
  cbv zeta. assert (run_ok (sample_run (CustomConsensusRequest "m" "1")) = true) as Hok by (vm_compute; reflexivity).
  split; [exact Hok|]. destruct (run_ok_spec _ Hok) as (sm & evs & w & Hr & Ht). rewrite Hr.
  exact (consensus_agreement 1 [7; 8]%Z four_nodes None 20 60 "m" "1" sample_events quiet_world w sm evs Hr).
Defined.


Lemma consensus_request_total_witness :
  exists sm' evs w', run sample_request (CustomConsensusRequest "m" "1" :: sample_events) quiet_world = (Ok (sm', evs), w').
Proof.
  refine (consensus_request_total 1 [7; 8]%Z four_nodes None 20 60 "m" "1" sample_events quiet_world _ _ _).
  - vm_compute. reflexivity.
  - vm_compute. reflexivity.
  - intros e raw a _ _. unfold agreed_part. cbn. eexists. reflexivity.
Defined.
