(* ===== verification/CatchupReply.v ===== *)
(** * CatchupReply: what a catchup reply does to the ledger

    Theorems about [take_txns], [_process_catchup_reply] and [handle_catchup_single] of
    [RequestHandler.v]: which transactions of a reply are taken, in which order, what is
    then known about the extended tree, and which replies make the thread unwind. *)

From Stdlib Require Import Sorted.
From S2P Require Import Prelude Errors Json Hashing MerkleTree MerkleProof Consistency PoolTypes World MerkleFactory Catchup Response Trie StateProof RequestHandler RequestFacts.
Import MerkleTree.MerkleTree.

(** ** The least number of a reply *)
Section min_tx.
Context `{Machine} `{HashOrder}.

(** [m] is the least of [acc] and of the numbers of [l]. *)
Definition least (acc : option N) (l : list (string * SJsonValue)) (r : option N) : Prop :=
  match r with
  | None => acc = None /\ l = []
  | Some m =>
      (acc = Some m \/ exists kv, kv ∈ l /\ parse_usize kv.1 = Some m) /\
      (forall a, acc = Some a -> (m <= a)%N) /\
      forall kv, kv ∈ l -> exists n, parse_usize kv.1 = Some n /\ (m <= n)%N
  end.

Lemma min_fold_spec l : forall acc r, foldM min_step l acc = Ok r -> least acc l r.
Proof.
  induction l as [|[k v] l IH]; intros acc r; cbn [foldM].
  - intros [= <-]. destruct acc as [a|]; cbn; [|done]. split_and!; [by left|by intros ? [= ->]|].
    by intros ? ?%not_elem_of_nil.
  - intros (acc' & (n & Hn%ok_or_Ok & [= <-])%bind_Ok & Hr)%bind_Ok. apply IH in Hr.
    destruct r as [m|]; cbn in *; [|destruct acc as [a|]; [case_match|]; by destruct Hr].
    destruct Hr as (Hm & Hle & Hall).
    assert (forall kv, kv ∈ (k, v) :: l -> (m <= n)%N -> exists n, parse_usize kv.1 = Some n /\ (m <= n)%N) as Hin.
    { intros kv [->|Hkv]%elem_of_cons Hmn; [by exists n|by apply Hall]. }
    assert (m <= n)%N as Hmn.
    { destruct acc as [a|]; [destruct (N.ltb_spec n a)|]; [apply Hle; done| |apply Hle; done].
      specialize (Hle a eq_refl). lia. }
    split_and!; [|intros a ->; destruct (N.ltb_spec n a); [lia|by apply Hle]|intros kv Hkv; by apply Hin].
    destruct Hm as [Hm|(kv & Hkv & Hp)]; [|right; exists kv; split; [by right|done]].
    destruct acc as [a|]; [destruct (N.ltb_spec n a)|]; injection Hm as ->;
      [right|by left|right]; exists (k, v); (split; [by left|done]).
Qed.

Lemma min_fold_total l acc : (forall kv, kv ∈ l -> is_Some (parse_usize kv.1)) ->
  exists r, foldM min_step l acc = Ok r.
Proof.
  revert acc. induction l as [|kv l IH]; intros acc Hp; [by eexists|].
  destruct (Hp kv ltac:(left)) as [n Hn]. cbn [foldM].
  assert (forall min, exists r, min_step min kv = Ok r) as Hstep by (intros min; unfold min_step; rewrite Hn; by eexists).
  destruct (Hstep acc) as [r ->]. apply IH. intros kv' Hin. apply Hp. by right.
Qed.

Lemma min_tx_Ok rep m : min_tx rep = Ok m ->
  (exists k v, txns rep !! k = Some v /\ parse_usize k = Some m) /\
  forall k v, txns rep !! k = Some v -> exists n, parse_usize k = Some n /\ (m <= n)%N.
Proof.
  unfold min_tx. intros (r & Hr%min_fold_spec & Hm%ok_or_Ok)%bind_Ok. subst r.
  destruct Hr as ([|([k v] & Hin & Hp)] & _ & Hall); [done|]. split.
  - exists k, v. by rewrite <-elem_of_hash_iter.
  - intros k' v' Hk. apply (Hall (k', v')). by rewrite elem_of_hash_iter.
Qed.

Lemma min_tx_total rep : txns rep <> ∅ ->
  (forall k v, txns rep !! k = Some v -> is_Some (parse_usize k)) -> exists m, min_tx rep = Ok m.
Proof.
  intros Hne Hp. unfold min_tx. destruct (min_fold_total (hash_iter (txns rep)) None) as [r Hr].
  { intros [k v] Hin%elem_of_hash_iter. by eapply Hp. }
  pose proof (min_fold_spec _ _ _ Hr) as Hl. rewrite Hr. destruct r as [m|]; [by exists m|].
  destruct Hl as [_ Hl]. apply map_choose in Hne as (k & v & Hk).
  apply elem_of_hash_iter in Hk. rewrite Hl in Hk. by apply not_elem_of_nil in Hk.
Qed.

Lemma parse_usize_lt key n : parse_usize key = Some n -> (n < usize_modulus)%N.
Proof. apply parse_uint_lt. unfold usize_modulus. by destruct usize_bits_cases as [->| ->]. Qed.

Lemma parse_usize_pretty n : (n < usize_modulus)%N -> parse_usize (pretty n) = Some n.
Proof. apply parse_uint_pretty. Qed.
End min_tx.

(** ** The transactions of a reply *)

(** The decimal notation [pretty] of a number: no sign, no leading zero. *)
Definition canonical `{Machine} (key : string) : Prop :=
  match parse_usize key with Some n => pretty n = key | None => False end.

#[export] Instance canonical_dec `{Machine} key : Decision (canonical key).
Proof. unfold canonical. case_match; apply _. Defined.

Section take.
Context `{Machine} `{Sha256} `{JsonText} `{PoolCodecs} `{Base58} `{HashOrder}.

(** The reply holds the transactions [new] under the numbers [keys], in ascending order. *)
Definition reply_holds (txns : gmap string SJsonValue) (keys : list N) (new : list bytes) : Prop :=
  StronglySorted N.lt keys /\ Forall (fun k => (k < usize_modulus)%N) keys /\
  (forall key, is_Some (txns !! key) <-> exists k, k ∈ keys /\ key = pretty k) /\
  Forall2 (fun k txn => exists v, txns !! pretty k = Some v /\ rmp_to_vec_named v = Some txn) keys new.

Lemma reply_holds_nil txns keys new : reply_holds txns keys new -> txns = ∅ <-> keys = [].
Proof.
  intros (_ & _ & Hd & Hf). split.
  - intros ->. destruct Hf as [|k txn keys new (v & Hv & _)]; [done|]. by rewrite lookup_empty in Hv.
  - intros ->. apply map_eq. intros key. rewrite lookup_empty. destruct (txns !! key) as [v|] eqn:Hk; [|done].
    destruct (proj1 (Hd key)) as (k & Hin & _); [by exists v|]. by apply not_elem_of_nil in Hin.
Qed.

Lemma pretty_notin k keys : StronglySorted N.lt (k :: keys) -> k ∉ keys.
Proof.
  intros [_ Hall]%StronglySorted_inv Hin. rewrite Forall_forall in Hall. specialize (Hall k Hin). lia.
Qed.

(** Taking the first transaction away. *)
Lemma reply_holds_delete txns k keys txn new :
  reply_holds txns (k :: keys) (txn :: new) -> reply_holds (delete (pretty k) txns) keys new.
Proof.
  intros (Hs & Hb & Hd & Hf). pose proof (pretty_notin k keys Hs) as Hk. inversion Hf as [|? ? ? ? _ Hf']; subst.
  split_and!; [by destruct (StronglySorted_inv Hs)|by apply Forall_cons in Hb as [_ ?]| |].
  - intros key. rewrite lookup_delete_is_Some, Hd. split.
    + intros [Hne (k' & [->|Hin]%elem_of_cons & ->)]; [done|by exists k'].
    + intros (k' & Hin & ->). split; [intros He%(inj pretty); by subst|]. exists k'. split; [by right|done].
  - eapply Forall2_impl_l; [exact Hf'|]. intros k' txn' Hin (v & Hv & Ht). exists v. split; [|done].
    rewrite lookup_delete_ne; [done|]. intros He%(inj pretty). by subst.
Qed.

(** Putting a first transaction in front. *)
Lemma reply_holds_cons txns k keys v txn new :
  txns !! pretty k = Some v -> rmp_to_vec_named v = Some txn -> (k < usize_modulus)%N ->
  (forall k', k' ∈ keys -> (k < k')%N) -> reply_holds (delete (pretty k) txns) keys new ->
  reply_holds txns (k :: keys) (txn :: new).
Proof.
  intros Hv Ht Hk Hlt (Hs & Hb & Hd & Hf). split_and!.
  - constructor; [done|]. by rewrite Forall_forall.
  - by constructor.
  - intros key. destruct (decide (key = pretty k)) as [->|Hne].
    { split; [intros _; exists k; split; [by left|done]|by exists v]. }
    specialize (Hd key). rewrite lookup_delete_ne in Hd by done. rewrite Hd. split.
    + intros (k' & Hin & ->). exists k'. split; [by right|done].
    + intros (k' & [->|Hin]%elem_of_cons & ->); [done|by exists k'].
  - constructor; [by exists v|]. eapply Forall2_impl; [exact Hf|]. intros k' txn' (v' & Hv' & Ht').
    exists v'. split; [|done]. by apply lookup_delete_Some in Hv' as [_ ?].
Qed.

(** What was taken, when the loop ends. *)
Lemma take_txns_Ok fuel : forall rep mt acc mt' acc',
  take_txns fuel rep mt acc = Ok (mt', acc') ->
  exists keys new, reply_holds (txns rep) keys new /\ acc' = acc ++ new /\ append_all mt new = Ok mt'.
Proof.
  induction fuel as [|fuel IH]; intros rep mt acc mt' acc'; cbn [take_txns]; case_decide as Hem.
  1,3: intros [= <- <-]; exists [], []; rewrite app_nil_r; split_and!; try done; rewrite Hem;
    split_and!; [constructor|constructor| |constructor]; intros key; rewrite lookup_empty; split;
    [by intros []|by intros (k & Hin%not_elem_of_nil & _)].
  { done. }
  intros (k & Hk & (v & Hv%unwrap_Ok & (txn & Ht%ok_or_Ok & (mt1 & Ha & Hr)%bind_Ok)%bind_Ok)%bind_Ok)%bind_Ok.
  apply IH in Hr as (keys & new & Hh & -> & Happ). cbn [txns] in Hh.
  exists (k :: keys), (txn :: new). rewrite <-app_assoc. split_and!; [|done|cbn; by rewrite Ha].
  apply min_tx_Ok in Hk as [(key & w & Hkey & Hpk%parse_usize_lt) Hmin].
  apply (reply_holds_cons _ k keys v); try done.
  intros k' Hin. destruct Hh as (_ & Hb & Hd & _). rewrite Forall_forall in Hb.
  destruct (proj2 (Hd (pretty k'))) as [v' Hv']; [by exists k'|].
  apply lookup_delete_Some in Hv' as [Hne Hv']. destruct (Hmin _ _ Hv') as (n & Hn & Hle).
  rewrite parse_usize_pretty in Hn by auto. injection Hn as <-.
  assert (k <> k') by (by intros ->). lia.
Qed.

Lemma min_tx_holds rep k keys new : reply_holds (txns rep) (k :: keys) new -> min_tx rep = Ok k.
Proof.
  intros (Hs & Hb & Hd & _). rewrite Forall_forall in Hb.
  assert (forall key v, txns rep !! key = Some v ->
    exists k', k' ∈ k :: keys /\ key = pretty k' /\ parse_usize key = Some k') as Hkeys.
  { intros key v Hv. destruct (proj1 (Hd key)) as (k' & Hin & ->); [by exists v|].
    exists k'. split_and!; [done..|]. apply parse_usize_pretty. by apply Hb. }
  destruct (proj2 (Hd (pretty k))) as [v Hv]; [exists k; split; [by left|done]|].
  destruct (min_tx_total rep) as [m Hm].
  { intros He. by rewrite He, lookup_empty in Hv. }
  { intros key w Hw. destruct (Hkeys key w Hw) as (k' & _ & _ & ->). by eexists. }
  rewrite Hm. pose proof (min_tx_Ok rep m Hm) as [(key & w & Hw & Hp) Hmin]. f_equal.
  destruct (Hkeys key w Hw) as (k' & Hin & -> & Hp'). simplify_eq.
  destruct (Hmin _ _ Hv) as (n & Hn & Hle). rewrite parse_usize_pretty in Hn by (apply Hb; by left).
  injection Hn as <-. apply elem_of_cons in Hin as [->|Hin]; [done|].
  apply StronglySorted_inv in Hs as [_ Hs]. rewrite Forall_forall in Hs. specialize (Hs _ Hin). lia.
Qed.

(** The loop on a reply that holds transactions under numbers takes them in order. *)
Lemma take_txns_holds keys : forall new fuel rep mt acc,
  reply_holds (txns rep) keys new -> length keys <= fuel ->
  take_txns fuel rep mt acc = (mt' ← append_all mt new; Ok (mt', acc ++ new)).
Proof.
  induction keys as [|k keys IH]; intros new fuel rep mt acc Hh Hf.
  - assert (new = []) as -> by (destruct Hh as (_ & _ & _ & Hh); by inversion Hh).
    apply (reply_holds_nil _ _ _) in Hh as He. rewrite app_nil_r.
    destruct fuel; cbn [take_txns]; by rewrite decide_True by (by apply He).
  - destruct fuel as [|fuel]; cbn in Hf; [lia|]. pose proof Hh as (_ & _ & _ & Hn).
    inversion Hn as [|? txn ? new' (v & Hv & Ht) _]; subst. cbn [take_txns].
    rewrite decide_False; [|intros He; by rewrite He, lookup_empty in Hv].
    rewrite (min_tx_holds rep k keys (txn :: new')) by done. cbn [mbind outcome_bind]. rewrite Hv.
    cbn [unwrap mbind outcome_bind]. rewrite Ht. cbn [ok_or mbind outcome_bind].
    change (append_all mt (txn :: new')) with (mt' ← append mt txn; append_all mt' new').
    destruct (append mt txn) as [mt1| | |]; cbn [mbind outcome_bind]; try done.
    rewrite (IH new'); [by rewrite <-app_assoc|by eapply reply_holds_delete|lia].
Qed.

(** As many numbers as transactions. *)
Lemma reply_holds_size txns keys new : reply_holds txns keys new -> length keys <= size txns.
Proof.
  revert txns new. induction keys as [|k keys IH]; intros txns new Hh; [cbn; lia|].
  pose proof Hh as (_ & _ & _ & Hn). inversion Hn as [|? txn ? new' (v & Hv & _) _]; subst.
  apply reply_holds_delete, IH in Hh. rewrite map_size_delete_Some in Hh by (by rewrite Hv).
  assert (size txns <> 0). { intros Hz%map_size_empty_inv. by rewrite Hz, lookup_empty in Hv. }
  cbn. lia.
Qed.

(** Every transaction of the reply can be read. *)
Definition readable (txns : gmap string SJsonValue) : Prop :=
  forall key v, txns !! key = Some v -> is_Some (parse_usize key) /\ is_Some (rmp_to_vec_named v).

(** Whether the loop unwinds: it does exactly when some number is not in the notation of
    [pretty], as ["01"] and ["+1"]. *)
Lemma take_txns_canonical fuel : forall rep l mt acc,
  openssl_total -> represents mt l -> size (txns rep) <= fuel -> readable (txns rep) ->
  if decide (map_Forall (fun key _ => canonical key) (txns rep))
  then exists r, take_txns fuel rep mt acc = Ok r else take_txns fuel rep mt acc = Panic.
Proof.
  intros rep l mt acc Ht. revert fuel rep l mt acc.
  induction fuel as [|fuel IH]; intros rep l mt acc Hmt Hsz Hr; cbn [take_txns].
  { assert (txns rep = ∅) as He by (apply map_size_empty_inv; lia). rewrite He.
    rewrite (decide_True (P := ∅ = ∅)) by done.
    rewrite decide_True by apply map_Forall_empty. by eexists. }
  destruct (decide (txns rep = ∅)) as [He|Hne].
  { rewrite He, decide_True by apply map_Forall_empty. by eexists. }
  destruct (min_tx_total rep Hne) as [k Hk]; [intros key v Hv; by apply (Hr key v)|].
  pose proof (min_tx_Ok rep k Hk) as [(key & w & Hw & Hp) _]. rewrite Hk. cbn [mbind outcome_bind].
  assert (canonical (pretty k)) as Hck.
  { unfold canonical. by rewrite parse_usize_pretty by (by eapply parse_usize_lt). }
  destruct (txns rep !! pretty k) as [v|] eqn:Hv.
  2:{ rewrite decide_False; [done|]. intros Hall. specialize (Hall key w Hw). unfold canonical in Hall.
      rewrite Hp in Hall. congruence. }
  destruct (Hr _ _ Hv) as [_ [txn Htxn]]. cbn [unwrap mbind outcome_bind]. rewrite Htxn. cbn [ok_or mbind outcome_bind].
  destruct (Hash.hashes_total _ _ Ht (append_hashes mt l txn Hmt)) as (mt1 & -> & Hmt1). cbn [mbind outcome_bind].
  set (rep' := mk_catchup_rep _ _ _). specialize (IH rep' (l ++ [txn]) mt1 (acc ++ [txn]) Hmt1).
  assert (size (txns rep') <= fuel) as Hsz'.
  { cbn. rewrite map_size_delete_Some by (by rewrite Hv). lia. }
  specialize (IH Hsz'). cbn [txns rep'] in IH.
  assert (readable (delete (pretty k) (txns rep))) as Hr'.
  { intros key' v' [_ Hv']%lookup_delete_Some. by eapply Hr. }
  specialize (IH Hr').
  assert (map_Forall (fun key _ => canonical key) (txns rep) <->
    map_Forall (fun key _ => canonical key) (delete (pretty k) (txns rep))) as Hiff.
  { split; [intros Hall; by apply map_Forall_delete|]. intros Hall key' v' Hv'.
    destruct (decide (key' = pretty k)) as [->|]; [done|]. apply (Hall key' v'). by rewrite lookup_delete_ne by done. }
  repeat case_decide; tauto.
Qed.
End take.

(** ** Replies as the handler sees them *)
Section reply.
Context `{Machine} `{Sha256} `{JsonText} `{PoolCodecs} `{Base58} `{HashOrder} `{Bls}
  `{ResponseCodec} `{!StateProofService}.

(** What an accepted reply has done. *)
Lemma process_reply_Ok rep mt root n w mt' w' :
  _process_catchup_reply rep mt root n w = (Ok mt', w') ->
  exists keys new proof, reply_holds (txns rep) keys new /\ append_all mt new = Ok mt' /\
    mapM base58_decode (consProof rep) = Ok proof /\ consistency_proof mt' root n proof = Ok true /\
    forall s, stored w = Some s -> stored w' = Some (s ++ encode_records new).
Proof.
  unfold _process_catchup_reply.
  intros ([mt1 drop] & w1 & [= Htake <-] & ([] & w2 & [= Hc <-] & ([] & w3 & Hd & [= <- <-])%M_bind_Ok)%M_bind_Ok)%M_bind_Ok.
  apply take_txns_Ok in Htake as (keys & new & Hh & -> & Ha). cbn [app] in Hd.
  apply bind_Ok in Hc as (proof & Hp & (b & Hb & Hc)%bind_Ok). destruct b; [|done].
  exists keys, new, proof. split_and!; try done. intros s Hs.
  unfold dump_new_txns in Hd. rewrite bind_run in Hd. unfold gets in Hd. rewrite Hs, bind_run in Hd. cbn in Hd.
  destruct (appends_bind _ _ _ _ appends_io_call (appends_dump new) w s Hs) as (k & Hk & _ & Hr).
  rewrite Hd in Hk, Hr. cbn in Hk, Hr. by rewrite Hk, Hr.
Qed.
End reply.

(** ** Properties *)
Section properties.
Context `{Machine} `{Sha256} `{JsonText} `{PoolCodecs} `{Base58} `{HashOrder} `{Bls}
  `{ResponseCodec} `{!StateProofService}.

(** C23: soundness of catchup.  When the answer of the one node that was asked for the
    missing transactions ends the catchup, the new tree is the old one with the
    transactions of the answer appended in the order of their numbers, the cache file has
    got exactly these transactions appended, and the tree is a prefix of the ledger whose
    root and size the nodes agreed on (if the proof consists of hashes and SHA-256 has no
    collision among the messages concerned). *)
Theorem catchup_reply_sound `{!Sha256Length} (sm : RequestSM) (s : CatchupSingleState) (l l' : list TreeLeafData)
    (rep : CatchupRep) (node : string) (w : World) (sm' : RequestSM) (ev : PoolEvent) (w' : World) :
  state sm = CatchupSingle s -> represents (cs_merkle_tree s) l ->
  target_mt_root s = mth l' -> target_mt_size s = N.of_nat (length l') ->
  handle_event sm (RECatchupRep rep node) w = (Ok (sm', Some ev), w') ->
  is_terminal sm' = true /\ exists mt keys new proof,
    ev = Synced mt /\ reply_holds (txns rep) keys new /\ represents mt (l ++ new) /\
    (forall file, stored w = Some file -> stored w' = Some (file ++ encode_records new)) /\
    mapM base58_decode (consProof rep) = Ok proof /\
    (Forall (fun p => length p = HASHBYTES) proof ->
     collision_free (tree_messages (merkle (l ++ new)) ++ tree_messages (merkle l') ++
       verifier_messages mt (N.of_nat (length l')) proof) ->
     l ++ new = take (length (l ++ new)) l').
Proof.
  intros Hs Hmt Hroot Hsize. unfold handle_event, dispatch. rewrite Hs. cbn [handle_catchup_single].
  intros ([s1 ev1] & w1 & (r & w2 & Hatt & Hrest)%M_bind_Ok & [= <- -> <-])%M_bind_Ok.
  apply attempt_Ok in Hatt. destruct r as [e|mt].
  { by apply M_bind_Ok in Hrest as (_ & w3 & _ & (_ & w4 & _ & [= <-])%M_bind_Ok). }
  injection Hrest as <- <- <-. split; [done|].
  apply process_reply_Ok in Hatt as (keys & new & proof & Hh & Ha & Hp & Hc & Hst).
  pose proof (Hash.hashes_Ok _ _ _ (append_all_hashes new _ _ Hmt) Ha) as Hmt'.
  exists mt, keys, new, proof. split_and!; try done.
  intros Hps Hcf. rewrite Hroot, Hsize in Hc. by apply (consistency_sound (l ++ new) l' mt proof).
Qed.

(** an honest answer ends the catchup, and so does any part of it.  The transactions
    that extend the tree to the first [k] leaves of the agreed ledger, with the RFC 6962
    proof of these [k] leaves, are accepted, and the pool is told that it is synced: also
    with a tree that is shorter than the agreed one. *)
Theorem catchup_reply_accepted (sm : RequestSM) (s : CatchupSingleState) (l l' : list TreeLeafData) (k : nat)
    (rep : CatchupRep) (node : string) (keys : list N) (new : list bytes) (file : bytes) (w : World) :
  openssl_total -> state sm = CatchupSingle s -> represents (cs_merkle_tree s) l ->
  target_mt_root s = mth l' -> target_mt_size s = N.of_nat (length l') ->
  0 < k <= length l' -> l ++ new = take k l' -> reply_holds (txns rep) keys new ->
  mapM base58_decode (consProof rep) = Ok (consistency_path k l') ->
  io w = [] -> stored w = Some file ->
  exists mt, represents mt (take k l') /\
    handle_event sm (RECatchupRep rep node) w =
      (Ok (set_state sm Finish, Some (Synced mt)),
       set_effects (effects w ++ [Net (CleanTimeout (cs_req_id s) None)])
         (set_stored (Some (file ++ encode_records new)) w)).
Proof.
  intros Ht Hs Hmt Hroot Hsize Hk Hnew Hh Hp Hio Hfile.
  destruct (Hash.hashes_total _ _ Ht (append_all_hashes new _ _ Hmt)) as (mt & Ha & Hmt').
  rewrite Hnew in Hmt'. exists mt. split; [done|].
  assert (_process_catchup_reply rep (cs_merkle_tree s) (target_mt_root s) (target_mt_size s) w =
    (Ok mt, set_stored (Some (file ++ encode_records new)) w)) as Hproc.
  { unfold _process_catchup_reply. rewrite bind_run. unfold lift at 1.
    rewrite (take_txns_holds keys new) by (done || by apply (reply_holds_size _ _ new)).
    rewrite Ha. cbn [mbind outcome_bind app]. rewrite bind_run. unfold lift, check_cons_proofs. rewrite Hp.
    cbn [mbind outcome_bind]. rewrite Hroot, Hsize, consistency_complete by done. cbn.
    rewrite bind_run. unfold dump_new_txns. rewrite bind_run. unfold gets. rewrite Hfile, bind_run. cbn.
    by rewrite bind_run, io_call_ok, (dump_vec_ok new w file) by done. }
  unfold handle_event, dispatch. rewrite Hs. cbn [handle_catchup_single].
  by rewrite bind_run, bind_run; unfold attempt; rewrite Hproc.
Qed.

(** an answer can make the pool thread unwind.  When every number of an answer parses
    and every transaction can be read, the loop over the transactions unwinds exactly when
    some number is written in another way than the thread writes it back (["01"], ["+1"]):
    [txns.remove(&min_tx.to_string()).unwrap()]. *)
Theorem catchup_reply_unwinds (sm : RequestSM) (s : CatchupSingleState) (l : list TreeLeafData)
    (rep : CatchupRep) (node : string) (w : World) :
  openssl_total -> state sm = CatchupSingle s -> represents (cs_merkle_tree s) l -> readable (txns rep) ->
  (exists key, is_Some (txns rep !! key) /\ ~ canonical key) ->
  handle_event sm (RECatchupRep rep node) w = (Panic, w).
Proof.
  intros Ht Hs Hmt Hr (key & [v Hv] & Hc).
  pose proof (take_txns_canonical _ rep l (cs_merkle_tree s) [] Ht Hmt (Nat.le_refl _) Hr) as Htake.
  rewrite decide_False in Htake by (intros Hall; by apply Hc, (Hall key v)).
  unfold handle_event, dispatch. rewrite Hs. cbn [handle_catchup_single].
  rewrite bind_run, bind_run. unfold attempt, _process_catchup_reply. rewrite bind_run. unfold lift at 1.
  by rewrite Htake.
Qed.
End properties.

(** ** Witnesses *)

#[local] Existing Instances ToySha.sha ToySha.sha_length ToyPool.machine ToyPool.order
  ToyPool.base58 ToyPool.json_text ToyPool.codecs ToyPool.bls ToyRlp.rlp ToyProofs.libs ToyResponse.codec.

Definition txn_of (leaf : bytes) : SJsonValue := Object [("result"%string, String_ (string_of_bytes leaf))].

(** The answer with the third of the sample transactions, under the given number. *)
Definition sample_reply_under (key : string) : CatchupRep :=
  mk_catchup_rep 0 (string_of_bytes <$> consistency_path 3 sample_leaves) (<[key := txn_of [Byte.x63]]> ∅).

Definition sample_catchup : CatchupSingleState :=
  mk_catchup_single (mth sample_leaves) 3 sample_old_tree "33".

Definition sample_catchup_request : RequestSM :=
  mk_request _ 1 [7]%Z four_nodes () 20 60 (CatchupSingle sample_catchup).

Definition cached_world : World := sample_world None (Some []) [].

Lemma sample_reply_holds : reply_holds (txns (sample_reply_under "3")) [3%N] [[Byte.x63]].
Proof.
  split_and!.
  - constructor; constructor.
  - constructor; [vm_compute; reflexivity|constructor].
  - intros key. cbn. rewrite lookup_insert_is_Some', lookup_empty. split.
    + intros [<-|[? ?]]; [|done]. exists 3%N. split; [by left|by vm_compute].
    + intros (k & ->%list_elem_of_singleton & ->). left. by vm_compute.
  - constructor; [|constructor]. exists (txn_of [Byte.x63]). split; vm_compute; reflexivity.
Qed.

Definition accepted_run (rep : CatchupRep) : bool :=
  match handle_event sample_catchup_request (RECatchupRep rep "a") cached_world with
  | (Ok (_, Some _), _) => true
  | _ => false
  end.

Lemma catchup_reply_sound_witness :
  exists sm' ev w', handle_event sample_catchup_request (RECatchupRep (sample_reply_under "3") "a") cached_world =
    (Ok (sm', Some ev), w') /\ is_terminal sm' = true /\ exists mt keys new proof,
    ev = Synced mt /\ reply_holds (txns (sample_reply_under "3")) keys new /\
    represents mt (take 2 sample_leaves ++ new) /\
    (forall file, stored cached_world = Some file -> stored w' = Some (file ++ encode_records new)) /\
    mapM base58_decode (consProof (sample_reply_under "3")) = Ok proof /\
    (Forall (fun p => length p = HASHBYTES) proof ->
     collision_free (tree_messages (merkle (take 2 sample_leaves ++ new)) ++ tree_messages (merkle sample_leaves) ++
       verifier_messages mt (N.of_nat (length sample_leaves)) proof) ->
     take 2 sample_leaves ++ new = take (length (take 2 sample_leaves ++ new)) sample_leaves).
Proof.
  assert (accepted_run (sample_reply_under "3") = true) as Hok by (vm_compute; reflexivity).
  unfold accepted_run in Hok.
  destruct (handle_event sample_catchup_request (RECatchupRep (sample_reply_under "3") "a") cached_world)
    as [[[sm' [ev|]]| | |] w'] eqn:Hrun; try discriminate Hok.
  exists sm', ev, w'. split; [reflexivity|].
  refine (catchup_reply_sound sample_catchup_request sample_catchup (take 2 sample_leaves) sample_leaves
    (sample_reply_under "3") "a" cached_world sm' ev w' _ sample_old_tree_represents _ _ Hrun); reflexivity.
Defined.

(** An answer without transactions, with the proof of the two leaves that are there. *)
Definition empty_reply : CatchupRep :=
  mk_catchup_rep 0 (string_of_bytes <$> consistency_path 2 sample_leaves) ∅.

Lemma empty_reply_holds : reply_holds (txns empty_reply) [] [].
Proof.
  split_and!; [constructor|constructor| |constructor]. intros key. cbn. rewrite lookup_empty. split.
  - by intros [].
  - by intros (k & Hin%not_elem_of_nil & _).
Qed.

Lemma catchup_reply_accepted_witness :
  exists mt, represents mt (take 2 sample_leaves) /\
    handle_event sample_catchup_request (RECatchupRep empty_reply "a") cached_world =
      (Ok (set_state sample_catchup_request Finish, Some (Synced mt)),
       set_effects (effects cached_world ++ [Net (CleanTimeout "33" None)])
         (set_stored (Some ([] ++ encode_records [])) cached_world)).
Proof.
  refine (catchup_reply_accepted sample_catchup_request sample_catchup (take 2 sample_leaves) sample_leaves 2
    empty_reply "a" [] [] [] cached_world ToySha.sha_total eq_refl sample_old_tree_represents eq_refl eq_refl
    _ eq_refl empty_reply_holds _ eq_refl eq_refl).
  - cbn. lia.
  - vm_compute. reflexivity.
Defined.

Lemma catchup_reply_unwinds_witness :
  handle_event sample_catchup_request (RECatchupRep (sample_reply_under "03") "a") cached_world =
    (Panic, cached_world).
Proof.
  refine (catchup_reply_unwinds sample_catchup_request sample_catchup (take 2 sample_leaves)
    (sample_reply_under "03") "a" cached_world ToySha.sha_total eq_refl sample_old_tree_represents _ _).
  - intros key v. cbn. intros [[<- <-]|[_ Hv]]%lookup_insert_Some; [|by rewrite lookup_empty in Hv].
    split; vm_compute; eexists; reflexivity.
  - exists "03"%string. split; [vm_compute; eexists; reflexivity|]. apply (bool_decide_unpack _). vm_compute. exact I.
Defined.
