(* ===== verification/FullRequest.v ===== *)
(** * FullRequest: requests that every node answers

    What [handle_full] of [RequestHandler.v] collects, and when it answers the commands. *)

From S2P Require Import Prelude Errors Json Hashing MerkleTree PoolTypes World MerkleFactory Catchup Response Trie StateProof RequestHandler RequestFacts.

(** The node that an event is about, and what is noted for it. *)
Definition full_answer (e : RequestEvent) : option (string * string) :=
  match e with
  | REReply _ raw_msg node_alias _ | REReqNACK _ raw_msg node_alias _ | REReject _ raw_msg node_alias _ =>
      Some (node_alias, raw_msg)
  | RETimeout _ node_alias => Some (node_alias, "timeout"%string)
  | _ => None
  end.

(** The nodes that answered or timed out. *)
Definition heard (es : list RequestEvent) : gset string :=
  list_to_set (omap (fun e => fst <$> full_answer e) es).

(** [m] has, for exactly the nodes heard, something that they said. *)
Definition collected (es : list RequestEvent) (m : SJsonMap) : Prop :=
  (forall a, is_Some (obj_get a m) <-> a ∈ heard es) /\
  forall a v, obj_get a m = Some v -> exists e raw, e ∈ es /\ full_answer e = Some (a, raw) /\ v = String_ raw.

Lemma heard_app es es' : heard (es ++ es') = heard es ∪ heard es'.
Proof. unfold heard. by rewrite omap_app, list_to_set_app_L. Qed.

Lemma heard_answer e a raw : full_answer e = Some (a, raw) -> heard [e] = {[a]}.
Proof. unfold heard. cbn. intros ->. cbn. set_solver. Qed.

Lemma heard_other e : full_answer e = None -> heard [e] = ∅.
Proof. unfold heard. cbn. by intros ->. Qed.

Lemma collected_insert es m e a raw : full_answer e = Some (a, raw) -> collected es m ->
  collected (es ++ [e]) (obj_insert a (String_ raw) m).
Proof.
  intros He [Hd Hv]. split.
  - intros a'. rewrite obj_get_insert, heard_app, (heard_answer e a raw He). case_decide as Ha.
    + subst. split; [set_solver|by eexists].
    + rewrite Hd. set_solver.
  - intros a' v. rewrite obj_get_insert. case_decide as Ha.
    + intros [= <-]. subst. exists e, raw. split_and!; [set_solver|done..].
    + intros (e' & raw' & Hin & ? & ?)%Hv. exists e', raw'. split_and!; [set_solver|done..].
Qed.

Lemma collected_other es m e : full_answer e = None -> collected es m -> collected (es ++ [e]) m.
Proof.
  intros He [Hd Hv]. split.
  - intros a. rewrite heard_app, (heard_other e He). rewrite Hd. set_solver.
  - intros a v (e' & raw' & Hin & ? & ?)%Hv. exists e', raw'. split_and!; [set_solver|done..].
Qed.

(** The number of keys after an answer. *)
Lemma heard_size es m e a raw : full_answer e = Some (a, raw) -> obj_sorted m -> collected es m ->
  length m = size (heard es) -> length (obj_insert a (String_ raw) m) = size (heard (es ++ [e])).
Proof.
  intros He Hs [Hd _] Hl. rewrite obj_insert_length, heard_app, (heard_answer e a raw He) by done.
  specialize (Hd a). destruct (obj_get a m) as [v|].
  - replace (heard es ∪ {[a]}) with (heard es); [done|]. assert (a ∈ heard es) by (by apply Hd; eexists). set_solver.
  - assert (a ∉ heard es) by (intros Ha%Hd; by destruct Ha). rewrite size_union, size_singleton by set_solver. lia.
Qed.

(** The size of a set of listed elements. *)
Lemma list_to_set_size `{Countable A} (l : list A) :
  size (list_to_set l : gset A) <= length l /\ (size (list_to_set l : gset A) = length l -> NoDup l).
Proof.
  induction l as [|x l [IHle IHnd]]; cbn; [rewrite size_empty; split; [lia|constructor]|].
  destruct (decide (x ∈ l)) as [Hx|Hx].
  - replace ({[x]} ∪ list_to_set l : gset A) with (list_to_set l : gset A) by set_solver. lia.
  - rewrite size_union, size_singleton by set_solver. split; [lia|]. intros Hs. constructor; [done|]. apply IHnd. lia.
Qed.

(** How many nodes have to be heard: those that the user names, or all of them. *)
Definition required (sel : option (list string)) (ns : gset string) : nat :=
  match sel with Some l => length l | None => size ns end.

Section full.
Context `{Machine} `{Sha256} `{JsonText} `{PoolCodecs} `{Base58} `{HashOrder} `{Bls}
  `{ResponseCodec} `{!StateProofService} (sel : option (list string)).

(** What was collected after the events [hist]. *)
Definition accumulated (hist : list RequestEvent) (s : FullState) : Prop :=
  let m := match accum_reply s with Some (Object m) => m | _ => [] end in
  (accum_reply s = None \/ accum_reply s = Some (Object m)) /\
  obj_sorted m /\ collected hist m /\ length m = size (heard hist) /\ nodes_to_send s = sel.

(** One answer. *)
Lemma full_reply_run sm s hist e a raw req_id w :
  full_answer e = Some (a, raw) -> accumulated hist s ->
  exists m, accumulated (hist ++ [e]) (mk_full (Some (Object m)) sel) /\ collected (hist ++ [e]) m /\
    full_reply sm s req_id a raw w =
      if decide (size (heard (hist ++ [e])) = required sel (dom (nodes sm))) then
        (Ok (Finish, None), set_effects (effects w ++ [Net (CleanTimeout req_id None)] ++
           ((fun id => Sent (SubmitAck id (inr (to_string (Object m))))) <$> cmd_ids sm)) w)
      else
        (Ok (FullReq (mk_full (Some (Object m)) sel), None),
         set_effects (effects w ++ [Net (CleanTimeout req_id (Some a))]) w).
Proof.
  intros He (Hacc & Hs & Hc & Hl & Hn). set (m := match accum_reply s with Some (Object m) => m | _ => [] end) in *.
  pose proof (heard_size hist m e a raw He Hs Hc Hl) as Hlen.
  assert (collected (hist ++ [e]) (obj_insert a (String_ raw) m)) as Hc' by (by apply collected_insert).
  exists (obj_insert a (String_ raw) m). split; [|split; [done|]].
  { unfold accumulated. cbn. split_and!; [by right|by apply obj_insert_sorted|apply Hc'..|done|done]. } unfold full_reply.
  assert (match accum_reply s with
    | None => Ok (Object [(a, String_ raw)])
    | Some inner => map ← unwrap (as_object inner); Ok (Object (obj_insert a (String_ raw) map))
    end = Ok (Object (obj_insert a (String_ raw) m)) :> IndyResult SJsonValue) as ->.
  { unfold m. destruct Hacc as [->| ->]; done. }
  rewrite bind_run. cbn [lift as_object]. rewrite bind_run. cbn [lift unwrap]. rewrite Hn, Hlen. unfold nodes_cnt.
  assert (match sel with Some l => N.of_nat (length l) | None => N.of_nat (size (nodes sm)) end =
    N.of_nat (required sel (dom (nodes sm)))) as -> by (destruct sel; cbn; by rewrite ?size_dom).
  destruct (N.eqb_spec (N.of_nat (size (heard (hist ++ [e])))) (N.of_nat (required sel (dom (nodes sm))))), (decide _); try lia.
  - rewrite bind_run. cbn [net emit]. rewrite bind_run. unfold _send_ok_replies, _send_replies, send.
    rewrite (forM_emit (fun id => Sent (SubmitAck id _))). cbn. by rewrite <-app_assoc.
  - done.
Qed.

(** The result of a run of a full request that has to hear [n] nodes. *)
Definition full_result (ids : list Z) (n : nat) (es : list RequestEvent) (sm' : RequestSM)
    (out : list Effect) : Prop :=
  if decide (n <= size (heard es)) then
    is_terminal sm' = true /\ exists es1 m, es1 `prefix_of` es /\ size (heard es1) = n /\ collected es1 m /\
      submits out = (fun id => (id, inr (to_string (Object m)))) <$> ids
  else is_terminal sm' = false /\ submits out = [].

Lemma accumulated_other hist s e : full_answer e = None -> accumulated hist s -> accumulated (hist ++ [e]) s.
Proof.
  intros He (Hacc & Hs & Hc & Hl & Hn). unfold accumulated. split_and!; [done|done| | |done].
  - by apply collected_other.
  - by rewrite heard_app, (heard_other e He), (right_id_L ∅ (∪)).
Qed.

(** The result of one event that is no [Terminate]. *)
Definition full_step (sm : RequestSM) (hist : list RequestEvent) (e : RequestEvent) (w : World)
    (r : IndyResult (RequestState * option PoolEvent) * World) : Prop :=
  exists p w1 out, r = (Ok (p, None), w1) /\ effects w1 = effects w ++ out /\
    if decide (size (heard (hist ++ [e])) = required sel (dom (nodes sm)) /\ full_answer e <> None) then
      p = Finish /\ exists m, collected (hist ++ [e]) m /\
        submits out = (fun id => (id, inr (to_string (Object m)))) <$> cmd_ids sm
    else submits out = [] /\ exists s', p = FullReq s' /\ accumulated (hist ++ [e]) s'.

Lemma handle_full_run sm s hist e w :
  accumulated hist s -> e <> Terminate -> full_step sm hist e w (handle_full sm s e w).
Proof.
  intros Hacc Hne.
  assert (forall a raw id, full_answer e = Some (a, raw) ->
    full_step sm hist e w (full_reply sm s id a raw w)) as Hreply.
  { intros a raw id He. destruct (full_reply_run sm s hist e a raw id w He Hacc) as (m & Hm & Hcm & Hrun).
    rewrite Hrun. unfold full_step. destruct (decide (size _ = required _ _)) as [Hsz|Hsz].
    - eexists _, _, _. split; [reflexivity|]. split; [reflexivity|]. rewrite decide_True by (by rewrite He).
      split; [done|]. exists m. split; [done|]. by rewrite submits_app, submits_replies.
    - eexists _, _, _. split; [reflexivity|]. split; [reflexivity|]. rewrite decide_False by tauto.
      split; [done|]. by eexists. }
  destruct e; try (by apply Hreply); try done;
    (eexists _, _, []; split; [reflexivity|]; rewrite app_nil_r; split; [done|];
     rewrite decide_False by (by intros []); split; [done|]; eexists; split; [done|by apply accumulated_other]).
Qed.

Lemma heard_grows es e : size (heard (es ++ [e])) <= S (size (heard es)).
Proof.
  rewrite heard_app. destruct (full_answer e) as [[a raw]|] eqn:He.
  - rewrite (heard_answer e a raw He). destruct (decide (a ∈ heard es)).
    + replace (heard es ∪ {[a]}) with (heard es) by set_solver. lia.
    + rewrite size_union, size_singleton by set_solver. lia.
  - rewrite (heard_other e He), (right_id_L ∅ (∪)). lia.
Qed.

Lemma heard_prefix es es' : size (heard es) <= size (heard (es ++ es')).
Proof. apply subseteq_size. rewrite heard_app. set_solver. Qed.

Lemma run_full sm es : forall s hist w,
  state sm = FullReq s -> accumulated hist s -> Terminate ∉ es ->
  size (heard hist) < required sel (dom (nodes sm)) ->
  exists sm' w' out, run sm es w = (Ok (sm', []), w') /\ effects w' = effects w ++ out /\
    full_result (cmd_ids sm) (required sel (dom (nodes sm))) (hist ++ es) sm' out.
Proof.
  revert sm. induction es as [|e es IH]; intros sm s hist w Hs Hacc Ht Hnot.
  { exists sm, w, []. rewrite !app_nil_r. split_and!; [done..|]. unfold full_result.
    rewrite decide_False by lia. split; [|done]. unfold is_terminal. by rewrite Hs. }
  destruct (handle_full_run sm s hist e w Hacc) as (p & w1 & out & Hrun & Ho & Hst).
  { intros ->. apply Ht. left. }
  cbn [run]. rewrite bind_run. unfold handle_event. rewrite bind_run. unfold dispatch. rewrite Hs, Hrun. cbn [mret StateM_ret].
  assert (hist ++ e :: es = (hist ++ [e]) ++ es) as Happ by (by rewrite <-app_assoc).
  rewrite Happ in *. pose proof (heard_grows hist e).
  destruct (decide (_ /\ _)) as [[Hsz Ha]|Hnd].
  - destruct Hst as (-> & m & Hcm & Hsb). eexists _, w1, out. rewrite bind_run, run_finished by done.
    split; [reflexivity|]. split; [done|]. unfold full_result.
    rewrite decide_True by (rewrite <-Hsz; apply heard_prefix). split; [done|].
    exists (hist ++ [e]), m. split_and!; [by eexists|done..].
  - destruct Hst as (Hsb & s' & -> & Hacc').
    destruct (IH (set_state sm (FullReq s')) s' (hist ++ [e]) w1) as (sm' & w' & out' & Hr & Ho' & Hres).
    + done.
    + done.
    + set_solver.
    + cbn. destruct (full_answer e) eqn:He.
      * assert (size (heard (hist ++ [e])) <> required sel (dom (nodes sm))) by (intros ?; by apply Hnd). lia.
      * by rewrite heard_app, (heard_other e He), (right_id_L ∅ (∪)).
    + eexists sm', w', (out ++ out'). rewrite bind_run, Hr. split; [reflexivity|].
      rewrite Ho', Ho, app_assoc. split; [done|]. unfold full_result in *. rewrite submits_app, Hsb. exact Hres.
Qed.

(** A request that is sent. *)
Lemma run_full_sent fl ids ns g t et msg req_id local_timeout raw es w :
  start_full (request_new fl ids ns g t et) msg req_id local_timeout raw =
    (_ ← net (SendAllRequest msg req_id (default et local_timeout) sel); mret (FullReq (mk_full None sel), None)) ->
  0 < required sel (dom ns) -> Terminate ∉ es ->
  exists sm' w' out,
    run (request_new fl ids ns g t et) (CustomFullRequest msg req_id local_timeout raw :: es) w = (Ok (sm', []), w') /\
    effects w' = effects w ++ out /\ full_result ids (required sel (dom ns)) es sm' out.
Proof.
  intros Hstart Hne Ht.
  destruct (run_full (set_state (request_new fl ids ns g t et) (FullReq (mk_full None sel))) es (mk_full None sel) []
    (set_effects (effects w ++ [Net (SendAllRequest msg req_id (default et local_timeout) sel)]) w))
    as (sm' & w' & out & Hr & Ho & Hres); [done| |done|done|].
  - unfold accumulated, collected. cbn. split_and!; [by left|constructor| |done|done|done].
    intros a. split; [by intros []|set_solver].
  - eexists sm', w', (_ :: out). cbn [run]. rewrite bind_run.
    assert (handle_event (request_new fl ids ns g t et) (CustomFullRequest msg req_id local_timeout raw) w =
      (Ok (set_state (request_new fl ids ns g t et) (FullReq (mk_full None sel)), None),
       set_effects (effects w ++ [Net (SendAllRequest msg req_id (default et local_timeout) sel)]) w)) as ->.
    { unfold handle_event. rewrite bind_run. unfold dispatch. cbn [state request_new handle_start]. by rewrite Hstart. }
    rewrite bind_run, Hr. split; [reflexivity|]. rewrite Ho. cbn. rewrite <-app_assoc. by split.
Qed.
End full.

(** ** Properties *)
Section properties.
Context `{Machine} `{Sha256} `{JsonText} `{PoolCodecs} `{Base58} `{HashOrder} `{Bls}
  `{ResponseCodec} `{!StateProofService}.

(** The nodes that the user names, in JSON: all of them without a list, and nothing for a
    list that is no list of nodes of the pool. *)
Definition selection (raw : option string) (ns : gset string) : option (option (list string)) :=
  match raw with
  | Some str =>
      l ← strings_from_json str;
      if decide (l <> [] /\ Forall (fun a => a ∈ ns) l) then Some (Some l) else None
  | None => Some None
  end.

Lemma run_full_request fl ids ns g t et msg req_id local_timeout raw sel es w :
  ns <> ∅ -> selection raw (dom ns) = Some sel -> Terminate ∉ es ->
  exists sm' w' out,
    run (request_new fl ids ns g t et) (CustomFullRequest msg req_id local_timeout raw :: es) w = (Ok (sm', []), w') /\
    effects w' = effects w ++ out /\ full_result ids (required sel (dom ns)) es sm' out.
Proof.
  intros Hne Hsel Ht. unfold selection in Hsel. destruct raw as [str|].
  - destruct (strings_from_json str) as [l|] eqn:Hl; [|done]. cbn in Hsel. case_decide as Hd; simplify_eq.
    destruct Hd as [Hnil Hall]. apply run_full_sent; [|destruct l; cbn; [done|lia]|done].
    unfold start_full. rewrite Hl. cbn. rewrite decide_True; [done|]. split; [done|].
    eapply Forall_impl; [exact Hall|]. intros a Ha. by apply elem_of_dom.
  - simplify_eq. apply run_full_sent; [done| |done]. cbn.
    assert (size (dom ns) <> 0); [|lia]. intros Hs%size_empty_inv. by apply Hne, dom_empty_inv.
Qed.

(** a request to all the nodes, or to those that the user names, is answered when,
    and only when, as many nodes as it was meant for have answered or timed out; the answer
    then is a JSON object with one entry for each node heard, one of its replies or the
    text ["timeout"].  A list that names no node, or one that the pool does not have, is
    refused at once.  No order of the answers makes the machine unwind. *)
Theorem full_request_collects (fl : N) (ids : list Z) (ns : gmap string (option VerKey)) (g : option Generator)
    (t et : Z) (msg req_id : string) (local_timeout : option Z) (raw : option string) (es : list RequestEvent) (w : World) :
  ns <> ∅ -> Terminate ∉ es ->
  exists sm' w' out,
    run (request_new fl ids ns g t et) (CustomFullRequest msg req_id local_timeout raw :: es) w = (Ok (sm', []), w') /\
    effects w' = effects w ++ out /\
    match selection raw (dom ns) with
    | Some sel => full_result ids (required sel (dom ns)) es sm' out
    | None => is_terminal sm' = true /\ submits out = (fun id => (id, inl InvalidStructure)) <$> ids
    end.
Proof.
  intros Hne Ht. destruct (selection raw (dom ns)) as [sel|] eqn:Hsel; [by apply run_full_request|].
  set (sm := request_new fl ids ns g t et).
  assert (start_full sm msg req_id local_timeout raw =
    (_ ← _send_replies ids (inl InvalidStructure); mret (Finish, None))) as Hstart.
  { unfold selection, start_full in *. destruct raw as [str|]; [|done].
    destruct (strings_from_json str) as [l|]; [|done]. cbn in Hsel. case_decide as Hd; [done|].
    rewrite decide_False; [done|]. intros [Hnil Hall]. apply Hd. split; [done|].
    eapply Forall_impl; [exact Hall|]. intros a Ha. by apply elem_of_dom. }
  eexists (set_state sm Finish), _, _. cbn [run]. rewrite bind_run. unfold handle_event. rewrite bind_run.
  unfold dispatch. cbn [state sm request_new handle_start]. fold sm. rewrite Hstart, bind_run.
  unfold _send_replies, send. rewrite (forM_emit (fun id => Sent (SubmitAck id _))). cbn [mret StateM_ret].
  rewrite bind_run, run_finished by done. split; [reflexivity|]. split; [reflexivity|]. split; [done|apply submits_replies].
Qed.

(** a name that the user gives twice keeps a request from ever being answered: the
    names are counted, but a node has one entry in the answer.  No sequence of answers and
    timeouts of the nodes that were asked ends the request. *)
Theorem duplicate_name_never_answered (fl : N) (ids : list Z) (ns : gmap string (option VerKey)) (g : option Generator)
    (t et : Z) (msg req_id : string) (local_timeout : option Z) (str : string) (l : list string)
    (es : list RequestEvent) (w : World) :
  selection (Some str) (dom ns) = Some (Some l) -> ~ NoDup l -> Terminate ∉ es -> heard es ⊆ list_to_set l ->
  exists sm' w' out,
    run (request_new fl ids ns g t et) (CustomFullRequest msg req_id local_timeout (Some str) :: es) w = (Ok (sm', []), w') /\
    effects w' = effects w ++ out /\ is_terminal sm' = false /\ submits out = [].
Proof.
  intros Hsel Hd Ht Hsub.
  destruct (run_full_request fl ids ns g t et msg req_id local_timeout (Some str) (Some l) es w)
    as (sm' & w' & out & Hr & Ho & Hres); [|exact Hsel|exact Ht|].
  - intros ->. cbn in Hsel. destruct (strings_from_json str) as [k|]; [|done]. cbn in Hsel.
    case_decide as Hk; simplify_eq. destruct Hk as [Hnil Hall], l as [|a l]; [done|].
    apply Forall_cons_1 in Hall as [Ha _]. set_solver.
  - exists sm', w', out. split; [exact Hr|]. split; [exact Ho|].
    apply subseteq_size in Hsub. destruct (list_to_set_size l) as [Hle Hnd].
    assert (size (list_to_set l : gset string) <> length l) by auto.
    unfold full_result in Hres. cbn [required] in Hres. rewrite decide_False in Hres by lia. exact Hres.
Qed.
End properties.

(** ** Witnesses *)

#[local] Existing Instances ToySha.sha ToySha.sha_length ToyPool.machine ToyPool.order
  ToyPool.base58 ToyPool.json_text ToyPool.codecs ToyPool.bls ToyRlp.rlp ToyProofs.libs ToyResponse.codec.

(** Node c times out; a answers twice. *)
Definition all_events : list RequestEvent :=
  [reply_of "a" "x"; RETimeout "1" "c"; reply_of "b" "y"; reply_of "a" "z"; reply_of "d" "x"].

Lemma full_request_collects_witness :
  exists sm' w' out,
    run (request_new 1 [7]%Z four_nodes None 20 60) (CustomFullRequest "m" "1" None None :: all_events) quiet_world =
      (Ok (sm', []), w') /\
    effects w' = effects quiet_world ++ out /\
    match selection None (dom four_nodes) with
    | Some sel => full_result [7]%Z (required sel (dom four_nodes)) all_events sm' out
    | None => is_terminal sm' = true /\ submits out = (fun id => (id, inl InvalidStructure)) <$> [7]%Z
    end.
Proof.
  refine (full_request_collects 1 [7]%Z four_nodes None 20 60 "m" "1" None None all_events quiet_world _ _).
  - intros He. apply (f_equal (lookup "a"%string)) in He. vm_compute in He. discriminate He.
  - intros Hin. repeat (apply elem_of_cons in Hin as [Hin|Hin]; [discriminate Hin|]). by apply not_elem_of_nil in Hin.
Defined.

(** A parser of lists of names that reads every text as a name given twice. *)
Definition twice_codecs : PoolCodecs := {|
  message_from_json := @message_from_json ToyPool.codecs;
  message_to_json := @message_to_json ToyPool.codecs;
  strings_from_json := fun s => Some [s; s];
  rmp_to_vec_named := @rmp_to_vec_named ToyPool.codecs;
  rmp_node_transaction := @rmp_node_transaction ToyPool.codecs;
|}.

Lemma duplicate_name_never_answered_witness :
  exists sm' w' out,
    run (H2:=twice_codecs) (request_new 1 [7]%Z four_nodes None 20 60)
      (CustomFullRequest "m" "1" None (Some "a"%string) :: [reply_of "a" "x"; RETimeout "1" "a"]) quiet_world =
      (Ok (sm', []), w') /\
    effects w' = effects quiet_world ++ out /\ is_terminal sm' = false /\ submits out = [].
Proof.
  refine (duplicate_name_never_answered (H2:=twice_codecs) 1 [7]%Z four_nodes None 20 60 "m" "1" None "a" ["a"; "a"]%string
    [reply_of "a" "x"; RETimeout "1" "a"] quiet_world _ _ _ _).
  - vm_compute. reflexivity.
  - intros Hnd. apply NoDup_cons in Hnd as [Hin _]. apply Hin. left.
  - intros Hin. repeat (apply elem_of_cons in Hin as [Hin|Hin]; [discriminate Hin|]). by apply not_elem_of_nil in Hin.
  - apply (bool_decide_unpack _). vm_compute. exact I.
Defined.
