(* ===== verification/Networker.v ===== *)
(** * Networker: the connections to the nodes

    Models [libindy/src/services/pool/networker.rs] and
    [libindy/src/utils/sequence.rs].  The networker keeps connections, each with a socket
    per node, and a timeout for every message that waits for an answer.  ZeroMQ, the
    clock and the random generator are the environment [NetEnv]. *)

From stdpp Require Import sorting.
From S2P Require Import Prelude Errors PoolTypes.

(** ** The environment *)

(** [thread_rng().shuffle(..)]: how the [k]-th use of the generator permutes a list. *)
Class Rng := {
  shuffle : nat -> list RemoteNode -> list RemoteNode;
  shuffle_perm : forall k l, shuffle k l ≡ₚ l;
}.

#[export] Instance RemoteNode_eq_dec : EqDecision RemoteNode.
Proof. solve_decision. Defined.

Record NetEnv := mk_env {
  (** the readings of [time::now()], in nanoseconds, and how many were taken; the clock
      can be set, so that they need not grow *)
  clock : nat -> Z;
  clock_reads : nat;
  (** how often the random generator was used *)
  shuffles : nat;
  (** whether the next calls of the ZeroMQ library succeed; they do when the list is over *)
  zmq_calls : list bool;
  (** [IDS_COUNTER] *)
  ids_counter : N;
  (** the messages given to sockets, with the node the socket is connected to *)
  wire : list (RemoteNode * string);
}.

Abbreviation Env := (StateM IndyErrorKind NetEnv).

Definition now : Env Z := fun e =>
  (Ok (clock e (clock_reads e)),
   mk_env (clock e) (S (clock_reads e)) (shuffles e) (zmq_calls e) (ids_counter e) (wire e)).

Definition zmq_call : Env unit := fun e =>
  match zmq_calls e with
  | [] => (Ok tt, e)
  | b :: l =>
      (if b then Ok tt else Err IOError,
       mk_env (clock e) (clock_reads e) (shuffles e) l (ids_counter e) (wire e))
  end.

Definition put_wire (n : RemoteNode) (msg : string) : Env unit :=
  modify (fun e => mk_env (clock e) (clock_reads e) (shuffles e) (zmq_calls e) (ids_counter e) (wire e ++ [(n, msg)])).

(** [sequence::get_next_id] *)
Definition get_next_id `{Machine} : Env Z := fun e =>
  (n ← usize_add (ids_counter e) 1; Ok (as_i32 n),
   mk_env (clock e) (clock_reads e) (shuffles e) (zmq_calls e)
     ((ids_counter e + 1) mod usize_modulus)%N (wire e)).

(** [res.expect(..)] *)
Definition expect {A} (m : Env A) : Env A := fun e =>
  match m e with (Err _, e') => (Panic, e') | r => r end.

(** ** Durations *)

Definition i64_min : Z := (- 2 ^ 63)%Z.
Definition i64_max : Z := (2 ^ 63 - 1)%Z.

(** The result of an operator on [i64]. *)
Definition i64_of `{Machine} (z : Z) : IndyResult Z :=
  if ((i64_min <=? z) && (z <=? i64_max))%Z then Ok z
  else if overflow_checks then Panic
  else Ok ((z + 2 ^ 63) mod 2 ^ 64 - 2 ^ 63)%Z.

(** [Duration::seconds(s)], which unwinds when the milliseconds are out of bounds. *)
Definition seconds (s : Z) : IndyResult Z :=
  if ((i64_min <=? s * 1000) && (s * 1000 <=? i64_max))%Z then Ok (s * 10 ^ 9)%Z else Panic.

(** [d.num_milliseconds()] *)
Definition num_milliseconds (d : Z) : Z := Z.quot d (10 ^ 6).

(** ** [PoolConnection] *)

(** A socket, by the node that it was connected to. *)
Abbreviation ZSocket := RemoteNode.

Record PoolConnection := mk_connection {
  pc_nodes : list RemoteNode;
  sockets : list (option ZSocket);
  resend : gmap string (N * string);
  timeouts : gmap (string * string) Z;
  time_created : Z;
  req_cnt : N;
  pc_active_timeout : Z;
}.

Definition set_sockets (l : list (option ZSocket)) (pc : PoolConnection) : PoolConnection :=
  mk_connection (pc_nodes pc) l (resend pc) (timeouts pc) (time_created pc) (req_cnt pc) (pc_active_timeout pc).
Definition set_resend (m : gmap string (N * string)) (pc : PoolConnection) : PoolConnection :=
  mk_connection (pc_nodes pc) (sockets pc) m (timeouts pc) (time_created pc) (req_cnt pc) (pc_active_timeout pc).
Definition set_timeouts (m : gmap (string * string) Z) (pc : PoolConnection) : PoolConnection :=
  mk_connection (pc_nodes pc) (sockets pc) (resend pc) m (time_created pc) (req_cnt pc) (pc_active_timeout pc).
Definition set_req_cnt (n : N) (pc : PoolConnection) : PoolConnection :=
  mk_connection (pc_nodes pc) (sockets pc) (resend pc) (timeouts pc) (time_created pc) n (pc_active_timeout pc).

(** [v.sort_by_key(f)], which is stable. *)
Fixpoint insert_by {A} (f : A -> N) (x : A) (l : list A) : list A :=
  match l with
  | [] => [x]
  | y :: l => if (f x <=? f y)%N then x :: y :: l else y :: insert_by f x l
  end.
Definition sort_by_key {A} (f : A -> N) (l : list A) : list A := foldr (insert_by f) [] l.

(** [preordered_nodes.iter().position(..).unwrap_or(usize::max_value())] *)
Definition preference `{Machine} (preordered_nodes : list string) (node : RemoteNode) : N :=
  match list_find (fun n => n = name node) preordered_nodes with
  | Some (i, _) => N.of_nat i
  | None => (usize_modulus - 1)%N
  end.

Section connection.
Context `{Machine} `{Rng}.

Definition shuffled (l : list RemoteNode) : Env (list RemoteNode) := fun e =>
  (Ok (shuffle (shuffles e) l),
   mk_env (clock e) (clock_reads e) (S (shuffles e)) (zmq_calls e) (ids_counter e) (wire e)).

(** [PoolConnection::new] *)
Definition connection_new (nodes : list RemoteNode) (active_timeout : Z) (preordered_nodes : list string) :
    Env PoolConnection :=
  nodes ← shuffled nodes;
  let nodes := match preordered_nodes with
    | [] => nodes
    | _ => sort_by_key (preference preordered_nodes) nodes
    end in
  _ ← expect zmq_call;
  time_created ← now;
  mret (mk_connection nodes (replicate (length nodes) None) ∅ ∅ time_created 0 active_timeout).

(** [RemoteNode::connect]; the calls before and after the encoding of the key count as
    one each. *)
Definition connect (n : RemoteNode) : Env ZSocket :=
  _ ← zmq_call;
  _ ← (if decide (length (public_key n) mod 4 = 0) then mret tt else fail InvalidStructure);
  _ ← zmq_call;
  mret n.

Definition _get_socket (pc : PoolConnection) (idx : nat) : Env (PoolConnection * ZSocket) :=
  socket ← lift (unwrap (sockets pc !! idx));
  match socket with
  | Some s => mret (pc, s)
  | None =>
      node ← lift (unwrap (pc_nodes pc !! idx));
      s ← connect node;
      mret (set_sockets (<[idx := Some s]> (sockets pc)) pc, s)
  end.

Definition _send_msg_to_one_node (pc : PoolConnection) (idx : nat) (req_id req : string) (timeout : Z) :
    Env PoolConnection :=
  '(pc, s) ← _get_socket pc idx;
  _ ← zmq_call;
  _ ← put_wire s req;
  node ← lift (unwrap (pc_nodes pc !! idx));
  time ← now;
  d ← lift (seconds timeout);
  mret (set_timeouts (<[(req_id, name node) := (time + d)%Z]> (timeouts pc)) pc).

(** Whether the node [idx] is to get the message. *)
Definition is_addressee (nodes_to_send : option (list string)) (n : RemoteNode) : bool :=
  match nodes_to_send with
  | Some nodes => bool_decide (name n ∈ nodes)
  | None => true
  end.

Definition send_to_all (pc : PoolConnection) (msg req_id : string) (timeout : Z)
    (nodes_to_send : option (list string)) : Env PoolConnection :=
  foldlM (fun pc idx =>
    node ← lift (unwrap (pc_nodes pc !! idx));
    if is_addressee nodes_to_send node then _send_msg_to_one_node pc idx req_id msg timeout else mret pc)
    (seq 0 (length (pc_nodes pc))) pc.

(** [PoolConnection::send_request] *)
Definition send_request (pc : PoolConnection) (pe : option NetworkerEvent) : Env PoolConnection :=
  match pe with
  | Some (SendOneRequest msg req_id timeout) =>
      n ← lift (usize_add (req_cnt pc) 1);
      pc ← _send_msg_to_one_node (set_req_cnt n pc) 0 req_id msg timeout;
      mret (set_resend (<[req_id := (0%N, msg)]> (resend pc)) pc)
  | Some (SendAllRequest msg req_id timeout nodes_to_send) =>
      n ← lift (usize_add (req_cnt pc) 1);
      send_to_all (set_req_cnt n pc) msg req_id timeout nodes_to_send
  | Some (Resend req_id timeout) =>
      match resend pc !! req_id with
      | Some (cnt, req) =>
          cnt ← lift (usize_add cnt 1);
          _ ← lift (assert_that (negb (length (pc_nodes pc) =? 0)));
          _send_msg_to_one_node (set_resend (<[req_id := (cnt, req)]> (resend pc)) pc)
            (N.to_nat (cnt mod N.of_nat (length (pc_nodes pc)))) req_id req timeout
      | None => mret pc
      end
  | _ => mret pc
  end.

Definition extend_timeout (pc : PoolConnection) (req_id node_alias : string) (extended_timeout : Z) :
    Env PoolConnection :=
  match timeouts pc !! (req_id, node_alias) with
  | Some _ =>
      time ← now;
      d ← lift (seconds extended_timeout);
      mret (set_timeouts (<[(req_id, node_alias) := (time + d)%Z]> (timeouts pc)) pc)
  | None => mret pc
  end.

Definition clean_timeout (pc : PoolConnection) (req_id : string) (node_alias : option string) : PoolConnection :=
  match node_alias with
  | Some node_alias => set_timeouts (delete (req_id, node_alias) (timeouts pc)) pc
  | None => set_timeouts (filter (fun kv => kv.1.1 <> req_id) (timeouts pc)) pc
  end.

Definition is_active (pc : PoolConnection) : Env bool :=
  time ← now;
  d ← lift (seconds (pc_active_timeout pc));
  mret (time - time_created pc <? d)%Z.

Definition has_active_requests (pc : PoolConnection) : bool := negb (bool_decide (timeouts pc = ∅)).

Definition is_orphaned (pc : PoolConnection) : Env bool :=
  active ← is_active pc;
  mret (negb active && negb (has_active_requests pc)).
End connection.

(** ** [ZMQNetworker] *)

Record ZMQNetworker := mk_networker {
  req_id_mappings : gmap string Z;
  pool_connections : gmap Z PoolConnection;
  nw_nodes : list RemoteNode;
  active_timeout : Z;
  conn_limit : N;
  preordered_nodes : list string;
}.

Definition set_mappings (m : gmap string Z) (nw : ZMQNetworker) : ZMQNetworker :=
  mk_networker m (pool_connections nw) (nw_nodes nw) (active_timeout nw) (conn_limit nw) (preordered_nodes nw).
Definition set_connections (m : gmap Z PoolConnection) (nw : ZMQNetworker) : ZMQNetworker :=
  mk_networker (req_id_mappings nw) m (nw_nodes nw) (active_timeout nw) (conn_limit nw) (preordered_nodes nw).
Definition set_nodes (l : list RemoteNode) (nw : ZMQNetworker) : ZMQNetworker :=
  mk_networker (req_id_mappings nw) (pool_connections nw) l (active_timeout nw) (conn_limit nw) (preordered_nodes nw).

Definition networker_new (active_timeout : Z) (conn_limit : N) (preordered_nodes : list string) : ZMQNetworker :=
  mk_networker ∅ ∅ [] active_timeout conn_limit preordered_nodes.

(** The entries of a [BTreeMap] in the order of its keys. *)
Definition key_le {A} (x y : Z * A) : Prop := (x.1 <= y.1)%Z.
#[export] Instance key_le_dec {A} : RelDecision (@key_le A) := fun x y => Z_le_dec x.1 y.1.
Definition btree_iter {A} (m : gmap Z A) : list (Z * A) := merge_sort key_le (map_to_list m).

(** [a.iter().collect::<HashSet<_>>().eq(&b.iter().collect())] *)
Definition same_nodes (l k : list RemoteNode) : bool :=
  forallb (fun n => bool_decide (n ∈ k)) l && forallb (fun n => bool_decide (n ∈ l)) k.

(** The first of the least elements: [iter.min_by(|a, b| f(a).cmp(f(b)))]. *)
Definition min_by {A} (f : A -> Z) (l : list A) : option A :=
  foldl (fun best x =>
    match best with
    | Some b => if (f x <? f b)%Z then Some x else Some b
    | None => Some x
    end) None l.

Section networker.
Context `{Machine} `{Rng}.

(** The connection that a new request can use: the latest one, while it is active, has
    had fewer requests than the limit and goes to the current nodes. *)
Definition existing_connection (nw : ZMQNetworker) : Env (option Z) :=
  match last (btree_iter (pool_connections nw)) with
  | Some (pc_idx, pc) =>
      active ← is_active pc;
      mret (if active && (req_cnt pc <? conn_limit nw)%N && same_nodes (pc_nodes pc) (nw_nodes nw)
            then Some pc_idx else None)
  | None => mret None
  end.

Definition process_send (nw : ZMQNetworker) (pe : option NetworkerEvent) (req_id : string) : Env ZMQNetworker :=
  num ← match req_id_mappings nw !! req_id with
        | Some i => mret (Some i)
        | None => existing_connection nw
        end;
  match num with
  | Some idx =>
      nw ← match pool_connections nw !! idx with
           | Some pc =>
               pc ← expect (send_request pc pe);
               mret (set_connections (<[idx := pc]> (pool_connections nw)) nw)
           | None => mret nw
           end;
      mret (set_mappings (<[req_id := idx]> (req_id_mappings nw)) nw)
  | None =>
      pc_id ← get_next_id;
      pc ← connection_new (nw_nodes nw) (active_timeout nw) (preordered_nodes nw);
      pc ← expect (send_request pc pe);
      mret (set_mappings (<[req_id := pc_id]> (req_id_mappings nw))
        (set_connections (<[pc_id := pc]> (pool_connections nw)) nw))
  end.

Definition process_extend (nw : ZMQNetworker) (req_id node_alias : string) (timeout : Z) : Env ZMQNetworker :=
  match req_id_mappings nw !! req_id with
  | Some idx =>
      match pool_connections nw !! idx with
      | Some pc =>
          pc ← extend_timeout pc req_id node_alias timeout;
          mret (set_connections (<[idx := pc]> (pool_connections nw)) nw)
      | None => mret nw
      end
  | None => mret nw
  end.

Definition process_clean (nw : ZMQNetworker) (req_id : string) (node_alias : option string) : Env ZMQNetworker :=
  nw ← match req_id_mappings nw !! req_id with
       | Some idx =>
           match pool_connections nw !! idx with
           | Some pc =>
               let pc := clean_timeout pc req_id node_alias in
               orphaned ← is_orphaned pc;
               mret (set_connections (if (orphaned : bool) then delete idx (pool_connections nw)
                                      else <[idx := pc]> (pool_connections nw)) nw)
           | None => mret nw
           end
       | None => mret nw
       end;
  mret (match node_alias with
        | None => set_mappings (delete req_id (req_id_mappings nw)) nw
        | Some _ => nw
        end).

(** Every connection is asked whether it is orphaned, in the order of their numbers. *)
Definition process_timeout (nw : ZMQNetworker) : Env ZMQNetworker :=
  pc_to_delete ← foldlM (fun l (kv : Z * PoolConnection) =>
    orphaned ← is_orphaned kv.2;
    mret (if (orphaned : bool) then l ++ [kv.1] else l)) (btree_iter (pool_connections nw)) [];
  mret (set_connections (foldr delete (pool_connections nw) pc_to_delete) nw).

(** [process_event], which returns [None] in every case. *)
Definition process_event (nw : ZMQNetworker) (pe : option NetworkerEvent) : Env ZMQNetworker :=
  match pe with
  | Some (SendAllRequest _ req_id _ _) | Some (SendOneRequest _ req_id _) | Some (Resend req_id _) =>
      process_send nw pe req_id
  | Some (NodesStateUpdated nodes) => mret (set_nodes nodes nw)
  | Some (ExtendTimeout req_id node_alias timeout) => process_extend nw req_id node_alias timeout
  | Some (CleanTimeout req_id node_alias) => process_clean nw req_id node_alias
  | Some NetTimeout => process_timeout nw
  | None => mret nw
  end.

(** ** Timeouts *)

Context `{HashOrder}.

(** [PoolConnection::get_timeout]; the clock is read once for each timeout. *)
Definition connection_timeout (pc : PoolConnection) : Env ((string * string) * Z) :=
  rests ← foldlM (fun l (kv : (string * string) * Z) =>
    time ← now; mret (l ++ [(kv.1, num_milliseconds (kv.2 - time))])) (hash_iter (timeouts pc)) [];
  match min_by snd rests with
  | Some r => mret r
  | None =>
      time ← now;
      total ← lift (i64_of (pc_active_timeout pc * 1000));
      rest ← lift (i64_of (total - num_milliseconds (time - time_created pc)));
      mret ((""%string, ""%string), rest)
  end.

(** [ZMQNetworker::get_timeout] *)
Definition get_timeout (nw : ZMQNetworker) : Env ((string * string) * Z) :=
  rests ← foldlM (fun l (kv : Z * PoolConnection) => t ← connection_timeout kv.2; mret (l ++ [t]))
    (btree_iter (pool_connections nw)) [];
  mret (default ((""%string, ""%string), i64_max) (min_by snd rests)).

(** ** Receiving *)

(** The entry of a socket in the list that is polled: whether there is something to read,
    and what [recv_string] returns, if it returns a string. *)
Record PollItem := mk_poll_item { is_readable : bool; received : option string }.

(** [get_poll_items], by the sockets that the items are of. *)
Definition connection_poll_items (pc : PoolConnection) : list ZSocket := omap id (sockets pc).
Definition get_poll_items (nw : ZMQNetworker) : list ZSocket :=
  concat ((fun kv => connection_poll_items kv.2) <$> btree_iter (pool_connections nw)).

(** [PoolConnection::fetch_events]: the walk along the nodes and their sockets with the
    index into the poll items. *)
Fixpoint fetch_loop (nodes : list RemoteNode) (socks : list (option ZSocket)) (poll_items : list PollItem)
    (pi_idx : nat) : IndyResult (list PoolEvent) :=
  match nodes, socks with
  | rn :: nodes, Some _ :: socks =>
      item ← unwrap (poll_items !! pi_idx);
      let vec := if is_readable item then
        match received item with Some str => [NodeReply str (name rn)] | None => [] end
        else [] in
      rest ← fetch_loop nodes socks poll_items (S pi_idx);
      Ok (vec ++ rest)
  | _ :: nodes, None :: socks => fetch_loop nodes socks poll_items pi_idx
  | _, _ => Ok []
  end.

Definition connection_fetch_events (pc : PoolConnection) (poll_items : list PollItem) : IndyResult (list PoolEvent) :=
  _ ← assert_that (length (pc_nodes pc) =? length (sockets pc));
  fetch_loop (pc_nodes pc) (sockets pc) poll_items 0.

(** [&poll_items[a..b]] *)
Definition slice {A} (l : list A) (a b : nat) : IndyResult (list A) :=
  if (b <=? length l) then Ok (take (b - a) (drop a l)) else Panic.

(** [ZMQNetworker::fetch_events] *)
Fixpoint fetch_connections (pcs : list PoolConnection) (poll_items : list PollItem) (cnt : nat) :
    IndyResult (list PoolEvent) :=
  match pcs with
  | [] => Ok []
  | pc :: pcs =>
      let ocnt := cnt in
      let cnt := cnt + length (connection_poll_items pc) in
      items ← slice poll_items ocnt cnt;
      evs ← connection_fetch_events pc items;
      rest ← fetch_connections pcs poll_items cnt;
      Ok (evs ++ rest)
  end.

Definition fetch_events (nw : ZMQNetworker) (poll_items : list PollItem) : IndyResult (list PoolEvent) :=
  fetch_connections (snd <$> btree_iter (pool_connections nw)) poll_items 0.
End networker.
