(* ===== verification/NetworkerFacts.v ===== *)
(** * NetworkerFacts: the theorems about the networker

    A connection sends what an event asks for and notes a timeout for each message; the
    networker is an implementation of a map from requests to the nodes that they wait for
    ([waiting]); requests that go to one node at a time visit the nodes in turn; the
    timeout that is announced is the earliest; what is read is attributed to its node. *)

From stdpp Require Import sorting.
From S2P Require Import Prelude Errors PoolTypes Networker.

(** ** Sorting *)
Section sorting.
Context {A : Type} (f : A -> N).

Definition by_key (x y : A) : Prop := (f x <= f y)%N.

Lemma insert_by_perm x l : insert_by f x l ≡ₚ x :: l.
Proof. induction l as [|y l IH]; cbn; [done|]. case_match; [done|]. rewrite IH. constructor. Qed.

Lemma sort_by_key_perm l : sort_by_key f l ≡ₚ l.
Proof. induction l as [|x l IH]; cbn; [done|]. by rewrite insert_by_perm, IH. Qed.

Lemma insert_by_sorted x l : StronglySorted by_key l -> StronglySorted by_key (insert_by f x l).
Proof.
  induction 1 as [|y l Hl IH Hy]; cbn; [repeat constructor|].
  destruct (N.leb_spec (f x) (f y)) as [Hle|Hlt].
  - constructor; [by constructor|]. constructor; [done|]. eapply Forall_impl; [exact Hy|].
    unfold by_key. lia.
  - constructor; [done|]. rewrite insert_by_perm. constructor; [unfold by_key; lia|done].
Qed.

Lemma sort_by_key_sorted l : StronglySorted by_key (sort_by_key f l).
Proof. induction l as [|x l IH]; cbn; [constructor|]. by apply insert_by_sorted. Qed.
End sorting.

(** ** One connection *)
Section connection.
Context `{Machine} `{Rng}.

(** Each socket is connected to the node at its index, and each timeout is of a node. *)
Record connection_wf (pc : PoolConnection) : Prop := {
  wf_sockets : length (sockets pc) = length (pc_nodes pc);
  wf_socket : forall i s, sockets pc !! i = Some (Some s) -> pc_nodes pc !! i = Some s;
  wf_timeouts : forall r a, (r, a) ∈ dom (timeouts pc) -> a ∈ name <$> pc_nodes pc;
}.

(** What a message to the nodes [l] adds to the timeouts. *)
Definition waits (r : string) (l : list RemoteNode) : gset (string * string) :=
  list_to_set ((fun n => (r, name n)) <$> l).

(** [pc'] is [pc] after the messages [l] of the request [r] were sent, from [e] to [e']. *)
Record sent_from (r : string) (l : list (RemoteNode * string)) (pc pc' : PoolConnection) (e e' : NetEnv) : Prop := {
  sf_wf : connection_wf pc -> connection_wf pc';
  sf_nodes : pc_nodes pc' = pc_nodes pc;
  sf_dom : dom (timeouts pc') = waits r l.*1 ∪ dom (timeouts pc);
  sf_wire : wire e' = wire e ++ l;
  sf_ids : ids_counter e' = ids_counter e;
}.

Lemma sent_from_nil r pc e : sent_from r [] pc pc e e.
Proof. split; try done; [set_solver|by rewrite app_nil_r]. Qed.

Lemma sent_from_app r l l' pc pc' pc'' e e' e'' :
  sent_from r l pc pc' e e' -> sent_from r l' pc' pc'' e' e'' -> sent_from r (l ++ l') pc pc'' e e''.
Proof.
  intros [] []. split; try congruence; [auto| |].
  - rewrite sf_dom1, sf_dom0. unfold waits. rewrite !fmap_app, list_to_set_app_L. set_solver.
  - rewrite sf_wire1, sf_wire0. by rewrite app_assoc.
Qed.

Lemma zmq_call_env e u e' : zmq_call e = (Ok u, e') -> wire e' = wire e /\ ids_counter e' = ids_counter e.
Proof. unfold zmq_call. destruct (zmq_calls e) as [|[] l]; [by intros [= <- <-]|by intros [= <- <-]|done]. Qed.

Lemma connect_Ok n e s e' :
  connect n e = (Ok s, e') -> s = n /\ wire e' = wire e /\ ids_counter e' = ids_counter e.
Proof.
  unfold connect. intros Hc. inv_run. case_decide; inv_run.
  repeat match goal with Hz : zmq_call _ = _ |- _ => apply zmq_call_env in Hz as [] end.
  split_and!; congruence.
Qed.

Lemma get_socket_Ok pc idx e pc' s e' :
  _get_socket pc idx e = (Ok (pc', s), e') -> connection_wf pc ->
  pc_nodes pc !! idx = Some s /\ connection_wf pc' /\
  (exists l, pc' = set_sockets l pc) /\ wire e' = wire e /\ ids_counter e' = ids_counter e.
Proof.
  unfold _get_socket. intros Hg Hwf. inv_run.
  destruct (sockets pc !! idx) as [[z|]|] eqn:Hs; try discriminate; cbn in *; simplify_eq; inv_run.
  - split; [by apply (wf_socket _ Hwf)|]. split_and!; try done. exists (sockets pc'). by destruct pc'.
  - destruct (pc_nodes pc !! idx) as [n|] eqn:Hn; try discriminate; cbn in *; simplify_eq.
    match goal with Hc : connect _ _ = _ |- _ => apply connect_Ok in Hc as (-> & ? & ?) end.
    split_and!; try done; [|by eexists].
    destruct Hwf as [Hl Hsk Ht]. split; cbn; [by rewrite length_insert| |done].
    intros i s' [(-> & [= ->] & _)|(_ & Hi)]%list_lookup_insert_Some; [done|by apply Hsk].
Qed.

(** Sending to the node [idx]. *)
Lemma send_one_Ok pc idx r req t e pc' e' :
  _send_msg_to_one_node pc idx r req t e = (Ok pc', e') -> connection_wf pc ->
  exists n, pc_nodes pc !! idx = Some n /\ sent_from r [(n, req)] pc pc' e e' /\ resend pc' = resend pc.
Proof.
  unfold _send_msg_to_one_node. intros Hs Hwf.
  apply M_bind_Ok in Hs as ([pc1 s] & e1 & Hg & Hs). cbn beta iota in Hs.
  apply (get_socket_Ok _ _ _ _ _ _ Hg) in Hwf as (Hn & Hwf & [l ->] & Hw & Hi). inv_run.
  cbn in *.
  match goal with Hu : unwrap _ = Ok _ |- _ => rewrite Hn in Hu; injection Hu as <- end.
  match goal with Hz : zmq_call _ = _ |- _ => apply zmq_call_env in Hz as [] end.
  match goal with Hd : seconds _ = Ok _ |- _ => clear Hd end.
  unfold put_wire, modify, now in *. simplify_eq/=. exists s. split; [done|]. split; [|done].
  split; cbn; try done; try congruence.
  - intros Hp. split; [apply Hwf..|]. cbn. intros r' a. rewrite dom_insert, elem_of_union, elem_of_singleton.
    intros [[= -> ->]|Hin]; [by eapply list_elem_of_fmap_2, list_elem_of_lookup_2|by eapply wf_timeouts].
  - rewrite dom_insert_L. unfold waits. cbn. set_solver.
Qed.

(** Sending to the addressees among the nodes [l], which start at index [length p]. *)
Lemma send_from_Ok p l sel msg r t pc e pc' e' :
  connection_wf pc -> pc_nodes pc = p ++ l ->
  foldlM (fun pc idx =>
    node ← lift (unwrap (pc_nodes pc !! idx));
    if is_addressee sel node then _send_msg_to_one_node pc idx r msg t else mret pc)
    (seq (length p) (length l)) pc e = (Ok pc', e') ->
  sent_from r ((fun n => (n, msg)) <$> filter (is_addressee sel) l) pc pc' e e' /\ resend pc' = resend pc.
Proof.
  revert p pc e. induction l as [|n l IH]; intros p pc e Hwf Hn Hf; cbn in Hf.
  { inv_run. split; [apply sent_from_nil|done]. }
  apply M_bind_Ok in Hf as (pc1 & e1 & Hs & Hf).
  apply M_bind_Ok in Hs as (n' & e0 & Hn' & Hs). rewrite Hn, lookup_app_r, Nat.sub_diag in Hn' by lia.
  cbn in Hn'. inv_run.
  assert (sent_from r (if is_addressee sel n' then [(n', msg)] else []) pc pc1 e0 e1 /\ resend pc1 = resend pc) as [H1 Hr].
  { destruct (is_addressee sel n').
    - apply send_one_Ok in Hs as (m & Hm & Hs); [|done]. rewrite Hn, list_lookup_middle in Hm by done. by simplify_eq.
    - inv_run. split; [apply sent_from_nil|done]. }
  rewrite filter_cons. replace (S (length p)) with (length (p ++ [n'])) in Hf by (rewrite length_app; cbn; lia).
  eapply IH in Hf as [Hf Hr']; [|by eapply sf_wf|by rewrite (sf_nodes _ _ _ _ _ _ H1), Hn, <-app_assoc].
  split; [|congruence].
  pose proof (sent_from_app _ _ _ _ _ _ _ _ _ H1 Hf) as H2. by case_decide; destruct (is_addressee sel n').
Qed.

(** ** What an event asks a connection to send *)

Definition to_send (pc : PoolConnection) (ev : NetworkerEvent) : list (RemoteNode * string) :=
  match ev with
  | SendOneRequest msg _ _ => (fun n => (n, msg)) <$> take 1 (pc_nodes pc)
  | SendAllRequest msg _ _ sel => (fun n => (n, msg)) <$> filter (is_addressee sel) (pc_nodes pc)
  | Resend r _ =>
      match resend pc !! r with
      | Some (cnt, msg) =>
          match usize_add (E:=unit) cnt 1 with
          | Ok cnt => (fun n => (n, msg)) <$>
              option_list (pc_nodes pc !! N.to_nat (cnt mod N.of_nat (length (pc_nodes pc))))
          | _ => []
          end
      | None => []
      end
  | _ => []
  end.

Definition resend_after (pc : PoolConnection) (ev : NetworkerEvent) : gmap string (N * string) :=
  match ev with
  | SendOneRequest msg r _ => <[r := (0%N, msg)]> (resend pc)
  | Resend r _ =>
      match resend pc !! r with
      | Some (cnt, msg) =>
          match usize_add (E:=unit) cnt 1 with
          | Ok cnt => <[r := (cnt, msg)]> (resend pc)
          | _ => resend pc
          end
      | None => resend pc
      end
  | _ => resend pc
  end.

Definition request_of (ev : NetworkerEvent) : string :=
  match ev with
  | SendOneRequest _ r _ | SendAllRequest _ r _ _ | Resend r _ | ExtendTimeout r _ _ | CleanTimeout r _ => r
  | NodesStateUpdated _ | NetTimeout => ""
  end.

Lemma wf_set_resend m pc : connection_wf pc -> connection_wf (set_resend m pc).
Proof. intros []. by split. Qed.

Lemma wf_set_req_cnt n pc : connection_wf pc -> connection_wf (set_req_cnt n pc).
Proof. intros []. by split. Qed.

#[local] Hint Resolve wf_set_resend wf_set_req_cnt : core.

Lemma usize_add_any {E E'} a b c : usize_add (E:=E) a b = Ok c -> usize_add (E:=E') a b = Ok c.
Proof. unfold usize_add. by repeat case_match; intros [= ->]. Qed.

Lemma send_request_Ok pc ev e pc' e' :
  connection_wf pc -> send_request pc (Some ev) e = (Ok pc', e') ->
  sent_from (request_of ev) (to_send pc ev) pc pc' e e' /\ resend pc' = resend_after pc ev /\
  (match ev with SendOneRequest _ _ _ => pc_nodes pc <> [] | _ => True end).
Proof.
  intros Hwf Hs. destruct ev as [msg r t|msg r t sel|r t|ns|r a t|r a|]; cbn [send_request] in Hs.
  4-7: inv_run; split; [apply sent_from_nil|done].
  - inv_run. match goal with Hs : _send_msg_to_one_node _ _ _ _ _ _ = _ |- _ => apply send_one_Ok in Hs as (n & Hn & [] & Hr) end; [|by auto].
    cbn in *. rewrite Hr. destruct (pc_nodes pc) as [|n' l] eqn:Hl; [done|]. simplify_eq/=.
    split; [|done]. split; cbn; rewrite ?Hl; auto.
  - inv_run. apply (send_from_Ok []) in Hs as [[] Hr]; [|by auto|done]. split; [|done]. split; auto.
  - cbn. destruct (resend pc !! r) as [[cnt msg]|]; [|inv_run; split; [apply sent_from_nil|done]].
    inv_run. match goal with Hu : usize_add _ _ = Ok _ |- _ => rewrite (usize_add_any _ _ _ Hu) end.
    apply send_one_Ok in Hs as (n & Hn & [] & Hr); [|by auto]. cbn in *. rewrite Hn, Hr.
    split; [|done]. split; auto.
Qed.
End connection.

(** ** The networker *)
Section networker.
Context `{Machine} `{Rng}.

(** The nodes that the request [r] waits for. *)
Definition waiting (nw : ZMQNetworker) (r : string) : gset string :=
  match req_id_mappings nw !! r ≫= (fun idx => pool_connections nw !! idx) with
  | Some pc => set_map snd (filter (fun k => k.1 = r) (dom (timeouts pc)))
  | None => ∅
  end.

Lemma elem_of_waiting nw r a :
  a ∈ waiting nw r <-> exists idx pc, req_id_mappings nw !! r = Some idx /\
    pool_connections nw !! idx = Some pc /\ (r, a) ∈ dom (timeouts pc).
Proof.
  unfold waiting. destruct (req_id_mappings nw !! r) as [idx|]; cbn; [|set_solver].
  destruct (pool_connections nw !! idx) as [pc|] eqn:Hpc; [|set_solver].
  rewrite elem_of_map. setoid_rewrite elem_of_filter. split.
  - intros ([r' a'] & -> & <- & Hin). by exists idx, pc.
  - intros (? & ? & [= <-] & ? & ?). simplify_eq. by exists (r, a).
Qed.

Definition preferred (nw : ZMQNetworker) (l : list RemoteNode) : Prop :=
  StronglySorted (by_key (preference (preordered_nodes nw))) l.

(** Connections are well formed, ask the preferred nodes first, have numbers that were
    given out, and hold the timeouts of the requests that are mapped to them. *)
Definition networker_wf (nw : ZMQNetworker) (ids : N) : Prop := forall idx pc,
  pool_connections nw !! idx = Some pc ->
  connection_wf pc /\ preferred nw (pc_nodes pc) /\ (0 < idx <= Z.of_N ids)%Z /\
  (forall r a, (r, a) ∈ dom (timeouts pc) -> req_id_mappings nw !! r = Some idx).

Lemma networker_new_wf t limit preordered ids : networker_wf (networker_new t limit preordered) ids.
Proof. intros idx pc. cbn. by rewrite lookup_empty. Qed.

(** With well-formed connections, a timeout anywhere is one that is waited for. *)
Lemma waiting_intro nw ids idx pc r a :
  networker_wf nw ids -> pool_connections nw !! idx = Some pc -> (r, a) ∈ dom (timeouts pc) -> a ∈ waiting nw r.
Proof.
  intros Hwf Hpc Hin. apply elem_of_waiting. destruct (Hwf _ _ Hpc) as (_ & _ & _ & Hm).
  exists idx, pc. eauto.
Qed.

Lemma btree_iter_perm {A} (m : gmap Z A) : btree_iter m ≡ₚ map_to_list m.
Proof. apply merge_sort_Permutation. Qed.

Lemma elem_of_btree_iter {A} (m : gmap Z A) k v : (k, v) ∈ btree_iter m <-> m !! k = Some v.
Proof. by rewrite btree_iter_perm, elem_of_map_to_list. Qed.

Lemma same_nodes_spec l k : same_nodes l k = true <-> forall n, n ∈ l <-> n ∈ k.
Proof.
  unfold same_nodes. rewrite andb_true_iff, !forallb_forall. setoid_rewrite bool_decide_eq_true.
  setoid_rewrite <-list_elem_of_In. naive_solver.
Qed.

(** ** Environments *)

(** What the steps that send nothing leave as it is. *)
Definition still (e e' : NetEnv) : Prop := wire e' = wire e /\ ids_counter e' = ids_counter e.

Lemma still_refl e : still e e.
Proof. done. Qed.

Lemma still_trans e1 e2 e3 : still e1 e2 -> still e2 e3 -> still e1 e3.
Proof. unfold still. naive_solver congruence. Qed.

Lemma is_active_still pc e b e' : is_active pc e = (Ok b, e') -> still e e'.
Proof. unfold is_active, now. intros Hr. by inv_run. Qed.

Lemma is_orphaned_Ok pc e b e' :
  is_orphaned pc e = (Ok b, e') -> still e e' /\ (b = true -> timeouts pc = ∅).
Proof.
  unfold is_orphaned. intros (act & e1 & Ha%is_active_still & Hr)%M_bind_Ok. inv_run. split; [done|].
  unfold has_active_requests. rewrite andb_true_iff, negb_true_iff, negb_involutive.
  by intros [_ ?%bool_decide_eq_true].
Qed.

Lemma existing_connection_Ok nw e o e' :
  existing_connection nw e = (Ok o, e') -> still e e' /\
  forall idx, o = Some idx -> exists pc, pool_connections nw !! idx = Some pc /\
    (forall n, n ∈ pc_nodes pc <-> n ∈ nw_nodes nw) /\ (req_cnt pc < conn_limit nw)%N.
Proof.
  unfold existing_connection. destruct (last _) as [[idx pc]|] eqn:Hl; intros Hr; inv_run; [|done].
  match goal with Ha : is_active _ _ = _ |- _ => apply is_active_still in Ha end. split; [done|].
  intros idx'. case_match eqn:Hb; [|done]. intros [= <-].
  apply andb_prop in Hb as [[_ Hc%N.ltb_lt]%andb_prop Hs]. rewrite same_nodes_spec in Hs. exists pc. split_and!; try done.
  apply elem_of_btree_iter. by apply last_Some_elem_of in Hl.
Qed.

Lemma get_next_id_Ok e z e' :
  get_next_id e = (Ok z, e') -> (ids_counter e + 1 < 2 ^ 31)%N ->
  z = Z.of_N (ids_counter e + 1) /\ wire e' = wire e /\ ids_counter e' = (ids_counter e + 1)%N.
Proof.
  unfold get_next_id. intros [= Hz <-] Hlt. cbn.
  assert (ids_counter e + 1 < usize_modulus)%N as Hm.
  { eapply N.lt_le_trans; [exact Hlt|]. unfold usize_modulus. apply N.pow_le_mono_r; [lia|].
    destruct usize_bits_cases as [-> | ->]; lia. }
  rewrite usize_add_ok in Hz by done. injection Hz as <-. rewrite as_i32_small, N.mod_small by done. done.
Qed.

Lemma connection_new_Ok l t pre e pc e' :
  connection_new l t pre e = (Ok pc, e') ->
  pc_nodes pc ≡ₚ l /\ connection_wf pc /\ timeouts pc = ∅ /\ resend pc = ∅ /\ still e e' /\
  StronglySorted (by_key (preference pre)) (pc_nodes pc).
Proof.
  unfold connection_new, expect. intros Hr. inv_run.
  destruct (zmq_call _) as [[u| | |] e2] eqn:Hz; try done. apply zmq_call_env in Hz as [].
  unfold now, shuffled in *. simplify_eq/=. split_and!; try done.
  - destruct pre; [apply shuffle_perm|]. by rewrite sort_by_key_perm, shuffle_perm.
  - split; cbn; [by rewrite length_replicate| |by intros r a Hin%elem_of_dom_2].
    intros i s Hs. apply lookup_replicate in Hs as [? _]. done.
  - destruct pre as [|p pre]; [|apply sort_by_key_sorted].
    assert (forall l : list RemoteNode, StronglySorted (by_key (preference [])) l) as Hall; [|apply Hall].
    intros k. induction k; constructor; [done|]. apply Forall_forall. intros; unfold by_key, preference; cbn; lia.
Qed.

(** ** Sending *)

(** The connection [pc] of number [idx] serves the request [r]: the one it is mapped to,
    or for a new request one that goes to the current nodes. *)
Definition serves (nw : ZMQNetworker) (r : string) (idx : Z) (pc : PoolConnection) : Prop :=
  (req_id_mappings nw !! r = Some idx /\ pool_connections nw !! idx = Some pc) \/
  (req_id_mappings nw !! r = None /\ (forall n, n ∈ pc_nodes pc <-> n ∈ nw_nodes nw) /\
   (pool_connections nw !! idx = Some pc \/ pool_connections nw !! idx = None /\ timeouts pc = ∅)).

(** The message of [ev] went through a connection; otherwise the request is mapped to a
    connection that is gone, and nothing is sent. *)
Inductive sent_through (nw : ZMQNetworker) (ev : NetworkerEvent) (e : NetEnv) :
    ZMQNetworker -> list (RemoteNode * string) -> NetEnv -> Prop :=
| sent_lost idx e' :
    req_id_mappings nw !! request_of ev = Some idx -> pool_connections nw !! idx = None -> still e e' ->
    sent_through nw ev e (set_mappings (<[request_of ev := idx]> (req_id_mappings nw)) nw) [] e'
| sent_by idx pc pc' e1 e' :
    serves nw (request_of ev) idx pc -> connection_wf pc -> preferred nw (pc_nodes pc) ->
    (0 < idx <= Z.of_N (ids_counter e1))%Z -> (ids_counter e <= ids_counter e1 <= ids_counter e + 1)%N -> wire e1 = wire e ->
    sent_from (request_of ev) (to_send pc ev) pc pc' e1 e' -> resend pc' = resend_after pc ev ->
    (match ev with SendOneRequest _ _ _ => pc_nodes pc <> [] | _ => True end) ->
    sent_through nw ev e
      (set_mappings (<[request_of ev := idx]> (req_id_mappings nw))
        (set_connections (<[idx := pc']> (pool_connections nw)) nw)) (to_send pc ev) e'.

Lemma expect_Ok {A} (m : Env A) e a e' : expect m e = (Ok a, e') -> m e = (Ok a, e').
Proof. unfold expect. by destruct (m e) as [[]]. Qed.

Lemma process_send_Ok nw ev e nw' e' :
  networker_wf nw (ids_counter e) -> (ids_counter e + 1 < 2 ^ 31)%N ->
  process_send nw (Some ev) (request_of ev) e = (Ok nw', e') ->
  exists l, sent_through nw ev e nw' l e'.
Proof.
  intros Hwf Hlt Hp. unfold process_send in Hp. apply M_bind_Ok in Hp as (num & e1 & Hnum & Hp).
  assert (still e e1 /\ match num with
    | Some idx => req_id_mappings nw !! request_of ev = Some idx \/
        (req_id_mappings nw !! request_of ev = None /\ exists pc, pool_connections nw !! idx = Some pc /\
          forall n, n ∈ pc_nodes pc <-> n ∈ nw_nodes nw)
    | None => req_id_mappings nw !! request_of ev = None
    end) as [[Hw Hi] Hm].
  { destruct (req_id_mappings nw !! request_of ev) as [i|]; inv_run; [by split; [|left]|].
    apply existing_connection_Ok in Hnum as [Hs Ho]. split; [done|]. destruct num as [idx|]; [|done].
    destruct (Ho idx eq_refl) as (pc & ? & ? & _). right. eauto. }
  destruct num as [idx|].
  - apply M_bind_Ok in Hp as (nw1 & e2 & Hs & Hp).
    destruct (pool_connections nw !! idx) as [pc|] eqn:Hpc; inv_run.
    + match goal with Hs : expect _ _ = _ |- _ => apply expect_Ok in Hs; rename Hs into Hsend end.
      destruct (Hwf _ _ Hpc) as (Hc & Hpref & Hid & _). apply send_request_Ok in Hsend as (Hsend & Hr & Hne); [|done].
      eexists. cbn. eapply (sent_by _ _ _ idx pc x e1); try done; [|by rewrite Hi|rewrite Hi; lia].
      destruct Hm as [Hm|(Hm & pc' & Hpc' & Hn)]; [by left|right]. simplify_eq. auto.
    + exists []. destruct Hm as [Hm|(_ & pc & Hpc' & _)]; [|congruence]. by apply sent_lost.
  - apply M_bind_Ok in Hp as (id & e2 & Hid & Hp). apply get_next_id_Ok in Hid as (-> & Hw2 & Hi2); [|by rewrite Hi].
    apply M_bind_Ok in Hp as (pc & e3 & Hpc & Hp). apply connection_new_Ok in Hpc as (Hn & Hc & Ht & Hr & [Hw3 Hi3] & Hpref).
    apply M_bind_Ok in Hp as (pc' & e4 & Hsend%expect_Ok & Hp). inv_run.
    apply send_request_Ok in Hsend as (Hsend & Hres & Hne); [|done].
    eexists. eapply (sent_by _ _ _ _ pc pc' e3); try done; [|lia..|congruence].
    right. split; [done|]. split; [by intros n; rewrite Hn|]. right. split; [|done].
    destruct (pool_connections nw !! _) as [pc0|] eqn:Hf; [|done]. destruct (Hwf _ _ Hf) as (_ & _ & ? & _). lia.
Qed.

Lemma elem_of_waits r l r' a : (r', a) ∈ waits r l <-> r' = r /\ a ∈ name <$> l.
Proof.
  unfold waits. rewrite elem_of_list_to_set, !list_elem_of_fmap. naive_solver.
Qed.

(** The networker after a connection has sent: what it waits for, and that it is well formed. *)
Lemma sent_through_waiting nw ev e nw' l e' :
  networker_wf nw (ids_counter e) -> sent_through nw ev e nw' l e' ->
  wire e' = wire e ++ l /\ networker_wf nw' (ids_counter e') /\ (ids_counter e <= ids_counter e' <= ids_counter e + 1)%N /\
  forall r a, a ∈ waiting nw' r <-> a ∈ waiting nw r \/ r = request_of ev /\ a ∈ name <$> l.*1.
Proof.
  intros Hwf Hs. destruct Hs as [idx e' Hm Hn [Hw Hi]|idx pc pc' e1 e' Hsv Hc Hpref Hid Hle Hw [Hc' Hns Hdom Hw' Hi'] Hr _].
  { rewrite Hi. split_and!; [by rewrite app_nil_r|by rewrite insert_id|lia..|].
    intros r a. rewrite insert_id by done. cbn. set_solver. }
  assert (forall r a, (r, a) ∈ dom (timeouts pc) -> req_id_mappings nw !! r = Some idx /\ pool_connections nw !! idx = Some pc) as Hold.
  { intros r a Hin. destruct Hsv as [[? Hpc]|(_ & _ & [Hpc|[_ Ht]])]; [| |by rewrite Ht in Hin].
    all: split; [|done]; by eapply Hwf. }
  assert (forall r a, (r, a) ∈ dom (timeouts pc') <-> (r = request_of ev /\ a ∈ name <$> (to_send pc ev).*1) \/ (r, a) ∈ dom (timeouts pc)) as Hnew.
  { intros r a. by rewrite Hdom, elem_of_union, elem_of_waits. }
  rewrite Hi'. split_and!; [congruence| |lia..|].
  - intros i p. cbn. intros [[<- <-]|[Hne Hp]]%lookup_insert_Some.
    + split_and!; [auto|by rewrite Hns|lia..|]. intros r a [[-> _]|Hin]%Hnew; [by rewrite lookup_insert_eq|].
      apply lookup_insert_Some. destruct (decide (request_of ev = r)); [by left|right]. split; [done|]. by eapply Hold.
    + destruct (Hwf _ _ Hp) as (? & ? & ? & Hmap). split_and!; try done; [lia..|]. intros r a Hin%Hmap.
      rewrite lookup_insert_ne; [done|]. intros <-.
      destruct Hsv as [[? _]|[? _]]; congruence.
  - intros r a. rewrite !elem_of_waiting. cbn. split.
    + intros (i & p & Hm & [[<- <-]|[Hne Hp]]%lookup_insert_Some & Hin).
      * apply Hnew in Hin as [?|Hin]; [by right|left]. destruct (Hold _ _ Hin). eauto.
      * left. apply lookup_insert_Some in Hm as [[_ ?]|[_ Hm]]; [done|eauto].
    + intros [(i & p & Hm & Hp & Hin)|[-> Hin]].
      * destruct (decide (i = idx)) as [->|Hne].
        -- exists idx, pc'. rewrite lookup_insert_eq. split_and!; [|done|].
           ++ apply lookup_insert_Some. destruct (decide (request_of ev = r)); auto.
           ++ apply Hnew. right. destruct Hsv as [[_ ?]|(_ & _ & [?|[? _]])]; congruence.
        -- exists i, p. rewrite lookup_insert_ne, lookup_insert_ne; [done|congruence|].
           intros <-. destruct Hsv as [[? _]|[? _]]; congruence.
      * exists idx, pc'. rewrite !lookup_insert_eq. split_and!; [done..|]. apply Hnew. auto.
Qed.

(** ** Cleaning *)

(** The timeouts that an event takes away. *)
Definition cleaned (ev : NetworkerEvent) (r a : string) : Prop :=
  match ev with
  | CleanTimeout r' None => r = r'
  | CleanTimeout r' (Some a') => r = r' /\ a = a'
  | _ => False
  end.

(** The connections [cs] have a timeout for the request and the node. *)
Definition held (cs : gmap Z PoolConnection) (r a : string) : Prop :=
  exists idx pc, cs !! idx = Some pc /\ (r, a) ∈ dom (timeouts pc).

Lemma waiting_held nw ids r a : networker_wf nw ids -> a ∈ waiting nw r <-> held (pool_connections nw) r a.
Proof.
  intros Hwf. split.
  - intros (idx & pc & _ & Hpc & Hin)%elem_of_waiting. by exists idx, pc.
  - intros (idx & pc & Hpc & Hin). by eapply waiting_intro.
Qed.

(** [pc'] has no more timeouts than [pc]. *)
Definition shrunk (pc pc' : PoolConnection) : Prop :=
  pc_nodes pc' = pc_nodes pc /\ sockets pc' = sockets pc /\ dom (timeouts pc') ⊆ dom (timeouts pc).

Lemma shrunk_wf pc pc' : shrunk pc pc' -> connection_wf pc -> connection_wf pc'.
Proof. intros (Hn & Hs & Hd) [Hl Hk Ht]. split; rewrite ?Hn, ?Hs; [done..|]. intros r a Hin%Hd. by eapply Ht. Qed.

(** An event that only takes timeouts and connections away. *)
Lemma wf_shrink nw nw' ids :
  networker_wf nw ids -> preordered_nodes nw' = preordered_nodes nw ->
  (forall idx pc', pool_connections nw' !! idx = Some pc' -> exists pc, pool_connections nw !! idx = Some pc /\ shrunk pc pc') ->
  (forall r a, held (pool_connections nw') r a -> req_id_mappings nw' !! r = req_id_mappings nw !! r) ->
  networker_wf nw' ids.
Proof.
  intros Hwf Hpre Hc Hm idx pc' Hpc'. destruct (Hc _ _ Hpc') as (pc & Hpc & Hs).
  destruct (Hwf _ _ Hpc) as (Hw & Hpref & Hid & Hmap). split_and!; [by eapply shrunk_wf| |lia..|].
  - unfold preferred in *. destruct Hs as (-> & _). by rewrite Hpre.
  - intros r a Hin. rewrite (Hm r a) by by exists idx, pc'. eapply Hmap. by apply Hs.
Qed.

Lemma dom_clean_timeout pc r o r' a' :
  (r', a') ∈ dom (timeouts (clean_timeout pc r o)) <-> (r', a') ∈ dom (timeouts pc) /\ ~ cleaned (CleanTimeout r o) r' a'.
Proof.
  destruct o as [a|]; cbn.
  - rewrite dom_delete, elem_of_difference, elem_of_singleton. naive_solver.
  - rewrite !elem_of_dom. split.
    + intros [t [Ht Hne]%map_lookup_filter_Some]. split; [by exists t|]. exact Hne.
    + intros [[t Ht] Hne]. exists t. by apply map_lookup_filter_Some.
Qed.

Lemma clean_timeout_shrunk pc r o : shrunk pc (clean_timeout pc r o).
Proof.
  split_and!; [by destruct o..|]. intros [r' a'] Hin. by apply dom_clean_timeout in Hin as [].
Qed.

(** The connections after a cleaning. *)
Definition after_clean (nw : ZMQNetworker) (r : string) (o : option string) (cs : gmap Z PoolConnection) : Prop :=
  (forall idx pc', cs !! idx = Some pc' -> exists pc, pool_connections nw !! idx = Some pc /\ shrunk pc pc') /\
  (forall r' a', held cs r' a' <-> held (pool_connections nw) r' a' /\ ~ cleaned (CleanTimeout r o) r' a').

(** A request that is not mapped to a connection has no timeouts. *)
Lemma not_held nw ids r :
  networker_wf nw ids -> (forall idx, req_id_mappings nw !! r = Some idx -> pool_connections nw !! idx = None) ->
  forall a, ~ held (pool_connections nw) r a.
Proof.
  intros Hwf Hm a (idx & pc & Hpc & Hin). destruct (Hwf _ _ Hpc) as (_ & _ & _ & Hmap).
  specialize (Hm _ (Hmap _ _ Hin)). congruence.
Qed.

Lemma cleaned_request r o r' a' : cleaned (CleanTimeout r o) r' a' -> r' = r.
Proof. destruct o; cbn; naive_solver. Qed.

Lemma after_clean_none nw ids r o :
  networker_wf nw ids -> (forall idx, req_id_mappings nw !! r = Some idx -> pool_connections nw !! idx = None) ->
  after_clean nw r o (pool_connections nw).
Proof.
  intros Hwf Hm. split; [intros idx pc Hpc; exists pc; by split_and!|].
  intros r' a'. split; [|by intros []]. intros Hh. split; [done|].
  intros ->%cleaned_request. by eapply not_held.
Qed.

Lemma after_clean_some nw ids r o idx pc (b : bool) :
  networker_wf nw ids -> req_id_mappings nw !! r = Some idx -> pool_connections nw !! idx = Some pc ->
  (b = true -> timeouts (clean_timeout pc r o) = ∅) ->
  after_clean nw r o (if b then delete idx (pool_connections nw)
                      else <[idx := clean_timeout pc r o]> (pool_connections nw)).
Proof.
  intros Hwf Hm Hpc Hb.
  assert (forall i p r' a', pool_connections nw !! i = Some p -> (r', a') ∈ dom (timeouts p) -> i <> idx ->
    ~ cleaned (CleanTimeout r o) r' a') as Hother.
  { intros i p r' a' Hp Hin Hne ->%cleaned_request. destruct (Hwf _ _ Hp) as (_ & _ & _ & Hmap).
    specialize (Hmap _ _ Hin). congruence. }
  split.
  - intros i p Hp. destruct b; [apply lookup_delete_Some in Hp as [_ Hp]; exists p; by split_and!|].
    apply lookup_insert_Some in Hp as [[<- <-]|[_ Hp]]; [exists pc; split; [done|apply clean_timeout_shrunk]|].
    exists p. by split_and!.
  - intros r' a'. split.
    + intros (i & p & Hp & Hin). destruct (decide (i = idx)) as [->|Hne].
      * destruct b; [by rewrite lookup_delete_eq in Hp|]. rewrite lookup_insert_eq in Hp. injection Hp as <-.
        apply dom_clean_timeout in Hin as [Hin Hc]. split; [by exists idx, pc|done].
      * assert (pool_connections nw !! i = Some p) as Hp' by
          (destruct b; [by rewrite lookup_delete_ne in Hp|by rewrite lookup_insert_ne in Hp]).
        split; [by exists i, p|by eapply Hother].
    + intros [(i & p & Hp & Hin) Hc]. destruct (decide (i = idx)) as [->|Hne].
      * simplify_eq. assert ((r', a') ∈ dom (timeouts (clean_timeout pc r o))) as Hin' by by apply dom_clean_timeout.
        destruct b; [by rewrite Hb in Hin'|]. exists idx, (clean_timeout pc r o). by rewrite lookup_insert_eq.
      * exists i, p. split; [|done]. by destruct b; [rewrite lookup_delete_ne|rewrite lookup_insert_ne].
Qed.

Lemma process_clean_Ok nw ids r o e nw' e' :
  networker_wf nw ids -> process_clean nw r o e = (Ok nw', e') ->
  still e e' /\ networker_wf nw' ids /\
  forall r' a', a' ∈ waiting nw' r' <-> a' ∈ waiting nw r' /\ ~ cleaned (CleanTimeout r o) r' a'.
Proof.
  intros Hwf Hp. unfold process_clean in Hp. apply M_bind_Ok in Hp as (nw1 & e1 & H1 & Hp).
  assert (exists cs, nw1 = set_connections cs nw /\ after_clean nw r o cs /\ still e e1) as (cs & -> & [Hcs Hh] & Hs).
  { destruct (req_id_mappings nw !! r) as [idx|] eqn:Hm.
    - destruct (pool_connections nw !! idx) as [pc|] eqn:Hpc.
      + apply M_bind_Ok in H1 as (b & e2 & [Hs Hb]%is_orphaned_Ok & H1). inv_run. eexists. split; [done|].
        split; [|done]. by eapply after_clean_some.
      + inv_run. exists (pool_connections nw1). split; [by destruct nw1|]. split; [|done].
        eapply after_clean_none; [done|]. intros i Hi. congruence.
    - inv_run. exists (pool_connections nw1). split; [by destruct nw1|]. split; [|done].
      eapply after_clean_none; [done|]. intros i Hi. congruence. }
  cbv [mret StateM_ret] in Hp. injection Hp as Hnw <-. split; [done|].
  assert (pool_connections nw' = cs /\ preordered_nodes nw' = preordered_nodes nw /\
    (forall r', r' <> r \/ o <> None -> req_id_mappings nw' !! r' = req_id_mappings nw !! r')) as (Hcs' & Hpre & Hmap).
  { subst nw'. destruct o; cbn; [done|]. split_and!; [done..|]. intros r' [Hne|]; [|done]. by rewrite lookup_delete_ne. }
  assert (networker_wf nw' ids) as Hwf'.
  { eapply wf_shrink; [exact Hwf|done|by rewrite Hcs'|]. intros r' a'. rewrite Hcs', Hh. intros [_ Hc]. apply Hmap.
    destruct o as [a|]; [by right|left; exact Hc]. }
  split; [done|]. intros r' a'. by rewrite (waiting_held nw' ids), (waiting_held nw ids), Hcs' by done.
Qed.

(** ** The other events *)

Lemma lookup_foldr_delete {A} (l : list Z) (m : gmap Z A) k v :
  foldr delete m l !! k = Some v <-> k ∉ l /\ m !! k = Some v.
Proof.
  induction l as [|i l IH]; cbn; [set_solver|].
  rewrite lookup_delete_Some, IH, not_elem_of_cons. naive_solver.
Qed.

(** The connections that are found to be orphaned have no timeouts. *)
Lemma orphans_Ok (cs : list (Z * PoolConnection)) l0 e l e' :
  foldlM (fun l (kv : Z * PoolConnection) =>
    orphaned ← is_orphaned kv.2;
    mret (if (orphaned : bool) then l ++ [kv.1] else l)) cs l0 e = (Ok l, e') ->
  still e e' /\ forall idx, idx ∈ l -> idx ∈ l0 \/ exists pc, (idx, pc) ∈ cs /\ timeouts pc = ∅.
Proof.
  revert l0 e. induction cs as [|[i pc] cs IH]; intros l0 e Hf; cbn in Hf; [inv_run; split; [done|]; by left|].
  apply M_bind_Ok in Hf as (l1 & e1 & Hs & [Hs' Hin]%IH). apply M_bind_Ok in Hs as (b & e2 & [Hs Hb]%is_orphaned_Ok & Hl).
  inv_run. split; [by eapply still_trans|]. intros idx [Hx|(pc' & Hx & Ht)]%Hin; [|right; exists pc'; split; [by right|done]].
  destruct b; [|by left]. apply elem_of_app in Hx as [Hx| ->%list_elem_of_singleton]; [by left|].
  right. exists pc. split; [by left|by apply Hb].
Qed.

Lemma process_timeout_Ok nw ids e nw' e' :
  networker_wf nw ids -> process_timeout nw e = (Ok nw', e') ->
  still e e' /\ networker_wf nw' ids /\ forall r a, a ∈ waiting nw' r <-> a ∈ waiting nw r.
Proof.
  intros Hwf (l & e1 & [Hs Hl]%orphans_Ok & Hp)%M_bind_Ok. inv_run. split; [done|].
  assert (forall r a, held (pool_connections nw) r a -> held (foldr delete (pool_connections nw) l) r a) as Hh.
  { intros r a (i & pc & Hpc & Hin). exists i, pc. split; [|done]. apply lookup_foldr_delete. split; [|done].
    intros [[]%not_elem_of_nil|(pc' & Hpc'%elem_of_btree_iter & Ht)]%Hl. simplify_eq. by rewrite Ht in Hin. }
  assert (networker_wf (set_connections (foldr delete (pool_connections nw) l) nw) ids) as Hwf'.
  { eapply wf_shrink; [exact Hwf|done| |done]. intros idx pc [_ Hpc]%lookup_foldr_delete.
    exists pc. by split_and!. }
  split; [done|]. intros r a. rewrite (waiting_held _ ids r a Hwf'), (waiting_held _ ids r a Hwf). cbn.
  split; [|apply Hh]. intros (i & pc & [_ Hpc]%lookup_foldr_delete & Hin). by exists i, pc.
Qed.

Lemma process_extend_Ok nw ids r a t e nw' e' :
  networker_wf nw ids -> process_extend nw r a t e = (Ok nw', e') ->
  still e e' /\ networker_wf nw' ids /\ forall r' a', a' ∈ waiting nw' r' <-> a' ∈ waiting nw r'.
Proof.
  unfold process_extend. intros Hwf Hp.
  destruct (req_id_mappings nw !! r) as [idx|]; [|by inv_run].
  destruct (pool_connections nw !! idx) as [pc|] eqn:Hpc; [|by inv_run].
  apply M_bind_Ok in Hp as (pc' & e1 & He & Hp). inv_run.
  assert (shrunk pc pc' /\ dom (timeouts pc') = dom (timeouts pc) /\ still e e') as (Hsh & Hd & Hs).
  { unfold extend_timeout, now in He. destruct (timeouts pc !! (r, a)) as [t0|] eqn:Ht; inv_run; [|by split_and!].
    simplify_eq/=. assert (dom (<[(r, a):=(clock e (clock_reads e) + x)%Z]> (timeouts pc)) = dom (timeouts pc)) as Hd.
    { rewrite dom_insert_L. apply elem_of_dom_2 in Ht. set_solver. }
    split_and!; try done. split_and!; cbn; try done. by rewrite Hd. }
  split; [done|].
  assert (forall i p, <[idx:=pc']> (pool_connections nw) !! i = Some p ->
    exists p0, pool_connections nw !! i = Some p0 /\ shrunk p0 p) as Hback.
  { intros i p [[<- <-]|[_ Hp]]%lookup_insert_Some; [by exists pc|]. exists p. by split_and!. }
  assert (networker_wf (set_connections (<[idx:=pc']> (pool_connections nw)) nw) ids) as Hwf'.
  { eapply wf_shrink; [exact Hwf|done|exact Hback|done]. }
  split; [done|]. intros r' a'. rewrite (waiting_held _ ids r' a' Hwf'), (waiting_held _ ids r' a' Hwf). cbn. split.
  - intros (i & p & (p0 & Hp0 & _ & _ & Hsub)%Hback & Hin). exists i, p0. auto.
  - intros (i & p & Hp & Hin). destruct (decide (i = idx)) as [->|Hne].
    + simplify_eq. exists idx, pc'. by rewrite lookup_insert_eq, Hd.
    + exists i, p. by rewrite lookup_insert_ne.
Qed.

(** ** The networker as a map from requests to the nodes that they wait for *)

(** The messages that [ev] asks to send. *)
Definition asked (nw : ZMQNetworker) (ev : NetworkerEvent) (l : list (RemoteNode * string)) : Prop :=
  match ev with
  | SendAllRequest msg r _ sel => req_id_mappings nw !! r = None ->
      exists order, (forall n, n ∈ order <-> n ∈ nw_nodes nw) /\ preferred nw order /\
        l = (fun n => (n, msg)) <$> filter (is_addressee sel) order
  | SendOneRequest msg r _ => req_id_mappings nw !! r = None ->
      exists order, (forall n, n ∈ order <-> n ∈ nw_nodes nw) /\ preferred nw order /\
        l = (fun n => (n, msg)) <$> take 1 order
  | Resend _ _ => length l <= 1
  | _ => l = []
  end.

Lemma sent_through_asked nw ev e nw' l e' : sent_through nw ev e nw' l e' -> asked nw ev l.
Proof.
  intros [idx e1 Hm _ _|idx pc pc' e1 e2 Hsv _ Hpref _ _ _ _ _ _].
  - destruct ev; cbn in *; try done; try congruence. lia.
  - destruct ev as [msg r t|msg r t sel|r t| | | |]; cbn in *; try done.
    1-2: intros Hnone; destruct Hsv as [[? _]|(_ & Hn & _)]; [congruence|by exists (pc_nodes pc)].
    destruct (resend pc !! r) as [[cnt msg]|]; [|cbn; lia]. destruct (usize_add _ _); cbn; try lia.
    rewrite length_fmap. destruct (_ !! _); cbn; lia.
Qed.

Lemma process_event_Ok nw ev e nw' e' :
  networker_wf nw (ids_counter e) -> (ids_counter e + 1 < 2 ^ 31)%N ->
  process_event nw (Some ev) e = (Ok nw', e') ->
  networker_wf nw' (ids_counter e') /\ (ids_counter e <= ids_counter e' <= ids_counter e + 1)%N /\
  exists l, wire e' = wire e ++ l /\ asked nw ev l /\
    forall r a, a ∈ waiting nw' r <->
      (a ∈ waiting nw r /\ ~ cleaned ev r a) \/ (r = request_of ev /\ a ∈ name <$> l.*1).
Proof.
  intros Hwf Hlt Hp.
  assert (forall ev, cleaned ev = (fun _ _ => False) -> process_send nw (Some ev) (request_of ev) e = (Ok nw', e') ->
    networker_wf nw' (ids_counter e') /\ (ids_counter e <= ids_counter e' <= ids_counter e + 1)%N /\
    exists l, wire e' = wire e ++ l /\ asked nw ev l /\
    forall r a, a ∈ waiting nw' r <->
      (a ∈ waiting nw r /\ ~ cleaned ev r a) \/ (r = request_of ev /\ a ∈ name <$> l.*1)) as Hsend.
  { intros ev0 Hc (l & Hl)%process_send_Ok; [|done..]. pose proof (sent_through_asked _ _ _ _ _ _ Hl).
    apply sent_through_waiting in Hl as (? & ? & ? & Hw); [|done]. split; [done|]. split; [done|]. exists l. split_and!; [done..|].
    intros r a. rewrite Hw, Hc. tauto. }
  assert (forall ev, still e e' -> networker_wf nw' (ids_counter e) -> asked nw ev [] ->
    (forall r a, a ∈ waiting nw' r <-> a ∈ waiting nw r /\ ~ cleaned ev r a) ->
    networker_wf nw' (ids_counter e') /\ (ids_counter e <= ids_counter e' <= ids_counter e + 1)%N /\
    exists l, wire e' = wire e ++ l /\ asked nw ev l /\
    forall r a, a ∈ waiting nw' r <->
      (a ∈ waiting nw r /\ ~ cleaned ev r a) \/ (r = request_of ev /\ a ∈ name <$> l.*1)) as Hquiet.
  { intros ev0 [Hw ->] Hwf' Hask Hwait. split; [done|]. split; [lia|]. exists []. rewrite app_nil_r. split_and!; try done.
    intros r a. rewrite Hwait. set_solver. }
  destruct ev as [msg r t|msg r t sel|r t|ns|r a t|r o|]; cbn [process_event] in Hp; [by apply Hsend..| | | |].
  - inv_run. apply Hquiet; try done. intros r a. unfold waiting. cbn. tauto.
  - eapply process_extend_Ok in Hp as (? & ? & Hw); [|done]. apply Hquiet; try done. intros. rewrite Hw. cbn. tauto.
  - eapply process_clean_Ok in Hp as (? & ? & Hw); [|done]. by apply Hquiet.
  - eapply process_timeout_Ok in Hp as (? & ? & Hw); [|done]. apply Hquiet; try done. intros. rewrite Hw. cbn. tauto.
Qed.

(** ** Runs *)

Definition run_net (nw : ZMQNetworker) (evs : list NetworkerEvent) : Env ZMQNetworker :=
  foldlM (fun nw ev => process_event nw (Some ev)) evs nw.

Lemma run_net_wf nw evs e nw' e' :
  networker_wf nw (ids_counter e) -> (ids_counter e + N.of_nat (length evs) < 2 ^ 31)%N ->
  run_net nw evs e = (Ok nw', e') -> networker_wf nw' (ids_counter e').
Proof.
  revert nw e. induction evs as [|ev evs IH]; intros nw e Hwf Hlt Hrun; cbn in Hrun; [by inv_run|].
  apply M_bind_Ok in Hrun as (nw1 & e1 & Hp & Hrun). cbn [length] in Hlt.
  apply process_event_Ok in Hp as (Hwf1 & Hle & _); [|done|lia]. apply (IH nw1 e1); [done|lia|exact Hrun].
Qed.

(** A request that is mapped to a connection. *)
Lemma process_send_mapped nw ev idx pc e nw' e' :
  req_id_mappings nw !! request_of ev = Some idx -> pool_connections nw !! idx = Some pc -> connection_wf pc ->
  process_send nw (Some ev) (request_of ev) e = (Ok nw', e') ->
  exists pc', sent_from (request_of ev) (to_send pc ev) pc pc' e e' /\ resend pc' = resend_after pc ev /\
    nw' = set_connections (<[idx := pc']> (pool_connections nw)) nw.
Proof.
  intros Hm Hpc Hc Hp. unfold process_send in Hp. rewrite Hm in Hp. inv_run. rewrite Hpc in *. inv_run.
  match goal with Hs : expect _ _ = _ |- _ => apply expect_Ok, send_request_Ok in Hs as (Hs & Hr & _); [|done] end.
  eexists. split; [done|]. split; [done|]. unfold set_mappings. cbn. by rewrite insert_id.
Qed.

Lemma resend_turns order msg r ts nw idx pc k e nw' e' :
  req_id_mappings nw !! r = Some idx -> pool_connections nw !! idx = Some pc -> connection_wf pc ->
  pc_nodes pc = order -> order <> [] -> resend pc !! r = Some (N.of_nat k, msg) ->
  (N.of_nat (k + length ts) < usize_modulus)%N ->
  run_net nw (Resend r <$> ts) e = (Ok nw', e') ->
  exists l, wire e' = wire e ++ l /\ length l = length ts /\
    forall i, i < length ts -> l !! i = (fun n => (n, msg)) <$> order !! ((S k + i) mod length order).
Proof.
  intros Hm Hpc Hc Ho Hne Hr Hlt. revert nw pc k e Hm Hpc Hc Ho Hr Hlt.
  induction ts as [|t ts IH]; intros nw pc k e Hm Hpc Hc Ho Hr Hlt Hrun; cbn in Hrun.
  { inv_run. exists []. rewrite app_nil_r. split_and!; [done..|]. cbn. lia. }
  apply M_bind_Ok in Hrun as (nw1 & e1 & Hs & Hrun).
  apply (process_send_mapped nw (Resend r t) idx pc) in Hs as (pc1 & [Hc1 Hn1 _ Hw1 _] & Hr1 & ->); [|done..].
  cbn [length] in Hlt.
  assert (usize_add (E:=unit) (N.of_nat k) 1 = Ok (N.of_nat (S k))) as Hadd by (rewrite usize_add_ok by lia; f_equal; lia).
  cbn in Hw1, Hr1. rewrite Hr, Hadd in Hw1, Hr1. rewrite Ho in Hw1.
  assert (length order <> 0) as Hl by by destruct order.
  rewrite <-Nat2N.inj_mod, Nat2N.id in Hw1.
  destruct (lookup_lt_is_Some_2 order (S k mod length order)) as [n Hn]; [by apply Nat.mod_upper_bound|].
  rewrite Hn in Hw1. cbn in Hw1.
  eapply (IH _ pc1 (S k)) in Hrun as (l & Hw & Hlen & Hlk).
  - exists ((n, msg) :: l). rewrite Hw, Hw1, <-app_assoc. split_and!; [done|cbn; by rewrite Hlen|].
    intros [|i] Hi; cbn [lookup list_lookup]; [by rewrite Nat.add_0_r, Hn|].
    cbn in Hi. rewrite Hlk by lia. by rewrite <-Nat.add_succ_comm.
  - done.
  - cbn. by rewrite lookup_insert_eq.
  - auto.
  - by rewrite Hn1.
  - rewrite Hr1. by rewrite lookup_insert_eq.
  - cbn. lia.
Qed.

(** requests to one node at a time visit the nodes in turn.  A new request that is
    sent to one node and then sent again some number of times goes to the nodes of its
    connection one after the other, the preferred nodes first and all of them before any
    is asked again, and it is the same message every time. *)
Theorem resend_round_robin (nw : ZMQNetworker) (msg r : string) (t : Z) (ts : list Z) (e : NetEnv)
    (nw' : ZMQNetworker) (e' : NetEnv) :
  networker_wf nw (ids_counter e) -> (ids_counter e + 1 < 2 ^ 31)%N -> req_id_mappings nw !! r = None ->
  (N.of_nat (length ts) < usize_modulus)%N ->
  run_net nw (SendOneRequest msg r t :: (Resend r <$> ts)) e = (Ok nw', e') ->
  exists order l, (forall n, n ∈ order <-> n ∈ nw_nodes nw) /\ preferred nw order /\
    wire e' = wire e ++ l /\ length l = S (length ts) /\
    forall i, i <= length ts -> l !! i = (fun n => (n, msg)) <$> order !! (i mod length order).
Proof.
  intros Hwf Hlt Hm Hts (nw1 & e1 & Hs & Hrun)%M_bind_Ok.
  apply (process_send_Ok nw (SendOneRequest msg r t)) in Hs as (l & Hs); [|done..].
  destruct Hs as [idx e1 Hm' _ _|idx pc pc' e0 e1 Hsv Hc Hpref _ _ Hw0 [Hc' Hn' _ Hw' _] Hr Hne]; [cbn in *; congruence|].
  destruct Hsv as [[? _]|(_ & Hn & _)]; [cbn in *; congruence|].
  apply (resend_turns (pc_nodes pc) msg r ts _ idx pc' 0) in Hrun as (l' & Hw & Hlen & Hlk); try done.
  - exists (pc_nodes pc), (to_send pc (SendOneRequest msg r t) ++ l').
    destruct (pc_nodes pc) as [|n ns] eqn:Hns; [done|]. rewrite <-Hns in *.
    assert (to_send pc (SendOneRequest msg r t) = [(n, msg)]) as Hone by (cbn; by rewrite Hns).
    rewrite Hone in *. split_and!; [done..|by rewrite Hw, Hw', Hw0, <-app_assoc|cbn; by rewrite Hlen|].
    intros [|i] Hi; [|by apply Hlk; lia]. by rewrite Nat.Div0.mod_0_l, Hns.
  - cbn. by rewrite lookup_insert_eq.
  - cbn. by rewrite lookup_insert_eq.
  - by apply Hc'.
  - rewrite Hr. cbn. by rewrite lookup_insert_eq.
Qed.

End networker.

(** ** Timeouts *)
Section timeouts.
Context `{Machine} `{Rng} `{HashOrder}.

Lemma min_by_spec {A} (f : A -> Z) l :
  match min_by f l with
  | Some b => b ∈ l /\ forall x, x ∈ l -> (f b <= f x)%Z
  | None => l = []
  end.
Proof.
  unfold min_by. induction l as [|x l IH] using rev_ind; [done|].
  rewrite foldl_app. cbn. destruct (foldl _ _ l) as [b|].
  - destruct IH as [Hb Hmin].
    destruct (Z.ltb_spec (f x) (f b)); setoid_rewrite elem_of_app; setoid_rewrite list_elem_of_singleton.
    + split; [by right|]. intros y [Hy| ->]; [|lia]. specialize (Hmin y Hy). lia.
    + split; [by left|]. intros y [Hy| ->]; [by apply Hmin|lia].
  - subst. split; [set_solver|]. intros y Hy%list_elem_of_singleton. by subst.
Qed.

(** A loop that reads the clock once for each element, while the clock stands still. *)
Lemma readings_Ok {A B} (g : A -> Z -> B) T (l : list A) acc e r e' :
  (forall i, clock e i = T) ->
  foldlM (fun acc x => time ← now; mret (acc ++ [g x time])) l acc e = (Ok r, e') ->
  r = acc ++ ((fun x => g x T) <$> l) /\ clock e' = clock e.
Proof.
  intros HT. revert acc e HT. induction l as [|x l IH]; intros acc e HT Hf; cbn in Hf.
  { inv_run. by rewrite app_nil_r. }
  unfold now in Hf. cbn in Hf. apply IH in Hf as [-> Hc]; [|done]. rewrite HT, <-app_assoc. done.
Qed.

(** The result [kt] is the least of the remaining times of [pc]. *)
Definition announces (T : Z) (pc : PoolConnection) (kt : (string * string) * Z) : Prop :=
  (forall k d, timeouts pc !! k = Some d -> (kt.2 <= num_milliseconds (d - T))%Z) /\
  (kt.1 = ("", "")%string \/ exists d, timeouts pc !! kt.1 = Some d /\ kt.2 = num_milliseconds (d - T)).

Lemma connection_timeout_Ok T pc e kt e' :
  (forall i, clock e i = T) -> connection_timeout pc e = (Ok kt, e') -> announces T pc kt /\ clock e' = clock e.
Proof.
  intros HT (rests & e1 & [-> Hc]%(readings_Ok (fun kv time => (kv.1, num_milliseconds (kv.2 - time))) T) & Hr)%M_bind_Ok; [|done].
  pose proof (min_by_spec snd ([] ++ ((fun kv => (kv.1, num_milliseconds (kv.2 - T))) <$> hash_iter (timeouts pc)))) as Hmin.
  cbn [app] in *. destruct (min_by _ _) as [b|].
  - inv_run. split; [|done]. destruct Hmin as [([k d] & -> & Hin%elem_of_hash_iter)%list_elem_of_fmap Hmin]. split.
    + intros k' d' Hd. apply (Hmin (k', num_milliseconds (d' - T))). apply list_elem_of_fmap.
      exists (k', d'). split; [done|]. by apply elem_of_hash_iter.
    + right. by exists d.
  - apply fmap_nil_inv in Hmin. unfold now in Hr. inv_run. simplify_eq/=. split; [|done]. split; [|by left].
    intros k d Hd%elem_of_hash_iter. rewrite Hmin in Hd. by apply not_elem_of_nil in Hd.
Qed.

Lemma timeouts_Ok T (cs : list (Z * PoolConnection)) acc e r e' :
  (forall i, clock e i = T) ->
  foldlM (fun l (kv : Z * PoolConnection) => t ← connection_timeout kv.2; mret (l ++ [t])) cs acc e = (Ok r, e') ->
  exists l, r = acc ++ l /\ Forall2 (fun kv kt => announces T kv.2 kt) cs l.
Proof.
  intros HT. revert acc e HT. induction cs as [|[i pc] cs IH]; intros acc e HT Hf; cbn in Hf.
  { inv_run. exists []. by rewrite app_nil_r. }
  apply M_bind_Ok in Hf as (acc1 & e1 & Hs & Hf). apply M_bind_Ok in Hs as (kt & e2 & [Ha Hc]%(connection_timeout_Ok T) & Hs); [|done].
  inv_run. apply IH in Hf as (l & -> & Hl); [|by rewrite Hc]. exists (kt :: l). rewrite <-app_assoc. split; [done|]. by constructor.
Qed.

(** the timeout that is announced is the earliest.  Read while the clock stands
    still, it is no later than any deadline of any connection; and unless it is the time
    without requests that a connection is kept for, it is the deadline of a message that
    is waited for, which the event then names. *)
Theorem announced_timeout (nw : ZMQNetworker) (ids : N) (T : Z) (e : NetEnv) (req_id node_alias : string) (t : Z) (e' : NetEnv) :
  networker_wf nw ids -> (forall i, clock e i = T) ->
  get_timeout nw e = (Ok ((req_id, node_alias), t), e') ->
  (forall idx pc k d, pool_connections nw !! idx = Some pc -> timeouts pc !! k = Some d ->
    (t <= num_milliseconds (d - T))%Z) /\
  ((req_id, node_alias) = ("", "")%string \/
   node_alias ∈ waiting nw req_id /\
   exists idx pc d, pool_connections nw !! idx = Some pc /\ timeouts pc !! (req_id, node_alias) = Some d /\
     t = num_milliseconds (d - T)).
Proof.
  intros Hwf HT (rests & e1 & (l & -> & Hl)%(timeouts_Ok T) & Hr)%M_bind_Ok; [|done]. inv_run.
  cbn [app] in *. pose proof (min_by_spec snd l) as Hmin. destruct (min_by snd l) as [kt|]; cbn in *; simplify_eq.
  - destruct Hmin as [Hin Hmin]. split.
    + intros idx pc k d Hpc%elem_of_btree_iter Hd.
      apply list_elem_of_lookup_1 in Hpc as [j Hj]. destruct (Forall2_lookup_l _ _ _ _ _ Hl Hj) as (kt & Hkt & Ha & _).
      apply list_elem_of_lookup_2, Hmin in Hkt. specialize (Ha _ _ Hd). cbn in *. lia.
    + apply list_elem_of_lookup_1 in Hin as [j Hj].
      destruct (Forall2_lookup_r _ _ _ _ _ Hl Hj) as ([idx pc] & Hpc & _ & [Hk|(d & Hd & Ht)]); [by left|right].
      apply list_elem_of_lookup_2, elem_of_btree_iter in Hpc. cbn in *. split; [|by exists idx, pc, d].
      eapply waiting_intro; [done..|]. by eapply elem_of_dom_2.
  - apply Forall2_nil_inv_r in Hl. split; [|by left].
    intros idx pc k d Hpc%elem_of_btree_iter. rewrite Hl in Hpc. by apply not_elem_of_nil in Hpc.
Qed.

(** ** Receiving *)

(** The event of an item of a socket. *)
Definition reply_event (s : ZSocket) (item : PollItem) : list PoolEvent :=
  if is_readable item then
    match received item with Some str => [NodeReply str (name s)] | None => [] end
  else [].

Lemma fetch_loop_Ok nodes socks p items :
  length socks = length nodes -> (forall i s, socks !! i = Some (Some s) -> nodes !! i = Some s) ->
  length items = length (omap id socks) ->
  fetch_loop nodes socks (p ++ items) (length p) = Ok (concat (zip_with reply_event (omap id socks) items)).
Proof.
  revert socks p items. induction nodes as [|n nodes IH]; intros [|[s|] socks] p items Hl Hs Hi; try done; cbn in *.
  - destruct items as [|it items]; [done|]. cbn in *.
    rewrite list_lookup_middle by done. cbn. specialize (Hs 0 s eq_refl) as Hn. injection Hn as ->.
    replace (p ++ it :: items) with ((p ++ [it]) ++ items) by by rewrite <-app_assoc.
    replace (S (length p)) with (length (p ++ [it])) by (rewrite length_app; cbn; lia).
    rewrite IH; [done|lia| |lia]. intros i s' Hi'. by apply (Hs (S i)).
  - apply IH; [lia| |done]. intros i s' Hi'. by apply (Hs (S i)).
Qed.

Lemma fetch_connections_Ok pcs p items rest :
  Forall connection_wf pcs -> length items = length (concat (connection_poll_items <$> pcs)) ->
  fetch_connections pcs (p ++ items ++ rest) (length p) =
    Ok (concat (zip_with reply_event (concat (connection_poll_items <$> pcs)) items)).
Proof.
  intros Hwf. revert p items. induction Hwf as [|pc pcs [Hl Hs _] _ IH]; intros p items Hi; cbn in *; [done|].
  rewrite length_app in Hi. set (k := length (connection_poll_items pc)) in *.
  rewrite <-(take_drop k items) at 1. unfold slice. rewrite !length_app, length_take, length_drop.
  destruct (Nat.leb_spec (length p + k) (length p + (k `min` length items + (length items - k) + length rest))); [|lia].
  cbn. rewrite drop_app_length, Nat.add_sub_swap, Nat.sub_diag by lia. cbn.
  rewrite take_app_le, take_app_le, take_take, Nat.min_id by (rewrite ?length_app, ?length_take; lia).
  unfold connection_fetch_events. rewrite Hl, Nat.eqb_refl. cbn.
  rewrite (fetch_loop_Ok _ _ [] (take k items)) by (try done; rewrite length_take; unfold connection_poll_items in *; lia).
  cbn. replace (p ++ items ++ rest) with ((p ++ take k items) ++ drop k items ++ rest)
    by by rewrite <-app_assoc, (app_assoc (take k items)), take_drop.
  replace (length p + k) with (length (p ++ take k items)) by (rewrite length_app, length_take; lia).
  rewrite IH by (rewrite length_drop; lia). cbn. f_equal.
  rewrite <-(take_drop k items) at 3. rewrite zip_with_app, concat_app; [done|].
  rewrite length_take. unfold k. lia.
Qed.

(** what is read is attributed to the node that sent it.  The walk along the
    connections, their nodes and their open sockets stays within the poll items, and the
    replies are those of the readable sockets, each under the name of the node that its
    socket is connected to. *)
Theorem fetch_events_faithful (nw : ZMQNetworker) (ids : N) (items rest : list PollItem) :
  networker_wf nw ids -> length items = length (get_poll_items nw) ->
  fetch_events nw (items ++ rest) = Ok (concat (zip_with reply_event (get_poll_items nw) items)).
Proof.
  intros Hwf Hl. unfold fetch_events, get_poll_items in *.
  assert ((fun kv => connection_poll_items kv.2) <$> btree_iter (pool_connections nw) =
    connection_poll_items <$> (snd <$> btree_iter (pool_connections nw))) as Heq by by rewrite <-list_fmap_compose.
  rewrite Heq in *.
  apply (fetch_connections_Ok _ [] items rest); [|done]. apply Forall_fmap, Forall_forall.
  intros [idx pc] Hpc%elem_of_btree_iter. by apply (Hwf idx pc).
Qed.
End timeouts.

(** ** Witnesses *)

Module ToyNet.
(** A generator that permutes nothing, a clock that stands still. *)
#[export] Instance rng : Rng := {| shuffle := fun _ l => l; shuffle_perm := fun _ l => Permutation_refl l |}.

Definition env : NetEnv := mk_env (fun _ => 0%Z) 0 0 [] 0 [].
Definition node (n : string) : RemoteNode := mk_remote_node n [] "tcp://" false.
Definition start : ZMQNetworker := set_nodes (node <$> ["a"; "b"; "c"]%string) (networker_new 5 5 ["b"%string]).
End ToyNet.

#[local] Existing Instances ToyPool.machine ToyPool.order ToyNet.rng.

(** A run that returns, by evaluation. *)
Lemma returned {E S A} (r : outcome E A * S) : is_ok r.1 = true -> exists a s, r = (Ok a, s).
Proof. destruct r as [[a|e| |] s]; try done. by exists a, s. Qed.

Lemma start_wf ids : networker_wf ToyNet.start ids.
Proof. intros idx pc. cbn. by rewrite lookup_empty. Qed.

(** The request "m" is sent to b, then to a and to c. *)
Lemma resend_round_robin_witness :
  exists nw' e', run_net ToyNet.start (SendOneRequest "m" "1" 20 :: (Resend "1" <$> [20; 20]%Z)) ToyNet.env = (Ok nw', e') /\
    exists order l, (forall n, n ∈ order <-> n ∈ nw_nodes ToyNet.start) /\ preferred ToyNet.start order /\
    wire e' = wire ToyNet.env ++ l /\ length l = 3 /\
    forall i, i <= 2 -> l !! i = (fun n => (n, "m"%string)) <$> order !! (i mod length order).
Proof.
  destruct (returned (run_net ToyNet.start (SendOneRequest "m" "1" 20 :: (Resend "1" <$> [20; 20]%Z)) ToyNet.env))
    as (nw' & e' & Hr); [vm_compute; reflexivity|].
  exists nw', e'. split; [exact Hr|].
  refine (resend_round_robin ToyNet.start "m" "1" 20 [20; 20]%Z ToyNet.env nw' e' (start_wf _) _ _ _ Hr);
    vm_compute; reflexivity.
Defined.


(** Two requests with different timeouts. *)
Definition two_requests : list NetworkerEvent := [SendAllRequest "m" "1" 20 None; SendOneRequest "k" "2" 7].

Lemma announced_timeout_witness :
  exists nw e e', run_net ToyNet.start two_requests ToyNet.env = (Ok nw, e) /\
    get_timeout nw e = (Ok (("2", "b")%string, 7000%Z), e') /\
    (forall idx pc k d, pool_connections nw !! idx = Some pc -> timeouts pc !! k = Some d ->
      (7000 <= num_milliseconds (d - 0))%Z) /\
    (("2", "b")%string = ("", "")%string \/ "b"%string ∈ waiting nw "2" /\
     exists idx pc d, pool_connections nw !! idx = Some pc /\ timeouts pc !! ("2", "b")%string = Some d /\
       7000%Z = num_milliseconds (d - 0)).
Proof.
  destruct (returned (run_net ToyNet.start two_requests ToyNet.env)) as (nw & e & Hr); [vm_compute; reflexivity|].
  assert (networker_wf nw (ids_counter e)) as Hwf
    by (refine (run_net_wf _ _ _ _ _ (start_wf _) _ Hr); vm_compute; reflexivity).
  assert (match run_net ToyNet.start two_requests ToyNet.env with
    | (Ok nw, e) => (get_timeout nw e).1 = Ok (("2", "b")%string, 7000%Z) /\ clock e = (fun _ => 0%Z)
    | _ => False end) as Hg by (vm_compute; split; reflexivity).
  rewrite Hr in Hg. destruct Hg as [Ht Hc].
  destruct (get_timeout nw e) as [r e'] eqn:Hg. cbn in Ht. subst r.
  exists nw, e, e'. split; [exact Hr|]. split; [exact Hg|].
  refine (announced_timeout nw (ids_counter e) 0 e "2" "b" 7000 e' Hwf _ Hg). intros i. rewrite Hc. reflexivity.
Defined.

Lemma fetch_events_faithful_witness :
  exists nw e, run_net ToyNet.start two_requests ToyNet.env = (Ok nw, e) /\
    fetch_events nw [mk_poll_item true (Some "x"%string); mk_poll_item false None; mk_poll_item true (Some "y"%string); mk_poll_item false None] =
      Ok (concat (zip_with reply_event (get_poll_items nw)
        [mk_poll_item true (Some "x"%string); mk_poll_item false None; mk_poll_item true (Some "y"%string)])).
Proof.
  destruct (returned (run_net ToyNet.start two_requests ToyNet.env)) as (nw & e & Hr); [vm_compute; reflexivity|].
  exists nw, e. split; [exact Hr|].
  refine (fetch_events_faithful nw (ids_counter e)
    [mk_poll_item true (Some "x"%string); mk_poll_item false None; mk_poll_item true (Some "y"%string)] [mk_poll_item false None] _ _).
  - refine (run_net_wf _ _ _ _ _ (start_wf _) _ Hr); vm_compute; reflexivity.
  - assert (match run_net ToyNet.start two_requests ToyNet.env with
      | (Ok nw, _) => length (get_poll_items nw) = 3 | _ => False end) as Hl by (vm_compute; reflexivity).
    rewrite Hr in Hl. symmetry. exact Hl.
Defined.
