(* ===== verification/Liveness.v ===== *)
(** * Liveness: a request that is not finished still waits for a node

    The request machine of [RequestHandler.v] and the networker of [Networker.v] together:
    while a request to all the nodes is open, the networker holds a timeout of one of its
    nodes, so that the machine is given another event: an answer or that timeout. *)

From S2P Require Import Prelude Errors Json Hashing MerkleTree PoolTypes World MerkleFactory Catchup Response Trie StateProof RequestHandler RequestFacts FullRequest Networker NetworkerFacts.

(** What the networker is sent. *)
Definition nets (es : list Effect) : list NetworkerEvent :=
  omap (fun e => match e with Net ev => Some ev | Sent _ => None end) es.

Lemma nets_app es es' : nets (es ++ es') = nets es ++ nets es'.
Proof. apply omap_app. Qed.

(** The nodes whose timeouts are cleaned by the events are in [P]. *)
Definition cleans (evs : list NetworkerEvent) (P : string -> Prop) : Prop :=
  forall ev r a, ev ∈ evs -> cleaned ev r a -> P a.

Lemma cleans_nil P : cleans [] P.
Proof. by intros ev r a ?%not_elem_of_nil. Qed.

Lemma cleans_app evs evs' P : cleans evs P -> cleans evs' P -> cleans (evs ++ evs') P.
Proof. intros H1 H2 ev r a [Hin|Hin]%elem_of_app; [by eapply H1|by eapply H2]. Qed.

Lemma cleans_mono evs (P Q : string -> Prop) : cleans evs P -> (forall a, P a -> Q a) -> cleans evs Q.
Proof. intros HP HPQ ev r a Hin Hc. by eapply HPQ, HP. Qed.

Lemma cleans_one r a (P : string -> Prop) : P a -> cleans [CleanTimeout r (Some a)] P.
Proof. intros HP ev r' a' ->%list_elem_of_singleton [-> ->]. done. Qed.

Lemma cleans_extend r a t P : cleans [ExtendTimeout r a t] P.
Proof. by intros ev r' a' ->%list_elem_of_singleton. Qed.

(** ** The networker keeps a node that is not cleaned *)
Section network.
Context `{Machine} `{Rng}.

Lemma run_net_waits nw evs e nw' e' r a :
  networker_wf nw (ids_counter e) -> (ids_counter e + N.of_nat (length evs) < 2 ^ 31)%N ->
  run_net nw evs e = (Ok nw', e') ->
  (forall ev, ev ∈ evs -> ~ cleaned ev r a) -> a ∈ waiting nw r -> a ∈ waiting nw' r.
Proof.
  revert nw e. induction evs as [|ev evs IH]; intros nw e Hwf Hlt Hrun Hev Ha; cbn in Hrun; [by inv_run|].
  apply M_bind_Ok in Hrun as (nw1 & e1 & Hp & Hrun). cbn [length] in Hlt.
  apply process_event_Ok in Hp as (Hwf1 & Hle & l & _ & _ & Hw); [|done|lia].
  eapply (IH nw1); [done|lia|exact Hrun|intros; apply Hev; by right|].
  apply Hw. left. split; [done|]. apply Hev. by left.
Qed.

(** A request to all the nodes that is new, and what follows it: the networker waits for
    each node of the pool that no event of the request cleans. *)
Lemma broadcast_waits nw msg r t more e nw' e' (ns : gset string) (P : string -> Prop) own :
  networker_wf nw (ids_counter e) -> (ids_counter e + N.of_nat (S (length more)) < 2 ^ 31)%N ->
  req_id_mappings nw !! r = None -> (forall a, a ∈ ns -> a ∈ name <$> nw_nodes nw) ->
  run_net nw (SendAllRequest msg r t None :: more) e = (Ok nw', e') ->
  (forall ev, ev ∈ more -> request_of ev = r -> ev ∈ own) -> cleans own P ->
  forall a, a ∈ ns -> ~ P a -> a ∈ waiting nw' r.
Proof.
  intros Hwf Hlt Hm Hns (nw1 & e1 & Hp & Hrun)%M_bind_Ok Hown Hcl a Ha HP.
  apply process_event_Ok in Hp as (Hwf1 & Hle & l & _ & Hask & Hw); [|done|lia].
  destruct (Hask Hm) as (order & Hord & _ & ->).
  apply (run_net_waits nw1 more e1 nw' e'); [done|lia|exact Hrun| |].
  - intros ev Hin Hc. apply HP. assert (request_of ev = r) as Hr.
    { destruct ev as [| | | | |r' [a'|]|]; cbn in Hc; try done. by destruct Hc as [-> _]. }
    eapply Hcl; [by apply Hown|exact Hc].
  - apply Hw. right. split; [done|]. rewrite <-!list_fmap_compose. apply Hns in Ha as (n & -> & Hn)%list_elem_of_fmap.
    apply list_elem_of_fmap. exists n. split; [done|]. apply list_elem_of_filter. split; [done|]. by apply Hord.
Qed.
End network.

(** ** Consensus requests *)
Section consensus.
Context `{Machine} `{Sha256} `{JsonText} `{PoolCodecs} `{Base58} `{HashOrder} `{Bls}
  `{ResponseCodec} `{!StateProofService}.

(** The nodes that voted or timed out. *)
Definition voters (s : ConsensusState) : gset string :=
  c_timeout_nodes s ∪ ⋃ (snd <$> map_to_list (c_replies s)).

Lemma elem_of_voters s a :
  a ∈ voters s <-> a ∈ c_timeout_nodes s \/ exists v S, c_replies s !! v = Some S /\ a ∈ S.
Proof.
  unfold voters. rewrite elem_of_union, elem_of_union_list. setoid_rewrite list_elem_of_fmap. split.
  - intros [Ha|(S & ([v S'] & -> & Hin%elem_of_map_to_list) & Ha)]; [by left|right; eauto].
  - intros [Ha|(v & S & Hin & Ha)]; [by left|right]. exists S. split; [|done]. exists (v, S).
    split; [done|]. by apply elem_of_map_to_list.
Qed.

(** No value has the votes of more than [fl] nodes. *)
Definition undecided (fl : N) (s : ConsensusState) : Prop :=
  forall v S, c_replies s !! v = Some S -> (N.of_nat (size S) <= fl)%N.

(** From [s] to the next state: voters stay, new ones are those that are cleaned, and no
    consensus is overlooked. *)
Definition counted (fl : N) (s : ConsensusState) (p : RequestState * option PoolEvent) (es : list Effect) : Prop :=
  forall s', p.1 = Consensus s' ->
    voters s ⊆ voters s' /\ cleans (nets es) (fun a => a ∈ voters s') /\
    (undecided fl s -> undecided fl s').

Lemma counted_stay fl s es o : cleans (nets es) (fun _ => False) -> counted fl s (Consensus s, o) es.
Proof. intros Hc s' [= <-]. split_and!; [done| |done]. by eapply cleans_mono. Qed.

Lemma counted_finish fl s es o : counted fl s (Finish, o) es.
Proof. done. Qed.

(** The check whether a consensus can be reached ends in one of two ways. *)
Lemma counted_check sm s s' req_id a (reachable : IndyResult bool) (o : option PoolEvent) :
  voters s ⊆ voters s' -> a ∈ voters s' -> (undecided (f sm) s -> undecided (f sm) s') ->
  outputs (b ← lift reachable;
    if (b : bool) then _ ← net (CleanTimeout req_id (Some a)); mret (Consensus s', o)
    else _ ← _send_replies (cmd_ids sm) (inl PoolTimeout); _ ← net (CleanTimeout req_id None); mret (Finish, o))
    (counted (f sm) s).
Proof.
  intros Hsub Ha Hu. eapply outputs_bind; [eapply outputs_lift|cbn beta; intros b ? [_ ->]]. destruct b.
  - outputs_step outputs_net; subst. apply outputs_ret. intros s1 [= <-]. split_and!; [done| |done].
    cbn. by apply cleans_one.
  - outputs_step outputs_send_replies; subst. outputs_step outputs_net; subst. by apply outputs_ret.
Qed.

Lemma consensus_reply_counted sm s raw a id :
  outputs (consensus_reply sm s raw a id) (counted (f sm) s).
Proof.
  unfold consensus_reply. destruct (_get_msg_result_without_state_proof raw) as [[r v]|e| |].
  2-4: cbv zeta; case_match;
    [outputs_step outputs_send_replies; subst; by apply outputs_ret|
     apply outputs_ret; intros s' [= <-]; split_and!; [done|apply cleans_nil|done]].
  cbv zeta. set (replies := add_vote v a (c_replies s)).
  destruct (N.ltb_spec (f sm) (N.of_nat (size (default ∅ (replies !! v))))) as [Hlt|Hge].
  { outputs_step outputs_send_replies; subst. outputs_step outputs_net; subst. by apply outputs_ret. }
  assert (replies !! v = Some ({[a]} ∪ default ∅ (c_replies s !! v))) as Hv by apply lookup_insert_eq.
  rewrite Hv in Hge. cbn in Hge. apply counted_check.
  - intros b. rewrite !elem_of_voters. cbn. intros [Hb|(v' & S & HS & Hb)]; [by left|right].
    destruct (decide (v' = v)) as [->|Hne].
    + exists v, ({[a]} ∪ default ∅ (c_replies s !! v)). split; [done|]. rewrite HS. set_solver.
    + exists v', S. split; [|done]. unfold replies, add_vote. by rewrite lookup_insert_ne.
  - apply elem_of_voters. right. exists v, ({[a]} ∪ default ∅ (c_replies s !! v)). split; [done|]. set_solver.
  - intros Hu v' S. cbn. unfold replies, add_vote. intros [[<- <-]|[_ HS]]%lookup_insert_Some; [done|by eapply Hu].
Qed.

Lemma handle_consensus_counted sm s e : outputs (handle_consensus sm s e) (counted (f sm) s).
Proof.
  destruct e; cbn [handle_consensus]; try apply consensus_reply_counted;
    try (apply outputs_ret; apply counted_stay, cleans_nil).
  - unfold consensus_timeout. apply counted_check; [|by apply elem_of_voters; left; set_solver|done].
    intros b. rewrite !elem_of_voters. cbn. set_solver.
  - outputs_step outputs_net; subst. apply outputs_ret, counted_stay, cleans_extend.
  - outputs_step outputs_send_replies; subst. by apply outputs_ret.
Qed.

(** ** Counting *)

Lemma size_union_le (S T : gset string) : size (S ∪ T) <= size S + size T.
Proof.
  rewrite size_union_alt. assert (size (T ∖ S) <= size T) by (apply subseteq_size; set_solver). lia.
Qed.

Lemma size_union_list (l : list (gset string)) :
  (N.of_nat (size (⋃ l)) <= sum_sizes ((fun S => N.of_nat (size S)) <$> l))%N.
Proof.
  induction l as [|S l IH]; [cbn; by rewrite size_empty|]. rewrite union_list_cons, fmap_cons, sum_sizes_cons.
  pose proof (size_union_le S (⋃ l)). lia.
Qed.

Lemma max_size_le fl (l : list N) : (forall x, x ∈ l -> (x <= fl)%N) -> (max_size l <= fl)%N.
Proof.
  unfold max_size. induction l as [|x l IH]; cbn; [lia|]. intros Hx.
  pose proof (Hx x ltac:(left)). assert (foldr N.max 0%N l <= fl)%N by (apply IH; intros; apply Hx; by right). lia.
Qed.

(** A set with more elements than another has one that the other has not. *)
Lemma larger_set (S T : gset string) : size T < size S -> exists a, a ∈ S /\ a ∉ T.
Proof.
  intros Hlt. destruct (set_choose_or_empty (S ∖ T)) as [[a Ha]|He]; [exists a; set_solver|].
  assert (size S <= size T); [|lia]. apply subseteq_size. intros a Ha. destruct (decide (a ∈ T)); set_solver.
Qed.

(** While a consensus can be reached and is not, some node was not heard. *)
Lemma unheard_node fl (ns : gset string) steps s :
  reachable_inv fl (N.of_nat (size ns)) steps s -> undecided fl s -> exists a, a ∈ ns /\ a ∉ voters s.
Proof.
  intros (_ & Hlt & _) Hu. apply larger_set. unfold voters, consensus_sizes in *.
  pose proof (size_union_le (c_timeout_nodes s) (⋃ (snd <$> map_to_list (c_replies s)))).
  pose proof (size_union_list (snd <$> map_to_list (c_replies s))) as Hsum.
  rewrite <-list_fmap_compose in Hsum. unfold compose in Hsum.
  assert (max_size ((fun kv => N.of_nat (size kv.2)) <$> map_to_list (c_replies s)) <= fl)%N as Hmax.
  { apply max_size_le. intros x ([v S] & -> & Hin%elem_of_map_to_list)%list_elem_of_fmap. by eapply Hu. }
  lia.
Qed.

(** ** Runs *)

Lemma run_consensus_waits es : forall sm s steps w sm' evs w',
  state sm = Consensus s -> reachable_inv (f sm) (nodes_cnt sm) steps s -> undecided (f sm) s ->
  (N.of_nat (steps + length es) + nodes_cnt sm < usize_modulus)%N ->
  (forall e raw a, e ∈ es -> answer_of e = Some (raw, a) -> is_Some (agreed_part raw)) ->
  run sm es w = (Ok (sm', evs), w') -> is_terminal sm' = false ->
  exists s' steps' out, effects w' = effects w ++ out /\ cleans (nets out) (fun a => a ∈ voters s') /\
    voters s ⊆ voters s' /\ reachable_inv (f sm) (nodes_cnt sm) steps' s' /\ undecided (f sm) s'.
Proof.
  induction es as [|e es IH]; intros sm s steps w sm' evs w' Hs Hi Hu Hn Hans Hrun Hterm; cbn [run] in Hrun.
  { inv_run. exists s, steps, []. rewrite app_nil_r. split_and!; try done. apply cleans_nil. }
  cbn [length] in Hn.
  destruct (handle_consensus_total sm s e steps w Hi) as ([s1 ev] & w1 & Hh & Hst); [lia| |].
  { intros raw a. apply Hans. left. }
  destruct (outputs_Ok _ _ _ _ _ (handle_consensus_counted sm s e) Hh) as (out1 & Ho1 & Hc).
  rewrite bind_run in Hrun. unfold handle_event in Hrun. rewrite bind_run in Hrun. unfold dispatch in Hrun.
  rewrite Hs, Hh in Hrun. cbn [mret StateM_ret] in Hrun. apply M_bind_Ok in Hrun as ([sm2 evs2] & w2 & Hrun & Hend).
  cbn beta iota in Hend. inv_run.
  destruct Hst as [He|(s' & He & Hi')]; cbn [fst] in He; subst s1.
  { rewrite run_finished in Hrun by done. inv_run. done. }
  destruct (Hc s' eq_refl) as (Hsub & Hcl & Hu').
  eapply (IH (set_state sm (Consensus s')) s' (S steps)) in Hrun as (s2 & steps2 & out2 & Ho2 & Hcl2 & Hsub2 & Hi2 & Hu2);
    [|done|done|by apply Hu'|cbn; unfold nodes_cnt in *; cbn; lia|by intros; eapply Hans; [right|]|done].
  exists s2, steps2, (out1 ++ out2). rewrite Ho2, Ho1, app_assoc, nets_app. split_and!; try done.
  - apply cleans_app; [|done]. eapply cleans_mono; [exact Hcl|]. set_solver.
  - set_solver.
Qed.

(** One answer of a full request. *)
Lemma handle_full_cleans sm s e :
  outputs (handle_full sm s e) (fun p es => forall s', p.1 = FullReq s' -> cleans (nets es) (fun a => a ∈ heard [e])).
Proof.
  assert (forall a raw id, full_answer e = Some (a, raw) ->
    outputs (full_reply sm s id a raw) (fun p es => forall s', p.1 = FullReq s' -> cleans (nets es) (fun a => a ∈ heard [e]))) as Hreply.
  { intros a raw id He. rewrite (heard_answer e a raw He). unfold full_reply.
    eapply outputs_bind; [eapply outputs_lift|cbn beta; intros accum ? [_ ->]]. cbv zeta.
    eapply outputs_bind; [eapply outputs_lift|cbn beta; intros m ? [_ ->]]. case_match.
    - outputs_step outputs_net; subst. outputs_step outputs_send_replies; subst. by apply outputs_ret.
    - outputs_step outputs_net; subst. apply outputs_ret. intros s' _. cbn. apply cleans_one. set_solver. }
  destruct e; cbn [handle_full]; try (by apply Hreply); try (apply outputs_ret; intros s' _; apply cleans_nil).
  outputs_step outputs_send_replies; subst. by apply outputs_ret.
Qed.

Lemma run_full_cleans es : forall sm s w sm' evs w',
  state sm = FullReq s -> run sm es w = (Ok (sm', evs), w') -> is_terminal sm' = false ->
  exists out, effects w' = effects w ++ out /\ cleans (nets out) (fun a => a ∈ heard es).
Proof.
  induction es as [|e es IH]; intros sm s w sm' evs w' Hs Hrun Hterm; cbn [run] in Hrun.
  { inv_run. exists []. rewrite app_nil_r. split; [done|apply cleans_nil]. }
  apply M_bind_Ok in Hrun as ([sm1 ev] & w1 & Hh & Hrun). apply M_bind_Ok in Hrun as ([sm2 evs2] & w2 & Hrun & Hend).
  cbn beta iota in Hend. inv_run. unfold handle_event in Hh. apply M_bind_Ok in Hh as ([s1 ev1] & w3 & Hh & Hend).
  unfold dispatch in Hh. rewrite Hs in Hh. cbn beta iota in Hend. inv_run.
  destruct (outputs_Ok _ _ _ _ _ (handle_full_cleans sm s e) Hh) as (out1 & Ho1 & Hc).
  assert (forall s', s1 = FullReq s' -> exists out, effects w' = effects w ++ out /\ cleans (nets out) (fun a => a ∈ heard (e :: es))) as Hgo.
  { intros s' ->. eapply (IH _ s') in Hrun as (out2 & Ho2 & Hc2); [|done|done].
    exists (out1 ++ out2). rewrite Ho2, Ho1, app_assoc, nets_app. split; [done|].
    apply cleans_app; (eapply cleans_mono; [first [by eapply Hc|exact Hc2]|]);
      intros a; change (e :: es) with ([e] ++ es); rewrite heard_app; set_solver. }
  assert ((exists s', s1 = FullReq s') \/ s1 = Finish) as [[s' Hs']| ->].
  { clear -Hh. unfold handle_full, full_reply in Hh.
    destruct e; cbv zeta in Hh; repeat (apply M_bind_Ok in Hh as (? & ? & _ & Hh)); repeat case_match;
      repeat (apply M_bind_Ok in Hh as (? & ? & _ & Hh)); inv_run; simplify_eq; eauto. }
  - by eapply Hgo.
  - rewrite run_finished in Hrun by done. inv_run. done.
Qed.

(** ** Properties *)

(** The networker [nw], given the start of the request [r] and then events of which those
    of [r] are among [own], waits for a node of [ns] that [r] is still to hear. *)
Definition still_waits `{Rng} (ns : gset string) (start : NetworkerEvent) (r : string) (own : list NetworkerEvent) : Prop :=
  forall nw e more nw' e',
    networker_wf nw (ids_counter e) -> (ids_counter e + N.of_nat (S (length more)) < 2 ^ 31)%N ->
    req_id_mappings nw !! r = None -> (forall a, a ∈ ns -> a ∈ name <$> nw_nodes nw) ->
    run_net nw (start :: more) e = (Ok nw', e') ->
    (forall ev, ev ∈ more -> request_of ev = r -> ev ∈ own) ->
    exists a, a ∈ ns /\ a ∈ waiting nw' r.

(** C34: a consensus request never hangs.  While it is not finished, whatever answers,
    acknowledgements and timeouts it was given, the networker, fed with what the request
    sent among the events of any other requests, holds a timeout of one of its nodes: the
    request will be given another event. *)
Theorem consensus_never_hangs `{Rng} (fl : N) (ids : list Z) (ns : gmap string (option VerKey)) (g : option Generator)
    (t et : Z) (msg r : string) (es : list RequestEvent) (w : World) (sm' : RequestSM) (evs : list PoolEvent) (w' : World) :
  (fl < N.of_nat (size ns))%N -> (N.of_nat (length es) + N.of_nat (size ns) < usize_modulus)%N ->
  (forall e raw a, e ∈ es -> answer_of e = Some (raw, a) -> is_Some (agreed_part raw)) ->
  run (request_new fl ids ns g t et) (CustomConsensusRequest msg r :: es) w = (Ok (sm', evs), w') ->
  is_terminal sm' = false ->
  exists out own, effects w' = effects w ++ out /\ nets out = SendAllRequest msg r t None :: own /\
    still_waits (dom ns) (SendAllRequest msg r t None) r own.
Proof.
  intros Hf Hn Hans Hrun Hterm. cbn [run] in Hrun. rewrite bind_run in Hrun.
  assert (handle_event (request_new fl ids ns g t et) (CustomConsensusRequest msg r) w =
    (Ok (set_state (request_new fl ids ns g t et) (Consensus new_consensus), None),
     set_effects (effects w ++ [Net (SendAllRequest msg r t None)]) w)) as Hstart by done.
  rewrite Hstart in Hrun. apply M_bind_Ok in Hrun as ([sm2 evs2] & w2 & Hrun & Hend). cbn beta iota in Hend. inv_run.
  eapply (run_consensus_waits _ _ new_consensus 0) in Hrun as (s' & steps' & out & Ho & Hcl & _ & Hi & Hu);
    [|done|by apply reachable_new|by intros v S; cbn; rewrite lookup_empty|done|done|done].
  exists (Net (SendAllRequest msg r t None) :: out), (nets out). rewrite Ho. cbn. rewrite <-app_assoc. split_and!; [done..|].
  intros nw e more nw' e' Hwf Hlt Hm Hns Hrun' Hown. cbn in Hi. unfold nodes_cnt in Hi. cbn in Hi. rewrite <-size_dom in Hi.
  destruct (unheard_node _ _ _ _ Hi Hu) as (a & Ha & Hna). exists a. split; [done|].
  by eapply broadcast_waits.
Qed.

(** a request to all the nodes never hangs: the same of a request that is finished
    when every node has answered or timed out. *)
Theorem full_request_never_hangs `{Rng} (fl : N) (ids : list Z) (ns : gmap string (option VerKey)) (g : option Generator)
    (t et : Z) (msg r : string) (local_timeout : option Z) (es : list RequestEvent) (w : World) (sm' : RequestSM)
    (evs : list PoolEvent) (w' : World) :
  ns <> ∅ -> Terminate ∉ es ->
  run (request_new fl ids ns g t et) (CustomFullRequest msg r local_timeout None :: es) w = (Ok (sm', evs), w') ->
  is_terminal sm' = false ->
  exists out own, effects w' = effects w ++ out /\
    nets out = SendAllRequest msg r (default et local_timeout) None :: own /\
    still_waits (dom ns) (SendAllRequest msg r (default et local_timeout) None) r own.
Proof.
  intros Hne Ht Hrun Hterm.
  destruct (run_full_request fl ids ns g t et msg r local_timeout None None es w Hne eq_refl Ht) as (sm1 & w1 & out1 & Hrun1 & _ & Hres).
  rewrite Hrun1 in Hrun. injection Hrun as <- _ <-. unfold full_result in Hres.
  destruct (decide _) as [|Hlt]; [by destruct Hres; congruence|]. cbn [required] in Hlt.
  cbn [run] in Hrun1. rewrite bind_run in Hrun1.
  assert (handle_event (request_new fl ids ns g t et) (CustomFullRequest msg r local_timeout None) w =
    (Ok (set_state (request_new fl ids ns g t et) (FullReq (mk_full None None)), None),
     set_effects (effects w ++ [Net (SendAllRequest msg r (default et local_timeout) None)]) w)) as Hstart by done.
  rewrite Hstart in Hrun1. apply M_bind_Ok in Hrun1 as ([sm2 evs2] & w2 & Hrun1 & Hend). cbn beta iota in Hend. inv_run.
  eapply (run_full_cleans _ _ (mk_full None None)) in Hrun1 as (out & Ho & Hcl); [|done|done].
  eexists (_ :: out), (nets out). rewrite Ho. cbn. rewrite <-app_assoc. split_and!; [done..|].
  intros nw e more nw' e' Hwf Hids Hm Hns Hrun' Hown.
  destruct (larger_set (dom ns) (heard es)) as (a & Ha & Hna); [lia|]. exists a. split; [done|].
  by eapply broadcast_waits.
Qed.
End consensus.

(** ** Witnesses *)

#[local] Existing Instances ToySha.sha ToySha.sha_length ToyPool.machine ToyPool.order
  ToyPool.base58 ToyPool.json_text ToyPool.codecs ToyPool.bls ToyRlp.rlp ToyProofs.libs ToyResponse.codec ToyNet.rng.

(** One node answered, one timed out, two are still to answer. *)
Definition open_events : list RequestEvent := [reply_of "a" "x"; RETimeout "1" "b"].

Lemma consensus_never_hangs_witness :
  exists sm' evs w', run sample_request (CustomConsensusRequest "m" "1" :: open_events) quiet_world = (Ok (sm', evs), w') /\
    is_terminal sm' = false /\
    exists out own, effects w' = effects quiet_world ++ out /\ nets out = SendAllRequest "m" "1" 20 None :: own /\
      still_waits (dom four_nodes) (SendAllRequest "m" "1" 20 None) "1" own.
Proof.
  destruct (returned (run sample_request (CustomConsensusRequest "m" "1" :: open_events) quiet_world)) as ([sm' evs] & w' & Hr);
    [vm_compute; reflexivity|].
  assert (match (run sample_request (CustomConsensusRequest "m" "1" :: open_events) quiet_world).1 with
    | Ok (sm, _) => is_terminal sm | _ => true end = false) as Hterm by (vm_compute; reflexivity).
  rewrite Hr in Hterm. cbn in Hterm. exists sm', evs, w'. split; [exact Hr|]. split; [exact Hterm|].
  refine (consensus_never_hangs 1 [7; 8]%Z four_nodes None 20 60 "m" "1" open_events quiet_world sm' evs w' _ _ _ Hr Hterm).
  - vm_compute. reflexivity.
  - vm_compute. reflexivity.
  - intros e raw a _ _. unfold agreed_part. cbn. eexists. reflexivity.
Defined.

Lemma full_request_never_hangs_witness :
  exists sm' evs w', run sample_request (CustomFullRequest "m" "1" None None :: open_events) quiet_world = (Ok (sm', evs), w') /\
    is_terminal sm' = false /\
    exists out own, effects w' = effects quiet_world ++ out /\ nets out = SendAllRequest "m" "1" 60 None :: own /\
      still_waits (dom four_nodes) (SendAllRequest "m" "1" 60 None) "1" own.
Proof.
  destruct (returned (run sample_request (CustomFullRequest "m" "1" None None :: open_events) quiet_world)) as ([sm' evs] & w' & Hr);
    [vm_compute; reflexivity|].
  assert (match (run sample_request (CustomFullRequest "m" "1" None None :: open_events) quiet_world).1 with
    | Ok (sm, _) => is_terminal sm | _ => true end = false) as Hterm by (vm_compute; reflexivity).
  rewrite Hr in Hterm. cbn in Hterm. exists sm', evs, w'. split; [exact Hr|]. split; [exact Hterm|].
  refine (full_request_never_hangs 1 [7; 8]%Z four_nodes None 20 60 "m" "1" None open_events quiet_world sm' evs w' _ _ Hr Hterm).
  - intros He. apply (f_equal (lookup "a"%string)) in He. vm_compute in He. discriminate He.
  - intros Hin. repeat (apply elem_of_cons in Hin as [Hin|Hin]; [discriminate Hin|]). by apply not_elem_of_nil in Hin.
Defined.
