(* ===== verification/PoolSM.v ===== *)
(** * PoolSM: the state machine of a pool

    Models [libindy/src/services/pool/pool.rs], and [PublicKey::from_slice] and
    [vk_to_curve25519] of [libindy/src/utils/crypto].  The trait [RequestHandler] is the
    class [RequestHandler]; [RequestHandlerImpl] is its instance, and the class
    [RequestHandlerLaws] states what the pool relies on.  The networker is the log of
    [World.v], so that its handle is not part of the states. *)

From S2P Require Import Prelude Errors Json Hashing MerkleTree PoolTypes World MerkleFactory Catchup Response Trie StateProof RequestHandler RequestFacts.
Import MerkleTree.MerkleTree.

(** ** The trait [RequestHandler] *)
Class RequestHandler `{Bls} := {
  R : Type;
  rh_new : N -> list Z -> gmap string (option VerKey) -> option Generator -> Z -> Z -> R;
  rh_process_event : R -> option RequestEvent -> M (R * option PoolEvent);
  rh_is_terminal : R -> bool;
}.

#[export] Instance RequestHandlerImpl `{Machine} `{Sha256} `{JsonText} `{PoolCodecs} `{Base58}
    `{HashOrder} `{Bls} `{ResponseCodec} `{!StateProofService} : RequestHandler := {|
  R := option RequestSM;
  rh_new := fun f cmd_ids nodes generator timeout extended_timeout =>
    Some (request_new f cmd_ids nodes generator timeout extended_timeout);
  rh_process_event := process_event;
  rh_is_terminal := impl_is_terminal;
|}.

(** ** Keys of nodes *)

(** [crypto_sign_ed25519_pk_to_curve25519] of libsodium: what it leaves in the buffer; the
    code does not look at the status that it returns. *)
Class Sodium := { pk_to_curve25519 : bytes -> bytes }.

(** [PublicKey::from_slice]: the length is all that is checked. *)
Definition PUBLICKEYBYTES : nat := 32.
Definition public_key_from_slice (bs : bytes) : option bytes :=
  if decide (length bs = PUBLICKEYBYTES) then Some bs else None.

(** The transaction types for which a plugin registered a parser of state proofs. *)
Class SpParsers := { sp_parsers : gset string }.

(** ** States *)
Section states.
Context `{Bls} `{!RequestHandler}.

Record GettingCatchupTargetState := mk_getting {
  g_request_handler : R;
  g_cmd_id : Z;
  g_refresh : bool;
}.

Record ActiveState := mk_active {
  request_handlers : gmap string R;
  a_nodes : gmap string (option VerKey);
}.

Record SyncCatchupState := mk_sync {
  s_request_handler : R;
  s_cmd_id : Z;
  s_refresh : bool;
}.

Inductive PoolState :=
| Initialization
| GettingCatchupTarget (s : GettingCatchupTargetState)
| Active (s : ActiveState)
| SyncCatchup (s : SyncCatchupState)
| Terminated
| Closed.

Record PoolSM := mk_pool_sm {
  pool_name : string;
  id : Z;
  p_timeout : Z;
  p_extended_timeout : Z;
  p_state : PoolState;
}.

Definition pool_new (pname : string) (id timeout extended_timeout : Z) : PoolSM :=
  mk_pool_sm pname id timeout extended_timeout Initialization.

Definition step (sm : PoolSM) (s : PoolState) : PoolSM :=
  mk_pool_sm (pool_name sm) (id sm) (p_timeout sm) (p_extended_timeout sm) s.

Definition pool_is_terminal (sm : PoolSM) : bool :=
  match p_state sm with Closed => true | _ => false end.
End states.

Definition _get_f (cnt : N) : N := if (cnt <? 4)%N then 0 else ((cnt - 1) / 3)%N.

Section pool.
Context `{Machine} `{Sha256} `{JsonText} `{PoolCodecs} `{Base58} `{HashOrder} `{Bls}
  `{!RequestHandler} `{Sodium} `{SpParsers}.

(** ** Acknowledgements *)

Definition _close_pool_ack (cmd_id : Z) : M unit := send (CloseAck cmd_id (inr tt)).
Definition _send_submit_ack (cmd_id : Z) (res : IndyErrorKind + string) : M unit := send (SubmitAck cmd_id res).
Definition _send_open_refresh_ack (cmd_id id : Z) (is_refresh : bool) : M unit :=
  send (if is_refresh then RefreshAck cmd_id (inr tt) else OpenAck cmd_id id (inr tt)).

(** ** Nodes *)

Definition _ledger_status (merkle : MerkleTree) : M LedgerStatus :=
  protocol_version ← gets protocol_version;
  mret (mk_ledger_status (count merkle) (to_base58 (root_hash merkle)) 0 None None
    (if (1 <? protocol_version)%N then Some protocol_version else None)).

(** One node; [None] is an error, which is only logged. *)
Definition node_and_remote (t : NodeTransactionV1) : option (string * option VerKey * RemoteNode) :=
  let d := txn_data (txn t) in
  let node_alias := alias (data d) in
  node_verkey ← from_base58 (dest d);
  node_verkey ← pk_to_curve25519 <$> public_key_from_slice node_verkey;
  _ ← guard ("VALIDATOR"%string ∈ default [] (services (data d)));
  address ← match client_ip (data d), client_port (data d) with
            | Some client_ip, Some client_port => Some ("tcp://" +:+ client_ip +:+ ":" +:+ pretty client_port)%string
            | _, _ => None
            end;
  verkey ← match blskey (data d) with
           | Some blskey => key ← from_base58 blskey; vk ← verkey_from_bytes key; Some (Some vk)
           | None => Some None
           end;
  Some (node_alias, verkey, mk_remote_node node_alias node_verkey address false).

Definition add_node (acc : gmap string (option VerKey) * list RemoteNode) (t : NodeTransactionV1) :
    gmap string (option VerKey) * list RemoteNode :=
  match node_and_remote t with
  | Some (node_alias, verkey, remote) => (<[node_alias := verkey]> acc.1, acc.2 ++ [remote])
  | None => acc
  end.

Definition _get_nodes_and_remotes (merkle : MerkleTree) : M (gmap string (option VerKey) * list RemoteNode) :=
  nodes ← build_node_state merkle;
  mret (foldl add_node (∅, []) (hash_iter nodes).*2).

Definition _get_request_handler_with_ledger_status_sent (sm : PoolSM) : M R :=
  merkle ← create;
  r ← attempt (_get_nodes_and_remotes merkle);
  '(merkle, (nodes, remotes)) ←
    match r with
    | inr n => mret (merkle, n)
    | inl err =>
        dropped ← attempt drop_cache;
        match dropped with
        | inr _ => merkle ← create; n ← _get_nodes_and_remotes merkle; mret (merkle, n)
        | inl _ => fail err
        end
    end;
  _ ← net (NodesStateUpdated remotes);
  let request_handler := rh_new (_get_f (N.of_nat (size nodes))) [] nodes None (p_timeout sm) (p_extended_timeout sm) in
  ls ← _ledger_status merkle;
  '(request_handler, _) ← rh_process_event request_handler (Some (RELedgerStatus ls None (Some merkle)));
  mret request_handler.

(** ** Transitions to the closed state: pending requests are terminated *)

Definition terminate (request_handler : R) : M unit :=
  _ ← rh_process_event request_handler (Some Terminate); mret tt.
Definition getting_to_closed (s : GettingCatchupTargetState) : M PoolState :=
  _ ← terminate (g_request_handler s); mret Closed.
Definition sync_to_closed (s : SyncCatchupState) : M PoolState :=
  _ ← terminate (s_request_handler s); mret Closed.
Definition active_to_closed (s : ActiveState) : M PoolState :=
  _ ← forM (fun kv => terminate kv.2) (hash_iter (request_handlers s)); mret Closed.

(** ** Events *)

(** [request_handler.process_event(pe.clone().into()).unwrap_or(pe)] *)
Definition through_handler (request_handler : R) (pe : PoolEvent) : M (R * PoolEvent) :=
  re ← lift (into_request_event sp_parsers pe);
  '(request_handler, res) ← rh_process_event request_handler re;
  mret (request_handler, default pe res).

Definition handle_initialization (sm : PoolSM) (pe : PoolEvent) : M PoolState :=
  match pe with
  | CheckCache cmd_id =>
      r ← attempt (_get_request_handler_with_ledger_status_sent sm);
      match r with
      | inr request_handler => mret (GettingCatchupTarget (mk_getting request_handler cmd_id false))
      | inl err => _ ← send (OpenAck cmd_id (id sm) (inl err)); mret Terminated
      end
  | Close cmd_id => _ ← _close_pool_ack cmd_id; mret Closed
  | _ => mret Initialization
  end.

(** A new handler of the catchup; [re] is the event it starts with. *)
Definition catchup_handler (sm : PoolSM) (nodes : gmap string (option VerKey)) (remotes : list RemoteNode)
    (re : M RequestEvent) : M R :=
  _ ← net (NodesStateUpdated remotes);
  let request_handler := rh_new (_get_f (N.of_nat (size nodes))) [] nodes None (p_timeout sm) (p_extended_timeout sm) in
  re ← re;
  '(request_handler, _) ← rh_process_event request_handler (Some re);
  mret request_handler.

Definition synced (sm : PoolSM) (cmd_id : Z) (refresh : bool) (merkle : MerkleTree) : M PoolState :=
  r ← attempt (_get_nodes_and_remotes merkle);
  match r with
  | inr (nodes, remotes) =>
      _ ← net (NodesStateUpdated remotes);
      _ ← _send_open_refresh_ack cmd_id (id sm) refresh;
      mret (Active (mk_active ∅ nodes))
  | inl _ => mret Terminated
  end.

Definition handle_getting (sm : PoolSM) (s : GettingCatchupTargetState) (pe : PoolEvent) : M PoolState :=
  '(request_handler, pe) ← through_handler (g_request_handler s) pe;
  let s := mk_getting request_handler (g_cmd_id s) (g_refresh s) in
  match pe with
  | Close cmd_id => _ ← _close_pool_ack cmd_id; getting_to_closed s
  | CatchupTargetNotFound err => _ ← send (OpenAck (g_cmd_id s) (id sm) (inl err)); mret Terminated
  | CatchupRestart merkle_tree =>
      r ← attempt (_get_nodes_and_remotes merkle_tree);
      match r with
      | inr (nodes, remotes) =>
          request_handler ← catchup_handler sm nodes remotes
            (ls ← _ledger_status merkle_tree; mret (RELedgerStatus ls None (Some merkle_tree)));
          mret (GettingCatchupTarget (mk_getting request_handler (g_cmd_id s) (g_refresh s)))
      | inl _ => mret Terminated
      end
  | CatchupTargetFound target_mt_root target_mt_size merkle_tree =>
      r ← attempt (_get_nodes_and_remotes merkle_tree);
      match r with
      | inr (nodes, remotes) =>
          request_handler ← catchup_handler sm nodes remotes
            (mret (RECatchupReq merkle_tree target_mt_size target_mt_root));
          mret (SyncCatchup (mk_sync request_handler (g_cmd_id s) (g_refresh s)))
      | inl _ => mret Terminated
      end
  | Synced merkle => synced sm (g_cmd_id s) (g_refresh s) merkle
  | _ => mret (GettingCatchupTarget s)
  end.

(** [Refresh] in [Active] and in [Terminated] *)
Definition refresh (sm : PoolSM) (cmd_id : Z) : M PoolState :=
  r ← attempt (_get_request_handler_with_ledger_status_sent sm);
  match r with
  | inr request_handler => mret (GettingCatchupTarget (mk_getting request_handler cmd_id true))
  | inl _ => mret Terminated
  end.

Definition handle_terminated (sm : PoolSM) (pe : PoolEvent) : M PoolState :=
  match pe with
  | Close cmd_id => _ ← _close_pool_ack cmd_id; mret Closed
  | Refresh cmd_id => refresh sm cmd_id
  | PoolTimeoutEvent req_id _ =>
      _ ← (if decide (req_id = ""%string) then net NetTimeout else mret tt);
      mret Terminated
  | _ => mret Terminated
  end.

Definition active_send (sm : PoolSM) (s : ActiveState) (cmd_id : Z) (pe : PoolEvent) : M PoolState :=
  re ← lift (into_request_event sp_parsers pe);
  match re with
  | Some re =>
      let request_handler := rh_new (_get_f (N.of_nat (size (a_nodes s)))) [cmd_id] (a_nodes s) None
                               (p_timeout sm) (p_extended_timeout sm) in
      '(request_handler, _) ← rh_process_event request_handler (Some re);
      mret (Active (mk_active (<[get_req_id re := request_handler]> (request_handlers s)) (a_nodes s)))
  | None =>
      _ ← _send_submit_ack cmd_id (inl InvalidStructure);
      mret (Active s)
  end.

Definition active_reply (s : ActiveState) (pe : PoolEvent) : M PoolState :=
  re ← lift (into_request_event sp_parsers pe);
  match re with
  | Some re =>
      let req_id := get_req_id re in
      match request_handlers s !! req_id with
      | Some rh =>
          '(rh, _) ← rh_process_event rh (Some re);
          mret (Active (mk_active
            (if rh_is_terminal rh then delete req_id (request_handlers s) else <[req_id := rh]> (request_handlers s))
            (a_nodes s)))
      | None => mret (Active s)
      end
  | None => mret (Active s)
  end.

Definition active_timeout (s : ActiveState) (req_id : string) (pe : PoolEvent) : M PoolState :=
  match request_handlers s !! req_id with
  | Some rh =>
      re ← lift (into_request_event sp_parsers pe);
      '(rh, _) ← rh_process_event rh re;
      mret (Active (mk_active (<[req_id := rh]> (request_handlers s)) (a_nodes s)))
  | None =>
      _ ← (if decide (req_id = ""%string) then net NetTimeout else mret tt);
      mret (Active s)
  end.

Definition handle_active (sm : PoolSM) (s : ActiveState) (pe : PoolEvent) : M PoolState :=
  match pe with
  | PoolOutdated => mret Terminated
  | Close cmd_id => _ ← _close_pool_ack cmd_id; active_to_closed s
  | Refresh cmd_id => refresh sm cmd_id
  | SendRequest cmd_id _ _ _ => active_send sm s cmd_id pe
  | NodeReply _ _ => active_reply s pe
  | PoolTimeoutEvent req_id _ => active_timeout s req_id pe
  | _ => mret (Active s)
  end.

Definition handle_sync (sm : PoolSM) (s : SyncCatchupState) (pe : PoolEvent) : M PoolState :=
  '(request_handler, pe) ← through_handler (s_request_handler s) pe;
  let s := mk_sync request_handler (s_cmd_id s) (s_refresh s) in
  match pe with
  | Close cmd_id => _ ← _close_pool_ack cmd_id; sync_to_closed s
  | NodesBlacklisted => mret Terminated
  | Synced merkle => synced sm (s_cmd_id s) (s_refresh s) merkle
  | _ => mret (SyncCatchup s)
  end.

Definition handle_state (sm : PoolSM) (pe : PoolEvent) : M PoolState :=
  match p_state sm with
  | Initialization => handle_initialization sm pe
  | GettingCatchupTarget s => handle_getting sm s pe
  | Terminated => handle_terminated sm pe
  | Closed => mret Closed
  | Active s => handle_active sm s pe
  | SyncCatchup s => handle_sync sm s pe
  end.

Definition pool_handle_event (sm : PoolSM) (pe : PoolEvent) : M PoolSM :=
  s ← handle_state sm pe; mret (step sm s).

(** ** [PoolThread] *)

(** [_loop]: every event of the queue, in order; the result says whether the thread ends. *)
Definition _loop (sm : PoolSM) (events : list PoolEvent) : M (PoolSM * bool) :=
  sm ← foldlM pool_handle_event events sm;
  mret (sm, pool_is_terminal sm).

(** The events that [_poll] puts into the queue: what the networker and the commander
    have read, after the timeout that the networker announced if nothing was readable. *)
Definition _poll_events (poll_res : N) (next_timeout : string * string) (networker_events : list PoolEvent)
    (commander_readable : bool) (commander_events : list PoolEvent) : list PoolEvent :=
  (if (poll_res =? 0)%N then [PoolTimeoutEvent next_timeout.1 next_timeout.2] else []) ++
  networker_events ++ (if commander_readable then commander_events else []).
End pool.
