(* ===== verification/PoolFacts.v ===== *)
(** * PoolFacts: the theorems about the pool

    Stated against the interface [RequestHandlerLaws], which says what the pool relies on
    of the handlers of its requests; the handler of [RequestHandler.v] implements it. *)

From S2P Require Import Prelude Errors Json Hashing MerkleTree MerkleProof PoolTypes World MerkleFactory Catchup Response Trie StateProof RequestHandler RequestFacts PoolSM.
Import MerkleTree.MerkleTree.

(** ** The interface *)

(** The events that start the request of a command. *)
Definition starts_request (e : RequestEvent) : Prop :=
  match e with
  | CustomSingleRequest _ _ | CustomConsensusRequest _ _ | CustomFullRequest _ _ _ _ => True
  | _ => False
  end.

(** The command that an event of the executor carries. *)
Definition issued (pe : PoolEvent) : list Z :=
  match pe with
  | CheckCache cmd_id | Close cmd_id | Refresh cmd_id | SendRequest cmd_id _ _ _ => [cmd_id]
  | _ => []
  end.

(** A handler has commands that wait for its answer.  It answers each of them at most
    once, and when it is told to terminate after it was started, it answers them all. *)
Class RequestHandlerLaws `{RequestHandler} := {
  rh_pending : R -> list Z;
  rh_started : R -> Prop;
  rh_new_pending f ids ns g t et : rh_pending (rh_new f ids ns g t et) = ids;
  rh_answers rh e :
    outputs (rh_process_event rh e) (fun p es => acked es ++ rh_pending p.1 ⊆+ rh_pending rh);
  rh_submits rh e :
    outputs (rh_process_event rh e) (fun _ es => Forall (fun c => exists id r, c = SubmitAck id r) (sents es));
  rh_events rh e : yields (rh_process_event rh e) (fun p => from_option issued [] p.2 = []);
  rh_none rh w : rh_process_event rh None w = (Ok (rh, None), w);
  rh_status f ids ns g t et ls mt :
    no_err (rh_process_event (rh_new f ids ns g t et) (Some (RELedgerStatus ls None (Some mt))));
  rh_start f ids ns g t et e : starts_request e ->
    yields (rh_process_event (rh_new f ids ns g t et) (Some e)) (fun p => rh_started p.1);
  rh_step rh e : rh_started rh -> yields (rh_process_event rh e) (fun p => rh_started p.1);
  rh_terminate rh w : rh_started rh ->
    exists p es, rh_process_event rh (Some Terminate) w = (Ok p, set_effects (effects w ++ es) w) /\
      sents es = (fun id => SubmitAck id (inl PoolTerminated)) <$> rh_pending rh;
}.

Section implementation.
Context `{Machine} `{Sha256} `{JsonText} `{PoolCodecs} `{Base58} `{HashOrder} `{Bls}
  `{ResponseCodec} `{!StateProofService}.

Definition impl_pending (rh : option RequestSM) : list Z :=
  match rh with Some sm => if is_terminal sm then [] else cmd_ids sm | None => [] end.

Definition impl_started (rh : option RequestSM) : Prop :=
  match rh with Some sm => state sm <> Start | None => False end.

Lemma impl_answers rh e :
  outputs (process_event rh e) (fun p es => acked es ++ impl_pending p.1 ⊆+ impl_pending rh).
Proof.
  destruct e as [e|]; [|by apply outputs_ret]. destruct rh as [sm|]; [|by apply outputs_ret].
  cbn [process_event]. destruct (is_terminal sm) eqn:Ht.
  - intros w. rewrite bind_run. unfold handle_event. rewrite bind_run. unfold dispatch.
    assert (state sm = Finish) as -> by (unfold is_terminal in Ht; by destruct (state sm)).
    exists []. split; [apply world_step_refl|]. cbn. by rewrite Ht.
  - eapply outputs_bind; [eapply outputs_bind; [by apply answered_dispatch|]|].
    + intros [s ev] es Ha. apply outputs_ret. instantiate (1 := fun p es => exists s ev, p = (set_state sm s, ev) /\ answered (cmd_ids sm) (s, ev) es).
      exists s, ev. by rewrite app_nil_r.
    + intros [sm' ev'] es (s & ev & [= -> ->] & Ha). apply outputs_ret. cbn. rewrite Ht, app_nil_r.
      unfold answered, acked in *. cbn [fst snd] in Ha. unfold is_terminal. cbn.
      destruct s; try (by rewrite Ha). destruct Ha as [(r & -> & _)|[-> _]]; [|apply submseteq_nil_l].
      rewrite app_nil_r, <-list_fmap_compose. cbn. by rewrite list_fmap_id.
Qed.

(** A handler only answers submitted requests. *)
Lemma impl_submits rh e :
  outputs (process_event rh e) (fun _ es => Forall (fun c => exists id r, c = SubmitAck id r) (sents es)).
Proof.
  destruct e as [e|]; [|by apply outputs_ret; constructor]. destruct rh as [sm|]; [|by apply outputs_ret; constructor].
  cbn [process_event]. destruct (is_terminal sm) eqn:Ht.
  - intros w. rewrite bind_run. unfold handle_event. rewrite bind_run. unfold dispatch.
    assert (state sm = Finish) as -> by (unfold is_terminal in Ht; by destruct (state sm)).
    exists []. split; [apply world_step_refl|constructor].
  - eapply outputs_bind; [eapply outputs_bind; [by apply answered_dispatch|]|].
    + intros [s ev] es Ha. apply outputs_ret. instantiate (1 := fun _ es => exists p, answered (cmd_ids sm) p es).
      exists (s, ev). by rewrite app_nil_r.
    + intros [sm' ev'] es [p Ha]. apply outputs_ret. rewrite app_nil_r. unfold answered in Ha.
      destruct p.1; try (rewrite Ha; constructor). destruct Ha as [(r & -> & _)|[-> _]]; [|constructor].
      apply Forall_fmap, Forall_true. intros c. by eexists _, _.
Qed.

(** The events for the pool carry no commands. *)
Lemma dispatch_events sm e : yields (dispatch sm e) (fun p => from_option issued [] p.2 = []).
Proof.
  unfold dispatch. destruct (state sm) as [|s|s|s|s|s|].
  - destruct e; cbn [handle_start]; unfold start_full; walk_yields; done.
  - destruct e; cbn [handle_single]; unfold single_reply, try_to_continue; walk_yields; done.
  - destruct e; cbn [handle_consensus]; unfold consensus_reply, consensus_timeout; walk_yields; done.
  - destruct e; cbn [handle_catchup_single]; walk_yields; done.
  - assert (forall root n hs a id, yields (catchup_target sm s root n hs a id) (fun p => from_option issued [] p.2 = [])) as Ht.
    { intros root n hs a id. unfold catchup_target, _process_catchup_target. cbv zeta.
      eapply yields_bind_of with (P := fun r => from_option issued [] r.2 = []); [walk_yields; try done|].
      - destruct a0 as [|[]]; done.
      - intros [[s' fin] ev] Hev. cbn in Hev. walk_yields; done. }
    destruct e as [ls [node|] mt| | | | | | | | | | | | | | |]; cbn [handle_catchup_consensus]; try apply Ht; walk_yields; done.
  - destruct e; cbn [handle_full]; unfold full_reply; walk_yields; done.
  - by apply yields_ret.
Qed.

Lemma impl_events rh e : yields (process_event rh e) (fun p => from_option issued [] p.2 = []).
Proof.
  destruct e as [e|]; [|by apply yields_ret]. destruct rh as [sm|]; [|by apply yields_ret].
  cbn [process_event]. eapply yields_bind_of.
  - eapply yields_bind_of; [apply dispatch_events|]. intros [s ev] Hev.
    apply yields_ret. instantiate (1 := fun p => from_option issued [] p.2 = []). exact Hev.
  - intros [sm' ev] Hev. by apply yields_ret.
Qed.

(** Only [Start] leads to [Start]. *)
Lemma dispatch_started sm e : state sm <> Start \/ starts_request e ->
  yields (dispatch sm e) (fun p => p.1 <> Start).
Proof.
  intros Hs. unfold dispatch. destruct (state sm) as [|s|s|s|s|s|] eqn:Hst.
  - destruct Hs as [Hs|Hs]; [done|]. destruct e; try done; cbn [handle_start]; unfold start_full; walk_yields; done.
  - destruct e; cbn [handle_single]; unfold single_reply, try_to_continue; walk_yields; done.
  - destruct e; cbn [handle_consensus]; unfold consensus_reply, consensus_timeout; walk_yields; done.
  - destruct e; cbn [handle_catchup_single]; walk_yields; done.
  - unfold handle_catchup_consensus, catchup_target. walk_yields; done.
  - destruct e; cbn [handle_full]; unfold full_reply; walk_yields; done.
  - by apply yields_ret.
Qed.

Lemma impl_step rh e : impl_started rh -> yields (process_event rh e) (fun p => impl_started p.1).
Proof.
  destruct rh as [sm|]; [|done]. intros Hs. destruct e as [e|]; [|by apply yields_ret].
  cbn [process_event]. eapply yields_bind_of.
  - eapply yields_bind_of; [apply (dispatch_started sm e); by left|]. intros [s ev] Hne.
    apply yields_ret. instantiate (1 := fun p => state p.1 <> Start). exact Hne.
  - intros [sm' ev] Hne. by apply yields_ret.
Qed.

Lemma impl_start f ids ns g t et e : starts_request e ->
  yields (process_event (Some (request_new f ids ns g t et)) (Some e)) (fun p => impl_started p.1).
Proof.
  intros He. cbn [process_event]. eapply yields_bind_of.
  - eapply yields_bind_of; [apply (dispatch_started _ e); by right|]. intros [s ev] Hne.
    apply yields_ret. instantiate (1 := fun p => state p.1 <> Start). exact Hne.
  - intros [sm' ev] Hne. by apply yields_ret.
Qed.

Lemma impl_terminate rh w : impl_started rh ->
  exists p es, process_event rh (Some Terminate) w = (Ok p, set_effects (effects w ++ es) w) /\
    sents es = (fun id => SubmitAck id (inl PoolTerminated)) <$> impl_pending rh.
Proof.
  destruct rh as [sm|]; [|done]. intros Hs. cbn in Hs.
  assert (forall s, state sm = s -> s <> Start -> s <> Finish ->
    dispatch sm Terminate = (_ ← _finish_request (cmd_ids sm); mret (Finish, None))) as Hd.
  { intros s Hss. unfold dispatch. rewrite Hss. by destruct s. }
  cbn [process_event]. rewrite bind_run. unfold handle_event. rewrite bind_run.
  unfold impl_pending. destruct (is_terminal sm) eqn:Ht.
  - unfold dispatch. assert (state sm = Finish) as -> by (unfold is_terminal in Ht; by destruct (state sm)).
    cbn. eexists _, []. rewrite app_nil_r. split; [by destruct w|done].
  - rewrite (Hd _ eq_refl) by (done || (intros He; unfold is_terminal in Ht; by rewrite He in Ht)).
    rewrite bind_run. unfold _finish_request, _send_replies, send.
    rewrite (forM_emit (fun id => Sent (SubmitAck id (inl PoolTerminated)))). cbn.
    eexists _, _. split; [reflexivity|]. apply (sents_sent (fun id => SubmitAck id (inl PoolTerminated))).
Qed.

(** The handler of [RequestHandler.v] keeps its promises. *)
#[export] Program Instance RequestHandlerImplLaws : RequestHandlerLaws := {|
  rh_pending := impl_pending;
  rh_started := impl_started;
  rh_answers := impl_answers;
  rh_submits := impl_submits;
  rh_events := impl_events;
  rh_start := impl_start;
  rh_step := impl_step;
  rh_terminate := impl_terminate;
|}.
Next Obligation. done. Qed.
Next Obligation. done. Qed.
Next Obligation.
  intros. cbn. apply no_err_bind; [|by intros []]. apply no_err_bind; [|by intros []].
  cbn. apply no_err_bind; [|intros msg; apply no_err_bind; [done|by intros]].
  intros w e. unfold lift. by destruct (message_to_json _).
Qed.
End implementation.

(** ** Commands are conserved *)

Section conservation.
Context `{Machine} `{Sha256} `{JsonText} `{PoolCodecs} `{Base58} `{HashOrder} `{Bls}
  `{!RequestHandler} `{!RequestHandlerLaws} `{Sodium} `{SpParsers}.

Definition handlers_pending (m : gmap string R) : list Z := concat (rh_pending <$> (map_to_list m).*2).

(** The commands that wait in a state. *)
Definition pending (s : PoolState) : list Z :=
  match s with
  | GettingCatchupTarget s => g_cmd_id s :: rh_pending (g_request_handler s)
  | SyncCatchup s => s_cmd_id s :: rh_pending (s_request_handler s)
  | Active s => handlers_pending (request_handlers s)
  | _ => []
  end.

Lemma handlers_pending_insert k rh m :
  handlers_pending (<[k:=rh]> m) ≡ₚ rh_pending rh ++ handlers_pending (delete k m).
Proof.
  unfold handlers_pending. rewrite <-insert_delete_eq, map_to_list_insert by apply lookup_delete_eq. done.
Qed.

Lemma handlers_pending_lookup k rh m : m !! k = Some rh ->
  handlers_pending m ≡ₚ rh_pending rh ++ handlers_pending (delete k m).
Proof. intros Hk. rewrite <-(insert_id m k rh Hk) at 1. apply handlers_pending_insert. Qed.

Lemma handlers_pending_delete k m : handlers_pending (delete k m) ⊆+ handlers_pending m.
Proof.
  destruct (m !! k) as [rh|] eqn:Hk; [|by rewrite delete_id].
  rewrite (handlers_pending_lookup k rh m Hk). apply submseteq_inserts_l. done.
Qed.

Lemma quiet_build_node_state mt : quiet (build_node_state mt).
Proof. apply quiet_bind; [apply quiet_gets|]. intros. apply quiet_lift. Qed.

Lemma quiet_get_nodes mt : quiet (_get_nodes_and_remotes mt).
Proof. apply quiet_bind; [apply quiet_build_node_state|]. intros. apply quiet_ret. Qed.

Lemma quiet_ledger_status mt : quiet (_ledger_status mt).
Proof. apply quiet_bind; [apply quiet_gets|]. intros. apply quiet_ret. Qed.

(** A handler of the catchup has no commands. *)
Lemma idle_handler rh e : rh_pending rh = [] ->
  outputs (rh_process_event rh e) (fun p es => acked es = [] /\ rh_pending p.1 = []).
Proof.
  intros Hp. eapply outputs_mono; [apply rh_answers|]. intros p es. cbn beta. rewrite Hp.
  intros [? ?]%submseteq_nil_r%app_eq_nil. done.
Qed.

(** Up to the first message nothing is sent, and from then on nothing fails. *)
Lemma status_sent_from sm (Q : R -> list Effect -> Prop) :
  (forall merkle nodes remotes, outputs (
     _ ← net (NodesStateUpdated remotes);
     ls ← _ledger_status merkle;
     '(rh, _) ← rh_process_event
        (rh_new (_get_f (N.of_nat (size nodes))) [] nodes None (p_timeout sm) (p_extended_timeout sm))
        (Some (RELedgerStatus ls None (Some merkle)));
     mret rh) Q) ->
  tries (_get_request_handler_with_ledger_status_sent sm) Q.
Proof.
  intros Htail. unfold _get_request_handler_with_ledger_status_sent.
  apply tries_bind; [apply quiet_create|]. intros mt.
  apply tries_bind; [apply quiet_attempt, quiet_get_nodes|]. intros r.
  apply tries_bind.
  { destruct r as [err|n]; [|apply quiet_ret]. apply quiet_bind; [apply quiet_attempt, quiet_drop_cache|].
    intros [|]; [apply quiet_lift|]. apply quiet_bind; [apply quiet_create|]. intros.
    apply quiet_bind; [apply quiet_get_nodes|]. intros; apply quiet_ret. }
  intros [merkle [nodes remotes]]. apply tries_no_err; [|apply Htail].
  apply no_err_bind; [done|]. intros _. apply no_err_bind; [done|]. intros ls.
  apply no_err_bind; [apply rh_status|by intros []].
Qed.

Lemma status_sent_tries sm :
  tries (_get_request_handler_with_ledger_status_sent sm) (fun rh es => acked es = [] /\ rh_pending rh = []).
Proof.
  apply status_sent_from. intros merkle nodes remotes.
  eapply outputs_bind; [apply outputs_net|]. intros _ ? ->.
  eapply outputs_bind; [apply outputs_quiet, quiet_ledger_status|]. intros ls ? ->.
  eapply outputs_bind; [apply idle_handler, rh_new_pending|]. intros [rh ev] es [Ha Hp].
  apply outputs_ret. rewrite app_nil_r, !acked_app, Ha. done.
Qed.

(** [m] answers at most the commands [before], and the ones it does not answer still wait
    or are dropped. *)
Definition conserves (before : list Z) (m : M PoolState) : Prop :=
  outputs m (fun s es => acked es ++ pending s ⊆+ before).

Lemma conserves_ret before s : pending s ⊆+ before -> conserves before (mret s).
Proof. intros Hp. by apply outputs_ret. Qed.

Lemma conserves_bind {A} (m : M A) (g : A -> M PoolState) before (after : A -> list Z) :
  outputs m (fun a es => acked es ++ after a ⊆+ before) -> (forall a, conserves (after a) (g a)) ->
  conserves before (m ≫= g).
Proof.
  intros Hm Hg. eapply outputs_bind; [exact Hm|]. intros a es Ha. eapply outputs_mono; [apply Hg|].
  intros s es' Hs. cbn beta in *. rewrite acked_app, <-(assoc_L (++)).
  etrans; [|exact Ha]. by apply submseteq_skips_l.
Qed.

Lemma conserves_quiet {A} (m : M A) (g : A -> M PoolState) before :
  outputs m (fun _ es => acked es = []) -> (forall a, conserves before (g a)) -> conserves before (m ≫= g).
Proof.
  intros Hm Hg. eapply (conserves_bind m g before (fun _ => before)); [|exact Hg].
  eapply outputs_mono; [exact Hm|]. by intros a es ->.
Qed.

Lemma conserves_send (c : Command) (g : unit -> M PoolState) before :
  conserves before (g tt) -> conserves (command_id c :: before) (send c ≫= g).
Proof.
  intros Hg. eapply (conserves_bind (send c) g _ (fun _ => before)); [|by intros []].
  eapply outputs_mono; [apply outputs_emit|]. by intros _ es ->.
Qed.

Lemma conserves_weaken before before' m : conserves before m -> before ⊆+ before' -> conserves before' m.
Proof. intros Hm Hb. eapply outputs_mono; [exact Hm|]. intros s es Hs. cbn beta in *. by etrans. Qed.

Lemma outputs_net_silent e : outputs (net e) (fun _ es => acked es = []).
Proof. eapply outputs_mono; [apply outputs_net|]. by intros _ ? ->. Qed.

Lemma outputs_quiet_silent {A} (m : M A) : quiet m -> outputs m (fun _ es => acked es = []).
Proof. intros Hm. eapply outputs_mono; [by apply outputs_quiet|]. by intros _ ? ->. Qed.

Lemma conserves_synced sm cmd_id b mt : conserves [cmd_id] (synced sm cmd_id b mt).
Proof.
  unfold synced. apply conserves_quiet; [apply outputs_quiet_silent, quiet_attempt, quiet_get_nodes|].
  intros [err|[nodes remotes]]; [apply conserves_ret, submseteq_nil_l|].
  apply conserves_quiet; [apply outputs_net_silent|]. intros _. unfold _send_open_refresh_ack.
  destruct b; [apply (conserves_send (RefreshAck cmd_id (inr tt)))|apply (conserves_send (OpenAck cmd_id (id sm) (inr tt)))];
    apply conserves_ret; by apply submseteq_nil_l.
Qed.

Lemma status_sent_conserves sm cmd_id (g : IndyErrorKind + R -> M PoolState) :
  (forall err, conserves [cmd_id] (g (inl err))) ->
  (forall rh, rh_pending rh = [] -> conserves [cmd_id] (g (inr rh))) ->
  conserves [cmd_id] (attempt (_get_request_handler_with_ledger_status_sent sm) ≫= g).
Proof.
  intros Herr Hok. eapply outputs_bind; [apply outputs_attempt, status_sent_tries|].
  intros [err|rh] es; cbn beta iota.
  - intros ->. eapply outputs_mono; [apply Herr|]. done.
  - intros [He Hp]. eapply outputs_mono; [by apply Hok|]. cbn beta. intros s es'. by rewrite acked_app, He.
Qed.

Lemma conserves_refresh sm cmd_id : conserves [cmd_id] (refresh sm cmd_id).
Proof.
  apply status_sent_conserves.
  - intros err. apply conserves_ret, submseteq_nil_l.
  - intros rh Hp. apply conserves_ret. cbn. by rewrite Hp.
Qed.

Lemma through_handler_conserves rh pe :
  outputs (through_handler rh pe) (fun p es => acked es ++ rh_pending p.1 ++ issued p.2 ⊆+ rh_pending rh ++ issued pe).
Proof.
  unfold through_handler. eapply outputs_bind; [apply outputs_lift|]. cbn beta. intros re ? [_ ->].
  eapply outputs_bind; [apply outputs_yields; [apply rh_answers|apply rh_events]|].
  intros [rh' ev] es [Ha He]. apply outputs_ret. rewrite app_nil_r. cbn [fst snd] in *.
  rewrite (assoc_L (++)). apply submseteq_app; [done|]. destruct ev as [ev|]; [|done]. cbn in *. rewrite He.
  apply submseteq_nil_l.
Qed.

Lemma terminate_conserves rh : outputs (terminate rh) (fun _ es => acked es ⊆+ rh_pending rh).
Proof.
  eapply outputs_bind; [apply rh_answers|]. intros p es Ha. apply outputs_ret. rewrite app_nil_r.
  etrans; [|exact Ha]. by apply submseteq_inserts_r.
Qed.

Lemma terminate_all_conserves l :
  outputs (forM (fun kv : string * R => terminate kv.2) l) (fun _ es => acked es ⊆+ concat (rh_pending <$> l.*2)).
Proof.
  induction l as [|[k rh] l IH]; [by apply outputs_ret|]. cbn [forM].
  eapply outputs_bind; [apply terminate_conserves|]. intros [] es Ha. eapply outputs_mono; [exact IH|].
  intros [] es' Ha'. cbn. rewrite acked_app. by apply submseteq_app.
Qed.

(** A closing state. *)
Lemma conserves_closed {A} (m : M A) before : outputs m (fun _ es => acked es ⊆+ before) ->
  conserves before (_ ← m; mret Closed).
Proof.
  intros Hm. eapply (conserves_bind m _ before (fun _ => [])); [|intros; by apply conserves_ret].
  eapply outputs_mono; [exact Hm|]. intros a es Ha. by rewrite app_nil_r.
Qed.

(** The handler of a catchup that goes on. *)
Lemma conserves_catchup_handler sm nodes remotes re (g : R -> M PoolState) before : quiet re ->
  (forall rh, rh_pending rh = [] -> conserves before (g rh)) ->
  conserves before (catchup_handler sm nodes remotes re ≫= g).
Proof.
  intros Hre Hg. eapply outputs_bind with (Q := fun rh es => acked es = [] /\ rh_pending rh = []).
  - eapply outputs_bind; [apply outputs_net|]. intros _ ? ->.
    eapply outputs_bind; [by apply outputs_quiet|]. intros e ? ->.
    eapply outputs_bind; [apply idle_handler, rh_new_pending|]. intros [rh ev] es [Ha Hp].
    apply outputs_ret. rewrite app_nil_r, !acked_app, Ha. done.
  - intros rh es [Ha Hp]. eapply outputs_mono; [by apply Hg|]. intros s es'. cbn beta. by rewrite acked_app, Ha.
Qed.

Lemma conserves_catchup rh cmd_id pe (g : R * PoolEvent -> M PoolState) :
  (forall rh' pe', conserves (cmd_id :: rh_pending rh' ++ issued pe') (g (rh', pe'))) ->
  conserves (cmd_id :: rh_pending rh ++ issued pe) (through_handler rh pe ≫= g).
Proof.
  intros Hg. eapply conserves_bind with (after := fun p => cmd_id :: rh_pending p.1 ++ issued p.2); [|by intros []].
  eapply outputs_mono; [apply through_handler_conserves|]. intros p es Ha. cbn beta in *.
  rewrite <-Permutation_middle. by apply submseteq_skip.
Qed.

(** Goals about the commands that are left. *)
Ltac fewer := cbn [pending issued g_cmd_id g_request_handler s_cmd_id s_request_handler request_handlers];
  first [apply submseteq_nil_l | solve_submseteq].

Lemma conserves_getting sm s pe :
  conserves (g_cmd_id s :: rh_pending (g_request_handler s) ++ issued pe) (handle_getting sm s pe).
Proof.
  unfold handle_getting. apply conserves_catchup. intros rh pe'. cbv zeta.
  destruct pe' as [c|r n|c|c|root sz mt|mt|err| |mt| |c r t ns|r n]; try (apply conserves_ret; fewer).
  - eapply conserves_weaken; [apply (conserves_send (CloseAck c (inr tt)) _ (rh_pending rh))|fewer].
    apply conserves_closed, terminate_conserves.
  - apply conserves_quiet; [apply outputs_quiet_silent, quiet_attempt, quiet_get_nodes|].
    intros [err|[nodes remotes]]; [apply conserves_ret; fewer|].
    apply conserves_catchup_handler; [apply quiet_ret|]. intros rh' Hp. apply conserves_ret. cbn. rewrite Hp. fewer.
  - apply conserves_quiet; [apply outputs_quiet_silent, quiet_attempt, quiet_get_nodes|].
    intros [err|[nodes remotes]]; [apply conserves_ret; fewer|]. apply conserves_catchup_handler.
    + apply quiet_bind; [apply quiet_ledger_status|]. intros. apply quiet_ret.
    + intros rh' Hp. apply conserves_ret. cbn. rewrite Hp. fewer.
  - apply (conserves_send (OpenAck (g_cmd_id s) (id sm) (inl err))). apply conserves_ret; fewer.
  - eapply conserves_weaken; [apply conserves_synced|fewer].
Qed.

Lemma conserves_sync sm s pe :
  conserves (s_cmd_id s :: rh_pending (s_request_handler s) ++ issued pe) (handle_sync sm s pe).
Proof.
  unfold handle_sync. apply conserves_catchup. intros rh pe'. cbv zeta.
  destruct pe' as [c|r n|c|c|root sz mt|mt|err| |mt| |c r t ns|r n]; try (apply conserves_ret; fewer).
  - eapply conserves_weaken; [apply (conserves_send (CloseAck c (inr tt)) _ (rh_pending rh))|fewer].
    apply conserves_closed, terminate_conserves.
  - eapply conserves_weaken; [apply conserves_synced|fewer].
Qed.

Lemma conserves_terminated sm pe : conserves (issued pe) (handle_terminated sm pe).
Proof.
  destruct pe as [c|r n|c|c|root sz mt|mt|err| |mt| |c r t ns|r n]; try (apply conserves_ret; fewer).
  - apply (conserves_send (CloseAck c (inr tt))). by apply conserves_ret.
  - apply conserves_refresh.
  - apply conserves_quiet; [|intros; by apply conserves_ret].
    case_decide; [apply outputs_net_silent|apply outputs_quiet_silent, quiet_ret].
Qed.

Lemma conserves_initialization sm pe : conserves (issued pe) (handle_initialization sm pe).
Proof.
  destruct pe as [c|r n|c|c|root sz mt|mt|err| |mt| |c r t ns|r n]; try (apply conserves_ret; fewer).
  - apply status_sent_conserves; cbn beta iota.
    + intros err. apply (conserves_send (OpenAck c (id sm) (inl err))). by apply conserves_ret.
    + intros rh Hp. apply conserves_ret. cbn. by rewrite Hp.
  - apply (conserves_send (CloseAck c (inr tt))). by apply conserves_ret.
Qed.

Lemma conserves_active sm s pe :
  conserves (handlers_pending (request_handlers s) ++ issued pe) (handle_active sm s pe).
Proof.
  destruct pe as [c|r n|c|c|root sz mt|mt|err| |mt| |c r t ns|r n]; cbn [handle_active]; try (apply conserves_ret; fewer).
  - unfold active_reply. apply conserves_quiet; [apply outputs_quiet_silent, quiet_lift|]. intros [re|]; [|apply conserves_ret; fewer].
    cbv zeta. destruct (request_handlers s !! get_req_id re) as [rh|] eqn:Hrh; [|apply conserves_ret; fewer].
    eapply conserves_bind with (after := fun p => rh_pending p.1 ++ handlers_pending (delete (get_req_id re) (request_handlers s))).
    + eapply outputs_mono; [apply rh_answers|]. intros p es Ha. cbn beta in *.
      rewrite app_nil_r, (handlers_pending_lookup _ _ _ Hrh), (assoc_L (++)). by apply submseteq_skips_r.
    + intros [rh' ev]. apply conserves_ret. cbn. destruct (rh_is_terminal rh'); [by apply submseteq_inserts_l|].
      by rewrite handlers_pending_insert.
  - eapply conserves_weaken; [apply (conserves_send (CloseAck c (inr tt)) _ (handlers_pending (request_handlers s)))|fewer].
    apply conserves_closed. eapply outputs_mono; [apply terminate_all_conserves|]. intros [] es Ha. cbn beta in *.
    unfold handlers_pending. rewrite <-hash_iter_perm. exact Ha.
  - eapply conserves_weaken; [apply conserves_refresh|fewer].
  - unfold active_send. apply conserves_quiet; [apply outputs_quiet_silent, quiet_lift|]. intros [re|].
    + cbv zeta. eapply conserves_bind with (after := fun p => rh_pending p.1 ++ handlers_pending (request_handlers s)).
      * eapply outputs_mono; [apply rh_answers|]. intros p es Ha. cbn beta in *. rewrite rh_new_pending in Ha.
        rewrite (assoc_L (++)), (comm (++) _ (issued _)). by apply submseteq_skips_r.
      * intros [rh' ev]. apply conserves_ret. cbn. rewrite handlers_pending_insert.
        apply submseteq_skips_l, handlers_pending_delete.
    + eapply conserves_weaken; [apply (conserves_send (SubmitAck c (inl InvalidStructure)) _ (handlers_pending (request_handlers s)))|fewer].
      by apply conserves_ret.
  - unfold active_timeout. destruct (request_handlers s !! r) as [rh|] eqn:Hrh.
    + apply conserves_quiet; [apply outputs_quiet_silent, quiet_lift|]. intros re.
      eapply conserves_bind with (after := fun p => rh_pending p.1 ++ handlers_pending (delete r (request_handlers s))).
      * eapply outputs_mono; [apply rh_answers|]. intros p es Ha. cbn beta in *.
        rewrite app_nil_r, (handlers_pending_lookup _ _ _ Hrh), (assoc_L (++)). by apply submseteq_skips_r.
      * intros [rh' ev]. apply conserves_ret. cbn. by rewrite handlers_pending_insert.
    + apply conserves_quiet; [|intros; apply conserves_ret; fewer].
      case_decide; [apply outputs_net_silent|apply outputs_quiet_silent, quiet_ret].
Qed.

Lemma conserves_event sm pe : conserves (pending (p_state sm) ++ issued pe) (handle_state sm pe).
Proof.
  unfold handle_state. destruct (p_state sm); cbn [pending app].
  - apply conserves_initialization.
  - apply conserves_getting.
  - apply conserves_active.
  - apply conserves_sync.
  - apply conserves_terminated.
  - apply conserves_ret; fewer.
Qed.

(** A run of the pool. *)
Lemma run_conserves es : forall sm, outputs (foldlM pool_handle_event es sm)
  (fun sm' out => acked out ++ pending (p_state sm') ⊆+ pending (p_state sm) ++ concat (issued <$> es)).
Proof.
  induction es as [|pe es IH]; intros sm; [apply outputs_ret; by rewrite app_nil_r|]. cbn [foldlM].
  eapply outputs_bind.
  - eapply outputs_bind; [apply conserves_event|]. intros s out Ho. apply outputs_ret.
    instantiate (1 := fun sm' out => acked out ++ pending (p_state sm') ⊆+ pending (p_state sm) ++ issued pe).
    cbn. by rewrite app_nil_r.
  - intros sm1 out Ho. eapply outputs_mono; [apply IH|]. intros sm2 out2 Ho2. cbn beta in *.
    rewrite acked_app, <-(assoc_L (++)). etrans; [by apply submseteq_skips_l|]. cbn.
    rewrite !(assoc_L (++)). by apply submseteq_skips_r.
Qed.
End conservation.

(** ** Closing *)
Section closing.
Context `{Machine} `{Sha256} `{JsonText} `{PoolCodecs} `{Base58} `{HashOrder} `{Bls}
  `{!RequestHandler} `{!RequestHandlerLaws} `{Sodium} `{SpParsers}.

Lemma into_send cmd_id req t ns re :
  into_request_event sp_parsers (SendRequest cmd_id req t ns) = Ok (Some re) -> starts_request re.
Proof.
  unfold into_request_event. destruct (_parse_req_id_and_op req) as [[req_id op]| | |]; try done.
  repeat case_match; intros [= <-]; done.
Qed.

Definition handlers_started (s : PoolState) : Prop :=
  match s with Active s => map_Forall (fun _ rh => rh_started rh) (request_handlers s) | _ => True end.

(** The handlers of an active pool were started. *)
Lemma active_started s : forall sm pe, handlers_started (Active s) ->
  yields (handle_active sm s pe) handlers_started.
Proof.
  intros sm pe Hs. destruct pe; cbn [handle_active]; try (by apply yields_ret).
  - unfold active_reply. apply yields_any. intros [re|]; [|by apply yields_ret]. cbv zeta.
    destruct (request_handlers s !! get_req_id re) as [rh|] eqn:Hrh; [|by apply yields_ret].
    eapply yields_bind_of; [apply rh_step; by eapply Hs|]. intros [rh' ev] Hst. apply yields_ret. cbn in *.
    case_match; [by apply map_Forall_delete|by apply map_Forall_insert_2].
  - unfold active_to_closed. walk_yields. done.
  - unfold refresh. walk_yields; done.
  - unfold active_send. eapply yields_bind_of with (P := fun re => match re with Some re => starts_request re | None => True end).
    { intros w [re|] w' He; [|done]. apply (f_equal fst) in He. exact (into_send cmd_id _ _ _ _ He). }
    intros [re|] Hre; [|walk_yields; done]. cbv zeta.
    eapply yields_bind_of; [by apply rh_start|]. intros [rh' ev] Hst. apply yields_ret. by apply map_Forall_insert_2.
  - unfold active_timeout. destruct (request_handlers s !! req_id) as [rh|] eqn:Hrh; [|walk_yields; done].
    apply yields_any. intros re. eapply yields_bind_of; [apply rh_step; by eapply Hs|].
    intros [rh' ev] Hst. apply yields_ret. by apply map_Forall_insert_2.
Qed.

Lemma event_started sm pe : handlers_started (p_state sm) ->
  yields (pool_handle_event sm pe) (fun sm' => handlers_started (p_state sm')).
Proof.
  intros Hs. unfold pool_handle_event. eapply yields_bind_of; [|intros s Hst; apply yields_ret; exact Hst].
  unfold handle_state. destruct (p_state sm) as [|s|s|s| |].
  - unfold handle_initialization. walk_yields; done.
  - unfold handle_getting, getting_to_closed, synced. walk_yields; try done; apply map_Forall_empty.
  - by apply active_started.
  - unfold handle_sync, sync_to_closed, synced. walk_yields; try done; apply map_Forall_empty.
  - unfold handle_terminated, refresh. walk_yields; done.
  - by apply yields_ret.
Qed.

Lemma run_started es : forall sm, handlers_started (p_state sm) ->
  yields (foldlM pool_handle_event es sm) (fun sm' => handlers_started (p_state sm')).
Proof.
  induction es as [|pe es IH]; intros sm Hs; [by apply yields_ret|].
  cbn [foldlM]. eapply yields_bind_of; [by apply event_started|]. intros sm1 Hs1. by apply IH.
Qed.

(** Terminating all handlers. *)
Lemma terminate_all l w : (forall rh, rh ∈ l.*2 -> rh_started rh) ->
  exists out, forM (fun kv : string * R => terminate kv.2) l w = (Ok tt, set_effects (effects w ++ out) w) /\
    sents out = (fun id => SubmitAck id (inl PoolTerminated)) <$> concat (rh_pending <$> l.*2).
Proof.
  revert w. induction l as [|[k rh] l IH]; intros w Hl.
  - exists []. rewrite app_nil_r. split; [by destruct w|done].
  - destruct (rh_terminate rh w) as (p & es & Hrun & Hes); [apply Hl; by left|].
    destruct (IH (set_effects (effects w ++ es) w)) as (out & Hout & Hsents); [intros rh' Hin; apply Hl; by right|].
    exists (es ++ out). cbn [forM snd]. rewrite bind_run. unfold terminate at 1. rewrite bind_run, Hrun. cbn [mret StateM_ret].
    rewrite Hout. cbn. rewrite <-app_assoc. split; [done|]. by rewrite sents_app, Hes, Hsents, fmap_app.
Qed.

(** ** The events that close *)

(** [Close] in an active state whose handlers were started *)
Lemma active_closes sm s w cmd_id : p_state sm = Active s -> handlers_started (Active s) ->
  exists out, pool_handle_event sm (Close cmd_id) w = (Ok (step sm Closed), set_effects (effects w ++ Sent (CloseAck cmd_id (inr tt)) :: out) w) /\
    sents out ≡ₚ (fun c => SubmitAck c (inl PoolTerminated)) <$> pending (Active s).
Proof.
  intros Hs Hst. cbn in Hst.
  destruct (terminate_all (hash_iter (request_handlers s)) (set_effects (effects w ++ [Sent (CloseAck cmd_id (inr tt))]) w))
    as (out & Hout & Hsents).
  { intros rh ([k rh'] & -> & Hin)%list_elem_of_fmap. apply (Hst k rh'). by apply elem_of_hash_iter. }
  exists out. split.
  - unfold pool_handle_event, handle_state. rewrite Hs. rewrite bind_run. cbn [handle_active]. rewrite bind_run. cbn [_close_pool_ack send emit].
    unfold active_to_closed. rewrite bind_run, Hout. cbn. by rewrite <-app_assoc.
  - rewrite Hsents. cbn [pending]. unfold handlers_pending. by rewrite hash_iter_perm.
Qed.

Definition is_close (pe : PoolEvent) : bool := match pe with Close _ => true | _ => false end.
Definition is_closed (s : PoolState) : bool := match s with Closed => true | _ => false end.

Lemma through_handler_close rh pe :
  yields (through_handler rh pe) (fun p => is_close p.2 = is_close pe).
Proof.
  unfold through_handler. intros w a w' (re & w1 & [= Hre <-] & ([rh' ev] & w2 & Hp & [= <- <-])%M_bind_Ok)%M_bind_Ok.
  cbn. destruct (is_close pe) eqn:Hc.
  - destruct pe; try done. cbn in Hre. injection Hre as <-. rewrite rh_none in Hp. by injection Hp as <- <- <-.
  - apply rh_events in Hp. cbn in Hp. destruct ev as [ev|]; [|done]. by destruct ev.
Qed.

Lemma state_closes sm pe : yields (handle_state sm pe)
  (fun s => is_closed s = is_closed (p_state sm) || is_close pe).
Proof.
  unfold handle_state. destruct (p_state sm) as [|s|s|s| |]; cbn [is_closed orb].
  - unfold handle_initialization. walk_yields; done.
  - unfold handle_getting. eapply yields_bind_of; [apply through_handler_close|]. intros [rh pe'] <-. cbv zeta.
    unfold getting_to_closed, synced. cbn [snd]. walk_yields; done.
  - unfold handle_active, active_to_closed, refresh, active_send, active_reply, active_timeout. walk_yields; done.
  - unfold handle_sync. eapply yields_bind_of; [apply through_handler_close|]. intros [rh pe'] <-. cbv zeta.
    unfold sync_to_closed, synced. cbn [snd]. walk_yields; done.
  - unfold handle_terminated, refresh. walk_yields; done.
  - by apply yields_ret.
Qed.

Lemma run_closes es : forall sm, yields (foldlM pool_handle_event es sm)
  (fun sm' => is_closed (p_state sm') = is_closed (p_state sm) || existsb is_close es).
Proof.
  induction es as [|pe es IH]; intros sm; [apply yields_ret; by rewrite orb_false_r|].
  cbn [foldlM existsb]. eapply yields_bind_of with (P := fun sm1 => is_closed (p_state sm1) = is_closed (p_state sm) || is_close pe).
  - eapply yields_bind_of; [apply state_closes|]. intros s Hs. by apply yields_ret.
  - intros sm1 Hs w sm2 w' Hrun. rewrite (IH sm1 w sm2 w' Hrun), Hs. by rewrite orb_assoc.
Qed.
End closing.

(** ** Transitions *)

Inductive Kind := KInitialization | KGettingCatchupTarget | KActive | KSyncCatchup | KTerminated | KClosed.

(** The comment "Transitions of pool state". *)
Definition documented (k : Kind) : list Kind :=
  match k with
  | KInitialization => [KGettingCatchupTarget; KActive; KTerminated; KClosed]
  | KGettingCatchupTarget => [KSyncCatchup; KActive; KTerminated; KClosed]
  | KActive => [KGettingCatchupTarget; KTerminated; KClosed]
  | KSyncCatchup => [KActive; KTerminated; KClosed]
  | KTerminated => [KGettingCatchupTarget; KClosed]
  | KClosed => [KClosed]
  end.

Section transitions.
Context `{Machine} `{Sha256} `{JsonText} `{PoolCodecs} `{Base58} `{HashOrder} `{Bls}
  `{!RequestHandler} `{!RequestHandlerLaws} `{Sodium} `{SpParsers}.

Definition kind (s : PoolState) : Kind :=
  match s with
  | Initialization => KInitialization
  | GettingCatchupTarget _ => KGettingCatchupTarget
  | Active _ => KActive
  | SyncCatchup _ => KSyncCatchup
  | Terminated => KTerminated
  | Closed => KClosed
  end.

(** An active state that was just entered: the nodes are those of a ledger, and nothing
    is in flight. *)
Definition entered (s : PoolState) : Prop :=
  match s with
  | Active a => request_handlers a = ∅ /\ exists merkle remotes w w',
      _get_nodes_and_remotes merkle w = (Ok (a_nodes a, remotes), w')
  | _ => True
  end.

Lemma synced_yields sm c b mt : yields (synced sm c b mt)
  (fun s => kind s ∈ [KActive; KTerminated] /\ entered s).
Proof.
  unfold synced.
  eapply yields_bind_of with (P := fun r => match r with
    | inr (nodes, remotes) => exists w w', _get_nodes_and_remotes mt w = (Ok (nodes, remotes), w') | inl _ => True end).
  - intros w r w' Hr%attempt_Ok. destruct r as [|[nodes remotes]]; [done|]. by eexists _, _.
  - intros [err|[nodes remotes]].
    + intros _. apply yields_ret. split; [|done]. apply elem_of_cons. right. by apply list_elem_of_singleton.
    + intros (w & w' & Hr). walk_yields. split; [by left|]. split; [done|]. by eexists _, _, _, _.
Qed.

(** A documented transition, or none; [Active] is entered by a synchronised ledger only. *)
Definition allowed (s s' : PoolState) : Prop :=
  kind s' = kind s \/
  kind s' ∈ documented (kind s) /\ (kind s' = KActive -> kind s <> KInitialization /\ entered s').

Ltac allowed_step :=
  first [by left | right; split; [cbn; repeat first [apply list_elem_of_here|apply list_elem_of_further]|done]].

Lemma allowed_synced s sm c b mt : kind s = KGettingCatchupTarget \/ kind s = KSyncCatchup ->
  yields (synced sm c b mt) (allowed s).
Proof.
  intros Hk w s' w' Hs. destruct (synced_yields sm c b mt w s' w' Hs) as [Hin He]. right.
  destruct Hk as [Hk|Hk]; unfold allowed; rewrite Hk;
    apply elem_of_cons in Hin as [-> | ->%list_elem_of_singleton]; (split; [|done]);
    cbn; repeat first [apply list_elem_of_here|apply list_elem_of_further].
Qed.

Lemma state_transition sm pe : yields (handle_state sm pe) (allowed (p_state sm)).
Proof.
  unfold handle_state. destruct (p_state sm) as [|s|s|s| |].
  - unfold handle_initialization. walk_yields; allowed_step.
  - unfold handle_getting, getting_to_closed. walk_yields; try apply allowed_synced; try by left. all: allowed_step.
  - unfold handle_active, active_to_closed, refresh, active_send, active_reply, active_timeout. walk_yields; allowed_step.
  - unfold handle_sync, sync_to_closed. walk_yields; try apply allowed_synced; try by right. all: allowed_step.
  - unfold handle_terminated, refresh. walk_yields; allowed_step.
  - apply yields_ret. by left.
Qed.
End transitions.

(** ** Nodes *)
Section nodes.
Context `{Machine} `{Sha256} `{JsonText} `{PoolCodecs} `{Base58} `{HashOrder} `{Bls}
  `{!RequestHandler} `{!RequestHandlerLaws} `{Sodium} `{SpParsers}.

(** A validator of the node state, with a key of the right length and an address. *)
Definition usable (t : NodeTransactionV1) (r : RemoteNode) : Prop :=
  let d := txn_data (txn t) in
  name r = alias (data d) /\ is_blacklisted r = false /\
  (exists key, from_base58 (dest d) = Some key /\ length key = PUBLICKEYBYTES /\ public_key r = pk_to_curve25519 key) /\
  (exists l, services (data d) = Some l /\ "VALIDATOR"%string ∈ l) /\
  exists ip port, client_ip (data d) = Some ip /\ client_port (data d) = Some port /\
    zaddr r = ("tcp://" +:+ ip +:+ ":" +:+ pretty port)%string.

Lemma get_f_bound n : (0 < n)%N -> (3 * _get_f n < n <= 3 * _get_f n + 3)%N.
Proof.
  unfold _get_f. destruct (N.ltb_spec n 4); [lia|]. intros _.
  pose proof (N.div_mod (n - 1) 3 ltac:(done)) as Hd. pose proof (N.mod_lt (n - 1) 3 ltac:(done)) as Hm.
  revert Hd Hm. generalize ((n - 1) / 3)%N ((n - 1) mod 3)%N. lia.
Qed.

Lemma node_and_remote_Some t a vk r : node_and_remote t = Some (a, vk, r) -> a = name r /\ usable t r.
Proof.
  unfold node_and_remote, usable, public_key_from_slice. cbv zeta. set (d := txn_data (txn t)).
  intros Hn. destruct (from_base58 (dest d)) as [key|] eqn:Hkey; [|done]. cbn in Hn.
  case_decide as Hl; [|done]. cbn in Hn. case_guard as Hv; [|done]. cbn in Hn.
  destruct (client_ip (data d)) as [ip|]; [|done]. destruct (client_port (data d)) as [port|]; [|done]. cbn in Hn.
  destruct (services (data d)) as [l|]; [|by apply not_elem_of_nil in Hv].
  assert (r = mk_remote_node (alias (data d)) (pk_to_curve25519 key) ("tcp://" +:+ ip +:+ ":" +:+ pretty port) false /\
    a = alias (data d)) as [-> ->].
  { destruct (blskey (data d)) as [bk|]; [|by injection Hn as <- _ <-].
    destruct (from_base58 bk) as [k|]; [|done]. cbn in Hn. destruct (verkey_from_bytes k); [|done]. by injection Hn as <- _ <-. }
  split; [done|]. split_and!; try done; [by exists key|by exists l|by exists ip, port].
Qed.

Lemma add_nodes_spec ts acc : dom acc.1 = list_to_set (name <$> acc.2) ->
  let r := foldl add_node acc ts in
  dom r.1 = list_to_set (name <$> r.2) /\
  forall x, x ∈ r.2 -> x ∈ acc.2 \/ exists t, t ∈ ts /\ usable t x.
Proof.
  revert acc. induction ts as [|t ts IH]; intros acc Hacc; cbn; [split; [done|]; by left|].
  specialize (IH (add_node acc t)). destruct IH as [Hd Hin].
  { unfold add_node. destruct (node_and_remote t) as [[[a vk] r]|] eqn:Hn; [|done].
    apply node_and_remote_Some in Hn as [-> _]. cbn. rewrite dom_insert_L, fmap_app, list_to_set_app_L, Hacc. set_solver. }
  split; [done|]. intros x [Hx|(t' & Ht' & Hu)]%Hin; [|right; exists t'; split; [by right|done]].
  unfold add_node in Hx. destruct (node_and_remote t) as [[[a vk] r]|] eqn:Hn; [|by left].
  apply elem_of_app in Hx as [Hx| ->%list_elem_of_singleton]; [by left|].
  apply node_and_remote_Some in Hn as [_ Hu]. right. exists t. split; [by left|done].
Qed.
End nodes.

(** ** Refreshes *)
Section refreshes.
Context `{Machine} `{Sha256} `{JsonText} `{PoolCodecs} `{Base58} `{HashOrder} `{Bls}
  `{!RequestHandler} `{!RequestHandlerLaws} `{Sodium} `{SpParsers}.

Definition is_refresh_ack (c : Command) : bool := match c with RefreshAck _ _ => true | _ => false end.

(** The acknowledgements of refreshes among the effects. *)
Definition refresh_acks (es : list Effect) : list Command := filter is_refresh_ack (sents es).

Lemma refresh_acks_app es es' : refresh_acks (es ++ es') = refresh_acks es ++ refresh_acks es'.
Proof. unfold refresh_acks. by rewrite sents_app, filter_app. Qed.

Definition none {A} (m : M A) : Prop := outputs m (fun _ es => refresh_acks es = []).

Lemma none_bind {A B} (m : M A) (g : A -> M B) : none m -> (forall a, none (g a)) -> none (m ≫= g).
Proof.
  intros Hm Hg. eapply outputs_bind; [exact Hm|]. intros a es Ha. eapply outputs_mono; [apply Hg|].
  intros b es' Hb. cbn beta in *. by rewrite refresh_acks_app, Ha, Hb.
Qed.

Lemma none_ret {A} (a : A) : none (mret a).
Proof. by apply outputs_ret. Qed.

Lemma none_quiet {A} (m : M A) : quiet m -> none m.
Proof. intros Hm. eapply outputs_mono; [by apply outputs_quiet|]. by intros a ? ->. Qed.

Lemma none_net e : none (net e).
Proof. eapply outputs_mono; [apply outputs_net|]. by intros a ? ->. Qed.

Lemma none_send c : is_refresh_ack c = false -> none (send c).
Proof.
  intros Hc. eapply outputs_mono; [apply outputs_emit|]. intros a ? ->. by destruct c.
Qed.

Lemma none_handler rh e : none (rh_process_event rh e).
Proof.
  eapply outputs_mono; [apply rh_submits|]. intros p es Hs. cbn beta in *. unfold refresh_acks.
  induction Hs as [|c l (i & r & ->) _ IH]; [done|]. exact IH.
Qed.

Lemma none_status sm : none (attempt (_get_request_handler_with_ledger_status_sent sm)).
Proof.
  eapply outputs_mono with (Q := fun r es => match r with inr rh => refresh_acks es = [] | inl _ => es = [] end).
  - apply outputs_attempt, status_sent_from. intros merkle nodes remotes.
    apply none_bind; [apply none_net|]. intros _. apply none_bind; [apply none_quiet, quiet_ledger_status|].
    intros ls. apply none_bind; [apply none_handler|]. intros []. apply none_ret.
  - intros [err|rh] es; [by intros ->|done].
Qed.

Lemma none_through rh pe : none (through_handler rh pe).
Proof.
  apply none_bind; [apply none_quiet, quiet_lift|]. intros re. apply none_bind; [apply none_handler|].
  intros []. apply none_ret.
Qed.

Lemma none_terminate rh : none (terminate rh).
Proof. apply none_bind; [apply none_handler|]. intros. apply none_ret. Qed.

Lemma none_forM {A} (g : A -> M unit) l : (forall x, none (g x)) -> none (forM g l).
Proof. intros Hg. induction l; [apply none_ret|]. by apply none_bind. Qed.

Lemma none_catchup_handler sm nodes remotes re : quiet re -> none (catchup_handler sm nodes remotes re).
Proof.
  intros Hre. apply none_bind; [apply none_net|]. intros _. apply none_bind; [by apply none_quiet|]. intros e.
  apply none_bind; [apply none_handler|]. intros []. apply none_ret.
Qed.

Lemma none_attempt_nodes mt : none (attempt (_get_nodes_and_remotes mt)).
Proof. apply none_quiet, quiet_attempt, quiet_get_nodes. Qed.

Lemma none_lift {A} (m : IndyResult A) : none (lift m).
Proof. apply none_quiet, quiet_lift. Qed.

(** The state [s] was entered with at most one acknowledgement of a refresh, which tells a
    success, and only when the pool became active. *)
Definition refresh_told (from s : PoolState) (es : list Effect) : Prop :=
  refresh_acks es = [] \/
  exists c, refresh_acks es = [RefreshAck c (inr tt)] /\ kind s = KActive /\ kind from <> KActive.

Lemma told_none from (m : M PoolState) : none m -> outputs m (refresh_told from).
Proof. intros Hm. eapply outputs_mono; [exact Hm|]. intros s es Hs. by left. Qed.

Lemma told_bind {A} from (m : M A) (g : A -> M PoolState) :
  none m -> (forall a, outputs (g a) (refresh_told from)) -> outputs (m ≫= g) (refresh_told from).
Proof.
  intros Hm Hg. eapply outputs_bind; [exact Hm|]. intros a es Ha. eapply outputs_mono; [apply Hg|].
  intros s es' Hs. unfold refresh_told in *. cbn beta in *. by rewrite refresh_acks_app, Ha.
Qed.

Lemma told_synced from sm c b mt : kind from <> KActive -> outputs (synced sm c b mt) (refresh_told from).
Proof.
  intros Hk. unfold synced. apply told_bind; [apply none_attempt_nodes|]. intros [err|[nodes remotes]].
  { apply told_none, none_ret. }
  apply told_bind; [apply none_net|]. intros _. unfold _send_open_refresh_ack.
  destruct b; [|apply told_none, none_bind; [by apply none_send|]; intros; apply none_ret].
  eapply outputs_bind; [apply outputs_emit|]. intros _ ? ->. apply outputs_ret. right. by exists c.
Qed.

Ltac none_walk :=
  repeat first
    [ match goal with
      | |- none (let _ := _ in _) => cbv zeta
      | |- none (match ?x with _ => _ end) => destruct x eqn:?
      | |- none (_ ≫= _) => apply none_bind; [|intros]
      end
    | apply none_ret | apply none_net | apply none_lift | apply none_status | apply none_handler
    | apply none_terminate | apply none_attempt_nodes | apply none_catchup_handler; auto with indy
    | apply none_forM; intros | by apply none_send ].

Lemma state_refresh_told sm pe : outputs (handle_state sm pe) (refresh_told (p_state sm)).
Proof.
  unfold handle_state. destruct (p_state sm) as [|s|s|s| |].
  - apply told_none. unfold handle_initialization, _close_pool_ack. none_walk.
  - apply told_bind; [apply none_through|]. intros [rh pe']. cbv zeta.
    destruct pe'; try (by apply told_synced); apply told_none; unfold getting_to_closed, _close_pool_ack, _ledger_status; none_walk.
  - apply told_none. unfold handle_active, active_to_closed, refresh, active_send, active_reply, active_timeout, _close_pool_ack, _send_submit_ack.
    none_walk.
  - apply told_bind; [apply none_through|]. intros [rh pe']. cbv zeta.
    destruct pe'; try (by apply told_synced); apply told_none; unfold sync_to_closed, _close_pool_ack; none_walk.
  - apply told_none. unfold handle_terminated, refresh, _close_pool_ack. none_walk.
  - apply told_none, none_ret.
Qed.
End refreshes.

(** ** Properties *)
Section properties.
Context `{Machine} `{Sha256} `{JsonText} `{PoolCodecs} `{Base58} `{HashOrder} `{Bls}
  `{!RequestHandler} `{!RequestHandlerLaws} `{Sodium} `{SpParsers}.

(** C1: commands are conserved.  A pool that is fed with any queue of events, whose
    commands have distinct numbers, acknowledges each command at most once, acknowledges
    none that it was not given and none that still waits: whatever the nodes answer and
    however the events of the networker and of the executor interleave. *)
Theorem commands_answered_at_most_once (name : string) (pool_id t et : Z) (es : list PoolEvent)
    (w : World) (sm' : PoolSM) (closed : bool) (w' : World) :
  NoDup (concat (issued <$> es)) ->
  _loop (pool_new name pool_id t et) es w = (Ok (sm', closed), w') ->
  exists out, effects w' = effects w ++ out /\
    NoDup (acked out ++ pending (p_state sm')) /\
    forall cmd_id, cmd_id ∈ acked out -> cmd_id ∈ concat (issued <$> es).
Proof.
  intros Hnd (sm & w1 & Hrun & [= <- <- <-])%M_bind_Ok.
  apply (outputs_Ok _ _ _ _ _ (run_conserves es _)) in Hrun as (out & Ho & Hc). cbn [pending p_state pool_new app] in Hc.
  exists out. split; [done|]. split; [by eapply submseteq_NoDup|].
  intros c Hin. eapply elem_of_submseteq; [|exact Hc]. apply elem_of_app. by left.
Qed.

(** closing a pool answers what is open.  In every active state that a pool can
    reach, [Close] succeeds; it is acknowledged, and every command that still waits gets
    the error [PoolTerminated]; nothing else is sent, and the thread ends. *)
Theorem close_answers_pending (name : string) (pool_id t et : Z) (es : list PoolEvent) (w : World)
    (sm : PoolSM) (s : ActiveState) (w1 : World) (cmd_id : Z) :
  foldlM pool_handle_event es (pool_new name pool_id t et) w = (Ok sm, w1) -> p_state sm = Active s ->
  exists out, _loop sm [Close cmd_id] w1 = (Ok (step sm Closed, true), set_effects (effects w1 ++ out) w1) /\
    sents out ≡ₚ CloseAck cmd_id (inr tt) :: ((fun c => SubmitAck c (inl PoolTerminated)) <$> pending (p_state sm)).
Proof.
  intros Hrun Hs. apply run_started in Hrun as Hst; [|done]. destruct (active_closes sm s w1 cmd_id Hs) as (out & Hout & Hsents); [by rewrite Hs in Hst|].
  exists (Sent (CloseAck cmd_id (inr tt)) :: out). split.
  - unfold _loop. cbn [foldlM]. rewrite bind_run, bind_run, Hout. done.
  - change (sents (_ :: out)) with (CloseAck cmd_id (inr tt) :: sents out). by rewrite Hsents, Hs.
Qed.

(** the thread of a pool ends exactly with [Close].  After a queue of events the
    state machine is terminal if and only if it was closed before or a [Close] was in the
    queue: neither an answer of the nodes nor an error ends the thread, and no state
    ignores [Close]. *)
Theorem loop_ends_iff_close (sm : PoolSM) (es : list PoolEvent) (w : World) (sm' : PoolSM) (closed : bool) (w' : World) :
  _loop sm es w = (Ok (sm', closed), w') ->
  closed = pool_is_terminal sm || existsb is_close es.
Proof.
  intros (sm1 & w1 & Hrun & [= <- <- <-])%M_bind_Ok. apply run_closes in Hrun.
  unfold pool_is_terminal. unfold is_closed in Hrun. exact Hrun.
Qed.

(** the transitions of the comment on [PoolState] are the only ones, and [Active] is
    entered only from the catchup, with the nodes of a ledger and no request in flight
    (the transition from [Initialization] to [Active] that the comment has does not
    happen). *)
Theorem pool_transitions (sm : PoolSM) (pe : PoolEvent) (w : World) (sm' : PoolSM) (w' : World) :
  pool_handle_event sm pe w = (Ok sm', w') -> allowed (p_state sm) (p_state sm').
Proof. intros (s & w1 & Hs & [= <- <-])%M_bind_Ok. by apply state_transition in Hs. Qed.

(** a refresh that fails is never told.  In every run, each acknowledgement of a
    refresh reports a success: when the ledger cannot be read, the nodes give no target or
    the node state is bad, the command gets none. *)
Theorem refresh_failure_not_told (sm : PoolSM) (es : list PoolEvent) (w : World) (sm' : PoolSM) (closed : bool) (w' : World) :
  _loop sm es w = (Ok (sm', closed), w') ->
  exists out, effects w' = effects w ++ out /\
    forall cmd_id r, RefreshAck cmd_id r ∈ refresh_acks out -> r = inr tt.
Proof.
  intros (sm1 & w1 & Hrun & [= <- <- <-])%M_bind_Ok.
  assert (outputs (foldlM pool_handle_event es sm) (fun _ out => forall c r, RefreshAck c r ∈ refresh_acks out -> r = inr tt)) as Hall.
  { clear Hrun. revert sm. induction es as [|pe es IH]; intros sm; [apply outputs_ret; by intros ?? ?%not_elem_of_nil|].
    cbn [foldlM]. eapply outputs_bind.
    - eapply outputs_bind; [apply state_refresh_told|]. intros s out Ho. apply outputs_ret.
      instantiate (1 := fun _ out => exists from s, refresh_told from s out). exists (p_state sm), s. by rewrite app_nil_r.
    - intros sm0 out (from & s & Ho). eapply outputs_mono; [apply IH|]. intros sm2 out2 Ho2 c r.
      rewrite refresh_acks_app. intros [Hr|Hin]%elem_of_app; [|by eapply Ho2].
      destruct Ho as [Ho|(c' & Ho & _)]; rewrite Ho in Hr; [by apply not_elem_of_nil in Hr|].
      by apply list_elem_of_singleton in Hr as [= -> ->]. }
  apply (outputs_Ok _ _ _ _ _ Hall) in Hrun as (out & Ho & Hr). by exists out.
Qed.

(** a refresh drops what is in flight.  When an active pool is refreshed, no command
    that waits for an answer ever gets one, whatever follows. *)
Theorem refresh_drops_pending (sm : PoolSM) (s : ActiveState) (cmd_id : Z) (es : list PoolEvent) (w : World)
    (sm' : PoolSM) (closed : bool) (w' : World) :
  p_state sm = Active s -> NoDup (pending (Active s) ++ cmd_id :: concat (issued <$> es)) ->
  _loop sm (Refresh cmd_id :: es) w = (Ok (sm', closed), w') ->
  exists out, effects w' = effects w ++ out /\ forall c, c ∈ pending (Active s) -> c ∉ acked out.
Proof.
  intros Hs Hnd (sm1 & w1 & Hrun & [= <- <- <-])%M_bind_Ok. cbn [foldlM] in Hrun.
  apply M_bind_Ok in Hrun as (sm2 & w2 & Hone & Hrest). apply M_bind_Ok in Hone as (s2 & w3 & Hone & [= <- <-]).
  unfold handle_state in Hone. rewrite Hs in Hone.
  apply (outputs_Ok _ _ _ _ _ (conserves_refresh sm cmd_id)) in Hone as (o1 & Ho1 & Hc1).
  apply (outputs_Ok _ _ _ _ _ (run_conserves es _)) in Hrest as (o2 & Ho2 & Hc2). cbn [p_state step] in Hc2.
  exists (o1 ++ o2). rewrite Ho2, Ho1, app_assoc. split; [done|]. intros c Hin.
  rewrite acked_app. intros Hack.
  assert (c ∈ cmd_id :: concat (issued <$> es)) as Hc; [|apply NoDup_app in Hnd as (_ & Hdis & _); by eapply Hdis].
  apply elem_of_app in Hack as [Hack|Hack].
  - apply elem_of_cons. left. apply list_elem_of_singleton. eapply elem_of_submseteq; [|exact Hc1].
    apply elem_of_app. by left.
  - assert (c ∈ pending s2 ++ concat (issued <$> es)) as [Hp|Hp]%elem_of_app.
    + eapply elem_of_submseteq; [|exact Hc2]. apply elem_of_app. by left.
    + apply elem_of_cons. left. apply list_elem_of_singleton. eapply elem_of_submseteq; [|exact Hc1].
      apply elem_of_app. by right.
    + apply elem_of_cons. by right.
Qed.

(** the nodes a pool connects to.  Every remote node comes from a validator of the
    node state of the ledger, with the curve key of its verkey and its client address; the
    nodes whose votes are counted are the remote ones, and the number [f] of faulty nodes
    that is tolerated is the largest with [3 * f < n]. *)
Theorem connected_nodes (merkle : MerkleTree) (w : World) (nodes : gmap string (option VerKey))
    (remotes : list RemoteNode) (w' : World) :
  _get_nodes_and_remotes merkle w = (Ok (nodes, remotes), w') ->
  let n := N.of_nat (size nodes) in
  dom nodes = list_to_set (name <$> remotes) /\
  (exists ts, build_node_state merkle w = (Ok ts, w') /\
    forall r, r ∈ remotes -> exists d t, ts !! d = Some t /\ usable t r) /\
  (remotes <> [] -> (3 * _get_f n < n <= 3 * _get_f n + 3)%N).
Proof.
  intros (ts & w1 & Hts & [= Hr <-])%M_bind_Ok. cbv zeta.
  destruct (add_nodes_spec (hash_iter ts).*2 (∅, [])) as [Hd Hin]; [done|]. rewrite Hr in Hd, Hin. cbn [fst snd] in *.
  split; [done|]. split.
  - exists ts. split; [done|]. intros r [?%not_elem_of_nil|(t & ([d t'] & -> & Ht)%list_elem_of_fmap & Hu)]%Hin; [done|].
    exists d, t'. by apply elem_of_hash_iter in Ht.
  - intros Hne. assert (size nodes <> 0) as Hsz.
    { intros Hz%map_size_empty_inv. subst. destruct remotes as [|r l]; [done|]. set_solver. }
    apply get_f_bound. lia.
Qed.
End properties.

(** ** Witnesses *)

#[local] Existing Instances ToySha.sha ToySha.sha_length ToyPool.machine ToyPool.order
  ToyPool.base58 ToyPool.json_text ToyPool.codecs ToyPool.bls ToyRlp.rlp ToyProofs.libs ToyResponse.codec.

Module ToySodium.
#[export] Instance sodium : Sodium := {| pk_to_curve25519 := fun b => b |}.
#[export] Instance parsers : SpParsers := {| sp_parsers := ∅ |}.
End ToySodium.

#[local] Existing Instances ToySodium.sodium ToySodium.parsers.

(** Four nodes, each with its name as its key. *)
Definition genesis_lines : list string :=
  ["aaaaaaaaaaaaaaaaaaaaaaaaaaaaaaaa"; "bbbbbbbbbbbbbbbbbbbbbbbbbbbbbbbb";
   "cccccccccccccccccccccccccccccccc"; "dddddddddddddddddddddddddddddddd"]%string.

Definition pool_world : World := sample_world (Some genesis_lines) None [].
Definition genesis_tree : MerkleTree :=
  match (create pool_world).1 with Ok mt => mt | _ => sample_tree end.

Definition sample_pool : PoolSM := pool_new "pool" 9 20 60.

(** The pool is opened, two requests are sent, and one is answered by one node. *)
Definition pool_events : list PoolEvent :=
  [CheckCache 1; Synced genesis_tree; SendRequest 2 "x" None None; SendRequest 3 "yy" None None;
   NodeReply "x" "a"].

Definition returns {A} (r : IndyResult A * World) : bool := match r.1 with Ok _ => true | _ => false end.

Lemma returns_Ok {A} (r : IndyResult A * World) : returns r = true -> exists a w, r = (Ok a, w).
Proof. destruct r as [[a|e| |] w]; try discriminate. by exists a, w. Qed.

Lemma commands_answered_at_most_once_witness :
  exists sm' closed w' out,
    _loop sample_pool (pool_events ++ [Close 4]) pool_world = (Ok (sm', closed), w') /\
    effects w' = effects pool_world ++ out /\ NoDup (acked out ++ pending (p_state sm')) /\
    forall cmd_id, cmd_id ∈ acked out -> cmd_id ∈ [1; 2; 3; 4]%Z.
Proof.
  destruct (returns_Ok (_loop sample_pool (pool_events ++ [Close 4]) pool_world)) as ([sm' closed] & w' & Hr);
    [vm_compute; reflexivity|].
  destruct (commands_answered_at_most_once "pool" 9 20 60 (pool_events ++ [Close 4]) pool_world sm' closed w') as (out & Ho & Hn & Hin).
  - apply (bool_decide_unpack _). vm_compute. exact I.
  - exact Hr.
  - exists sm', closed, w', out. split; [exact Hr|]. split; [exact Ho|]. split; [exact Hn|exact Hin].
Defined.

Definition active_of (s : PoolState) : ActiveState :=
  match s with Active a => a | _ => mk_active ∅ ∅ end.
Definition is_active (s : PoolState) : bool := match s with Active _ => true | _ => false end.

(** The run of the sample events ends in an active state with two waiting commands. *)
Lemma sample_active : exists sm w, foldlM pool_handle_event pool_events sample_pool pool_world = (Ok sm, w) /\
  p_state sm = Active (active_of (p_state sm)) /\ pending (p_state sm) = [2; 3]%Z.
Proof.
  assert (match foldlM pool_handle_event pool_events sample_pool pool_world with
    | (Ok sm, _) => is_active (p_state sm) && bool_decide (pending (p_state sm) = [2; 3]%Z) | _ => false end = true) as Hok
    by (vm_compute; reflexivity).
  destruct (foldlM _ _ _ _) as [[sm| | |] w]; try discriminate Hok. exists sm, w. split; [reflexivity|].
  apply andb_prop in Hok as [Ha Hp]. split; [|by apply bool_decide_eq_true in Hp]. by destruct (p_state sm).
Qed.

Lemma close_answers_pending_witness :
  exists sm w1 out, foldlM pool_handle_event pool_events sample_pool pool_world = (Ok sm, w1) /\
    _loop sm [Close 4] w1 = (Ok (step sm Closed, true), set_effects (effects w1 ++ out) w1) /\
    sents out ≡ₚ CloseAck 4 (inr tt) :: ((fun c => SubmitAck c (inl PoolTerminated)) <$> [2; 3]%Z).
Proof.
  destruct sample_active as (sm & w1 & Hr & Ha & Hp).
  destruct (close_answers_pending "pool" 9 20 60 pool_events pool_world sm (active_of (p_state sm)) w1 4 Hr Ha) as (out & Ho & Hs).
  exists sm, w1, out. rewrite Hp in Hs. split; [exact Hr|]. split; [exact Ho|exact Hs].
Defined.

Lemma loop_ends_iff_close_witness :
  exists sm' w', _loop sample_pool (pool_events ++ [Close 4]) pool_world = (Ok (sm', true), w') /\
    true = pool_is_terminal sample_pool || existsb is_close (pool_events ++ [Close 4]).
Proof.
  destruct (returns_Ok (_loop sample_pool (pool_events ++ [Close 4]) pool_world)) as ([sm' closed] & w' & Hr);
    [vm_compute; reflexivity|].
  pose proof (loop_ends_iff_close sample_pool (pool_events ++ [Close 4]) pool_world sm' closed w' Hr) as Hc.
  exists sm', w'. split; [rewrite Hr, Hc; reflexivity|reflexivity].
Defined.

Lemma pool_transitions_witness :
  exists sm' w', pool_handle_event sample_pool (CheckCache 1) pool_world = (Ok sm', w') /\
    allowed (p_state sample_pool) (p_state sm').
Proof.
  destruct (returns_Ok (pool_handle_event sample_pool (CheckCache 1) pool_world)) as (sm' & w' & Hr);
    [vm_compute; reflexivity|].
  exists sm', w'. split; [exact Hr|exact (pool_transitions sample_pool (CheckCache 1) pool_world sm' w' Hr)].
Defined.

(** A ledger of a node that the codec does not know. *)
Definition bad_tree : MerkleTree := match from_vec [[]] with Ok mt => mt | _ => sample_tree end.

Lemma refresh_failure_not_told_witness :
  exists sm' closed w' out,
    _loop sample_pool (pool_events ++ [Refresh 4; Synced bad_tree]) pool_world = (Ok (sm', closed), w') /\
    p_state sm' = Terminated /\ effects w' = effects pool_world ++ out /\
    forall cmd_id r, RefreshAck cmd_id r ∈ refresh_acks out -> r = inr tt.
Proof.
  assert (match _loop sample_pool (pool_events ++ [Refresh 4; Synced bad_tree]) pool_world with
    | (Ok (sm, _), _) => match p_state sm with Terminated => true | _ => false end | _ => false end = true) as Hok
    by (vm_compute; reflexivity).
  destruct (_loop sample_pool (pool_events ++ [Refresh 4; Synced bad_tree]) pool_world) as [[[sm' closed]| | |] w'] eqn:Hr;
    try discriminate Hok.
  destruct (refresh_failure_not_told sample_pool (pool_events ++ [Refresh 4; Synced bad_tree]) pool_world sm' closed w' Hr)
    as (out & Ho & Hin).
  exists sm', closed, w', out. split; [reflexivity|]. split; [|split; [exact Ho|exact Hin]].
  destruct (p_state sm'); try discriminate Hok. reflexivity.
Defined.

Lemma refresh_drops_pending_witness :
  exists sm w1 sm' closed w' out, p_state sm = Active (active_of (p_state sm)) /\
    _loop sm [Refresh 4; Close 5] w1 = (Ok (sm', closed), w') /\ effects w' = effects w1 ++ out /\
    2%Z ∉ acked out /\ 3%Z ∉ acked out.
Proof.
  assert (match foldlM pool_handle_event pool_events sample_pool pool_world with
    | (Ok sm, w) => is_active (p_state sm) && bool_decide (pending (p_state sm) = [2; 3]%Z) && returns (_loop sm [Refresh 4; Close 5] w)
    | _ => false end = true) as Hok by (vm_compute; reflexivity).
  destruct (foldlM _ _ _ _) as [[sm| | |] w1]; try discriminate Hok.
  apply andb_prop in Hok as [[Ha Hp]%andb_prop Hr]. apply bool_decide_eq_true in Hp.
  assert (p_state sm = Active (active_of (p_state sm))) as Hs by (by destruct (p_state sm)).
  apply returns_Ok in Hr as ([sm' closed] & w' & Hr).
  destruct (refresh_drops_pending sm (active_of (p_state sm)) 4 [Close 5] w1 sm' closed w' Hs) as (out & Ho & Hin).
  - rewrite <-Hs, Hp. apply (bool_decide_unpack _). vm_compute. exact I.
  - exact Hr.
  - exists sm, w1, sm', closed, w', out. split; [exact Hs|]. split; [exact Hr|]. split; [exact Ho|].
    split; apply Hin; rewrite <-Hs, Hp; [by left|by right; left].
Defined.

Lemma connected_nodes_witness :
  exists nodes remotes w', _get_nodes_and_remotes genesis_tree pool_world = (Ok (nodes, remotes), w') /\
    remotes <> [] /\ (3 * _get_f (N.of_nat (size nodes)) < N.of_nat (size nodes) <= 3 * _get_f (N.of_nat (size nodes)) + 3)%N.
Proof.
  assert (match _get_nodes_and_remotes genesis_tree pool_world with
    | (Ok (_, r :: _), _) => true | _ => false end = true) as Hok by (vm_compute; reflexivity).
  destruct (_get_nodes_and_remotes genesis_tree pool_world) as [[[nodes [|r remotes]]| | |] w'] eqn:Hr; try discriminate Hok.
  destruct (connected_nodes genesis_tree pool_world nodes (r :: remotes) w' Hr) as (_ & _ & Hf).
  exists nodes, (r :: remotes), w'. split; [reflexivity|]. split; [discriminate|]. apply Hf. discriminate.
Defined.
