(* ===== verification/LedgerTypes.v ===== *)
(** * LedgerTypes: operations of requests, and results of replies

    Models [libindy/src/domain/ledger/]: the constants, the operations with their [new], and
    the results that a reply can have.  A struct that is only serialised is the list of its
    fields in their order, under the names that serde gives them; the printed text of a
    request is that of this list.  What serde reads, and how a value of indy-crypto is
    printed, is the class [LedgerCodecs]. *)

From stdpp Require Import gmap.
From S2P Require Import StateProof Prelude Errors Json PoolTypes WalletService Anoncreds Tails Revocation Response.

Local Open Scope string_scope.

(** ** [constants.rs] *)

Definition NODE : string := "0".
Definition NYM : string := "1".
Definition GET_TXN : string := "3".
Definition ATTRIB : string := "100".
Definition SCHEMA : string := "101".
Definition CRED_DEF : string := "102".
Definition POOL_UPGRADE : string := "109".
Definition POOL_RESTART : string := "118".
Definition POOL_CONFIG : string := "111".
Definition REVOC_REG_DEF : string := "113".
Definition REVOC_REG_ENTRY : string := "114".
Definition GET_VALIDATOR_INFO : string := "119".
Definition AUTH_RULE : string := "120".
Definition GET_AUTH_RULE : string := "121".
Definition GET_DDO : string := "120".

Definition REQUESTS : list string :=
  [NODE; NYM; GET_TXN; ATTRIB; SCHEMA; CRED_DEF; GET_ATTR; GET_NYM; GET_SCHEMA; GET_CRED_DEF; POOL_UPGRADE; POOL_RESTART;
   POOL_CONFIG; REVOC_REG_DEF; REVOC_REG_ENTRY; GET_REVOC_REG_DEF; GET_REVOC_REG; GET_REVOC_REG_DELTA; GET_VALIDATOR_INFO;
   AUTH_RULE; GET_DDO].

Definition TRUSTEE : string := "0".
Definition STEWARD : string := "2".
Definition TRUST_ANCHOR : string := "101".
Definition NETWORK_MONITOR : string := "201".
Definition ROLE_REMOVE : string := "".

(** The names of [txn_name_to_code] *)
Definition transaction_names : list (string * string) :=
  [("NODE", NODE); ("NYM", NYM); ("GET_TXN", GET_TXN); ("ATTRIB", ATTRIB); ("SCHEMA", SCHEMA); ("CRED_DEF", CRED_DEF);
   ("CLAIM_DEF", CRED_DEF); ("GET_ATTR", GET_ATTR); ("GET_NYM", GET_NYM); ("GET_SCHEMA", GET_SCHEMA);
   ("GET_CRED_DEF", GET_CRED_DEF); ("POOL_UPGRADE", POOL_UPGRADE); ("POOL_RESTART", POOL_RESTART);
   ("POOL_CONFIG", POOL_CONFIG); ("REVOC_REG_DEF", REVOC_REG_DEF); ("REVOC_REG_ENTRY", REVOC_REG_ENTRY);
   ("GET_REVOC_REG_DEF", GET_REVOC_REG_DEF); ("GET_REVOC_REG", GET_REVOC_REG); ("GET_REVOC_REG_DELTA", GET_REVOC_REG_DELTA);
   ("GET_VALIDATOR_INFO", GET_VALIDATOR_INFO); ("AUTH_RULE", AUTH_RULE); ("GET_DDO", GET_DDO)].

Definition txn_name_to_code (txn : string) : option string :=
  if decide (txn ∈ REQUESTS) then Some txn else (list_to_map transaction_names : gmap string string) !! txn.

(** ** Fields *)

(** A field with [skip_serializing_if = Option::is_none], and one without *)
Definition skip_none {A} (k : string) (f : A -> SJsonValue) (v : option A) : SJsonMap :=
  match v with Some v => [(k, f v)] | None => [] end.
Definition or_null {A} (f : A -> SJsonValue) (v : option A) : SJsonValue :=
  match v with Some v => f v | None => Null end.

(** An integer of any type *)
Definition json_int (z : Z) : SJsonValue := Number (if (z <? 0)%Z then NegInt z else PosInt (Z.to_N z)).
Definition json_uint (n : N) : SJsonValue := Number (PosInt n).

(** ** [request.rs] *)

Definition DEFAULT_LIBIDY_DID : string := "LibindyDid111111111111".

(** [Timespec], and what [build_request] reads besides its arguments: the clock, twice, and
    the protocol version *)
Record Timespec := mk_timespec { sec : Z; nsec : Z }.
Record Surroundings := mk_surroundings { first_time : Timespec; second_time : Timespec; PROTOCOL_VERSION : N }.

Definition is_node_1_3 (env : Surroundings) : bool := (PROTOCOL_VERSION env =? 1)%N.

Section request.
Context `{Machine} `{JsonText}.

(** A result of [+] or [*] on [u64] *)
Definition u64_result (n : N) : IndyResult N :=
  if (n <? 2 ^ 64)%N then Ok n else if overflow_checks then Panic else Ok (n mod 2 ^ 64)%N.

(** [z as u64] *)
Definition to_u64 (z : Z) : N := Z.to_N (z mod 2 ^ 64).

Definition req_id_at (env : Surroundings) : IndyResult N :=
  s ← u64_result (to_u64 (sec (first_time env)) * 10 ^ 9);
  u64_result (s + to_u64 (nsec (second_time env))).

(** [Request]; the signature is [None] and skipped. *)
Definition Request_new (req_id : N) (identifier : string) (operation : SJsonMap) (protocol_version : N) : SJsonMap :=
  [("reqId", json_uint req_id); ("identifier", String_ identifier); ("operation", Object operation);
   ("protocolVersion", json_uint protocol_version)].

(** [build_request], whose error is [InvalidState] at every use; [None] is an operation that
    serde cannot print. *)
Definition build_request (env : Surroundings) (identifier : option string) (operation : option SJsonMap) : IndyResult string :=
  req_id ← req_id_at env;
  let identifier := default DEFAULT_LIBIDY_DID identifier in
  operation ← ok_or operation InvalidState;
  Ok (to_string (Object (Request_new req_id identifier operation (PROTOCOL_VERSION env)))).
End request.

(** ** Operations on DIDs: [nym.rs], [ddo.rs], [attrib.rs] *)

Definition GetNymOperation_new (dest : string) : SJsonMap := [("type", String_ GET_NYM); ("dest", String_ dest)].
Definition GetDdoOperation_new (dest : string) : SJsonMap := [("type", String_ GET_DDO); ("dest", String_ dest)].

Definition AttribOperation_new (dest : string) (hash raw enc : option string) : SJsonMap :=
  [("type", String_ ATTRIB); ("dest", String_ dest)] ++
  skip_none "hash" String_ hash ++ skip_none "raw" String_ raw ++ skip_none "enc" String_ enc.

Definition GetAttribOperation_new (dest : string) (raw hash enc : option string) : SJsonMap :=
  [("type", String_ GET_ATTR); ("dest", String_ dest)] ++
  skip_none "raw" String_ raw ++ skip_none "hash" String_ hash ++ skip_none "enc" String_ enc.

(** ** [node.rs] *)

Inductive Services := VALIDATOR | OBSERVER.

Definition Services_name (self : Services) : string := match self with VALIDATOR => "VALIDATOR" | OBSERVER => "OBSERVER" end.

Record NodeOperationData := mk_node_operation_data {
  node_ip : option string;
  node_port : option Z;
  client_ip : option string;
  client_port : option Z;
  node_alias : string;
  services : option (list Services);
  blskey : option string;
  blskey_pop : option string;
}.

Definition NodeOperationData_fields (data : NodeOperationData) : SJsonMap :=
  skip_none "node_ip" String_ (node_ip data) ++ skip_none "node_port" json_int (node_port data) ++
  skip_none "client_ip" String_ (client_ip data) ++ skip_none "client_port" json_int (client_port data) ++
  [("alias", String_ (node_alias data))] ++
  skip_none "services" (fun l => Array (String_ ∘ Services_name <$> l)) (services data) ++
  skip_none "blskey" String_ (blskey data) ++ skip_none "blskey_pop" String_ (blskey_pop data).

Definition NodeOperation_new (dest : string) (data : NodeOperationData) : SJsonMap :=
  [("type", String_ NODE); ("dest", String_ dest); ("data", Object (NodeOperationData_fields data))].

(** ** [pool.rs], [txn.rs], [validator_info.rs] *)

Definition PoolConfigOperation_new (writes force : bool) : SJsonMap :=
  [("type", String_ POOL_CONFIG); ("writes", Bool writes); ("force", Bool force)].

Definition PoolRestartOperation_new (action : string) (datetime : option string) : SJsonMap :=
  [("type", String_ POOL_RESTART); ("action", String_ action)] ++ skip_none "datetime" String_ datetime.

(** The schedule is a [HashMap]. *)
Definition PoolUpgradeOperation_new `{HashOrder} (name version action sha256 : string) (timeout : option N)
    (schedule : option (gmap string string)) (justification : option string) (reinstall force : bool) (package : option string) : SJsonMap :=
  [("type", String_ POOL_UPGRADE); ("name", String_ name); ("version", String_ version); ("action", String_ action);
   ("sha256", String_ sha256)] ++
  skip_none "timeout" json_uint timeout ++
  skip_none "schedule" (fun m => Object (prod_map id String_ <$> hash_iter m)) schedule ++
  skip_none "justification" String_ justification ++
  [("reinstall", Bool reinstall); ("force", Bool force)] ++ skip_none "package" String_ package.

Definition GetTxnOperation_new (data ledger_id : Z) : SJsonMap :=
  [("type", String_ GET_TXN); ("data", json_int data); ("ledgerId", json_int ledger_id)].

Inductive LedgerType := POOL | DOMAIN | CONFIG.

Definition LedgerType_to_id (self : LedgerType) : Z := match self with POOL => 0 | DOMAIN => 1 | CONFIG => 2 end.

(** The variant of a name *)
Definition LedgerType_of (name : string) : option LedgerType :=
  (list_to_map [("POOL", POOL); ("DOMAIN", DOMAIN); ("CONFIG", CONFIG)] : gmap string LedgerType) !! name.

Definition GetValidatorInfoOperation_new : SJsonMap := [("type", String_ GET_VALIDATOR_INFO)].

(** ** [schema.rs] *)

(** The attributes' names are a [HashSet]. *)
Record SchemaOperationData := mk_schema_data { sd_name : string; sd_version : string; sd_attr_names : gset string }.

Definition SchemaOperation_new `{HashOrder} (data : SchemaOperationData) : SJsonMap :=
  [("type", String_ SCHEMA);
   ("data", Object [("name", String_ (sd_name data)); ("version", String_ (sd_version data));
     ("attr_names", Array (String_ <$> set_iter (sd_attr_names data)))])].

Definition GetSchemaOperation_new (dest name version : string) : SJsonMap :=
  [("type", String_ GET_SCHEMA); ("dest", String_ dest);
   ("data", Object [("name", String_ name); ("version", String_ version)])].

(** ** [auth_rule.rs] *)

Inductive AuthAction := ADD | EDIT.

Definition AuthAction_name (self : AuthAction) : string := match self with ADD => "ADD" | EDIT => "EDIT" end.
Definition AuthAction_of (name : string) : option AuthAction :=
  (list_to_map [("ADD", ADD); ("EDIT", EDIT)] : gmap string AuthAction) !! name.

Inductive Constraint :=
| OrConstraint (auth_constraints : list Constraint)
| AndConstraint (auth_constraints : list Constraint)
| RoleConstraint (sig_count : option N) (role : option string) (metadata : option SJsonValue) (need_to_be_owner : option bool).

Fixpoint Constraint_value (self : Constraint) : SJsonValue :=
  match self with
  | OrConstraint l => Object [("constraint_id", String_ "OR"); ("auth_constraints", Array (Constraint_value <$> l))]
  | AndConstraint l => Object [("constraint_id", String_ "AND"); ("auth_constraints", Array (Constraint_value <$> l))]
  | RoleConstraint sig_count role metadata need_to_be_owner =>
      Object ([("constraint_id", String_ "ROLE"); ("sig_count", or_null json_uint sig_count); ("role", or_null String_ role)] ++
        skip_none "metadata" id metadata ++ skip_none "need_to_be_owner" Bool need_to_be_owner)
  end.

(** The fields that the operations on rules share; only that of editing has an old value. *)
Definition rule_fields (_type auth_type field : string) (auth_action : AuthAction) (old_value new_value : option string) : SJsonMap :=
  [("type", String_ _type); ("auth_type", String_ auth_type); ("field", String_ field);
   ("auth_action", String_ (AuthAction_name auth_action))] ++
  match auth_action with ADD => [] | EDIT => [("old_value", or_null String_ old_value)] end ++
  [("new_value", or_null String_ new_value)].

Definition AuthRuleOperation_new (auth_type field : string) (auth_action : AuthAction) (old_value new_value : option string)
    (constraint : Constraint) : SJsonMap :=
  rule_fields AUTH_RULE auth_type field auth_action old_value new_value ++ [("constraint", Constraint_value constraint)].

Definition GetAuthRuleOperation_get_all : SJsonMap := [("type", String_ GET_AUTH_RULE)].

Definition GetAuthRuleOperation_get_one (auth_type field : string) (auth_action : AuthAction) (old_value new_value : option string) :
    SJsonMap :=
  rule_fields GET_AUTH_RULE auth_type field auth_action old_value new_value.

(** ** Results of replies: [response.rs] and the [Get...ReplyResult] of each file *)

(** [GetReplyResultV1]: the data of the transaction, [seqNo] and [creationTime] of [TxnMetadata] *)
Record GetReplyResultV1 (T : Type) := mk_result_v1 { txn_data : T; tm_seq_no : N; tm_creation_time : N }.
Arguments mk_result_v1 {T} _ _ _.
Arguments txn_data {T} _.
Arguments tm_seq_no {T} _.
Arguments tm_creation_time {T} _.

(** The [type] of replies to a kind of request *)
Class ReplyType (T : Type) := get_type : string.

Record GetSchemaResultV0 := mk_schema_v0 { s0_seq_no : N; s0_data : SchemaOperationData; s0_dest : string }.
Record GetSchemaResultDataV1 := mk_schema_v1 {
  s1_ver : string;
  s1_id : string;
  s1_schema_name : string;
  s1_schema_version : string;
  s1_attr_names : gset string;
}.
Inductive GetSchemaReplyResult :=
| GetSchemaReplyResultV0 (res : GetSchemaResultV0)
| GetSchemaReplyResultV1 (res : GetReplyResultV1 GetSchemaResultDataV1).
#[export] Instance schema_reply_type : ReplyType GetSchemaReplyResult := GET_SCHEMA.

Section results.
Context `{CLTypes} `{TailsLib} `{!CLRevocation}.

(** [CredentialDefinitionData] *)
Record CredentialDefinitionData := mk_cred_def_data { dd_primary : ClPrimaryKey; dd_revocation : option ClRevocationKey }.

(** There is one type of signatures; the field of a result is left out. *)
Record GetCredDefResultV0 := mk_cred_def_v0 { c0_ref : N; c0_seq_no : Z; c0_origin : string; c0_tag : option string; c0_data : CredentialDefinitionData }.
Record GetCredDefResultDataV1 := mk_cred_def_v1 {
  c1_ver : string;
  c1_id : string;
  c1_tag : string;
  c1_schema_ref : string;
  c1_public_keys : CredentialDefinitionData;
}.
Inductive GetCredDefReplyResult :=
| GetCredDefReplyResultV0 (res : GetCredDefResultV0)
| GetCredDefReplyResultV1 (res : GetReplyResultV1 GetCredDefResultDataV1).
#[global] Instance cred_def_reply_type : ReplyType GetCredDefReplyResult := GET_CRED_DEF.

Inductive GetRevocRegDefReplyResult :=
| GetRevocRegDefReplyResultV0 (d0_seq_no : Z) (data : RevocationRegistryDefinitionV1)
| GetRevocRegDefReplyResultV1 (res : GetReplyResultV1 RevocationRegistryDefinitionV1).
#[global] Instance registry_def_reply_type : ReplyType GetRevocRegDefReplyResult := GET_REVOC_REG_DEF.

(** A registry is its accumulator ([RevocationRegistryV1]). *)
Record GetRevocRegResultV0 := mk_registry_v0 { r0_seq_no : Z; r0_revoc_reg_def_id : string; r0_data : ClRevReg; r0_txn_time : N }.
Record GetRevocRegDataV1 := mk_registry_v1 { r1_revoc_reg_def_id : string; r1_value : ClRevReg }.
Inductive GetRevocRegReplyResult :=
| GetRevocRegReplyResultV0 (res : GetRevocRegResultV0)
| GetRevocRegReplyResultV1 (res : GetReplyResultV1 GetRevocRegDataV1).
#[global] Instance registry_reply_type : ReplyType GetRevocRegReplyResult := GET_REVOC_REG.

Record AccumulatorState := mk_accumulator { as_value : ClRevReg; as_txn_time : N }.
(** [RevocationRegistryDeltaData], of one field, and its [RevocationRegistryDeltaValue] *)
Record RevocationRegistryDeltaValue := mk_delta_value {
  accum_from : option AccumulatorState;
  accum_to : AccumulatorState;
  issued : gset N;
  revoked : gset N;
}.
Record GetRevocRegDeltaResultV0 := mk_delta_v0 { e0_seq_no : Z; e0_revoc_reg_def_id : string; e0_data : RevocationRegistryDeltaValue }.
Record GetRevocRegDeltaDataV1 := mk_delta_v1 { e1_revoc_reg_def_id : string; e1_value : RevocationRegistryDeltaValue }.
Inductive GetRevocRegDeltaReplyResult :=
| GetRevocRegDeltaReplyResultV0 (res : GetRevocRegDeltaResultV0)
| GetRevocRegDeltaReplyResultV1 (res : GetReplyResultV1 GetRevocRegDeltaDataV1).
#[global] Instance delta_reply_type : ReplyType GetRevocRegDeltaReplyResult := GET_REVOC_REG_DELTA.
End results.
Arguments mk_cred_def_data {_} _ _.
Arguments mk_cred_def_v0 {_} _ _ _ _ _.
Arguments mk_cred_def_v1 {_} _ _ _ _ _.
Arguments mk_registry_v0 {_} _ _ _ _.
Arguments mk_registry_v1 {_} _ _.
Arguments mk_accumulator {_} _ _.
Arguments mk_delta_value {_} _ _ _ _.
Arguments mk_delta_v0 {_} _ _ _.
Arguments mk_delta_v1 {_} _ _.

(** ** serde *)

(** [from_value::<Message<T>>] *)
Class MessageCodec (T : Type) := message_from_value : SJsonValue -> option (Message T).

Class LedgerCodecs `{CLTypes} `{TailsLib} `{!CLRevocation} := {
  schedule_from_str : string -> option (gmap string string);
  constraint_from_str : string -> option Constraint;
  (** The operation of what [from_str::<Request<Value>>] reads *)
  request_operation_from_str : string -> option SJsonValue;
  cred_def_data_to_value : CredentialDefinitionData -> option SJsonValue;
  accum_key_to_value : ClAccumKey -> option SJsonValue;
  delta_to_value : ClDelta -> option SJsonValue;
  schema_messages :: MessageCodec GetSchemaReplyResult;
  cred_def_messages :: MessageCodec GetCredDefReplyResult;
  registry_def_messages :: MessageCodec GetRevocRegDefReplyResult;
  registry_messages :: MessageCodec GetRevocRegReplyResult;
  delta_messages :: MessageCodec GetRevocRegDeltaReplyResult;
  schema_text : SchemaV1 -> option string;
  cred_def_text : CredentialDefinition -> option string;
  registry_def_text : RevocationRegistryDefinitionV1 -> option string;
  registry_text : ClRevReg -> option string;
  delta_text : ClDelta -> option string;
}.

(** ** Operations of issuers: [cred_def.rs], [rev_reg_def.rs], [rev_reg.rs] *)

Section operations.
Context `{CLTypes} `{TailsLib} `{!CLRevocation} `{!LedgerCodecs}.

(** The number of the schema is 0 when its identifier is no number. *)
Definition CredDefOperation_new (is_node_1_3 : bool) (data : CredentialDefinition) : option SJsonMap :=
  value ← cred_def_data_to_value (mk_cred_def_data (cd_primary data) (cd_revocation data));
  Some ([("ref", json_int (default 0%Z (parse_i32 (cd_schema_id data)))); ("data", value); ("type", String_ CRED_DEF);
    ("signature_type", String_ "CL")] ++
    skip_none "tag" String_ (if is_node_1_3 then None else Some (cd_tag data)))%list.

Definition GetCredDefOperation_new (_ref : Z) (signature_type origin : string) (tag : option string) : SJsonMap :=
  [("type", String_ GET_CRED_DEF); ("ref", json_int _ref); ("signature_type", String_ signature_type); ("origin", String_ origin)] ++
  skip_none "tag" String_ tag.

Definition IssuanceType_name (self : IssuanceType) : string :=
  match self with ISSUANCE_BY_DEFAULT => "ISSUANCE_BY_DEFAULT" | ISSUANCE_ON_DEMAND => "ISSUANCE_ON_DEMAND" end.

(** [RevocationRegistryDefinitionValue] *)
Definition registry_value_fields (def : RevocationRegistryDefinitionV1) : option SJsonMap :=
  accum_key ← accum_key_to_value (rd_accum_key def);
  Some [("issuanceType", String_ (IssuanceType_name (rd_issuance_type def))); ("maxCredNum", json_uint (rd_max_cred_num def));
    ("publicKeys", Object [("accumKey", accum_key)]); ("tailsHash", String_ (rd_tails_hash def));
    ("tailsLocation", String_ (rd_tails_location def))].

Definition RevRegDefOperation_new (rev_reg_def : RevocationRegistryDefinitionV1) : option SJsonMap :=
  value ← registry_value_fields rev_reg_def;
  Some [("type", String_ REVOC_REG_DEF); ("id", String_ (rd_id rev_reg_def)); ("revocDefType", String_ "CL_ACCUM");
    ("tag", String_ (rd_tag rev_reg_def)); ("credDefId", String_ (rd_cred_def_id rev_reg_def)); ("value", Object value)].

Definition GetRevRegDefOperation_new (id : string) : SJsonMap := [("type", String_ GET_REVOC_REG_DEF); ("id", String_ id)].

Definition RevRegEntryOperation_new (rev_def_type revoc_reg_def_id : string) (value : ClDelta) : option SJsonMap :=
  value ← delta_to_value value;
  Some [("type", String_ REVOC_REG_ENTRY); ("revocRegDefId", String_ revoc_reg_def_id); ("revocDefType", String_ rev_def_type);
    ("value", value)].

Definition GetRevRegOperation_new (revoc_reg_def_id : string) (timestamp : Z) : SJsonMap :=
  [("type", String_ GET_REVOC_REG); ("revocRegDefId", String_ revoc_reg_def_id); ("timestamp", json_int timestamp)].

Definition GetRevRegDeltaOperation_new (revoc_reg_def_id : string) (from : option Z) (to : Z) : SJsonMap :=
  [("type", String_ GET_REVOC_REG_DELTA); ("revocRegDefId", String_ revoc_reg_def_id)] ++
  skip_none "from" json_int from ++ [("to", json_int to)].
End operations.
