(* ===== verification/LedgerService.v ===== *)
(** * LedgerService: requests to the ledger, and what its replies say

    Models [libindy/src/services/ledger/mod.rs] (the trees of its directory are in
    [MerkleTree.v]): a method makes the text of a request, or takes what a user asked for
    out of the text of a reply.  [self] has no fields. *)

From stdpp Require Import gmap.
From S2P Require Import StateProof Prelude Errors Json PoolTypes WalletService Anoncreds Tails Revocation IssuerCommands Response LedgerTypes.

Section ledger.
Context `{Machine} `{HashOrder} `{JsonText} `{CLTypes} `{TailsLib} `{!CLRevocation} `{!LedgerCodecs}.
Context (env : Surroundings).

(** ** Requests of any kind *)

Definition role_code (r : string) : IndyResult SJsonValue :=
  if decide (r = ROLE_REMOVE) then Ok Null
  else if decide (r = "STEWARD"%string) then Ok (String_ STEWARD)
  else if decide (r = "TRUSTEE"%string) then Ok (String_ TRUSTEE)
  else if decide (r = "TRUST_ANCHOR"%string) then Ok (String_ TRUST_ANCHOR)
  else if decide (r = "NETWORK_MONITOR"%string) then Ok (String_ NETWORK_MONITOR)
  else Err InvalidStructure.

(** [if let Some(v) = v { operation[key] = String(v) }] *)
Definition set_text (key : string) (v : option string) (operation : SJsonMap) : SJsonMap :=
  match v with Some v => obj_insert key (String_ v) operation | None => operation end.

Definition build_nym_request (identifier dest : string) (verkey alias role : option string) : IndyResult string :=
  let operation := obj_insert "dest" (String_ dest) (obj_insert "type" (String_ NYM) []) in
  let operation := set_text "alias" alias (set_text "verkey" verkey operation) in
  operation ← match role with
    | Some r => code ← role_code r; Ok (obj_insert "role" code operation)
    | None => Ok operation
    end;
  build_request env (Some identifier) (Some operation).

Definition build_get_nym_request (identifier : option string) (dest : string) : IndyResult string :=
  build_request env identifier (Some (GetNymOperation_new dest)).

Definition build_get_ddo_request (identifier : option string) (dest : string) : IndyResult string :=
  build_request env identifier (Some (GetDdoOperation_new dest)).

Definition build_attrib_request (identifier dest : string) (hash raw enc : option string) : IndyResult string :=
  if decide (raw = None /\ hash = None /\ enc = None) then Err InvalidStructure
  else
    _ ← match raw with
      | Some raw => _ ← ok_or (from_str raw) InvalidStructure; Ok tt
      | None => Ok tt
      end;
    build_request env (Some identifier) (Some (AttribOperation_new dest hash raw enc)).

Definition build_get_attrib_request (identifier : option string) (dest : string) (raw hash enc : option string) : IndyResult string :=
  if decide (raw = None /\ hash = None /\ enc = None) then Err InvalidStructure
  else build_request env identifier (Some (GetAttribOperation_new dest raw hash enc)).

Definition build_schema_request (identifier : string) (schema : SchemaV1) : IndyResult string :=
  if decide (MAX_ATTRIBUTES_COUNT < size (attr_names schema)) then Err InvalidStructure
  else
    let schema_data := mk_schema_data (sc_name schema) (sc_version schema) (attr_names schema) in
    build_request env (Some identifier) (Some (SchemaOperation_new schema_data)).

Definition build_get_schema_request (identifier : option string) (id : string) : IndyResult string :=
  let parts := split_terminator DELIMITER id in
  dest ← ok_or (parts !! 0) InvalidStructure;
  name ← ok_or (parts !! 2) InvalidStructure;
  version ← ok_or (parts !! 3) InvalidStructure;
  build_request env identifier (Some (GetSchemaOperation_new dest name version)).

Definition build_cred_def_request (identifier : string) (cred_def : CredentialDefinition) : IndyResult string :=
  build_request env (Some identifier) (CredDefOperation_new (is_node_1_3 env) cred_def).

Definition build_get_cred_def_request (identifier : option string) (id : string) : IndyResult string :=
  let parts := split_terminator DELIMITER id in
  origin ← ok_or (parts !! 0) InvalidStructure;
  ref_ ← ok_or (parts !! 3) InvalidStructure;
  ref_ ← ok_or (parse_i32 ref_) InvalidStructure;
  signature_type ← ok_or (parts !! 2) InvalidStructure;
  let tag := parts !! 4 in
  build_request env identifier (Some (GetCredDefOperation_new ref_ signature_type origin tag)).

(** Whether no field, or none of the four addresses, is given *)
Definition all_missed (data : NodeOperationData) : bool :=
  bool_decide (node_ip data = None /\ node_port data = None /\ client_ip data = None /\ client_port data = None /\
    services data = None /\ blskey data = None /\ blskey_pop data = None).
Definition some_address (data : NodeOperationData) : bool :=
  bool_decide (is_Some (node_ip data) \/ is_Some (node_port data) \/ is_Some (client_ip data) \/ is_Some (client_port data)).
Definition address_missed (data : NodeOperationData) : bool :=
  bool_decide (node_ip data = None \/ node_port data = None \/ client_ip data = None \/ client_port data = None).

Definition build_node_request (identifier dest : string) (data : NodeOperationData) : IndyResult string :=
  if all_missed data then Err InvalidStructure
  else if some_address data && address_missed data then Err InvalidStructure
  else build_request env (Some identifier) (Some (NodeOperation_new dest data)).

Definition build_get_validator_info_request (identifier : string) : IndyResult string :=
  build_request env (Some identifier) (Some GetValidatorInfoOperation_new).

(** A text between quotation marks, and the text that it is in JSON *)
Definition quoted (s : string) : string :=
  let quote := String (Ascii.ascii_of_nat 34) EmptyString in (quote +:+ s +:+ quote)%string.
Definition from_quoted {A} (variant_of : string -> option A) (s : string) : option A :=
  v ← from_str (quoted s); name ← as_str v; variant_of name.

Definition build_get_txn_request (identifier ledger_type : option string) (seq_no : Z) : IndyResult string :=
  ledger_id ← match ledger_type with
    | Some type_ =>
        match from_quoted LedgerType_of type_ with
        | Some type_ => Ok (LedgerType_to_id type_)
        | None => ok_or (parse_i32 type_) InvalidStructure
        end
    | None => Ok (LedgerType_to_id DOMAIN)
    end;
  build_request env identifier (Some (GetTxnOperation_new seq_no ledger_id)).

Definition build_pool_config (identifier : string) (writes force : bool) : IndyResult string :=
  build_request env (Some identifier) (Some (PoolConfigOperation_new writes force)).

Definition is_pool_action (action : string) : bool := bool_decide (action = "start"%string \/ action = "cancel"%string).

Definition build_pool_restart (identifier action : string) (datetime : option string) : IndyResult string :=
  if negb (is_pool_action action) then Err InvalidStructure
  else build_request env (Some identifier) (Some (PoolRestartOperation_new action datetime)).

Definition build_pool_upgrade (identifier name version action sha256 : string) (timeout : option N) (schedule justification : option string)
    (reinstall force : bool) (package : option string) : IndyResult string :=
  schedule ← match schedule with
    | Some schedule => schedule ← ok_or (schedule_from_str schedule) InvalidStructure; Ok (Some schedule)
    | None => Ok None
    end;
  if negb (is_pool_action action) then Err InvalidStructure
  else if decide (action = "start"%string /\ schedule = None) then Err InvalidStructure
  else build_request env (Some identifier)
    (Some (PoolUpgradeOperation_new name version action sha256 timeout schedule justification reinstall force package)).

Definition build_revoc_reg_def_request (identifier : string) (rev_reg_def : RevocationRegistryDefinitionV1) : IndyResult string :=
  build_request env (Some identifier) (RevRegDefOperation_new rev_reg_def).

Definition build_get_revoc_reg_def_request (identifier : option string) (id : string) : IndyResult string :=
  build_request env identifier (Some (GetRevRegDefOperation_new id)).

Definition build_revoc_reg_entry_request (identifier revoc_reg_def_id revoc_def_type : string) (rev_reg_entry : ClDelta) : IndyResult string :=
  build_request env (Some identifier) (RevRegEntryOperation_new revoc_def_type revoc_reg_def_id rev_reg_entry).

Definition build_get_revoc_reg_request (identifier : option string) (revoc_reg_def_id : string) (timestamp : Z) : IndyResult string :=
  build_request env identifier (Some (GetRevRegOperation_new revoc_reg_def_id timestamp)).

Definition build_get_revoc_reg_delta_request (identifier : option string) (revoc_reg_def_id : string) (from : option Z) (to : Z) :
    IndyResult string :=
  build_request env identifier (Some (GetRevRegDeltaOperation_new revoc_reg_def_id from to)).

Definition build_auth_rule_request (submitter_did txn_type action field : string) (old_value new_value : option string) (constraint : string) :
    IndyResult string :=
  txn_type ← ok_or (txn_name_to_code txn_type) InvalidStructure;
  action ← ok_or (from_quoted AuthAction_of action) InvalidStructure;
  constraint ← ok_or (constraint_from_str constraint) InvalidStructure;
  build_request env (Some submitter_did) (Some (AuthRuleOperation_new txn_type field action old_value new_value constraint)).

Definition build_get_auth_rule_request (submitter_did auth_type auth_action field old_value new_value : option string) : IndyResult string :=
  operation ← match auth_type, auth_action, field with
    | None, None, None => Ok GetAuthRuleOperation_get_all
    | Some auth_type, Some auth_action, Some field =>
        type_ ← ok_or (txn_name_to_code auth_type) InvalidStructure;
        action ← ok_or (from_quoted AuthAction_of auth_action) InvalidStructure;
        Ok (GetAuthRuleOperation_get_one type_ field action old_value new_value)
    | _, _, _ => Err InvalidStructure
    end;
  build_request env submitter_did (Some operation).

(** ** Replies *)

Local Open Scope json_scope.

Definition parse_response (T : Type) `{!ReplyType T} `{!MessageCodec T} (response : string) : IndyResult (Reply T) :=
  message ← ok_or (from_str response) InvalidTransaction;
  if decide (message.["op"] = String_ "REPLY" /\ message.["result"].["type"] <> String_ (get_type (T:=T))) then Err InvalidTransaction
  else
    message ← ok_or (message_from_value message : option (Message T)) LedgerItemNotFound;
    match message with
    | Reject _ | ReqNACK _ => Err InvalidTransaction
    | MReply reply => Ok reply
    end.

Definition parse_get_schema_response (get_schema_response : string) : IndyResult (string * string) :=
  reply ← parse_response GetSchemaReplyResult get_schema_response;
  reply ← result reply;
  let schema := match reply with
    | GetSchemaReplyResultV0 res =>
        mk_schema (schema_id (s0_dest res) (sd_name (s0_data res)) (sd_version (s0_data res))) (sd_name (s0_data res))
          (sd_version (s0_data res)) (sd_attr_names (s0_data res)) (Some (s0_seq_no res))
    | GetSchemaReplyResultV1 res =>
        mk_schema (s1_id (txn_data res)) (s1_schema_name (txn_data res)) (s1_schema_version (txn_data res))
          (s1_attr_names (txn_data res)) (Some (tm_seq_no res))
    end in
  text ← ok_or (schema_text schema) InvalidState;
  Ok (sc_id schema, text).

Definition parse_get_cred_def_response (get_cred_def_response : string) : IndyResult (string * string) :=
  reply ← parse_response GetCredDefReplyResult get_cred_def_response;
  reply ← result reply;
  let cred_def := match reply with
    | GetCredDefReplyResultV0 res =>
        let tag := default ""%string (c0_tag res) in
        mk_cred_def (cred_def_id (is_node_1_3 env) (c0_origin res) (pretty (c0_ref res)) "CL" tag) (pretty (c0_ref res)) tag
          (dd_primary (c0_data res)) (dd_revocation (c0_data res))
    | GetCredDefReplyResultV1 res =>
        mk_cred_def (c1_id (txn_data res)) (c1_schema_ref (txn_data res)) (c1_tag (txn_data res))
          (dd_primary (c1_public_keys (txn_data res))) (dd_revocation (c1_public_keys (txn_data res)))
    end in
  text ← ok_or (cred_def_text cred_def) InvalidState;
  Ok (cd_id cred_def, text).

Definition parse_get_revoc_reg_def_response (get_revoc_reg_def_response : string) : IndyResult (string * string) :=
  reply ← parse_response GetRevocRegDefReplyResult get_revoc_reg_def_response;
  reply ← result reply;
  let revoc_reg_def := match reply with
    | GetRevocRegDefReplyResultV0 _ data => data
    | GetRevocRegDefReplyResultV1 res => txn_data res
    end in
  text ← ok_or (registry_def_text revoc_reg_def) InvalidState;
  Ok (rd_id revoc_reg_def, text).

Definition parse_get_revoc_reg_response (get_revoc_reg_response : string) : IndyResult (string * string * N) :=
  reply ← parse_response GetRevocRegReplyResult get_revoc_reg_response;
  reply ← result reply;
  let '(revoc_reg_def_id, revoc_reg, txn_time) := match reply with
    | GetRevocRegReplyResultV0 res => (r0_revoc_reg_def_id res, r0_data res, r0_txn_time res)
    | GetRevocRegReplyResultV1 res => (r1_revoc_reg_def_id (txn_data res), r1_value (txn_data res), tm_creation_time res)
    end in
  text ← ok_or (registry_text revoc_reg) InvalidState;
  Ok (revoc_reg_def_id, text, txn_time).

Definition parse_get_revoc_reg_delta_response (get_revoc_reg_delta_response : string) : IndyResult (string * string * N) :=
  reply ← parse_response GetRevocRegDeltaReplyResult get_revoc_reg_delta_response;
  reply ← result reply;
  let '(revoc_reg_def_id, revoc_reg) := match reply with
    | GetRevocRegDeltaReplyResultV0 res => (e0_revoc_reg_def_id res, e0_data res)
    | GetRevocRegDeltaReplyResultV1 res => (e1_revoc_reg_def_id (txn_data res), e1_value (txn_data res))
    end in
  text ← ok_or (delta_text (delta_from_parts (as_value <$> accum_from revoc_reg) (as_value (accum_to revoc_reg))
    (issued revoc_reg) (revoked revoc_reg))) InvalidState;
  Ok (revoc_reg_def_id, text, as_txn_time (accum_to revoc_reg)).

(** ** Actions *)

Definition validate_action (request : string) : IndyResult unit :=
  operation ← ok_or (request_operation_from_str request) InvalidStructure;
  match as_str operation.["type"] with
  | Some type_ => if decide (type_ = POOL_RESTART \/ type_ = GET_VALIDATOR_INFO) then Ok tt else Err InvalidStructure
  | None => Err InvalidStructure
  end.
End ledger.
