(* ===== verification/LedgerCommands.v ===== *)
(** * LedgerCommands: the commands that build requests and read replies

    Models the methods of [LedgerCommandExecutor] ([libindy/src/commands/ledger.rs]) that
    build a request or take a reply apart: they look at the DIDs and keys, and call the
    ledger service.  The methods that sign are in [RequestSigning.v]; those that send are in
    [PoolService.v].  Each has the name of its method with the prefix [cmd_]. *)

From stdpp Require Import gmap.
From S2P Require Import Prelude Errors Json PoolTypes Encryption Crypto WalletService Anoncreds Tails Revocation IssuerCommands Response LedgerTypes LedgerService.

Section commands.
Context `{Machine} `{HashOrder} `{JsonText} `{CLTypes} `{TailsLib} `{!CLRevocation} `{!LedgerCodecs} `{ResponseCodec}.
Context `{Ed25519} `{Base58} `{CryptoTexts}.
Context (env : Surroundings) (crypto_service : CryptoService).

Definition validate_opt_did (did : option string) : IndyResult unit :=
  match did with Some did => validate_did did | None => Ok tt end.

(** No DID is looked at here. *)
Definition cmd_build_get_ddo_request (submitter_did : option string) (target_did : string) : IndyResult string :=
  build_get_ddo_request env submitter_did target_did.

Definition cmd_build_nym_request (submitter_did target_did : string) (verkey alias role : option string) : IndyResult string :=
  _ ← validate_did submitter_did;
  _ ← validate_did target_did;
  _ ← match verkey with Some vk => validate_key crypto_service vk | None => Ok tt end;
  build_nym_request env submitter_did target_did verkey alias role.

Definition cmd_build_attrib_request (submitter_did target_did : string) (hash raw enc : option string) : IndyResult string :=
  _ ← validate_did submitter_did;
  _ ← validate_did target_did;
  build_attrib_request env submitter_did target_did hash raw enc.

Definition cmd_build_get_attrib_request (submitter_did : option string) (target_did : string) (raw hash enc : option string) : IndyResult string :=
  _ ← validate_opt_did submitter_did;
  _ ← validate_did target_did;
  build_get_attrib_request env submitter_did target_did raw hash enc.

Definition cmd_build_get_nym_request (submitter_did : option string) (target_did : string) : IndyResult string :=
  _ ← validate_opt_did submitter_did;
  _ ← validate_did target_did;
  build_get_nym_request env submitter_did target_did.

Definition cmd_build_schema_request (submitter_did : string) (schema : SchemaV1) : IndyResult string :=
  _ ← validate_did submitter_did;
  build_schema_request env submitter_did schema.

Definition cmd_build_get_schema_request (submitter_did : option string) (id : string) : IndyResult string :=
  _ ← validate_opt_did submitter_did;
  build_get_schema_request env submitter_did id.

Definition cmd_parse_get_schema_response (get_schema_response : string) : IndyResult (string * string) :=
  parse_get_schema_response get_schema_response.

Definition cmd_build_cred_def_request (submitter_did : string) (cred_def : CredentialDefinition) : IndyResult string :=
  _ ← validate_did submitter_did;
  build_cred_def_request env submitter_did cred_def.

Definition cmd_build_get_cred_def_request (submitter_did : option string) (id : string) : IndyResult string :=
  _ ← validate_opt_did submitter_did;
  build_get_cred_def_request env submitter_did id.

Definition cmd_parse_get_cred_def_response (get_cred_def_response : string) : IndyResult (string * string) :=
  parse_get_cred_def_response env get_cred_def_response.

Definition cmd_build_node_request (submitter_did target_did : string) (data : NodeOperationData) : IndyResult string :=
  _ ← validate_did submitter_did;
  build_node_request env submitter_did target_did data.

Definition cmd_build_get_validator_info_request (submitter_did : string) : IndyResult string :=
  _ ← validate_did submitter_did;
  build_get_validator_info_request env submitter_did.

Definition cmd_build_get_txn_request (submitter_did ledger_type : option string) (seq_no : Z) : IndyResult string :=
  _ ← validate_opt_did submitter_did;
  build_get_txn_request env submitter_did ledger_type seq_no.

Definition cmd_build_pool_config_request (submitter_did : string) (writes force : bool) : IndyResult string :=
  _ ← validate_did submitter_did;
  build_pool_config env submitter_did writes force.

Definition cmd_build_pool_restart_request (submitter_did action : string) (datetime : option string) : IndyResult string :=
  _ ← validate_did submitter_did;
  build_pool_restart env submitter_did action datetime.

Definition cmd_build_pool_upgrade_request (submitter_did name version action sha256 : string) (timeout : option N)
    (schedule justification : option string) (reinstall force : bool) (package : option string) : IndyResult string :=
  _ ← validate_did submitter_did;
  build_pool_upgrade env submitter_did name version action sha256 timeout schedule justification reinstall force package.

Definition cmd_build_revoc_reg_def_request (submitter_did : string) (data : RevocationRegistryDefinitionV1) : IndyResult string :=
  _ ← validate_did submitter_did;
  build_revoc_reg_def_request env submitter_did data.

Definition cmd_build_get_revoc_reg_def_request (submitter_did : option string) (id : string) : IndyResult string :=
  _ ← validate_opt_did submitter_did;
  build_get_revoc_reg_def_request env submitter_did id.

Definition cmd_parse_revoc_reg_def_response (get_revoc_reg_def_response : string) : IndyResult (string * string) :=
  parse_get_revoc_reg_def_response get_revoc_reg_def_response.

Definition cmd_build_revoc_reg_entry_request (submitter_did revoc_reg_def_id revoc_def_type : string) (value : ClDelta) : IndyResult string :=
  _ ← validate_did submitter_did;
  build_revoc_reg_entry_request env submitter_did revoc_reg_def_id revoc_def_type value.

Definition cmd_build_get_revoc_reg_request (submitter_did : option string) (revoc_reg_def_id : string) (timestamp : Z) : IndyResult string :=
  _ ← validate_opt_did submitter_did;
  build_get_revoc_reg_request env submitter_did revoc_reg_def_id timestamp.

Definition cmd_parse_revoc_reg_response (get_revoc_reg_response : string) : IndyResult (string * string * N) :=
  parse_get_revoc_reg_response get_revoc_reg_response.

Definition cmd_build_get_revoc_reg_delta_request (submitter_did : option string) (revoc_reg_def_id : string) (from : option Z) (to : Z) :
    IndyResult string :=
  _ ← validate_opt_did submitter_did;
  build_get_revoc_reg_delta_request env submitter_did revoc_reg_def_id from to.

Definition cmd_parse_revoc_reg_delta_response (get_revoc_reg_delta_response : string) : IndyResult (string * string * N) :=
  parse_get_revoc_reg_delta_response get_revoc_reg_delta_response.

(** serde prints the numbers that are there. *)
Definition ResponseMetadata_fields (metadata : ResponseMetadata) : SJsonMap :=
  skip_none "seqNo" json_uint (Response.seq_no metadata) ++ skip_none "txnTime" json_uint (Response.txn_time metadata) ++
  skip_none "lastTxnTime" json_uint (last_txn_time metadata) ++ skip_none "lastSeqNo" json_uint (last_seq_no metadata).

Definition cmd_get_response_metadata (response : string) : IndyResult string :=
  metadata ← parse_response_metadata response;
  Ok (to_string (Object (ResponseMetadata_fields metadata))).

Definition cmd_build_auth_rule_request (submitter_did txn_type action field : string) (old_value new_value : option string) (constraint : string) :
    IndyResult string :=
  _ ← validate_opt_did (Some submitter_did);
  build_auth_rule_request env submitter_did txn_type action field old_value new_value constraint.

Definition cmd_build_get_auth_rule_request (submitter_did txn_type action field old_value new_value : option string) : IndyResult string :=
  _ ← validate_opt_did submitter_did;
  build_get_auth_rule_request env submitter_did txn_type action field old_value new_value.

(** ** [execute], for the commands that build a request *)

(** The [Build...] variants of [LedgerCommand], without their callback *)
Inductive LedgerCommand :=
| BuildGetDdoRequest (submitter_did : option string) (target_did : string)
| BuildNymRequest (submitter_did target_did : string) (verkey alias role : option string)
| BuildAttribRequest (submitter_did target_did : string) (hash raw enc : option string)
| BuildGetAttribRequest (submitter_did : option string) (target_did : string) (raw hash enc : option string)
| BuildGetNymRequest (submitter_did : option string) (target_did : string)
| BuildSchemaRequest (submitter_did : string) (schema : SchemaV1)
| BuildGetSchemaRequest (submitter_did : option string) (id : string)
| BuildCredDefRequest (submitter_did : string) (cred_def : CredentialDefinition)
| BuildGetCredDefRequest (submitter_did : option string) (id : string)
| BuildNodeRequest (submitter_did target_did : string) (data : NodeOperationData)
| BuildGetValidatorInfoRequest (submitter_did : string)
| BuildGetTxnRequest (submitter_did ledger_type : option string) (seq_no : Z)
| BuildPoolConfigRequest (submitter_did : string) (writes force : bool)
| BuildPoolRestartRequest (submitter_did action : string) (datetime : option string)
| BuildPoolUpgradeRequest (submitter_did name version action sha256 : string) (timeout : option N) (schedule justification : option string)
    (reinstall force : bool) (package : option string)
| BuildRevocRegDefRequest (submitter_did : string) (data : RevocationRegistryDefinitionV1)
| BuildGetRevocRegDefRequest (submitter_did : option string) (id : string)
| BuildRevocRegEntryRequest (submitter_did revoc_reg_def_id revoc_def_type : string) (value : ClDelta)
| BuildGetRevocRegRequest (submitter_did : option string) (revoc_reg_def_id : string) (timestamp : Z)
| BuildGetRevocRegDeltaRequest (submitter_did : option string) (revoc_reg_def_id : string) (from : option Z) (to : Z)
| BuildAuthRuleRequest (submitter_did txn_type action field : string) (old_value new_value : option string) (constraint : string)
| BuildGetAuthRuleRequest (submitter_did txn_type action field old_value new_value : option string).

(** What the callback of a command is given *)
Definition execute (command : LedgerCommand) : IndyResult string :=
  match command with
  | BuildGetDdoRequest submitter_did target_did => cmd_build_get_ddo_request submitter_did target_did
  | BuildNymRequest submitter_did target_did verkey alias role => cmd_build_nym_request submitter_did target_did verkey alias role
  | BuildAttribRequest submitter_did target_did hash raw enc => cmd_build_attrib_request submitter_did target_did hash raw enc
  | BuildGetAttribRequest submitter_did target_did raw hash enc => cmd_build_get_attrib_request submitter_did target_did raw hash enc
  | BuildGetNymRequest submitter_did target_did => cmd_build_get_nym_request submitter_did target_did
  | BuildSchemaRequest submitter_did schema => cmd_build_schema_request submitter_did schema
  | BuildGetSchemaRequest submitter_did id => cmd_build_get_schema_request submitter_did id
  | BuildCredDefRequest submitter_did cred_def => cmd_build_cred_def_request submitter_did cred_def
  | BuildGetCredDefRequest submitter_did id => cmd_build_get_cred_def_request submitter_did id
  | BuildNodeRequest submitter_did target_did data => cmd_build_node_request submitter_did target_did data
  | BuildGetValidatorInfoRequest submitter_did => cmd_build_get_validator_info_request submitter_did
  | BuildGetTxnRequest submitter_did ledger_type seq_no => cmd_build_get_txn_request submitter_did ledger_type seq_no
  | BuildPoolConfigRequest submitter_did writes force => cmd_build_pool_config_request submitter_did writes force
  | BuildPoolRestartRequest submitter_did action datetime => cmd_build_pool_restart_request submitter_did action datetime
  | BuildPoolUpgradeRequest submitter_did name version action sha256 timeout schedule justification reinstall force package =>
      cmd_build_pool_upgrade_request submitter_did name version action sha256 timeout schedule justification reinstall force package
  | BuildRevocRegDefRequest submitter_did data => cmd_build_revoc_reg_def_request submitter_did data
  | BuildGetRevocRegDefRequest submitter_did id => cmd_build_get_revoc_reg_def_request submitter_did id
  | BuildRevocRegEntryRequest submitter_did revoc_reg_def_id revoc_def_type value =>
      cmd_build_revoc_reg_entry_request submitter_did revoc_reg_def_id revoc_def_type value
  | BuildGetRevocRegRequest submitter_did revoc_reg_def_id timestamp => cmd_build_get_revoc_reg_request submitter_did revoc_reg_def_id timestamp
  | BuildGetRevocRegDeltaRequest submitter_did revoc_reg_def_id from to =>
      cmd_build_get_revoc_reg_delta_request submitter_did revoc_reg_def_id from to
  | BuildAuthRuleRequest submitter_did txn_type action field old_value new_value constraint =>
      cmd_build_auth_rule_request submitter_did txn_type action field old_value new_value constraint
  | BuildGetAuthRuleRequest submitter_did txn_type action field old_value new_value =>
      cmd_build_get_auth_rule_request submitter_did txn_type action field old_value new_value
  end.
End commands.
