(* ===== verification/LedgerFacts.v ===== *)
(** * LedgerFacts: what the ledger service promises

    Theorems on [LedgerService.v] and [LedgerCommands.v]: a request that is built has the
    type, the submitter and the version it should have; identifiers are requested as what
    they were made of; which replies are taken apart, which are refused and which make the
    command unwind; the numbers of requests. *)

From Stdlib Require Import Strings.Ascii.
From stdpp Require Import gmap.
From S2P Require Import StateProof Prelude Errors Hashing Json Wql PoolTypes Encryption Crypto WalletService ToyTexts CryptoFacts Anoncreds AnoncredsFacts Tails TailsFacts Revocation IssuerCommands ToyIssuer RegistryFacts Response LedgerTypes LedgerService LedgerCommands.

(** ** Numbers of requests *)

Definition instant (t : Timespec) : Z := sec t * 10 ^ 9 + nsec t.
Definition proper (t : Timespec) : Prop := (0 <= sec t)%Z /\ (0 <= nsec t < 10 ^ 9)%Z.

Section numbers.
Context `{Machine}.

Lemma u64_result_ok n : (n < 2 ^ 64)%N -> u64_result n = Ok n.
Proof. unfold u64_result. by intros ->%N.ltb_lt. Qed.

Lemma u64_overflow n : (2 ^ 64 <= n)%N -> overflow_checks = true -> u64_result n = Panic.
Proof. unfold u64_result. intros Hn ->. by destruct (N.ltb_spec n (2 ^ 64)); [lia|]. Qed.

Lemma to_u64_small z : (0 <= z < 2 ^ 64)%Z -> to_u64 z = Z.to_N z.
Proof. intros Hz. unfold to_u64. by rewrite Z.mod_small. Qed.

Lemma req_id_run env : proper (first_time env) -> proper (second_time env) -> (sec (first_time env) <= 18446744072)%Z ->
  req_id_at env = Ok (Z.to_N (sec (first_time env) * 10 ^ 9 + nsec (second_time env))).
Proof.
  unfold proper, req_id_at. intros [Hs _] [_ Hn] Hmax.
  rewrite !to_u64_small by lia. rewrite (u64_result_ok (_ * _)) by lia. cbn [mbind Prelude.outcome_bind].
  rewrite u64_result_ok by lia. f_equal. lia.
Qed.

(** C38: until the year 2554 the number of a request is the time in nanoseconds at which it was made, if
    the clock did not step to the next second between the two readings that the number is
    made of, so that later requests have greater numbers; if it did, the number may be
    almost a second less, and less than that of a request made before.  Then the
    multiplication overflows. *)
Theorem request_numbers env : proper (first_time env) -> proper (second_time env) ->
  ((sec (first_time env) <= 18446744072)%Z ->
    (sec (first_time env) = sec (second_time env) -> req_id_at env = Ok (Z.to_N (instant (second_time env)))) /\
    ((sec (second_time env) = sec (first_time env) + 1)%Z -> req_id_at env = Ok (Z.to_N (instant (second_time env) - 10 ^ 9)%Z) /\
      ((nsec (second_time env) < nsec (first_time env))%Z -> forall earlier, first_time earlier = first_time env -> second_time earlier = first_time env ->
        exists n n', req_id_at earlier = Ok n /\ req_id_at env = Ok n' /\ (n' < n)%N))) /\
  ((18446744074 <= sec (first_time env) < 2 ^ 63)%Z -> overflow_checks = true -> req_id_at env = Panic).
Proof.
  intros H1 H2. split.
  - intros Hmax. pose proof (req_id_run env H1 H2 Hmax) as Hrun. unfold instant. split.
    + intros Hs. by rewrite Hrun, Hs.
    + intros Hs. split; [rewrite Hrun, Hs; do 2 f_equal; lia|].
      intros Hn earlier He1 He2. exists (Z.to_N (sec (first_time env) * 10 ^ 9 + nsec (first_time env))%Z), (Z.to_N (sec (first_time env) * 10 ^ 9 + nsec (second_time env))%Z).
      split_and!; [|done|unfold proper in *; lia]. rewrite req_id_run by (rewrite ?He1, ?He2; done). by rewrite He1, He2.
  - intros Hbig Hchecks. unfold req_id_at. rewrite (to_u64_small (sec _)) by lia. by rewrite u64_overflow by (done || lia).
Qed.
End numbers.

(** ** Numbers in identifiers *)

Lemma parse_digits_mono b b' s : (b <= b')%N -> forall acc n, parse_digits b acc s = Some n -> parse_digits b' acc s = Some n.
Proof.
  intros Hb. induction s as [|c s IH]; intros acc n; cbn; [done|]. destruct (digit_of c) as [d|]; cbn; [|done].
  destruct (N.ltb_spec (acc * 10 + d) b); [|done]. destruct (N.ltb_spec (acc * 10 + d) b'); [apply IH|lia].
Qed.

Lemma parse_uint_mono b b' s n : (b <= b')%N -> parse_uint b s = Some n -> parse_uint b' s = Some n.
Proof. intros Hb. unfold parse_uint. repeat case_match; try done; by apply parse_digits_mono. Qed.

Lemma parse_digits_no_delimiter b s : forall acc n, parse_digits b acc s = Some n -> no_delimiter s.
Proof.
  unfold no_delimiter. induction s as [|c s IH]; intros acc n; cbn; [intros _; apply not_elem_of_nil|].
  destruct (digit_of c) as [d|] eqn:Hd; cbn; [|done]. destruct (_ <? _)%N; [|done]. intros Hs%IH.
  apply not_elem_of_cons. split; [|done]. by intros <-.
Qed.

Lemma parse_uint_no_delimiter b s n : parse_uint b s = Some n -> no_delimiter s.
Proof.
  destruct s as [|c s]; [done|]. destruct (decide (c = "+"%char)) as [->|Hc].
  - destruct s as [|c s]; [done|]. intros Hs%parse_digits_no_delimiter. unfold no_delimiter. cbn [String.list_ascii_of_string].
    by apply not_elem_of_cons.
  - intros Hs. apply (parse_digits_no_delimiter b _ 0%N n). by destruct c as [[] [] [] [] [] [] [] []].
Qed.

Lemma pretty_no_delimiter (n : N) : no_delimiter (pretty n).
Proof. apply (parse_uint_no_delimiter (n + 1) _ n), parse_uint_pretty. lia. Qed.

Lemma parse_i32_pretty (n : N) : parse_i32 (pretty n) = if (n <? 2 ^ 31)%N then Some (Z.of_N n) else None.
Proof.
  pose proof (parse_uint_pretty (n + 1) n ltac:(lia)) as Hn. destruct (pretty n) as [|c s] eqn:Hs; [done|].
  assert (parse_i32 (String c s) = (m ← parse_uint (2 ^ 31) (String c s); Some (Z.of_N m))) as ->.
  { destruct (decide (c = "-"%char)) as [->|Hc]; [done|]. by destruct c as [[] [] [] [] [] [] [] []]. }
  destruct (N.ltb_spec n (2 ^ 31)); [by rewrite <-Hs, parse_uint_pretty|].
  destruct (parse_uint (2 ^ 31) (String c s)) as [m|] eqn:Hm; [|done]. exfalso.
  assert (m = n) as ->. { apply (parse_uint_mono _ (n + 1)) in Hm; [by simplify_eq|lia]. }
  apply parse_uint_lt in Hm; lia.
Qed.

Lemma parse_i32_no_delimiter s z : parse_i32 s = Some z -> no_delimiter s.
Proof.
  destruct s as [|c s]; [done|]. destruct (decide (c = "-"%char)) as [->|Hc].
  - destruct s as [|c s]; [done|]. intros (n & Hs%parse_digits_no_delimiter & _)%bind_Some. unfold no_delimiter.
    cbn [String.list_ascii_of_string]. by apply not_elem_of_cons.
  - intros Hs. assert (is_Some (parse_uint (2 ^ 31) (String c s))) as [n Hn]; [|by apply parse_uint_no_delimiter in Hn].
    destruct (parse_uint (2 ^ 31) (String c s)) as [n|] eqn:Hn; [done|]. revert Hs. unfold parse_i32. rewrite Hn.
    by destruct c as [[] [] [] [] [] [] [] []].
Qed.

Lemma str_list_app s t : String.list_ascii_of_string (s +:+ t) = String.list_ascii_of_string s ++ String.list_ascii_of_string t.
Proof. induction s as [|c s IH]; [done|]. exact (f_equal (cons c) IH). Qed.

Lemma delimited_nested l r : l <> [] -> delimited (delimited l :: r) = delimited (l ++ r).
Proof.
  intros Hl. destruct r as [|p r]; [by rewrite (right_id_L [] (++))|]. induction l as [|q l IH]; [done|]. destruct l as [|q' l]; [done|].
  specialize (IH ltac:(done)). change (delimited ((q :: q' :: l) ++ p :: r)) with (q +:+ String DELIMITER (delimited ((q' :: l) ++ p :: r)))%string.
  rewrite <-IH. change (delimited (q :: q' :: l)) with (q +:+ String DELIMITER (delimited (q' :: l)))%string.
  change (delimited (?s :: p :: r)) with (s +:+ String DELIMITER (delimited (p :: r)))%string. by rewrite str_app_assoc.
Qed.

(** The parts of an identifier whose last part is not empty *)
Lemma id_parts parts p : Forall no_delimiter parts -> last parts = Some p -> p <> ""%string ->
  split_terminator DELIMITER (delimited parts) = parts.
Proof.
  intros Hall Hl Hp. unfold split_terminator. rewrite split_delimited by (done || by destruct parts).
  by rewrite Hl, decide_False by congruence.
Qed.

(** ** Requests *)

Section requests.
Context `{Machine} `{HashOrder} `{JsonText} `{CLTypes} `{TailsLib} `{!CLRevocation} `{!LedgerCodecs} `{ResponseCodec}.
Context `{Ed25519} `{Base58} `{CryptoTexts}.
Implicit Types (env : Surroundings) (c : LedgerCommand).

Definition submitter c : option string :=
  match c with
  | BuildNymRequest did _ _ _ _ | BuildAttribRequest did _ _ _ _ | BuildSchemaRequest did _ | BuildCredDefRequest did _
  | BuildNodeRequest did _ _ | BuildGetValidatorInfoRequest did | BuildPoolConfigRequest did _ _ | BuildPoolRestartRequest did _ _
  | BuildPoolUpgradeRequest did _ _ _ _ _ _ _ _ _ _ | BuildRevocRegDefRequest did _ | BuildRevocRegEntryRequest did _ _ _
  | BuildAuthRuleRequest did _ _ _ _ _ _ => Some did
  | BuildGetDdoRequest did _ | BuildGetAttribRequest did _ _ _ _ | BuildGetNymRequest did _ | BuildGetSchemaRequest did _
  | BuildGetCredDefRequest did _ | BuildGetTxnRequest did _ _ | BuildGetRevocRegDefRequest did _ | BuildGetRevocRegRequest did _ _
  | BuildGetRevocRegDeltaRequest did _ _ _ | BuildGetAuthRuleRequest did _ _ _ _ _ => did
  end.

(** The type of a request, as a name of [txn_name_to_code] *)
Definition request_name c : string :=
  match c with
  | BuildGetDdoRequest _ _ => "GET_DDO" | BuildNymRequest _ _ _ _ _ => "NYM" | BuildAttribRequest _ _ _ _ _ => "ATTRIB"
  | BuildGetAttribRequest _ _ _ _ _ => "GET_ATTR" | BuildGetNymRequest _ _ => "GET_NYM" | BuildSchemaRequest _ _ => "SCHEMA"
  | BuildGetSchemaRequest _ _ => "GET_SCHEMA" | BuildCredDefRequest _ _ => "CRED_DEF" | BuildGetCredDefRequest _ _ => "GET_CRED_DEF"
  | BuildNodeRequest _ _ _ => "NODE" | BuildGetValidatorInfoRequest _ => "GET_VALIDATOR_INFO" | BuildGetTxnRequest _ _ _ => "GET_TXN"
  | BuildPoolConfigRequest _ _ _ => "POOL_CONFIG" | BuildPoolRestartRequest _ _ _ => "POOL_RESTART"
  | BuildPoolUpgradeRequest _ _ _ _ _ _ _ _ _ _ _ => "POOL_UPGRADE" | BuildRevocRegDefRequest _ _ => "REVOC_REG_DEF"
  | BuildGetRevocRegDefRequest _ _ => "GET_REVOC_REG_DEF" | BuildRevocRegEntryRequest _ _ _ _ => "REVOC_REG_ENTRY"
  | BuildGetRevocRegRequest _ _ _ => "GET_REVOC_REG" | BuildGetRevocRegDeltaRequest _ _ _ _ => "GET_REVOC_REG_DELTA"
  | BuildAuthRuleRequest _ _ _ _ _ _ _ => "AUTH_RULE" | BuildGetAuthRuleRequest _ _ _ _ _ _ => "GET_AUTH_RULE"
  end.

(** The code of the type; [GET_AUTH_RULE] is not among the names. *)
Definition request_code c : string := default GET_AUTH_RULE (txn_name_to_code (request_name c)).

Lemma build_request_Ok env identifier operation text : build_request env identifier operation = Ok text ->
  exists req_id op, operation = Some op /\ req_id_at env = Ok req_id /\
    text = to_string (Object (Request_new req_id (default DEFAULT_LIBIDY_DID identifier) op (PROTOCOL_VERSION env))).
Proof. unfold build_request. intros Hb. inv_ok. subst. eauto. Qed.

(** A build that returned: every condition that was looked at held. *)
Ltac built := repeat (progress inv_ok || match goal with
  | H : (if ?b then _ else _) = Ok _ |- _ => destruct b eqn:?; [try discriminate H|try discriminate H]
  | H : context [match ?x with Some _ => _ | None => _ end] |- _ => destruct x eqn:?; cbn in H; try discriminate H
  end).

Definition target c : option string :=
  match c with
  | BuildNymRequest _ did _ _ _ | BuildAttribRequest _ did _ _ _ | BuildGetAttribRequest _ did _ _ _ | BuildGetNymRequest _ did => Some did
  | _ => None
  end.

Ltac opened := unfold cmd_build_get_ddo_request, cmd_build_nym_request, cmd_build_attrib_request, cmd_build_get_attrib_request,
  cmd_build_get_nym_request, cmd_build_schema_request, cmd_build_get_schema_request, cmd_build_cred_def_request,
  cmd_build_get_cred_def_request, cmd_build_node_request, cmd_build_get_validator_info_request, cmd_build_get_txn_request,
  cmd_build_pool_config_request, cmd_build_pool_restart_request, cmd_build_pool_upgrade_request, cmd_build_revoc_reg_def_request,
  cmd_build_get_revoc_reg_def_request, cmd_build_revoc_reg_entry_request, cmd_build_get_revoc_reg_request,
  cmd_build_get_revoc_reg_delta_request, cmd_build_auth_rule_request, cmd_build_get_auth_rule_request in *;
  unfold build_get_ddo_request, build_nym_request, build_attrib_request, build_get_attrib_request, build_get_nym_request,
  build_schema_request, build_get_schema_request, build_cred_def_request, build_get_cred_def_request, build_node_request,
  build_get_validator_info_request, build_get_txn_request, build_pool_config, build_pool_restart, build_pool_upgrade,
  build_revoc_reg_def_request, build_get_revoc_reg_def_request, build_revoc_reg_entry_request, build_get_revoc_reg_request,
  build_get_revoc_reg_delta_request, build_auth_rule_request, build_get_auth_rule_request, validate_opt_did in *.

Lemma type_set_text key v m : key <> "type"%string -> obj_get "type" (set_text key v m) = obj_get "type" m.
Proof. intros Hk. destruct v; cbn [set_text]; [|done]. by rewrite obj_get_insert, decide_False. Qed.

(** The type of an operation *)
Ltac typed :=
  match goal with |- context [request_code ?c] =>
    let code := eval vm_compute in (request_code c) in replace (request_code c) with code by (vm_compute; reflexivity) end;
  unfold CredDefOperation_new, RevRegDefOperation_new, RevRegEntryOperation_new;
  repeat match goal with |- _ ≫= _ = Some _ -> _ => intros (? & _ & Hop)%bind_Some; revert Hop end;
  intros [= <-]; rewrite ?obj_get_insert, ?type_set_text by done; try reflexivity.

Lemma execute_built env crypto c text : execute env crypto c = Ok text ->
  (exists req_id operation, req_id_at env = Ok req_id /\
    text = to_string (Object (Request_new req_id (default DEFAULT_LIBIDY_DID (submitter c)) operation (PROTOCOL_VERSION env))) /\
    obj_get "type" operation = Some (String_ (request_code c))) /\
  (request_name c <> "GET_DDO"%string -> forall did, submitter c = Some did -> validate_did did = Ok tt) /\
  (forall did, target c = Some did -> validate_did did = Ok tt).
Proof.
  intros Hc. destruct c; cbn [execute] in Hc; opened; built; apply build_request_Ok in Hc as (req_id & op & Hop & Hid & ->).
  all: split; [exists req_id, op; split_and!; [done|done|]; revert Hop; typed|].
  all: cbn [submitter target request_name]; split; intros; repeat match goal with u : unit |- _ => destruct u end; simplify_eq; done.
Qed.


(** What serde reads of a request that it printed has the operation's type. *)
Definition operations_read : Prop := forall req_id identifier operation version, exists operation',
  request_operation_from_str (to_string (Object (Request_new req_id identifier operation version))) = Some operation' /\
  index operation' "type" = index (Object operation) "type".

(** of the requests that the commands build exactly those for the restart of the pool and for the information of a
    validator are sent as actions; any other is refused. *)
Theorem built_actions env crypto c text : operations_read -> execute env crypto c = Ok text ->
  validate_action text = if decide (request_name c ∈ ["POOL_RESTART"; "GET_VALIDATOR_INFO"]%string) then Ok tt else Err InvalidStructure.
Proof.
  intros Hread Hc. apply execute_built in Hc as [(req_id & op & _ & -> & Hop) _].
  destruct (Hread req_id (default DEFAULT_LIBIDY_DID (submitter c)) op (PROTOCOL_VERSION env)) as (op' & Hop' & Htype).
  unfold validate_action. rewrite Hop'. cbn [ok_or mbind Prelude.outcome_bind]. rewrite Htype. cbn [index]. rewrite Hop. cbn [default as_str].
  destruct c; vm_compute; reflexivity.
Qed.

(** *** Identifiers *)

Lemma plain_no_delimiter s : bool_decide (no_delimiter s) = true -> no_delimiter s.
Proof. apply bool_decide_eq_true_1. Qed.

(** a schema is requested by the issuer, the name and the version that its identifier was made of, and a
    definition by its issuer, the number of its schema and its tag, for parts without the delimiter and
    a last part that is not empty.  A definition of a schema that has no number yet, or one that is no
    [i32], cannot be requested, and the request that writes it says number 0 without an error. *)
Theorem ids_requested env identifier did name version tag (n : N) did' cred_def :
  Forall no_delimiter [did; name; version; tag; did'] -> version <> ""%string -> tag <> ""%string -> parse_i32 did' = None ->
  build_get_schema_request env identifier (schema_id did name version) = build_request env identifier (Some (GetSchemaOperation_new did name version)) /\
  build_get_cred_def_request env identifier (cred_def_id false did (pretty n) "CL" tag) =
    (if (n <? 2 ^ 31)%N then build_request env identifier (Some (GetCredDefOperation_new (Z.of_N n) "CL" did (Some tag))) else Err InvalidStructure) /\
  (forall v, build_get_cred_def_request env identifier (cred_def_id v did (schema_id did' name version) "CL" tag) = Err InvalidStructure) /\
  ((cd_schema_id cred_def = schema_id did' name version \/ cd_schema_id cred_def = pretty n /\ (2 ^ 31 <= n)%N) ->
    forall v op, CredDefOperation_new v cred_def = Some op -> obj_get "ref" op = Some (Number (PosInt 0))).
Proof.
  intros Hall Hversion Htag Hdid'. rewrite !Forall_cons in Hall. destruct Hall as (? & ? & ? & ? & ? & _).
  pose proof (pretty_no_delimiter n) as Hn. assert (no_delimiter "2") as Htwo by by apply plain_no_delimiter.
  assert (no_delimiter "3") as Hthree by by apply plain_no_delimiter. assert (no_delimiter "CL") as HCL by by apply plain_no_delimiter.
  split_and!.
  - unfold build_get_schema_request, schema_id. rewrite (id_parts [did; "2"; name; version]%string version) by (done || by repeat constructor). done.
  - unfold build_get_cred_def_request, cred_def_id. rewrite (id_parts [did; "3"; "CL"; pretty n; tag]%string tag) by (done || by repeat constructor).
    cbn -[parse_i32 pretty]. rewrite parse_i32_pretty. by destruct (n <? 2 ^ 31)%N.
  - intros v. unfold build_get_cred_def_request. assert (exists rest, split_terminator DELIMITER
      (cred_def_id v did (schema_id did' name version) "CL" tag) = [did; "3"; "CL"; did'; "2"; name; version]%string ++ rest) as [rest ->].
    { unfold cred_def_id, schema_id. assert (delimited [did; "3"; "CL"; delimited [did'; "2"; name; version]; tag]%string =
        delimited [did; "3"; "CL"; did'; "2"; name; version; tag]%string) as Hnest.
      { exact (f_equal (fun s => did +:+ String DELIMITER s)%string (f_equal (fun s => "3" +:+ String DELIMITER s)%string
          (f_equal (fun s => "CL" +:+ String DELIMITER s)%string (delimited_nested [did'; "2"; name; version]%string [tag] ltac:(done))))). }
      destruct v; [exists []|exists [tag]].
      - change (delimited [did; "3"; "CL"; delimited [did'; "2"; name; version]]%string) with (delimited [did; "3"; "CL"; did'; "2"; name; version]%string).
        by rewrite (id_parts [did; "3"; "CL"; did'; "2"; name; version]%string version) by (done || by repeat constructor).
      - by rewrite Hnest, (id_parts [did; "3"; "CL"; did'; "2"; name; version; tag]%string tag) by (done || by repeat constructor). }
    cbn -[parse_i32]. by rewrite Hdid'.
  - intros Hid v op. unfold CredDefOperation_new. intros (value & _ & Hop)%bind_Some. injection Hop as <-. cbn -[parse_i32].
    assert (parse_i32 (cd_schema_id cred_def) = None) as ->; [|done]. destruct Hid as [-> | [-> Hbig]].
    + destruct (parse_i32 (schema_id did' name version)) as [z|] eqn:Hz; [|done]. apply parse_i32_no_delimiter in Hz. destruct Hz.
      unfold schema_id. cbn [delimited]. rewrite str_list_app, elem_of_app. right. by left.
    + rewrite parse_i32_pretty. by apply N.ltb_ge in Hbig as ->.
Qed.

(** *** Replies *)

(** What the methods that take a reply apart do with a text *)
Definition readings env text : list (IndyResult unit) :=
  [(fun _ => tt) <$> cmd_parse_get_schema_response text; (fun _ => tt) <$> cmd_parse_get_cred_def_response env text;
   (fun _ => tt) <$> cmd_parse_revoc_reg_def_response text; (fun _ => tt) <$> cmd_parse_revoc_reg_response text;
   (fun _ => tt) <$> cmd_parse_revoc_reg_delta_response text].

(** A message is a reply by its field [op]. *)
Definition tagged (T : Type) `{!MessageCodec T} : Prop :=
  forall message (reply : Reply T), message_from_value message = Some (MReply reply) -> index message "op" = String_ "REPLY".

Lemma response_refused T `{!ReplyType T} `{!MessageCodec T} text message : from_str text = Some message ->
  index message "op" = String_ "REPLY" -> index (index message "result") "type" <> String_ (get_type (T:=T)) ->
  parse_response T text = Err InvalidTransaction.
Proof. intros Ht Hop Hty. unfold parse_response. rewrite Ht. cbn. by rewrite decide_True. Qed.

Lemma response_reply T `{!ReplyType T} `{!MessageCodec T} text message (reply : Reply T) : from_str text = Some message ->
  index (index message "result") "type" = String_ (get_type (T:=T)) -> message_from_value message = Some (MReply reply) ->
  parse_response T text = Ok reply.
Proof. intros Ht Hty Hr. unfold parse_response. rewrite Ht. cbn. rewrite decide_False by naive_solver. by rewrite Hr. Qed.

(** What a method does with a reply that has no results *)
Definition unwinds_on_nothing (T : Type) `{!ReplyType T} `{!MessageCodec T} {A} (method : string -> IndyResult A) : Prop :=
  forall text message, from_str text = Some message -> index (index message "result") "type" = String_ (get_type (T:=T)) ->
    message_from_value message = Some (MReply (ReplyV1 [] : Reply T)) -> method text = Panic.

(** C15: a text that is taken apart is a reply whose [result] has the type that was asked for.  So replies of the second
    format, which have their results elsewhere, are refused by every method; one that has both and no
    results unwinds every method. *)
Theorem replies_judged env text message : from_str text = Some message ->
  (forall T `{!ReplyType T} `{!MessageCodec T} reply, tagged T -> parse_response T text = Ok reply ->
    index message "op" = String_ "REPLY" /\ index (index message "result") "type" = String_ (get_type (T:=T)) /\
    message_from_value message = Some (MReply reply)) /\
  (index message "op" = String_ "REPLY" -> index message "result" = Null -> Forall (eq (Err InvalidTransaction)) (readings env text)) /\
  unwinds_on_nothing GetSchemaReplyResult cmd_parse_get_schema_response /\
  unwinds_on_nothing GetCredDefReplyResult (cmd_parse_get_cred_def_response env) /\
  unwinds_on_nothing GetRevocRegDefReplyResult cmd_parse_revoc_reg_def_response /\
  unwinds_on_nothing GetRevocRegReplyResult cmd_parse_revoc_reg_response /\
  unwinds_on_nothing GetRevocRegDeltaReplyResult cmd_parse_revoc_reg_delta_response.
Proof.
  intros Ht. split; [|split].
  - intros T rt mc reply Htag Hp. unfold parse_response in Hp. rewrite Ht in Hp. cbn in Hp. case_decide as Hd; [done|].
    destruct (message_from_value message) as [[r|r|r]|] eqn:Hm; cbn in Hp; try done. injection Hp as ->. pose proof (Htag _ _ Hm) as Hop.
    split_and!; [done| |done]. destruct (decide (index (index message "result") "type" = String_ (get_type (T:=T)))); [done|]. by destruct Hd.
  - intros Hop Hres. assert (forall T `{!ReplyType T} `{!MessageCodec T}, parse_response T text = Err InvalidTransaction) as Href.
    { intros T rt mc. apply (response_refused T text message Ht Hop). rewrite Hres. done. }
    unfold readings, cmd_parse_get_schema_response, cmd_parse_get_cred_def_response, cmd_parse_revoc_reg_def_response,
      cmd_parse_revoc_reg_response, cmd_parse_revoc_reg_delta_response, parse_get_schema_response, parse_get_cred_def_response,
      parse_get_revoc_reg_def_response, parse_get_revoc_reg_response, parse_get_revoc_reg_delta_response. rewrite !Href.
    by repeat constructor.
  - unfold unwinds_on_nothing, cmd_parse_get_schema_response, cmd_parse_get_cred_def_response, cmd_parse_revoc_reg_def_response,
      cmd_parse_revoc_reg_response, cmd_parse_revoc_reg_delta_response, parse_get_schema_response, parse_get_cred_def_response,
      parse_get_revoc_reg_def_response, parse_get_revoc_reg_response, parse_get_revoc_reg_delta_response.
    split_and!; intros text' message' Ht' Hty Hm; by rewrite (response_reply _ text' message' _ Ht' Hty Hm).
Qed.
End requests.

(** ** A toy ledger *)

Module ToyLedger.
#[local] Existing Instances ToyPool.machine ToyPool.order ToyCL.types ToyTails.lib ToyIssuer.revocation ToyResponse.codec
  ToyCrypto.ed25519 ToyCrypto.base58 ToyCrypto.texts.

(** The text of a value is the bits of its encoding. *)
#[export] Instance json_text : JsonText := {|
  to_string := fun v => bits (encode v);
  from_str := fun s => p ← unbits s; decode p;
|}.

Lemma text_back v : from_str (to_string v) = Some v.
Proof. cbn. rewrite unbits_bits. cbn. apply decode_encode. Qed.

Section messages.
Local Open Scope json_scope.

(** Replies of both formats whose results are read by [dec] *)
Definition message_of {T} (dec : SJsonValue -> option T) (v : SJsonValue) : option (Message T) :=
  match as_str v.["op"], dec v.["result"], as_array v.["data"].["result"] with
  | Some "REPLY"%string, Some r, _ => Some (MReply (ReplyV0 r))
  | Some "REPLY"%string, None, Some l => Some (MReply (ReplyV1 (omap (fun v => dec v.["result"]) l)))
  | Some "REJECT"%string, _, _ => Some (Reject (mk_response 0 ""))
  | _, _, _ => None
  end.

Definition no_value {T} : MessageCodec T := message_of (fun _ => None).
End messages.

#[export] Instance codecs : @LedgerCodecs ToyCL.types ToyTails.lib ToyIssuer.revocation := {|
  schedule_from_str := fun _ => None;
  constraint_from_str := fun _ => Some (OrConstraint []);
  request_operation_from_str := fun s => v ← from_str s; Some (index v "operation");
  cred_def_data_to_value := fun _ => Some Null;
  accum_key_to_value := fun _ => Some Null;
  delta_to_value := fun _ => Some Null;
  schema_messages := message_of (fun v => dest ← as_str (index v "dest");
    Some (GetSchemaReplyResultV0 (mk_schema_v0 1 (mk_schema_data "name" "1.0" ∅) dest)));
  cred_def_messages := no_value;
  registry_def_messages := no_value;
  registry_messages := no_value;
  delta_messages := no_value;
  schema_text := fun s => Some (sc_id s);
  cred_def_text := fun d => Some (cd_id d);
  registry_def_text := fun d => Some (rd_id d);
  registry_text := fun r => Some r;
  delta_text := fun d => Some d;
|}.

Lemma operations_back : operations_read.
Proof.
  intros req_id identifier operation version. exists (Object operation). split; [|done].
  unfold request_operation_from_str, codecs. rewrite text_back. reflexivity.
Qed.

Definition now : Timespec := mk_timespec 1700000000 5.
Definition env : Surroundings := mk_surroundings now now 2.
(** 16 bytes in the letters of the toy texts *)
Definition a_did : string := toy_encode (repeat Byte.x01 16).

Lemma request_numbers_witness : proper now /\ req_id_at env = Ok (Z.to_N (instant now)).
Proof.
  assert (proper now) as Hnow by (repeat split; discriminate || reflexivity).
  split; [exact Hnow|]. apply (request_numbers env Hnow Hnow); [discriminate|reflexivity].
Defined.

Definition restart : LedgerCommand := BuildPoolRestartRequest a_did "start" None.

Lemma restart_built : exists text, execute env CryptoService_new restart = Ok text.
Proof. eexists. reflexivity. Qed.


Lemma built_actions_witness : exists text, execute env CryptoService_new restart = Ok text /\ validate_action text = Ok tt.
Proof.
  destruct restart_built as [text Hc]. exists text. split; [exact Hc|].
  exact (built_actions env CryptoService_new restart text operations_back Hc).
Defined.

Lemma ids_requested_witness : exists text,
  build_get_cred_def_request env None (cred_def_id false "issuer" "5" "CL" "tag") = Ok text /\
  build_request env None (Some (GetCredDefOperation_new 5 "CL" "issuer" (Some "tag"%string))) = Ok text.
Proof.
  destruct (ids_requested env None "issuer" "name" "1.0" "tag" 5 "other" (@mk_cred_def ToyCL.types "" "" "" "key"%string None)) as (_ & Hdef & _);
    [repeat constructor; by apply plain_no_delimiter|discriminate|discriminate|reflexivity|].
  eexists. split; [exact Hdef|reflexivity].
Defined.

(** A reply of the second format *)
Definition second_format : SJsonValue := Object [("data"%string, Object [("result"%string, Array [])]); ("op"%string, String_ "REPLY")].

Lemma replies_judged_witness : Forall (eq (Err InvalidTransaction)) (readings env (to_string second_format)).
Proof. apply (replies_judged env (to_string second_format) second_format (text_back _)); reflexivity. Defined.
End ToyLedger.
