(* ===== verification/DidCommands.v ===== *)
(** * DidCommands: DIDs in a wallet, and those that only the ledger knows

    Models [DidCommandExecutor] of [libindy/src/commands/did.rs] over any [IndyWallet].  A
    command that needs a DID of the ledger is deferred: it waits, by a number, for the reply to a
    request, and is then executed again.  The callbacks that are called and the requests that
    are sent are the result of a command.  [list_my_dids_with_meta], which only reads all records of
    a type, is left out. *)

From stdpp Require Import gmap.
From S2P Require Import StateProof Prelude Errors Json PoolTypes Encryption Crypto QueryEncryption Storage Wallet Stream WalletService WalletServiceFacts IndyWallet CryptoCommands Anoncreds Tails Revocation IssuerCommands Response LedgerTypes LedgerService.

(** ** Data *)

(** Of [domain/crypto/did.rs] *)
Record DidMetadata := mk_did_metadata { dm_value : string }.
Record DidWithMeta := mk_did_with_meta {
  dw_did : string;
  dw_verkey : string;
  dw_temp_verkey : option string;
  dw_metadata : option string;
}.
Record TemporaryDid := mk_temporary_did { tmp_did : string; tmp_verkey : string }.

Definition Did_from (temp_did : TemporaryDid) : Did := mk_did (tmp_did temp_did) (tmp_verkey temp_did).

(** Of [domain/ledger/attrib.rs] and [nym.rs] *)
Record Endpoint := mk_endpoint { ha : string; ep_verkey : option string }.
Record GetNymResultDataV0 := mk_nym_data { nd_identifier : option string; nd_dest : string; nd_role : option string; nd_verkey : option string }.
Record GetNymResultDataV1 := mk_nym_data_v1 { n1_ver : string; n1_id : string; n1_did : string; n1_verkey : option string; n1_role : option string }.
(** The data of a reply of the first format is a text. *)
Inductive GetNymReplyResult :=
| GetNymReplyResultV0 (data : option string)
| GetNymReplyResultV1 (res : GetReplyResultV1 GetNymResultDataV1).
Record GetAttResultV0 := mk_att_v0 { a0_identifier : string; a0_data : string; a0_dest : string; a0_raw : string }.
Record GetAttResultDataV1 := mk_att_v1 { a1_ver : string; a1_id : string; a1_did : string; a1_raw : string }.
Inductive GetAttrReplyResult :=
| GetAttrReplyResultV0 (res : GetAttResultV0)
| GetAttrReplyResultV1 (res : GetReplyResultV1 GetAttResultDataV1).

(** serde_json; [AttribData] has one field, the endpoint. *)
Class DidCodecs := {
  did_with_meta_to_string : DidWithMeta -> option string;
  nym_reply_from_str : string -> option (Reply GetNymReplyResult);
  nym_data_from_str : string -> option GetNymResultDataV0;
  attr_reply_from_str : string -> option (Reply GetAttrReplyResult);
  attrib_data_from_str : string -> option Endpoint;
}.

(** The commands; a callback is a number. *)
Inductive DidCommand :=
| CreateAndStoreMyDid (wallet_handle : Z) (my_did_info : MyDidInfo) (cb : Z)
| ReplaceKeysStart (wallet_handle : Z) (key_info : KeyInfo) (did : string) (cb : Z)
| ReplaceKeysApply (wallet_handle : Z) (did : string) (cb : Z)
| StoreTheirDid (wallet_handle : Z) (their_did_info : TheirDidInfo) (cb : Z)
| GetMyDidWithMeta (wallet_handle : Z) (my_did : string) (cb : Z)
| KeyForDid (pool_handle wallet_handle : Z) (did : string) (cb : Z)
| KeyForLocalDid (wallet_handle : Z) (did : string) (cb : Z)
| SetEndpointForDid (wallet_handle : Z) (did : string) (endpoint : Endpoint) (cb : Z)
| GetEndpointForDid (wallet_handle pool_handle : Z) (did : string) (cb : Z)
| SetDidMetadata (wallet_handle : Z) (did metadata : string) (cb : Z)
| GetDidMetadata (wallet_handle : Z) (did : string) (cb : Z)
| AbbreviateVerkey (did verkey : string) (cb : Z)
| GetNymAck (wallet_handle : Z) (result : IndyErrorKind + string) (deferred_cmd_id : Z)
| GetAttribAck (wallet_handle : Z) (result : IndyErrorKind + string) (deferred_cmd_id : Z).

(** What a callback is given *)
Inductive DidResult := Nothing | Text (s : string) | Pair (s t : string) | EndpointResult (s : string) (t : option string).

(** A call of a callback, or a request whose reply comes back as [GetNymAck] or [GetAttribAck] *)
Inductive DidSent :=
| CallBack (cb : Z) (res : IndyErrorKind + DidResult)
| SubmitGetNym (pool_handle : Z) (get_nym_request : string) (wallet_handle deferred_cmd_id : Z)
| SubmitGetAttrib (pool_handle : Z) (get_attrib_request : string) (wallet_handle deferred_cmd_id : Z).

Record DidCommandExecutor (W : Type) := mk_did_executor { did_wallets : W; deferred_commands : gmap Z DidCommand }.
Arguments mk_did_executor {W} _ _.
Arguments did_wallets {W} d.
Arguments deferred_commands {W} d.

(** What a command draws: random bytes for keys and records, the clock and the protocol version,
    and the next number of the sequence *)
Record Drawn := mk_drawn { dr_random : Seed; dr_fresh : nat -> Fresh; dr_env : Surroundings; dr_next_id : Z }.

Section commands.
Context `{Machine} `{JsonText} `{Ed25519} `{Base58} `{CryptoTexts} `{OptionCodecs} `{DidCodecs}.
Context `{!IndyObject KeyPair} `{!IndyObject Did} `{!IndyObject TheirDid} `{!IndyObject TemporaryDid} `{!IndyObject DidMetadata} `{!IndyObject Endpoint}.
Context {W : Type} `{!IndyWallet W}.
Context (crypto_service : CryptoService) (drawn : Drawn).

Abbreviation Wallets := (StateM IndyErrorKind W).
Abbreviation DidM := (StateM IndyErrorKind (DidCommandExecutor W)).

(** ** Commands on the wallet *)

Definition create_and_store_my_did (wallet_handle : Z) (my_did_info : MyDidInfo) : Wallets (string * string) :=
  '(did, key) ← lift (create_my_did crypto_service (dr_random drawn) my_did_info);
  exists_ ← iw_record_exists Did wallet_handle (did_did did);
  if exists_ : bool then fail DIDAlreadyExists
  else
    _ ← iw_add_indy_object Did (dr_fresh drawn 0) wallet_handle (did_did did) did ∅;
    _ ← iw_add_indy_object KeyPair (dr_fresh drawn 1) wallet_handle (key_verkey key) key ∅;
    mret (did_did did, did_verkey did).

Definition _wallet_get_my_did (wallet_handle : Z) (my_did : string) : Wallets Did :=
  iw_get_indy_object Did wallet_handle my_did RecordOptions_id_value.
Definition _wallet_get_their_did (wallet_handle : Z) (their_did : string) : Wallets TheirDid :=
  iw_get_indy_object TheirDid wallet_handle their_did RecordOptions_id_value.

Definition replace_keys_start (wallet_handle : Z) (key_info : KeyInfo) (my_did : string) : Wallets string :=
  _ ← lift (validate_did my_did);
  my_did ← _wallet_get_my_did wallet_handle my_did;
  temporary_key ← lift (Crypto.create_key crypto_service (dr_random drawn) key_info);
  let my_temporary_did := mk_temporary_did (did_did my_did) (key_verkey temporary_key) in
  _ ← iw_add_indy_object KeyPair (dr_fresh drawn 0) wallet_handle (key_verkey temporary_key) temporary_key ∅;
  _ ← iw_add_indy_object TemporaryDid (dr_fresh drawn 1) wallet_handle (tmp_did my_temporary_did) my_temporary_did ∅;
  mret (tmp_verkey my_temporary_did).

Definition replace_keys_apply (wallet_handle : Z) (my_did : string) : Wallets unit :=
  _ ← lift (validate_did my_did);
  my_did ← _wallet_get_my_did wallet_handle my_did;
  my_temporary_did ← iw_get_indy_object TemporaryDid wallet_handle (did_did my_did) RecordOptions_id_value;
  let my_did := Did_from my_temporary_did in
  _ ← iw_update_indy_object Did (dr_fresh drawn 0) wallet_handle (did_did my_did) my_did;
  iw_delete_indy_record TemporaryDid wallet_handle (did_did my_did).

Definition store_their_did (wallet_handle : Z) (their_did_info : TheirDidInfo) : Wallets unit :=
  their_did ← lift (create_their_did crypto_service their_did_info);
  _ ← iw_add_indy_object TheirDid (dr_fresh drawn 0) wallet_handle (td_did their_did) their_did ∅;
  mret tt.

Definition get_my_did_with_meta (wallet_handle : Z) (my_did : string) : Wallets string :=
  _ ← lift (validate_did my_did);
  did ← iw_get_indy_object Did wallet_handle my_did RecordOptions_id_value;
  metadata ← iw_get_indy_opt_object DidMetadata wallet_handle (did_did did) RecordOptions_id_value;
  temp_verkey ← iw_get_indy_opt_object TemporaryDid wallet_handle (did_did did) RecordOptions_id_value;
  lift (ok_or (did_with_meta_to_string
    (mk_did_with_meta (did_did did) (did_verkey did) (tmp_verkey <$> temp_verkey) (dm_value <$> metadata))) InvalidState).

Definition key_for_local_did (wallet_handle : Z) (did : string) : Wallets string :=
  _ ← lift (validate_did did);
  my_did ← attempt (_wallet_get_my_did wallet_handle did);
  match my_did with
  | inr my_did => mret (did_verkey my_did)
  | inl WalletItemNotFound => their_did ← _wallet_get_their_did wallet_handle did; mret (td_verkey their_did)
  | inl err => fail err
  end.

Definition set_endpoint_for_did (wallet_handle : Z) (did : string) (endpoint : Endpoint) : Wallets unit :=
  _ ← lift (validate_did did);
  _ ← lift (match ep_verkey endpoint with Some transport_key => validate_key crypto_service transport_key | None => Ok tt end);
  _ ← iw_upsert_indy_object Endpoint (dr_fresh drawn 0) wallet_handle did endpoint;
  mret tt.

Definition set_did_metadata (wallet_handle : Z) (did metadata : string) : Wallets unit :=
  _ ← lift (validate_did did);
  _ ← iw_upsert_indy_object DidMetadata (dr_fresh drawn 0) wallet_handle did (mk_did_metadata metadata);
  mret tt.

Definition get_did_metadata (wallet_handle : Z) (did : string) : Wallets string :=
  _ ← lift (validate_did did);
  metadata ← iw_get_indy_object DidMetadata wallet_handle did RecordOptions_id_value;
  mret (dm_value metadata).

(** [split_at(16)] unwinds on fewer bytes. *)
Definition abbreviate_verkey (did verkey : string) : IndyResult string :=
  _ ← validate_did did;
  _ ← validate_key crypto_service verkey;
  did ← base58_decode did;
  dverkey ← base58_decode verkey;
  if decide (length dverkey < 16) then Panic
  else if decide (take 16 dverkey = did) then Ok ("~" +:+ to_base58 (drop 16 dverkey))%string
  else Ok verkey.

(** The replies of the ledger are stored as a DID of somebody else, or as an endpoint. *)
Definition _get_nym_ack (wallet_handle : Z) (get_nym_reply_result : IndyErrorKind + string) : Wallets unit :=
  get_nym_reply ← lift (match get_nym_reply_result with inr reply => Ok reply | inl err => Err err end);
  get_nym_response ← lift (ok_or (nym_reply_from_str get_nym_reply) InvalidState);
  res ← lift (result get_nym_response);
  their_did_info ← lift (match res with
    | GetNymReplyResultV0 (Some data) =>
        gen_nym_result_data ← ok_or (nym_data_from_str data) InvalidState;
        Ok (mk_their_did_info (nd_dest gen_nym_result_data) (nd_verkey gen_nym_result_data))
    | GetNymReplyResultV0 None => Err WalletItemNotFound
    | GetNymReplyResultV1 res => Ok (mk_their_did_info (n1_did (txn_data res)) (n1_verkey (txn_data res)))
    end);
  their_did ← lift (create_their_did crypto_service their_did_info);
  _ ← iw_add_indy_object TheirDid (dr_fresh drawn 0) wallet_handle (td_did their_did) their_did ∅;
  mret tt.

Definition _get_attrib_ack (wallet_handle : Z) (get_attrib_reply_result : IndyErrorKind + string) : Wallets unit :=
  get_attrib_reply ← lift (match get_attrib_reply_result with inr reply => Ok reply | inl err => Err err end);
  get_attrib_reply ← lift (ok_or (attr_reply_from_str get_attrib_reply) InvalidState);
  res ← lift (result get_attrib_reply);
  let '(raw, did) := match res with
    | GetAttrReplyResultV0 res => (a0_data res, a0_dest res)
    | GetAttrReplyResultV1 res => (a1_raw (txn_data res), a1_did (txn_data res))
    end in
  endpoint ← lift (ok_or (attrib_data_from_str raw) InvalidState);
  _ ← iw_add_indy_object Endpoint (dr_fresh drawn 0) wallet_handle did endpoint ∅;
  mret tt.

(** ** Deferred commands *)

Definition set_did_wallets (w : W) (d : DidCommandExecutor W) : DidCommandExecutor W := mk_did_executor w (deferred_commands d).
Definition set_deferred f (d : DidCommandExecutor W) : DidCommandExecutor W := mk_did_executor (did_wallets d) (f (deferred_commands d)).
Definition on_did_wallets {A} : Wallets A -> DidM A := within did_wallets set_did_wallets.

(** [cb(m)] *)
Definition answer {A} (cb : Z) (f : A -> DidResult) (m : Wallets A) : DidM (list DidSent) :=
  r ← attempt (on_did_wallets m);
  mret [CallBack cb (match r with inl err => inl err | inr a => inr (f a) end)].

(** The map of deferred commands is borrowed, and cannot be changed, while [_execute_deferred_command] runs one of them. *)
Definition _defer_command (borrowed : bool) (cmd : DidCommand) : DidM Z :=
  if borrowed then lift Panic
  else
    _ ← modify (set_deferred (<[dr_next_id drawn := cmd]>));
    mret (dr_next_id drawn).

Definition _fetch_their_did_from_ledger (borrowed : bool) (wallet_handle pool_handle : Z) (did : string) (deferred_cmd : DidCommand) :
    DidM (list DidSent) :=
  deferred_cmd_id ← _defer_command borrowed deferred_cmd;
  get_nym_request ← lift (unwrap (match build_get_nym_request (dr_env drawn) None did with Ok r => Some r | _ => None end));
  mret [SubmitGetNym pool_handle get_nym_request wallet_handle deferred_cmd_id].

Definition _fetch_attrib_from_ledger (borrowed : bool) (wallet_handle pool_handle : Z) (did : string) (deferred_cmd : DidCommand) :
    DidM (list DidSent) :=
  deferred_cmd_id ← _defer_command borrowed deferred_cmd;
  get_attrib_request ← lift (unwrap (match build_get_attrib_request (dr_env drawn) None did (Some "endpoint"%string) None None with
    | Ok r => Some r | _ => None end));
  mret [SubmitGetAttrib pool_handle get_attrib_request wallet_handle deferred_cmd_id].

Definition key_for_did (borrowed : bool) (pool_handle wallet_handle : Z) (did : string) (cb : Z) : DidM (list DidSent) :=
  valid ← attempt (lift (validate_did did));
  match valid with
  | inl err => mret [CallBack cb (inl err)]
  | inr _ =>
      my_did ← attempt (on_did_wallets (_wallet_get_my_did wallet_handle did));
      match my_did with
      | inr my_did => mret [CallBack cb (inr (Text (did_verkey my_did)))]
      | inl WalletItemNotFound =>
          their_did ← attempt (on_did_wallets (_wallet_get_their_did wallet_handle did));
          match their_did with
          | inr their_did => mret [CallBack cb (inr (Text (td_verkey their_did)))]
          | inl WalletItemNotFound =>
              _fetch_their_did_from_ledger borrowed wallet_handle pool_handle did (KeyForDid pool_handle wallet_handle did cb)
          | inl err => mret [CallBack cb (inl err)]
          end
      | inl err => mret [CallBack cb (inl err)]
      end
  end.

Definition get_endpoint_for_did (borrowed : bool) (wallet_handle pool_handle : Z) (did : string) (cb : Z) : DidM (list DidSent) :=
  valid ← attempt (lift (validate_did did));
  match valid with
  | inl err => mret [CallBack cb (inl err)]
  | inr _ =>
      endpoint ← attempt (on_did_wallets (iw_get_indy_object Endpoint wallet_handle did RecordOptions_id_value));
      match endpoint with
      | inr endpoint => mret [CallBack cb (inr (EndpointResult (ha endpoint) (ep_verkey endpoint)))]
      | inl WalletItemNotFound =>
          _fetch_attrib_from_ledger borrowed wallet_handle pool_handle did (GetEndpointForDid wallet_handle pool_handle did cb)
      | inl err => mret [CallBack cb (inl err)]
      end
  end.

Definition _call_error_cb (command : DidCommand) (err : IndyErrorKind) : list DidSent :=
  match command with
  | CreateAndStoreMyDid _ _ cb | ReplaceKeysStart _ _ _ cb | ReplaceKeysApply _ _ cb | StoreTheirDid _ _ cb
  | KeyForDid _ _ _ cb | GetEndpointForDid _ _ _ cb => [CallBack cb (inl err)]
  | _ => []
  end.

(** [res.err()], after which the deferred command is executed *)
Definition after_ack (execute_deferred : Z -> option IndyErrorKind -> DidM (list DidSent)) (deferred_cmd_id : Z) (m : Wallets unit) :
    DidM (list DidSent) :=
  res ← attempt (on_did_wallets m);
  execute_deferred deferred_cmd_id (match res with inl err => Some err | inr _ => None end).

(** [execute], inside of [_execute_deferred_command] or not *)
Definition execute_with (borrowed : bool) (execute_deferred : Z -> option IndyErrorKind -> DidM (list DidSent)) (command : DidCommand) :
    DidM (list DidSent) :=
  match command with
  | CreateAndStoreMyDid wallet_handle my_did_info cb => answer cb (fun p => Pair p.1 p.2) (create_and_store_my_did wallet_handle my_did_info)
  | ReplaceKeysStart wallet_handle key_info did cb => answer cb Text (replace_keys_start wallet_handle key_info did)
  | ReplaceKeysApply wallet_handle did cb => answer cb (fun _ => Nothing) (replace_keys_apply wallet_handle did)
  | StoreTheirDid wallet_handle their_did_info cb => answer cb (fun _ => Nothing) (store_their_did wallet_handle their_did_info)
  | GetMyDidWithMeta wallet_handle my_did cb => answer cb Text (get_my_did_with_meta wallet_handle my_did)
  | KeyForDid pool_handle wallet_handle did cb => key_for_did borrowed pool_handle wallet_handle did cb
  | KeyForLocalDid wallet_handle did cb => answer cb Text (key_for_local_did wallet_handle did)
  | SetEndpointForDid wallet_handle did endpoint cb => answer cb (fun _ => Nothing) (set_endpoint_for_did wallet_handle did endpoint)
  | GetEndpointForDid wallet_handle pool_handle did cb => get_endpoint_for_did borrowed wallet_handle pool_handle did cb
  | SetDidMetadata wallet_handle did metadata cb => answer cb (fun _ => Nothing) (set_did_metadata wallet_handle did metadata)
  | GetDidMetadata wallet_handle did cb => answer cb Text (get_did_metadata wallet_handle did)
  | AbbreviateVerkey did verkey cb => answer cb Text (lift (abbreviate_verkey did verkey))
  | GetNymAck wallet_handle result deferred_cmd_id => after_ack execute_deferred deferred_cmd_id (_get_nym_ack wallet_handle result)
  | GetAttribAck wallet_handle result deferred_cmd_id => after_ack execute_deferred deferred_cmd_id (_get_attrib_ack wallet_handle result)
  end.

(** The borrow lasts until the end of the [if let]; a second one unwinds. *)
Definition _execute_deferred_command (deferred_cmd_id : Z) (err : option IndyErrorKind) : DidM (list DidSent) :=
  commands ← gets deferred_commands;
  match commands !! deferred_cmd_id with
  | Some cmd =>
      _ ← modify (set_deferred (delete deferred_cmd_id));
      match err with
      | Some err => mret (_call_error_cb cmd err)
      | None => execute_with true (fun _ _ => lift Panic) cmd
      end
  | None => mret []
  end.

Definition execute (command : DidCommand) : DidM (list DidSent) := execute_with false _execute_deferred_command command.
End commands.
