(* ===== verification/DidFacts.v ===== *)
(** * DidFacts: what the commands on DIDs promise

    Theorems on [DidCommands.v]: every callback is called once or waits; the key of a DID that
    only the ledger knows is fetched, stored and returned; the keys of a DID are replaced in two
    steps; an abbreviated verkey is written out again; what is left behind when a command fails
    half way. *)

From Stdlib Require Import Strings.Ascii.
From stdpp Require Import gmap.
From S2P Require Import StateProof Prelude Errors Hashing Json Wql PoolTypes Encryption Crypto QueryEncryption Storage Wallet Stream WalletService WalletServiceFacts IndyWallet ToyTexts CryptoCommands CryptoFacts RequestSigning SigningFacts Anoncreds Tails Revocation IssuerCommands Response LedgerTypes LedgerService LedgerFacts DidCommands.

(** ** Callbacks *)

Definition cb_of (c : DidCommand) : list Z :=
  match c with
  | CreateAndStoreMyDid _ _ cb | ReplaceKeysStart _ _ _ cb | ReplaceKeysApply _ _ cb | StoreTheirDid _ _ cb | GetMyDidWithMeta _ _ cb
  | KeyForDid _ _ _ cb | KeyForLocalDid _ _ cb | SetEndpointForDid _ _ _ cb | GetEndpointForDid _ _ _ cb | SetDidMetadata _ _ _ cb
  | GetDidMetadata _ _ cb | AbbreviateVerkey _ _ cb => [cb]
  | GetNymAck _ _ _ | GetAttribAck _ _ _ => []
  end.

Definition called (s : DidSent) : list Z := match s with CallBack cb _ => [cb] | _ => [] end.

(** The commands that are ever deferred *)
Definition is_deferrable (c : DidCommand) : bool := match c with KeyForDid _ _ _ _ | GetEndpointForDid _ _ _ _ => true | _ => false end.

Definition calls (sent : list DidSent) : list Z := sent ≫= called.

Section callbacks.
Context `{Machine} `{JsonText} `{Ed25519} `{Base58} `{CryptoTexts} `{OptionCodecs} `{DidCodecs}.
Context `{!IndyObject KeyPair} `{!IndyObject Did} `{!IndyObject TheirDid} `{!IndyObject TemporaryDid} `{!IndyObject DidMetadata} `{!IndyObject Endpoint}.
Context {W : Type} `{!IndyWallet W}.
Context (crypto : CryptoService).
Implicit Types (d : DidCommandExecutor W) (drawn : Drawn).

Definition waiting d : list Z := map_to_list (deferred_commands d) ≫= fun kv => cb_of kv.2.
Definition deferrable d : Prop := map_Forall (fun _ c => is_deferrable c = true) (deferred_commands d).

(** A run of commands, each with what it draws *)
Fixpoint run (commands : list (Drawn * DidCommand)) : StateM IndyErrorKind (DidCommandExecutor W) (list DidSent) :=
  match commands with
  | [] => mret []
  | (drawn, c) :: commands => sent ← execute crypto drawn c; rest ← run commands; mret (sent ++ rest)
  end.

Lemma on_wallets_keeps {A} (m : StateM IndyErrorKind W A) d : deferred_commands (on_did_wallets m d).2 = deferred_commands d.
Proof. unfold on_did_wallets, within. by destruct (m (did_wallets d)). Qed.

Lemma attempt_wallets {A} (m : StateM IndyErrorKind W A) d r d' : attempt (on_did_wallets m) d = (Ok r, d') ->
  deferred_commands d' = deferred_commands d.
Proof.
  pose proof (on_wallets_keeps m d) as Hk. unfold attempt. destruct (on_did_wallets m d) as [[a|e| |] d1]; cbn in Hk; intros [= <- <-]; done.
Qed.

(** What is sent is one call of the callback, or a request for which the command waits. *)
Definition answered drawn (borrowed : bool) (cb : Z) (c : DidCommand) d (sent : list DidSent) d' : Prop :=
  (calls sent = [cb] /\ deferred_commands d' = deferred_commands d) \/
  (borrowed = false /\ calls sent = [] /\ deferred_commands d' = <[dr_next_id drawn := c]> (deferred_commands d)).

Lemma answer_answers {A} drawn b c cb (f : A -> DidResult) m d sent d' : answer cb f m d = (Ok sent, d') -> answered drawn b cb c d sent d'.
Proof.
  unfold answer. intros (r & d1 & Hr & Hm)%M_bind_Ok. cbv [mret StateM_ret] in Hm. injection Hm as <- <-.
  left. split; [done|by eapply attempt_wallets].
Qed.

Lemma fetch_answers drawn b cb c d sent d' :
  (exists h p did, _fetch_their_did_from_ledger drawn b h p did c d = (Ok sent, d')) \/
  (exists h p did, _fetch_attrib_from_ledger drawn b h p did c d = (Ok sent, d')) -> answered drawn b cb c d sent d'.
Proof.
  unfold _fetch_their_did_from_ledger, _fetch_attrib_from_ledger, _defer_command.
  intros [(h & p & did & Hf)|(h & p & did & Hf)]; destruct b; cbn in Hf; [done| |done|]; inv_run; right; split_and!; try done.
Qed.

Lemma key_for_did_answers drawn b p h did cb d sent d' : key_for_did drawn b p h did cb d = (Ok sent, d') ->
  answered drawn b cb (KeyForDid p h did cb) d sent d'.
Proof.
  unfold key_for_did. intros (valid & d1 & Hv & Hk)%M_bind_Ok. assert (d1 = d) as ->.
  { unfold attempt, lift in Hv. by destruct (validate_did did); injection Hv. }
  destruct valid as [err|[]]; [cbv [mret StateM_ret] in Hk; injection Hk as <- <-; by left|].
  apply M_bind_Ok in Hk as (my & d1 & Hmy & Hk). apply attempt_wallets in Hmy.
  destruct my as [err|my]; [destruct err|]; try (cbv [mret StateM_ret] in Hk; injection Hk as <- <-; by left).
  apply M_bind_Ok in Hk as (their & d2 & Hth & Hk). apply attempt_wallets in Hth. rewrite Hmy in Hth.
  destruct their as [err|their]; [destruct err|]; try (cbv [mret StateM_ret] in Hk; injection Hk as <- <-; by left).
  assert (answered drawn b cb (KeyForDid p h did cb) d2 sent d') as Ha by (apply fetch_answers; left; eauto).
  unfold answered in *. by rewrite Hth in Ha.
Qed.

Lemma endpoint_answers drawn b h p did cb d sent d' : get_endpoint_for_did drawn b h p did cb d = (Ok sent, d') ->
  answered drawn b cb (GetEndpointForDid h p did cb) d sent d'.
Proof.
  unfold get_endpoint_for_did. intros (valid & d1 & Hv & Hk)%M_bind_Ok. assert (d1 = d) as ->.
  { unfold attempt, lift in Hv. by destruct (validate_did did); injection Hv. }
  destruct valid as [err|[]]; [cbv [mret StateM_ret] in Hk; injection Hk as <- <-; by left|].
  apply M_bind_Ok in Hk as (my & d1 & Hmy & Hk). apply attempt_wallets in Hmy.
  destruct my as [err|my]; [destruct err|]; try (cbv [mret StateM_ret] in Hk; injection Hk as <- <-; by left).
  assert (answered drawn b cb (GetEndpointForDid h p did cb) d1 sent d') as Ha by (apply fetch_answers; right; eauto).
  unfold answered in *. by rewrite Hmy in Ha.
Qed.

Lemma command_answers drawn b f c cb d sent d' : cb_of c = [cb] -> execute_with crypto drawn b f c d = (Ok sent, d') ->
  answered drawn b cb c d sent d' /\ (deferred_commands d' = deferred_commands d \/ is_deferrable c = true).
Proof.
  intros Hcb Hc.
  assert (answered drawn b cb c d sent d' /\ (is_deferrable c = true \/ calls sent = [cb])) as [Ha Hd].
  { destruct c; cbn in Hcb; simplify_eq; cbn [execute_with] in Hc.
    all: try (split; [by eapply answer_answers|]; right; unfold answer in Hc; apply M_bind_Ok in Hc as (r & d1 & _ & Hm);
      cbv [mret StateM_ret] in Hm; by injection Hm as <- _).
    - split; [by apply key_for_did_answers|by left].
    - split; [by apply endpoint_answers|by left]. }
  split; [done|]. destruct Ha as [[_ Ha]|(_ & Ha & _)]; [by left|]. destruct Hd as [Hd|Hd]; [by right|]. by rewrite Hd in Ha.
Qed.

Lemma waiting_insert d d' id c : deferred_commands d !! id = None -> deferred_commands d' = <[id := c]> (deferred_commands d) ->
  waiting d' ≡ₚ cb_of c ++ waiting d.
Proof. intros Hid Hd. unfold waiting. rewrite Hd, map_to_list_insert by done. done. Qed.

(** A deferred command: its callback is called, or it was not waiting. *)
Lemma ack_answers drawn id m d sent d' : deferrable d -> after_ack (_execute_deferred_command crypto drawn) id m d = (Ok sent, d') ->
  deferrable d' /\ waiting d ≡ₚ calls sent ++ waiting d' /\ (deferred_commands d' = deferred_commands d \/ deferred_commands d' = delete id (deferred_commands d)).
Proof.
  unfold after_ack. intros Hdef (r & d1 & Hr & Hx)%M_bind_Ok. apply attempt_wallets in Hr.
  unfold _execute_deferred_command in Hx. apply M_bind_Ok in Hx as (? & ? & Hg & Hx). cbv [gets] in Hg. injection Hg as <- <-. rewrite Hr in Hx.
  destruct (deferred_commands d !! id) as [cmd|] eqn:Hcmd; cycle 1.
  { cbv [mret StateM_ret] in Hx. injection Hx as <- <-. unfold deferrable, waiting. rewrite Hr. split_and!; [done|done|by left]. }
  apply M_bind_Ok in Hx as (? & d2 & Hm & Hx). cbv [modify] in Hm. injection Hm as <- <-.
  pose proof (Hdef id cmd Hcmd) as Hcd. destruct (cb_of cmd) as [|cb [|]] eqn:Hcb; [by destruct cmd| |by destruct cmd].
  assert (waiting d ≡ₚ cb :: (map_to_list (delete id (deferred_commands d)) ≫= fun kv => cb_of kv.2)) as Hw.
  { unfold waiting. rewrite <-(insert_delete_id _ _ _ Hcmd) at 1. rewrite map_to_list_insert by apply lookup_delete_eq. cbn. by rewrite Hcb. }
  assert (calls sent = [cb] /\ deferred_commands d' = delete id (deferred_commands d)) as [Hsent Hd].
  { destruct r as [err|[]].
    - cbv [mret StateM_ret] in Hx. injection Hx as <- <-. cbn [deferred_commands set_deferred]. rewrite Hr. split; [|done].
      by destruct cmd; cbn in Hcb; simplify_eq.
    - destruct (command_answers _ _ _ _ cb _ _ _ Hcb Hx) as [[[Hsent Hd]|(Hb & _)] _]; [|done]. split; [done|]. rewrite Hd. cbn. by rewrite Hr. }
  unfold deferrable. unfold waiting at 2. rewrite Hd, Hsent. split_and!; [by apply map_Forall_delete|done|by right].
Qed.

(** One command: the callbacks that are given are called or wait. *)
Lemma step_answers drawn c d sent d' : deferrable d -> deferred_commands d !! dr_next_id drawn = None ->
  execute crypto drawn c d = (Ok sent, d') ->
  deferrable d' /\ cb_of c ++ waiting d ≡ₚ calls sent ++ waiting d' /\
  (forall id, id <> dr_next_id drawn -> deferred_commands d !! id = None -> deferred_commands d' !! id = None).
Proof.
  intros Hdef Hid Hc. assert (cb_of c = [] \/ exists cb, cb_of c = [cb]) as [Hcb|[cb Hcb]] by (destruct c; cbn; eauto).
  - assert (exists id m, execute crypto drawn c = after_ack (_execute_deferred_command crypto drawn) id m) as (id & m & He)
      by (destruct c; cbn in Hcb; try done; eexists _, _; reflexivity).
    rewrite He in Hc. destruct (ack_answers drawn id m d sent d' Hdef Hc) as (Hdef' & Hw & Hd). rewrite Hcb. split_and!; [done|done|].
    intros id' _ Hn. destruct Hd as [-> | ->]; [done|]. destruct (decide (id' = id)) as [->|]; [apply lookup_delete_eq|by rewrite lookup_delete_ne].
  - destruct (command_answers drawn false _ c cb d sent d' Hcb Hc) as [[[Hsent Hd]|(_ & Hsent & Hd)] Hor].
    + unfold deferrable, waiting. rewrite Hd, Hcb, Hsent. split_and!; [done|done|by intros ? _].
    + assert (is_deferrable c = true) as Hcd.
      { destruct Hor as [He|]; [|done]. exfalso. rewrite Hd in He. assert (deferred_commands d !! dr_next_id drawn = Some c) as Hx; [|by rewrite Hid in Hx].
        rewrite <-He. apply lookup_insert_eq. }
      unfold deferrable. rewrite Hd. split_and!.
      * by apply map_Forall_insert_2.
      * by rewrite (waiting_insert d d' _ c Hid Hd), Hsent.
      * intros id Hne Hn. by rewrite lookup_insert_ne.
Qed.

Lemma dids_run_answers commands : forall d sent d', deferrable d -> NoDup ((fun x => dr_next_id x.1) <$> commands) ->
  Forall (fun x => deferred_commands d !! dr_next_id x.1 = None) commands -> run commands d = (Ok sent, d') ->
  deferrable d' /\ (commands ≫= fun x => cb_of x.2) ++ waiting d ≡ₚ calls sent ++ waiting d'.
Proof.
  induction commands as [|[drawn c] commands IH]; intros d sent d' Hdef Hnd Hfresh Hrun.
  { cbv [run mret StateM_ret] in Hrun. by injection Hrun as <- <-. }
  apply M_bind_Ok in Hrun as (s1 & d1 & Hc & Hrun). apply M_bind_Ok in Hrun as (s2 & d2 & Hrest & Hm).
  cbv [mret StateM_ret] in Hm. injection Hm as <- <-. rewrite fmap_cons in Hnd. apply NoDup_cons in Hnd as [Hnew Hnd].
  apply Forall_cons in Hfresh as [Hid Hfresh]. destruct (step_answers drawn c d s1 d1 Hdef Hid Hc) as (Hdef1 & Hp1 & Hkeep).
  destruct (IH d1 s2 d2 Hdef1 Hnd) as [Hdef2 Hp2]; [|done|].
  { apply Forall_forall. intros x Hx. rewrite Forall_forall in Hfresh. apply Hkeep; [|by apply Hfresh].
    intros Heq. apply Hnew. cbn. rewrite <-Heq. by apply (list_elem_of_fmap_2 (fun x => dr_next_id x.1)). }
  split; [done|]. unfold calls in *. rewrite bind_app. cbn [mbind list_bind snd]. fold (mbind (M:=list) (fun x : Drawn * DidCommand => cb_of x.2) commands).
  rewrite <-!(assoc_L (++)), <-Hp2. rewrite (Permutation_app_comm (commands ≫= _) (waiting d)), (assoc_L (++)), Hp1.
  rewrite <-!(assoc_L (++)). apply Permutation_app_head, Permutation_app_comm.
Qed.

(** C19: in any run of commands and acknowledgements that does not unwind, the callbacks that were called and those of the
    commands that wait for the ledger are the callbacks that were given, each as often: no callback is called twice
    and none is lost. *)
Theorem callbacks_called_once w commands sent d' : NoDup ((fun x => dr_next_id x.1) <$> commands) ->
  run commands (mk_did_executor w ∅) = (Ok sent, d') ->
  (commands ≫= fun x => cb_of x.2) ≡ₚ calls sent ++ waiting d'.
Proof.
  intros Hnd Hrun. destruct (dids_run_answers commands (mk_did_executor w ∅) sent d') as [_ Hp]; [apply map_Forall_empty|done| |done|].
  - apply Forall_forall. intros x _. apply lookup_empty.
  - assert (waiting (mk_did_executor w ∅) = []) as Hnone by (unfold waiting; cbn; by rewrite map_to_list_empty).
    by rewrite <-Hp, Hnone, (right_id_L [] (++)).
Qed.
End callbacks.

(** ** DIDs on the map of a wallet *)

Section wallet.
Context `{Machine} `{JsonText} `{Ed25519} `{Base58} `{CryptoTexts} `{OptionCodecs} `{DidCodecs}.
Context `{!IndyObject KeyPair} `{!IndyObject Did} `{!IndyObject TheirDid} `{!IndyObject TemporaryDid} `{!IndyObject DidMetadata} `{!IndyObject Endpoint}.
Context `{!ObjectLaws KeyPair} `{!ObjectLaws Did} `{!ObjectLaws TheirDid} `{!ObjectLaws TemporaryDid}.
Context (crypto : CryptoService).
Implicit Types (w : WalletMap) (drawn : Drawn) (h : Z).

(** The names of the types are different, and their objects can be printed. *)
Class DidTypes : Prop := {
  did_types_differ : NoDup [type_of KeyPair; type_of Did; type_of TheirDid; type_of TemporaryDid];
  key_printable : forall x : KeyPair, is_Some (object_to_string x);
  did_printable : forall x : Did, is_Some (object_to_string x);
  their_printable : forall x : TheirDid, is_Some (object_to_string x);
  temporary_printable : forall x : TemporaryDid, is_Some (object_to_string x);
}.
Context `{!DidTypes}.

(** What the wallet has when an object was added *)
Definition with_object (T : Type) `{!IndyObject T} (name : string) (object : T) w : WalletMap :=
  <[(type_of T, name) := (default ""%string (object_to_string object), ∅)]> w.

Lemma object_add_run (T : Type) `{!IndyObject T} fresh h name w (object : T) : is_Some (object_to_string object) -> w !! (type_of T, name) = None ->
  exists json, iw_add_indy_object T fresh h name object ∅ w = (Ok json, with_object T name object w).
Proof. intros [json Hj] Hn. exists json. rewrite (map_add_object T fresh h name w object json ∅ Hj Hn). unfold with_object. by rewrite Hj. Qed.

Lemma add_exists (T : Type) `{!IndyObject T} fresh h name w (object : T) : is_Some (object_to_string object) -> is_Some (w !! (type_of T, name)) ->
  iw_add_indy_object T fresh h name object ∅ w = (Err WalletItemAlreadyExists, w).
Proof.
  intros [json Hj] [x Hx]. cbn [iw_add_indy_object map_wallet]. rewrite bind_run. unfold lift. rewrite Hj. cbn [ok_or].
  rewrite bind_run. unfold wspec_add. by rewrite Hx.
Qed.

Lemma with_object_at (T : Type) `{!IndyObject T} `{!ObjectLaws T} name (object : T) w : is_Some (object_to_string object) ->
  object_at T (with_object T name object w) name = Some object.
Proof. intros [json Hj]. unfold object_at, with_object. rewrite lookup_insert_eq, Hj. cbn. by apply object_roundtrip. Qed.

Lemma object_kept (T U : Type) `{!IndyObject T} `{!IndyObject U} name name' (object : U) w : (type_of T, name) <> (type_of U, name') ->
  object_at T (with_object U name' object w) name = object_at T w name.
Proof. intros Hne. unfold object_at, with_object. by rewrite lookup_insert_ne by congruence. Qed.

(** The types, in pairs *)
Lemma types_apart : type_of KeyPair <> type_of Did /\ type_of KeyPair <> type_of TheirDid /\ type_of KeyPair <> type_of TemporaryDid /\
  type_of Did <> type_of TheirDid /\ type_of Did <> type_of TemporaryDid /\ type_of TheirDid <> type_of TemporaryDid.
Proof. pose proof did_types_differ as Hd. rewrite !NoDup_cons, !not_elem_of_cons in Hd. naive_solver. Qed.

Lemma local_key h did vk w : values_read -> validate_did did = Ok tt -> object_at Did w did = Some (mk_did did vk) ->
  key_for_local_did h did w = (Ok vk, w).
Proof.
  intros Hv Hd Ho. unfold key_for_local_did. lifted Hd. rewrite bind_run. unfold attempt, _wallet_get_my_did.
  by rewrite (map_get_object Did h did w _ Hv Ho).
Qed.

(** *** Replacing the keys of a DID *)

Lemma start_run drawn h info did vk w key : values_read -> validate_did did = Ok tt -> object_at Did w did = Some (mk_did did vk) ->
  Crypto.create_key crypto (dr_random drawn) info = Ok key -> w !! (type_of KeyPair, key_verkey key) = None ->
  replace_keys_start crypto drawn h info did w =
    let w' := with_object KeyPair (key_verkey key) key w in
    match w !! (type_of TemporaryDid, did) with
    | None => (Ok (key_verkey key), with_object TemporaryDid did (mk_temporary_did did (key_verkey key)) w')
    | Some _ => (Err WalletItemAlreadyExists, w')
    end.
Proof.
  intros Hv Hd Ho Hk Hn. unfold replace_keys_start, _wallet_get_my_did. lifted Hd. stepped (map_get_object Did h did w _ Hv Ho).
  lifted Hk. cbn [did_did]. destruct (object_add_run KeyPair (dr_fresh drawn 0) h (key_verkey key) w key (key_printable key) Hn) as [json Hadd].
  stepped Hadd. cbn [tmp_did tmp_verkey]. destruct types_apart as (_ & _ & Hkt & _).
  assert (forall x, with_object KeyPair (key_verkey key) key w !! (type_of TemporaryDid, did) = x <-> w !! (type_of TemporaryDid, did) = x) as Hl.
  { intros x. unfold with_object. by rewrite lookup_insert_ne by congruence. }
  destruct (w !! (type_of TemporaryDid, did)) as [x|] eqn:Ht.
  - assert (is_Some (with_object KeyPair (key_verkey key) key w !! (type_of TemporaryDid, did))) as Hs by (eexists; by apply Hl).
    by rewrite (run_fails _ _ _ _ _ (add_exists TemporaryDid _ _ _ _ _ (temporary_printable _) Hs)).
  - assert (with_object KeyPair (key_verkey key) key w !! (type_of TemporaryDid, did) = None) as Hs by by apply Hl.
    destruct (object_add_run TemporaryDid (dr_fresh drawn 1) h did _ (mk_temporary_did did (key_verkey key)) (temporary_printable _) Hs) as [json' Hadd'].
    by stepped Hadd'.
Qed.

Lemma apply_run drawn h did vk vk' w : values_read -> validate_did did = Ok tt -> object_at Did w did = Some (mk_did did vk) ->
  object_at TemporaryDid w did = Some (mk_temporary_did did vk') ->
  exists x, w !! (type_of Did, did) = Some x /\
    replace_keys_apply drawn h did w =
      (Ok tt, delete (type_of TemporaryDid, did) (<[(type_of Did, did) := (default ""%string (object_to_string (mk_did did vk')), x.2)]> w)).
Proof.
  intros Hv Hd Ho Ht. unfold object_at in Ho. destruct (w !! (type_of Did, did)) as [x|] eqn:Hx; [|done]. exists x. split; [done|].
  assert (object_at Did w did = Some (mk_did did vk)) as Ho' by (unfold object_at; by rewrite Hx).
  unfold replace_keys_apply, _wallet_get_my_did. lifted Hd. stepped (map_get_object Did h did w _ Hv Ho'). cbn [did_did].
  stepped (map_get_object TemporaryDid h did w _ Hv Ht). unfold Did_from. cbn [did_did tmp_did tmp_verkey].
  destruct (did_printable (mk_did did vk')) as [json Hj]. stepped (map_update_object Did (dr_fresh drawn 0) h did w _ json x Hj Hx). rewrite Hj.
  cbn [iw_delete_indy_record map_wallet default]. unfold wspec_delete. destruct types_apart as (_ & _ & _ & _ & Hdt & _).
  rewrite lookup_insert_ne by congruence. unfold object_at in Ht. by destruct (w !! (type_of TemporaryDid, did)).
Qed.

(** C21: replacing the keys of a DID takes two steps.  The first keeps the key that is in use and stores the new pair; the second
    makes it the key that is in use and leaves nothing but the old pair behind, and no other record changes.  When
    the first step is done again before the second, it fails, but only after it stored one more pair. *)
Theorem keys_replaced drawn drawn' h info did vk w key : values_read -> validate_did did = Ok tt ->
  object_at Did w did = Some (mk_did did vk) -> Crypto.create_key crypto (dr_random drawn) info = Ok key ->
  w !! (type_of KeyPair, key_verkey key) = None -> w !! (type_of TemporaryDid, did) = None ->
  exists w1 w2, replace_keys_start crypto drawn h info did w = (Ok (key_verkey key), w1) /\
    key_for_local_did h did w1 = (Ok vk, w1) /\
    replace_keys_apply drawn' h did w1 = (Ok tt, w2) /\
    key_for_local_did h did w2 = (Ok (key_verkey key), w2) /\ object_at KeyPair w2 (key_verkey key) = Some key /\
    (forall k, k <> (type_of Did, did) -> k <> (type_of KeyPair, key_verkey key) -> w2 !! k = w !! k) /\
    (forall again info' key', Crypto.create_key crypto (dr_random again) info' = Ok key' -> w1 !! (type_of KeyPair, key_verkey key') = None ->
      replace_keys_start crypto again h info' did w1 = (Err WalletItemAlreadyExists, with_object KeyPair (key_verkey key') key' w1)).
Proof.
  intros Hv Hd Ho Hk Hn Ht. destruct types_apart as (Hkd & _ & Hkt & _ & Hdt & _).
  set (temporary := mk_temporary_did did (key_verkey key)).
  set (w1 := with_object TemporaryDid did temporary (with_object KeyPair (key_verkey key) key w)).
  assert (object_at Did w1 did = Some (mk_did did vk)) as Ho1 by (unfold w1; by rewrite !object_kept by congruence).
  assert (object_at TemporaryDid w1 did = Some temporary) as Ht1 by (by apply with_object_at, temporary_printable).
  destruct (apply_run drawn' h did vk (key_verkey key) w1 Hv Hd Ho1 Ht1) as (x & Hx & Happly). eexists w1, _. split_and!.
  - rewrite (start_run drawn h info did vk w key Hv Hd Ho Hk Hn). by rewrite Ht.
  - by apply local_key.
  - exact Happly.
  - apply local_key; [done|done|]. unfold object_at. rewrite lookup_delete_ne, lookup_insert_eq by congruence. cbn.
    destruct (did_printable (mk_did did (key_verkey key))) as [json Hj]. rewrite Hj. by apply object_roundtrip.
  - unfold object_at. rewrite lookup_delete_ne, lookup_insert_ne by congruence. fold (object_at KeyPair w1 (key_verkey key)). unfold w1.
    rewrite object_kept by congruence. exact (with_object_at KeyPair _ _ _ (key_printable _)).
  - intros k Hk1 Hk2. destruct (decide (k = (type_of TemporaryDid, did))) as [->|Hk3]; [by rewrite lookup_delete_eq, Ht|].
    rewrite lookup_delete_ne, lookup_insert_ne by congruence. unfold w1, with_object. by rewrite !lookup_insert_ne by congruence.
  - intros again info' key' Hk' Hn'. rewrite (start_run again h info' did vk w1 key' Hv Hd Ho1 Hk' Hn').
    assert (exists y, w1 !! (type_of TemporaryDid, did) = Some y) as [y ->]; [|done]. eexists. unfold w1, with_object. apply lookup_insert_eq.
Qed.

(** *** Creating a DID *)

(** a new DID is stored with its key pair, and its key is found from then on.  A DID that the wallet has is refused and nothing
    changes; but when the wallet has the key pair under another DID, the command fails after it stored the DID. *)
Theorem my_did_created drawn h info did key w : values_read -> (exists opts, parse_record_options RecordOptions_id = Ok opts) ->
  create_my_did crypto (dr_random drawn) info = Ok (did, key) -> validate_did (did_did did) = Ok tt ->
  let w1 := with_object Did (did_did did) did w in
  match w !! (type_of Did, did_did did), w !! (type_of KeyPair, key_verkey key) with
  | Some _, _ => create_and_store_my_did crypto drawn h info w = (Err DIDAlreadyExists, w)
  | None, Some _ => create_and_store_my_did crypto drawn h info w = (Err WalletItemAlreadyExists, w1) /\
      key_for_local_did h (did_did did) w1 = (Ok (did_verkey did), w1)
  | None, None => let w2 := with_object KeyPair (key_verkey key) key w1 in
      create_and_store_my_did crypto drawn h info w = (Ok (did_did did, did_verkey did), w2) /\
      key_for_local_did h (did_did did) w2 = (Ok (did_verkey did), w2) /\ object_at KeyPair w2 (key_verkey key) = Some key
  end.
Proof.
  intros Hv Hid Hc Hd w1. destruct types_apart as (Hkd & _).
  assert (create_and_store_my_did crypto drawn h info w = (if bool_decide (is_Some (w !! (type_of Did, did_did did))) then (Err DIDAlreadyExists, w) else
    (_ ← iw_add_indy_object Did (dr_fresh drawn 0) h (did_did did) did ∅; _ ← iw_add_indy_object KeyPair (dr_fresh drawn 1) h (key_verkey key) key ∅;
     mret (did_did did, did_verkey did)) w)) as ->.
  { unfold create_and_store_my_did. lifted Hc. stepped (map_exists Did h (did_did did) w Hid). by destruct (bool_decide _). }
  assert (object_at Did w1 (did_did did) = Some (mk_did (did_did did) (did_verkey did))) as Ho1.
  { destruct did. by apply with_object_at, did_printable. }
  destruct (w !! (type_of Did, did_did did)) as [x|] eqn:Hx; [by rewrite bool_decide_true|]. rewrite bool_decide_false by (by intros []).
  destruct (object_add_run Did (dr_fresh drawn 0) h (did_did did) w did (did_printable did) Hx) as [json Hadd]. stepped Hadd. fold w1.
  assert (w1 !! (type_of KeyPair, key_verkey key) = w !! (type_of KeyPair, key_verkey key)) as Hl.
  { unfold w1, with_object. by rewrite lookup_insert_ne by congruence. }
  destruct (w !! (type_of KeyPair, key_verkey key)) as [y|] eqn:Hy.
  - split; [|by apply local_key]. by rewrite (run_fails _ _ _ _ _ (add_exists KeyPair _ _ _ _ key (key_printable key) (mk_is_Some _ _ Hl))).
  - destruct (object_add_run KeyPair (dr_fresh drawn 1) h (key_verkey key) w1 key (key_printable key) Hl) as [json' Hadd']. intros w2. split_and!.
    + by stepped Hadd'.
    + apply local_key; [done|done|]. unfold w2. by rewrite object_kept by congruence.
    + exact (with_object_at KeyPair _ _ _ (key_printable _)).
Qed.

(** *** Keys that the ledger knows *)

(** The DID of somebody else that a reply to [GET_NYM] is about *)
Definition nym_of (reply : string) : IndyResult TheirDid :=
  response ← ok_or (nym_reply_from_str reply) InvalidState;
  res ← result response;
  info ← match res with
    | GetNymReplyResultV0 (Some data) => data ← ok_or (nym_data_from_str data) InvalidState; Ok (mk_their_did_info (nd_dest data) (nd_verkey data))
    | GetNymReplyResultV0 None => Err WalletItemNotFound
    | GetNymReplyResultV1 res => Ok (mk_their_did_info (n1_did (txn_data res)) (n1_verkey (txn_data res)))
    end;
  create_their_did crypto info.

Lemma nym_ack_run drawn h reply their w : nym_of reply = Ok their ->
  _get_nym_ack crypto drawn h (inr reply) w =
    match w !! (type_of TheirDid, td_did their) with
    | None => (Ok tt, with_object TheirDid (td_did their) their w)
    | Some _ => (Err WalletItemAlreadyExists, w)
    end.
Proof.
  unfold nym_of, _get_nym_ack. intros (resp & Hresp & Hn)%bind_Ok. apply bind_Ok in Hn as (res & Hres & Hn).
  apply bind_Ok in Hn as (info & Hinfo & Hn). returned. lifted Hresp. lifted Hres. lifted Hinfo. lifted Hn.
  destruct (w !! (type_of TheirDid, td_did their)) as [x|] eqn:Hx.
  - by rewrite (run_fails _ _ _ _ _ (add_exists TheirDid _ h _ w their (their_printable their) (mk_is_Some _ _ Hx))).
  - destruct (object_add_run TheirDid (dr_fresh drawn 0) h _ w their (their_printable their) Hx) as [json Hadd]. by stepped Hadd.
Qed.

Lemma within_run {A} (m : StateM IndyErrorKind WalletMap A) (d : DidCommandExecutor WalletMap) r w : m (did_wallets d) = (r, w) ->
  on_did_wallets m d = (r, mk_did_executor w (deferred_commands d)).
Proof. intros Hm. unfold on_did_wallets, within. by rewrite Hm. Qed.

Lemma attempt_fails {A} (m : StateM IndyErrorKind (DidCommandExecutor WalletMap) A) d e d' : m d = (Err e, d') -> attempt m d = (Ok (inl e), d').
Proof. unfold attempt. by intros ->. Qed.

Lemma attempt_returns {A} (m : StateM IndyErrorKind (DidCommandExecutor WalletMap) A) d a d' : m d = (Ok a, d') -> attempt m d = (Ok (inr a), d').
Proof. unfold attempt. by intros ->. Qed.

(** A DID that is neither the wallet's own nor one that it knows of *)
Definition unknown w did : Prop := w !! (type_of Did, did) = None /\ w !! (type_of TheirDid, did) = None.

Lemma key_unknown drawn borrowed p h did cb d : values_read -> validate_did did = Ok tt -> unknown (did_wallets d) did ->
  key_for_did drawn borrowed p h did cb d = _fetch_their_did_from_ledger drawn borrowed h p did (KeyForDid p h did cb) d.
Proof.
  intros Hv Hd [Hmy Hth]. destruct d as [w deferred]. cbn [did_wallets] in *. unfold key_for_did.
  assert (forall d, attempt (E:=IndyErrorKind) (S:=DidCommandExecutor WalletMap) (lift (validate_did did)) d = (Ok (inr tt), d)) as Hval
    by (intros d; apply attempt_returns; unfold lift; by rewrite Hd).
  stepped (Hval (mk_did_executor w deferred)).
  stepped (attempt_fails _ _ _ _ (within_run _ (mk_did_executor w deferred) _ _ (map_get_object_none Did h did w Hv Hmy))).
  by stepped (attempt_fails _ _ _ _ (within_run _ (mk_did_executor w deferred) _ _ (map_get_object_none TheirDid h did w Hv Hth))).
Qed.

Lemma key_known drawn borrowed p h did cb d their : values_read -> validate_did did = Ok tt -> did_wallets d !! (type_of Did, did) = None ->
  object_at TheirDid (did_wallets d) did = Some their ->
  key_for_did drawn borrowed p h did cb d = (Ok [CallBack cb (inr (Text (td_verkey their)))], d).
Proof.
  intros Hv Hd Hmy Hth. destruct d as [w deferred]. cbn [did_wallets] in *. unfold key_for_did.
  assert (forall d, attempt (E:=IndyErrorKind) (S:=DidCommandExecutor WalletMap) (lift (validate_did did)) d = (Ok (inr tt), d)) as Hval
    by (intros d; apply attempt_returns; unfold lift; by rewrite Hd).
  stepped (Hval (mk_did_executor w deferred)).
  stepped (attempt_fails _ _ _ _ (within_run _ (mk_did_executor w deferred) _ _ (map_get_object_none Did h did w Hv Hmy))).
  by stepped (attempt_returns _ _ _ _ (within_run _ (mk_did_executor w deferred) _ _ (map_get_object TheirDid h did w their Hv Hth))).
Qed.

(** The run of an acknowledgement for a command that waits *)
Lemma ack_run drawn h reply id w m cmd res w' : m !! id = Some cmd -> _get_nym_ack crypto drawn h reply w = (res, w') ->
  execute crypto drawn (GetNymAck h reply id) (mk_did_executor w m) =
    match res with
    | Ok tt => execute_with crypto drawn true (fun _ _ => lift Panic) cmd (mk_did_executor w' (delete id m))
    | Err err => (Ok (_call_error_cb cmd err), mk_did_executor w' (delete id m))
    | Panic => (Panic, mk_did_executor w' m)
    | OutOfFuel => (OutOfFuel, mk_did_executor w' m)
    end.
Proof.
  intros Hm Hack. unfold execute. cbn [execute_with]. unfold after_ack. rewrite bind_run. unfold attempt.
  rewrite (within_run (_get_nym_ack crypto drawn h reply) (mk_did_executor w m) _ _ Hack). cbn [deferred_commands].
  destruct res as [[]|err| |]; [| |done..]; unfold _execute_deferred_command; rewrite bind_run; cbn [gets deferred_commands]; rewrite Hm; done.
Qed.

(** C20: the key of a DID that the wallet does not know is asked of the ledger, and the command waits.  The reply for the DID is stored and its
    key is what the callback is given; an error is passed on.  A second command that waited for the same DID gets an error,
    though the key is there by then.  A reply for another DID unwinds the executor. *)
Theorem their_key_fetched drawn p h did cb w m req : values_read -> validate_did did = Ok tt -> unknown w did -> m !! dr_next_id drawn = None ->
  build_get_nym_request (dr_env drawn) None did = Ok req ->
  let id := dr_next_id drawn in let waits := mk_did_executor w (<[id := KeyForDid p h did cb]> m) in
  execute crypto drawn (KeyForDid p h did cb) (mk_did_executor w m) = (Ok [SubmitGetNym p req h id], waits) /\
  (forall ack reply their, nym_of reply = Ok their -> td_did their = did ->
    execute crypto ack (GetNymAck h (inr reply) id) waits =
      (Ok [CallBack cb (inr (Text (td_verkey their)))], mk_did_executor (with_object TheirDid did their w) m) /\
    forall id' cb', m !! id' = Some (KeyForDid p h did cb') -> exists d',
      execute crypto ack (GetNymAck h (inr reply) id') (mk_did_executor (with_object TheirDid did their w) m) = (Ok [CallBack cb' (inl WalletItemAlreadyExists)], d')) /\
  (forall ack reply their, nym_of reply = Ok their -> td_did their <> did -> w !! (type_of TheirDid, td_did their) = None ->
    (execute crypto ack (GetNymAck h (inr reply) id) waits).1 = Panic) /\
  (forall ack err, execute crypto ack (GetNymAck h (inl err) id) waits = (Ok [CallBack cb (inl err)], mk_did_executor w m)).
Proof.
  intros Hv Hd Hun Hid Hreq id waits. destruct types_apart as (_ & _ & _ & Hdt & _).
  assert (<[id := KeyForDid p h did cb]> m !! id = Some (KeyForDid p h did cb)) as Hm by apply lookup_insert_eq.
  assert (delete id (<[id := KeyForDid p h did cb]> m) = m) as Hdel by by apply delete_insert_id.
  split_and!.
  - unfold execute. cbn [execute_with]. rewrite key_unknown by done. unfold _fetch_their_did_from_ledger, _defer_command.
    rewrite !bind_run. cbn [modify]. rewrite Hreq. done.
  - intros ack reply their Hnym Ht. pose proof (nym_ack_run ack h reply their w Hnym) as Hrun. rewrite Ht in Hrun. rewrite (proj2 Hun) in Hrun. split.
    + unfold waits. rewrite (ack_run ack h (inr reply) id w _ _ _ _ Hm Hrun), Hdel. cbn [execute_with].
      apply key_known; [done|done| |].
      * cbn [did_wallets]. unfold with_object. rewrite lookup_insert_ne by congruence. apply Hun.
      * exact (with_object_at TheirDid _ _ _ (their_printable _)).
    + intros id' cb' Hid'. pose proof (nym_ack_run ack h reply their (with_object TheirDid did their w) Hnym) as Hrun'.
      assert (exists y, with_object TheirDid did their w !! (type_of TheirDid, did) = Some y) as [y Hy] by (eexists; apply lookup_insert_eq).
      rewrite Ht, Hy in Hrun'.
      rewrite (ack_run ack h (inr reply) id' _ _ _ _ _ Hid' Hrun'). by eexists.
  - intros ack reply their Hnym Ht Hnone. pose proof (nym_ack_run ack h reply their w Hnym) as Hrun. rewrite Hnone in Hrun.
    unfold waits. rewrite (ack_run ack h (inr reply) id w _ _ _ _ Hm Hrun). cbn [execute_with].
    rewrite key_unknown; [done|done|done|]. unfold unknown, with_object. cbn [did_wallets].
    rewrite !lookup_insert_ne by congruence. exact Hun.
  - intros ack err. unfold waits. rewrite (ack_run ack h (inl err) id w _ _ (Err err) w Hm eq_refl), Hdel. done.
Qed.
End wallet.

(** ** Abbreviated verkeys *)

(** a verkey whose first 16 bytes are its DID is abbreviated to the rest, and any other is left as it is; either is written out to the
    verkey again.  Abbreviating does not unwind. *)
Theorem abbreviated_verkey_full `{Ed25519} `{Base58} `{CryptoTexts} `{!CryptoTextsLaws} (did16 : bytes) (vk : PublicKey) : length did16 = 16 ->
  let did := to_base58 did16 in let verkey := to_base58 (arr_bytes vk) in
  exists short, abbreviate_verkey CryptoService_new did verkey = Ok short /\ build_full_verkey did (Some short) = Ok verkey /\
    short = (if decide (take 16 (arr_bytes vk) = did16) then "~" +:+ to_base58 (drop 16 (arr_bytes vk)) else verkey)%string.
Proof.
  intros Hlen did verkey. unfold abbreviate_verkey. assert (validate_did did = Ok tt) as Hd.
  { unfold validate_did, did. rewrite decode58_back. cbn. by rewrite decide_False by lia. }
  rewrite Hd. cbn [mbind Prelude.outcome_bind]. unfold verkey. rewrite validate_made. cbn [mbind Prelude.outcome_bind].
  unfold did. rewrite !decode58_back. cbn [mbind Prelude.outcome_bind]. rewrite decide_False by (rewrite arr_length; unfold KEYBYTES; lia).
  case_decide as Hsame; (eexists; split; [done|]; split; [|done]); unfold build_full_verkey.
  - assert (contains_char ":"%char ("~" +:+ to_base58 (drop 16 (arr_bytes vk)))%string = false) as -> by (cbn; apply to_base58_plain).
    change ("~" +:+ to_base58 (drop 16 (arr_bytes vk)))%string with (String "~"%char (to_base58 (drop 16 (arr_bytes vk)))).
    cbn [mbind Prelude.outcome_bind]. rewrite !decode58_back. cbn [mbind Prelude.outcome_bind]. by rewrite <-Hsame, take_drop.
  - rewrite (proj1 (to_base58_plain _)). cbn [mbind Prelude.outcome_bind]. rewrite match_no_tilde by apply to_base58_plain. done.
Qed.

(** ** On the wallet service *)

Section service_commands.
Context `{ChaCha20Poly1305} `{HmacSha256} `{HashOrder} `{OptionCodecs} `{LikePattern}.
Context `{Ed25519} `{Base58} `{CryptoTexts} `{DidCodecs}.
Context `{!IndyObject KeyPair} `{!IndyObject Did} `{!IndyObject TheirDid} `{!IndyObject TemporaryDid} `{!IndyObject DidMetadata} `{!IndyObject Endpoint}.
Context `{!ObjectLaws KeyPair} `{!ObjectLaws Did} `{!ObjectLaws TheirDid} `{!ObjectLaws TemporaryDid} `{!ObjectLaws DidMetadata} `{!ObjectLaws Endpoint}.
Context {St Iter : Type} `{!WalletStorage St Iter} `{!WalletStorageLaws St Iter}.

(** The commands do to the wallet service what they do to the map. *)
Lemma dids_follow crypto drawn h :
  (forall did, wallet_simulates (St:=St) h (replace_keys_apply drawn h did) (replace_keys_apply drawn h did)) /\
  (forall did, wallet_simulates (St:=St) h (get_my_did_with_meta h did) (get_my_did_with_meta h did)) /\
  (forall did, wallet_simulates (St:=St) h (key_for_local_did h did) (key_for_local_did h did)) /\
  (forall did, wallet_simulates (St:=St) h (get_did_metadata h did) (get_did_metadata h did)) /\
  (forall did metadata, is_utf8 did -> wallet_simulates (St:=St) h (set_did_metadata drawn h did metadata) (set_did_metadata drawn h did metadata)) /\
  (forall did endpoint, is_utf8 did ->
    wallet_simulates (St:=St) h (set_endpoint_for_did crypto drawn h did endpoint) (set_endpoint_for_did crypto drawn h did endpoint)).
Proof.
  split_and!; intros.
  - unfold replace_keys_apply, _wallet_get_my_did. follow.
  - unfold get_my_did_with_meta. follow.
  - unfold key_for_local_did, _wallet_get_my_did, _wallet_get_their_did. follow.
  - unfold get_did_metadata. follow.
  - unfold set_did_metadata. apply simulates_bind; [follow|]. intros _. apply simulates_bind; [|follow]. by apply simulates_upsert_object; [apply _|].
  - unfold set_endpoint_for_did. do 2 (apply simulates_bind; [follow|]; intros _). apply simulates_bind; [|follow].
    by apply simulates_upsert_object; [apply _|].
Qed.
End service_commands.

(** ** Toy DIDs *)

Module ToyDids.
Import ToyCrypto.
#[local] Existing Instances ToyPool.machine ToyLedger.json_text ToySigning.did_object ToySigning.did_laws.

#[export] Instance their_object : IndyObject TheirDid := text_object "TheirDid"%string (fun d => [td_did d; td_verkey d])
  (fun l => match l with [d; v] => mk_their_did d v | _ => mk_their_did ""%string ""%string end).
#[export] Instance their_laws : ObjectLaws TheirDid.
Proof. apply text_object_laws; [by intros []|reflexivity]. Qed.
#[export] Instance temporary_object : IndyObject TemporaryDid := text_object "TemporaryDid"%string (fun d => [tmp_did d; tmp_verkey d])
  (fun l => match l with [d; v] => mk_temporary_did d v | _ => mk_temporary_did ""%string ""%string end).
#[export] Instance temporary_laws : ObjectLaws TemporaryDid.
Proof. apply text_object_laws; [by intros []|reflexivity]. Qed.
#[export] Instance did_metadata_object : IndyObject DidMetadata := text_object "DidMetadata"%string dm_value mk_did_metadata.
#[export] Instance endpoint_object : IndyObject Endpoint := text_object "Endpoint"%string (fun e => (ha e, ep_verkey e)) (fun p => mk_endpoint p.1 p.2).

#[export] Instance did_types : DidTypes.
Proof. split; [|by eexists..]. apply (bool_decide_unpack _). vm_compute. exact I. Qed.

(** A reply of the first format is the text of its data: a DID and a verkey. *)
#[export] Instance did_codecs : DidCodecs := {|
  did_with_meta_to_string := fun d => Some (dw_verkey d);
  nym_reply_from_str := fun s => Some (ReplyV0 (GetNymReplyResultV0 (Some s)));
  nym_data_from_str := fun s => l ← unpack_texts s;
    match l with [[Some dest; vk]] => Some (mk_nym_data None dest None vk) | _ => None end;
  attr_reply_from_str := fun _ => None;
  attrib_data_from_str := fun _ => None;
|}.

Definition draws (n : Z) : Drawn := mk_drawn bob (fun _ => mk_fresh (toy_key Byte.x21) (toy_nonce Byte.x22) (toy_nonce Byte.x23)) ToyLedger.env n.
Definition did : string := ToyLedger.a_did.
Definition verkey : string := key_verkey (key_of alice).
Definition wallet : WalletMap := with_object Did did (mk_did did verkey) ∅.

Lemma did_valid : validate_did did = Ok tt.
Proof. reflexivity. Qed.

Lemma wallet_did : object_at Did wallet did = Some (mk_did did verkey).
Proof. apply with_object_at; [exact ToySigning.did_laws|by eexists]. Qed.

Lemma keys_replaced_witness : exists w1 w2, replace_keys_start CryptoService_new (draws 1) 1 (mk_key_info None None) did wallet =
    (Ok (key_verkey (key_of bob)), w1) /\
  replace_keys_apply (draws 2) 1 did w1 = (Ok tt, w2) /\ key_for_local_did 1 did w2 = (Ok (key_verkey (key_of bob)), w2).
Proof.
  destruct (keys_replaced CryptoService_new (draws 1) (draws 2) 1 (mk_key_info None None) did verkey wallet (key_of bob) toy_values_read did_valid
    wallet_did) as (w1 & w2 & Hstart & _ & Happly & Hkey & _); [reflexivity|reflexivity|reflexivity|].
  exists w1, w2. split; [exact Hstart|split; [exact Happly|exact Hkey]].
Defined.

Lemma my_did_created_witness : exists w2,
  create_and_store_my_did CryptoService_new (draws 1) 1 (mk_my_did_info (Some did) None None None) ∅ = (Ok (did, key_verkey (key_of bob)), w2).
Proof.
  pose proof (my_did_created CryptoService_new (draws 1) 1 (mk_my_did_info (Some did) None None None) (mk_did did (key_verkey (key_of bob))) (key_of bob) ∅
    toy_values_read (ex_intro _ _ eq_refl) eq_refl did_valid) as Hc. eexists. exact (proj1 Hc).
Defined.

Definition reply : string := pack_texts [[Some did; Some verkey]].

Lemma their_key_fetched_witness : exists req, exists d : DidCommandExecutor WalletMap,
  execute CryptoService_new (draws 1) (KeyForDid 3 1 did 7) (mk_did_executor ∅ ∅) = (Ok [SubmitGetNym 3 req 1 1], d) /\
  exists d', execute CryptoService_new (draws 2) (GetNymAck 1 (inr reply) 1) d = (Ok [CallBack 7 (inr (Text verkey))], d').
Proof.
  assert (nym_of CryptoService_new reply = Ok (mk_their_did did verkey)) as Hnym.
  { unfold nym_of. cbn [nym_reply_from_str did_codecs ok_or mbind Prelude.outcome_bind result nym_data_from_str]. unfold reply.
    rewrite pack_texts_back. vm_compute. reflexivity. }
  destruct (their_key_fetched CryptoService_new (draws 1) 3 1 did 7 ∅ ∅ _ toy_values_read did_valid (conj (lookup_empty _) (lookup_empty _)) (lookup_empty _) eq_refl)
    as (Hask & Hack & _).
  eexists _, _. split; [exact Hask|]. eexists. exact (proj1 (Hack (draws 2) reply _ Hnym eq_refl)).
Defined.

Lemma callbacks_called_once_witness : exists sent d,
  run CryptoService_new [(draws 1, KeyForDid 3 1 did 7); (draws 2, KeyForLocalDid 1 did 8)] (mk_did_executor (∅ : WalletMap) ∅) = (Ok sent, d) /\
  [7; 8]%Z ≡ₚ calls sent ++ waiting d.
Proof.
  eexists _, _. assert (forall sent d, run CryptoService_new [(draws 1, KeyForDid 3 1 did 7); (draws 2, KeyForLocalDid 1 did 8)]
    (mk_did_executor (∅ : WalletMap) ∅) = (Ok sent, d) -> [7; 8]%Z ≡ₚ calls sent ++ waiting d) as Hall.
  { intros sent d Hrun. apply (callbacks_called_once CryptoService_new ∅ _ sent d) in Hrun; [exact Hrun|]. cbn. repeat constructor; set_solver. }
  split; [reflexivity|]. apply Hall. reflexivity.
Defined.

Lemma abbreviated_verkey_full_witness : exists short,
  abbreviate_verkey CryptoService_new (to_base58 (repeat Byte.x01 16)) verkey = Ok short /\
  build_full_verkey (to_base58 (repeat Byte.x01 16)) (Some short) = Ok verkey.
Proof.
  destruct (abbreviated_verkey_full (repeat Byte.x01 16) (keypair_from_seed alice).1 eq_refl) as (short & Ha & Hb & _).
  exists short. split; [exact Ha|exact Hb].
Defined.
End ToyDids.
