(* ===== verification/PoolService.v ===== *)
(** * PoolService: the pools that are open, and the messages to their threads

    Models [PoolService] of [libindy/src/services/pool/mod.rs], [Pool::new], [Pool::work] and
    the drop of [ZMQPool] of [pool.rs], and [libindy/src/services/pool/commander.rs].  A
    pool is known by its handle; its thread, with the messages that were sent to it and not
    fetched, is the value of the handle in [sockets]. *)

From Stdlib Require Import Strings.Ascii.
From stdpp Require Import gmap.
From S2P Require Import Prelude Errors Json Hashing MerkleTree PoolTypes World MerkleFactory.

(** ** Configurations: [domain/pool.rs] *)

Record PoolConfig := mk_pool_config { genesis_txn : string }.
Definition PoolConfig_default_for_name (name : string) : PoolConfig := mk_pool_config (name +:+ ".txn").

Definition POOL_CON_ACTIVE_TO : Z := 5.
Definition POOL_ACK_TIMEOUT : Z := 20.
Definition POOL_REPLY_TIMEOUT : Z := 60.
Definition MAX_REQ_PER_POOL_CON : N := 5.

Record PoolOpenConfig := mk_open_config {
  oc_timeout : Z;
  oc_extended_timeout : Z;
  oc_conn_limit : N;
  oc_conn_active_timeout : Z;
  oc_preordered_nodes : list string;
}.
Definition PoolOpenConfig_default : PoolOpenConfig :=
  mk_open_config POOL_ACK_TIMEOUT POOL_REPLY_TIMEOUT MAX_REQ_PER_POOL_CON POOL_CON_ACTIVE_TO [].

(** [Pool]; its worker is the thread of its number. *)
Record Pool := mk_pool { pl_name : string; pl_id : Z; pl_config : PoolOpenConfig }.

(** ** What is outside *)

(** [std::path] and the home of the pools *)
Class Paths := {
  pool_home_path : string;
  push : string -> string -> string;
  set_extension : string -> string -> string;
  pop : string -> string;
  (** [Path::starts_with] *)
  within_path : string -> string -> bool;
  (** the last component, when it is a name *)
  file_name : string -> option string;
  (** the directories that [create_dir_all] makes, from the outermost to the path *)
  path_prefixes : string -> list string;
}.

(** serde_json *)
Class PoolConfigCodec := { pool_config_to_string : PoolConfig -> option string }.

Definition pool_path `{Paths} (name : string) : string := push pool_home_path name.

Record PoolService := mk_pool_service {
  open_pools : gmap Z Pool;
  pending_pools : gmap Z Pool;
  (** the threads: what each was started with, and the messages that wait for it, each of parts *)
  sockets : gmap Z (Pool * list (list bytes));
  (** the pools whose threads have unwound *)
  unwound : gset Z;
  (** how the next calls on files and sockets go; they succeed when the list is over *)
  ps_io : list IoResult;
  (** [IDS_COUNTER] *)
  ps_ids : N;
  (** directories and files, by their paths *)
  ps_dirs : gset string;
  ps_files : gmap string string;
  (** [REGISTERED_SP_PARSERS], the types; [ProtocolVersion] *)
  registered_sp_parsers : gset string;
  ps_protocol_version : N;
}.

(** The lines of a text: [BufRead::lines] *)
Definition strip_cr (line : string) : string :=
  match reverse (as_bytes line) with Byte.x0d :: l => string_of_bytes (reverse l) | _ => line end.
Definition text_lines (text : string) : list string :=
  let l := split_on "010"%char text in
  strip_cr <$> match reverse l with ""%string :: r => reverse r | _ => l end.

(** [LittleEndian::write_i32] and [read_i32], which unwinds on fewer bytes *)
Definition write_i32 (n : Z) : bytes := le_bytes 4 (Z.to_N (n mod 2 ^ 32)).
Definition read_i32 {E} (b : bytes) : outcome E Z := if decide (length b < 4) then Panic else Ok (as_i32 (le_value (take 4 b))).

(** ** [commander.rs] *)

(** The event of a message, if it is one *)
Definition fetch_event {E} (cmd_parts : list bytes) : outcome E (option PoolEvent) :=
  match cmd_parts with
  | [] => Panic
  | cmd :: rest =>
      match from_utf8 cmd with
      | None => Ok None
      | Some cmd_s =>
          id ← match rest with b :: _ => read_i32 b | [] => Ok (-1)%Z end;
          if decide (cmd_s = "exit"%string) then Ok (Some (Close id))
          else if decide (cmd_s = "refresh"%string) then Ok (Some (Refresh id))
          else if decide (cmd_s = "connect"%string) then Ok (Some (CheckCache id))
          else
            match rest with
            | _ :: t :: rest =>
                timeout ← read_i32 t;
                let timeout := if decide (timeout = -1)%Z then None else Some timeout in
                match rest with
                | nodes :: _ => match from_utf8 nodes with Some nodes => Ok (Some (SendRequest id cmd_s timeout (Some nodes))) | None => Ok None end
                | [] => Ok (Some (SendRequest id cmd_s timeout None))
                end
            | _ => Panic
            end
      end
  end.

Section service.
Context `{Machine} `{Sha256} `{JsonText} `{PoolCodecs} `{Base58} `{HashOrder} `{Paths} `{PoolConfigCodec}.

Abbreviation Pools := (StateM IndyErrorKind PoolService).

(** ** The parts of the state *)

Definition set_pools (open pending : gmap Z Pool) (s : PoolService) : PoolService :=
  mk_pool_service open pending (sockets s) (unwound s) (ps_io s) (ps_ids s) (ps_dirs s) (ps_files s) (registered_sp_parsers s) (ps_protocol_version s).
Definition set_sockets f (s : PoolService) : PoolService :=
  mk_pool_service (open_pools s) (pending_pools s) (f (sockets s)) (unwound s) (ps_io s) (ps_ids s) (ps_dirs s) (ps_files s) (registered_sp_parsers s) (ps_protocol_version s).
Definition set_unwound f (s : PoolService) : PoolService :=
  mk_pool_service (open_pools s) (pending_pools s) (sockets s) (f (unwound s)) (ps_io s) (ps_ids s) (ps_dirs s) (ps_files s) (registered_sp_parsers s) (ps_protocol_version s).
Definition set_ps_io io (s : PoolService) : PoolService :=
  mk_pool_service (open_pools s) (pending_pools s) (sockets s) (unwound s) io (ps_ids s) (ps_dirs s) (ps_files s) (registered_sp_parsers s) (ps_protocol_version s).
Definition set_ps_ids n (s : PoolService) : PoolService :=
  mk_pool_service (open_pools s) (pending_pools s) (sockets s) (unwound s) (ps_io s) n (ps_dirs s) (ps_files s) (registered_sp_parsers s) (ps_protocol_version s).
Definition set_disk (dirs : gset string) (files : gmap string string) (s : PoolService) : PoolService :=
  mk_pool_service (open_pools s) (pending_pools s) (sockets s) (unwound s) (ps_io s) (ps_ids s) dirs files (registered_sp_parsers s) (ps_protocol_version s).
Definition set_registered f (s : PoolService) : PoolService :=
  mk_pool_service (open_pools s) (pending_pools s) (sockets s) (unwound s) (ps_io s) (ps_ids s) (ps_dirs s) (ps_files s) (f (registered_sp_parsers s)) (ps_protocol_version s).
Definition set_protocol v (s : PoolService) : PoolService :=
  mk_pool_service (open_pools s) (pending_pools s) (sockets s) (unwound s) (ps_io s) (ps_ids s) (ps_dirs s) (ps_files s) (registered_sp_parsers s) v.

(** [sequence::get_next_id()]; an atomic counter wraps, and the [+ 1] unwinds where overflow is checked. *)
Definition next_id : Pools Z := fun s =>
  (n ← usize_add (ps_ids s) 1; Ok (as_i32 n), set_ps_ids ((ps_ids s + 1) mod usize_modulus)%N s).

(** How the next call on a file or a socket goes *)
Definition next_call : Pools IoResult := fun s =>
  match ps_io s with [] => (Ok IoOk, s) | r :: l => (Ok r, set_ps_io l s) end.
Definition call : Pools unit := r ← next_call; match r with IoOk => mret tt | IoFail _ => fail IOError end.

(** A call that writes [text] at the end of a file; when it fails it has written some of it. *)
Definition append_file (path text : string) : Pools unit :=
  r ← next_call;
  files ← gets ps_files; dirs ← gets ps_dirs;
  let old := default ""%string (files !! path) in
  match r with
  | IoOk => modify (set_disk dirs (<[path := (old +:+ text)%string]> files))
  | IoFail n => _ ← modify (set_disk dirs (<[path := (old +:+ string_of_bytes (take n (as_bytes text)))%string]> files)); fail IOError
  end.
(** [File::create] truncates. *)
Definition create_file (path : string) : Pools unit :=
  _ ← call; files ← gets ps_files; dirs ← gets ps_dirs; modify (set_disk dirs (<[path := ""%string]> files)).
Definition text_of (path : string) : Pools string := files ← gets ps_files; lift (ok_or (files !! path) IOError).

(** A computation on the directory of a pool; it has the lines of the genesis file and no cache. *)
Definition on_genesis {A} (lines : list string) (m : World.M A) : Pools A := fun s =>
  let '(r, w) := m (mk_world (Some lines) None (ps_io s) [] (ps_protocol_version s) 0 0) in (r, set_ps_io (World.io w) s).

(** [merkle_tree_factory::from_file]; the call that opens the file is the first of [_from_genesis]. *)
Definition from_file (txn_file : string) : Pools MerkleTree.MerkleTree :=
  files ← gets ps_files;
  match files !! txn_file with
  | Some text => on_genesis (text_lines text) (_from_genesis (text_lines text))
  | None => _ ← lift (MerkleTree.MerkleTree.from_vec []); _ ← call; fail IOError
  end.

(** ** [PoolService] *)

Definition path_exists (path : string) (s : PoolService) : bool :=
  bool_decide (path ∈ ps_dirs s) || bool_decide (is_Some (ps_files s !! path)).

(** [fs::create_dir_all] *)
Definition create_dir_all (path : string) : Pools unit :=
  r ← next_call;
  files ← gets ps_files; dirs ← gets ps_dirs;
  match r with
  | IoOk => modify (set_disk (list_to_set (path_prefixes path) ∪ dirs) files)
  | IoFail n => _ ← modify (set_disk (list_to_set (take n (path_prefixes path)) ∪ dirs) files); fail IOError
  end.

(** [fs::remove_dir_all]; when it fails it has removed some of the files. *)
Definition remove_dir_all (path : string) : Pools unit :=
  r ← next_call;
  files ← gets ps_files; dirs ← gets ps_dirs;
  if decide (path ∈ dirs) then
    let inside := filter (fun kv => within_path kv.1 path = true) files in
    match r with
    | IoOk => modify (set_disk (filter (fun d => within_path d path = false) dirs) (files ∖ inside))
    | IoFail n => _ ← modify (set_disk dirs (foldl (fun files kv => delete kv.1 files) files (take n (hash_iter inside)))); fail IOError
    end
  else fail IOError.

Definition ps_create (name : string) (config : option PoolConfig) : Pools unit :=
  let path := pool_path name in
  let pool_config := default (PoolConfig_default_for_name name) config in
  found ← gets (path_exists path);
  if found : bool then fail PoolConfigAlreadyExists
  else
    mt ← from_file (genesis_txn pool_config);
    if (MerkleTree.MerkleTree.count mt =? 0)%N then fail InvalidStructure
    else
      _ ← create_dir_all path;
      let path := set_extension (push path name) "txn" in
      _ ← call;
      _ ← text_of (genesis_txn pool_config);
      _ ← create_file path;
      text ← text_of (genesis_txn pool_config);
      _ ← append_file path text;
      let path := set_extension (push (pop path) "config") "json" in
      _ ← create_file path;
      json ← lift (ok_or (pool_config_to_string pool_config) InvalidState);
      append_file path json.

(** Whether an open pool has the name *)
Definition name_open (name : string) (s : PoolService) : bool :=
  bool_decide (map_Exists (fun _ p => pl_name p = name) (open_pools s)).

Definition ps_delete (name : string) : Pools unit :=
  open_ ← gets (name_open name);
  if open_ : bool then fail InvalidState else remove_dir_all (pool_path name).

(** A message for the thread of a pool *)
Definition send_multipart (handle : Z) (parts : list bytes) : Pools unit :=
  _ ← call; modify (set_sockets (alter (fun '(pool, l) => (pool, l ++ [parts])) handle)).

Definition message (cmd_id : Z) (msg : string) (nodes : option string) (timeout : option Z) : list bytes :=
  let buf := write_i32 cmd_id in
  let buf_to := write_i32 (default (-1)%Z timeout) in
  match nodes with
  | Some nodes => [as_bytes msg; buf; buf_to; as_bytes nodes]
  | None => [as_bytes msg; buf; buf_to]
  end.

Definition _send_msg (cmd_id : Z) (msg : string) (socket : Z) (nodes : option string) (timeout : option Z) : Pools unit :=
  send_multipart socket (message cmd_id msg nodes timeout).

(** [ZMQPool::drop]: one more exit, whether or not it can be sent; then the thread is waited for, and [join().unwrap()] unwinds when it has. *)
Definition zmq_pool_drop (pool : Pool) : Pools unit :=
  _ ← attempt (send_multipart (pl_id pool) [as_bytes "exit"]);
  gone ← gets unwound;
  if decide (pl_id pool ∈ gone) then lift Panic else mret tt.

(** Both sockets, [bind] and [connect] can fail; the thread is there from [work] on. *)
Definition ps_open (name : string) (config : option PoolOpenConfig) : Pools Z :=
  open_ ← gets (name_open name);
  if open_ : bool then fail InvalidPoolHandle
  else
    let config := default PoolOpenConfig_default config in
    pool_handle ← next_id;
    let new_pool := mk_pool name pool_handle config in
    _ ← call; _ ← call;
    _ ← call; _ ← call;
    _ ← modify (set_sockets (<[pool_handle := (new_pool, [])]>));
    _ ← _send_msg pool_handle "connect" pool_handle None None;
    _ ← modify (fun s => set_pools (open_pools s) (<[pl_id new_pool := new_pool]> (pending_pools s)) s);
    mret pool_handle.

Definition ps_add_open_pool (pool_id : Z) : Pools Z :=
  pending ← gets pending_pools;
  pool ← lift (ok_or (pending !! pool_id) InvalidPoolHandle);
  _ ← modify (fun s => set_pools (open_pools s) (delete pool_id (pending_pools s)) s);
  _ ← modify (fun s => set_pools (<[pool_id := pool]> (open_pools s)) (pending_pools s) s);
  mret pool_id.

Definition ps_send_action (handle : Z) (msg : string) (nodes : option string) (timeout : option Z) : Pools Z :=
  pools ← gets open_pools;
  match pools !! handle with
  | Some pool =>
      cmd_id ← next_id;
      _ ← _send_msg cmd_id msg (pl_id pool) nodes timeout;
      mret cmd_id
  | None => fail InvalidPoolHandle
  end.

Definition ps_send_tx (handle : Z) (msg : string) : Pools Z := ps_send_action handle msg None None.
Definition ps_refresh (handle : Z) : Pools Z := ps_send_action handle "refresh" None None.

(** The pool is dropped whether or not the message could be sent. *)
Definition ps_close (handle : Z) : Pools Z :=
  cmd_id ← next_id;
  pools ← gets open_pools;
  match pools !! handle with
  | Some pool =>
      _ ← modify (fun s => set_pools (delete handle (open_pools s)) (pending_pools s) s);
      sent ← attempt (_send_msg cmd_id "exit" (pl_id pool) None None);
      _ ← zmq_pool_drop pool;
      match sent with inl err => fail err | inr _ => mret cmd_id end
  | None => fail InvalidPoolHandle
  end.

Definition register_sp_parser (txn_type : string) : Pools unit :=
  if decide (txn_type ∈ REQUESTS_FOR_STATE_PROOFS) then fail InvalidStructure
  else modify (set_registered (fun types => {[txn_type]} ∪ types)).

Definition get_sp_parser (txn_type : string) : Pools bool := types ← gets registered_sp_parsers; mret (bool_decide (txn_type ∈ types)).

(** The names of what is in the home of the pools: a directory that cannot be read is empty, an entry that cannot be read is left out. *)
Definition list_entry (acc : list SJsonValue) (path : string) : Pools (list SJsonValue) :=
  r ← next_call;
  mret match r, file_name path with
  | IoOk, Some pool_name => acc ++ [Object [("pool"%string, String_ pool_name)]]
  | _, _ => acc
  end.

Definition ps_list : Pools (list SJsonValue) :=
  r ← attempt call;
  dirs ← gets ps_dirs; files ← gets ps_files;
  match r with
  | inr _ =>
      if decide (pool_home_path ∈ dirs) then
        foldlM list_entry ((hash_iter (filter (fun kv => pop kv.1 = pool_home_path) (gset_to_gmap tt dirs ∪ ((fun _ => tt) <$> files)))).*1) []
      else mret []
  | inl _ => mret []
  end.
End service.
