(* ===== verification/PoolCommands.v ===== *)
(** * PoolCommands: opening and closing pools, and sending requests to them

    Models [libindy/src/commands/pool.rs] and, of [commands/ledger.rs], the commands that send
    requests to a pool and the registration of parsers of state proofs.  The two executors share the
    pool service; a callback is a number, and what is called is the result of a command. *)

From stdpp Require Import gmap.
From S2P Require Import Prelude Errors Json Hashing Wql PoolTypes World MerkleFactory Encryption Crypto QueryEncryption Storage Wallet Stream WalletService IndyWallet CryptoCommands RequestSigning Anoncreds Tails Revocation IssuerCommands Response LedgerTypes LedgerService PoolService.

(** ** Data *)

Inductive PoolCommand :=
| Create (name : string) (config : option PoolConfig) (cb : Z)
| Delete (name : string) (cb : Z)
| Open (name : string) (config : option PoolOpenConfig) (cb : Z)
| ListPools (cb : Z)
| ClosePool (handle : Z) (cb : Z)
| RefreshPool (handle : Z) (cb : Z)
| SetProtocolVersion (protocol_version : N) (cb : Z)
(** of [LedgerCommand] *)
| SignAndSubmitRequest (pool_handle wallet_handle : Z) (submitter_did request_json : string) (cb : Z)
| SubmitRequest (handle : Z) (request_json : string) (cb : Z)
| SubmitAction (handle : Z) (request_json : string) (nodes : option string) (timeout : option Z) (cb : Z)
| RegisterSPParser (txn_type : string) (cb : Z)
(** what the threads of the pools send: [OpenAck], [CloseAck], [RefreshAck] and [SubmitAck] *)
| Ack (command : Command).

(** What a callback is given *)
Inductive PoolResult := Done | Handle (pool_handle : Z) | Answer (text : string).
#[export] Instance PoolResult_eq_dec : EqDecision PoolResult.
Proof. solve_decision. Defined.
Definition Called : Type := Z * (IndyErrorKind + PoolResult).

(** [PoolCommandExecutor], the [send_callbacks] of [LedgerCommandExecutor], and what they share *)
Record Executors (W : Type) := mk_executors {
  pool_service : PoolService;
  ex_wallets : W;
  close_callbacks : gmap Z Z;
  refresh_callbacks : gmap Z Z;
  open_callbacks : gmap Z Z;
  send_callbacks : gmap Z Z;
}.
Arguments mk_executors {W} _ _ _ _ _ _.
Arguments pool_service {W} _.
Arguments ex_wallets {W} _.
Arguments close_callbacks {W} _.
Arguments refresh_callbacks {W} _.
Arguments open_callbacks {W} _.
Arguments send_callbacks {W} _.

Section commands.
Context `{Machine} `{Sha256} `{JsonText} `{PoolCodecs} `{Base58} `{HashOrder} `{Paths} `{PoolConfigCodec}.
Context `{Hex} `{Ed25519} `{OptionCodecs} `{CLTypes} `{TailsLib} `{!CLRevocation} `{!LedgerCodecs}.
Context `{!IndyObject KeyPair} `{!IndyObject Did}.
Context {W : Type} `{!IndyWallet W}.
Context (crypto_service : CryptoService).

Abbreviation PoolM := (StateM IndyErrorKind (Executors W)).

Definition set_pool_service s (e : Executors W) : Executors W :=
  mk_executors s (ex_wallets e) (close_callbacks e) (refresh_callbacks e) (open_callbacks e) (send_callbacks e).
Definition set_ex_wallets w (e : Executors W) : Executors W :=
  mk_executors (pool_service e) w (close_callbacks e) (refresh_callbacks e) (open_callbacks e) (send_callbacks e).
Definition set_close_callbacks f (e : Executors W) : Executors W :=
  mk_executors (pool_service e) (ex_wallets e) (f (close_callbacks e)) (refresh_callbacks e) (open_callbacks e) (send_callbacks e).
Definition set_refresh_callbacks f (e : Executors W) : Executors W :=
  mk_executors (pool_service e) (ex_wallets e) (close_callbacks e) (f (refresh_callbacks e)) (open_callbacks e) (send_callbacks e).
Definition set_open_callbacks f (e : Executors W) : Executors W :=
  mk_executors (pool_service e) (ex_wallets e) (close_callbacks e) (refresh_callbacks e) (f (open_callbacks e)) (send_callbacks e).
Definition set_send_callbacks f (e : Executors W) : Executors W :=
  mk_executors (pool_service e) (ex_wallets e) (close_callbacks e) (refresh_callbacks e) (open_callbacks e) (f (send_callbacks e)).

Definition on_pools {A} (m : StateM IndyErrorKind PoolService A) : PoolM A := within pool_service set_pool_service m.

(** [cb(m)] *)
Definition calls_back {A} (cb : Z) (f : A -> PoolResult) (m : PoolM A) : PoolM (list Called) :=
  r ← attempt m;
  mret [(cb, match r with inl err => inl err | inr a => inr (f a) end)].

(** The callback waits for the number of the command, or is called with the error. *)
Definition waits_for (cb : Z) (set_callbacks : (gmap Z Z -> gmap Z Z) -> Executors W -> Executors W) (m : StateM IndyErrorKind PoolService Z) :
    PoolM (list Called) :=
  result ← attempt (on_pools m);
  match result with
  | inl err => mret [(cb, inl err)]
  | inr cmd_id => _ ← modify (set_callbacks (<[cmd_id := cb]>)); mret []
  end.

(** The callback that waits for a number is called; when there is none, nothing happens. *)
Definition call_waiting (callbacks : Executors W -> gmap Z Z) (set_callbacks : (gmap Z Z -> gmap Z Z) -> Executors W -> Executors W)
    (cmd_id : Z) (answer : Z -> PoolM (list Called)) : PoolM (list Called) :=
  cbs ← gets callbacks;
  match cbs !! cmd_id with
  | Some cb => _ ← modify (set_callbacks (delete cmd_id)); answer cb
  | None => mret []
  end.

Definition set_protocol_version (version : N) : PoolM unit :=
  if negb (version =? 1)%N && negb (version =? 2)%N then fail PoolIncompatibleProtocolVersion
  else on_pools (modify (set_protocol version)).

Definition list_pools : PoolM string :=
  pools ← on_pools ps_list;
  mret (to_string (Array pools)).

Definition submit_request (handle : Z) (request_json : string) (cb : Z) : PoolM (list Called) :=
  waits_for cb set_send_callbacks (ps_send_tx handle request_json).

Definition sign_and_submit_request (pool_handle wallet_handle : Z) (submitter_did request_json : string) (cb : Z) : PoolM (list Called) :=
  signed ← attempt (within ex_wallets set_ex_wallets (_sign_request crypto_service wallet_handle submitter_did request_json Single));
  match signed with
  | inr signed_request => submit_request pool_handle signed_request cb
  | inl err => mret [(cb, inl err)]
  end.

Definition submit_action (handle : Z) (request_json : string) (nodes : option string) (timeout : option Z) (cb : Z) : PoolM (list Called) :=
  valid ← attempt (lift (validate_action request_json));
  match valid with
  | inl err => mret [(cb, inl err)]
  | inr _ => waits_for cb set_send_callbacks (ps_send_action handle request_json nodes timeout)
  end.

(** The answer to a command of a pool *)
Definition acknowledged (ack : Command) : PoolM (list Called) :=
  match ack with
  | OpenAck cmd_id pool_id result =>
      call_waiting open_callbacks set_open_callbacks cmd_id (fun cb =>
        calls_back cb Handle (match result with inr _ => on_pools (ps_add_open_pool pool_id) | inl err => fail err end))
  | CloseAck cmd_id result =>
      call_waiting close_callbacks set_close_callbacks cmd_id (fun cb => calls_back cb (fun _ => Done) (match result with inr r => mret r | inl err => fail err end))
  | RefreshAck cmd_id result =>
      call_waiting refresh_callbacks set_refresh_callbacks cmd_id (fun cb => calls_back cb (fun _ => Done) (match result with inr r => mret r | inl err => fail err end))
  | SubmitAck cmd_id result =>
      call_waiting send_callbacks set_send_callbacks cmd_id (fun cb => calls_back cb Answer (match result with inr r => mret r | inl err => fail err end))
  end.

Definition pool_execute (command : PoolCommand) : PoolM (list Called) :=
  match command with
  | Create name config cb => calls_back cb (fun _ => Done) (on_pools (ps_create name config))
  | Delete name cb => calls_back cb (fun _ => Done) (on_pools (ps_delete name))
  | Open name config cb => waits_for cb set_open_callbacks (ps_open name config)
  | ListPools cb => calls_back cb Answer list_pools
  | ClosePool handle cb => waits_for cb set_close_callbacks (ps_close handle)
  | RefreshPool handle cb => waits_for cb set_refresh_callbacks (ps_refresh handle)
  | SetProtocolVersion version cb => calls_back cb (fun _ => Done) (set_protocol_version version)
  | SignAndSubmitRequest pool_handle wallet_handle submitter_did request_json cb =>
      sign_and_submit_request pool_handle wallet_handle submitter_did request_json cb
  | SubmitRequest handle request_json cb => submit_request handle request_json cb
  | SubmitAction handle request_json nodes timeout cb => submit_action handle request_json nodes timeout cb
  | RegisterSPParser txn_type cb => calls_back cb (fun _ => Done) (on_pools (register_sp_parser txn_type))
  | Ack command => acknowledged command
  end.
End commands.
