(* ===== verification/PoolSystem.v ===== *)
(** * PoolSystem: the command thread and the threads of the pools together

    The executors of [PoolCommands.v] and, for every pool that was opened, the state machine of
    [PoolSM.v] on a thread of its own ([PoolThread] of [libindy/src/services/pool/pool.rs]).  The command thread
    writes to the socket of a pool; the thread of the pool reads it with its commander, and what it sends is
    appended to the channel of the command thread ([libindy/src/commands/mod.rs]).  An event says which of them takes the
    next step, so that a list of events is an interleaving. *)

From stdpp Require Import gmap.
From S2P Require Import Prelude Errors Json Hashing Wql PoolTypes World MerkleFactory Catchup Response Trie StateProof RequestHandler PoolSM Encryption Crypto QueryEncryption Storage Wallet Stream WalletService IndyWallet CryptoCommands RequestSigning Anoncreds Tails Revocation IssuerCommands LedgerTypes LedgerService PoolService PoolCommands.

Inductive SystemEvent :=
(** the user gives a command *)
| UserCommand (command : PoolCommand)
(** the command thread takes what the channel has *)
| TakeAck
(** the thread of a pool begins, at some time and with the cache that its directory has *)
| ThreadStarts (handle : Z) (cache : option bytes) (calls : list IoResult) (now threshold : N)
(** it takes a message from its socket *)
| ThreadTakes (handle : Z)
(** it is given what its networker has, which is no command *)
| ThreadHears (handle : Z) (event : PoolEvent).

Section system.
Context `{Machine} `{Sha256} `{JsonText} `{PoolCodecs} `{Base58} `{HashOrder} `{Paths} `{PoolConfigCodec}.
Context `{Bls} `{!RequestHandler} `{Sodium}.
Context `{Hex} `{Ed25519} `{OptionCodecs} `{CLTypes} `{TailsLib} `{!CLRevocation} `{!LedgerCodecs}.
Context `{!IndyObject KeyPair} `{!IndyObject Did}.
Context {W : Type} `{!IndyWallet W}.
Context (crypto_service : CryptoService).

Record System := mk_system {
  executors : Executors W;
  threads : gmap Z (PoolSM * World);
  channel : list Command;
}.

Definition system_new (service : PoolService) (w : W) : System := mk_system (mk_executors service w ∅ ∅ ∅ ∅) ∅ [].

(** What the command thread does *)
Definition execute_on (command : PoolCommand) (s : System) : option (System * list Called) :=
  match pool_execute crypto_service command (executors s) with
  | (Ok called, e) => Some (mk_system e (threads s) (channel s), called)
  | _ => None
  end.

(** [ProtocolVersion] and the parsers of state proofs are those of the process. *)
Definition world_now (s : System) (w : World) : World :=
  mk_world (genesis w) (stored w) (World.io w) [] (ps_protocol_version (pool_service (executors s))) (cur_time w) (freshness_threshold w).
Definition parsers_now (s : System) : SpParsers := {| sp_parsers := registered_sp_parsers (pool_service (executors s)) |}.

(** The genesis file that the thread of a pool finds *)
Definition genesis_of (service : PoolService) (name : string) : option (list string) :=
  text_lines <$> ps_files service !! set_extension (push (pool_path name) name) "txn".

(** A thread that unwinds is gone, and whoever joins it unwinds. *)
Definition thread_unwinds (handle : Z) (sent : list Command) (s : System) : System :=
  mk_system (set_pool_service (set_unwound (fun gone => {[handle]} ∪ gone) (pool_service (executors s))) (executors s))
    (delete handle (threads s)) (channel s ++ sent).

(** The thread of a pool handles an event. *)
Definition thread_handles (handle : Z) (sm : PoolSM) (w : World) (event : PoolEvent) (s : System) : System :=
  match (@pool_handle_event _ _ _ _ _ _ _ _ _ (parsers_now s) sm event (world_now s w)) with
  | (Ok sm', w') => mk_system (executors s) (<[handle := (sm', w')]> (threads s)) (channel s ++ sents (effects w'))
  | (_, w') => thread_unwinds handle (sents (effects w')) s
  end.

Definition set_sockets_of f (s : System) : System :=
  mk_system (set_pool_service (set_sockets f (pool_service (executors s))) (executors s)) (threads s) (channel s).

(** One step; [None] when it cannot be taken or the command thread unwinds. *)
Definition system_step (e : SystemEvent) (s : System) : option (System * list Called) :=
  match e with
  | UserCommand (Ack _) => None
  | UserCommand command => execute_on command s
  | TakeAck =>
      match channel s with
      | ack :: rest => execute_on (Ack ack) (mk_system (executors s) (threads s) rest)
      | [] => None
      end
  | ThreadStarts handle cache calls now threshold =>
      match sockets (pool_service (executors s)) !! handle, threads s !! handle with
      | Some (pool, _), None =>
          if decide (handle ∈ unwound (pool_service (executors s))) then None
          else
            let w := mk_world (genesis_of (pool_service (executors s)) (pl_name pool)) cache calls [] 0 now threshold in
            Some (mk_system (executors s)
              (<[handle := (pool_new (pl_name pool) (pl_id pool) (oc_timeout (pl_config pool)) (oc_extended_timeout (pl_config pool)), w)]> (threads s)) (channel s), [])
      | _, _ => None
      end
  | ThreadTakes handle =>
      match sockets (pool_service (executors s)) !! handle, threads s !! handle with
      | Some (pool, parts :: rest), Some (sm, w) =>
          if pool_is_terminal sm then None
          else
            let s := set_sockets_of (<[handle := (pool, rest)]>) s in
            match fetch_event (E:=IndyErrorKind) parts with
            | Ok (Some event) => Some (thread_handles handle sm w event s, [])
            | Ok None => Some (s, [])
            | _ => Some (thread_unwinds handle [] s, [])
            end
      | _, _ => None
      end
  | ThreadHears handle event =>
      match threads s !! handle with
      | Some (sm, w) =>
          if pool_is_terminal sm then None
          else
            match event with
            | NodeReply _ _ | PoolTimeoutEvent _ _ => Some (thread_handles handle sm w event s, [])
            | _ => None
            end
      | None => None
      end
  end.

(** An interleaving, with the callbacks that are called on the way *)
Fixpoint system_run (events : list SystemEvent) (s : System) : option (System * list Called) :=
  match events with
  | [] => Some (s, [])
  | e :: events =>
      '(s, called) ← system_step e s;
      '(s, called') ← system_run events s;
      Some (s, called ++ called')
  end.
End system.
