(* ===== verification/PoolServiceFacts.v ===== *)
(** * PoolServiceFacts: what the pool service and its commands promise

    Theorems on [PoolService.v], [PoolCommands.v] and [PoolSystem.v]: what is sent to the thread of a pool is
    read by it; in any interleaving of the command thread and the threads of the pools every answer is one
    that a callback waits for; creating, opening and closing pools. *)

From Stdlib Require Import Strings.Ascii.
From stdpp Require Import gmap.
From S2P Require Import SqliteFacts ToyTexts AnoncredsFacts TailsFacts ToyIssuer CryptoFacts SigningFacts LedgerFacts StateProof Prelude Errors Json Hashing Wql MerkleTree PoolTypes World MerkleFactory Catchup Response Trie RequestHandler RequestFacts PoolSM PoolFacts Encryption Crypto QueryEncryption Storage Wallet Stream WalletService IndyWallet CryptoCommands RequestSigning Anoncreds Tails Revocation IssuerCommands LedgerTypes LedgerService PoolService PoolCommands PoolSystem.

(** ** Messages *)

Definition is_i32 (z : Z) : Prop := (- 2 ^ 31 <= z < 2 ^ 31)%Z.

Lemma as_i32_mod z : is_i32 z -> as_i32 (Z.to_N (z mod 2 ^ 32)) = z.
Proof.
  unfold is_i32, as_i32. intros Hz. assert (z mod 2 ^ 32 = if decide (0 <= z) then z else z + 2 ^ 32)%Z as ->.
  { case_decide; [apply Z.mod_small; lia|]. symmetry. apply (Z.mod_unique_pos _ _ (-1)); lia. }
  case_decide; rewrite N.mod_small by lia; rewrite Z2N.id by lia; cbv zeta; case_match eqn:Hl; lia.
Qed.

Lemma as_i32_range n : is_i32 (as_i32 n).
Proof.
  unfold as_i32, is_i32. cbv zeta. assert (n mod 2 ^ 32 < 2 ^ 32)%N as H by (apply N.mod_lt; lia).
  revert H. generalize (n mod 2 ^ 32)%N. intros m Hm. destruct (Z.ltb_spec (Z.of_N m) (2 ^ 31)); lia.
Qed.

Lemma read_write_i32 {E} z : is_i32 z -> read_i32 (E:=E) (write_i32 z) = Ok z.
Proof.
  intros Hz. unfold read_i32, write_i32. rewrite le_bytes_length. rewrite decide_False by lia.
  rewrite take_ge by (rewrite le_bytes_length; lia). rewrite le_value_bytes; [by rewrite as_i32_mod|].
  pose proof (Z.mod_pos_bound z (2 ^ 32) eq_refl). change (256 ^ N.of_nat 4)%N with (2 ^ 32)%N. lia.
Qed.

(** The event that a message stands for: three texts are commands, whoever sent them. *)
Definition event_of (cmd_id : Z) (msg : string) (nodes : option string) (timeout : option Z) : PoolEvent :=
  if decide (msg = "exit"%string) then Close cmd_id
  else if decide (msg = "refresh"%string) then Refresh cmd_id
  else if decide (msg = "connect"%string) then CheckCache cmd_id
  else SendRequest cmd_id msg (if decide (timeout = Some (-1)%Z) then None else timeout) nodes.

(** C18: what the service writes to the socket of a pool is what the commander of its thread reads: the number of the command, the
    text, the timeout and the nodes, except that a timeout of -1 is none, and that a request whose text is
    [exit], [refresh] or [connect] is read as a command of the service. *)
Theorem command_fetched (cmd_id : Z) (msg : string) (nodes : option string) (timeout : option Z) :
  is_i32 cmd_id -> from_option is_i32 True timeout -> is_utf8 msg -> from_option is_utf8 True nodes ->
  fetch_event (E:=IndyErrorKind) (message cmd_id msg nodes timeout) = Ok (Some (event_of cmd_id msg nodes timeout)).
Proof.
  intros Hid Ht Hmsg Hn. assert (is_i32 (default (-1)%Z timeout)) as Ht' by (by destruct timeout).
  unfold fetch_event, message, event_of. destruct nodes as [nodes|]; cbn [from_option] in Hn; rewrite from_utf8_as_bytes by done; rewrite read_write_i32 by done;
    cbn [mbind outcome_bind]; repeat (case_decide; [done|]); rewrite read_write_i32 by done; cbn [mbind outcome_bind];
    [rewrite from_utf8_as_bytes by done|]; do 2 f_equal; destruct timeout as [t|]; cbn; repeat case_decide; congruence.
Qed.

(** ** The numbers of commands in messages *)

(** Numbers are positive; [ZMQPool::drop] sends an exit without one, which is read as -1. *)
Definition real (l : list Z) : list Z := filter (fun z => 0 < z)%Z l.

Definition message_ids (parts : list bytes) : list Z :=
  match fetch_event (E:=IndyErrorKind) parts with Ok (Some e) => real (PoolFacts.issued e) | _ => [] end.
Definition messages_ids (p : Pool * list (list bytes)) : list Z := p.2 ≫= message_ids.
Definition socket_ids (m : gmap Z (Pool * list (list bytes))) : list Z := (map_to_list m).*2 ≫= messages_ids.

Lemma real_app l k : real (l ++ k) = real l ++ real k.
Proof. apply filter_app. Qed.

Lemma real_sub l k : l ⊆+ k -> real l ⊆+ real k.
Proof.
  intros (r & Hp)%submseteq_Permutation. unfold real. rewrite Hp, filter_app. by apply submseteq_inserts_r.
Qed.

#[export] Instance real_proper : Proper ((≡ₚ) ==> (≡ₚ)) real.
Proof. intros l k Hl. unfold real. by rewrite Hl. Qed.

Lemma real_real l : real (real l) = real l.
Proof. unfold real. rewrite list_filter_filter. apply list_filter_iff. naive_solver. Qed.

Lemma message_ids_own cmd_id msg ns timeout : is_i32 cmd_id -> message_ids (message cmd_id msg ns timeout) ⊆+ real [cmd_id].
Proof.
  intros Hid. unfold message_ids, fetch_event, message. destruct ns as [ns|]; (destruct (from_utf8 (as_bytes msg)); [|apply submseteq_nil_l]);
    rewrite (read_write_i32 cmd_id) by done; cbn [mbind outcome_bind]; repeat case_decide; try done; destruct (read_i32 _); try apply submseteq_nil_l;
    cbn [mbind outcome_bind]; repeat case_match; simplify_eq; try done; apply submseteq_nil_l.
Qed.

Lemma exit_ids : message_ids [as_bytes "exit"] = [].
Proof. reflexivity. Qed.

Lemma socket_ids_insert h p m : socket_ids (<[h := p]> m) ≡ₚ messages_ids p ++ socket_ids (delete h m).
Proof. unfold socket_ids. by rewrite <-insert_delete_eq, map_to_list_insert by apply lookup_delete_eq. Qed.

Lemma socket_ids_lookup h p m : m !! h = Some p -> socket_ids m ≡ₚ messages_ids p ++ socket_ids (delete h m).
Proof. intros Hm. rewrite <-(insert_id m h p Hm) at 1. apply socket_ids_insert. Qed.

Lemma socket_ids_delete h m : socket_ids (delete h m) ⊆+ socket_ids m.
Proof.
  destruct (m !! h) as [p|] eqn:Hm; [|by rewrite delete_id]. rewrite (socket_ids_lookup h p m Hm). by apply submseteq_inserts_l.
Qed.

Lemma socket_ids_start h pool m : socket_ids (<[h := (pool, [])]> m) ⊆+ socket_ids m.
Proof. rewrite socket_ids_insert. apply socket_ids_delete. Qed.

Lemma alter_send h (parts : list bytes) (m : gmap Z (Pool * list (list bytes))) pool l : m !! h = Some (pool, l) ->
  alter (fun '(pool, l) => (pool, l ++ [parts])) h m = <[h := (pool, l ++ [parts])]> m.
Proof.
  intros Hm. apply map_eq. intros k. destruct (decide (k = h)) as [->|]; [by rewrite lookup_alter_eq, lookup_insert_eq, Hm|].
  by rewrite lookup_alter_ne, lookup_insert_ne.
Qed.

Lemma socket_ids_send h parts m : socket_ids (alter (fun '(pool, l) => (pool, l ++ [parts])) h m) ⊆+ message_ids parts ++ socket_ids m.
Proof.
  destruct (m !! h) as [[pool l]|] eqn:Hm.
  - rewrite (alter_send _ _ _ _ _ Hm), socket_ids_insert, (socket_ids_lookup h _ m Hm). unfold messages_ids. cbn [snd]. rewrite bind_app. cbn. rewrite app_nil_r.
    rewrite !(assoc_L (++)). by rewrite (Permutation_app_comm (message_ids parts)).
  - assert (alter (fun '(pool, l) => (pool, l ++ [parts])) h m = m) as ->; [|by apply submseteq_inserts_l].
    apply map_eq. intros k. destruct (decide (k = h)) as [->|]; [|by rewrite lookup_alter_ne]. by rewrite lookup_alter_eq, Hm.
Qed.

(** ** The service *)

Section service_facts.
Context `{Machine} `{Sha256} `{JsonText} `{PoolCodecs} `{Base58} `{HashOrder} `{Paths} `{PoolConfigCodec}.
Implicit Types (s : PoolService).

(** [m] sends no message, draws no number and no thread unwinds. *)
Definition same s s' : Prop := sockets s' = sockets s /\ ps_ids s' = ps_ids s /\ unwound s' = unwound s.
Definition keeps {A} (m : StateM IndyErrorKind PoolService A) : Prop := forall s, same s (m s).2.

Lemma keeps_ret {A} (a : A) : keeps (mret a).
Proof. done. Qed.
Lemma keeps_lift {A} (m : IndyResult A) : keeps (lift m).
Proof. done. Qed.
Lemma keeps_gets {A} (f : PoolService -> A) : keeps (gets f).
Proof. done. Qed.
Lemma keeps_bind {A B} (m : StateM IndyErrorKind PoolService A) (f : A -> StateM IndyErrorKind PoolService B) :
  keeps m -> (forall a, keeps (f a)) -> keeps (m ≫= f).
Proof.
  intros Hm Hf s. pose proof (Hm s) as (Hs & Hi & Hu). rewrite bind_run. destruct (m s) as [[a|e| |] s1]; cbn in *; try done.
  destruct (Hf a s1) as (Hs' & Hi' & Hu'). unfold same. by rewrite Hs', Hi', Hu', Hs, Hi, Hu.
Qed.
Lemma keeps_attempt {A} (m : StateM IndyErrorKind PoolService A) : keeps m -> keeps (attempt m).
Proof. intros Hm s. specialize (Hm s). unfold attempt. by destruct (m s) as [[]]. Qed.
Lemma keeps_next_call : keeps next_call.
Proof. intros s. unfold next_call. by destruct (ps_io s). Qed.
Lemma keeps_call : keeps call.
Proof. apply keeps_bind; [apply keeps_next_call|]. by intros []. Qed.
Lemma keeps_disk dirs files : keeps (modify (set_disk dirs files)).
Proof. done. Qed.
Lemma keeps_genesis {A} lines (m : World.M A) : keeps (on_genesis lines m).
Proof. intros s. unfold on_genesis. by destruct (m _). Qed.

Ltac keeping := repeat first
  [ progress intros
  | apply keeps_ret | apply keeps_lift | apply keeps_gets | apply keeps_next_call | apply keeps_call | apply keeps_disk | apply keeps_genesis
  | apply keeps_attempt | apply keeps_bind | case_match | progress unfold fail | done ].

Lemma keeps_create name config : keeps (ps_create name config).
Proof. unfold ps_create, from_file, create_dir_all, create_file, append_file, text_of. keeping. Qed.
Lemma keeps_delete name : keeps (ps_delete name).
Proof. unfold ps_delete, remove_dir_all. keeping. Qed.
Lemma keeps_list : keeps ps_list.
Proof.
  unfold ps_list. apply keeps_bind; [keeping|]. intros r. apply keeps_bind; [keeping|]. intros dirs. apply keeps_bind; [keeping|]. intros files.
  destruct r as [err|[]]; [keeping|]. case_decide; [|keeping]. generalize (@nil SJsonValue).
  induction (hash_iter _).*1 as [|path paths IH]; intros acc; [keeping|]. cbn [foldlM]. apply keeps_bind; [unfold list_entry; keeping|apply IH].
Qed.
Lemma keeps_add_open_pool pool_id : keeps (ps_add_open_pool pool_id).
Proof. unfold ps_add_open_pool. keeping. Qed.
Lemma keeps_register txn_type : keeps (register_sp_parser txn_type).
Proof. unfold register_sp_parser. keeping. Qed.

Lemma next_id_run s : (ps_ids s + 1 < 2 ^ 31)%N -> next_id s = (Ok (Z.of_N (ps_ids s + 1)), set_ps_ids (ps_ids s + 1) s).
Proof.
  intros Hlt. assert (ps_ids s + 1 < usize_modulus)%N as Hm.
  { eapply N.lt_le_trans; [exact Hlt|]. unfold usize_modulus. apply N.pow_le_mono_r; [lia|]. destruct usize_bits_cases as [-> | ->]; lia. }
  unfold next_id. rewrite usize_add_ok by done. cbn [mbind outcome_bind]. by rewrite N.mod_small, as_i32_small by done.
Qed.

Lemma send_run h parts s : exists io,
  send_multipart h parts s = (Ok tt, set_sockets (alter (fun '(pool, l) => (pool, l ++ [parts])) h) (set_ps_io io s)) \/
  send_multipart h parts s = (Err IOError, set_ps_io io s).
Proof.
  unfold send_multipart, call. rewrite !bind_run. unfold next_call. destruct (ps_io s) as [|[|n] io] eqn:Hio; cbn.
  - exists []. left. destruct s. cbn in Hio. by subst.
  - exists io. by left.
  - exists io. by right.
Qed.

(** The end of a command that draws one number from [s]: it returns it, and sends no message with another. *)
Definition drawn s s' : Prop :=
  ps_ids s' = (ps_ids s + 1)%N /\ unwound s' = unwound s /\ socket_ids (sockets s') ⊆+ socket_ids (sockets s).
Definition ends s (r : outcome IndyErrorKind Z * PoolService) : Prop :=
  match r with
  | (Ok cmd_id, s') => cmd_id = Z.of_N (ps_ids s + 1) /\ ps_ids s' = (ps_ids s + 1)%N /\ unwound s' = unwound s /\
      socket_ids (sockets s') ⊆+ cmd_id :: socket_ids (sockets s)
  | (Err _, s') => (ps_ids s <= ps_ids s' <= ps_ids s + 1)%N /\ unwound s' = unwound s /\ socket_ids (sockets s') ⊆+ socket_ids (sockets s)
  | _ => True
  end.
Definition draws (m : StateM IndyErrorKind PoolService Z) : Prop := forall s, (ps_ids s + 1 < 2 ^ 31)%N -> ends s (m s).

Lemma drawn_next s : drawn s (set_ps_ids (ps_ids s + 1) s).
Proof. done. Qed.

Lemma ends_bind {A} s (m : StateM IndyErrorKind PoolService A) (k : A -> StateM IndyErrorKind PoolService Z) :
  keeps m -> (forall a s', drawn s s' -> ends s (k a s')) -> forall s', drawn s s' -> ends s ((m ≫= k) s').
Proof.
  intros Hm Hk s' (Hi & Hu & Hs). rewrite bind_run. destruct (Hm s') as (Hs' & Hi' & Hu'). destruct (m s') as [[a|e| |] s2]; cbn in *; try done.
  - apply Hk. unfold drawn. by rewrite Hi', Hu', Hs'.
  - rewrite Hi', Hu', Hs', Hi. split_and!; try done; lia.
Qed.

Lemma own_message cmd_id h msg ns timeout m : is_i32 cmd_id ->
  socket_ids (alter (fun '(pool, l) => (pool, l ++ [message cmd_id msg ns timeout])) h m) ⊆+ cmd_id :: socket_ids m.
Proof.
  intros Hid. etrans; [apply socket_ids_send|]. change (cmd_id :: socket_ids m) with ([cmd_id] ++ socket_ids m). apply submseteq_skips_r.
  etrans; [by apply message_ids_own|]. apply sublist_submseteq, sublist_filter.
Qed.

Lemma exit_message h m : socket_ids (alter (fun '(pool, l) => (pool, l ++ [[as_bytes "exit"]])) h m) ⊆+ socket_ids m.
Proof. etrans; [apply socket_ids_send|]. by rewrite exit_ids. Qed.

Lemma small_i32 n : (n < 2 ^ 31)%N -> is_i32 (Z.of_N n).
Proof. unfold is_i32. lia. Qed.

Lemma draws_send_action handle msg ns timeout : draws (ps_send_action handle msg ns timeout).
Proof.
  intros s Hs. unfold ps_send_action. rewrite bind_run. cbn [gets]. destruct (open_pools s !! handle) as [pool|]; [|cbn; by split_and!; try lia].
  rewrite bind_run, next_id_run by done. cbv beta iota. rewrite bind_run. unfold _send_msg.
  destruct (send_run (pl_id pool) (message (Z.of_N (ps_ids s + 1)) msg ns timeout) (set_ps_ids (ps_ids s + 1) s)) as [io [-> | ->]]; cbn -[message]; split_and!; try done; try lia.
  by apply own_message, small_i32.
Qed.

Lemma drop_run pool s : (zmq_pool_drop pool s).1 = Panic \/
  exists s', zmq_pool_drop pool s = (Ok tt, s') /\ open_pools s' = open_pools s /\ ps_ids s' = ps_ids s /\ unwound s' = unwound s /\
    socket_ids (sockets s') ⊆+ socket_ids (sockets s).
Proof.
  unfold zmq_pool_drop, attempt. rewrite bind_run. destruct (send_run (pl_id pool) [as_bytes "exit"] s) as [io [-> | ->]];
    rewrite bind_run; cbn [gets]; (destruct (decide (pl_id pool ∈ unwound s)) as [Hd|Hd]; [left; by rewrite decide_True by exact Hd|]);
    right; rewrite decide_False by exact Hd; eexists; split_and!; try reflexivity; cbn; apply exit_message.
Qed.

Lemma draws_close handle : draws (ps_close handle).
Proof.
  intros s Hs. unfold ps_close. rewrite bind_run, next_id_run by done. rewrite bind_run. cbn [gets].
  destruct (open_pools _ !! handle) as [pool|]; [|cbn; by split_and!; try lia]. rewrite bind_run. cbn [modify]. rewrite bind_run. unfold _send_msg, attempt at 1.
  set (s1 := set_pools _ _ _). assert (sockets s1 = sockets s /\ ps_ids s1 = (ps_ids s + 1)%N /\ unwound s1 = unwound s) as (Hso & Hi & Hu) by done.
  clearbody s1. destruct (send_run (pl_id pool) (message (Z.of_N (ps_ids s + 1)) "exit" None None) s1) as [io [-> | ->]]; rewrite bind_run;
    match goal with |- context [zmq_pool_drop ?p ?s] => destruct (drop_run p s) as [Hp|(s2 & -> & _ & Hi2 & Hu2 & Hs2)];
      [by destruct (zmq_pool_drop p s) as [? ?]; cbn in Hp; subst|] end.
  - cbn -[message] in *. rewrite Hso in Hs2. rewrite Hi2, Hu2. split_and!; try done. etrans; [exact Hs2|]. by apply own_message, small_i32.
  - cbn -[message] in *. rewrite Hso in Hs2. rewrite Hi2, Hu2, Hi. split_and!; try done; lia.
Qed.

Lemma draws_open name config : draws (ps_open name config).
Proof.
  intros s Hs. unfold ps_open. rewrite bind_run. cbn [gets]. destruct (name_open name s); [cbn; by split_and!; try lia|].
  cbv zeta. rewrite bind_run, next_id_run by done. generalize (drawn_next s). generalize (set_ps_ids (ps_ids s + 1) s).
  do 4 (apply ends_bind; [apply keeps_call|]; intros []). intros s' (Hi & Hu & Hso). rewrite bind_run. cbn [modify]. rewrite bind_run. unfold _send_msg.
  set (id := Z.of_N (ps_ids s + 1)). set (s1 := set_sockets _ s').
  assert (ps_ids s1 = (ps_ids s + 1)%N /\ unwound s1 = unwound s /\ socket_ids (sockets s1) ⊆+ socket_ids (sockets s)) as (Hi1 & Hu1 & Hs1).
  { split_and!; [done|done|]. etrans; [apply socket_ids_start|done]. }
  clearbody s1. destruct (send_run id (message id "connect" None None) s1) as [io [-> | ->]]; [rewrite bind_run|]; cbn -[message].
  - split_and!; try done. etrans; [by apply own_message, small_i32|]. by apply submseteq_skip.
  - rewrite Hi1. split_and!; try done; lia.
Qed.

(** *** Opening *)

Lemma call_works s : ps_io s = [] -> call s = (Ok tt, s).
Proof. intros Hio. unfold call. rewrite bind_run. unfold next_call. by rewrite Hio. Qed.

Lemma send_works h parts s : ps_io s = [] ->
  send_multipart h parts s = (Ok tt, set_sockets (alter (fun '(pool, l) => (pool, l ++ [parts])) h) s).
Proof. intros Hio. unfold send_multipart. by rewrite bind_run, call_works. Qed.

Lemma ps_open_run name config s : ps_io s = [] -> (ps_ids s + 1 < 2 ^ 31)%N -> name_open name s = false ->
  let handle := Z.of_N (ps_ids s + 1) in let pool := mk_pool name handle (default PoolOpenConfig_default config) in
  ps_open name config s = (Ok handle,
    set_pools (open_pools s) (<[handle := pool]> (pending_pools s))
      (set_sockets (<[handle := (pool, [message handle "connect" None None])]>) (set_ps_ids (ps_ids s + 1) s))).
Proof.
  intros Hio Hlt Hn handle pool. unfold ps_open. rewrite bind_run. cbn [gets]. rewrite Hn. cbv zeta. rewrite bind_run, next_id_run by done.
  do 4 rewrite bind_run, call_works by done. rewrite bind_run. cbn [modify]. rewrite bind_run. unfold _send_msg. rewrite send_works by done.
  rewrite bind_run. cbn -[message]. unfold set_pools, set_sockets, set_ps_ids. cbn -[message]. do 2 f_equal.
  rewrite (alter_send _ _ _ pool []) by apply lookup_insert_eq. by rewrite insert_insert_eq.
Qed.

(** Only pools that are open, and not those that are being opened, keep their names: two can be open under one. *)
Theorem same_name_opened_twice name config s : ps_io s = [] -> (ps_ids s + 2 < 2 ^ 31)%N -> name_open name s = false ->
  exists h1 h2 s1 s2 s3 s4 p1 p2, ps_open name config s = (Ok h1, s1) /\ ps_open name config s1 = (Ok h2, s2) /\
    ps_add_open_pool h1 s2 = (Ok h1, s3) /\ ps_add_open_pool h2 s3 = (Ok h2, s4) /\
    h1 <> h2 /\ open_pools s4 !! h1 = Some p1 /\ open_pools s4 !! h2 = Some p2 /\ pl_name p1 = name /\ pl_name p2 = name.
Proof.
  intros Hio Hlt Hn. pose proof (ps_open_run name config s Hio ltac:(lia) Hn) as Ho1. cbv zeta in Ho1.
  set (h1 := Z.of_N (ps_ids s + 1)) in *. set (p1 := mk_pool name h1 _) in *. set (s1 := set_pools _ _ (set_sockets _ _)) in *.
  pose proof (ps_open_run name config s1 Hio ltac:(cbn; lia) Hn) as Ho2. cbv zeta in Ho2. change (ps_ids s1) with (ps_ids s + 1)%N in *.
  set (h2 := Z.of_N (ps_ids s + 1 + 1)) in *. set (p2 := mk_pool name h2 _) in *. set (s2 := set_pools _ _ (set_sockets (<[h2 := _]>) _)) in *.
  assert (h1 <> h2) as Hne by (unfold h1, h2; lia).
  assert (forall h s p, pending_pools s !! h = Some p -> ps_add_open_pool h s = (Ok h, set_pools (<[h := p]> (open_pools s)) (delete h (pending_pools s)) s)) as Hadd.
  { intros h s0 p Hp. unfold ps_add_open_pool. rewrite bind_run. cbn [gets]. rewrite Hp. done. }
  assert (pending_pools s2 !! h1 = Some p1) as Hp1 by (cbn; rewrite lookup_insert_ne by done; apply lookup_insert_eq).
  pose proof (Hadd h1 s2 p1 Hp1) as Ha1. set (s3 := set_pools (<[h1 := p1]> _) _ s2) in *.
  assert (pending_pools s3 !! h2 = Some p2) as Hp2 by (cbn; rewrite lookup_delete_ne by done; apply lookup_insert_eq).
  exists h1, h2, s1, s2, s3, (set_pools (<[h2 := p2]> (open_pools s3)) (delete h2 (pending_pools s3)) s3), p1, p2. split_and!; try done.
  - by apply Hadd.
  - cbn. by rewrite lookup_insert_ne, lookup_insert_eq.
  - cbn. apply lookup_insert_eq.
Qed.

(** *** Creating *)

Definition genesis_path (name : string) : string := set_extension (push (pool_path name) name) "txn".
Definition config_path (name : string) : string := set_extension (push (pop (genesis_path name)) "config") "json".

Lemma from_file_Ok file s mt s' : from_file file s = (Ok mt, s') -> is_Some (ps_files s !! file) /\ ps_files s' = ps_files s /\ ps_dirs s' = ps_dirs s.
Proof.
  unfold from_file. rewrite bind_run. cbn [gets]. destruct (ps_files s !! file) as [text|] eqn:Hf.
  - unfold on_genesis. destruct (_from_genesis _ _) as [r w]. intros [= -> <-]. done.
  - intros (? & s1 & _ & Hm)%M_bind_Ok. apply M_bind_Ok in Hm as (? & ? & _ & Hm). done.
Qed.

Lemma call_Ok s s' : call s = (Ok tt, s') -> exists io, s' = set_ps_io io s.
Proof.
  unfold call. rewrite bind_run. unfold next_call. destruct (ps_io s) as [|[|n] io] eqn:Hio; [intros [= <-]|intros [= <-]; by eexists|done].
  exists []. destruct s; cbn in *. by subst.
Qed.

Lemma create_file_Ok path s s' : create_file path s = (Ok tt, s') -> ps_files s' = <[path := ""%string]> (ps_files s) /\ ps_dirs s' = ps_dirs s.
Proof. unfold create_file. intros ([] & s1 & (io & ->)%call_Ok & Hm)%M_bind_Ok. inv_run. done. Qed.

Lemma append_file_Ok path text s s' : append_file path text s = (Ok tt, s') ->
  ps_files s' = <[path := (default ""%string (ps_files s !! path) +:+ text)%string]> (ps_files s) /\ ps_dirs s' = ps_dirs s.
Proof.
  unfold append_file. rewrite bind_run. unfold next_call. destruct (ps_io s) as [|[|n] io] eqn:Hio; cbn; by intros [= <-].
Qed.

Lemma text_of_Ok path s text s' : text_of path s = (Ok text, s') -> ps_files s !! path = Some text /\ s' = s.
Proof. unfold text_of. rewrite bind_run. cbn [gets]. unfold lift. by destruct (ps_files s !! path); intros [= <- <-]. Qed.

Lemma taken_name name config s : path_exists (pool_path name) s = true -> ps_create name config s = (Err PoolConfigAlreadyExists, s).
Proof. intros Hp. unfold ps_create. rewrite bind_run. cbn [gets]. by rewrite Hp. Qed.

(** a pool that was created has a copy of the genesis file and its configuration in its directory, where the thread of the pool finds
    it; nothing else has changed in files, and the name is taken. *)
Theorem pool_created name config s s' : let c := default (PoolConfig_default_for_name name) config in
  pool_path name ∈ path_prefixes (pool_path name) -> genesis_txn c <> genesis_path name -> genesis_path name <> config_path name ->
  ps_create name config s = (Ok tt, s') ->
  path_exists (pool_path name) s = false /\
  exists text json, ps_files s !! genesis_txn c = Some text /\ pool_config_to_string c = Some json /\
    ps_files s' = <[config_path name := json]> (<[genesis_path name := text]> (ps_files s)) /\
    genesis_of s' name = Some (text_lines text) /\ forall config', ps_create name config' s' = (Err PoolConfigAlreadyExists, s').
Proof.
  intros c Hpre Hgen Hne. unfold ps_create. fold c. rewrite bind_run. cbn [gets]. destruct (path_exists (pool_path name) s) eqn:Hex; [done|].
  intros (mt & s1 & (Htext & Hf1 & Hd1)%from_file_Ok & Hm)%M_bind_Ok. split; [done|]. destruct (MerkleTree.MerkleTree.count mt =? 0)%N; [done|].
  apply M_bind_Ok in Hm as ([] & s2 & Hdir & Hm). assert (ps_files s2 = ps_files s /\ pool_path name ∈ ps_dirs s2) as [Hf2 Hd2].
  { unfold create_dir_all in Hdir. rewrite bind_run in Hdir. unfold next_call in Hdir. destruct (ps_io s1) as [|[|n] io]; cbn in Hdir; try done; injection Hdir as <-;
      (split; [done|]); cbn; set_solver. }
  cbv zeta in Hm. fold (genesis_path name) in Hm. fold (config_path name) in Hm.
  apply M_bind_Ok in Hm as ([] & s3 & (io & ->)%call_Ok & Hm). apply M_bind_Ok in Hm as (t1 & s4 & [Ht1 ->]%text_of_Ok & Hm).
  apply M_bind_Ok in Hm as ([] & s5 & [Hf5 Hd5]%create_file_Ok & Hm). apply M_bind_Ok in Hm as (text & s6 & [Ht ->]%text_of_Ok & Hm).
  apply M_bind_Ok in Hm as ([] & s7 & [Hf7 Hd7]%append_file_Ok & Hm). apply M_bind_Ok in Hm as ([] & s8 & [Hf8 Hd8]%create_file_Ok & Hm).
  apply M_bind_Ok in Hm as (json & s9 & Hj & Hm). unfold lift in Hj. injection Hj as Hj <-. apply ok_or_Ok in Hj.
  apply append_file_Ok in Hm as [Hf9 Hd9]. cbn in Ht1, Hf5, Hd5. rewrite Hf2 in Ht1, Hf5.
  rewrite Hf5, lookup_insert_ne in Ht by done. rewrite Ht1 in Ht. injection Ht as <-.
  rewrite Hf5, lookup_insert_eq in Hf7. cbn in Hf7. rewrite insert_insert_eq in Hf7. rewrite Hf7 in Hf8.
  rewrite Hf8, lookup_insert_eq in Hf9. cbn in Hf9. rewrite insert_insert_eq in Hf9.
  exists t1, json. split_and!; try done.
  - unfold genesis_of. fold (genesis_path name). rewrite Hf9, lookup_insert_ne, lookup_insert_eq by done. done.
  - intros config'. apply taken_name. unfold path_exists. rewrite bool_decide_true; [done|]. rewrite Hd9, Hd8, Hd7, Hd5. done.
Qed.

(** When a call fails after the directory was made, the pool is not there but its name is taken, until it is deleted. *)
Theorem half_created_pool name config s mt s1 n : let c := default (PoolConfig_default_for_name name) config in
  pool_path name ∈ path_prefixes (pool_path name) -> path_exists (pool_path name) s = false ->
  from_file (genesis_txn c) s = (Ok mt, s1) -> MerkleTree.MerkleTree.count mt <> 0%N -> ps_io s1 = [IoOk; IoFail n] -> name_open name s1 = false ->
  exists s2, ps_create name config s = (Err IOError, s2) /\ ps_files s2 = ps_files s /\
    (forall config', ps_create name config' s2 = (Err PoolConfigAlreadyExists, s2)) /\ (ps_delete name s2).1 = Ok tt.
Proof.
  intros c Hpre Hex Hfile Hcount Hio Hopen. destruct (from_file_Ok _ _ _ _ Hfile) as (_ & Hf & Hd).
  set (s2 := set_ps_io [] (set_disk (list_to_set (path_prefixes (pool_path name)) ∪ ps_dirs s1) (ps_files s1) s1)).
  assert (ps_create name config s = (Err IOError, s2)) as Hrun.
  { unfold ps_create. rewrite bind_run. cbn [gets]. rewrite Hex. fold c. rewrite bind_run, Hfile. destruct (N.eqb_spec (MerkleTree.MerkleTree.count mt) 0) as [|_]; [done|].
    rewrite bind_run. unfold create_dir_all. rewrite bind_run. unfold next_call at 1. rewrite Hio. rewrite bind_run. cbn [gets]. rewrite bind_run. cbn [gets modify].
    rewrite bind_run. unfold call. rewrite bind_run. unfold next_call. done. }
  assert (pool_path name ∈ ps_dirs s2) as Hin by (cbn; set_solver).
  exists s2. split_and!; [done|by rewrite <-Hf| |].
  - intros config'. apply taken_name. unfold path_exists. by rewrite bool_decide_true.
  - unfold ps_delete. rewrite bind_run. cbn [gets]. change (name_open name s2) with (name_open name s1). rewrite Hopen. unfold remove_dir_all.
    rewrite bind_run. unfold next_call. cbn [ps_io s2 set_ps_io]. rewrite bind_run. cbn [gets]. rewrite bind_run. cbn [gets]. by rewrite decide_True by exact Hin.
Qed.
End service_facts.

(** ** What a computation leaves as it is *)

Section fixes.
Context {E S T : Type} (f : S -> T).

Definition fixes {A} (m : StateM E S A) : Prop := forall s, f (m s).2 = f s.

Lemma fixes_ret {A} (a : A) : fixes (mret a).
Proof. done. Qed.
Lemma fixes_lift {A} (m : outcome E A) : fixes (lift m).
Proof. done. Qed.
Lemma fixes_gets {A} (g : S -> A) : fixes (gets g).
Proof. done. Qed.
Lemma fixes_modify g : (forall s, f (g s) = f s) -> fixes (modify g).
Proof. done. Qed.
Lemma fixes_bind {A B} (m : StateM E S A) (k : A -> StateM E S B) : fixes m -> (forall a, fixes (k a)) -> fixes (m ≫= k).
Proof.
  intros Hm Hk s. specialize (Hm s). rewrite bind_run. destruct (m s) as [[a|e| |] s1]; cbn in *; try done. by rewrite (Hk a s1).
Qed.
Lemma fixes_attempt {A} (m : StateM E S A) : fixes m -> fixes (attempt m).
Proof. intros Hm s. specialize (Hm s). unfold attempt. by destruct (m s) as [[]]. Qed.
End fixes.

Ltac fixing H := repeat first
  [ apply H | apply fixes_bind; [|intros ?] | apply fixes_attempt | apply fixes_modify; done | apply fixes_ret | apply fixes_lift | apply fixes_gets
  | case_match | progress cbv zeta | by intros ? ].

(** ** The executors *)

Section executor_facts.
Context `{Machine} `{Sha256} `{JsonText} `{PoolCodecs} `{Base58} `{HashOrder} `{Paths} `{PoolConfigCodec}.
Context `{Hex} `{Ed25519} `{OptionCodecs} `{CLTypes} `{TailsLib} `{!CLRevocation} `{!LedgerCodecs}.
Context `{!IndyObject KeyPair} `{!IndyObject Did}.
Context {W : Type} `{!IndyWallet W}.
Context (crypto : CryptoService).
Implicit Types (e : Executors W).

(** The commands that wait for an answer, and their callbacks *)
Definition waiting_in (f : list (Z * Z) -> list Z) e : list Z :=
  f (map_to_list (open_callbacks e)) ++ f (map_to_list (close_callbacks e)) ++ f (map_to_list (refresh_callbacks e)) ++ f (map_to_list (send_callbacks e)).
Definition waiting_ids e : list Z := waiting_in (fmap fst) e.
Definition waiting_cbs e : list Z := waiting_in (fmap snd) e.

Definition pool_cb_of (c : PoolCommand) : list Z :=
  match c with
  | Create _ _ cb | Delete _ cb | Open _ _ cb | ListPools cb | ClosePool _ cb | RefreshPool _ cb | SetProtocolVersion _ cb
  | SignAndSubmitRequest _ _ _ _ cb | SubmitRequest _ _ cb | SubmitAction _ _ _ _ cb | RegisterSPParser _ cb => [cb]
  | Ack _ => []
  end.

(** The part of the executors where callbacks of one kind wait *)
Definition is_callbacks (get : Executors W -> gmap Z Z) (put : (gmap Z Z -> gmap Z Z) -> Executors W -> Executors W) : Prop :=
  (forall e f, pool_service (put f e) = pool_service e) /\
  (forall e k v, get e !! k = None -> waiting_ids (put (<[k := v]>) e) ≡ₚ k :: waiting_ids e /\ waiting_cbs (put (<[k := v]>) e) ≡ₚ v :: waiting_cbs e) /\
  (forall e k v, get e !! k = Some v -> k :: waiting_ids (put (delete k) e) ≡ₚ waiting_ids e /\ v :: waiting_cbs (put (delete k) e) ≡ₚ waiting_cbs e).

Lemma insert_waits (f : Z * Z -> Z) (m : gmap Z Z) k v : m !! k = None -> f <$> map_to_list (<[k := v]> m) ≡ₚ f (k, v) :: (f <$> map_to_list m).
Proof. intros Hk. by rewrite map_to_list_insert. Qed.

Lemma delete_waits (f : Z * Z -> Z) (m : gmap Z Z) k v : m !! k = Some v -> f (k, v) :: (f <$> map_to_list (delete k m)) ≡ₚ f <$> map_to_list m.
Proof. intros Hk. rewrite <-(insert_delete_id m k v Hk) at 2. by rewrite map_to_list_insert by apply lookup_delete_eq. Qed.

Ltac callbacks_kind := split_and!; [done|intros ? ? ? Hk|intros ? ? ? Hk]; unfold waiting_ids, waiting_cbs, waiting_in;
  cbn [open_callbacks close_callbacks refresh_callbacks send_callbacks set_open_callbacks set_close_callbacks set_refresh_callbacks set_send_callbacks];
  match goal with
  | Hk : _ !! _ = None |- _ => split; rewrite (insert_waits _ _ _ _ Hk)
  | Hk : _ !! _ = Some _ |- _ => split; rewrite <-(delete_waits _ _ _ _ Hk)
  end; cbn [fst snd app]; by rewrite <-?Permutation_middle.

Lemma open_kind : is_callbacks open_callbacks set_open_callbacks.
Proof. callbacks_kind. Qed.
Lemma close_kind : is_callbacks close_callbacks set_close_callbacks.
Proof. callbacks_kind. Qed.
Lemma refresh_kind : is_callbacks refresh_callbacks set_refresh_callbacks.
Proof. callbacks_kind. Qed.
Lemma send_kind : is_callbacks send_callbacks set_send_callbacks.
Proof. callbacks_kind. Qed.

(** A step of the command thread: it draws at most one number, sends nothing but what has this number, and the callback that
    it is given waits for the number or is called. *)
Definition moves (cbs new : list Z) e (called : list Called) e' : Prop :=
  (ps_ids (pool_service e) <= ps_ids (pool_service e') <= ps_ids (pool_service e) + 1)%N /\
  (new = [] \/ new = [Z.of_N (ps_ids (pool_service e) + 1)] /\ ps_ids (pool_service e') = ps_ids (pool_service e) + 1)%N /\
  unwound (pool_service e') = unwound (pool_service e) /\
  socket_ids (sockets (pool_service e')) ⊆+ new ++ socket_ids (sockets (pool_service e)) /\
  waiting_ids e' ≡ₚ new ++ waiting_ids e /\
  cbs ++ waiting_cbs e ≡ₚ called.*1 ++ waiting_cbs e'.

(** [m] changes no callback, sends no message and draws no number. *)
Definition calm {A} (m : StateM IndyErrorKind (Executors W) A) : Prop := forall e,
  same (pool_service e) (pool_service (m e).2) /\ forall f, waiting_in f (m e).2 = waiting_in f e.

Lemma calm_ret {A} (a : A) : calm (mret a).
Proof. done. Qed.
Lemma calm_lift {A} (m : IndyResult A) : calm (lift m).
Proof. done. Qed.
Lemma calm_pools {A} (m : StateM IndyErrorKind PoolService A) : keeps m -> calm (on_pools m).
Proof. intros Hm e. specialize (Hm (pool_service e)). unfold on_pools, within. by destruct (m (pool_service e)). Qed.
Lemma calm_wallets {A} (m : StateM IndyErrorKind W A) : calm (within ex_wallets set_ex_wallets m).
Proof. intros e. unfold within. by destruct (m (ex_wallets e)). Qed.
Lemma calm_bind {A B} (m : StateM IndyErrorKind (Executors W) A) (f : A -> StateM IndyErrorKind (Executors W) B) :
  calm m -> (forall a, calm (f a)) -> calm (m ≫= f).
Proof.
  intros Hm Hf e. destruct (Hm e) as [(Hs & Hi & Hu) Hw]. rewrite bind_run. destruct (m e) as [[a|err| |] e1]; cbn in *; try done.
  destruct (Hf a e1) as [(Hs' & Hi' & Hu') Hw']. unfold same. rewrite Hs', Hi', Hu', Hs, Hi, Hu. split; [done|]. intros g. by rewrite Hw', Hw.
Qed.

Lemma calls_back_moves {A} cb (f : A -> PoolResult) m e called e' : calm m -> calls_back cb f m e = (Ok called, e') -> moves [cb] [] e called e'.
Proof.
  intros Hm. unfold calls_back. rewrite bind_run. unfold attempt. destruct (Hm e) as [(Hs & Hi & Hu) Hw].
  destruct (m e) as [[a|err| |] e1]; cbn in *; intros [= <- <-]; unfold moves, waiting_ids, waiting_cbs; rewrite Hs, Hi, Hu, !Hw; split_and!; try done; try lia; by left.
Qed.

Lemma waits_for_moves get put m cb e called e' : is_callbacks get put -> draws m -> (ps_ids (pool_service e) + 1 < 2 ^ 31)%N ->
  (forall id, id ∈ waiting_ids e -> (id <= Z.of_N (ps_ids (pool_service e)))%Z) -> (forall e s, get (set_pool_service s e) = get e) ->
  waits_for cb put m e = (Ok called, e') -> exists new, moves [cb] new e called e'.
Proof.
  intros (Hput & Hins & Hdel) Hm Hlt Hids Hget. unfold waits_for. rewrite bind_run. unfold attempt, on_pools, within.
  specialize (Hm (pool_service e) Hlt). unfold ends in Hm. destruct (m (pool_service e)) as [[id|err| |] s'].
  - destruct Hm as (-> & Hi & Hu & Hs). rewrite bind_run. cbn. intros [= <- <-]. set (id := Z.of_N (ps_ids (pool_service e) + 1)) in *.
    assert (get (set_pool_service s' e) !! id = None) as Hnone.
    { rewrite Hget. destruct (get e !! id) as [v|] eqn:Hv; [|done]. destruct (Hdel e id v Hv) as [Hp _].
      assert (id ∈ waiting_ids e) as Hin%Hids by (rewrite <-Hp; by left). lia. }
    destruct (Hins _ _ cb Hnone) as [Hwi Hwc]. exists [id]. unfold moves. rewrite Hput, Hwi, Hwc. cbn [pool_service set_pool_service]. rewrite Hi, Hu.
    split_and!; try done; try lia. by right.
  - destruct Hm as (Hi & Hu & Hs). cbn. intros [= <- <-]. exists []. unfold moves. cbn [pool_service set_pool_service]. rewrite Hu. split_and!; try done; try lia. by left.
  - done.
  - done.
Qed.

(** A command of the user *)
Lemma user_moves c e called e' : (forall ack, c <> Ack ack) -> (ps_ids (pool_service e) + 1 < 2 ^ 31)%N ->
  (forall id, id ∈ waiting_ids e -> (id <= Z.of_N (ps_ids (pool_service e)))%Z) ->
  pool_execute crypto c e = (Ok called, e') -> exists new, moves (pool_cb_of c) new e called e'.
Proof.
  intros Hack Hlt Hids. destruct c; cbn [pool_execute pool_cb_of]; intros Hc.
  - exists []. eapply calls_back_moves; [|exact Hc]. apply calm_pools, keeps_create.
  - exists []. eapply calls_back_moves; [|exact Hc]. apply calm_pools, keeps_delete.
  - by eapply (waits_for_moves _ _ _ _ _ _ _ open_kind); [apply draws_open|..].
  - exists []. eapply calls_back_moves; [|exact Hc]. apply calm_bind; [apply calm_pools, keeps_list|]. intros l. apply calm_ret.
  - by eapply (waits_for_moves _ _ _ _ _ _ _ close_kind); [apply draws_close|..].
  - by eapply (waits_for_moves _ _ _ _ _ _ _ refresh_kind); [apply draws_send_action|..].
  - exists []. eapply calls_back_moves; [|exact Hc]. unfold set_protocol_version. case_match; [apply calm_lift|]. by apply calm_pools.
  - unfold sign_and_submit_request in Hc. apply M_bind_Ok in Hc as (r & e1 & Hr & Hc).
    assert (same (pool_service e) (pool_service e1) /\ forall f, waiting_in f e1 = waiting_in f e) as [(Hs & Hi & Hu) Hw].
    { pose proof (calm_wallets (_sign_request crypto wallet_handle submitter_did request_json Single) e) as Hcalm. unfold attempt in Hr.
      destruct (within _ _ _ e) as [[]]; by simplify_eq/=. }
    destruct r as [err|signed].
    + cbv [mret StateM_ret] in Hc. injection Hc as <- <-. exists []. unfold moves, waiting_ids, waiting_cbs. rewrite Hs, Hi, Hu, !Hw. split_and!; try done; try lia. by left.
    + eapply (waits_for_moves _ _ _ _ _ _ _ send_kind) in Hc as [new Hm]; [|apply draws_send_action|by rewrite Hi|by unfold waiting_ids; rewrite Hi, Hw|done].
      exists new. unfold moves, waiting_ids, waiting_cbs in *. by rewrite Hs, Hi, Hu, !Hw in Hm.
  - by eapply (waits_for_moves _ _ _ _ _ _ _ send_kind); [apply draws_send_action|..].
  - unfold submit_action in Hc. apply M_bind_Ok in Hc as (r & e1 & Hr & Hc). assert (e1 = e) as ->.
    { unfold attempt, lift in Hr. destruct (validate_action request_json); by injection Hr. }
    destruct r as [err|[]].
    + cbv [mret StateM_ret] in Hc. injection Hc as <- <-. exists []. unfold moves. split_and!; try done; try lia. by left.
    + by eapply (waits_for_moves _ _ _ _ _ _ _ send_kind); [apply draws_send_action|..].
  - exists []. eapply calls_back_moves; [|exact Hc]. apply calm_pools, keeps_register.
  - by destruct (Hack command).
Qed.

Lemma call_waiting_moves get put id answer e called e' : is_callbacks get put ->
  (forall cb e called e', answer cb e = (Ok called, e') -> called.*1 = [cb] /\ same (pool_service e) (pool_service e') /\ forall f, waiting_in f e' = waiting_in f e) ->
  call_waiting get put id answer e = (Ok called, e') ->
  same (pool_service e) (pool_service e') /\ exists gone, (gone = [] \/ gone = [id]) /\
    waiting_ids e ≡ₚ gone ++ waiting_ids e' /\ waiting_cbs e ≡ₚ called.*1 ++ waiting_cbs e'.
Proof.
  intros (Hput & _ & Hdel) Hans. unfold call_waiting. rewrite bind_run. cbn [gets]. destruct (get e !! id) as [cb|] eqn:Hcb.
  - rewrite bind_run. cbn [modify]. intros (Hc & Hs & Hw)%Hans. destruct (Hdel e id cb Hcb) as [Hi Hcbs]. rewrite Hput in Hs. split; [done|].
    exists [id]. split; [by right|]. unfold waiting_ids, waiting_cbs in *. by rewrite !Hw, Hc, <-Hi, <-Hcbs.
  - intros [= <- <-]. split; [done|]. exists []. split_and!; [by left|done|done].
Qed.

(** An answer of the thread of a pool *)
Lemma ack_moves ack e called e' : pool_execute crypto (Ack ack) e = (Ok called, e') ->
  same (pool_service e) (pool_service e') /\ exists gone, (gone = [] \/ gone = [command_id ack]) /\
    waiting_ids e ≡ₚ gone ++ waiting_ids e' /\ waiting_cbs e ≡ₚ called.*1 ++ waiting_cbs e'.
Proof.
  assert (forall {A} cb (f : A -> PoolResult) m e called e', calm m -> calls_back cb f m e = (Ok called, e') ->
    called.*1 = [cb] /\ same (pool_service e) (pool_service e') /\ forall f, waiting_in f e' = waiting_in f e) as Hcalm.
  { intros A cb f m e0 called0 e0' Hm. unfold calls_back. rewrite bind_run. unfold attempt. specialize (Hm e0).
    destruct (m e0) as [[a|err| |] e1]; intros [= <- <-]; by split. }
  cbn [pool_execute]. destruct ack; cbn [acknowledged command_id]; intros Hc.
  - eapply call_waiting_moves; [apply open_kind| |exact Hc]. intros cb e0 called0 e0'. apply Hcalm. destruct res; [apply calm_lift|apply calm_pools, keeps_add_open_pool].
  - eapply call_waiting_moves; [apply close_kind| |exact Hc]. intros cb e0 called0 e0'. apply Hcalm. destruct res; [apply calm_lift|apply calm_ret].
  - eapply call_waiting_moves; [apply refresh_kind| |exact Hc]. intros cb e0 called0 e0'. apply Hcalm. destruct res; [apply calm_lift|apply calm_ret].
  - eapply call_waiting_moves; [apply send_kind| |exact Hc]. intros cb e0 called0 e0'. apply Hcalm. destruct res; [apply calm_lift|apply calm_ret].
Qed.
End executor_facts.

(** ** The command thread and the threads of the pools *)

Section system_facts.
Context `{Machine} `{Sha256} `{JsonText} `{PoolCodecs} `{Base58} `{HashOrder} `{Paths} `{PoolConfigCodec}.
Context `{Bls} `{!RequestHandler} `{!RequestHandlerLaws} `{Sodium}.
Context `{Hex} `{Ed25519} `{OptionCodecs} `{CLTypes} `{TailsLib} `{!CLRevocation} `{!LedgerCodecs}.
Context `{!IndyObject KeyPair} `{!IndyObject Did}.
Context {W : Type} `{!IndyWallet W}.
Context (crypto : CryptoService).

Lemma event_sent `{SpParsers} sm pe w sm' w' : pool_handle_event sm pe w = (Ok sm', w') ->
  exists out, effects w' = effects w ++ out /\ acked out ++ PoolFacts.pending (p_state sm') ⊆+ PoolFacts.pending (p_state sm) ++ PoolFacts.issued pe.
Proof.
  unfold pool_handle_event. intros (st & w1 & Hst & Hm)%M_bind_Ok. cbv [mret StateM_ret] in Hm. injection Hm as <- <-.
  by apply (outputs_Ok _ _ _ _ _ (conserves_event sm pe)) in Hst.
Qed.

(** The commands that the threads of the pools have *)
Definition threads_pending (m : gmap Z (PoolSM * World)) : list Z := (map_to_list m).*2 ≫= fun p => PoolFacts.pending (p_state p.1).

Lemma threads_pending_insert h p m : threads_pending (<[h := p]> m) ≡ₚ PoolFacts.pending (p_state p.1) ++ threads_pending (delete h m).
Proof. unfold threads_pending. by rewrite <-insert_delete_eq, map_to_list_insert by apply lookup_delete_eq. Qed.

Lemma threads_pending_lookup h p m : m !! h = Some p -> threads_pending m ≡ₚ PoolFacts.pending (p_state p.1) ++ threads_pending (delete h m).
Proof. intros Hm. rewrite <-(insert_id m h p Hm) at 1. apply threads_pending_insert. Qed.

(** The commands on their way: in the sockets, with the threads, in the channel *)
Definition held (s : System (W:=W)) : list Z :=
  real (socket_ids (sockets (pool_service (executors s))) ++ threads_pending (threads s) ++ (command_id <$> channel s)).

Definition command_ids (e : SystemEvent) : list Z := match e with UserCommand c => pool_cb_of c | _ => [] end.

(** Each command on its way belongs to a callback that waits for its number. *)
Definition expected (s : System (W:=W)) : Prop :=
  held s ⊆+ waiting_ids (executors s) /\ NoDup (waiting_ids (executors s)) /\
  forall id, id ∈ waiting_ids (executors s) -> (0 < id <= Z.of_N (ps_ids (pool_service (executors s))))%Z.

(** What a step of the system does to the callbacks and to the counter *)
Definition goes_on (cbs : list Z) (s : System (W:=W)) (called : list Called) (s' : System (W:=W)) : Prop :=
  cbs ++ waiting_cbs (executors s) ≡ₚ called.*1 ++ waiting_cbs (executors s') /\
  (ps_ids (pool_service (executors s')) <= ps_ids (pool_service (executors s)) + 1)%N /\
  unwound (pool_service (executors s)) ⊆ unwound (pool_service (executors s')).

(** A thread that handles an event: what it answers and still has, it had, or the event was. *)
Lemma thread_step h sm w pe (s s' : System (W:=W)) : threads s !! h = Some (sm, w) ->
  thread_handles h sm w pe s = s' -> unwound (pool_service (executors s')) = ∅ ->
  executors s' = executors s /\
  threads_pending (threads s') ++ (command_id <$> channel s') ⊆+ PoolFacts.issued pe ++ threads_pending (threads s) ++ (command_id <$> channel s).
Proof.
  unfold thread_handles. intros Ht Hs Hu.
  destruct (pool_handle_event sm pe (world_now s w)) as [[sm'|err| |] w'] eqn:Hh; subst s'; [|exfalso; cbn in Hu; set_solver..].
  split; [done|]. apply event_sent in Hh as (out & Hout & Hp). cbn in Hout. cbn [threads channel]. rewrite threads_pending_insert. cbn [fst].
  rewrite (threads_pending_lookup h _ _ Ht). cbn [fst]. rewrite Hout, fmap_app. fold (acked out).
  transitivity ((acked out ++ PoolFacts.pending (p_state sm')) ++ threads_pending (delete h (threads s)) ++ (command_id <$> channel s)).
  - apply Permutation_submseteq. solve_Permutation.
  - etrans; [apply submseteq_skips_r; exact Hp|]. apply Permutation_submseteq. solve_Permutation.
Qed.

Lemma held_less (s s' : System (W:=W)) :
  held s' ⊆+ held s -> executors s' = executors s \/ waiting_ids (executors s') = waiting_ids (executors s) /\ waiting_cbs (executors s') = waiting_cbs (executors s) /\
    ps_ids (pool_service (executors s')) = ps_ids (pool_service (executors s)) /\ unwound (pool_service (executors s)) ⊆ unwound (pool_service (executors s')) ->
  expected s -> expected s' /\ goes_on [] s [] s'.
Proof.
  intros Hsub Hex (Hh & Hnd & Hids). assert (waiting_ids (executors s') = waiting_ids (executors s) /\ waiting_cbs (executors s') = waiting_cbs (executors s) /\
    ps_ids (pool_service (executors s')) = ps_ids (pool_service (executors s)) /\ unwound (pool_service (executors s)) ⊆ unwound (pool_service (executors s')))
    as (Hw & Hc & Hi & Hu) by (destruct Hex as [-> |]; done).
  split; unfold expected, goes_on; rewrite ?Hw, ?Hc, ?Hi; split_and!; try done; try lia. by etrans.
Qed.

Lemma user_step c (s s' : System (W:=W)) called : (forall ack, c <> Ack ack) -> (ps_ids (pool_service (executors s)) + 1 < 2 ^ 31)%N ->
  execute_on crypto c s = Some (s', called) -> expected s -> expected s' /\ goes_on (pool_cb_of c) s called s'.
Proof.
  unfold execute_on. intros Hack Hlt Hs (Hh & Hnd & Hids). destruct (pool_execute crypto c (executors s)) as [[l|e| |] e'] eqn:He; try done.
  injection Hs as <- <-. destruct (user_moves crypto c _ _ _ Hack Hlt (fun id Hid => proj2 (Hids id Hid)) He) as (new & Hle & Hnew & Hu & Hso & Hwi & Hwc).
  assert (real new = new) as Hreal.
  { destruct Hnew as [->|[-> _]]; [done|]. unfold real. by rewrite filter_cons_True by lia. }
  split; [|unfold goes_on; cbn [executors]; rewrite Hu; split_and!; [exact Hwc|lia|done]]. unfold expected, held. cbn [executors threads channel]. split_and!.
  - rewrite Hwi. etrans; [apply real_sub, submseteq_skips_r; exact Hso|]. rewrite !real_app, <-!(assoc_L (++)), Hreal. apply submseteq_skips_l.
    rewrite <-!real_app. exact Hh.
  - rewrite Hwi. destruct Hnew as [->|[-> _]]; [done|]. constructor; [|done]. intros Hin%Hids. lia.
  - intros id. rewrite Hwi, elem_of_app. intros [Hin|Hin%Hids]; [|lia]. destruct Hnew as [->|[-> Heq]]; [by apply not_elem_of_nil in Hin|].
    apply list_elem_of_singleton in Hin as ->. lia.
Qed.

Lemma ack_step ack rest (s s' : System (W:=W)) called : channel s = ack :: rest ->
  execute_on crypto (Ack ack) (mk_system (executors s) (threads s) rest) = Some (s', called) -> expected s -> expected s' /\ goes_on [] s called s'.
Proof.
  unfold execute_on. cbn [executors threads channel]. intros Hch Hs (Hh & Hnd & Hids).
  destruct (pool_execute crypto (Ack ack) (executors s)) as [[l|e| |] e'] eqn:He; try done. injection Hs as <- <-.
  apply ack_moves in He as ((Hso & Hi & Hu) & gone & Hgone & Hwi & Hwc).
  split; [|unfold goes_on; cbn [executors]; rewrite Hu, Hi; split_and!; [exact Hwc|lia|done]]. unfold expected, held in *. cbn [executors threads channel].
  rewrite Hch, fmap_cons in Hh. rewrite Hso, Hi. assert (forall id, id ∈ waiting_ids e' -> id ∈ waiting_ids (executors s)) as Hsub.
  { intros id Hin. rewrite Hwi. apply elem_of_app. by right. }
  split_and!; [|rewrite Hwi in Hnd; by apply NoDup_app in Hnd as (_ & _ & ?)|intros id Hin; by apply Hids, Hsub].
  rewrite !real_app in *. destruct Hgone as [-> | ->].
  - cbn [app] in Hwi. rewrite <-Hwi. etrans; [|exact Hh]. do 2 apply submseteq_skips_l. change (?a :: ?l) with ([a] ++ l). rewrite real_app. by apply submseteq_inserts_l.
  - assert (0 < command_id ack)%Z as Hpos by (apply (Hids (command_id ack)); rewrite Hwi; by left). rewrite Hwi in Hh.
    assert (real (command_id ack :: (command_id <$> rest)) = command_id ack :: real (command_id <$> rest)) as Hc by (unfold real; by rewrite filter_cons_True).
    rewrite Hc in Hh. apply (submseteq_app_inv_l _ _ [command_id ack]). etrans; [|exact Hh]. apply Permutation_submseteq. solve_Permutation.
Qed.

(** Every step *)
Lemma step_expected e (s s' : System (W:=W)) called : system_step crypto e s = Some (s', called) -> (ps_ids (pool_service (executors s)) + 1 < 2 ^ 31)%N ->
  unwound (pool_service (executors s')) = ∅ -> expected s -> expected s' /\ goes_on (command_ids e) s called s'.
Proof.
  intros Hs Hlt Hu Hex. destruct e as [c| |h cache calls now threshold|h|h pe]; cbn [system_step command_ids] in *.
  - by destruct c; [eapply user_step..|].
  - destruct (channel s) as [|ack rest] eqn:Hch; [done|]. by eapply ack_step.
  - destruct (sockets _ !! h) as [[pool l]|] eqn:Hso; [|done]. destruct (threads s !! h) eqn:Ht; [done|]. case_decide; [done|]. injection Hs as <- <-.
    apply held_less; [|by left|done]. unfold held. cbn [executors threads channel]. rewrite threads_pending_insert, delete_id by done. done.
  - destruct (sockets _ !! h) as [[pool [|parts l]]|] eqn:Hso; [done| |done]. destruct (threads s !! h) as [[sm w]|] eqn:Ht; [|done].
    destruct (pool_is_terminal sm); [done|]. set (s1 := set_sockets_of _ s) in *.
    assert (socket_ids (sockets (pool_service (executors s))) ≡ₚ message_ids parts ++ socket_ids (sockets (pool_service (executors s1)))) as Hsplit.
    { cbn. rewrite socket_ids_insert, (socket_ids_lookup h _ _ Hso). unfold messages_ids. cbn. by rewrite (assoc_L (++)). }
    unfold message_ids in Hsplit. destruct (fetch_event parts) as [[pe|]|err| |]; injection Hs as <- <-; [| |exfalso; cbn in Hu; set_solver..].
    + destruct (thread_step h sm w pe s1 _ Ht eq_refl Hu) as [Hexec Hsub]. apply held_less; [|right; by rewrite Hexec|done].
      unfold held. rewrite Hexec, Hsplit, !real_app, real_real. rewrite <-!real_app. etrans; [apply real_sub, submseteq_skips_l, Hsub|].
      change (threads s1) with (threads s). change (channel s1) with (channel s). rewrite !real_app. apply Permutation_submseteq. solve_Permutation.
    + apply held_less; [|by right|done]. unfold held. rewrite Hsplit. done.
  - destruct (threads s !! h) as [[sm w]|] eqn:Ht; [|done]. destruct (pool_is_terminal sm); [done|].
    assert (PoolFacts.issued pe = [] /\ Some (thread_handles h sm w pe s, []) = Some (s', called)) as [Hpe Hst] by (destruct pe; done).
    injection Hst as <- <-. destruct (thread_step h sm w pe s _ Ht eq_refl Hu) as [Hexec Hsub]. rewrite Hpe in Hsub.
    apply held_less; [|by left|done]. unfold held. rewrite Hexec. by apply real_sub, submseteq_skips_l.
Qed.

(** Commands do not change which threads have unwound. *)
Lemma execute_unwound c e called e' : pool_execute crypto c e = (Ok called, e') -> unwound (pool_service e') = unwound (pool_service e).
Proof.
  intros Hc. apply (f_equal snd) in Hc. cbn [snd] in Hc. subst e'. revert e.
  change (fixes (fun e : Executors W => unwound (pool_service e)) (pool_execute crypto c)).
  assert (forall {A} (m : StateM IndyErrorKind PoolService A), fixes unwound m -> fixes (fun e : Executors W => unwound (pool_service e)) (on_pools m)) as Hon.
  { intros A m Hm e. specialize (Hm (pool_service e)). unfold on_pools, within. by destruct (m (pool_service e)). }
  assert (forall {A} (m : StateM IndyErrorKind W A), fixes (fun e : Executors W => unwound (pool_service e)) (within ex_wallets set_ex_wallets m)) as Hwal.
  { intros A m e. unfold within. by destruct (m (ex_wallets e)). }
  assert (fixes unwound call) as Hcall by (intros s; apply keeps_call).
  assert (forall h m ns t, fixes unwound (ps_send_action h m ns t)) as Hsend by (intros; unfold ps_send_action, _send_msg, send_multipart; fixing Hcall).
  assert (forall h, fixes unwound (ps_close h)) as Hclose by (intros; unfold ps_close, zmq_pool_drop, _send_msg, send_multipart; fixing Hcall).
  assert (forall n o, fixes unwound (ps_open n o)) as Hopen by (intros; unfold ps_open, _send_msg, send_multipart; fixing Hcall).
  destruct c as [| | | | | | | | | | |[]]; cbn [pool_execute acknowledged]; unfold call_waiting, calls_back, waits_for, list_pools, set_protocol_version,
    sign_and_submit_request, submit_request, submit_action.
  all: repeat first
    [ solve [apply Hon; first [apply Hsend|apply Hclose|apply Hopen|by intros ?|intros s; apply keeps_create|intros s; apply keeps_delete|intros s; apply keeps_list
        |intros s; apply keeps_register|intros s; apply keeps_add_open_pool]]
    | apply fixes_bind; [|intros ?] | apply fixes_attempt | apply Hwal | apply fixes_modify; done | apply fixes_ret | apply fixes_lift | apply fixes_gets | case_match ].
Qed.

Lemma handles_unwound h sm w pe (s : System (W:=W)) : unwound (pool_service (executors s)) ⊆ unwound (pool_service (executors (thread_handles h sm w pe s))).
Proof. unfold thread_handles. destruct (pool_handle_event sm pe _) as [[]]; cbn; set_solver. Qed.

Lemma step_unwound e (s s' : System (W:=W)) called : system_step crypto e s = Some (s', called) ->
  unwound (pool_service (executors s)) ⊆ unwound (pool_service (executors s')).
Proof.
  assert (forall c (s : System (W:=W)) s' called, execute_on crypto c s = Some (s', called) ->
    unwound (pool_service (executors s')) = unwound (pool_service (executors s))) as Hex.
  { intros c s0 s0' called0. unfold execute_on. destruct (pool_execute crypto c (executors s0)) as [[l|err| |] e'] eqn:He; try done.
    intros [= <- <-]. by eapply execute_unwound. }
  intros Hs. destruct e as [c| |h cache calls now threshold|h|h pe]; cbn [system_step] in Hs.
  - destruct c; try done; by rewrite (Hex _ _ _ _ Hs).
  - destruct (channel s) as [|ack rest]; [done|]. by rewrite (Hex _ _ _ _ Hs).
  - repeat (case_match; try done). by injection Hs as <- <-.
  - destruct (sockets _ !! h) as [[pool [|parts l]]|]; [done| |done]. destruct (threads s !! h) as [[sm w]|]; [|done]. destruct (pool_is_terminal sm); [done|].
    destruct (fetch_event parts) as [[pe|]|err| |]; injection Hs as <- <-; try done; try (cbn; set_solver).
    etrans; [|apply handles_unwound]. done.
  - destruct (threads s !! h) as [[sm w]|]; [|done]. destruct (pool_is_terminal sm); [done|].
    assert (Some (thread_handles h sm w pe s, []) = Some (s', called)) as Hst by (by destruct pe). injection Hst as <- <-. apply handles_unwound.
Qed.

Lemma run_unwound events : forall (s s' : System (W:=W)) called, system_run crypto events s = Some (s', called) ->
  unwound (pool_service (executors s)) ⊆ unwound (pool_service (executors s')).
Proof.
  induction events as [|e events IH]; intros s s' called Hrun; cbn [system_run] in Hrun; [by injection Hrun as <- <-|].
  destruct (system_step crypto e s) as [[s1 c1]|] eqn:Hst; [|done]. cbn [mbind option_bind] in Hrun.
  destruct (system_run crypto events s1) as [[s2 c2]|] eqn:Hr; [|done]. cbn [mbind option_bind] in Hrun. injection Hrun as <- <-.
  etrans; [by eapply step_unwound|by eapply IH].
Qed.

Lemma run_expected events : forall (s s' : System (W:=W)) called, (ps_ids (pool_service (executors s)) + N.of_nat (length events) < 2 ^ 31)%N ->
  system_run crypto events s = Some (s', called) -> unwound (pool_service (executors s')) = ∅ -> expected s ->
  expected s' /\ (events ≫= command_ids) ++ waiting_cbs (executors s) ≡ₚ called.*1 ++ waiting_cbs (executors s').
Proof.
  induction events as [|e events IH]; intros s s' called Hlt Hrun Hu Hex; cbn [system_run] in Hrun; [by injection Hrun as <- <-|].
  rewrite length_cons in Hlt. destruct (system_step crypto e s) as [[s1 c1]|] eqn:Hst; [|done]. cbn [mbind option_bind] in Hrun.
  destruct (system_run crypto events s1) as [[s2 c2]|] eqn:Hr; [|done]. cbn [mbind option_bind] in Hrun. injection Hrun as <- <-.
  pose proof (run_unwound events s1 s2 c2 Hr) as Hsub. rewrite Hu in Hsub.
  destruct (step_expected e s s1 c1 Hst ltac:(lia) ltac:(set_solver) Hex) as [Hex1 (Hcbs & Hids & _)].
  destruct (IH s1 s2 c2 ltac:(lia) Hr Hu Hex1) as [Hex2 Hcbs2]. split; [done|]. rewrite fmap_app. cbn [mbind list_bind].
  fold (mbind (M:=list) command_ids events). rewrite <-!(assoc_L (++)), <-Hcbs2.
  transitivity ((events ≫= command_ids) ++ command_ids e ++ waiting_cbs (executors s)); [solve_Permutation|]. rewrite Hcbs. solve_Permutation.
Qed.

(** C16: in any interleaving of the commands of the user, the threads of the pools and what their nodes say, as long as the numbers of
    commands fit and no thread unwinds: the callbacks that were called and those that wait are the callbacks that
    were given, each as often; and each message to a thread, each command that a thread has and each answer on its way
    back belongs to one callback that waits for its number, and no two to the same. *)
Theorem answers_expected (service : PoolService) (w : W) events s' called : sockets service = ∅ ->
  (ps_ids service + N.of_nat (length events) < 2 ^ 31)%N ->
  system_run crypto events (system_new service w) = Some (s', called) -> unwound (pool_service (executors s')) = ∅ ->
  (events ≫= command_ids) ≡ₚ called.*1 ++ waiting_cbs (executors s') /\
  held s' ⊆+ waiting_ids (executors s') /\ NoDup (waiting_ids (executors s')).
Proof.
  intros Hso Hlt Hrun Hu. assert (forall f, f [] = [] -> waiting_in f (executors (system_new service w)) = []) as Hnone.
  { intros f Hf. unfold waiting_in. cbn. by rewrite !map_to_list_empty, Hf. }
  destruct (run_expected events (system_new service w) s' called Hlt Hrun Hu) as [(Hh & Hnd & _) Hcbs].
  - unfold expected, held, waiting_ids. rewrite !Hnone by done. cbn. rewrite Hso. split_and!; [done|constructor|]. intros id []%not_elem_of_nil.
  - unfold waiting_cbs at 1 in Hcbs. rewrite Hnone, app_nil_r in Hcbs by done. done.
Qed.

(** *** Closing *)

(** An active pool with a thread that has nothing to do, while nothing else is going on *)
Record idle_pool (s : System (W:=W)) (h : Z) (pool : Pool) (sm : PoolSM) (a : ActiveState) (world : World) : Prop := {
  idle_open : open_pools (pool_service (executors s)) !! h = Some pool;
  idle_id : pl_id pool = h;
  idle_socket : sockets (pool_service (executors s)) !! h = Some (pool, []);
  idle_thread : threads s !! h = Some (sm, world);
  idle_active : p_state sm = Active a;
  idle_started : handlers_started (Active a);
  idle_channel : channel s = [];
  idle_calls : ps_io (pool_service (executors s)) = [];
  idle_alive : h ∉ unwound (pool_service (executors s));
  idle_ids : (ps_ids (pool_service (executors s)) + 1 < 2 ^ 31)%N;
}.

(** The thread takes an exit. *)
Lemma exit_taken (s : System (W:=W)) h pool sm a world cmd_id rest : sockets (pool_service (executors s)) !! h = Some (pool, message cmd_id "exit" None None :: rest) ->
  threads s !! h = Some (sm, world) -> p_state sm = Active a -> handlers_started (Active a) -> is_i32 cmd_id -> channel s = [] ->
  exists w' acks, system_step crypto (ThreadTakes h) s =
      Some (mk_system (set_pool_service (set_sockets (<[h := (pool, rest)]>) (pool_service (executors s))) (executors s))
        (<[h := (step sm Closed, w')]> (threads s)) (CloseAck cmd_id (inr tt) :: acks), []) /\
    acks ≡ₚ (fun c => SubmitAck c (inl PoolTerminated)) <$> PoolFacts.pending (p_state sm).
Proof.
  intros Hso Ht Ha Hst Hid Hch. cbn [system_step]. rewrite Hso, Ht. unfold pool_is_terminal. rewrite Ha.
  assert (fetch_event (E:=IndyErrorKind) (message cmd_id "exit" None None) = Ok (Some (Close cmd_id))) as ->.
  { unfold fetch_event, message. rewrite from_utf8_as_bytes by reflexivity. rewrite (read_write_i32 cmd_id) by done. done. }
  unfold thread_handles. set (s1 := set_sockets_of _ s).
  destruct (active_closes (H9 := parsers_now s1) sm a (world_now s1 world) cmd_id Ha Hst) as (out & -> & Hout).
  cbn. rewrite Hch. eexists _, (sents out). split; [reflexivity|]. done.
Qed.


(** A request whose text is [exit] closes the pool's thread: the answer is one to a close, so that the callback is never called, and the
    pool is still open. *)
Theorem exit_request_lost (s : System (W:=W)) h pool sm a world cb : idle_pool s h pool sm a world ->
  close_callbacks (executors s) !! Z.of_N (ps_ids (pool_service (executors s)) + 1) = None ->
  exists s' w', system_run crypto [UserCommand (SubmitRequest h "exit" cb); ThreadTakes h; TakeAck] s = Some (s', []) /\
    open_pools (pool_service (executors s')) !! h = Some pool /\ threads s' !! h = Some (step sm Closed, w') /\
    send_callbacks (executors s') !! Z.of_N (ps_ids (pool_service (executors s)) + 1) = Some cb.
Proof.
  intros [Hop Hid Hso Ht Ha Hst Hch Hio Hal Hlt] Hcb. set (cmd_id := Z.of_N (ps_ids (pool_service (executors s)) + 1)) in *.
  set (s1 := set_sockets (<[h := (pool, [message cmd_id "exit" None None])]>) (set_ps_ids (ps_ids (pool_service (executors s)) + 1) (pool_service (executors s)))).
  assert (ps_send_tx h "exit" (pool_service (executors s)) = (Ok cmd_id, s1)) as Hsend.
  { unfold ps_send_tx, ps_send_action. rewrite bind_run. cbn [gets]. rewrite Hop. rewrite bind_run, next_id_run by done. rewrite bind_run. unfold _send_msg.
    rewrite send_works by done. cbn -[message]. f_equal. unfold s1, set_sockets, set_ps_ids. cbn -[message]. f_equal.
    by rewrite Hid, (alter_send _ _ _ _ _ Hso). }
  set (e1 := set_send_callbacks (<[cmd_id := cb]>) (set_pool_service s1 (executors s))).
  assert (execute_on crypto (SubmitRequest h "exit" cb) s = Some (mk_system e1 (threads s) (channel s), [])) as Hexec.
  { unfold execute_on. cbn [pool_execute]. unfold submit_request, waits_for. rewrite bind_run. unfold attempt, on_pools, within. by rewrite Hsend. }
  cbn [system_run]. cbn [system_step]. rewrite Hexec. cbn [mbind option_bind].
  destruct (exit_taken (mk_system e1 (threads s) (channel s)) h pool sm a world cmd_id []) as (w' & acks & Htake & _);
    [by cbn -[message]; rewrite lookup_insert_eq|done|done|done|by apply small_i32|done|].
  cbn [system_step] in Htake. cbn [system_step]. rewrite Htake. cbn [mbind option_bind channel]. unfold execute_on. cbn [executors threads channel pool_execute acknowledged].
  unfold call_waiting. rewrite bind_run. cbn [gets]. cbn [close_callbacks set_pool_service e1 set_send_callbacks]. rewrite Hcb.
  cbn. eexists _, w'. split; [reflexivity|]. cbn. by rewrite !lookup_insert_eq.
Qed.
End system_facts.

(** ** Toy pools *)

Module ToyPools.
#[local] Existing Instances ToySha.sha ToySha.sha_length ToyPool.machine ToyPool.order ToyPool.base58 ToyPool.json_text ToyPool.codecs ToyPool.bls
  ToyRlp.rlp ToyProofs.libs ToyResponse.codec ToySodium.sodium ToySodium.parsers ToyCrypto.ed25519 ToyCrypto.key_object ToySigning.did_object
  ToySigning.hex ToyCL.types ToyTails.lib ToyIssuer.revocation ToyLedger.codecs toy_options.

#[export] Instance paths : Paths := {|
  pool_home_path := "home";
  push := fun a b => (a +:+ "/" +:+ b)%string;
  set_extension := fun p e => (p +:+ "." +:+ e)%string;
  pop := fun p => join "/" (take (length (split_on "/"%char p) - 1) (split_on "/"%char p));
  within_path := fun p d => String.prefix d p;
  file_name := fun p => last (split_on "/"%char p);
  path_prefixes := fun p => ["home"%string; p];
|}.
#[export] Instance config_codec : PoolConfigCodec := {| pool_config_to_string := fun c => Some (genesis_txn c) |}.

Definition source : string := "aaaaaaaaaaaaaaaaaaaaaaaaaaaaaaaa
bbbbbbbbbbbbbbbbbbbbbbbbbbbbbbbb
".
Definition service : PoolService := mk_pool_service ∅ ∅ ∅ ∅ [] 0 {["home"%string]} {["source"%string := source]} ∅ 2.

Lemma command_fetched_witness : fetch_event (E:=IndyErrorKind) (message 7 "refresh" None (Some (-5)%Z)) = Ok (Some (Refresh 7)) /\
  fetch_event (E:=IndyErrorKind) (message 8 "{}" (Some "[]"%string) (Some (-1)%Z)) = Ok (Some (SendRequest 8 "{}" None (Some "[]"%string))).
Proof.
  assert (is_i32 7 /\ is_i32 8 /\ is_i32 (-5) /\ is_i32 (-1)) as (h7 & h8 & h5 & hm) by (unfold is_i32; lia).
  split; [exact (command_fetched 7 "refresh" None (Some (-5)%Z) h7 h5 eq_refl I)|].
  exact (command_fetched 8 "{}" (Some "[]"%string) (Some (-1)%Z) h8 hm eq_refl eq_refl).
Defined.

Lemma pool_created_witness : exists s' text, ps_create "pool" (Some (mk_pool_config "source")) service = (Ok tt, s') /\
  genesis_of s' "pool" = Some text /\ length text = 2.
Proof.
  assert (exists s', ps_create "pool" (Some (mk_pool_config "source")) service = (Ok tt, s')) as [s' Hrun] by (eexists; vm_compute; reflexivity).
  destruct (pool_created "pool" (Some (mk_pool_config "source")) service s') as (_ & text & json & Htext & _ & _ & Hgen & _);
    [apply (bool_decide_unpack _); vm_compute; exact I|discriminate|discriminate|exact Hrun|].
  exists s', (text_lines text). split; [exact Hrun|]. split; [exact Hgen|]. cbv in Htext. injection Htext as <-. reflexivity.
Defined.

(** A pool that cannot be opened, since it was not created, and one that is not there to be closed *)
Definition some_events : list SystemEvent :=
  [UserCommand (Open "pool" None 5); ThreadStarts 1 None [] 0 0; UserCommand (ClosePool 9 6); ThreadTakes 1; TakeAck].

Lemma answers_expected_witness : exists s' called, system_run CryptoService_new some_events (system_new service (∅ : WalletMap)) = Some (s', called) /\
  called = [(6, inl InvalidPoolHandle); (5, inl PoolNotCreated)]%Z /\ [5; 6]%Z ≡ₚ called.*1 ++ waiting_cbs (executors s').
Proof.
  assert (match system_run CryptoService_new some_events (system_new service (∅ : WalletMap)) with
    | Some (s', called) => bool_decide (called = [(6, inl InvalidPoolHandle); (5, inl PoolNotCreated)]%Z) && bool_decide (unwound (pool_service (executors s')) = ∅)
    | None => false end = true) as Hok by (vm_compute; reflexivity).
  destruct (system_run _ _ _) as [[s' called]|] eqn:Hrun; [|discriminate Hok].
  apply andb_prop in Hok as [Hc%bool_decide_eq_true Hu%bool_decide_eq_true].
  exists s', called. split; [reflexivity|]. split; [exact Hc|].
  exact (proj1 (answers_expected CryptoService_new service ∅ some_events s' called eq_refl eq_refl Hrun Hu)).
Defined.

(** An active pool without requests *)
Definition open_pool : Pool := mk_pool "pool" 1 PoolOpenConfig_default.
Definition active_sm : PoolSM := mk_pool_sm "pool" 1 20 60 (Active (mk_active ∅ ∅)).
Definition idle_service : PoolService := mk_pool_service {[1%Z := open_pool]} ∅ {[1%Z := (open_pool, [])]} ∅ [] 1 ∅ ∅ ∅ 2.
Definition idle_system : System (W:=WalletMap) := mk_system (mk_executors idle_service ∅ ∅ ∅ ∅ ∅) {[1%Z := (active_sm, sample_world None None [])]} [].

Lemma idle : idle_pool idle_system 1 open_pool active_sm (mk_active ∅ ∅) (sample_world None None []).
Proof. split; try reflexivity; [apply map_Forall_empty|apply not_elem_of_empty]. Qed.


(** A request that closes the pool *)
Lemma exit_request_run : exists s', system_run CryptoService_new [UserCommand (SubmitRequest 1 "exit" 4); ThreadTakes 1; TakeAck] idle_system = Some (s', []) /\
  send_callbacks (executors s') !! 2%Z = Some 4%Z.
Proof.
  destruct (exit_request_lost CryptoService_new idle_system 1 open_pool active_sm (mk_active ∅ ∅) (sample_world None None []) 4 idle eq_refl)
    as (s' & w' & Hrun & _ & _ & Hs). exists s'. split; [exact Hrun|exact Hs].
Qed.
End ToyPools.
